(* ===== verification/_CoqProject ===== *)
-Q . S2P
Prelude.v
Intset.v
Dict.v
DictSpec.v
DictCorrect.v
DictScan.v
DictIface.v
Kvstore.v
KvstoreSpec.v
KvstoreCorrect.v
KvstoreRun.v
Crc.v
CrcSpec.v
Glob.v
HashSlot.v
Numconv.v
NumconvSpec.v
Sds.v
SdsSpec.v
Resp.v
RespSpec.v
RespRun.v
RespSafe.v
Aof.v
AofSpec.v
AofFs.v
AofInv.v
AofWp.v
AofRun.v
AofBugs.v
RespBugs.v
AofFile.v
AofFileSpec.v
AofTorn.v
Lzf.v
LzfSpec.v
Listpack.v
ListpackSpec.v
ListpackNav.v
ListpackFind.v
ListpackOps.v
ListpackRange.v
ListpackRun.v
Bitops.v
BitopsCount.v
BitopsField.v
BitopsCmd.v
Observe.v
ObserveSpec.v
ObserveCorrect.v
ObserveRun.v
Skiplist.v
SkiplistSpec.v
SkiplistOps.v
SkiplistOrder.v
SkiplistRange.v
SkiplistDelete.v
Zset.v
ZsetSpec.v
ZsetCorrect.v
ZsetRange.v
ZsetRun.v
Double.v
ZsetSame.v
Zzl.v
ZsetObj.v
ZzlSpec.v
ZzlOps.v
ZzlWalk.v
ZzlRange.v
ZzlCorrect.v
ZsetConvert.v
ZobjCorrect.v
ZobjRun.v
