(* ===== verification/Prelude.v ===== *)
(** * A verification of parts of the DiceDB server

    DiceDB is a C server derived from Valkey.  This library models the
    components below as Rocq functions, file by file and function by function,
    and proves what they are relied on for.  A definition has the name of the C
    function it translates; helpers for a loop or a branch are named after the
    function they belong to.

    ** Conventions

    Integers are [Z]; where the width matters a value is wrapped by [wrapu] or
    [wraps] and ranges are [fits_u] and [fits_s].  A buffer is a list of bytes.
    A function that can fault in C (an access outside a buffer, NULL, a freed
    object, a failed [assert]) returns an option and [None] is the fault, so a
    theorem that a result is [Some] is a theorem that the code does not fault.
    Loops that do not descend on a list take fuel; each has a lemma that the
    fuel given is enough, or that the result does not depend on it, and a loop
    that could not finish otherwise returns [None] without it.  Code outside the
    sources, or that a part only calls (the allocator, the order of a dict iterator,
    the command procedures run for an observer), is a parameter with its documented behaviour
    as hypotheses.

    ** Parts

    - Prelude.v: machine words, little-endian fields, byte memory and checked
      access to it, sorted lists, tactics, the hint databases [word] and [lens].
    - Intset.v (intset.c): sorted sets of integers with an encoding that grows.
      Adding, removing, finding and validating against a mathematical set.
    - Dict.v (dict.c, dict.h): the chained hash table with incremental rehashing.
      DictSpec.v has its invariant, DictCorrect.v the refinement to a finite map,
      DictScan.v the reverse-binary cursor of SCAN, and DictIface.v the classes
      [DictOps] and [DictLaws] that clients are proved against.
    - Kvstore.v (kvstore.c): the array of dicts with its counters and its binary
      indexed tree, over the interface of DictIface.v.  KvstoreSpec.v is about the
      tree, KvstoreCorrect.v about the invariant, KvstoreRun.v about whole runs,
      the searches by key index and the scan across dicts.
    - Observe.v (observe.c and its hooks in networking.c and server.c): observed
      commands.  ObserveSpec.v has the invariant of the subscription tables,
      ObserveCorrect.v the operations, ObserveRun.v notifications, the debounce
      timer and whole runs of the server.
    - Crc.v, CrcSpec.v (crc64.c, crcspeed.c, crccombine.c): the fast checksum
      equals the bitwise one for every alignment, length and cutoff.
    - Glob.v (util.c): the glob matcher against a reference semantics.
    - HashSlot.v (crc16.c, cluster.c): CRC-16 and the slots of keys and patterns.
    - Numconv.v, NumconvSpec.v (util.c): conversions between integers and text.
    - Lzf.v, LzfSpec.v (lzf_c.c, lzf_d.c): compression and decompression.
    - Listpack.v (listpack.c): the serialized lists.  ListpackSpec.v has the
      encodings and the relation [rep] between blocks and lists, ListpackNav.v
      traversal, ListpackFind.v search and validation, ListpackOps.v and
      ListpackRange.v the updates, ListpackRun.v sequences of updates.
    - Bitops.v (bitops.c): the commands on the bits of strings, from their
      arguments and the value of the key to the reply and the bytes stored.
      BitopsCount.v views a string as its bits and has the counting and finding
      routines, BitopsField.v integers at bit offsets and BITFIELD, BitopsCmd.v
      SETBIT, GETBIT, BITCOUNT, BITPOS and BITOP.
    - Skiplist.v (t_zset.c): the skiplists of sorted sets in a heap of nodes.
      SkiplistSpec.v has the order of scores and elements and the relation [rep]
      between heaps and lists, SkiplistOps.v insertion, deletion and release of
      nodes, SkiplistOrder.v the same in sorted lists, SkiplistRange.v ranks and
      ranges, SkiplistDelete.v the deletion of ranges.
    - Zset.v (t_zset.c): sorted sets as a skiplist and a dict.  ZsetSpec.v has the
      sorted list they represent, ZsetCorrect.v and ZsetRange.v the operations,
      ZsetRun.v sequences of operations.
    - Double.v (util.c): the integers and the text of doubles.  Zzl.v and
      ZsetObj.v (t_zset.c, object.c): sorted sets in listpacks, and objects that
      change from one encoding to the other.  ZzlSpec.v views a listpack as
      pairs of element and score, ZzlOps.v has search and updates, ZzlWalk.v the
      loops over the pairs, ZzlRange.v ranges and ZzlCorrect.v the operations.
      ZsetSame.v is about sorted lists that differ in the sign of zeros only,
      ZsetConvert.v about the conversions, ZobjCorrect.v and ZobjRun.v about
      objects and sequences of operations on them.
    - Sds.v, SdsSpec.v (sds.c): quoting and splitting of arguments.
    - Resp.v (networking.c): the query buffer of a client, the parsers of inline and
      of multi bulk requests, and the loop that executes what they find, for
      clients and for the link to a primary.  RespSpec.v has the encoding of
      requests and the parser in the middle of one, RespRun.v pipelines of
      requests cut into reads, RespSafe.v arbitrary bytes and the stream of a
      primary, RespBugs.v runs on concrete bytes.
    - Aof.v (aof.c): the manifest of the append only files, its text and its
      loading; AofSpec.v has the round trip.  AofFs.v (aof.c, server.c) has the
      functions that open, write, rename and delete the files, as computations
      over a directory in which every system call takes an event: it
      succeeds, fails, or the process dies before it.  AofInv.v has the names of the
      files and the disks from which a start recovers, AofWp.v a small logic
      for runs that can die, AofRun.v the operations and the lives of a
      server, AofBugs.v runs outside the assumptions.  AofFile.v (aof.c) has the
      bytes: how commands are spelled and how a file is read back; AofFileSpec.v
      follows the loader over whole items and over one that is cut, AofTorn.v
      has files that end anywhere.

    The parts meet as in the server: the kvstore is proved for any dict with
    [DictLaws] and instantiated with the hash table; observed commands use the
    CRC of Crc.v for fingerprints; the slot of a pattern is related to the glob
    matcher; listpacks and the bit commands print and parse integers with
    Numconv.v; a sorted set keeps the hash table of Dict.v and a skiplist in step,
    or is a listpack of Listpack.v, and the same theorem is about both; the
    manifest of the append only files is split by the tokenizer of Sds.v, and the
    dataset the files hold is any instance of the classes [AofData], which
    has the operations, and [AofDataOk], which says that a rewritten file holds
    the dataset it was written for.

    ** What the theorems show

    - Refinement: dict, kvstore, listpack and sorted set operations, in any
      sequence, act like finite maps, lists and sorted lists; the intset acts
      like a set.
    - Iteration: a SCAN over a dict or a kvstore that is resized and rehashed
      between calls returns every element present throughout, and it ends.
    - Invariants: the subscription tables of observed commands agree with each
      other after any sequence of commands, disconnections and timers; the levels,
      spans and backward pointers of a skiplist are right after any operations.
    - Requests: a pipeline of requests is executed exactly once and in order
      however the network cuts it; a replica passes on exactly the bytes of its
      primary up to the offset it reports.
    - Crash safety: a server that writes append only files can be killed between
      any two system calls, also while it starts or rewrites, and the next
      start finds every command that was written, through any number of lives.  A
      file that ends in the middle of a command is repaired, and what is appended
      to it later is loaded.
    - Equivalence of fast code with a reference: checksums, glob matching, number
      conversions, index searches in the tree, counting, finding and combining
      bits by words.
    - Round trips: number to text and back, LZF, listpack insertion and reading,
      sorted sets from one encoding to the other and back, the manifest of the
      append only files and the commands in them.
    - Memory safety: results are [Some] under the hypotheses stated, for the
      decompressor, the intset validator and the request parsers on arbitrary bytes.
    - Departures from what comments and callers expect are theorems too: the
      counters of the kvstore that drift, the UNOBSERVE crash, the debounce buffer
      that forgets the database, colliding fingerprints, negative unsigned numbers,
      a saturation to the wrong end of the range, a negative offset that the two
      encodings of a sorted set take differently, a file name that the manifest
      cannot hold, a line of blanks after which a request is taken apart, the runs
      after which append only files are lost or replayed twice, and the two places where a file that is cut is not repaired.

    ** Bounds

    Fuel is the length of the buffer or list for loops that consume it, 64 turns
    for loops over the bits of a 64-bit word, 10 for the digit pairs of a number,
    5 for the bytes of a listpack back length.  The overflow check of dict.c leaves
    tables of at most 2^60 buckets; listpacks are bounded by their 32-bit
    header, and an update beyond it returns NULL in the model as in the code.
    Walks along a skiplist have the size of the heap as fuel, walks along a
    listpack its length.  A sorted set in a listpack stays below 4 GB when
    zset-max-listpack-entries times zset-max-listpack-value plus 44 does, which is
    a hypothesis: the code does not check it when a score grows.  The lines of a
    manifest are at most 1024 bytes for a configured name of at most 230, and the
    sequence numbers of a run stay below 2^63.  The loops over a query buffer have
    the bytes not read yet as fuel; the shared buffer is smaller than the arguments
    that are read into a buffer of their own, which is a hypothesis on its capacity.

    ** Not modelled

    Sockets, replies, replication, RDB files, the cluster bus, scripting, modules,
    the command line tools and the test suites are system calls, protocols with
    other processes and libraries; of them only the hooks named above are
    modelled.  AofFs.v models append only files as files of commands; their bytes, and
    a file that ends inside a command, are in AofFile.v, without RDB preambles.  The time
    at which data reaches the disk and the policies that decide when to rewrite are left
    out, and the crash theorem is about [appendonly yes] with a forced flush and a sync
    of the directory that do not fail.  Requests are modelled up to the execution of a
    command, whose effects on the client are a parameter; blocked clients and the
    threads that read for the main thread are not modelled.  The bit commands are modelled on string values: looking up the
    key, refusing other types and storing the result are left to the caller.
    Scores are the [double]s of the Standard Library's SpecFloat.  Other
    floating-point code (geo, hyperloglog estimates) is left out.  Active
    defragmentation and the iterators of dicts and kvstores, which expose
    pointers into the tables, are not modelled; nor are the random selections of
    dict.c and listpack.c, which draw many numbers from the generator. *)
From stdpp Require Import prelude list numbers sorting.
From Stdlib Require Import ZArith Lia.

#[local] Open Scope Z_scope.

(** ** Tactics *)

(** One step of a computation in the option monad. *)
Tactic Notation "mstep" := cbn [mbind option_bind].
Tactic Notation "mstep" "in" hyp(H) := cbn [mbind option_bind] in H.

(** Lengths of lists put together from others; the rewrite database is
    extended below and where a component has functions of its own. *)
Create Rewrite HintDb lens.
#[export] Hint Rewrite @length_app @length_take @length_drop @length_replicate @length_insert @length_fmap : lens.

Ltac solve_len := autorewrite with lens in *; simpl in *; lia.

(** Values of a word that fit it. *)
Create HintDb word discriminated.

(** ** Machine integers *)

(** [wrapu w x] is the value of [x] stored in an unsigned [w]-bit variable,
    [wraps w x] in a signed (two's complement) one. *)
Definition wrapu (w x : Z) : Z := x mod 2 ^ w.
Definition wraps (w x : Z) : Z := (x + 2 ^ (w - 1)) mod 2 ^ w - 2 ^ (w - 1).

Definition fits_s (w x : Z) : Prop := - 2 ^ (w - 1) <= x < 2 ^ (w - 1).
Definition fits_u (w x : Z) : Prop := 0 <= x < 2 ^ w.

Lemma wrapu_id w x : fits_u w x -> wrapu w x = x.
Proof. unfold fits_u, wrapu. intros. by apply Z.mod_small. Qed.

Lemma wrapu_bound w x : 0 <= w -> fits_u w (wrapu w x).
Proof. intros. apply Z.mod_pos_bound, Z.pow_pos_nonneg; lia. Qed.

Lemma pow2_double w : 1 <= w -> 2 ^ w = 2 * 2 ^ (w - 1).
Proof. intros. rewrite <- Z.pow_succ_r by lia. f_equal. lia. Qed.

Lemma wraps_id w x : 1 <= w -> fits_s w x -> wraps w x = x.
Proof.
  unfold fits_s, wraps. intros Hw H. pose proof (pow2_double w Hw).
  rewrite Z.mod_small; lia.
Qed.

Lemma wraps_bound w x : 1 <= w -> fits_s w (wraps w x).
Proof.
  unfold fits_s, wraps. intros Hw. pose proof (pow2_double w Hw).
  pose proof (Z.mod_pos_bound (x + 2 ^ (w - 1)) (2 ^ w)).
  pose proof (Z.pow_pos_nonneg 2 (w - 1)). lia.
Qed.

Lemma wraps_mod w x : 1 <= w -> wraps w (x mod 2 ^ w) = wraps w x.
Proof.
  intros Hw. unfold wraps. pose proof (Z.pow_pos_nonneg 2 w ltac:(lia) ltac:(lia)).
  by rewrite Zplus_mod_idemp_l.
Qed.

(** Bits of words *)

Lemma wrapu_testbit w x i : 0 <= w -> 0 <= i -> Z.testbit (wrapu w x) i = (i <? w) && Z.testbit x i.
Proof.
  intros Hw Hi. unfold wrapu. destruct (Z.ltb_spec i w).
  - by rewrite Z.mod_pow2_bits_low by lia.
  - by rewrite Z.mod_pow2_bits_high by lia.
Qed.

Lemma testbit_high w x i : fits_u w x -> w <= i -> Z.testbit x i = false.
Proof.
  intros [H0 Hx] Hi. destruct (Z.eq_dec x 0) as [->|]; [apply Z.testbit_0_l|].
  apply Z.bits_above_log2; [done|]. apply Z.log2_lt_pow2; [lia|].
  eapply Z.lt_le_trans; [exact Hx|]. apply Z.pow_le_mono_r; lia.
Qed.

Lemma fits_u_bits w x : 0 <= w -> (forall i, w <= i -> Z.testbit x i = false) -> 0 <= x -> fits_u w x.
Proof.
  intros Hw Hb Hx. split; [done|]. destruct (Z.eq_dec x 0) as [->|]; [by apply Z.pow_pos_nonneg|].
  apply Z.log2_lt_pow2; [lia|]. destruct (Z.lt_ge_cases (Z.log2 x) w) as [|Hge]; [done|].
  specialize (Hb _ Hge). rewrite Z.bit_log2 in Hb by lia. done.
Qed.

Lemma word_bits_inj w x y :
  fits_u w x -> fits_u w y -> (forall i, 0 <= i < w -> Z.testbit x i = Z.testbit y i) -> x = y.
Proof.
  intros Hx Hy Hb. apply Z.bits_inj'. intros i Hi. destruct (Z.lt_ge_cases i w).
  - by apply Hb.
  - by rewrite (testbit_high w x), (testbit_high w y).
Qed.

Lemma lnot_u_testbit w x i :
  0 <= w -> 0 <= i -> Z.testbit (wrapu w (Z.lnot x)) i = (i <? w) && negb (Z.testbit x i).
Proof. intros. by rewrite wrapu_testbit, Z.lnot_spec. Qed.

Lemma lor_fits w x y : 0 <= w -> fits_u w x -> fits_u w y -> fits_u w (Z.lor x y).
Proof.
  intros Hw Hx Hy. apply fits_u_bits; [done| |apply Z.lor_nonneg; split; [apply Hx|apply Hy]].
  intros i Hi. by rewrite Z.lor_spec, (testbit_high w x), (testbit_high w y).
Qed.

Lemma land_fits w x y : 0 <= w -> fits_u w x -> fits_u w (Z.land x y).
Proof.
  intros Hw Hx. apply fits_u_bits; [done| |apply Z.land_nonneg; left; apply Hx].
  intros i Hi. by rewrite Z.land_spec, (testbit_high w x).
Qed.

Lemma lxor_fits w x y : 0 <= w -> fits_u w x -> fits_u w y -> fits_u w (Z.lxor x y).
Proof.
  intros Hw Hx Hy. apply fits_u_bits; [done| |].
  - intros i Hi. by rewrite Z.lxor_spec, (testbit_high w x), (testbit_high w y).
  - apply Z.lxor_nonneg. destruct Hx, Hy. tauto.
Qed.

#[export] Hint Resolve wrapu_bound lor_fits land_fits lxor_fits : word.
#[export] Hint Extern 1 (_ <= _) => lia : word.

(** Fields of a word that do not overlap. *)
Lemma land_disjoint v b d : 0 <= b -> fits_u b d -> Z.land (v * 2 ^ b) d = 0.
Proof.
  intros Hb Hd. apply Z.bits_inj'. intros i Hi. rewrite Z.land_spec, Z.testbit_0_l.
  destruct (Z.lt_ge_cases i b).
  - by rewrite Z.mul_pow2_bits_low by lia.
  - by rewrite (testbit_high b d), andb_false_r.
Qed.

Lemma lor_disjoint v b d : 0 <= b -> fits_u b d -> Z.lor (v * 2 ^ b) d = v * 2 ^ b + d.
Proof. intros Hb Hd. rewrite <- Z.add_lor_land, land_disjoint by done. lia. Qed.

(** ** Little-endian byte sequences *)

Fixpoint le_encode (n : nat) (x : Z) : list Z :=
  match n with
  | O => []
  | S n => x mod 256 :: le_encode n (x / 256)
  end.

Fixpoint le_decode (bs : list Z) : Z :=
  match bs with
  | [] => 0
  | b :: bs => b + 256 * le_decode bs
  end.

Definition is_byte (b : Z) : Prop := 0 <= b < 256.

(** A fact on a small interval is a computation. *)
Definition all_between (lo hi : Z) (P : Z -> bool) : bool := forallb P (seqZ lo (hi - lo)).

Lemma all_between_spec lo hi P b : all_between lo hi P = true -> lo <= b < hi -> P b = true.
Proof.
  intros H Hb. unfold all_between in H. rewrite forallb_forall in H. apply H.
  apply list_elem_of_In, elem_of_seqZ. lia.
Qed.

Lemma length_le_encode n x : length (le_encode n x) = n.
Proof. revert x. induction n; intros; simpl; auto. Qed.

Lemma pow2_succ8 n : 2 ^ (8 * Z.of_nat (S n)) = 256 * 2 ^ (8 * Z.of_nat n).
Proof.
  replace (8 * Z.of_nat (S n)) with (8 + 8 * Z.of_nat n) by lia.
  rewrite Z.pow_add_r by lia. done.
Qed.

Lemma le_decode_encode n x : le_decode (le_encode n x) = x mod 2 ^ (8 * Z.of_nat n).
Proof.
  revert x. induction n as [|n IH]; intros x.
  - simpl. by rewrite Z.mod_1_r.
  - cbn [le_encode le_decode]. rewrite IH, pow2_succ8.
    pose proof (Z.pow_pos_nonneg 2 (8 * Z.of_nat n) ltac:(lia) ltac:(lia)).
    rewrite Z.rem_mul_r by lia. done.
Qed.

Lemma le_encode_bytes n x : Forall is_byte (le_encode n x).
Proof.
  revert x. induction n; intros; simpl; constructor; auto.
  apply Z.mod_pos_bound. lia.
Qed.

Lemma le_decode_bound bs :
  Forall is_byte bs -> 0 <= le_decode bs < 2 ^ (8 * Z.of_nat (length bs)).
Proof.
  induction 1 as [|b bs Hb _ IH]; [simpl; lia|].
  cbn [le_decode length]. rewrite pow2_succ8. unfold is_byte in Hb. lia.
Qed.

Lemma le_encode_decode bs : Forall is_byte bs -> le_encode (length bs) (le_decode bs) = bs.
Proof.
  induction 1 as [|b bs Hb _ IH]; [done|].
  cbn [le_decode length le_encode]. unfold is_byte in Hb.
  replace ((b + 256 * le_decode bs) mod 256) with b.
  2:{ rewrite Z.add_comm, Z.mul_comm, Z.add_comm, Z.mod_add by lia.
      symmetry. apply Z.mod_small. lia. }
  replace ((b + 256 * le_decode bs) / 256) with (le_decode bs).
  2:{ rewrite Z.mul_comm, Z.div_add by lia. rewrite (Z.div_small b) by lia. lia. }
  by rewrite IH.
Qed.

Lemma le_encode_mod n x y :
  x mod 2 ^ (8 * Z.of_nat n) = y mod 2 ^ (8 * Z.of_nat n) -> le_encode n x = le_encode n y.
Proof.
  intros H.
  rewrite <- (le_encode_decode (le_encode n x)), <- (le_encode_decode (le_encode n y)),
    !length_le_encode, !le_decode_encode, H by apply le_encode_bytes. done.
Qed.

#[export] Hint Rewrite length_le_encode : lens.

#[global] Arguments le_encode : simpl never.
#[global] Arguments le_decode : simpl never.

(** ** Byte memory *)

(** [mem_read off n m] is the [n] bytes of the buffer [m] at offset [off];
    [mem_write off bs m] overwrites them by [bs]. *)
Definition mem_read (off n : nat) (m : list Z) : list Z := take n (drop off m).
Definition mem_write (off : nat) (bs m : list Z) : list Z :=
  take off m ++ bs ++ drop (off + length bs) m.

(** [memmove dst src n]: the copy behaves as if the source were read first. *)
Definition memmove (dst src n : nat) (m : list Z) : list Z :=
  mem_write dst (mem_read src n m) m.

(** [realloc junk n m]: the common prefix is kept, fresh bytes are unspecified
    (here [junk], over which every theorem quantifies). *)
Definition realloc (junk : Z) (n : nat) (m : list Z) : list Z :=
  take n m ++ replicate (n - length m) junk.

Lemma length_mem_read off n m :
  (off + n <= length m)%nat -> length (mem_read off n m) = n.
Proof. intros. unfold mem_read. rewrite length_take, length_drop. lia. Qed.

Lemma length_mem_write off bs m :
  (off + length bs <= length m)%nat -> length (mem_write off bs m) = length m.
Proof.
  intros. unfold mem_write. rewrite !length_app, length_take, length_drop. lia.
Qed.

Lemma length_realloc junk n m : length (realloc junk n m) = n.
Proof. unfold realloc. rewrite length_app, length_take, length_replicate. lia. Qed.

Lemma mem_read_lookup off n m i :
  mem_read off n m !! i = if decide (i < n)%nat then m !! (off + i)%nat else None.
Proof.
  unfold mem_read. case_decide.
  - rewrite lookup_take_lt, lookup_drop by done. done.
  - by rewrite lookup_take_ge by lia.
Qed.

Lemma mem_write_lookup off bs m i :
  (off + length bs <= length m)%nat ->
  mem_write off bs m !! i =
    if decide (off <= i < off + length bs)%nat then bs !! (i - off)%nat else m !! i.
Proof.
  intros Hlen. unfold mem_write. case_decide as Hi.
  - rewrite lookup_app_r by (rewrite length_take; lia).
    rewrite lookup_app_l by (rewrite length_take; lia).
    rewrite length_take. f_equal. lia.
  - destruct (decide (i < off)%nat).
    + rewrite lookup_app_l by (rewrite length_take; lia).
      by rewrite lookup_take_lt.
    + rewrite lookup_app_r by (rewrite length_take; lia).
      rewrite length_take.
      rewrite lookup_app_r by lia. rewrite lookup_drop. f_equal. lia.
Qed.

Lemma mem_read_write_same off bs m :
  (off + length bs <= length m)%nat -> mem_read off (length bs) (mem_write off bs m) = bs.
Proof.
  intros. apply list_eq. intros i. rewrite mem_read_lookup. case_decide.
  - rewrite mem_write_lookup by done. rewrite decide_True by lia. f_equal. lia.
  - symmetry. apply lookup_ge_None. lia.
Qed.

Lemma mem_read_write_disjoint off off' n bs m :
  (off + length bs <= length m)%nat ->
  (off' + n <= off \/ off + length bs <= off')%nat ->
  mem_read off' n (mem_write off bs m) = mem_read off' n m.
Proof.
  intros. apply list_eq. intros i. rewrite !mem_read_lookup. case_decide; [|done].
  rewrite mem_write_lookup by done. by rewrite decide_False by lia.
Qed.

Lemma mem_read_all m : mem_read 0 (length m) m = m.
Proof. unfold mem_read. rewrite drop_0. by apply take_ge. Qed.

Lemma mem_read_app_l off n m1 m2 :
  (off + n <= length m1)%nat -> mem_read off n (m1 ++ m2) = mem_read off n m1.
Proof.
  intros. apply list_eq. intros i. rewrite !mem_read_lookup. case_decide; [|done].
  by rewrite lookup_app_l by lia.
Qed.

Lemma mem_read_app_r off n m1 m2 :
  mem_read (length m1 + off) n (m1 ++ m2) = mem_read off n m2.
Proof. unfold mem_read. by rewrite drop_app_add. Qed.

Lemma mem_read_realloc junk off n k m :
  (off + n <= k)%nat -> (off + n <= length m)%nat ->
  mem_read off n (realloc junk k m) = mem_read off n m.
Proof.
  intros. unfold realloc. rewrite mem_read_app_l by (rewrite length_take; lia).
  apply list_eq. intros i. rewrite !mem_read_lookup. case_decide; [|done].
  by rewrite lookup_take_lt by lia.
Qed.

Lemma mem_read_mem_read off n off' n' m :
  (off' + n' <= n)%nat -> mem_read off' n' (mem_read off n m) = mem_read (off + off') n' m.
Proof.
  intros. apply list_eq. intros i. rewrite !mem_read_lookup. case_decide; [|done].
  rewrite decide_True by lia. f_equal. lia.
Qed.

(** Splitting a read in two adjacent ones. *)
Lemma mem_read_split off n1 n2 m :
  mem_read off (n1 + n2) m = mem_read off n1 m ++ mem_read (off + n1) n2 m.
Proof.
  unfold mem_read. rewrite <- drop_drop.
  by rewrite <- (take_take_drop (drop off m) n1 n2).
Qed.

(** ** Checked access

    Offsets are integers; an access outside the buffer is the fault [None]. *)

Definition load (m : list Z) (p : Z) : option Z := if p <? 0 then None else m !! Z.to_nat p.

Definition store (m : list Z) (p v : Z) : option (list Z) :=
  if (p <? 0) || (Z.of_nat (length m) <=? p) then None else Some (<[Z.to_nat p := v]> m).

Definition inside (m : list Z) (p n : Z) : bool :=
  (0 <=? p) && (0 <=? n) && (p + n <=? Z.of_nat (length m)).

Definition load_bytes (m : list Z) (p n : Z) : option (list Z) :=
  if inside m p n then Some (mem_read (Z.to_nat p) (Z.to_nat n) m) else None.

Definition store_bytes (m : list Z) (p : Z) (bs : list Z) : option (list Z) :=
  if inside m p (Z.of_nat (length bs)) then Some (mem_write (Z.to_nat p) bs m) else None.

(** [memmove], and [memcpy] inside one buffer. *)
Definition move_bytes (m : list Z) (dst src n : Z) : option (list Z) :=
  bs ← load_bytes m src n; store_bytes m dst bs.

Lemma load_nat l (i : nat) : load l (Z.of_nat i) = l !! i.
Proof. unfold load. rewrite Nat2Z.id. destruct (Z.ltb_spec (Z.of_nat i) 0); [lia|done]. Qed.

Lemma load_lookup l i : 0 <= i -> load l i = l !! Z.to_nat i.
Proof. intros. unfold load. destruct (Z.ltb_spec i 0); [lia|done]. Qed.

Lemma load_some l i : 0 <= i < Z.of_nat (length l) -> exists b, load l i = Some b.
Proof. intros. rewrite load_lookup by lia. apply lookup_lt_is_Some_2. lia. Qed.

Lemma load_inv l i b : load l i = Some b -> 0 <= i < Z.of_nat (length l) /\ l !! Z.to_nat i = Some b.
Proof.
  unfold load. destruct (Z.ltb_spec i 0); [done|]. intros Hb.
  pose proof (lookup_lt_Some _ _ _ Hb). split; [lia|done].
Qed.

Lemma store_some l i v :
  0 <= i < Z.of_nat (length l) -> store l i v = Some (<[Z.to_nat i := v]> l).
Proof.
  intros. unfold store. destruct (Z.ltb_spec i 0); [lia|].
  destruct (Z.leb_spec (Z.of_nat (length l)) i); [lia|done].
Qed.

Lemma inside_true m p n : 0 <= p -> 0 <= n -> p + n <= Z.of_nat (length m) -> inside m p n = true.
Proof. intros. unfold inside. by rewrite !andb_true_iff, !Z.leb_le. Qed.

(** The same for a buffer given as a concatenation. *)
Lemma load_app pre suf k : 0 <= k -> load (pre ++ suf) (Z.of_nat (length pre) + k) = load suf k.
Proof.
  intros. rewrite !load_lookup by lia. rewrite lookup_app_r by lia. f_equal. lia.
Qed.

Lemma load_head pre b suf : load (pre ++ b :: suf) (Z.of_nat (length pre)) = Some b.
Proof. rewrite load_nat, lookup_app_r, Nat.sub_diag by lia. done. Qed.

Lemma load_bytes_app pre bs suf n :
  n = Z.of_nat (length bs) -> load_bytes (pre ++ bs ++ suf) (Z.of_nat (length pre)) n = Some bs.
Proof.
  intros ->. unfold load_bytes. rewrite inside_true by (rewrite ?length_app; lia).
  rewrite !Nat2Z.id. f_equal. unfold mem_read. by rewrite drop_app_length, take_app_length.
Qed.

Lemma store_bytes_app pre old bs suf :
  length old = length bs -> store_bytes (pre ++ old ++ suf) (Z.of_nat (length pre)) bs = Some (pre ++ bs ++ suf).
Proof.
  intros Hl. unfold store_bytes. rewrite inside_true by (rewrite ?length_app; lia).
  rewrite Nat2Z.id. f_equal. unfold mem_write. rewrite take_app_length, drop_app_add.
  by rewrite <- Hl, drop_app_length.
Qed.

(** ** Strictly increasing lists *)

Lemma ssorted_lookup (l : list Z) :
  StronglySorted Z.lt l <->
  (forall i j x y, (i < j)%nat -> l !! i = Some x -> l !! j = Some y -> x < y).
Proof.
  split.
  - induction 1 as [|a l _ IH Hall]; intros i j x y Hij Hi Hj; [done|].
    destruct j as [|j]; [lia|]. destruct i as [|i]; simplify_eq/=.
    + rewrite Forall_lookup in Hall. eauto.
    + eapply (IH i j); eauto. lia.
  - induction l as [|a l IH]; intros H; constructor.
    + apply IH. intros i j x y Hij Hi Hj. apply (H (S i) (S j)); auto. lia.
    + rewrite Forall_lookup. intros i x Hi. apply (H 0%nat (S i)); auto. lia.
Qed.

Lemma lookup_insert_at {A} (l : list A) (k : nat) (v : A) i :
  (k <= length l)%nat ->
  (take k l ++ v :: drop k l) !! i =
    if decide (i < k)%nat then l !! i
    else if decide (i = k) then Some v else l !! (i - 1)%nat.
Proof.
  intros Hk. case_decide.
  - rewrite lookup_app_l by (rewrite length_take; lia). by apply lookup_take_lt.
  - rewrite lookup_app_r by (rewrite length_take; lia). rewrite length_take.
    replace (k `min` length l)%nat with k by lia. case_decide.
    + subst. by rewrite Nat.sub_diag.
    + destruct (i - k)%nat as [|d] eqn:Hd; [lia|]. simpl. rewrite lookup_drop. f_equal. lia.
Qed.

Lemma lookup_remove_at {A} (l : list A) (k : nat) i :
  (k <= length l)%nat ->
  (take k l ++ drop (S k) l) !! i = if decide (i < k)%nat then l !! i else l !! S i.
Proof.
  intros Hk. case_decide.
  - rewrite lookup_app_l by (rewrite length_take; lia). by apply lookup_take_lt.
  - rewrite lookup_app_r by (rewrite length_take; lia). rewrite length_take, lookup_drop.
    f_equal. lia.
Qed.

Lemma ssorted_insert_at (l : list Z) k v :
  (k <= length l)%nat -> StronglySorted Z.lt l ->
  (forall i x, l !! i = Some x -> (i < k)%nat -> x < v) ->
  (forall i x, l !! i = Some x -> (k <= i)%nat -> v < x) ->
  StronglySorted Z.lt (take k l ++ v :: drop k l).
Proof.
  rewrite !ssorted_lookup. intros Hk Hs Hlo Hhi i j x y Hij.
  rewrite !lookup_insert_at by done. intros Hi Hj.
  repeat case_decide; simplify_eq; try lia;
    first [ eapply Hs; [|eassumption|eassumption]; lia
          | eapply Hlo; [eassumption|lia] | eapply Hhi; [eassumption|lia] ].
Qed.

Lemma ssorted_remove_at (l : list Z) k :
  (k <= length l)%nat -> StronglySorted Z.lt l ->
  StronglySorted Z.lt (take k l ++ drop (S k) l).
Proof.
  rewrite !ssorted_lookup. intros Hk Hs i j x y Hij.
  rewrite !lookup_remove_at by done. intros Hi Hj.
  repeat case_decide; try lia; (eapply Hs; [|eassumption|eassumption]; lia).
Qed.

Lemma mem_read_memmove dst src n off k m :
  (src + n <= length m)%nat -> (dst + n <= length m)%nat ->
  (dst <= off)%nat -> (off + k <= dst + n)%nat ->
  mem_read off k (memmove dst src n m) = mem_read (src + (off - dst)) k m.
Proof.
  intros Hs Hd Ho Hk. unfold memmove. apply list_eq. intros i.
  rewrite !mem_read_lookup. case_decide; [|done].
  rewrite mem_write_lookup by (rewrite length_mem_read; lia).
  rewrite length_mem_read, decide_True, mem_read_lookup, decide_True by lia. f_equal. lia.
Qed.

Lemma length_memmove dst src n m :
  (src + n <= length m)%nat -> (dst + n <= length m)%nat ->
  length (memmove dst src n m) = length m.
Proof. intros. apply length_mem_write. rewrite length_mem_read; lia. Qed.

Lemma mem_read_memmove_disjoint dst src n off k m :
  (src + n <= length m)%nat -> (dst + n <= length m)%nat ->
  (off + k <= dst \/ dst + n <= off)%nat ->
  mem_read off k (memmove dst src n m) = mem_read off k m.
Proof.
  intros. unfold memmove. apply mem_read_write_disjoint; rewrite length_mem_read; lia.
Qed.

Lemma mem_read_write_le off n v m :
  (off + n <= length m)%nat ->
  mem_read off n (mem_write off (le_encode n v) m) = le_encode n v.
Proof.
  intros. pose proof (mem_read_write_same off (le_encode n v) m) as Hs.
  rewrite length_le_encode in Hs. by apply Hs.
Qed.
