(* ===== verification/Intset.v ===== *)
(** * The integer set (src/intset.c) *)
From S2P Require Import Prelude.
From stdpp Require Import prelude list numbers sorting gmap.
From Stdlib Require Import ZArith Lia.

#[local] Open Scope Z_scope.

(** ** Data *)

Definition INTSET_ENC_INT16 : Z := 2.
Definition INTSET_ENC_INT32 : Z := 4.
Definition INTSET_ENC_INT64 : Z := 8.

Record intset := Intset {
  is_encoding : Z;        (* uint32_t encoding *)
  is_length : Z;          (* uint32_t length *)
  is_contents : list Z    (* int8_t contents[] *)
}.

(** ** Operations *)

Definition _intsetValueEncoding (v : Z) : Z :=
  if (v <? -2147483648) || (v >? 2147483647) then INTSET_ENC_INT64
  else if (v <? -32768) || (v >? 32767) then INTSET_ENC_INT32
  else INTSET_ENC_INT16.

Definition _intsetGetEncoded (s : intset) (pos enc : Z) : Z :=
  if enc =? INTSET_ENC_INT64 then
    wraps 64 (le_decode (mem_read (Z.to_nat (pos * 8)) 8 (is_contents s)))
  else if enc =? INTSET_ENC_INT32 then
    wraps 32 (le_decode (mem_read (Z.to_nat (pos * 4)) 4 (is_contents s)))
  else
    wraps 16 (le_decode (mem_read (Z.to_nat (pos * 2)) 2 (is_contents s))).

Definition _intsetGet (s : intset) (pos : Z) : Z :=
  _intsetGetEncoded s pos (is_encoding s).

Definition _intsetSet (s : intset) (pos value : Z) : intset :=
  let encoding := is_encoding s in
  let store n :=
    Intset encoding (is_length s)
      (mem_write (Z.to_nat (pos * Z.of_nat n)) (le_encode n value) (is_contents s)) in
  if encoding =? INTSET_ENC_INT64 then store 8%nat
  else if encoding =? INTSET_ENC_INT32 then store 4%nat
  else store 2%nat.

Definition intsetNew : intset := Intset INTSET_ENC_INT16 0 [].

(** Fresh memory returned by [zrealloc] holds unspecified bytes: [junk]. *)
Definition intsetResize (junk : Z) (s : intset) (len : Z) : intset :=
  let size := len * is_encoding s in
  Intset (is_encoding s) (is_length s) (realloc junk (Z.to_nat size) (is_contents s)).

(** The [while (max >= min)] loop; the result is [(min, mid, cur)] at its exit. *)
Fixpoint intsetSearch_loop (fuel : nat) (s : intset) (value min max mid cur : Z) : Z * Z * Z :=
  match fuel with
  | O => (min, mid, cur)
  | S fuel =>
      if max >=? min then
        let mid := Z.shiftr (wrapu 32 (min + max)) 1 in
        let cur := _intsetGet s mid in
        if value >? cur then intsetSearch_loop fuel s value (mid + 1) max mid cur
        else if value <? cur then intsetSearch_loop fuel s value min (mid - 1) mid cur
        else (min, mid, cur)
      else (min, mid, cur)
  end.

(** Returns the flag and [*pos]. *)
Definition intsetSearch (s : intset) (value : Z) : bool * Z :=
  let max := is_length s - 1 in
  if is_length s =? 0 then (false, 0)
  else if value >? _intsetGet s max then (false, is_length s)
  else if value <? _intsetGet s 0 then (false, 0)
  else
    let '(min, mid, cur) :=
      intsetSearch_loop (S (Z.to_nat (is_length s))) s value 0 max (-1) (-1) in
    if value =? cur then (true, mid) else (false, min).

(** [while (length--) _intsetSet(is, length + prepend, _intsetGetEncoded(is, length, curenc))] *)
Fixpoint intsetUpgrade_loop (length : nat) (prepend curenc : Z) (s : intset) : intset :=
  match length with
  | O => s
  | S length =>
      let i := Z.of_nat length in
      intsetUpgrade_loop length prepend curenc
        (_intsetSet s (i + prepend) (_intsetGetEncoded s i curenc))
  end.

Definition intsetUpgradeAndAdd (junk : Z) (s : intset) (value : Z) : intset :=
  let curenc := is_encoding s in
  let newenc := _intsetValueEncoding value in
  let length := is_length s in
  let prepend := if value <? 0 then 1 else 0 in
  let s := Intset newenc (is_length s) (is_contents s) in
  let s := intsetResize junk s (wrapu 32 (is_length s + 1)) in
  let s := intsetUpgrade_loop (Z.to_nat length) prepend curenc s in
  let s := if prepend =? 0 then _intsetSet s (is_length s) value
            else _intsetSet s 0 value in
  Intset (is_encoding s) (wrapu 32 (is_length s + 1)) (is_contents s).

Definition intsetMoveTail (s : intset) (from to : Z) : intset :=
  let bytes := wrapu 32 (is_length s - from) in
  let encoding := is_encoding s in
  let move n :=
    let bytes := wrapu 32 (bytes * n) in
    Intset encoding (is_length s)
      (memmove (Z.to_nat (to * n)) (Z.to_nat (from * n)) (Z.to_nat bytes) (is_contents s)) in
  if encoding =? INTSET_ENC_INT64 then move 8
  else if encoding =? INTSET_ENC_INT32 then move 4
  else move 2.

(** Returns the set and [*success]. *)
Definition intsetAdd (junk : Z) (s : intset) (value : Z) : intset * bool :=
  let valenc := _intsetValueEncoding value in
  if valenc >? is_encoding s then (intsetUpgradeAndAdd junk s value, true)
  else
    let '(found, pos) := intsetSearch s value in
    if found then (s, false)
    else
      let s := intsetResize junk s (wrapu 32 (is_length s + 1)) in
      let s := if pos <? is_length s then intsetMoveTail s pos (pos + 1) else s in
      let s := _intsetSet s pos value in
      (Intset (is_encoding s) (wrapu 32 (is_length s + 1)) (is_contents s), true).

Definition intsetRemove (junk : Z) (s : intset) (value : Z) : intset * bool :=
  let valenc := _intsetValueEncoding value in
  if valenc <=? is_encoding s then
    let '(found, pos) := intsetSearch s value in
    if found then
      let len := is_length s in
      let s := if pos <? wrapu 32 (len - 1) then intsetMoveTail s (pos + 1) pos else s in
      let s := intsetResize junk s (wrapu 32 (len - 1)) in
      (Intset (is_encoding s) (wrapu 32 (len - 1)) (is_contents s), true)
    else (s, false)
  else (s, false).

Definition intsetFind (s : intset) (value : Z) : bool :=
  let valenc := _intsetValueEncoding value in
  (valenc <=? is_encoding s) && (intsetSearch s value).1.

(** [r] is the value [rand()] returns; [None] is the failed [assert(len)]. *)
Definition intsetRandom (r : Z) (s : intset) : option Z :=
  let len := is_length s in
  if len =? 0 then None else Some (_intsetGet s (r mod len)).

Definition intsetMax (s : intset) : Z := _intsetGet s (is_length s - 1).
Definition intsetMin (s : intset) : Z := _intsetGet s 0.

(** [None] is the return value 0, [Some value] the return value 1. *)
Definition intsetGet (s : intset) (pos : Z) : option Z :=
  if pos <? is_length s then Some (_intsetGet s pos) else None.

Definition intsetLen (s : intset) : Z := is_length s.

Definition sizeof_intset : Z := 8.

Definition intsetBlobLen (s : intset) : Z :=
  wrapu 64 (sizeof_intset + is_length s * is_encoding s).

(** The cast of [p] to [intset *]: the header fields are read little endian. *)
Definition intset_of_blob (p : list Z) : intset :=
  Intset (le_decode (mem_read 0 4 p)) (le_decode (mem_read 4 4 p)) (drop 8 p).

Definition intset_to_blob (s : intset) : list Z :=
  le_encode 4 (is_encoding s) ++ le_encode 4 (is_length s) ++ is_contents s.

Fixpoint intsetValidate_loop (n : nat) (s : intset) (i prev : Z) : bool :=
  match n with
  | O => true
  | S n =>
      let cur := _intsetGet s i in
      if cur <=? prev then false else intsetValidate_loop n s (i + 1) cur
  end.

(** [size] is the length of [p]; the loop runs from 1 to [count - 1]. *)
Definition intsetValidateIntegrity (p : list Z) (deep : bool) : bool :=
  let size := Z.of_nat (length p) in
  let s := intset_of_blob p in
  if size <? sizeof_intset then false
  else
    let encoding := is_encoding s in
    if negb ((encoding =? INTSET_ENC_INT64) || (encoding =? INTSET_ENC_INT32)
             || (encoding =? INTSET_ENC_INT16)) then false
    else
      let record_size := encoding in
      let count := is_length s in
      if negb (sizeof_intset + count * record_size =? size) then false
      else if count =? 0 then false
      else if negb deep then true
      else intsetValidate_loop (Z.to_nat (count - 1)) s 1 (_intsetGet s 0).

(** ** Representation *)

(** The encodings that occur, and the byte layout of a list of values. *)
Definition enc_ok (e : Z) : Prop := e = 2 \/ e = 4 \/ e = 8.

Definition flat (n : nat) (l : list Z) : list Z := concat (le_encode n <$> l).
#[local] Arguments flat : simpl never.

(** [rep is l]: [is] stores exactly the values [l], in order. *)
Record rep (s : intset) (l : list Z) : Prop := {
  rep_enc : enc_ok (is_encoding s);
  rep_len : is_length s = Z.of_nat (length l);
  rep_contents : is_contents s = flat (Z.to_nat (is_encoding s)) l;
  rep_fits : Forall (fits_s (8 * is_encoding s)) l
}.

(** The values an intset holds, read with its own accessor. *)
Definition elems (s : intset) : list Z :=
  _intsetGet s <$> (Z.of_nat <$> seq 0 (Z.to_nat (is_length s))).

(** Well-formedness: a layout in increasing order, small enough for the
    32-bit byte counts of [intsetMoveTail] not to wrap. *)
Definition wf (s : intset) : Prop :=
  exists l, rep s l /\ StronglySorted Z.lt l /\ Z.of_nat (length l) * 8 < 2 ^ 31.

Lemma length_flat n l : length (flat n l) = (length l * n)%nat.
Proof.
  unfold flat. induction l as [|x l IH]; [done|].
  cbn. rewrite length_app, length_le_encode, IH. lia.
Qed.

Lemma read_flat n l i x :
  l !! i = Some x -> mem_read (i * n) n (flat n l) = le_encode n x.
Proof.
  revert i. induction l as [|y l IH]; intros [|i] H; simplify_eq/=.
  - unfold mem_read, flat. cbn. rewrite drop_0, take_app_le by (rewrite length_le_encode; lia).
    apply take_ge. rewrite length_le_encode. lia.
  - change (flat n (y :: l)) with (le_encode n y ++ flat n l).
    rewrite <- (IH i H). replace (n + i * n)%nat with (length (le_encode n y) + i * n)%nat
      by (rewrite length_le_encode; lia).
    by rewrite mem_read_app_r.
Qed.

(** A buffer whose slots all hold the right bytes is the layout. *)
Lemma flat_intro n m l :
  length m = (length l * n)%nat ->
  (forall i x, l !! i = Some x -> mem_read (i * n) n m = le_encode n x) ->
  m = flat n l.
Proof.
  revert m. induction l as [|x l IH]; intros m Hlen H.
  - simpl in Hlen. by destruct m.
  - change (flat n (x :: l)) with (le_encode n x ++ flat n l).
    rewrite <- (take_drop n m). f_equal.
    + specialize (H 0%nat x eq_refl). unfold mem_read in H. by rewrite drop_0 in H.
    + apply IH; [rewrite length_drop; simpl in Hlen; lia|].
      intros i y Hi. rewrite <- (H (S i) y Hi). unfold mem_read.
      rewrite drop_drop. done.
Qed.

Lemma getEncoded_eq s pos e :
  enc_ok e ->
  _intsetGetEncoded s pos e =
    wraps (8 * e) (le_decode (mem_read (Z.to_nat (pos * e)) (Z.to_nat e) (is_contents s))).
Proof. by intros [-> | [-> | ->]]. Qed.

Lemma intsetSet_eq s pos v :
  enc_ok (is_encoding s) ->
  _intsetSet s pos v =
    Intset (is_encoding s) (is_length s)
      (mem_write (Z.to_nat (pos * is_encoding s)) (le_encode (Z.to_nat (is_encoding s)) v)
         (is_contents s)).
Proof. destruct s as [e n c]. simpl. by intros [-> | [-> | ->]]. Qed.

Lemma moveTail_eq s from to :
  enc_ok (is_encoding s) ->
  intsetMoveTail s from to =
    Intset (is_encoding s) (is_length s)
      (memmove (Z.to_nat (to * is_encoding s)) (Z.to_nat (from * is_encoding s))
         (Z.to_nat (wrapu 32 (wrapu 32 (is_length s - from) * is_encoding s)))
         (is_contents s)).
Proof. destruct s as [e n c]. simpl. by intros [-> | [-> | ->]]. Qed.

Lemma decode_encode_s e x :
  enc_ok e -> fits_s (8 * e) x ->
  wraps (8 * e) (le_decode (le_encode (Z.to_nat e) x)) = x.
Proof.
  intros He Hx. rewrite le_decode_encode.
  replace (8 * Z.of_nat (Z.to_nat e)) with (8 * e) by (destruct He as [-> | [-> | ->]]; lia).
  rewrite wraps_mod by (destruct He as [-> | [-> | ->]]; lia).
  apply wraps_id; [destruct He as [-> | [-> | ->]]; lia | done].
Qed.

Lemma get_slot s e i x :
  enc_ok e -> fits_s (8 * e) x ->
  mem_read (i * Z.to_nat e) (Z.to_nat e) (is_contents s) = le_encode (Z.to_nat e) x ->
  _intsetGetEncoded s (Z.of_nat i) e = x.
Proof.
  intros He Hx Hm. rewrite getEncoded_eq by done.
  replace (Z.to_nat (Z.of_nat i * e)) with (i * Z.to_nat e)%nat
    by (destruct He as [-> | [-> | ->]]; lia).
  rewrite Hm. by apply decode_encode_s.
Qed.

Lemma get_rep s l i x : rep s l -> l !! i = Some x -> _intsetGet s (Z.of_nat i) = x.
Proof.
  intros [He Hl Hc Hf] Hi. apply get_slot; [done| |].
  - rewrite Forall_lookup in Hf. eauto.
  - rewrite Hc. by apply read_flat.
Qed.

Lemma elems_rep s l : rep s l -> elems s = l.
Proof.
  intros Hr. unfold elems. apply list_eq. intros i.
  rewrite !list_lookup_fmap, (rep_len _ _ Hr), Nat2Z.id.
  destruct (l !! i) as [x|] eqn:Hi.
  - pose proof (lookup_lt_Some _ _ _ Hi).
    rewrite lookup_seq_lt by done. simpl. f_equal. by eapply get_rep.
  - rewrite lookup_seq_ge; [done|]. by apply lookup_ge_None.
Qed.

Lemma rep_inj s l1 l2 : rep s l1 -> rep s l2 -> l1 = l2.
Proof. intros H1 H2. by rewrite <- (elems_rep _ _ H1), <- (elems_rep _ _ H2). Qed.

Lemma wf_rep s : wf s -> rep s (elems s).
Proof. intros (l & Hr & _). by rewrite (elems_rep _ _ Hr). Qed.

(** ** Encodings *)

Lemma valueEncoding_ok v : enc_ok (_intsetValueEncoding v).
Proof.
  unfold _intsetValueEncoding, enc_ok, INTSET_ENC_INT16, INTSET_ENC_INT32, INTSET_ENC_INT64.
  repeat case_match; auto.
Qed.

(** The encoding chosen is the least one the value fits in. *)
Lemma valueEncoding_fits v e :
  fits_s 64 v -> enc_ok e -> (_intsetValueEncoding v <= e <-> fits_s (8 * e) v).
Proof.
  unfold _intsetValueEncoding, fits_s, INTSET_ENC_INT16, INTSET_ENC_INT32, INTSET_ENC_INT64.
  intros Hv [-> | [-> | ->]]; simpl (2 ^ _) in *;
    destruct (Z.ltb_spec v (-2147483648)), (Z.gtb_spec v 2147483647),
      (Z.ltb_spec v (-32768)), (Z.gtb_spec v 32767); simpl; lia.
Qed.

Lemma fits_mono e1 e2 v : enc_ok e1 -> enc_ok e2 -> e1 <= e2 -> fits_s (8 * e1) v -> fits_s (8 * e2) v.
Proof. unfold fits_s. intros [-> | [-> | ->]] [-> | [-> | ->]]; simpl; lia. Qed.

(** ** Search *)

Lemma shiftr_mid a b : 0 <= a -> 0 <= b -> a + b < 2 ^ 32 -> a <= b ->
  a <= Z.shiftr (wrapu 32 (a + b)) 1 <= b.
Proof.
  intros. rewrite wrapu_id by (unfold fits_u; lia). rewrite Z.shiftr_div_pow2 by lia.
  change (2 ^ 1) with 2. pose proof (Z.div_mod (a + b) 2).
  pose proof (Z.mod_pos_bound (a + b) 2). lia.
Qed.

Section search.
Context (s : intset) (l : list Z) (v : Z).
Context (Hrep : rep s l) (Hsort : StronglySorted Z.lt l).
Context (Hsmall : Z.of_nat (length l) < 2 ^ 31).

Definition below (k : Z) : Prop := forall i x, l !! i = Some x -> Z.of_nat i < k -> x < v.
Definition above (k : Z) : Prop := forall i x, l !! i = Some x -> k < Z.of_nat i -> v < x.

Lemma below_step k x : l !! k = Some x -> x < v -> below (Z.of_nat k + 1).
Proof using Hsort.
  intros Hk Hx i y Hi Hlt. rewrite ssorted_lookup in Hsort.
  destruct (decide (i = k)); [by simplify_eq|].
  assert (y < x) by (eapply (Hsort i k); eauto; lia). lia.
Qed.

Lemma above_step k x : l !! k = Some x -> v < x -> above (Z.of_nat k - 1).
Proof using Hsort.
  intros Hk Hx i y Hi Hlt. rewrite ssorted_lookup in Hsort.
  destruct (decide (i = k)); [by simplify_eq|].
  assert (x < y) by (eapply (Hsort k i); eauto; lia). lia.
Qed.

(** What the loop establishes, from an interval the value can only be in. *)
Lemma search_loop_spec fuel min max mid cur :
  0 <= min -> max < Z.of_nat (length l) -> below min -> above max ->
  min <= max + 1 -> max - min + 1 < Z.of_nat fuel -> (min <= max \/ cur <> v) ->
  let '(min', mid', cur') := intsetSearch_loop fuel s v min max mid cur in
  (cur' = v /\ 0 <= mid' /\ l !! Z.to_nat mid' = Some v) \/
  (cur' <> v /\ 0 <= min' <= Z.of_nat (length l) /\ below min' /\ above (min' - 1)).
Proof using Hrep Hsort Hsmall.
  revert min max mid cur. induction fuel as [|fuel IH]; intros min max mid cur Hmin Hmax Hb Ha
    Hle Hfuel Hcur; [lia|].
  cbn [intsetSearch_loop]. rewrite Z.geb_leb. destruct (Z.leb_spec min max) as [Hmm|Hmm].
  2:{ right. destruct Hcur; [lia|]. replace (min - 1) with max by lia. auto with lia. }
  pose proof (shiftr_mid min max ltac:(lia) ltac:(lia) ltac:(lia) Hmm) as Hmid.
  set (m := Z.shiftr _ _) in *.
  destruct (lookup_lt_is_Some_2 l (Z.to_nat m)) as [x Hx]; [lia|].
  assert (_intsetGet s m = x) as ->.
  { rewrite <- (Z2Nat.id m) by lia. by eapply get_rep. }
  rewrite Z.gtb_ltb. destruct (Z.ltb_spec x v) as [Hxv|Hxv].
  - apply IH; try lia; [|done].
    replace m with (Z.of_nat (Z.to_nat m)) by lia. by eapply below_step.
  - destruct (Z.ltb_spec v x) as [Hvx|Hvx].
    + apply IH; try lia; [done|].
      replace m with (Z.of_nat (Z.to_nat m)) by lia. by eapply above_step.
    + left. assert (x = v) as -> by lia. split_and!; [done|lia|done].
Qed.

(** The insertion position: everything before is smaller, the rest larger. *)
Lemma intsetSearch_spec :
  let '(found, pos) := intsetSearch s v in
  0 <= pos <= Z.of_nat (length l) /\
  if found then l !! Z.to_nat pos = Some v
  else below pos /\ above (pos - 1).
Proof using Hrep Hsort Hsmall.
  unfold intsetSearch. rewrite (rep_len _ _ Hrep).
  destruct (Z.eqb_spec (Z.of_nat (length l)) 0) as [H0|H0].
  { split; [lia|]. split; intros i x Hi _; apply lookup_lt_Some in Hi; lia. }
  destruct (lookup_lt_is_Some_2 l (length l - 1)) as [xm Hxm]; [lia|].
  destruct (lookup_lt_is_Some_2 l 0) as [x0 Hx0]; [lia|].
  rewrite Z.gtb_ltb.
  replace (_intsetGet s (Z.of_nat (length l) - 1)) with xm.
  2:{ symmetry. replace (Z.of_nat (length l) - 1) with (Z.of_nat (length l - 1)) by lia.
      by eapply get_rep. }
  replace (_intsetGet s 0) with x0 by (symmetry; by apply (get_rep s l 0)).
  destruct (Z.ltb_spec xm v) as [Hv|Hv].
  { split; [lia|]. split.
    - pose proof (below_step _ _ Hxm Hv) as Hb. intros i x Hi Hlt. eapply Hb; eauto. lia.
    - intros i x Hi Hlt. apply lookup_lt_Some in Hi. lia. }
  destruct (Z.ltb_spec v x0) as [Hv0|Hv0].
  { split; [lia|]. split; [intros i x Hi Hlt; lia|].
    apply (above_step _ _ Hx0 Hv0). }
  pose proof (search_loop_spec (S (Z.to_nat (Z.of_nat (length l)))) 0
    (Z.of_nat (length l) - 1) (-1) (-1)) as Hloop.
  destruct (intsetSearch_loop _ _ _ _ _ _ _) as [[min' mid'] cur'].
  destruct Hloop as [(-> & Hm & Hl)|(Hne & Hb & Hbel & Habv)]; try lia.
  - intros i x Hi Hlt; lia.
  - intros i x Hi Hlt. apply lookup_lt_Some in Hi. lia.
  - rewrite Z.eqb_refl. split; [|done]. apply lookup_lt_Some in Hl. lia.
  - destruct (Z.eqb_spec v cur'); [congruence|]. auto.
Qed.
End search.

(** ** Layout of an insertion and of a removal *)

Lemma memmove_0 dst src m : memmove dst src 0 m = m.
Proof. unfold memmove, mem_read, mem_write. simpl. by rewrite Nat.add_0_r, take_drop. Qed.

Lemma flat_insert junk n l k v :
  (k <= length l)%nat ->
  mem_write (k * n) (le_encode n v)
    (memmove ((k + 1) * n) (k * n) ((length l - k) * n)
       (realloc junk ((length l + 1) * n) (flat n l)))
  = flat n (take k l ++ v :: drop k l).
Proof.
  intros Hk.
  set (m := realloc _ _ _). assert (length m = (length l + 1) * n)%nat as Hm
    by apply length_realloc.
  assert (length (memmove ((k + 1) * n) (k * n) ((length l - k) * n) m) = (length l + 1) * n)%nat
    as Hmm by (rewrite length_memmove; nia).
  apply flat_intro.
  - rewrite length_mem_write by (rewrite length_le_encode; nia).
    rewrite Hmm, length_app, length_take. cbn [length]. rewrite length_drop. nia.
  - intros i x. rewrite lookup_insert_at by done. intros Hi. case_decide as Hik.
    + pose proof (lookup_lt_Some _ _ _ Hi).
      rewrite mem_read_write_disjoint by (rewrite length_le_encode; nia).
      rewrite mem_read_memmove_disjoint by nia. unfold m.
      rewrite mem_read_realloc by (rewrite ?length_flat; nia). by apply read_flat.
    + case_decide as Hik'; simplify_eq.
      * apply mem_read_write_le. nia.
      * pose proof (lookup_lt_Some _ _ _ Hi).
        rewrite mem_read_write_disjoint by (rewrite length_le_encode; nia).
        rewrite mem_read_memmove by nia. unfold m.
        rewrite mem_read_realloc by (rewrite ?length_flat; nia).
        rewrite <- (read_flat _ _ _ _ Hi). f_equal. nia.
Qed.

Lemma flat_remove junk n l k :
  (k < length l)%nat ->
  realloc junk ((length l - 1) * n)
    (memmove (k * n) ((k + 1) * n) ((length l - 1 - k) * n) (flat n l))
  = flat n (take k l ++ drop (S k) l).
Proof.
  intros Hk.
  assert (length (memmove (k * n) ((k + 1) * n) ((length l - 1 - k) * n) (flat n l))
          = length l * n)%nat as Hmm by (rewrite length_memmove; rewrite length_flat; nia).
  apply flat_intro.
  - rewrite length_realloc, length_app, length_take, length_drop. nia.
  - intros i x. rewrite lookup_remove_at by lia. intros Hi. case_decide as Hik.
    + pose proof (lookup_lt_Some _ _ _ Hi).
      rewrite mem_read_realloc by nia.
      rewrite mem_read_memmove_disjoint by (rewrite ?length_flat; nia). by apply read_flat.
    + pose proof (lookup_lt_Some _ _ _ Hi).
      rewrite mem_read_realloc by nia.
      rewrite mem_read_memmove by (rewrite ?length_flat; nia).
      rewrite <- (read_flat _ _ _ _ Hi). f_equal. nia.
Qed.

Lemma Forall_insert_at {A} (P : A -> Prop) l k v :
  P v -> Forall P l -> Forall P (take k l ++ v :: drop k l).
Proof.
  intros Hv Hl. apply Forall_app. split; [by apply Forall_take|].
  constructor; [done | by apply Forall_drop].
Qed.

Lemma length_insert_at {A} (l : list A) k v :
  length (take k l ++ v :: drop k l) = S (length l).
Proof. rewrite length_app. cbn [length]. rewrite length_take, length_drop. lia. Qed.

(** Insertion of a value that fits the current encoding. *)
Lemma add_rep junk s l v k :
  rep s l -> Z.of_nat (length l) * 8 < 2 ^ 31 -> fits_s (8 * is_encoding s) v ->
  (k <= length l)%nat ->
  let s1 := intsetResize junk s (wrapu 32 (is_length s + 1)) in
  let s2 := if Z.of_nat k <? is_length s1
            then intsetMoveTail s1 (Z.of_nat k) (Z.of_nat k + 1) else s1 in
  let s3 := _intsetSet s2 (Z.of_nat k) v in
  rep (Intset (is_encoding s3) (wrapu 32 (is_length s3 + 1)) (is_contents s3))
    (take k l ++ v :: drop k l).
Proof.
  intros [He Hl Hc Hf] Hsm Hv Hk s1 s2 s3. destruct s as [e n c]. cbn in *. subst n c.
  assert (wrapu 32 (Z.of_nat (length l) + 1) = Z.of_nat (length l) + 1) as Hw
    by (apply wrapu_id; unfold fits_u; lia).
  assert (s3 = Intset e (Z.of_nat (length l)) (flat (Z.to_nat e) (take k l ++ v :: drop k l)))
    as ->.
  { subst s3 s2 s1. unfold intsetResize. cbn [is_length is_encoding is_contents]. rewrite Hw.
    rewrite <- flat_insert with (junk := junk) by done.
    replace (Z.to_nat ((Z.of_nat (length l) + 1) * e)) with ((length l + 1) * Z.to_nat e)%nat
      by (destruct He as [-> | [-> | ->]]; lia).
    destruct (Z.ltb_spec (Z.of_nat k) (Z.of_nat (length l))).
    - rewrite moveTail_eq by done. cbn. rewrite intsetSet_eq by done. cbn. f_equal. f_equal.
      + destruct He as [-> | [-> | ->]]; lia.
      + f_equal; try (destruct He as [-> | [-> | ->]]; lia).
        rewrite (wrapu_id 32 (Z.of_nat (length l) - Z.of_nat k)) by (unfold fits_u; lia).
        rewrite wrapu_id by (unfold fits_u; destruct He as [-> | [-> | ->]]; lia).
        destruct He as [-> | [-> | ->]]; lia.
    - rewrite intsetSet_eq by done. cbn. f_equal. replace k with (length l) by lia.
      rewrite Nat.sub_diag, memmove_0. f_equal. destruct He as [-> | [-> | ->]]; lia. }
  split; cbn; [done| |done|].
  - rewrite Hw, length_insert_at. lia.
  - by apply Forall_insert_at.
Qed.

Lemma remove_rep junk s l k :
  rep s l -> Z.of_nat (length l) * 8 < 2 ^ 31 -> (k < length l)%nat ->
  let s1 := if Z.of_nat k <? wrapu 32 (is_length s - 1)
            then intsetMoveTail s (Z.of_nat k + 1) (Z.of_nat k) else s in
  let s2 := intsetResize junk s1 (wrapu 32 (is_length s - 1)) in
  rep (Intset (is_encoding s2) (wrapu 32 (is_length s - 1)) (is_contents s2))
    (take k l ++ drop (S k) l).
Proof.
  intros [He Hl Hc Hf] Hsm Hk s1 s2. destruct s as [e n c]. cbn in He, Hl, Hc, Hf. subst n c.
  cbn [is_length is_encoding is_contents] in s1, s2.
  assert (wrapu 32 (Z.of_nat (length l) - 1) = Z.of_nat (length l) - 1) as Hw
    by (apply wrapu_id; unfold fits_u; lia).
  assert (s2 = Intset e (Z.of_nat (length l)) (flat (Z.to_nat e) (take k l ++ drop (S k) l)))
    as Hs2.
  { subst s2 s1. rewrite Hw. unfold intsetResize.
    rewrite <- flat_remove with (junk := junk) by done.
    destruct (Z.ltb_spec (Z.of_nat k) (Z.of_nat (length l) - 1)).
    - rewrite moveTail_eq by done. cbn. f_equal. f_equal;
        [destruct He as [-> | [-> | ->]]; lia|].
      f_equal; try (destruct He as [-> | [-> | ->]]; lia).
      rewrite (wrapu_id 32 (Z.of_nat (length l) - _)) by (unfold fits_u; lia).
      rewrite wrapu_id by (unfold fits_u; destruct He as [-> | [-> | ->]]; lia).
      destruct He as [-> | [-> | ->]]; lia.
    - cbn. f_equal. replace (length l - 1 - k)%nat with 0%nat by lia.
      rewrite Nat.mul_0_l, memmove_0. f_equal. destruct He as [-> | [-> | ->]]; lia. }
  rewrite Hs2. split; cbn; [done| |done|].
  - rewrite Hw, length_app, length_take, length_drop. lia.
  - apply Forall_app. split; [by apply Forall_take | by apply Forall_drop].
Qed.

(** ** The in-place upgrade *)

(** Going back to front, the first [k] values are still in the old encoding
    and the others already in the new one, shifted by [p] slots. *)
Record upgrading (e e' : Z) (p : nat) (l : list Z) (k : nat) (s : intset) : Prop := {
  up_enc : is_encoding s = e';
  up_size : length (is_contents s) = ((length l + 1) * Z.to_nat e')%nat;
  up_old : forall i x, (i < k)%nat -> l !! i = Some x ->
    mem_read (i * Z.to_nat e) (Z.to_nat e) (is_contents s) = le_encode (Z.to_nat e) x;
  up_new : forall i x, (k <= i)%nat -> l !! i = Some x ->
    mem_read ((i + p) * Z.to_nat e') (Z.to_nat e') (is_contents s) = le_encode (Z.to_nat e') x
}.

Lemma upgrade_step e e' p l k s x :
  enc_ok e -> enc_ok e' -> e < e' -> (p <= 1)%nat -> Forall (fits_s (8 * e)) l ->
  l !! k = Some x -> upgrading e e' p l (S k) s ->
  upgrading e e' p l k
    (_intsetSet s (Z.of_nat k + Z.of_nat p) (_intsetGetEncoded s (Z.of_nat k) e)).
Proof.
  intros He He' Hlt Hp Hf Hk [Henc Hsz Hold Hnew].
  pose proof (lookup_lt_Some _ _ _ Hk) as Hkl.
  assert (_intsetGetEncoded s (Z.of_nat k) e = x) as ->.
  { apply get_slot; [done| |by apply Hold; [lia|]]. rewrite Forall_lookup in Hf. eauto. }
  rewrite intsetSet_eq by (by rewrite Henc). rewrite Henc.
  replace (Z.to_nat ((Z.of_nat k + Z.of_nat p) * e')) with ((k + p) * Z.to_nat e')%nat
    by (destruct He' as [-> | [-> | ->]]; lia).
  assert (Z.to_nat e < Z.to_nat e')%nat by (destruct He, He'; lia).
  set (n := Z.to_nat e) in *. set (n' := Z.to_nat e') in *.
  split; cbn.
  - done.
  - rewrite length_mem_write; [done|]. rewrite length_le_encode. nia.
  - intros i y Hi Hy. rewrite mem_read_write_disjoint; [|rewrite length_le_encode; nia..].
    apply Hold; [lia|done].
  - intros i y Hi Hy. destruct (decide (i = k)) as [->|Hne].
    + simplify_eq. apply mem_read_write_le. nia.
    + rewrite mem_read_write_disjoint; [|rewrite length_le_encode; nia..].
      apply Hnew; [lia|done].
Qed.

Lemma set_length s pos v : is_length (_intsetSet s pos v) = is_length s.
Proof. unfold _intsetSet. by repeat case_match. Qed.

Lemma upgrade_loop_spec e e' p l k s :
  enc_ok e -> enc_ok e' -> e < e' -> (p <= 1)%nat -> Forall (fits_s (8 * e)) l ->
  (k <= length l)%nat -> upgrading e e' p l k s ->
  upgrading e e' p l 0 (intsetUpgrade_loop k (Z.of_nat p) e s) /\
  is_length (intsetUpgrade_loop k (Z.of_nat p) e s) = is_length s.
Proof.
  intros He He' Hlt Hp Hf. revert s. induction k as [|k IH]; intros s Hk Hu; [done|].
  cbn [intsetUpgrade_loop].
  destruct (lookup_lt_is_Some_2 l k) as [x Hx]; [lia|].
  destruct (IH _ ltac:(lia) (upgrade_step e e' p l k s x He He' Hlt Hp Hf Hx Hu)) as [H1 H2].
  split; [done|]. by rewrite H2, set_length.
Qed.

(** Writing the new value into the free slot completes the new layout. *)
Lemma flat_prepend n m l v :
  length m = ((length l + 1) * n)%nat ->
  (forall i x, l !! i = Some x -> mem_read ((i + 1) * n) n m = le_encode n x) ->
  mem_write 0 (le_encode n v) m = flat n (v :: l).
Proof.
  intros Hm H. apply flat_intro.
  - rewrite length_mem_write; simpl; [lia|]. rewrite length_le_encode. nia.
  - intros [|i] x Hx; simplify_eq/=.
    + apply mem_read_write_le. nia.
    + rewrite mem_read_write_disjoint; [|rewrite length_le_encode; nia..].
      rewrite <- (H i x) by done. f_equal. nia.
Qed.

Lemma flat_append n m l v :
  length m = ((length l + 1) * n)%nat ->
  (forall i x, l !! i = Some x -> mem_read (i * n) n m = le_encode n x) ->
  mem_write (length l * n) (le_encode n v) m = flat n (l ++ [v]).
Proof.
  intros Hm H. apply flat_intro.
  - rewrite length_mem_write, length_app; simpl; [lia|]. rewrite length_le_encode. nia.
  - intros i x Hx. apply lookup_app_Some in Hx as [Hx|[Hi Hx]].
    + pose proof (lookup_lt_Some _ _ _ Hx).
      rewrite mem_read_write_disjoint; [|rewrite length_le_encode; nia..]. by apply H.
    + apply list_lookup_singleton_Some in Hx as [Hi0 ->].
      replace i with (length l) by lia. apply mem_read_write_le. nia.
Qed.

(** What the resized buffer looks like before the loop runs. *)
Lemma upgrade_init junk e e' p l :
  enc_ok e -> enc_ok e' -> e < e' ->
  upgrading e e' p l (length l)
    (intsetResize junk (Intset e' (Z.of_nat (length l)) (flat (Z.to_nat e) l))
       (Z.of_nat (length l) + 1)).
Proof.
  intros He He' Hlt. split; cbn.
  - done.
  - rewrite length_realloc. destruct He' as [-> | [-> | ->]]; lia.
  - intros i x Hi Hx. rewrite mem_read_realloc; [by apply read_flat|..];
      [|rewrite length_flat; destruct He as [-> | [-> | ->]]; lia].
    destruct He as [-> | [-> | ->]], He' as [-> | [-> | ->]]; lia.
  - intros i x Hi Hx. apply lookup_lt_Some in Hx. lia.
Qed.

(** The upgraded set holds the old values and the new one at its end. *)
Lemma upgrade_rep junk s l v :
  rep s l -> Z.of_nat (length l) * 8 < 2 ^ 31 -> fits_s 64 v ->
  is_encoding s < _intsetValueEncoding v ->
  rep (intsetUpgradeAndAdd junk s v) (if v <? 0 then v :: l else l ++ [v]).
Proof.
  intros [He Hl Hc Hf] Hsm Hv Hlt. destruct s as [e n c]. cbn in He, Hl, Hc, Hf, Hlt. subst n c.
  unfold intsetUpgradeAndAdd. cbn [is_encoding is_length is_contents].
  set (e' := _intsetValueEncoding v) in *.
  assert (enc_ok e') as He' by apply valueEncoding_ok.
  assert (fits_s (8 * e') v) as Hve by (apply valueEncoding_fits; [done|done|lia]).
  assert (Forall (fits_s (8 * e')) l) as Hf'.
  { eapply Forall_impl; [done|]. intros x Hx. eapply (fits_mono e e'); auto. lia. }
  assert (wrapu 32 (Z.of_nat (length l) + 1) = Z.of_nat (length l) + 1) as Hw
    by (apply wrapu_id; unfold fits_u; lia).
  rewrite Hw, Nat2Z.id. set (p := if v <? 0 then 1 else 0).
  set (s0 := intsetResize junk _ _).
  destruct (upgrade_loop_spec e e' (Z.to_nat p) l (length l) s0) as [[Hen Hsz _ Hnew] Hlen];
    [done|done|lia|subst p; case_match; lia|done|lia|by apply upgrade_init|].
  rewrite Z2Nat.id in Hen, Hsz, Hnew, Hlen by (subst p; case_match; lia).
  set (s1 := intsetUpgrade_loop _ _ _ _) in *.
  change (is_length s0) with (Z.of_nat (length l)) in Hlen.
  clearbody s1. destruct s1 as [e1 n1 c1]. cbn in Hen, Hlen, Hsz, Hnew |- *. subst e1 n1 p.
  destruct (Z.ltb_spec v 0); cbn [Z.eqb]; rewrite intsetSet_eq by done; split; cbn; auto.
  - rewrite Hw. lia.
  - apply flat_prepend; [done|]. intros i x Hx. apply (Hnew i x); [lia|done].
  - rewrite Hw, length_app. simpl. lia.
  - replace (Z.to_nat (Z.of_nat (length l) * e')) with (length l * Z.to_nat e')%nat
      by (destruct He' as [-> | [-> | ->]]; lia).
    apply flat_append; [done|]. intros i x Hx. rewrite <- (Hnew i x) by (done || lia).
    f_equal. simpl. lia.
  - apply Forall_app; auto.
Qed.

(** ** Correctness of the operations *)

(** The set an intset stands for. *)
Definition members (s : intset) : gset Z := list_to_set (elems s).

Lemma elem_of_members s l x : rep s l -> (x ∈ members s <-> x ∈ l).
Proof. intros H. unfold members. rewrite (elems_rep _ _ H). apply elem_of_list_to_set. Qed.

Lemma not_found_not_elem (l : list Z) v pos :
  0 <= pos -> below l v pos -> above l v (pos - 1) -> v ∉ l.
Proof.
  intros Hp Hb Ha [i Hi]%list_elem_of_lookup.
  destruct (decide (Z.of_nat i < pos)); [specialize (Hb i v Hi) | specialize (Ha i v Hi)]; lia.
Qed.

Lemma elem_of_insert_at (l : list Z) k v x : x ∈ take k l ++ v :: drop k l <-> x = v \/ x ∈ l.
Proof.
  transitivity (x = v \/ x ∈ take k l ++ drop k l); [set_solver | by rewrite take_drop].
Qed.

Lemma elem_of_remove_at (l : list Z) k v x :
  StronglySorted Z.lt l -> l !! k = Some v ->
  x ∈ take k l ++ drop (S k) l <-> x ∈ l /\ x <> v.
Proof.
  intros Hs Hk. pose proof (lookup_lt_Some _ _ _ Hk) as Hlt. rewrite ssorted_lookup in Hs.
  rewrite !list_elem_of_lookup. setoid_rewrite lookup_remove_at; [|lia..]. split.
  - intros [i Hi]. case_decide.
    + split; [by eexists|]. intros ->. pose proof (Hs i k _ _ ltac:(lia) Hi Hk). lia.
    + split; [by eexists|]. intros ->. pose proof (Hs k (S i) _ _ ltac:(lia) Hk Hi). lia.
  - intros [[i Hi] Hne]. destruct (decide (i < k)%nat).
    + exists i. by rewrite decide_True.
    + assert (i <> k) by congruence. exists (i - 1)%nat. rewrite decide_False by lia.
      by replace (S (i - 1)) with i by lia.
Qed.

Lemma too_wide_not_elem s l v :
  rep s l -> fits_s 64 v -> is_encoding s < _intsetValueEncoding v -> v ∉ l.
Proof.
  intros [He _ _ Hf] Hv Hlt Hin. rewrite Forall_forall in Hf. specialize (Hf v Hin).
  apply valueEncoding_fits in Hf; [lia|done|done].
Qed.

Lemma ssorted_upgrade s l v :
  rep s l -> StronglySorted Z.lt l -> fits_s 64 v -> is_encoding s < _intsetValueEncoding v ->
  StronglySorted Z.lt (if v <? 0 then v :: l else l ++ [v]).
Proof.
  intros [He _ _ Hf] Hs Hv Hlt.
  assert (~ fits_s (8 * is_encoding s) v) as Hn
    by (rewrite <- valueEncoding_fits by done; lia).
  rewrite Forall_forall in Hf. unfold fits_s in Hn.
  destruct (Z.ltb_spec v 0).
  - constructor; [done|]. apply Forall_forall. intros x Hx%Hf. unfold fits_s in Hx. lia.
  - apply StronglySorted_app. split_and!; [|done|repeat constructor].
    intros x y Hx%Hf ->%list_elem_of_singleton. unfold fits_s in Hx. lia.
Qed.


Definition ex_set : intset :=
  (intsetAdd 0 (intsetAdd 0 (intsetAdd 0 intsetNew 5).1 (-7)).1 40000).1.

Lemma ex_set_wf : wf ex_set.
Proof.
  exists [-7; 5; 40000]. split_and!; [|repeat constructor|simpl; lia].
  split; [right; left; done|done|done|]. repeat constructor; vm_compute; done.
Qed.


(** Removing a 64-bit integer keeps the set well formed, yields exactly
    the difference, and reports whether the value was present. *)
Theorem intsetRemove_correct junk s v :
  wf s -> fits_s 64 v ->
  let '(s', success) := intsetRemove junk s v in
  wf s' /\ members s' = members s ∖ {[ v ]} /\ success = bool_decide (v ∈ members s).
Proof.
  intros (l & Hr & Hs & Hsm) Hv. unfold intsetRemove.
  assert (forall b, v ∉ l -> b = false ->
            wf s /\ members s = members s ∖ {[ v ]} /\ b = bool_decide (v ∈ members s)) as Hno.
  { intros b Hn ->. rewrite <- (elem_of_members _ _ _ Hr) in Hn.
    split_and!; [by exists l|set_solver|]. symmetry. by apply bool_decide_eq_false. }
  destruct (Z.leb_spec (_intsetValueEncoding v) (is_encoding s)) as [Hle|Hlt].
  2:{ apply Hno; [|done]. by eapply too_wide_not_elem. }
  pose proof (intsetSearch_spec s l v Hr Hs ltac:(lia)) as Hsearch.
  destruct (intsetSearch s v) as [[] pos]; destruct Hsearch as [Hpos Hsr].
  2:{ apply Hno; [|done]. destruct Hsr. eapply not_found_not_elem; eauto. lia. }
  pose proof (lookup_lt_Some _ _ _ Hsr) as Hlt.
  pose proof (remove_rep junk s l (Z.to_nat pos) Hr Hsm Hlt) as Hrem.
  rewrite Z2Nat.id in Hrem by lia. cbn zeta in Hrem |- *. split_and!.
  - eexists. split_and!; [exact Hrem|apply ssorted_remove_at; [lia|done]|].
    rewrite length_app, length_take, length_drop. lia.
  - apply set_eq. intros x. rewrite elem_of_difference, elem_of_singleton.
    rewrite (elem_of_members _ _ _ Hrem), (elem_of_members _ _ _ Hr).
    by apply elem_of_remove_at.
  - symmetry. apply bool_decide_eq_true. rewrite elem_of_members by done.
    by eapply list_elem_of_lookup_2.
Qed.

Lemma intsetRemove_correct_witness :
  let '(s', success) := intsetRemove 0 ex_set 5 in
  wf s' /\ members s' = members ex_set ∖ {[ 5 ]} /\ success = bool_decide (5 ∈ members ex_set).
Proof. apply (intsetRemove_correct 0 ex_set 5 ex_set_wf); vm_compute; split; done. Defined.

(** Membership by binary search agrees with the set. *)
Theorem intsetFind_correct s v :
  wf s -> fits_s 64 v -> intsetFind s v = bool_decide (v ∈ members s).
Proof.
  intros (l & Hr & Hs & Hsm) Hv. unfold intsetFind.
  destruct (Z.leb_spec (_intsetValueEncoding v) (is_encoding s)) as [Hle|Hlt]; simpl.
  - pose proof (intsetSearch_spec s l v Hr Hs ltac:(lia)) as Hsearch.
    destruct (intsetSearch s v) as [[] pos]; destruct Hsearch as [Hpos Hsr]; symmetry; simpl.
    + apply bool_decide_eq_true. rewrite elem_of_members by done.
      by eapply list_elem_of_lookup_2.
    + apply bool_decide_eq_false. rewrite elem_of_members by done.
      destruct Hsr. eapply not_found_not_elem; eauto. lia.
  - symmetry. apply bool_decide_eq_false. rewrite elem_of_members by done.
    by eapply too_wide_not_elem.
Qed.

Lemma intsetFind_correct_witness : intsetFind ex_set (-7) = bool_decide (-7 ∈ members ex_set).
Proof. apply (intsetFind_correct ex_set (-7) ex_set_wf). vm_compute; split; done. Defined.

(** Positional reads: the first and last slots are the extremes. *)
Lemma intsetMin_Max_correct s x :
  wf s -> x ∈ members s -> intsetMin s <= x <= intsetMax s.
Proof.
  intros (l & Hr & Hs & Hsm) Hx. rewrite elem_of_members in Hx by done.
  apply list_elem_of_lookup in Hx as [i Hi]. pose proof (lookup_lt_Some _ _ _ Hi) as Hlt.
  destruct (lookup_lt_is_Some_2 l (length l - 1)) as [xm Hxm]; [lia|].
  destruct (lookup_lt_is_Some_2 l 0) as [x0 Hx0]; [lia|].
  unfold intsetMin, intsetMax. rewrite (rep_len _ _ Hr).
  replace (Z.of_nat (length l) - 1) with (Z.of_nat (length l - 1)) by lia.
  rewrite (get_rep s l 0 x0 Hr Hx0 : _intsetGet s 0 = x0), (get_rep s l (length l - 1) xm) by done.
  rewrite ssorted_lookup in Hs. split.
  - destruct i; [by simplify_eq|]. apply Z.lt_le_incl. eapply Hs; [|eassumption|eassumption]; lia.
  - destruct (decide (i = length l - 1)%nat) as [->|]; [by simplify_eq|].
    apply Z.lt_le_incl. eapply Hs; [|eassumption|eassumption]; lia.
Qed.

(** ** Integrity check of a serialised set *)

Lemma encode_decode_slot e bs :
  enc_ok e -> length bs = Z.to_nat e -> Forall is_byte bs ->
  le_encode (Z.to_nat e) (wraps (8 * e) (le_decode bs)) = bs.
Proof.
  intros He Hl Hb. rewrite <- Hl at 1. rewrite <- (le_encode_decode bs Hb) at 3.
  apply le_encode_mod. rewrite Hl.
  replace (8 * Z.of_nat (Z.to_nat e)) with (8 * e) by (destruct He as [-> | [-> | ->]]; lia).
  unfold wraps. rewrite Zminus_mod_idemp_l. f_equal. lia.
Qed.

(** Any byte buffer of the right size is the layout of the values read from it. *)
Lemma elems_of_raw s :
  enc_ok (is_encoding s) -> 0 <= is_length s ->
  Z.of_nat (length (is_contents s)) = is_length s * is_encoding s ->
  Forall is_byte (is_contents s) -> rep s (elems s).
Proof.
  intros He Hn Hlen Hb.
  assert (length (elems s) = Z.to_nat (is_length s)) as Hle
    by (unfold elems; rewrite !length_fmap, length_seq; done).
  assert (forall i x, elems s !! i = Some x -> (i < Z.to_nat (is_length s))%nat /\
            x = _intsetGet s (Z.of_nat i)) as Hel.
  { intros i x Hi. split; [by rewrite <- Hle; eapply lookup_lt_Some|].
    unfold elems in Hi. rewrite !list_lookup_fmap in Hi.
    destruct (seq _ _ !! i) eqn:Hseq; simplify_eq/=. apply lookup_seq in Hseq as [-> _]. done. }
  split; [done|lia| |].
  - apply flat_intro; [rewrite Hle; destruct He as [He | [He | He]]; rewrite He in *; lia|].
    intros i x [Hi ->]%Hel. unfold _intsetGet. rewrite getEncoded_eq by done.
    replace (Z.to_nat (Z.of_nat i * is_encoding s)) with (i * Z.to_nat (is_encoding s))%nat
      by (destruct He as [He | [He | He]]; rewrite He; lia).
    symmetry. apply encode_decode_slot; [done|..].
    + apply length_mem_read. destruct He as [He | [He | He]]; rewrite He in *; lia.
    + by apply Forall_take, Forall_drop.
  - apply Forall_lookup. intros i x [_ ->]%Hel. unfold _intsetGet.
    rewrite getEncoded_eq by done. apply wraps_bound. destruct He as [-> | [-> | ->]]; lia.
Qed.

(** The scan accepts exactly the increasing sequences. *)
Lemma validate_loop_spec s l n i prev :
  rep s l -> (1 <= i)%nat -> (i + n = length l)%nat -> l !! (i - 1)%nat = Some prev ->
  intsetValidate_loop n s (Z.of_nat i) prev = true <->
  (forall j x y, (i - 1 <= j)%nat -> l !! j = Some x -> l !! S j = Some y -> x < y).
Proof.
  intros Hr. revert i prev. induction n as [|n IH]; intros i prev Hi Hn Hp.
  - split; [|done]. intros _ j x y Hj Hx Hy. apply lookup_lt_Some in Hy. lia.
  - cbn [intsetValidate_loop]. destruct (lookup_lt_is_Some_2 l i) as [c Hc]; [lia|].
    rewrite (get_rep s l i c) by done. destruct (Z.leb_spec c prev) as [Hcp|Hcp].
    + split; [done|]. intros H. specialize (H (i - 1)%nat prev c ltac:(lia) Hp).
      replace (S (i - 1)) with i in H by lia. specialize (H Hc). lia.
    + replace (Z.of_nat i + 1) with (Z.of_nat (S i)) by lia.
      rewrite IH; [|lia|lia|by replace (S i - 1)%nat with i by lia].
      split; intros H j x y Hj Hx Hy.
      * destruct (decide (j = i - 1)%nat) as [->|]; [|apply (H j); auto; lia].
        replace (S (i - 1)) with i in Hy by lia. by simplify_eq.
      * apply (H j); auto. lia.
Qed.

Lemma adjacent_sorted (l : list Z) :
  (forall j x y, l !! j = Some x -> l !! S j = Some y -> x < y) <-> StronglySorted Z.lt l.
Proof.
  split.
  - intros H. apply Sorted_StronglySorted; [intros ???; lia|].
    induction l as [|a l IH]; constructor.
    + apply IH. intros j. apply (H (S j)).
    + destruct l; constructor. by apply (H 0%nat).
  - rewrite ssorted_lookup. intros H j x y Hx Hy. eapply (H j (S j)); auto.
Qed.

Lemma of_to_blob s :
  fits_u 32 (is_encoding s) -> fits_u 32 (is_length s) -> intset_of_blob (intset_to_blob s) = s.
Proof.
  intros He Hl. unfold intset_of_blob, intset_to_blob. destruct s as [e n c]; cbn in *.
  pose proof (length_le_encode 4 e). pose proof (length_le_encode 4 n). f_equal.
  - rewrite mem_read_app_l by lia. rewrite <- H at 1. rewrite mem_read_all, le_decode_encode.
    by apply Z.mod_small.
  - replace (mem_read 4 4) with (mem_read (length (le_encode 4 e) + 0) 4) by (f_equal; lia).
    rewrite mem_read_app_r, mem_read_app_l by lia. rewrite <- H0 at 1.
    rewrite mem_read_all, le_decode_encode. by apply Z.mod_small.
Qed.

Lemma to_of_blob p :
  Forall is_byte p -> (8 <= length p)%nat -> intset_to_blob (intset_of_blob p) = p.
Proof.
  intros Hp Hl. unfold intset_of_blob, intset_to_blob. cbn [is_encoding is_length is_contents].
  assert (forall off, (off + 4 <= 8)%nat ->
            le_encode 4 (le_decode (mem_read off 4 p)) = mem_read off 4 p) as Hr.
  { intros off Hoff. rewrite <- (length_mem_read off 4 p) at 1 by lia.
    apply le_encode_decode. by apply Forall_take, Forall_drop. }
  rewrite !Hr by lia. rewrite app_assoc. rewrite <- (mem_read_split 0 4 4).
  unfold mem_read. rewrite drop_0. apply take_drop.
Qed.

(** The header tests and the scan, put together. *)
Lemma validate_rep p l :
  rep (intset_of_blob p) l -> (8 <= length p)%nat -> l <> [] ->
  Z.of_nat (length p) = 8 + is_length (intset_of_blob p) * is_encoding (intset_of_blob p) ->
  intsetValidateIntegrity p true = true <-> StronglySorted Z.lt l.
Proof.
  intros Hr Hp Hne Hsz. rewrite <- adjacent_sorted. unfold intsetValidateIntegrity.
  pose proof (rep_enc _ _ Hr) as He. pose proof (rep_len _ _ Hr) as Hl.
  set (s := intset_of_blob p) in *.
  destruct (Z.ltb_spec (Z.of_nat (length p)) sizeof_intset) as [H8|_];
    [unfold sizeof_intset in H8; lia|].
  replace ((is_encoding s =? INTSET_ENC_INT64) || (is_encoding s =? INTSET_ENC_INT32)
           || (is_encoding s =? INTSET_ENC_INT16)) with true
    by (destruct He as [-> | [-> | ->]]; done).
  unfold sizeof_intset. rewrite <- Hsz, Z.eqb_refl. cbn [negb].
  destruct l as [|x0 l']; [done|].
  destruct (Z.eqb_spec (is_length s) 0) as [H0|_]; [by rewrite Hl in H0|].
  rewrite (get_rep s (x0 :: l') 0 x0 Hr eq_refl : _intsetGet s 0 = x0).
  rewrite (validate_loop_spec s (x0 :: l') _ 1 x0 Hr); [|lia|rewrite Hl; cbn [length]; lia|done].
  split; intros H j x y; [apply (H j); lia|intros _; apply (H j)].
Qed.

(** The deep integrity check accepts a payload exactly when it is the
    serialisation of a non-empty intset whose values strictly increase. *)
Theorem intsetValidateIntegrity_correct p :
  Forall is_byte p ->
  intsetValidateIntegrity p true = true <->
  exists s l, p = intset_to_blob s /\ rep s l /\ l <> [] /\ StronglySorted Z.lt l
              /\ fits_u 32 (is_length s).
Proof.
  intros Hp. split.
  - intros Hv. pose proof Hv as Hv'. unfold intsetValidateIntegrity in Hv'.
    set (s := intset_of_blob p) in *. unfold sizeof_intset in Hv'.
    destruct (Z.ltb_spec (Z.of_nat (length p)) 8) as [|H8]; [done|].
    destruct (negb _) eqn:He in Hv'; [done|]. apply negb_false_iff in He.
    rewrite !orb_true_iff, !Z.eqb_eq in He.
    assert (enc_ok (is_encoding s)) as Heok by (unfold enc_ok; tauto).
    destruct (Z.eqb_spec (8 + is_length s * is_encoding s) (Z.of_nat (length p))) as [Hsz|]; [|done].
    cbn [negb] in Hv'. destruct (Z.eqb_spec (is_length s) 0) as [|Hn0]; [done|]. clear Hv'.
    assert (fits_u 32 (is_length s)) as Hfit.
    { unfold s, intset_of_blob, fits_u. cbn [is_length].
      pose proof (le_decode_bound (mem_read 4 4 p)) as Hd.
      rewrite length_mem_read in Hd by lia. apply Hd. by apply Forall_take, Forall_drop. }
    assert (rep s (elems s)) as Hr.
    { apply elems_of_raw; [done|apply Hfit| |]; unfold s at 1, intset_of_blob; cbn [is_contents].
      - rewrite length_drop. lia.
      - by apply Forall_drop. }
    assert (elems s <> []) as Hne.
    { intros Hnil. pose proof (rep_len _ _ Hr) as Hl. rewrite Hnil in Hl. by apply Hn0. }
    exists s, (elems s). split_and!; [symmetry; apply to_of_blob; [done|lia]|done|done| |done].
    apply (validate_rep p); auto; lia.
  - intros (s & l & -> & Hr & Hne & Hs & Hfit).
    assert (fits_u 32 (is_encoding s)) as Hef
      by (destruct (rep_enc _ _ Hr) as [-> | [-> | ->]]; unfold fits_u; lia).
    assert (length (intset_to_blob s) = 8 + length (is_contents s))%nat as Hlen
      by (unfold intset_to_blob; rewrite !length_app, !length_le_encode; lia).
    apply (validate_rep _ l); rewrite ?of_to_blob by done; auto; [lia|].
    rewrite Hlen, (rep_contents _ _ Hr), length_flat, (rep_len _ _ Hr).
    destruct (rep_enc _ _ Hr) as [-> | [-> | ->]]; lia.
Qed.

Lemma intsetValidateIntegrity_correct_witness :
  intsetValidateIntegrity (intset_to_blob ex_set) true = true <->
  exists s l, intset_to_blob ex_set = intset_to_blob s /\ rep s l /\ l <> []
              /\ StronglySorted Z.lt l /\ fits_u 32 (is_length s).
Proof.
  apply (intsetValidateIntegrity_correct (intset_to_blob ex_set)).
  repeat constructor; vm_compute; done.
Defined.
