(* ===== verification/Dict.v ===== *)
(** * The hash table (src/dict.c, src/dict.h)

    Chained hash table with incremental rehashing over two tables.  A chain
    is a list of entries, a table an optional array of chains ([None] is the
    NULL pointer), and a pointer to an entry the triple (table, bucket,
    position in the chain).  Operations return [None] where the code would
    dereference NULL, index out of bounds or fail an assertion; the theorems
    show that this does not happen.  The element counters are unbounded
    integers: every element occupies memory, so they stay far below 2^59 and
    none of the products the code forms can wrap. *)
From S2P Require Import Prelude.
From stdpp Require Import prelude list numbers gmap option.
From Stdlib Require Import ZArith Lia.

#[local] Open Scope Z_scope.

(** ** Data *)

Inductive dictResizeEnable := DICT_RESIZE_ENABLE | DICT_RESIZE_AVOID | DICT_RESIZE_FORBID.

#[global] Instance dictResizeEnable_eq_dec : EqDecision dictResizeEnable.
Proof. solve_decision. Defined.

(** The callbacks [rehashingStarted]/[rehashingCompleted] and the table sizes
    [dictRehashingInfo] reports at that moment. *)
Inductive dict_event := RehashingStarted (from to : Z) | RehashingCompleted (from to : Z).

(** The kinds of entry a tagged pointer distinguishes. *)
Inductive dictEntry (K V : Type) :=
  | EntryKey (k : K)
  | EntryNoValue (k : K)
  | EntryNormal (k : K) (v : option V)
  | EntryEmbedded (k : K) (v : option V).
Arguments EntryKey {K V} _.
Arguments EntryNoValue {K V} _.
Arguments EntryNormal {K V} _ _.
Arguments EntryEmbedded {K V} _ _.

Record dictType (K : Type) := DictType {
  hashFunction : K -> Z;
  resizeAllowed : option (Z -> Z -> Z -> bool);  (* moreMem, and the ratio used/size *)
  no_value : bool;
  keys_are_odd : bool;
  embedded_entry : bool;
  no_incremental_rehash : bool
}.
Arguments DictType {K} _ _ _ _ _ _.
Arguments hashFunction {K} _ _.
Arguments resizeAllowed {K} _.
Arguments no_value {K} _.
Arguments keys_are_odd {K} _.
Arguments embedded_entry {K} _.
Arguments no_incremental_rehash {K} _.

(** [ht_table[i]], [ht_used[i]] and [ht_size_exp[i]]. *)
Record htab (K V : Type) := Htab {
  ht_table : option (list (list (dictEntry K V)));
  ht_used : Z;
  ht_size_exp : Z
}.
Arguments Htab {K V} _ _ _.
Arguments ht_table {K V} _.
Arguments ht_used {K V} _.
Arguments ht_size_exp {K V} _.

Record dict (K V : Type) := Dict {
  ht0 : htab K V;
  ht1 : htab K V;
  rehashidx : Z;
  pauserehash : Z;
  pauseAutoResize : Z;
  d_events : list dict_event   (* callbacks invoked so far, oldest first *)
}.
Arguments Dict {K V} _ _ _ _ _ _.
Arguments ht0 {K V} _.
Arguments ht1 {K V} _.
Arguments rehashidx {K V} _.
Arguments pauserehash {K V} _.
Arguments pauseAutoResize {K V} _.
Arguments d_events {K V} _.

Definition DICT_HT_INITIAL_EXP : Z := 2.
Definition DICT_HT_INITIAL_SIZE : Z := 4.
Definition HASHTABLE_MIN_FILL : Z := 8.
Definition dict_force_resize_ratio : Z := 4.
Definition LONG_MAX : Z := 9223372036854775807.

Definition DICTHT_SIZE (exp : Z) : Z := if exp =? -1 then 0 else 2 ^ exp.
Definition DICTHT_SIZE_MASK (exp : Z) : Z := if exp =? -1 then 0 else DICTHT_SIZE exp - 1.

(** [8 * sizeof(long) - __builtin_clzl(size - 1)] is the bit length of [size - 1]. *)
Definition dictNextExp (size : Z) : Z :=
  if size <=? DICT_HT_INITIAL_SIZE then DICT_HT_INITIAL_EXP
  else if size >=? LONG_MAX then 63
  else Z.log2 (size - 1) + 1.

Section dict.
Context {K V : Type} `{EqDecision K}.
Context (can_resize : dictResizeEnable) (ty : dictType K).

Implicit Types (d : dict K V) (h : htab K V) (de : dictEntry K V).

Definition dictGetKey de : K :=
  match de with
  | EntryKey k | EntryNoValue k | EntryNormal k _ | EntryEmbedded k _ => k
  end.

Definition dictGetVal de : option V :=
  match de with
  | EntryNormal _ v | EntryEmbedded _ v => v
  | EntryKey _ | EntryNoValue _ => None
  end.

Definition entryIsKey de : bool := match de with EntryKey _ => true | _ => false end.
Definition entryIsNoValue de : bool := match de with EntryNoValue _ => true | _ => false end.

(** *** Field access *)

Definition dictIsRehashing d : bool := negb (rehashidx d =? -1).
Definition dictSize d : Z := ht_used (ht0 d) + ht_used (ht1 d).
Definition dictBuckets d : Z := DICTHT_SIZE (ht_size_exp (ht0 d)) + DICTHT_SIZE (ht_size_exp (ht1 d)).

Definition size0 d : Z := DICTHT_SIZE (ht_size_exp (ht0 d)).
Definition size1 d : Z := DICTHT_SIZE (ht_size_exp (ht1 d)).
Definition mask0 d : Z := DICTHT_SIZE_MASK (ht_size_exp (ht0 d)).
Definition mask1 d : Z := DICTHT_SIZE_MASK (ht_size_exp (ht1 d)).

(** [ht_table[t][idx]]; [None] when the pointer is NULL or [idx] out of range. *)
Definition ht_bucket h (idx : Z) : option (list (dictEntry K V)) :=
  t ← ht_table h; t !! Z.to_nat idx.

Definition ht_set_bucket h (idx : Z) (b : list (dictEntry K V)) : htab K V :=
  Htab ((fun t => <[Z.to_nat idx := b]> t) <$> ht_table h) (ht_used h) (ht_size_exp h).

Definition ht_add_used h (delta : Z) : htab K V :=
  Htab (ht_table h) (ht_used h + delta) (ht_size_exp h).

Definition set_ht0 d h : dict K V :=
  Dict h (ht1 d) (rehashidx d) (pauserehash d) (pauseAutoResize d) (d_events d).
Definition set_ht1 d h : dict K V :=
  Dict (ht0 d) h (rehashidx d) (pauserehash d) (pauseAutoResize d) (d_events d).
Definition set_rehashidx d (i : Z) : dict K V :=
  Dict (ht0 d) (ht1 d) i (pauserehash d) (pauseAutoResize d) (d_events d).
Definition dictPauseRehashing d : dict K V :=
  Dict (ht0 d) (ht1 d) (rehashidx d) (pauserehash d + 1) (pauseAutoResize d) (d_events d).
Definition dictResumeRehashing d : dict K V :=
  Dict (ht0 d) (ht1 d) (rehashidx d) (pauserehash d - 1) (pauseAutoResize d) (d_events d).
Definition dictPauseAutoResize d : dict K V :=
  Dict (ht0 d) (ht1 d) (rehashidx d) (pauserehash d) (pauseAutoResize d + 1) (d_events d).
Definition dictResumeAutoResize d : dict K V :=
  Dict (ht0 d) (ht1 d) (rehashidx d) (pauserehash d) (pauseAutoResize d - 1) (d_events d).

Definition rehashingStarted d : dict K V :=
  Dict (ht0 d) (ht1 d) (rehashidx d) (pauserehash d) (pauseAutoResize d)
    (d_events d ++ [RehashingStarted (size0 d) (size1 d)]).
Definition rehashingCompleted d : dict K V :=
  Dict (ht0 d) (ht1 d) (rehashidx d) (pauserehash d) (pauseAutoResize d)
    (d_events d ++ [RehashingCompleted (size0 d) (size1 d)]).

(** *** Creation *)

Definition ht_reset : htab K V := Htab None 0 (-1).

Definition dictReset d (htidx : bool) : dict K V :=
  if htidx then set_ht1 d ht_reset else set_ht0 d ht_reset.

Definition dictCreate : dict K V := Dict ht_reset ht_reset (-1) 0 0 [].

(** *** Incremental rehashing *)

(** Moving one entry to the head of the chain [b] of the new table. *)
Definition rehash_entry de (b : list (dictEntry K V)) : option (list (dictEntry K V)) :=
  let key := dictGetKey de in
  if no_value ty then
    if keys_are_odd ty && match b with [] => true | _ => false end then Some [EntryKey key]
    else if entryIsKey de then Some (EntryNoValue key :: b)
    else if entryIsNoValue de then Some (de :: b) else None
  else if entryIsKey de then None else Some (de :: b).

Fixpoint rehash_chain (idx : Z) (chain : list (dictEntry K V)) d : option (dict K V) :=
  match chain with
  | [] => Some d
  | de :: nextde =>
      let h :=
        if ht_size_exp (ht1 d) >? ht_size_exp (ht0 d)
        then Z.land (hashFunction ty (dictGetKey de)) (mask1 d)
        else Z.land idx (mask1 d) in
      b ← ht_bucket (ht1 d) h;
      b' ← rehash_entry de b;
      rehash_chain idx nextde
        (set_ht0 (set_ht1 d (ht_add_used (ht_set_bucket (ht1 d) h b') 1))
           (ht_add_used (ht0 d) (-1)))
  end.

Definition rehashEntriesInBucketAtIndex d (idx : Z) : option (dict K V) :=
  de ← ht_bucket (ht0 d) idx;
  d ← rehash_chain idx de d;
  Some (set_ht0 d (ht_set_bucket (ht0 d) idx [])).

Definition dictCheckRehashingCompleted d : dict K V * bool :=
  if negb (ht_used (ht0 d) =? 0) then (d, false)
  else
    let d := rehashingCompleted d in
    let d := set_ht0 d (ht1 d) in
    let d := dictReset d true in
    (set_rehashidx d (-1), true).

(** [while (d->ht_table[0][d->rehashidx] == NULL)]: the new index, the visits
    left, and whether they ran out. *)
Fixpoint skip_empty (empty_visits : nat) h (idx : Z) : option (Z * nat * bool) :=
  match empty_visits with
  | O => None
  | S ev =>
      b ← ht_bucket h idx;
      match b with
      | [] => if decide (ev = O) then Some (idx + 1, O, true) else skip_empty ev h (idx + 1)
      | _ :: _ => Some (idx, S ev, false)
      end
  end.

(** [while (n-- && d->ht_used[0] != 0)]; the flag is the early [return 1]. *)
Fixpoint dictRehash_loop (n empty_visits : nat) d : option (dict K V * bool) :=
  match n with
  | O => Some (d, false)
  | S n =>
      if ht_used (ht0 d) =? 0 then Some (d, false)
      else if size0 d >? rehashidx d then
        r ← skip_empty empty_visits (ht0 d) (rehashidx d);
        let '(idx, ev, stop) := r in
        let d := set_rehashidx d idx in
        if (stop : bool) then Some (d, true)
        else
          d ← rehashEntriesInBucketAtIndex d idx;
          dictRehash_loop n ev (set_rehashidx d (rehashidx d + 1))
      else None
  end.

(** The checks [dictRehash] and [dictBucketRehash] start with. *)
Definition rehash_disallowed d : bool :=
  let s0 := size0 d in
  let s1 := size1 d in
  bool_decide (can_resize = DICT_RESIZE_FORBID) || negb (dictIsRehashing d)
  || (bool_decide (can_resize = DICT_RESIZE_AVOID)
      && (((s1 >? s0) && (s1 <? dict_force_resize_ratio * s0))
          || ((s1 <? s0) && (s0 <? HASHTABLE_MIN_FILL * dict_force_resize_ratio * s1)))).

Definition dictRehash d (n : nat) : option (dict K V * bool) :=
  if rehash_disallowed d then Some (d, false)
  else
    r ← dictRehash_loop n (n * 10) d;
    let '(d, early) := r in
    if (early : bool) then Some (d, true)
    else let '(d, completed) := dictCheckRehashingCompleted d in Some (d, negb completed).

Definition dictRehashStep d : option (dict K V) :=
  if pauserehash d =? 0 then fst <$> dictRehash d 1 else Some d.

Definition dictBucketRehash d (idx : Z) : option (dict K V) :=
  if negb (pauserehash d =? 0) then Some d
  else if rehash_disallowed d then Some d
  else
    d ← rehashEntriesInBucketAtIndex d idx;
    Some (dictCheckRehashingCompleted d).1.

(** *** Resizing *)

(** [while (dictRehash(d, 1000));] *)
Fixpoint rehash_all (fuel : nat) d : option (dict K V) :=
  match fuel with
  | O => None
  | S fuel =>
      r ← dictRehash d 1000;
      let '(d, more) := r in
      if (more : bool) then rehash_all fuel d else Some d
  end.

(** [alloc] is [None] when [malloc_failed] is NULL (the allocation panics on
    failure), otherwise whether [ztrycalloc] succeeds.  The result is the
    return value ([true] is DICT_OK) and [*malloc_failed]. *)
Definition dictResizeWithOptionalCheck (alloc : option bool) d (size : Z) :
    option (dict K V * bool * bool) :=
  if dictIsRehashing d then None
  else
    let new_ht_size_exp := dictNextExp size in
    let newsize := DICTHT_SIZE new_ht_size_exp in
    if (newsize <? size) || (wrapu 64 (newsize * 8) <? newsize) then Some (d, false, false)
    else if new_ht_size_exp =? ht_size_exp (ht0 d) then Some (d, false, false)
    else if bool_decide (alloc = Some false) then Some (d, false, true)
    else
      let new_ht := Htab (Some (replicate (Z.to_nat newsize) [])) 0 new_ht_size_exp in
      let d := set_rehashidx (set_ht1 d new_ht) 0 in
      let d := rehashingStarted d in
      if bool_decide (ht_table (ht0 d) = None) || (ht_used (ht0 d) =? 0) then
        let d := rehashingCompleted d in
        let d := dictReset (set_ht0 d new_ht) true in
        Some (set_rehashidx d (-1), true, false)
      else if no_incremental_rehash ty then
        d ← rehash_all (S (S (Z.to_nat (size0 d)))) d;
        Some (d, true, false)
      else Some (d, true, false).

Definition dictExpandWithOptionalCheck (alloc : option bool) d (size : Z) :
    option (dict K V * bool * bool) :=
  if dictIsRehashing d || (ht_used (ht0 d) >? size) || (size0 d >=? size)
  then Some (d, false, false)
  else dictResizeWithOptionalCheck alloc d size.

Definition dictExpand d (size : Z) : option (dict K V * bool) :=
  r ← dictExpandWithOptionalCheck None d size;
  let '(d, ok, _) := r in Some (d, ok).

Definition dictTryExpand (alloc : bool) d (size : Z) : option (dict K V * bool) :=
  r ← dictExpandWithOptionalCheck (Some alloc) d size;
  let '(d, _, malloc_failed) := r in Some (d, negb malloc_failed).

Definition dictShrink d (size : Z) : option (dict K V * bool) :=
  if dictIsRehashing d || (ht_used (ht0 d) >? size) || (size0 d <=? size)
  then Some (d, false)
  else
    r ← dictResizeWithOptionalCheck None d size;
    let '(d, ok, _) := r in Some (d, ok).

Definition dictTypeResizeAllowed d (size : Z) : bool :=
  match resizeAllowed ty with
  | None => true
  | Some f => f (wrapu 64 (DICTHT_SIZE (dictNextExp size) * 8)) (ht_used (ht0 d)) (size0 d)
  end.

Definition dictExpandIfNeeded d : option (dict K V * bool) :=
  if dictIsRehashing d then Some (d, true)
  else if size0 d =? 0 then
    r ← dictExpand d DICT_HT_INITIAL_SIZE; Some (r.1, true)
  else if (bool_decide (can_resize = DICT_RESIZE_ENABLE) && (ht_used (ht0 d) >=? size0 d))
       || (negb (bool_decide (can_resize = DICT_RESIZE_FORBID))
           && (ht_used (ht0 d) >=? dict_force_resize_ratio * size0 d)) then
    if dictTypeResizeAllowed d (ht_used (ht0 d) + 1)
    then r ← dictExpand d (ht_used (ht0 d) + 1); Some (r.1, true)
    else Some (d, true)
  else Some (d, false).

Definition dictShrinkIfNeeded d : option (dict K V * bool) :=
  if dictIsRehashing d then Some (d, true)
  else if size0 d <=? DICT_HT_INITIAL_SIZE then Some (d, true)
  else if (bool_decide (can_resize = DICT_RESIZE_ENABLE)
           && (ht_used (ht0 d) * HASHTABLE_MIN_FILL <=? size0 d))
       || (negb (bool_decide (can_resize = DICT_RESIZE_FORBID))
           && (ht_used (ht0 d) * HASHTABLE_MIN_FILL * dict_force_resize_ratio <=? size0 d)) then
    if dictTypeResizeAllowed d (ht_used (ht0 d))
    then r ← dictShrink d (ht_used (ht0 d)); Some (r.1, true)
    else Some (d, true)
  else Some (d, false).

Definition dictExpandIfAutoResizeAllowed d : option (dict K V) :=
  if pauseAutoResize d >? 0 then Some d else fst <$> dictExpandIfNeeded d.

Definition dictShrinkIfAutoResizeAllowed d : option (dict K V) :=
  if pauseAutoResize d >? 0 then Some d else fst <$> dictShrinkIfNeeded d.

(** *** Lookup *)

(** The [while (he)] scan of a chain: position and entry of the key. *)
Fixpoint chain_find (key : K) (chain : list (dictEntry K V)) : option (nat * dictEntry K V) :=
  match chain with
  | [] => None
  | he :: next =>
      if decide (key = dictGetKey he) then Some (O, he)
      else
        match chain_find key next with
        | Some (p, e) => Some (S p, e)
        | None => None
        end
  end.

(** A pointer to an entry: table, bucket index, position in the chain. *)
Record entry_ref := EntryRef { er_table : bool; er_idx : Z; er_pos : nat }.

Definition find_in d (table : bool) (h : Z) (key : K) :
    option (Z * option (entry_ref * dictEntry K V)) :=
  let ht := if table then ht1 d else ht0 d in
  let idx := Z.land h (DICTHT_SIZE_MASK (ht_size_exp ht)) in
  b ← ht_bucket ht idx;
  Some (idx, (fun pe => (EntryRef table idx pe.1, pe.2)) <$> chain_find key b).

(** The loop over the two tables, entered with [idx] computed for table 0:
    the last index used, and the entry found. *)
Definition find_tables d (h idx : Z) (key : K) :
    option (Z * option (entry_ref * dictEntry K V)) :=
  if idx <? rehashidx d then find_in d true h key
  else
    r ← find_in d false h key;
    match r.2 with
    | Some _ => Some r
    | None => if dictIsRehashing d then find_in d true h key else Some r
    end.

(** The rehashing work done on access. *)
Definition rehash_on_access d (idx : Z) : option (dict K V) :=
  if dictIsRehashing d then
    if idx >=? rehashidx d then
      b ← ht_bucket (ht0 d) idx;
      match b with
      | _ :: _ => dictBucketRehash d idx
      | [] => dictRehashStep d
      end
    else dictRehashStep d
  else Some d.

Definition dictFind d (key : K) : option (dict K V * option (entry_ref * dictEntry K V)) :=
  if dictSize d =? 0 then Some (d, None)
  else
    let h := hashFunction ty key in
    let idx := Z.land h (mask0 d) in
    d ← rehash_on_access d idx;
    r ← find_tables d h idx key;
    Some (d, r.2).

(** The value is [None] when the key is missing (or the entry has no value). *)
Definition dictFetchValue d (key : K) : option (dict K V * option V) :=
  r ← dictFind d key;
  Some (r.1, match r.2 with Some (_, he) => dictGetVal he | None => None end).

(** *** Insertion *)

(** [inl existing] when the key is there, else [inr] the bucket to insert at. *)
Definition dictFindPositionForInsert d (key : K) :
    option (dict K V * ((entry_ref * dictEntry K V) + (bool * Z))) :=
  let hash := hashFunction ty key in
  let idx := Z.land hash (mask0 d) in
  d ← rehash_on_access d idx;
  d ← dictExpandIfAutoResizeAllowed d;
  r ← find_tables d hash idx key;
  match r.2 with
  | Some existing => Some (d, inl existing)
  | None => Some (d, inr (dictIsRehashing d, r.1))
  end.

Definition new_entry (key : K) (bucket : list (dictEntry K V)) : dictEntry K V :=
  if no_value ty then
    if keys_are_odd ty && match bucket with [] => true | _ => false end
    then EntryKey key else EntryNoValue key
  else if embedded_entry ty then EntryEmbedded key None
  else EntryNormal key None.

Definition dictInsertAtPosition d (key : K) (position : bool * Z) : option (dict K V * entry_ref) :=
  let '(table, idx) := position in
  let htidx := dictIsRehashing d in
  let ht := if htidx then ht1 d else ht0 d in
  if bool_decide (table = htidx) && (0 <=? idx) && (idx <=? DICTHT_SIZE_MASK (ht_size_exp ht)) then
    bucket ← ht_bucket ht idx;
    let ht := ht_add_used (ht_set_bucket ht idx (new_entry key bucket :: bucket)) 1 in
    Some (if htidx then set_ht1 d ht else set_ht0 d ht, EntryRef htidx idx O)
  else None.

(** [inr ref] is the new entry, [inl existing] the NULL result with [*existing]. *)
Definition dictAddRaw d (key : K) :
    option (dict K V * ((entry_ref * dictEntry K V) + entry_ref)) :=
  r ← dictFindPositionForInsert d key;
  let '(d, pos) := r in
  match pos with
  | inl existing => Some (d, inl existing)
  | inr position =>
      r ← dictInsertAtPosition d key position;
      Some (r.1, inr r.2)
  end.

(** [DICT_SET_VALUE]: panics on entries without a value. *)
Definition entry_set_val de (val : V) : option (dictEntry K V) :=
  match de with
  | EntryNormal k _ => Some (EntryNormal k (Some val))
  | EntryEmbedded k _ => Some (EntryEmbedded k (Some val))
  | EntryKey _ | EntryNoValue _ => None
  end.

Definition dictSetVal d (ref : entry_ref) (val : V) : option (dict K V) :=
  let ht := if er_table ref then ht1 d else ht0 d in
  b ← ht_bucket ht (er_idx ref);
  de ← b !! er_pos ref;
  de' ← entry_set_val de val;
  let ht := ht_set_bucket ht (er_idx ref) (<[er_pos ref := de']> b) in
  Some (if er_table ref then set_ht1 d ht else set_ht0 d ht).

(** The flag is [true] for DICT_OK. *)
Definition dictAdd d (key : K) (val : V) : option (dict K V * bool) :=
  r ← dictAddRaw d key;
  let '(d, res) := r in
  match res with
  | inl _ => Some (d, false)
  | inr entry =>
      if no_value ty then Some (d, true)
      else d ← dictSetVal d entry val; Some (d, true)
  end.

Definition dictReplace d (key : K) (val : V) : option (dict K V * bool) :=
  r ← dictAddRaw d key;
  let '(d, res) := r in
  match res with
  | inr entry => d ← dictSetVal d entry val; Some (d, true)
  | inl (existing, _) => d ← dictSetVal d existing val; Some (d, false)
  end.

Definition dictAddOrFind d (key : K) : option (dict K V * entry_ref) :=
  r ← dictAddRaw d key;
  let '(d, res) := r in
  match res with
  | inr entry => Some (d, entry)
  | inl (existing, _) => Some (d, existing)
  end.

(** *** Deletion *)

(** Unlinking the entry a pointer designates. *)
Definition unlink d (ref : entry_ref) : option (dict K V) :=
  let ht := if er_table ref then ht1 d else ht0 d in
  b ← ht_bucket ht (er_idx ref);
  _ ← b !! er_pos ref;
  let ht := ht_add_used (ht_set_bucket ht (er_idx ref) (delete (er_pos ref) b)) (-1) in
  Some (if er_table ref then set_ht1 d ht else set_ht0 d ht).

(** Returns the unlinked entry. *)
Definition dictGenericDelete d (key : K) : option (dict K V * option (dictEntry K V)) :=
  if dictSize d =? 0 then Some (d, None)
  else
    let h := hashFunction ty key in
    let idx := Z.land h (mask0 d) in
    d ← rehash_on_access d idx;
    r ← find_tables d h idx key;
    match r.2 with
    | None => Some (d, None)
    | Some (ref, he) =>
        d ← unlink d ref;
        d ← dictShrinkIfAutoResizeAllowed d;
        Some (d, Some he)
    end.

Definition dictDelete d (key : K) : option (dict K V * bool) :=
  r ← dictGenericDelete d key;
  Some (r.1, match r.2 with Some _ => true | None => false end).

Definition dictUnlink d (key : K) : option (dict K V * option (dictEntry K V)) :=
  dictGenericDelete d key.

Definition dictTwoPhaseUnlinkFind d (key : K) :
    option (dict K V * option (entry_ref * dictEntry K V)) :=
  if dictSize d =? 0 then Some (d, None)
  else
    d ← (if dictIsRehashing d then dictRehashStep d else Some d);
    let h := hashFunction ty key in
    r ← find_tables d h (Z.land h (mask0 d)) key;
    match r.2 with
    | Some res => Some (dictPauseRehashing d, Some res)
    | None => Some (d, None)
    end.

Definition dictTwoPhaseUnlinkFree d (ref : entry_ref) : option (dict K V) :=
  d ← unlink d ref;
  d ← dictShrinkIfAutoResizeAllowed d;
  Some (dictResumeRehashing d).

(** Freeing the entries of a table and resetting it. *)
Definition dictClear d (htidx : bool) : dict K V := dictReset d htidx.

Definition dictEmpty d : dict K V :=
  let d := if dictIsRehashing d then rehashingCompleted d else d in
  let d := dictClear (dictClear d false) true in
  Dict (ht0 d) (ht1 d) (-1) 0 0 (d_events d).

(** What remains of a released dict is the callbacks it made. *)
Definition dictRelease d : list dict_event :=
  d_events (if dictIsRehashing d then rehashingCompleted d else d).
End dict.
