(* ===== verification/DictSpec.v ===== *)
(** * Correctness of the hash table: invariant and refinement to a finite map *)
From S2P Require Import Prelude Dict.
From stdpp Require Import prelude list numbers gmap option fin_maps.
From Stdlib Require Import ZArith Lia.

#[local] Open Scope Z_scope.

(** ** Masks and sizes *)

Lemma mask_ones e : 0 <= e -> DICTHT_SIZE_MASK e = Z.ones e.
Proof.
  intros. unfold DICTHT_SIZE_MASK, DICTHT_SIZE. rewrite Z.ones_equiv.
  destruct (Z.eqb_spec e (-1)); [lia|]. lia.
Qed.

Lemma size_pow e : 0 <= e -> DICTHT_SIZE e = 2 ^ e.
Proof. intros. unfold DICTHT_SIZE. destruct (Z.eqb_spec e (-1)); [lia|done]. Qed.

Lemma land_mask x e : 0 <= e -> Z.land x (DICTHT_SIZE_MASK e) = x mod 2 ^ e.
Proof. intros. rewrite mask_ones by done. by apply Z.land_ones. Qed.

Lemma land_mask_bound x e : 0 <= e -> 0 <= Z.land x (DICTHT_SIZE_MASK e) < 2 ^ e.
Proof. intros. rewrite land_mask by done. apply Z.mod_pos_bound, Z.pow_pos_nonneg; lia. Qed.

(** Masking with the smaller table after the larger one. *)
Lemma land_mask_shrink x e1 e0 :
  0 <= e1 <= e0 ->
  Z.land (Z.land x (DICTHT_SIZE_MASK e0)) (DICTHT_SIZE_MASK e1) = Z.land x (DICTHT_SIZE_MASK e1).
Proof.
  intros. rewrite !mask_ones by lia. rewrite <- Z.land_assoc. f_equal.
  apply Z.bits_inj'. intros n Hn. rewrite Z.land_spec, !Z.testbit_ones by lia.
  destruct (Z.leb_spec 0 n), (Z.ltb_spec n e0), (Z.ltb_spec n e1); simpl; lia || done.
Qed.

Lemma dictNextExp_range size : 0 <= size -> 2 <= dictNextExp size <= 63.
Proof.
  intros. unfold dictNextExp, DICT_HT_INITIAL_SIZE, DICT_HT_INITIAL_EXP, LONG_MAX.
  destruct (Z.leb_spec size 4); [lia|]. rewrite Z.geb_leb.
  destruct (Z.leb_spec 9223372036854775807 size); [lia|].
  assert (1 <= Z.log2 (size - 1)) by (apply (Z.log2_le_mono 2); lia).
  assert (Z.log2 (size - 1) < 63) by (apply Z.log2_lt_pow2; lia). lia.
Qed.

(** The overflow check leaves exponents up to 60. *)
Lemma resize_exp_ok e : 2 <= e <= 63 -> (wrapu 64 (DICTHT_SIZE e * 8) <? DICTHT_SIZE e) = false -> e <= 60.
Proof.
  intros He Hw. rewrite size_pow in Hw by lia. apply Z.ltb_ge in Hw. unfold wrapu in Hw.
  destruct (decide (e <= 60)); [done|]. exfalso.
  assert (e = 61 \/ e = 62 \/ e = 63) as [-> | [-> | ->]] by lia; vm_compute in Hw; done.
Qed.

(** ** Updating one chain of a table *)

Lemma concat_insert {A} (t : list (list A)) i b :
  t !! i = Some b ->
  exists rest, concat t ≡ₚ b ++ rest /\ forall b', concat (<[i := b']> t) ≡ₚ b' ++ rest.
Proof.
  intros Hi. exists (concat (take i t ++ drop (S i) t)).
  pose proof (lookup_lt_Some _ _ _ Hi). split.
  - rewrite <- (take_drop_middle t i b Hi) at 1. rewrite !concat_app. cbn.
    rewrite !(assoc_L (++)). f_equiv. apply Permutation_app_comm.
  - intros b'. rewrite insert_take_drop by done. rewrite !concat_app. cbn.
    rewrite !(assoc_L (++)). f_equiv. apply Permutation_app_comm.
Qed.

Lemma elem_of_concat {A} (t : list (list A)) x : x ∈ concat t <-> exists b, x ∈ b /\ b ∈ t.
Proof.
  rewrite list_elem_of_In, in_concat. setoid_rewrite list_elem_of_In. naive_solver.
Qed.

Section spec.
Context {K V : Type} `{Countable K}.
Context (can_resize : dictResizeEnable) (ty : dictType K).

Implicit Types (d : dict K V) (h : htab K V) (de : dictEntry K V) (b : list (dictEntry K V)).

#[local] Abbreviation hash := (hashFunction ty).

(** *** Invariant *)

Definition kind_ok de : Prop :=
  match de with
  | EntryKey _ => no_value ty = true /\ keys_are_odd ty = true
  | EntryNoValue _ => no_value ty = true
  | EntryNormal _ _ => no_value ty = false /\ embedded_entry ty = false
  | EntryEmbedded _ _ => no_value ty = false /\ embedded_entry ty = true
  end.

(** A bare key carries no next pointer, so it only ends a chain. *)
Definition chain_ok b : Prop :=
  forall p de, b !! p = Some de -> kind_ok de /\ (entryIsKey de = true -> S p = length b).

Definition ht_wf h : Prop :=
  match ht_table h with
  | None => ht_size_exp h = -1 /\ ht_used h = 0
  | Some t =>
      2 <= ht_size_exp h <= 60 /\ Z.of_nat (length t) = 2 ^ ht_size_exp h
      /\ ht_used h = Z.of_nat (length (concat t))
      /\ forall i b, t !! i = Some b ->
           chain_ok b /\
           Forall (fun de => Z.land (hash (dictGetKey de)) (DICTHT_SIZE_MASK (ht_size_exp h))
                             = Z.of_nat i) b
  end.

Definition ht_entries h : list (dictEntry K V) :=
  match ht_table h with None => [] | Some t => concat t end.

Definition kv de : K * option V := (dictGetKey de, dictGetVal de).
Definition kvs d : list (K * option V) := kv <$> (ht_entries (ht0 d) ++ ht_entries (ht1 d)).

Record wf d : Prop := {
  wf_ht0 : ht_wf (ht0 d);
  wf_ht1 : ht_wf (ht1 d);
  wf_nodup : NoDup (kvs d).*1;
  wf_idle : rehashidx d = -1 -> ht_table (ht1 d) = None;
  wf_rehash : rehashidx d <> -1 ->
    ht_table (ht0 d) <> None /\ ht_table (ht1 d) <> None /\ 0 <= rehashidx d <= size0 d
    /\ forall i, 0 <= i < rehashidx d -> ht_bucket (ht0 d) i = Some []
}.

(** The finite map a dict stands for. *)
Definition dict_map d : gmap K (option V) := list_to_map (kvs d).

(** *** One table *)

Lemma ht_wf_some h t :
  ht_wf h -> ht_table h = Some t -> 2 <= ht_size_exp h <= 60 /\ Z.of_nat (length t) = 2 ^ ht_size_exp h.
Proof. unfold ht_wf. intros Hw Ht. rewrite Ht in Hw. naive_solver. Qed.

Lemma ht_bucket_some h idx :
  ht_wf h -> ht_table h <> None -> 0 <= idx < DICTHT_SIZE (ht_size_exp h) ->
  exists b, ht_bucket h idx = Some b.
Proof.
  intros Hw Ht Hi. destruct (ht_table h) as [t|] eqn:E; [|done].
  destruct (ht_wf_some h t Hw E) as [He Hl]. rewrite size_pow in Hi by lia.
  unfold ht_bucket. rewrite E. simpl. apply lookup_lt_is_Some_2. lia.
Qed.

Lemma ht_bucket_hash h x :
  ht_wf h -> ht_table h <> None ->
  exists b, ht_bucket h (Z.land x (DICTHT_SIZE_MASK (ht_size_exp h))) = Some b.
Proof.
  intros Hw Ht. apply ht_bucket_some; [done|done|].
  destruct (ht_table h) as [t|] eqn:E; [|done]. destruct (ht_wf_some h t Hw E) as [He _].
  rewrite size_pow by lia. apply land_mask_bound. lia.
Qed.

Lemma ht_bucket_inv h idx b :
  ht_wf h -> 0 <= idx -> ht_bucket h idx = Some b ->
  chain_ok b /\ idx < DICTHT_SIZE (ht_size_exp h) /\
  Forall (fun de => Z.land (hash (dictGetKey de)) (DICTHT_SIZE_MASK (ht_size_exp h)) = idx) b.
Proof.
  unfold ht_bucket, ht_wf. intros Hw Hi Hb. destruct (ht_table h) as [t|]; [|done].
  simpl in Hb. destruct Hw as (He & Hl & _ & Hall). destruct (Hall _ _ Hb) as [Hc Hf].
  rewrite Z2Nat.id in Hf by lia. split_and!; [done| |done].
  apply lookup_lt_Some in Hb. rewrite size_pow by lia. lia.
Qed.

Definition ht_put h (idx : Z) b b' : htab K V :=
  ht_add_used (ht_set_bucket h idx b') (Z.of_nat (length b') - Z.of_nat (length b)).

Lemma ht_put_spec h idx b b' :
  ht_wf h -> 0 <= idx -> ht_bucket h idx = Some b -> chain_ok b' ->
  Forall (fun de => Z.land (hash (dictGetKey de)) (DICTHT_SIZE_MASK (ht_size_exp h)) = idx) b' ->
  ht_wf (ht_put h idx b b') /\ ht_bucket (ht_put h idx b b') idx = Some b' /\
  (forall j, 0 <= j -> j <> idx -> ht_bucket (ht_put h idx b b') j = ht_bucket h j) /\
  exists rest, ht_entries h ≡ₚ b ++ rest /\ ht_entries (ht_put h idx b b') ≡ₚ b' ++ rest.
Proof.
  unfold ht_put, ht_wf, ht_bucket, ht_entries, ht_set_bucket, ht_add_used. cbn.
  intros Hw Hi Hb Hc Hf. destruct (ht_table h) as [t|]; [|done]. simpl in *.
  destruct Hw as (He & Hl & Hu & Hall).
  destruct (concat_insert t _ _ Hb) as (rest & Hr1 & Hr2).
  pose proof (lookup_lt_Some _ _ _ Hb) as Hlt. split_and!.
  - lia.
  - lia.
  - by rewrite length_insert.
  - rewrite (Hr2 b'), Hu, Hr1, !length_app. lia.
  - intros i c Hic. destruct (decide (i = Z.to_nat idx)) as [->|Hne].
    + rewrite list_lookup_insert_eq in Hic by done. simplify_eq.
      by rewrite Z2Nat.id by lia.
    + rewrite list_lookup_insert_ne in Hic by done. by apply Hall.
  - by apply list_lookup_insert_eq.
  - intros j Hj Hne. apply list_lookup_insert_ne. lia.
  - eauto.
Qed.

Lemma ht_put_frame h idx b b' :
  ht_size_exp (ht_put h idx b b') = ht_size_exp h /\
  (ht_table (ht_put h idx b b') = None <-> ht_table h = None).
Proof. unfold ht_put. cbn. by destruct (ht_table h). Qed.

(** *** Rehashing one chain *)

Lemma rehash_entry_spec de b :
  kind_ok de -> chain_ok b ->
  exists de', rehash_entry ty de b = Some (de' :: b) /\ kv de' = kv de /\ chain_ok (de' :: b).
Proof.
  intros Hk Hb.
  assert (forall de', kind_ok de' -> (entryIsKey de' = true -> b = []) -> chain_ok (de' :: b)) as Hcons.
  { intros de' Hk' He [|p] e Hp; simplify_eq/=.
    - split; [done|]. intros He'. by rewrite He.
    - destruct (Hb p e Hp) as [? HS]. split; [done|]. intros He'. rewrite <- (HS He'). done. }
  unfold rehash_entry. destruct (no_value ty) eqn:Hnv.
  - destruct (keys_are_odd ty && _) eqn:Hodd.
    + apply andb_true_iff in Hodd as [Ho Hbn]. destruct b; [|done].
      eexists. split_and!; [done| |by apply Hcons]. destruct de; simpl in *; done || by destruct Hk; congruence.
    + destruct de; simpl in *; try (destruct Hk; congruence);
        (eexists; split_and!; [done|done|by apply Hcons]).
  - destruct de; simpl in *; try (destruct Hk; congruence); try congruence;
      (eexists; split_and!; [done|done|by apply Hcons]).
Qed.

(** What moving a chain does: [ht1] gains its entries, of [ht0] only the
    counter changes. *)
Lemma rehash_chain_spec idx chain d :
  0 <= ht_size_exp (ht0 d) -> ht_wf (ht1 d) -> ht_table (ht1 d) <> None ->
  Forall kind_ok chain ->
  Forall (fun de => Z.land (hash (dictGetKey de)) (mask0 d) = idx) chain ->
  exists h1,
    rehash_chain ty idx chain d =
      Some (set_ht0 (set_ht1 d h1) (ht_add_used (ht0 d) (- Z.of_nat (length chain)))) /\
    ht_wf h1 /\ ht_table h1 <> None /\ ht_size_exp h1 = ht_size_exp (ht1 d) /\
    kv <$> ht_entries h1 ≡ₚ (kv <$> chain) ++ (kv <$> ht_entries (ht1 d)).
Proof.
  revert d. induction chain as [|de chain IH]; intros d He0 Hw1 Ht1 Hk Hf.
  - exists (ht1 d). split_and!; try done. simpl. do 2 f_equal.
    destruct d as [[] ? ? ? ? ?]; unfold set_ht0, set_ht1, ht_add_used; simpl. do 2 f_equal. lia.
  - cbn [rehash_chain]. inversion_clear Hf as [|? ? Hde Hf'].
    inversion_clear Hk as [|? ? Hkde Hk'].
    destruct (ht_table (ht1 d)) as [t1|] eqn:E1; [|done].
    destruct (ht_wf_some _ _ Hw1 E1) as [He1 _].
    set (x := if _ >? _ then _ else _).
    assert (x = Z.land (hash (dictGetKey de)) (DICTHT_SIZE_MASK (ht_size_exp (ht1 d)))) as Hx.
    { unfold x, mask1. destruct (Z.gtb_spec (ht_size_exp (ht1 d)) (ht_size_exp (ht0 d))); [done|].
      rewrite <- Hde. unfold mask0. apply land_mask_shrink. lia. }
    destruct (ht_bucket_hash (ht1 d) (hash (dictGetKey de)) Hw1 ltac:(congruence)) as [b Hb].
    rewrite <- Hx in Hb. rewrite Hb. simpl.
    assert (0 <= x) as Hx0 by (rewrite Hx; apply land_mask_bound; lia).
    destruct (ht_bucket_inv _ _ _ Hw1 Hx0 Hb) as (Hcb & _ & Hfb).
    destruct (rehash_entry_spec de b) as (de' & Hre & Hkv & Hc'); [done|done|].
    rewrite Hre. simpl.
    assert (dictGetKey de' = dictGetKey de) as Hkey by (unfold kv in Hkv; congruence).
    destruct (ht_put_spec (ht1 d) x b (de' :: b) Hw1 Hx0 Hb Hc') as (Hp1 & _ & _ & rest & Hr1 & Hr2).
    { constructor; [by rewrite Hkey, <- Hx | done]. }
    destruct (ht_put_frame (ht1 d) x b (de' :: b)) as [Hpe Hpt].
    set (h1 := ht_put _ _ _ _) in *.
    replace (ht_add_used (ht_set_bucket (ht1 d) x (de' :: b)) 1) with h1
      by (unfold h1, ht_put; f_equal; cbn [length]; lia).
    clearbody h1.
    destruct (IH (set_ht0 (set_ht1 d h1) (ht_add_used (ht0 d) (-1))))
      as (h2 & Heq & Hw2 & Ht2 & He2 & Hperm); cbn; auto.
    { rewrite Hpt. congruence. }
    exists h2. split_and!; [|done|done|by rewrite He2|].
    + rewrite Heq. unfold set_ht0, set_ht1, ht_add_used. cbn. do 3 f_equal. lia.
    + rewrite Hperm. cbn. rewrite Hr2, Hr1. cbn. rewrite Hkv, !fmap_app.
      symmetry. rewrite Permutation_middle. done.
Qed.

(** *** Internal steps preserve the contents *)

(** What the callbacks announce about the number of buckets, and about the
    buckets of tables being drained. *)
Definition ev_buckets (e : dict_event) : Z :=
  match e with RehashingStarted _ to => to | RehashingCompleted from _ => - from end.
Definition ev_rehashing (e : dict_event) : Z :=
  match e with RehashingStarted from _ => from | RehashingCompleted from _ => - from end.
Definition sum_ev (f : dict_event -> Z) (evs : list dict_event) : Z := foldr (fun e z => f e + z) 0 evs.

Definition draining d : Z := if dictIsRehashing d then size0 d else 0.

Lemma sum_ev_app f l1 l2 : sum_ev f (l1 ++ l2) = sum_ev f l1 + sum_ev f l2.
Proof. unfold sum_ev. induction l1; simpl; lia. Qed.

(** Rehashing starts and completions alternate. *)
Fixpoint ev_fold (rehashing : bool) (evs : list dict_event) : option bool :=
  match evs with
  | [] => Some rehashing
  | RehashingStarted _ _ :: evs => if rehashing then None else ev_fold true evs
  | RehashingCompleted _ _ :: evs => if rehashing then ev_fold false evs else None
  end.

Lemma ev_fold_app r l1 l2 : ev_fold r (l1 ++ l2) = r' ← ev_fold r l1; ev_fold r' l2.
Proof. revert r. induction l1 as [|[] l1 IH]; intros []; simpl; auto. Qed.

(** Between [d] and [d'] the callbacks were made that account for the
    difference in buckets, in draining buckets and in rehashing state. *)
Definition announced d d' : Prop :=
  exists evs, d_events d' = d_events d ++ evs /\
    dictBuckets d' = dictBuckets d + sum_ev ev_buckets evs /\
    draining d' = draining d + sum_ev ev_rehashing evs /\
    ev_fold (dictIsRehashing d) evs = Some (dictIsRehashing d').

Lemma announced_none d d' :
  d_events d' = d_events d -> dictBuckets d' = dictBuckets d -> draining d' = draining d ->
  dictIsRehashing d' = dictIsRehashing d -> announced d d'.
Proof. intros E B D R. exists []. rewrite app_nil_r. simpl. rewrite R. auto with lia. Qed.

Lemma announced_trans d1 d2 d3 : announced d1 d2 -> announced d2 d3 -> announced d1 d3.
Proof.
  intros (e1 & E1 & B1 & D1 & R1) (e2 & E2 & B2 & D2 & R2).
  exists (e1 ++ e2). rewrite !sum_ev_app, ev_fold_app, (assoc_L (++)), <- E1, R1. simpl.
  split_and!; [done|lia|lia|done].
Qed.

(** [sim d d']: [d'] is well formed, has the same contents, and the callbacks
    made in between account for the buckets gained or lost. *)
Record sim d d' : Prop := {
  sim_wf : wf d';
  sim_kvs : kvs d' ≡ₚ kvs d;
  sim_pause : pauserehash d' = pauserehash d;
  sim_auto : pauseAutoResize d' = pauseAutoResize d;
  sim_table : ht_table (ht0 d) <> None -> ht_table (ht0 d') <> None;
  sim_events : announced d d'
}.

Lemma sim_refl d : wf d -> sim d d.
Proof. intros Hw. split; auto. by apply announced_none. Qed.

Lemma sim_trans d1 d2 d3 : sim d1 d2 -> sim d2 d3 -> sim d1 d3.
Proof.
  intros [_ K1 P1 A1 T1 E1] [W2 K2 P2 A2 T2 E2].
  split; [done|by rewrite K2|congruence|congruence|auto|by eapply announced_trans].
Qed.

Lemma nodup_perm d d' : kvs d' ≡ₚ kvs d -> NoDup (kvs d).*1 -> NoDup (kvs d').*1.
Proof. intros Hp Hn. by rewrite Hp. Qed.

Lemma rehashing_true d : dictIsRehashing d = true <-> rehashidx d <> -1.
Proof. unfold dictIsRehashing. rewrite negb_true_iff. apply Z.eqb_neq. Qed.

(** Same tables up to the contents of the chains: nothing to announce. *)
Lemma sim_intro d d' :
  wf d' -> kvs d' ≡ₚ kvs d -> pauserehash d' = pauserehash d ->
  pauseAutoResize d' = pauseAutoResize d -> d_events d' = d_events d ->
  ht_size_exp (ht0 d') = ht_size_exp (ht0 d) -> ht_size_exp (ht1 d') = ht_size_exp (ht1 d) ->
  dictIsRehashing d' = dictIsRehashing d ->
  (ht_table (ht0 d) <> None -> ht_table (ht0 d') <> None) -> sim d d'.
Proof.
  intros ? ? ? ? ? E0 E1 Er ?. split; auto.
  apply announced_none; auto; unfold dictBuckets, draining, size0; by rewrite ?Er, ?E0, ?E1.
Qed.

Lemma rehashBucket_spec d idx :
  wf d -> dictIsRehashing d = true -> rehashidx d <= idx < size0 d ->
  exists d', rehashEntriesInBucketAtIndex ty d idx = Some d' /\ sim d d' /\
    rehashidx d' = rehashidx d /\ ht_size_exp (ht0 d') = ht_size_exp (ht0 d) /\
    ht_size_exp (ht1 d') = ht_size_exp (ht1 d) /\
    ht_bucket (ht0 d') idx = Some [] /\
    (forall j, 0 <= j -> j <> idx -> ht_bucket (ht0 d') j = ht_bucket (ht0 d) j).
Proof.
  intros Hw Hr Hi. apply rehashing_true in Hr.
  destruct (wf_rehash d Hw Hr) as (Ht0 & Ht1 & Hidx & Hempty).
  pose proof (wf_ht0 d Hw) as Hw0. pose proof (wf_ht1 d Hw) as Hw1.
  destruct (ht_bucket_some (ht0 d) idx Hw0 Ht0 ltac:(unfold size0 in Hi; lia)) as [b Hb].
  destruct (ht_bucket_inv _ idx _ Hw0 ltac:(lia) Hb) as (Hcb & _ & Hfb).
  assert (0 <= ht_size_exp (ht0 d)) as He0.
  { destruct (ht_table (ht0 d)) eqn:E; [|done]. destruct (ht_wf_some _ _ Hw0 E). lia. }
  destruct (rehash_chain_spec idx b d He0 Hw1 Ht1) as (h1 & Hch & Hwh1 & Hth1 & Heh1 & Hperm);
    [|done|].
  { apply Forall_lookup. intros p de Hp. by apply (Hcb p). }
  destruct (ht_put_spec (ht0 d) idx b [] Hw0 ltac:(lia) Hb) as (Hp0 & Hpb & Hpj & rest & Hr1 & Hr2);
    [intros p de Hp; done|constructor|].
  destruct (ht_put_frame (ht0 d) idx b []) as [Hpe Hpt].
  unfold rehashEntriesInBucketAtIndex. rewrite Hb. simpl. rewrite Hch. simpl.
  set (d' := set_ht0 _ _).
  assert (ht0 d' = ht_put (ht0 d) idx b []) as Hh0.
  { unfold d', ht_put, ht_add_used, ht_set_bucket, set_ht0, set_ht1.
    cbn [ht0 ht_table ht_used ht_size_exp length]. f_equal. }
  assert (ht1 d' = h1) as Hh1 by done.
  assert (kvs d' ≡ₚ kvs d) as Hkvs.
  { unfold kvs. rewrite Hh0, Hh1, !fmap_app, Hperm, Hr1, Hr2, !fmap_app. simpl.
    rewrite !(assoc_L (++)). f_equiv. apply Permutation_app_comm. }
  assert (wf d') as Hwd'.
  { split; rewrite ?Hh0, ?Hh1; [done|done|by eapply nodup_perm; [|apply Hw]|done|].
    intros _. split_and!; [by rewrite Hpt|done|apply Hidx|unfold size0; rewrite Hh0, Hpe; apply Hidx|].
    change (rehashidx d') with (rehashidx d). intros i Hir. rewrite Hpj by lia. apply Hempty. lia. }
  exists d'. split_and!; rewrite ?Hh0, ?Hh1; try done.
  apply sim_intro; rewrite ?Hh0, ?Hh1; auto. by rewrite Hpt.
Qed.

(** *** Skipping empty buckets *)

Lemma used_nonempty h :
  ht_wf h -> ht_used h <> 0 ->
  exists j b, 0 <= j < DICTHT_SIZE (ht_size_exp h) /\ ht_bucket h j = Some b /\ b <> [].
Proof.
  unfold ht_wf, ht_bucket. destruct (ht_table h) as [t|] eqn:E; [|naive_solver].
  intros (He & Hl & Hu & _) Hne.
  assert (exists de, de ∈ concat t) as [de Hde].
  { destruct (concat t) as [|de l]; [simpl in Hu; lia|]. exists de. set_solver. }
  apply list_elem_of_In, in_concat in Hde as (b & Hb & Hin).
  apply list_elem_of_In, list_elem_of_lookup in Hb as [i Hi].
  exists (Z.of_nat i), b. rewrite Nat2Z.id. pose proof (lookup_lt_Some _ _ _ Hi).
  rewrite size_pow by lia. split_and!; [lia|lia|done|by intros ->].
Qed.

Lemma skip_empty_spec h j b ev idx :
  ht_bucket h j = Some b -> b <> [] -> ht_wf h -> j < DICTHT_SIZE (ht_size_exp h) ->
  0 <= idx <= j -> ht_table h <> None -> (1 <= ev)%nat ->
  exists idx' ev' stop, skip_empty ev h idx = Some (idx', ev', stop) /\
    idx <= idx' <= DICTHT_SIZE (ht_size_exp h) /\
    (forall i, idx <= i < idx' -> ht_bucket h i = Some []) /\
    if (stop : bool) then idx < idx'
    else (1 <= ev')%nat /\ idx' < DICTHT_SIZE (ht_size_exp h).
Proof.
  intros Hj Hb Hw Hjs. revert idx. induction ev as [|ev IH]; intros idx Hidx Ht Hev; [lia|].
  cbn [skip_empty]. destruct (ht_bucket_some h idx Hw Ht) as [c Hc]; [lia|].
  rewrite Hc. simpl. destruct c as [|e c].
  - assert (idx <> j) by congruence. case_decide as Hev0.
    + eexists _, _, _. split_and!; [done|lia|lia| |simpl; lia].
      intros i Hi. by replace i with idx by lia.
    + destruct (IH (idx + 1)) as (idx' & ev' & stop & -> & Hb' & Hemp & Hst); [lia|done|lia|].
      eexists _, _, _. split_and!; [done|lia|lia| |].
      * intros i Hi. destruct (decide (i = idx)) as [->|]; [done|]. apply Hemp. lia.
      * destruct stop; [lia|done].
  - eexists _, _, _. split_and!; [done|lia|lia|intros i Hi; lia|simpl; lia].
Qed.

Lemma wf_set_rehashidx d i :
  wf d -> dictIsRehashing d = true -> 0 <= i <= size0 d ->
  (forall j, 0 <= j < i -> ht_bucket (ht0 d) j = Some []) ->
  wf (set_rehashidx d i) /\ sim d (set_rehashidx d i).
Proof.
  intros Hw Hr Hi Hemp. pose proof Hr as Hr'. apply rehashing_true in Hr'.
  assert (dictIsRehashing (set_rehashidx d i) = true) as Hri
    by (apply rehashing_true; simpl; lia).
  destruct (wf_rehash d Hw Hr') as (Ht0 & Ht1 & _ & _).
  assert (wf (set_rehashidx d i)) as Hwi.
  { split; [apply Hw|apply Hw|apply Hw|simpl; lia|]. intros _.
    split_and!; [done|done|apply Hi|apply Hi|exact Hemp]. }
  split; [done|]. apply sim_intro; try done. congruence.
Qed.

(** *** The rehashing loop *)

Record rehash_prog d d' : Prop := {
  rp_sim : sim d d';
  rp_rehashing : dictIsRehashing d' = true;
  rp_exp0 : ht_size_exp (ht0 d') = ht_size_exp (ht0 d);
  rp_exp1 : ht_size_exp (ht1 d') = ht_size_exp (ht1 d);
  rp_mono : rehashidx d <= rehashidx d'
}.

Lemma rehash_prog_trans d1 d2 d3 : rehash_prog d1 d2 -> rehash_prog d2 d3 -> rehash_prog d1 d3.
Proof.
  intros [S1 R1 E1 F1 M1] [S2 R2 E2 F2 M2]. split; [by eapply sim_trans|done|congruence|congruence|lia].
Qed.

Lemma dictRehash_loop_spec n ev d :
  wf d -> dictIsRehashing d = true -> (n = 0 \/ 1 <= ev)%nat ->
  exists d' early, dictRehash_loop ty n ev d = Some (d', early) /\ rehash_prog d d' /\
    (early = true \/ (n <> 0%nat /\ ht_used (ht0 d) <> 0) -> rehashidx d < rehashidx d') /\
    (ht_used (ht0 d) = 0 -> d' = d).
Proof.
  revert ev d. induction n as [|n IH]; intros ev d Hw Hr Hev.
  { exists d, false. split_and!; [done|split; auto using sim_refl with lia| |done]. naive_solver. }
  cbn [dictRehash_loop]. destruct (Z.eqb_spec (ht_used (ht0 d)) 0) as [Hu|Hu].
  { exists d, false. split_and!; [done|split; auto using sim_refl with lia| |done]. naive_solver. }
  destruct Hev as [|Hev]; [done|]. pose proof Hr as Hr'. apply rehashing_true in Hr'.
  destruct (wf_rehash d Hw Hr') as (Ht0 & Ht1 & Hidx & Hemp).
  destruct (used_nonempty (ht0 d)) as (j & b & Hj & Hjb & Hb); [apply Hw|done|].
  assert (rehashidx d <= j) as Hrj.
  { destruct (decide (rehashidx d <= j)); [done|]. rewrite Hemp in Hjb by lia. congruence. }
  unfold size0 at 1. rewrite Z.gtb_ltb.
  destruct (Z.ltb_spec (rehashidx d) (DICTHT_SIZE (ht_size_exp (ht0 d)))); [|lia].
  destruct (skip_empty_spec (ht0 d) j b ev (rehashidx d))
    as (idx & ev' & stop & -> & Hi & Hemp' & Hst); auto; [apply Hw|lia|lia|].
  simpl. destruct (wf_set_rehashidx d idx) as [Hwi Hsi]; [done|done|unfold size0; lia|..].
  { intros i Hir. destruct (decide (i < rehashidx d)); [apply Hemp|apply Hemp']; lia. }
  assert (dictIsRehashing (set_rehashidx d idx) = true) as Hri by (apply rehashing_true; simpl; lia).
  destruct stop.
  { eexists _, _. split_and!; [done|split; simpl; auto; lia|simpl; lia|done]. }
  destruct (rehashBucket_spec (set_rehashidx d idx) idx) as
    (d2 & -> & Hs2 & Hr2 & He0 & He1 & Hb0 & Hbj); [done|done|unfold size0; simpl; lia|].
  simpl in *. assert (dictIsRehashing d2 = true) as Hrd2
    by (apply rehashing_true; rewrite Hr2; lia).
  destruct (wf_set_rehashidx d2 (rehashidx d2 + 1)) as [Hw3 Hs3]; [apply Hs2|done|..].
  { unfold size0. rewrite He0, Hr2. lia. }
  { intros i Hir. destruct (decide (i = idx)) as [->|]; [done|]. rewrite Hbj by lia.
    destruct (decide (i < rehashidx d)); [apply Hemp|apply Hemp']; lia. }
  destruct (IH ev' (set_rehashidx d2 (rehashidx d2 + 1))) as (d' & early & -> & Hp & _ & _);
    [done|apply rehashing_true; simpl; lia|lia|].
  eexists _, _. split; [done|]. pose proof (rp_mono _ _ Hp) as Hm. simpl in Hm.
  split_and!; [|intros _; lia|done].
  eapply rehash_prog_trans; [|exact Hp].
  split; simpl; [by do 2 (eapply sim_trans; [eassumption|])|apply rehashing_true; simpl; lia|done|done|lia].
Qed.

Lemma checkCompleted_spec d :
  wf d -> dictIsRehashing d = true ->
  let '(d', completed) := dictCheckRehashingCompleted d in
  sim d d' /\ if completed then rehashidx d' = -1 else d' = d /\ ht_used (ht0 d) <> 0.
Proof.
  intros Hw Hr. unfold dictCheckRehashingCompleted.
  destruct (Z.eqb_spec (ht_used (ht0 d)) 0) as [Hu|Hu]; simpl; [|split; [by apply sim_refl|done]].
  split; [|done]. pose proof Hr as Hr'. apply rehashing_true in Hr'.
  destruct (wf_rehash d Hw Hr') as (Ht0 & Ht1 & _ & _).
  assert (ht_entries (ht0 d) = []) as He.
  { pose proof (wf_ht0 d Hw) as H0. unfold ht_wf, ht_entries in *.
    destruct (ht_table (ht0 d)) as [t|]; [|done].
    apply length_zero_iff_nil. lia. }
  set (d' := set_rehashidx _ _).
  assert (kvs d' = kvs d) as Hk.
  { unfold kvs. cbn. rewrite He. simpl. by rewrite app_nil_r. }
  split; try done.
  - split; [apply Hw|done|rewrite Hk; apply Hw|done|done].
  - by rewrite Hk.
  - eexists. split_and!; [done|..]; rewrite ?Hr; [| |done]; unfold dictBuckets, draining, size0;
      rewrite ?Hr; cbn -[DICTHT_SIZE]; change (DICTHT_SIZE (-1)) with 0; unfold size0; lia.
Qed.

(** [dictRehash]: contents unchanged; it asks for more only after progress. *)
Lemma dictRehash_spec n d :
  wf d -> (1 <= n)%nat ->
  exists d' more, dictRehash can_resize ty d n = Some (d', more) /\ sim d d' /\
    (dictIsRehashing d' = true -> dictIsRehashing d = true /\ mask0 d' = mask0 d) /\
    (more = true -> rehash_disallowed can_resize d = false /\ rehash_prog d d'
                    /\ rehashidx d < rehashidx d') /\
    (more = false -> rehashidx d' = -1 \/ (d' = d /\ rehash_disallowed can_resize d = true)).
Proof.
  intros Hw Hn. unfold dictRehash. destruct (rehash_disallowed can_resize d) eqn:Hdis.
  { exists d, false. split_and!; auto using sim_refl; done. }
  assert (dictIsRehashing d = true) as Hr.
  { unfold rehash_disallowed in Hdis. rewrite !orb_false_iff in Hdis.
    destruct Hdis as [[_ Hd] _]. by apply negb_false_iff in Hd. }
  destruct (dictRehash_loop_spec n (n * 10) d) as (d1 & early & -> & Hp & Hlt & Hz); [done|done|lia|].
  simpl. destruct early.
  { exists d1, true. split_and!; [done|apply Hp|..].
    - intros _. split; [done|]. unfold mask0. by rewrite (rp_exp0 _ _ Hp).
    - intros _. split_and!; [done|done|]. apply Hlt. by left.
    - done. }
  pose proof (checkCompleted_spec d1 (sim_wf _ _ (rp_sim _ _ Hp)) (rp_rehashing _ _ Hp)) as Hc.
  destruct (dictCheckRehashingCompleted d1) as [d2 []]; destruct Hc as [Hs Hc].
  - exists d2, false. split_and!; [done|eapply sim_trans; [apply Hp|done]|..].
    + rewrite rehashing_true. lia.
    + done.
    + by left.
  - destruct Hc as [-> Hu]. exists d1, true. split_and!; [done|apply Hp|..].
    + intros _. split; [done|]. unfold mask0. by rewrite (rp_exp0 _ _ Hp).
    + intros _. split_and!; [done|done|]. apply Hlt. right. split; [lia|]. intros Hu0.
      by rewrite (Hz Hu0) in Hu.
    + done.
Qed.

Lemma rehash_disallowed_prog d d' :
  rehash_prog d d' -> dictIsRehashing d = true ->
  rehash_disallowed can_resize d' = rehash_disallowed can_resize d.
Proof.
  intros [_ Hr He0 He1 _] Hd. unfold rehash_disallowed, size0, size1.
  by rewrite Hr, He0, He1, Hd.
Qed.

Lemma allowed_rehashing d : rehash_disallowed can_resize d = false -> dictIsRehashing d = true.
Proof.
  unfold rehash_disallowed. rewrite !orb_false_iff. intros [[_ Hd] _]. by apply negb_false_iff in Hd.
Qed.

Lemma dictRehashStep_spec d :
  wf d ->
  exists d', dictRehashStep can_resize ty d = Some d' /\ sim d d' /\
    (dictIsRehashing d' = true -> dictIsRehashing d = true /\ mask0 d' = mask0 d).
Proof.
  intros Hw. unfold dictRehashStep. destruct (_ =? 0).
  - destruct (dictRehash_spec 1 d Hw) as (d' & more & -> & Hs & Hm & _); [lia|]. eauto.
  - exists d. split_and!; auto using sim_refl.
Qed.

Lemma dictBucketRehash_spec d idx :
  wf d -> dictIsRehashing d = true -> rehashidx d <= idx < size0 d ->
  exists d', dictBucketRehash can_resize ty d idx = Some d' /\ sim d d' /\
    (dictIsRehashing d' = true -> dictIsRehashing d = true /\ mask0 d' = mask0 d).
Proof.
  intros Hw Hr Hi. unfold dictBucketRehash.
  destruct (negb _); [exists d; auto using sim_refl|].
  destruct (rehash_disallowed _ _); [exists d; auto using sim_refl|].
  destruct (rehashBucket_spec d idx Hw Hr Hi) as (d1 & -> & Hs1 & Hr1 & He0 & He1 & _).
  simpl. assert (dictIsRehashing d1 = true) as Hrd1
    by (apply rehashing_true; rewrite Hr1; by apply rehashing_true).
  pose proof (checkCompleted_spec d1 (sim_wf _ _ Hs1) Hrd1) as Hc.
  destruct (dictCheckRehashingCompleted d1) as [d2 []]; destruct Hc as [Hs Hc]; simpl;
    exists d2; (split_and!; [done|by eapply sim_trans|]).
  - rewrite rehashing_true. lia.
  - destruct Hc as [-> _]. intros _. split; [done|]. unfold mask0. by rewrite He0.
Qed.

(** The rehashing work an access triggers changes nothing visible. *)
Lemma rehash_on_access_spec d x :
  wf d ->
  exists d', rehash_on_access can_resize ty d (Z.land x (mask0 d)) = Some d' /\ sim d d' /\
    (dictIsRehashing d' = true -> dictIsRehashing d = true /\ mask0 d' = mask0 d).
Proof.
  intros Hw. unfold rehash_on_access. pose proof (dictRehashStep_spec d Hw) as Hstep.
  destruct (dictIsRehashing d) eqn:Hr.
  2:{ exists d. rewrite Hr. split_and!; auto using sim_refl. }
  rewrite Z.geb_leb. destruct (Z.leb_spec (rehashidx d) (Z.land x (mask0 d))) as [Hle|Hlt];
    [|exact Hstep].
  pose proof Hr as Hr'. apply rehashing_true in Hr'.
  destruct (wf_rehash d Hw Hr') as (Ht0 & _ & Hidx & _).
  pose proof (wf_ht0 d Hw) as Hw0.
  destruct (ht_bucket_hash (ht0 d) x Hw0 Ht0) as [b Hb].
  fold (mask0 d) in Hb. rewrite Hb. simpl.
  destruct b; [exact Hstep|].
  destruct (dictBucketRehash_spec d (Z.land x (mask0 d)) Hw Hr) as (d' & -> & Hs & Hm).
  { split; [done|]. apply (ht_bucket_inv (ht0 d) (Z.land x (mask0 d)) _ Hw0 ltac:(lia) Hb). }
  exists d'. rewrite Hr in Hm. auto.
Qed.

(** *** Resizing *)

Lemma rehash_all_spec fuel d :
  wf d -> dictIsRehashing d = true -> size0 d - rehashidx d + 1 <= Z.of_nat fuel ->
  exists d', rehash_all can_resize ty fuel d = Some d' /\ sim d d' /\
    (rehashidx d' = -1 \/ (d' = d /\ rehash_disallowed can_resize d = true)).
Proof.
  revert d. induction fuel as [|fuel IH]; intros d Hw Hr Hf.
  { pose proof Hr as Hr'. apply rehashing_true in Hr'. destruct (wf_rehash d Hw Hr'). lia. }
  cbn [rehash_all].
  destruct (dictRehash_spec 1000 d Hw ltac:(lia)) as (d1 & more & -> & Hs & _ & Hmore & Hdone).
  simpl. destruct more; [|eauto].
  destruct (Hmore eq_refl) as (Hal & Hp & Hlt).
  destruct (IH d1) as (d2 & -> & Hs2 & Hres); [apply Hs|apply Hp| |].
  { unfold size0 in *. rewrite (rp_exp0 _ _ Hp). lia. }
  exists d2. split_and!; [done|by eapply sim_trans|].
  destruct Hres as [|[-> Hdis]]; [by left|].
  rewrite (rehash_disallowed_prog d d1 Hp Hr) in Hdis. congruence.
Qed.

Definition new_ht (e : Z) : htab K V := Htab (Some (replicate (Z.to_nat (DICTHT_SIZE e)) [])) 0 e.

Lemma concat_replicate_nil {A} n : concat (replicate n (@nil A)) = [].
Proof. by induction n. Qed.

Lemma new_ht_wf e : 2 <= e <= 60 -> ht_wf (new_ht e) /\ ht_entries (new_ht e) = [].
Proof.
  intros He. unfold ht_wf, ht_entries, new_ht. cbn [ht_table ht_size_exp ht_used].
  rewrite concat_replicate_nil, length_replicate, size_pow by lia.
  pose proof (Z.pow_pos_nonneg 2 e). split; [|done]. split_and!; try lia; [done|].
  intros i b [-> _]%lookup_replicate. split; [intros p de Hp; done|constructor].
Qed.

(** Installing an empty second table to rehash into. *)
Lemma start_rehash_sim d e :
  wf d -> rehashidx d = -1 -> 2 <= e <= 60 -> ht_table (ht0 d) <> None ->
  let d1 := rehashingStarted (set_rehashidx (set_ht1 d (new_ht e)) 0) in
  sim d d1 /\ dictIsRehashing d1 = true.
Proof.
  intros Hw Hri He Ht0 d1. destruct (new_ht_wf e He) as [Hnw Hne].
  pose proof (wf_idle d Hw Hri) as Ht1.
  assert (kvs d1 = kvs d) as Hk.
  { unfold kvs, d1, rehashingStarted, set_rehashidx, set_ht1. cbn [ht0 ht1].
    rewrite Hne. unfold ht_entries at 3. by rewrite Ht1. }
  assert (DICTHT_SIZE (ht_size_exp (ht1 d)) = 0) as Hs1.
  { pose proof (wf_ht1 d Hw) as H1. unfold ht_wf in H1. rewrite Ht1 in H1. destruct H1 as [-> _]. done. }
  split; [|done]. split; try done.
  - split; [apply Hw|done|rewrite Hk; apply Hw|done|]. intros _. simpl.
    split_and!; [done|done|lia| |lia]. unfold size0. simpl.
    destruct (ht_table (ht0 d)) eqn:E; [|done]. destruct (ht_wf_some _ _ (wf_ht0 d Hw) E).
    rewrite size_pow by lia. pose proof (Z.pow_pos_nonneg 2 (ht_size_exp (ht0 d))). lia.
  - by rewrite Hk.
  - eexists. split_and!; [done|..].
    + unfold dictBuckets. rewrite Hs1. cbn -[DICTHT_SIZE]. unfold size1. simpl. lia.
    + unfold draining at 2, dictIsRehashing. rewrite Hri. cbn -[DICTHT_SIZE].
      unfold size0. simpl. lia.
    + unfold dictIsRehashing at 1. by rewrite Hri.
Qed.

(** Replacing an empty first table on the spot. *)
Lemma replace_table_sim d e :
  wf d -> rehashidx d = -1 -> 2 <= e <= 60 -> ht_used (ht0 d) = 0 ->
  sim d (set_rehashidx (dictReset (set_ht0 (rehashingCompleted (rehashingStarted
          (set_rehashidx (set_ht1 d (new_ht e)) 0))) (new_ht e)) true) (-1)).
Proof.
  intros Hw Hri He Hu. destruct (new_ht_wf e He) as [Hnw Hne].
  pose proof (wf_idle d Hw Hri) as Ht1.
  assert (ht_entries (ht0 d) = []) as He0.
  { pose proof (wf_ht0 d Hw) as H0. unfold ht_wf, ht_entries in *.
    destruct (ht_table (ht0 d)) as [t|]; [|done]. apply length_zero_iff_nil. lia. }
  set (d1 := set_rehashidx _ _).
  assert (kvs d1 = kvs d) as Hk.
  { unfold kvs, d1, dictReset, set_rehashidx, set_ht1, set_ht0. cbn [ht0 ht1].
    rewrite Hne, He0. unfold ht_entries. by rewrite Ht1. }
  assert (DICTHT_SIZE (ht_size_exp (ht1 d)) = 0) as Hs1.
  { pose proof (wf_ht1 d Hw) as H1. unfold ht_wf in H1. rewrite Ht1 in H1. destruct H1 as [-> _]. done. }
  split; try done.
  - split; [done|done|rewrite Hk; apply Hw|done|done].
  - by rewrite Hk.
  - exists [RehashingStarted (size0 d) (DICTHT_SIZE e); RehashingCompleted (size0 d) (DICTHT_SIZE e)].
    split_and!.
    + cbn. by rewrite <- (assoc_L (++)).
    + unfold dictBuckets. rewrite Hs1. cbn -[DICTHT_SIZE]. change (DICTHT_SIZE (-1)) with 0.
      unfold size0. lia.
    + unfold draining at 2, dictIsRehashing. rewrite Hri. cbn -[DICTHT_SIZE]. lia.
    + unfold dictIsRehashing at 1. by rewrite Hri.
Qed.

Lemma resize_spec alloc d size :
  wf d -> dictIsRehashing d = false -> 0 <= size ->
  exists d' ok mf, dictResizeWithOptionalCheck can_resize ty alloc d size = Some (d', ok, mf) /\
    sim d d' /\ rehashidx d' <= 0 /\
    (alloc <> Some false -> size <= 4 -> ht_table (ht0 d') <> None).
Proof.
  intros Hw Hr Hsize. unfold dictResizeWithOptionalCheck. rewrite Hr.
  assert (rehashidx d = -1) as Hri.
  { destruct (Z.eq_dec (rehashidx d) (-1)) as [|Hne]; [done|]. apply rehashing_true in Hne. congruence. }
  pose proof (dictNextExp_range size Hsize) as Hexp.
  assert (forall ok mf : bool,
    (alloc <> Some false -> size <= 4 -> ht_table (ht0 d) <> None) ->
    exists d' ok' mf', Some (d, ok, mf) = Some (d', ok', mf') /\ sim d d' /\ rehashidx d' <= 0 /\
    (alloc <> Some false -> size <= 4 -> ht_table (ht0 d') <> None)) as Hskip.
  { intros ok mf Hno. exists d, ok, mf. split_and!; [done|by apply sim_refl|lia|done]. }
  assert (size <= 4 -> DICTHT_SIZE (dictNextExp size) = 4) as Hsz4.
  { intros H4. unfold dictNextExp, DICT_HT_INITIAL_SIZE. by destruct (Z.leb_spec size 4); [|lia]. }
  set (e := dictNextExp size) in *.
  destruct ((DICTHT_SIZE e <? size) || _) eqn:Hov.
  { apply Hskip. intros _ H4. exfalso. rewrite (Hsz4 H4) in Hov.
    apply orb_true_iff in Hov as [Hov|Hov]; [|done]. apply Z.ltb_lt in Hov. lia. }
  apply orb_false_iff in Hov as [_ Hov]. apply resize_exp_ok in Hov; [|lia].
  destruct (Z.eqb_spec e (ht_size_exp (ht0 d))) as [Hee|Hee].
  { apply Hskip. intros _ _ Hn. pose proof (wf_ht0 d Hw) as H0. unfold ht_wf in H0.
    rewrite Hn in H0. lia. }
  destruct (bool_decide (alloc = Some false)) eqn:Hal.
  { apply bool_decide_eq_true in Hal. by apply Hskip. }
  fold (new_ht e). change (ht0 (rehashingStarted _)) with (ht0 d).
  destruct (bool_decide (ht_table (ht0 d) = None) || (ht_used (ht0 d) =? 0)) eqn:Hempty.
  - assert (ht_used (ht0 d) = 0) as Hu.
    { apply orb_true_iff in Hempty as [Hn|Hu]; [|by apply Z.eqb_eq].
      apply bool_decide_eq_true in Hn. pose proof (wf_ht0 d Hw) as H0. unfold ht_wf in H0.
      rewrite Hn in H0. tauto. }
    eexists _, _, _. split_and!; [done|apply replace_table_sim; auto with lia|done|done].
  - apply orb_false_iff in Hempty as [Hn _]. apply bool_decide_eq_false in Hn.
    destruct (start_rehash_sim d e Hw Hri ltac:(lia) Hn) as [Hs Hrh].
    set (d1 := rehashingStarted _) in *.
    destruct (no_incremental_rehash ty).
    + destruct (rehash_all_spec (S (S (Z.to_nat (size0 d1)))) d1) as (d2 & -> & Hs2 & Hres);
        [apply Hs|done|unfold d1; simpl; lia|].
      eexists _, _, _. split_and!; [done|by eapply sim_trans| |].
      * destruct Hres as [->|[-> _]]; unfold d1; simpl; lia.
      * intros _ _. by apply (sim_table _ _ Hs2), (sim_table _ _ Hs).
    + eexists _, _, _. split_and!; [done|done|unfold d1; simpl; lia|]. intros _ _. by apply (sim_table _ _ Hs).
Qed.

(** Expanding and shrinking on demand. *)
Lemma dictExpand_spec d size :
  wf d -> 0 <= size ->
  exists d' ok, dictExpand can_resize ty d size = Some (d', ok) /\ sim d d' /\
    (dictIsRehashing d = true -> d' = d) /\ (dictIsRehashing d = false -> rehashidx d' <= 0) /\
    (size = 4 -> dictIsRehashing d = false -> size0 d = 0 -> ht_table (ht0 d') <> None).
Proof.
  intros Hw Hsize. unfold dictExpand, dictExpandWithOptionalCheck.
  destruct (dictIsRehashing d) eqn:Hr; simpl.
  { exists d, false. split_and!; auto using sim_refl; done. }
  assert (rehashidx d = -1) as Hri.
  { destruct (Z.eq_dec (rehashidx d) (-1)) as [|Hne]; [done|]. apply rehashing_true in Hne. congruence. }
  destruct ((_ >? _) || _) eqn:Hc; simpl.
  { exists d, false. split_and!; auto using sim_refl; [lia|].
    intros -> _ Hs0 _. pose proof (wf_ht0 d Hw) as H0. unfold ht_wf in H0.
    destruct (ht_table (ht0 d)) as [t|] eqn:E.
    - destruct H0 as [He _]. unfold size0 in Hs0. rewrite size_pow in Hs0 by lia.
      pose proof (Z.pow_pos_nonneg 2 (ht_size_exp (ht0 d))). lia.
    - rewrite Hs0 in Hc. destruct H0 as [_ Hu]. by rewrite Hu in Hc. }
  destruct (resize_spec None d size Hw Hr Hsize) as (d' & ok & mf & -> & Hs & Hri' & Ht).
  simpl. exists d', ok. split_and!; auto; [done|]. intros -> _ _. by apply Ht.
Qed.

Lemma dictTryExpand_spec alloc d size :
  wf d -> 0 <= size ->
  exists d' ok, dictTryExpand can_resize ty alloc d size = Some (d', ok) /\ sim d d'.
Proof.
  intros Hw Hsize. unfold dictTryExpand, dictExpandWithOptionalCheck.
  destruct (dictIsRehashing d) eqn:Hr; simpl; [exists d, true; auto using sim_refl|].
  destruct ((_ >? _) || _); simpl; [exists d, true; auto using sim_refl|].
  destruct (resize_spec (Some alloc) d size Hw Hr Hsize) as (d' & ok & mf & -> & Hs & _). simpl. eauto.
Qed.

Lemma dictShrink_spec d size :
  wf d -> 0 <= size ->
  exists d' ok, dictShrink can_resize ty d size = Some (d', ok) /\ sim d d'.
Proof.
  intros Hw Hsize. unfold dictShrink. destruct (dictIsRehashing d) eqn:Hr; simpl.
  { exists d, false. auto using sim_refl. }
  destruct ((_ >? _) || _); simpl; [exists d, false; auto using sim_refl|].
  destruct (resize_spec None d size Hw Hr Hsize) as (d' & ok & mf & -> & Hs & _). simpl. eauto.
Qed.

Lemma idle_false d : dictIsRehashing d = false <-> rehashidx d = -1.
Proof. unfold dictIsRehashing. rewrite negb_false_iff. apply Z.eqb_eq. Qed.

Lemma dictExpandIfAutoResizeAllowed_spec d :
  wf d -> (ht_table (ht0 d) <> None \/ pauseAutoResize d <= 0) ->
  exists d', dictExpandIfAutoResizeAllowed can_resize ty d = Some d' /\ sim d d' /\
    ht_table (ht0 d') <> None /\ (d' = d \/ rehashidx d' <= 0).
Proof.
  intros Hw Ht. unfold dictExpandIfAutoResizeAllowed.
  assert (ht_table (ht0 d) <> None -> forall d', sim d d' -> ht_table (ht0 d') <> None) as Hkeep
    by (intros ? d' Hs; by apply (sim_table _ _ Hs)).
  destruct (Z.gtb_spec (pauseAutoResize d) 0) as [Hp|Hp].
  { exists d. split_and!; auto using sim_refl. destruct Ht; [done|lia]. }
  unfold dictExpandIfNeeded. destruct (dictIsRehashing d) eqn:Hr.
  { exists d. split_and!; auto using sim_refl. apply rehashing_true in Hr. by destruct (wf_rehash d Hw Hr). }
  assert (size0 d <> 0 -> ht_table (ht0 d) <> None) as Hnz.
  { intros Hs Hn. pose proof (wf_ht0 d Hw) as H0. unfold ht_wf in H0. rewrite Hn in H0.
    destruct H0 as [H0 _]. unfold size0 in Hs. by rewrite H0 in Hs. }
  assert (0 <= ht_used (ht0 d)) as Hu.
  { pose proof (wf_ht0 d Hw) as H0. unfold ht_wf in H0. destruct (ht_table (ht0 d)); lia. }
  destruct (Z.eqb_spec (size0 d) 0) as [Hz|Hz].
  { destruct (dictExpand_spec d DICT_HT_INITIAL_SIZE Hw) as (d' & ok & -> & Hs & _ & Hi & Hx); [done|].
    simpl. exists d'. split_and!; auto. }
  assert (exists d', Some d = Some d' /\ sim d d' /\ ht_table (ht0 d') <> None /\
    (d' = d \/ rehashidx d' <= 0)) as Hself by (exists d; split_and!; auto using sim_refl).
  destruct (_ || _); [|done]. destruct (dictTypeResizeAllowed _ _ _); [|done].
  destruct (dictExpand_spec d (ht_used (ht0 d) + 1) Hw) as (d' & ok & -> & Hs & _ & Hi & _); [lia|].
  simpl. exists d'. split_and!; auto.
Qed.

Lemma dictShrinkIfAutoResizeAllowed_spec d :
  wf d -> exists d', dictShrinkIfAutoResizeAllowed can_resize ty d = Some d' /\ sim d d'.
Proof.
  intros Hw. unfold dictShrinkIfAutoResizeAllowed, dictShrinkIfNeeded.
  assert (0 <= ht_used (ht0 d)) as Hu.
  { pose proof (wf_ht0 d Hw) as H0. unfold ht_wf in H0. destruct (ht_table (ht0 d)); lia. }
  assert (exists d', Some d = Some d' /\ sim d d') as Hself by eauto using sim_refl.
  destruct (_ >? 0); [done|]. destruct (dictIsRehashing d); [done|].
  destruct (_ <=? DICT_HT_INITIAL_SIZE); [done|]. destruct (_ || _); [|done].
  destruct (dictTypeResizeAllowed _ _ _); [|done].
  destruct (dictShrink_spec d (ht_used (ht0 d)) Hw Hu) as (d' & ok & -> & Hs). simpl. eauto.
Qed.

(** *** The contents as a finite map *)

Lemma dict_map_lookup d k v : wf d -> dict_map d !! k = Some v <-> (k, v) ∈ kvs d.
Proof. intros Hw. symmetry. apply elem_of_list_to_map, Hw. Qed.

Lemma sim_map d d' : wf d -> sim d d' -> dict_map d' = dict_map d.
Proof.
  intros Hw Hs. apply list_to_map_proper; [apply Hs|]. apply (sim_kvs _ _ Hs).
Qed.

Lemma dictSize_kvs d : wf d -> dictSize d = Z.of_nat (length (kvs d)).
Proof.
  intros Hw. unfold dictSize, kvs. rewrite length_fmap, length_app.
  pose proof (wf_ht0 d Hw) as H0. pose proof (wf_ht1 d Hw) as H1. unfold ht_wf, ht_entries in *.
  destruct (ht_table (ht0 d)), (ht_table (ht1 d)); simpl in *; lia.
Qed.

Lemma dictSize_map d : wf d -> dictSize d = Z.of_nat (size (dict_map d)).
Proof.
  intros Hw. rewrite dictSize_kvs by done. f_equal. unfold dict_map.
  rewrite <- (length_map_to_list (list_to_map _)), map_to_list_to_map by apply Hw. done.
Qed.

Lemma nonempty_table d : wf d -> dictSize d <> 0 -> ht_table (ht0 d) <> None.
Proof.
  intros Hw Hs Hn. pose proof (wf_ht0 d Hw) as H0. pose proof (wf_ht1 d Hw) as H1.
  unfold ht_wf, dictSize in *. rewrite Hn in H0.
  destruct (dictIsRehashing d) eqn:Hr.
  - apply rehashing_true in Hr. by destruct (wf_rehash d Hw Hr).
  - apply idle_false in Hr. rewrite (wf_idle d Hw Hr) in H1. lia.
Qed.
End spec.
