(* ===== verification/DictCorrect.v ===== *)
(** * The hash table implements a finite map

    Lookup, insertion, replacement and deletion of src/dict.c against
    [gmap]: each operation returns (no NULL dereference, no failed assertion),
    keeps the invariant of DictSpec.v, does to [dict_map] what its contract
    says, and announces every change of the number of buckets through the
    rehashing callbacks. *)
From S2P Require Import Prelude Dict DictSpec.
From Stdlib Require Import ZArith Lia.
From stdpp Require Import prelude gmap list.

#[local] Open Scope Z_scope.

Lemma delete_list_insert {A} (l : list A) i x : delete i (<[i := x]> l) = delete i l.
Proof. revert i. induction l as [|y l IH]; intros [|i]; simpl; by rewrite ?IH. Qed.

Section correct.
Context {K V : Type} `{Countable K}.
Context (can_resize : dictResizeEnable) (ty : dictType K).

Implicit Types (d : dict K V) (h : htab K V) (de : dictEntry K V) (b : list (dictEntry K V)).

#[local] Abbreviation hash := (hashFunction ty).
#[local] Abbreviation wf := (wf ty).
#[local] Abbreviation ht_wf := (ht_wf ty).
#[local] Abbreviation chain_ok := (chain_ok ty).
#[local] Abbreviation kind_ok := (kind_ok ty).
#[local] Abbreviation sim := (sim ty).

(** *** Entries and buckets *)

Lemma bucket_entries h idx b de : ht_bucket h idx = Some b -> de ∈ b -> de ∈ ht_entries h.
Proof.
  unfold ht_bucket, ht_entries. destruct (ht_table h) as [t|]; [|done]. simpl.
  intros Hb Hde. apply elem_of_concat. eauto using list_elem_of_lookup_2.
Qed.

Lemma entries_bucket h de :
  ht_wf h -> de ∈ ht_entries h ->
  exists b, ht_bucket h (Z.land (hash (dictGetKey de)) (DICTHT_SIZE_MASK (ht_size_exp h))) = Some b
            /\ de ∈ b.
Proof.
  unfold DictSpec.ht_wf, ht_bucket, ht_entries. destruct (ht_table h) as [t|]; simpl.
  2:{ intros _ Hn. by apply not_elem_of_nil in Hn. }
  intros (He & Hl & _ & Hall) Hde. apply elem_of_concat in Hde as (b & Hde & Hb).
  apply list_elem_of_lookup in Hb as [i Hi]. destruct (Hall i b Hi) as [_ Hf].
  rewrite (proj1 (List.Forall_forall _ _) Hf de) by (by apply list_elem_of_In).
  rewrite Nat2Z.id. eauto.
Qed.

Lemma chain_find_some key b p de :
  chain_find key b = Some (p, de) -> b !! p = Some de /\ dictGetKey de = key.
Proof.
  revert p. induction b as [|he b IH]; intros p; [done|]. simpl.
  destruct (decide (key = dictGetKey he)) as [->|]; [by intros [= <- <-]|].
  destruct (chain_find key b) as [[q e]|]; [|done]. intros [= <- <-]. by apply IH.
Qed.

Lemma chain_find_none key b : chain_find key b = None -> forall de, de ∈ b -> dictGetKey de <> key.
Proof.
  induction b as [|he b IH]; intros Hf de Hde; [by apply not_elem_of_nil in Hde|]. simpl in Hf.
  destruct (decide (key = dictGetKey he)) as [|Hne]; [done|].
  destruct (chain_find key b) as [[q e]|]; [done|].
  apply elem_of_cons in Hde as [->|Hde]; auto.
Qed.

Definition ht_of d (table : bool) : htab K V := if table then ht1 d else ht0 d.

Lemma ht_of_wf d t : wf d -> ht_wf (ht_of d t).
Proof. intros Hw. destruct t; apply Hw. Qed.

Lemma elem_of_kvs d k v :
  (k, v) ∈ kvs d <-> exists t de, de ∈ ht_entries (ht_of d t) /\ kv de = (k, v).
Proof.
  unfold kvs. rewrite list_elem_of_fmap. setoid_rewrite elem_of_app. split.
  - intros (de & -> & [Hd|Hd]); [exists false, de|exists true, de]; done.
  - intros (t & de & Hd & Hkv). exists de. split; [done|]. destruct t; auto.
Qed.

(** A reference into a table and the entry it designates. *)
Definition entry_at d (ref : entry_ref) de : Prop :=
  0 <= er_idx ref /\
  exists b, ht_bucket (ht_of d (er_table ref)) (er_idx ref) = Some b /\ b !! er_pos ref = Some de.

Lemma entry_at_map d ref de :
  wf d -> entry_at d ref de -> dict_map d !! dictGetKey de = Some (dictGetVal de).
Proof.
  intros Hw (_ & b & Hb & Hp). apply (dict_map_lookup ty); [done|]. apply elem_of_kvs.
  exists (er_table ref), de. split; [|done].
  eapply bucket_entries; [done|]. by eapply list_elem_of_lookup_2.
Qed.

(** *** Searching the two tables *)

(** What searching one table shows. *)
Lemma find_in_spec d t key :
  wf d -> ht_table (ht_of d t) <> None ->
  exists r, find_in d t (hash key) key =
      Some (Z.land (hash key) (DICTHT_SIZE_MASK (ht_size_exp (ht_of d t))), r) /\
    match r with
    | Some (ref, de) => entry_at d ref de /\ dictGetKey de = key
    | None => forall de, de ∈ ht_entries (ht_of d t) -> dictGetKey de <> key
    end.
Proof.
  intros Hw Ht. unfold find_in. fold (ht_of d t). pose proof (ht_of_wf d t Hw) as Hht.
  destruct (ht_bucket_hash ty _ (hash key) Hht Ht) as [b Hb]. rewrite Hb. simpl.
  eexists. split; [done|]. destruct (chain_find key b) as [[p de]|] eqn:Hf; simpl.
  - apply chain_find_some in Hf as [Hp Hk]. split; [|done]. split; [|by exists b]. simpl.
    destruct (ht_table (ht_of d t)) eqn:E; [|done]. destruct (ht_wf_some ty _ _ Hht E).
    apply land_mask_bound. lia.
  - intros de Hde <-. destruct (entries_bucket _ _ Hht Hde) as (b' & Hb' & Hin).
    rewrite Hb in Hb'. simplify_eq. by eapply chain_find_none.
Qed.

Definition ins_table d : htab K V := ht_of d (dictIsRehashing d).

Lemma absent d key :
  wf d ->
  (forall t de, de ∈ ht_entries (ht_of d t) -> dictGetKey de <> key) -> dict_map d !! key = None.
Proof.
  intros Hw Hno. apply eq_None_not_Some. intros [v Hv].
  apply (dict_map_lookup ty) in Hv; [|done]. apply elem_of_kvs in Hv as (t & de & Hde & Hkv).
  apply (Hno t de Hde). unfold kv in Hkv. congruence.
Qed.

Lemma find_tables_spec d idx key :
  wf d -> ht_table (ht0 d) <> None ->
  rehashidx d <= 0 /\ 0 <= idx \/ idx = Z.land (hash key) (mask0 d) ->
  exists i r, find_tables d (hash key) idx key = Some (i, r) /\
    match r with
    | Some (ref, de) => entry_at d ref de /\ dictGetKey de = key
    | None => dict_map d !! key = None /\
              i = Z.land (hash key) (DICTHT_SIZE_MASK (ht_size_exp (ins_table d)))
    end.
Proof.
  intros Hw Ht Hidx. unfold find_tables.
  assert (dictIsRehashing d = true -> ht_table (ht_of d true) <> None) as Ht1.
  { intros Hr. apply rehashing_true in Hr. apply (wf_rehash _ _ Hw Hr). }
  destruct (Z.ltb_spec idx (rehashidx d)) as [Hlt|Hge].
  - destruct Hidx as [|Hidx]; [lia|].
    assert (0 <= idx) as Hi0.
    { destruct (ht_table (ht0 d)) eqn:E; [|done]. destruct (ht_wf_some ty _ _ (wf_ht0 _ _ Hw) E).
      rewrite Hidx. apply land_mask_bound. lia. }
    assert (dictIsRehashing d = true) as Hr by (apply rehashing_true; lia).
    destruct (find_in_spec d true key Hw (Ht1 Hr)) as (r & -> & Hres).
    eexists _, r. split; [done|]. destruct r as [[ref de]|]; [done|].
    unfold ins_table. rewrite Hr. split; [|done]. apply absent; [done|].
    intros [] de Hde; [by apply Hres|]. intros <-.
    destruct (entries_bucket _ _ (wf_ht0 _ _ Hw) Hde) as (b' & Hb' & Hin).
    apply rehashing_true in Hr. destruct (wf_rehash _ _ Hw Hr) as (_ & _ & _ & Hempty).
    fold (mask0 d) in Hb'. rewrite <- Hidx, Hempty in Hb' by lia. simplify_eq.
    by apply not_elem_of_nil in Hin.
  - destruct (find_in_spec d false key Hw Ht) as (r & -> & Hres). simpl.
    destruct r as [[ref de]|]; [eexists _, _; split; [done|]; done|].
    destruct (dictIsRehashing d) eqn:Hr.
    + destruct (find_in_spec d true key Hw (Ht1 eq_refl)) as (r1 & -> & Hres1).
      eexists _, r1. split; [done|]. destruct r1 as [[ref de]|]; [done|].
      unfold ins_table. rewrite Hr. split; [|done]. apply absent; [done|]. intros []; auto.
    + eexists _, None. split; [done|]. unfold ins_table. rewrite Hr. split; [|done].
      apply absent; [done|]. intros [] de Hde; [|by apply Hres]. exfalso.
      apply idle_false in Hr. unfold ht_entries in Hde. simpl in Hde.
      rewrite (wf_idle _ _ Hw Hr) in Hde. by apply not_elem_of_nil in Hde.
Qed.

(** *** Updating one chain *)

Definition set_ht d (t : bool) h : dict K V := if t then set_ht1 d h else set_ht0 d h.

(** The contract of an operation that turns the contents into [m]. *)
Record yields d d' (m : gmap K (option V)) : Prop := {
  y_wf : wf d';
  y_map : dict_map d' = m;
  y_pause : pauserehash d' = pauserehash d;
  y_auto : pauseAutoResize d' = pauseAutoResize d;
  y_table : ht_table (ht0 d) <> None -> ht_table (ht0 d') <> None;
  y_events : announced d d'
}.

Lemma sim_yields d d' : wf d -> sim d d' -> yields d d' (dict_map d).
Proof. intros Hw Hs. split; try apply Hs. by apply (sim_map ty). Qed.

Lemma yields_trans d1 d2 d3 m2 m3 : yields d1 d2 m2 -> yields d2 d3 m3 -> yields d1 d3 m3.
Proof.
  intros [_ _ P1 A1 T1 E1] [W2 M2 P2 A2 T2 E2].
  split; [done|done|congruence|congruence|auto|by eapply announced_trans].
Qed.

Lemma sim_yields_trans d1 d2 d3 m : wf d1 -> sim d1 d2 -> yields d2 d3 m -> yields d1 d3 m.
Proof. intros Hw Hs. eapply yields_trans. by apply sim_yields. Qed.

Lemma yields_sim_trans d1 d2 d3 m : yields d1 d2 m -> sim d2 d3 -> yields d1 d3 m.
Proof.
  intros Hy Hs. eapply yields_trans; [done|]. rewrite <- (y_map _ _ _ Hy).
  apply sim_yields; [apply Hy|done].
Qed.

Lemma upd_spec d t idx b b' :
  wf d -> 0 <= idx -> ht_bucket (ht_of d t) idx = Some b -> chain_ok b' ->
  Forall (fun de => Z.land (hash (dictGetKey de)) (DICTHT_SIZE_MASK (ht_size_exp (ht_of d t))) = idx) b' ->
  (t = false -> b = [] -> rehashidx d = -1) ->
  (forall rest, kvs d ≡ₚ (kv <$> b) ++ rest -> NoDup ((kv <$> b') ++ rest).*1) ->
  let d' := set_ht d t (ht_put (ht_of d t) idx b b') in
  yields d d' (dict_map d') /\
  exists rest, kvs d ≡ₚ (kv <$> b) ++ rest /\ kvs d' ≡ₚ (kv <$> b') ++ rest.
Proof.
  intros Hw Hi Hb Hc Hf Hnil Hnd d'.
  destruct (ht_put_spec ty _ idx b b' (ht_of_wf d t Hw) Hi Hb Hc Hf)
    as (Hpw & _ & Hj & rest0 & Hr1 & Hr2).
  destruct (ht_put_frame (ht_of d t) idx b b') as [Hpe Hpt].
  set (h := ht_put _ _ _ _) in *. clearbody h.
  assert (exists rest, kvs d ≡ₚ (kv <$> b) ++ rest /\ kvs d' ≡ₚ (kv <$> b') ++ rest)
    as (rest & Hk1 & Hk2).
  { exists (kv <$> (rest0 ++ ht_entries (ht_of d (negb t)))). unfold kvs, d'. destruct t; simpl in *.
    - rewrite !fmap_app, Hr1, Hr2, !fmap_app. split; solve_Permutation.
    - rewrite Hr1, Hr2, !fmap_app. by rewrite <- !(assoc_L (++)). }
  split; [|eauto].
  assert (rehashidx d' = rehashidx d) as Hri by (by destruct t).
  assert (ht_table (ht_of d t) <> None) as Ht.
  { intros Hn. unfold ht_bucket in Hb. by rewrite Hn in Hb. }
  split; [|done|by destruct t|by destruct t| |].
  - split.
    + destruct t; [apply Hw|done].
    + destruct t; [done|apply Hw].
    + rewrite Hk2. auto.
    + rewrite Hri. intros Hx. pose proof (wf_idle _ _ Hw Hx). destruct t; [|done]. simpl in Ht. done.
    + rewrite Hri. intros Hx. destruct (wf_rehash _ _ Hw Hx) as (H0 & H1 & H2 & H3).
      destruct t; simpl in *; [by rewrite Hpt|]. unfold size0. simpl. rewrite Hpe, Hpt.
      split_and!; [done|done|apply H2|apply H2|]. intros i Hil. destruct (decide (i = idx)) as [->|Hne].
      * rewrite H3 in Hb by lia. simplify_eq. specialize (Hnil eq_refl eq_refl). done.
      * rewrite Hj by lia. by apply H3.
  - destruct t; simpl in *; [done|]. by rewrite Hpt.
  - apply announced_none; unfold dictBuckets, draining, dictIsRehashing, size0;
      destruct t; simpl in *; by rewrite ?Hpe.
Qed.

Lemma map_of_perm d kv0 rest :
  wf d -> kvs d ≡ₚ kv0 :: rest -> dict_map d = <[kv0.1 := kv0.2]> (list_to_map rest) /\
    (list_to_map rest : gmap K (option V)) !! kv0.1 = None.
Proof.
  intros Hw Hp. pose proof (wf_nodup _ _ Hw) as Hn. split.
  - unfold dict_map. rewrite (list_to_map_proper _ _ Hn Hp). by destruct kv0.
  - rewrite Hp in Hn. apply not_elem_of_list_to_map_1. rewrite fmap_cons in Hn.
    by apply NoDup_cons in Hn as [? _].
Qed.

Lemma chain_hashes d t idx b :
  wf d -> 0 <= idx -> ht_bucket (ht_of d t) idx = Some b ->
  chain_ok b /\
  Forall (fun de => Z.land (hash (dictGetKey de)) (DICTHT_SIZE_MASK (ht_size_exp (ht_of d t))) = idx) b.
Proof.
  intros Hw Hi Hb. destruct (ht_bucket_inv ty _ _ _ (ht_of_wf d t Hw) Hi Hb) as (? & _ & ?). done.
Qed.

(** Linking a new entry at the head of its chain. *)
Lemma insert_head_spec d t idx b de :
  wf d -> 0 <= idx -> ht_bucket (ht_of d t) idx = Some b -> t = dictIsRehashing d ->
  idx = Z.land (hash (dictGetKey de)) (DICTHT_SIZE_MASK (ht_size_exp (ht_of d t))) ->
  kind_ok de -> (entryIsKey de = true -> b = []) -> dict_map d !! dictGetKey de = None ->
  let d' := set_ht d t (ht_put (ht_of d t) idx b (de :: b)) in
  yields d d' (<[dictGetKey de := dictGetVal de]> (dict_map d)) /\ entry_at d' (EntryRef t idx O) de.
Proof.
  intros Hw Hi Hb Ht Hidx Hk Hek Habs d'. destruct (chain_hashes d t idx b Hw Hi Hb) as [Hc Hf].
  assert (chain_ok (de :: b)) as Hc'.
  { intros [|p] e Hp; simplify_eq/=; [split; [done|]; intros He; by rewrite Hek|].
    destruct (Hc p e Hp) as [? HS]. split; [done|]. intros He. by rewrite <- HS. }
  destruct (upd_spec d t idx b (de :: b) Hw Hi Hb Hc') as [Hy (rest & Hk1 & Hk2)].
  - constructor; [by rewrite <- Hidx|done].
  - intros -> _. by apply idle_false.
  - intros rest Hr. cbn. rewrite <- Hr. constructor; [|apply Hw].
    intros Hin. apply list_elem_of_fmap in Hin as ([k v] & Hkk & Hin). simpl in Hkk. subst k.
    apply (dict_map_lookup ty) in Hin; [|done]. congruence.
  - fold d' in Hy, Hk2. split.
    + destruct Hy as [Y1 _ Y2 Y3 Y4 Y5]. split; try done.
      cbn in Hk2. rewrite <- Hk1 in Hk2. by destruct (map_of_perm d' _ _ Y1 Hk2) as [-> _].
    + split; [done|]. exists (de :: b). split; [|done]. cbn [er_table er_idx].
      destruct (ht_put_spec ty _ idx b (de :: b) (ht_of_wf d t Hw) Hi Hb Hc') as (_ & Hp & _).
      { constructor; [by rewrite <- Hidx|done]. }
      by destruct t.
Qed.

(** Overwriting an entry by another one with the same key. *)
Lemma overwrite_spec d ref de de' b :
  wf d -> 0 <= er_idx ref -> ht_bucket (ht_of d (er_table ref)) (er_idx ref) = Some b ->
  b !! er_pos ref = Some de ->
  dictGetKey de' = dictGetKey de -> kind_ok de' -> entryIsKey de' = entryIsKey de ->
  yields d (set_ht d (er_table ref)
      (ht_put (ht_of d (er_table ref)) (er_idx ref) b (<[er_pos ref := de']> b)))
    (<[dictGetKey de := dictGetVal de']> (dict_map d)).
Proof.
  destruct ref as [t idx p]. cbn [er_table er_idx er_pos].
  intros Hw Hi Hb Hp Hkey Hk Hek. destruct (chain_hashes d t idx b Hw Hi Hb) as [Hc Hf].
  assert (b ≡ₚ de :: delete p b) as Hb1 by (by apply delete_Permutation).
  assert (<[p := de']> b ≡ₚ de' :: delete p b) as Hb2.
  { rewrite (delete_Permutation (<[p := de']> b) p de') at 1
      by (apply list_lookup_insert_eq; eapply lookup_lt_Some, Hp). by rewrite delete_list_insert. }
  destruct (upd_spec d t idx b (<[p := de']> b) Hw Hi Hb) as [Hy (rest & Hk1 & Hk2)].
  - intros q e Hq. rewrite length_insert. destruct (decide (p = q)) as [<-|Hne].
    + rewrite list_lookup_insert_eq in Hq by (by eapply lookup_lt_Some). simplify_eq.
      split; [done|]. rewrite Hek. by apply (Hc p).
    + rewrite list_lookup_insert_ne in Hq by done. by apply Hc.
  - apply Forall_insert; [done|]. rewrite Hkey. by apply (Forall_lookup_1 _ _ _ _ Hf Hp).
  - intros _ ->. done.
  - intros rest Hr. pose proof (wf_nodup _ _ Hw) as Hn. rewrite Hr, Hb1 in Hn. rewrite Hb2.
    cbn in *. by rewrite Hkey.
  - set (d' := set_ht _ _ _) in *. destruct Hy as [Y1 _ Y2 Y3 Y4 Y5]. split; try done.
    rewrite Hb1 in Hk1. rewrite Hb2 in Hk2. cbn in Hk1, Hk2.
    destruct (map_of_perm d _ _ Hw Hk1) as [-> _]. destruct (map_of_perm d' _ _ Y1 Hk2) as [-> _].
    cbn. by rewrite Hkey, insert_insert_eq.
Qed.

(** Unlinking an entry. *)
Lemma unlink_spec d ref de :
  wf d -> entry_at d ref de ->
  exists d', unlink d ref = Some d' /\ yields d d' (delete (dictGetKey de) (dict_map d)).
Proof.
  destruct ref as [t idx p]. intros Hw (Hi & b & Hb & Hp). cbn [er_table er_idx er_pos] in *.
  destruct (chain_hashes d t idx b Hw Hi Hb) as [Hc Hf].
  assert (b ≡ₚ de :: delete p b) as Hb1 by (by apply delete_Permutation).
  pose proof (lookup_lt_Some _ _ _ Hp) as Hlt.
  pose proof (length_delete b p ltac:(eauto)) as Hlen.
  destruct (upd_spec d t idx b (delete p b) Hw Hi Hb) as [Hy (rest & Hk1 & Hk2)].
  - intros q e Hq. rewrite Hlen. destruct (decide (q < p)%nat).
    + rewrite list_lookup_delete_lt in Hq by done. destruct (Hc q e Hq) as [? HS].
      split; [done|]. intros He. specialize (HS He). lia.
    + rewrite list_lookup_delete_ge in Hq by lia. destruct (Hc (S q) e Hq) as [? HS].
      split; [done|]. intros He. specialize (HS He). lia.
  - by apply Forall_delete.
  - intros _ ->. done.
  - intros rest Hr. pose proof (wf_nodup _ _ Hw) as Hn. rewrite Hr, Hb1 in Hn.
    cbn in Hn. by apply NoDup_cons in Hn as [_ Hn].
  - unfold unlink. cbn [er_table er_idx er_pos]. fold (ht_of d t). rewrite Hb. simpl. rewrite Hp. simpl.
    eexists. split; [done|].
    replace (ht_add_used _ _) with (ht_put (ht_of d t) idx b (delete p b))
      by (unfold ht_put; f_equal; lia).
    fold (set_ht d t (ht_put (ht_of d t) idx b (delete p b))).
    set (d' := set_ht _ _ _) in *. destruct Hy as [Y1 _ Y2 Y3 Y4 Y5]. split; try done.
    rewrite Hb1 in Hk1. cbn in Hk1. destruct (map_of_perm d _ _ Hw Hk1) as [-> Habs].
    cbn in *. rewrite delete_insert_id by done.
    apply list_to_map_proper; [apply Y1|done].
Qed.

(** *** The operations *)

Lemma ht_set_bucket_put h idx b b' :
  length b' = length b -> ht_set_bucket h idx b' = ht_put h idx b b'.
Proof.
  intros Hl. unfold ht_put, ht_add_used. rewrite Hl, Z.sub_diag, Z.add_0_r.
  by destruct (ht_set_bucket h idx b').
Qed.

Lemma dictSetVal_spec d ref de val :
  wf d -> entry_at d ref de -> no_value ty = false ->
  exists d', dictSetVal d ref val = Some d' /\
    yields d d' (<[dictGetKey de := Some val]> (dict_map d)).
Proof.
  intros Hw (Hi & b & Hb & Hp) Hnv. unfold dictSetVal. fold (ht_of d (er_table ref)).
  rewrite Hb. simpl. rewrite Hp. simpl.
  destruct (chain_hashes d _ _ _ Hw Hi Hb) as [Hc _]. destruct (Hc _ _ Hp) as [Hk _].
  destruct (entry_set_val de val) as [de'|] eqn:Hev;
    [|destruct de; simpl in *; intuition congruence]. simpl.
  rewrite (ht_set_bucket_put _ _ b) by apply length_insert.
  eexists. split; [done|]. fold (set_ht d (er_table ref)
    (ht_put (ht_of d (er_table ref)) (er_idx ref) b (<[er_pos ref := de']> b))).
  replace (Some val) with (dictGetVal de') by (by destruct de; simplify_eq/=).
  apply overwrite_spec; try done; by destruct de; simplify_eq/=.
Qed.

Lemma mask0_idx d x : wf d -> 0 <= Z.land x (mask0 d).
Proof.
  intros Hw. pose proof (wf_ht0 _ _ Hw) as H0. unfold DictSpec.ht_wf, mask0 in *.
  destruct (ht_table (ht0 d)) as [t|].
  - apply land_mask_bound. lia.
  - destruct H0 as [-> _]. by rewrite Z.land_0_r.
Qed.

(** [idx] computed before the rehashing step is still good after it. *)
Lemma access_idx d d1 x :
  wf d -> (dictIsRehashing d1 = true -> dictIsRehashing d = true /\ mask0 d1 = mask0 d) ->
  rehashidx d1 <= 0 /\ 0 <= Z.land x (mask0 d) \/ Z.land x (mask0 d) = Z.land x (mask0 d1).
Proof.
  intros Hw Hm. destruct (dictIsRehashing d1) eqn:Hr.
  - right. by destruct Hm as [_ ->].
  - left. apply idle_false in Hr. split; [lia|by apply mask0_idx].
Qed.

Lemma dictFind_spec d key :
  wf d ->
  exists d' r, dictFind can_resize ty d key = Some (d', r) /\ sim d d' /\
    match r with
    | Some (ref, de) => entry_at d' ref de /\ dictGetKey de = key /\
                        dict_map d !! key = Some (dictGetVal de)
    | None => dict_map d !! key = None
    end.
Proof.
  intros Hw. unfold dictFind. destruct (Z.eqb_spec (dictSize d) 0) as [Hz|Hz].
  { exists d, None. split_and!; [done|by apply sim_refl|]. rewrite (dictSize_map ty) in Hz by done.
    assert (dict_map d = ∅) as -> by (apply map_size_empty_inv; lia). apply lookup_empty. }
  destruct (rehash_on_access_spec can_resize ty d (hash key) Hw) as (d1 & -> & Hs & Hm). simpl.
  destruct (find_tables_spec d1 (Z.land (hash key) (mask0 d)) key) as (i & r & -> & Hr).
  - apply Hs.
  - by apply (sim_table _ _ _ Hs), (nonempty_table ty).
  - by apply access_idx.
  - simpl. exists d1, r. split_and!; [done|done|]. rewrite <- (sim_map ty _ _ Hw Hs).
    destruct r as [[ref de]|]; [|tauto]. destruct Hr as [Hat Hk]. split_and!; [done|done|].
    rewrite <- Hk. eapply entry_at_map; [apply Hs|done].
Qed.

Lemma dictFindPositionForInsert_spec d key :
  wf d -> (ht_table (ht0 d) <> None \/ pauseAutoResize d <= 0) ->
  exists d' pos, dictFindPositionForInsert can_resize ty d key = Some (d', pos) /\ sim d d' /\
    match pos with
    | inl (ref, de) => entry_at d' ref de /\ dictGetKey de = key
    | inr (t, idx) => t = dictIsRehashing d' /\ ht_table (ht_of d' t) <> None /\
        idx = Z.land (hash key) (DICTHT_SIZE_MASK (ht_size_exp (ht_of d' t))) /\
        dict_map d' !! key = None
    end.
Proof.
  intros Hw Ht. unfold dictFindPositionForInsert.
  destruct (rehash_on_access_spec can_resize ty d (hash key) Hw) as (d1 & -> & Hs & Hm). simpl.
  destruct (dictExpandIfAutoResizeAllowed_spec can_resize ty d1) as (d2 & -> & Hs2 & Ht2 & Hd2).
  { apply Hs. }
  { rewrite (sim_auto _ _ _ Hs). destruct Ht; [left; by apply (sim_table _ _ _ Hs)|by right]. }
  pose proof (sim_trans _ _ _ _ Hs Hs2) as Hs12. pose proof (sim_wf _ _ _ Hs2) as Hw2.
  simpl. destruct (find_tables_spec d2 (Z.land (hash key) (mask0 d)) key) as (i & r & -> & Hr); try done.
  { destruct Hd2 as [->|Hri]; [by apply access_idx|]. left. split; [done|by apply mask0_idx]. }
  simpl. destruct r as [[ref de]|]; (eexists _, _; split_and!; [done|done|]); [done|].
  destruct Hr as [Habs ->]. split_and!; try done.
  destruct (dictIsRehashing d2) eqn:Hr2; [|done]. apply rehashing_true in Hr2.
  apply (wf_rehash _ _ Hw2 Hr2).
Qed.

Lemma new_entry_ok key b :
  dictGetKey (new_entry (V:=V) ty key b) = key /\ dictGetVal (new_entry (V:=V) ty key b) = None /\
  kind_ok (new_entry ty key b) /\ (entryIsKey (new_entry ty key b) = true -> b = []).
Proof.
  unfold DictSpec.kind_ok, new_entry.
  destruct (no_value ty) eqn:?, (keys_are_odd ty) eqn:?, (embedded_entry ty) eqn:?, b; done.
Qed.

Lemma mask_idx_range d t x :
  wf d -> ht_table (ht_of d t) <> None ->
  0 <= Z.land x (DICTHT_SIZE_MASK (ht_size_exp (ht_of d t))) <= DICTHT_SIZE_MASK (ht_size_exp (ht_of d t)).
Proof.
  intros Hw Ht. destruct (ht_table (ht_of d t)) eqn:E; [|done].
  destruct (ht_wf_some ty _ _ (ht_of_wf d t Hw) E) as [He _].
  pose proof (land_mask_bound x (ht_size_exp (ht_of d t)) ltac:(lia)).
  unfold DICTHT_SIZE_MASK at 3. rewrite size_pow by lia.
  destruct (Z.eqb_spec (ht_size_exp (ht_of d t)) (-1)); lia.
Qed.

(** A key added without its value: the entry is there, valueless. *)
Lemma dictAddRaw_spec d key :
  wf d -> (ht_table (ht0 d) <> None \/ pauseAutoResize d <= 0) ->
  exists d' res, dictAddRaw can_resize ty d key = Some (d', res) /\
    match res with
    | inl (ref, de) => sim d d' /\ entry_at d' ref de /\ dictGetKey de = key /\
                       dict_map d !! key = Some (dictGetVal de)
    | inr ref => dict_map d !! key = None /\ yields d d' (<[key := None]> (dict_map d)) /\
                 exists de, entry_at d' ref de /\ dictGetKey de = key
    end.
Proof.
  intros Hw Ht. unfold dictAddRaw.
  destruct (dictFindPositionForInsert_spec d key Hw Ht) as (d1 & pos & -> & Hs & Hpos). simpl.
  pose proof (sim_map ty _ _ Hw Hs) as Hmap. pose proof (sim_wf _ _ _ Hs) as Hw1.
  destruct pos as [[ref de]|[t idx]].
  { destruct Hpos as [Hat Hk]. eexists _, _. split; [done|]. cbn beta iota. split_and!; try done.
    rewrite <- Hk, <- Hmap. by eapply entry_at_map. }
  destruct Hpos as (-> & Htab & -> & Habs). unfold dictInsertAtPosition.
  fold (ht_of d1 (dictIsRehashing d1)).
  set (t := dictIsRehashing d1) in *. set (idx := Z.land _ _).
  destruct (ht_bucket_hash ty _ (hash key) (ht_of_wf d1 t Hw1) Htab) as [b Hb]. fold idx in Hb.
  pose proof (mask_idx_range d1 t (hash key) Hw1 Htab) as Hi. fold idx in Hi.
  rewrite bool_decide_true by done. rewrite !(proj2 (Z.leb_le _ _)) by lia. simpl.
  rewrite Hb. simpl. destruct (new_entry_ok key b) as (Hk & Hv & Hkind & Hek).
  destruct (insert_head_spec d1 t idx b (new_entry ty key b) Hw1) as [Hy Hat];
    rewrite ?Hk; try done; try lia.
  rewrite Hk, Hv in Hy. eexists _, _. split; [done|]. cbn beta iota.
  replace (ht_add_used _ 1) with (ht_put (ht_of d1 t) idx b (new_entry ty key b :: b))
    by (unfold ht_put; f_equal; cbn [length]; lia).
  fold (set_ht d1 t (ht_put (ht_of d1 t) idx b (new_entry ty key b :: b))).
  rewrite <- Hmap. split_and!; [done| |eauto]. by eapply sim_yields_trans.
Qed.

Definition value_of (val : V) : option V := if no_value ty then None else Some val.

Lemma dictAdd_spec d key val :
  wf d -> (ht_table (ht0 d) <> None \/ pauseAutoResize d <= 0) ->
  exists d', dictAdd can_resize ty d key val = Some (d', bool_decide (dict_map d !! key = None)) /\
    yields d d' (if decide (dict_map d !! key = None)
                 then <[key := value_of val]> (dict_map d) else dict_map d).
Proof.
  intros Hw Ht. unfold dictAdd. destruct (dictAddRaw_spec d key Hw Ht) as (d1 & res & -> & Hres). simpl.
  destruct res as [[ref de]|ref].
  { destruct Hres as (Hs & _ & _ & Hk). rewrite bool_decide_false by congruence.
    rewrite decide_False by congruence. exists d1. split; [done|by apply sim_yields]. }
  destruct Hres as (Habs & Hy & de & Hat & Hk). rewrite bool_decide_true, decide_True by done.
  unfold value_of. destruct (no_value ty) eqn:Hnv; [eauto|].
  destruct (dictSetVal_spec d1 ref de val (y_wf _ _ _ Hy) Hat Hnv) as (d2 & -> & Hy2). simpl.
  exists d2. split; [done|]. rewrite (y_map _ _ _ Hy), Hk, insert_insert_eq in Hy2.
  by eapply yields_trans.
Qed.

(** [dictReplace] reports whether the key was new. *)
Lemma dictReplace_spec d key val :
  wf d -> (ht_table (ht0 d) <> None \/ pauseAutoResize d <= 0) -> no_value ty = false ->
  exists d', dictReplace can_resize ty d key val = Some (d', bool_decide (dict_map d !! key = None)) /\
    yields d d' (<[key := Some val]> (dict_map d)).
Proof.
  intros Hw Ht Hnv. unfold dictReplace.
  destruct (dictAddRaw_spec d key Hw Ht) as (d1 & res & -> & Hres). simpl.
  destruct res as [[ref de]|ref].
  - destruct Hres as (Hs & Hat & Hk & Hm). rewrite bool_decide_false by congruence.
    destruct (dictSetVal_spec d1 ref de val (sim_wf _ _ _ Hs) Hat Hnv) as (d2 & -> & Hy2). simpl.
    exists d2. split; [done|]. rewrite Hk, (sim_map ty _ _ Hw Hs) in Hy2. by eapply sim_yields_trans.
  - destruct Hres as (Habs & Hy & de & Hat & Hk). rewrite bool_decide_true by done.
    destruct (dictSetVal_spec d1 ref de val (y_wf _ _ _ Hy) Hat Hnv) as (d2 & -> & Hy2). simpl.
    exists d2. split; [done|]. rewrite (y_map _ _ _ Hy), Hk, insert_insert_eq in Hy2.
    by eapply yields_trans.
Qed.

Lemma dictGenericDelete_spec d key :
  wf d ->
  exists d' r, dictGenericDelete can_resize ty d key = Some (d', r) /\
    dictGetVal <$> r = dict_map d !! key /\ yields d d' (delete key (dict_map d)).
Proof.
  intros Hw. pose proof (dictFind_spec d key Hw) as Hfind. unfold dictFind, dictGenericDelete in *.
  destruct (dictSize d =? 0).
  { destruct Hfind as (d' & r & [= <- <-] & Hs & Hn). exists d, None. rewrite Hn.
    split_and!; [done|done|]. rewrite delete_id by done. by apply sim_yields. }
  destruct (rehash_on_access can_resize ty d _) as [d1|] eqn:E1;
    [|by destruct Hfind as (? & ? & Hx & _)]. simpl in *.
  destruct (find_tables d1 _ _ key) as [[i r]|]; [|by destruct Hfind as (? & ? & Hx & _)]. simpl in *.
  destruct Hfind as (d' & r' & [= <- <-] & Hs & Hres). destruct r as [[ref de]|].
  - destruct Hres as (Hat & Hk & Hm). rewrite Hm.
    destruct (unlink_spec d1 ref de (sim_wf _ _ _ Hs) Hat) as (d2 & -> & Hy2). simpl.
    destruct (dictShrinkIfAutoResizeAllowed_spec can_resize ty d2 (y_wf _ _ _ Hy2)) as (d3 & -> & Hs3).
    simpl. exists d3, (Some de). split_and!; [done|done|].
    rewrite Hk, (sim_map ty _ _ Hw Hs) in Hy2. eapply yields_sim_trans; [|done].
    by eapply sim_yields_trans.
  - exists d1, None. rewrite Hres. split_and!; [done|done|]. rewrite delete_id by done.
    by apply sim_yields.
Qed.

(** The two-phase unlink: the entry found stays where it is until it is
    freed, because rehashing is paused in between. *)
Lemma dictTwoPhaseUnlinkFind_spec d key :
  wf d ->
  exists d' r, dictTwoPhaseUnlinkFind can_resize ty d key = Some (d', r) /\
    match r with
    | Some (ref, de) => entry_at d' ref de /\ dictGetKey de = key /\
        dict_map d !! key = Some (dictGetVal de) /\ sim d (dictResumeRehashing d') /\ wf d' /\
        dict_map d' = dict_map d
    | None => dict_map d !! key = None /\ sim d d'
    end.
Proof.
  intros Hw. unfold dictTwoPhaseUnlinkFind. destruct (Z.eqb_spec (dictSize d) 0) as [Hz|Hz].
  { exists d, None. split; [done|]. split; [|by apply sim_refl]. rewrite (dictSize_map ty) in Hz by done.
    assert (dict_map d = ∅) as -> by (apply map_size_empty_inv; lia). apply lookup_empty. }
  assert (exists d1, (if dictIsRehashing d then dictRehashStep can_resize ty d else Some d) = Some d1
            /\ sim d d1) as (d1 & -> & Hs).
  { destruct (dictIsRehashing d); [|eauto using sim_refl].
    destruct (dictRehashStep_spec can_resize ty d Hw) as (d1 & -> & Hs & _). eauto. }
  simpl. destruct (find_tables_spec d1 (Z.land (hash key) (mask0 d1)) key) as (i & r & -> & Hr);
    [apply Hs|by apply (sim_table _ _ _ Hs), (nonempty_table ty)|by right|].
  pose proof (sim_map ty _ _ Hw Hs) as Hmap. simpl. destruct r as [[ref de]|].
  - destruct Hr as [Hat Hk]. eexists _, _. split; [done|]. split_and!; [done|done| | | |done].
    + rewrite <- Hmap, <- Hk. eapply entry_at_map; [apply Hs|done].
    + destruct Hs as [W KV P A T E]. split; try done; [|simpl; lia]. destruct W. by split.
    + destruct (sim_wf _ _ _ Hs). by split.
  - destruct Hr as [Hn _]. exists d1, None. rewrite <- Hmap. auto.
Qed.

Lemma dictTwoPhaseUnlinkFree_spec d ref de :
  wf d -> entry_at d ref de ->
  exists d', dictTwoPhaseUnlinkFree can_resize ty d ref = Some d' /\ wf d' /\
    pauserehash d' = pauserehash d - 1 /\
    yields d (dictPauseRehashing d') (delete (dictGetKey de) (dict_map d)).
Proof.
  intros Hw Hat. unfold dictTwoPhaseUnlinkFree.
  destruct (unlink_spec d ref de Hw Hat) as (d1 & -> & Hy1). simpl.
  destruct (dictShrinkIfAutoResizeAllowed_spec can_resize ty d1 (y_wf _ _ _ Hy1)) as (d2 & -> & Hs2).
  simpl. pose proof (yields_sim_trans _ _ _ _ Hy1 Hs2) as [W M P A T E].
  eexists. split_and!; [done|destruct W; by split|simpl; lia|].
  split; try done; [destruct W; by split|simpl; lia].
Qed.

Lemma paused_yields d d1 d2 m :
  sim d (dictResumeRehashing d1) -> wf d2 -> pauserehash d2 = pauserehash d1 - 1 ->
  yields d1 (dictPauseRehashing d2) m -> yields d d2 m.
Proof.
  intros [_ _ SP SA ST E1] Hw2 Hpr [_ YM YP YA YT E2]. simpl in SP, SA, ST, YP, YA, YT.
  split; [done|done|lia|congruence|by intros Hx; apply YT, ST|].
  change (announced d d1) in E1. change (announced d1 d2) in E2. by eapply announced_trans.
Qed.

Lemma dictCreate_wf : wf (dictCreate (K:=K) (V:=V)).
Proof. split; try done. constructor. Qed.

Lemma dictEmpty_wf d : wf (dictEmpty d) /\ dict_map (dictEmpty d) = ∅.
Proof. split; [|done]. split; try done. constructor. Qed.
End correct.

(** *** Whole runs *)

Section run.
Context {K V : Type} `{Countable K}.
Context (ty : dictType K).

Implicit Types (d : dict K V).

(** The calls of a client; each carries the resize policy then in force
    ([dict_can_resize] is a global that [dictSetResizeEnabled] sets). *)
Inductive dict_op :=
  | OpFind (k : K)
  | OpFetchValue (k : K)
  | OpAdd (k : K) (v : V)
  | OpReplace (k : K) (v : V)
  | OpDelete (k : K)
  | OpUnlink (k : K)
  | OpTwoPhaseUnlink (k : K)
  | OpRehash (n : nat)
  | OpExpand (size : Z)
  | OpShrink (size : Z)
  | OpPauseRehashing
  | OpResumeRehashing
  | OpEmpty.

Inductive dict_res :=
  | RUnit
  | RVal (v : option (option V))   (* the entry's value, if there is an entry *)
  | RFlag (ok : bool).

Definition dict_step (call : dictResizeEnable * dict_op) d : option (dict K V * dict_res) :=
  let can_resize := call.1 in
  match call.2 with
  | OpFind k => r ← dictFind can_resize ty d k; Some (r.1, RVal ((fun e => dictGetVal e.2) <$> r.2))
  | OpFetchValue k => r ← dictFetchValue can_resize ty d k; Some (r.1, RVal (Some r.2))
  | OpAdd k v => r ← dictAdd can_resize ty d k v; Some (r.1, RFlag r.2)
  | OpReplace k v => r ← dictReplace can_resize ty d k v; Some (r.1, RFlag r.2)
  | OpDelete k => r ← dictDelete can_resize ty d k; Some (r.1, RFlag r.2)
  | OpUnlink k => r ← dictUnlink can_resize ty d k; Some (r.1, RVal (dictGetVal <$> r.2))
  | OpTwoPhaseUnlink k =>
      r ← dictTwoPhaseUnlinkFind can_resize ty d k;
      match r.2 with
      | None => Some (r.1, RVal None)
      | Some (ref, de) =>
          d ← dictTwoPhaseUnlinkFree can_resize ty r.1 ref; Some (d, RVal (Some (dictGetVal de)))
      end
  | OpRehash n => r ← dictRehash can_resize ty d (S n); Some (r.1, RUnit)
  | OpExpand size => r ← dictExpand can_resize ty d size; Some (r.1, RUnit)
  | OpShrink size => r ← dictShrink can_resize ty d size; Some (r.1, RUnit)
  | OpPauseRehashing => Some (dictPauseRehashing d, RUnit)
  | OpResumeRehashing => Some (dictResumeRehashing d, RUnit)
  | OpEmpty => Some (dictEmpty d, RUnit)
  end.

(** What a finite map answers. *)
Definition map_step (op : dict_op) (m : gmap K (option V)) : gmap K (option V) * dict_res :=
  match op with
  | OpFind k => (m, RVal (m !! k))
  | OpFetchValue k => (m, RVal (Some (m !! k ≫= id)))
  | OpAdd k v => if decide (m !! k = None) then (<[k := value_of ty v]> m, RFlag true) else (m, RFlag false)
  | OpReplace k v => (<[k := Some v]> m, RFlag (bool_decide (m !! k = None)))
  | OpDelete k => (delete k m, RFlag (bool_decide (m !! k <> None)))
  | OpUnlink k | OpTwoPhaseUnlink k => (delete k m, RVal (m !! k))
  | OpRehash _ | OpExpand _ | OpShrink _ | OpPauseRehashing | OpResumeRehashing => (m, RUnit)
  | OpEmpty => (∅, RUnit)
  end.

(** [dictReplace] writes a value, so it is for types that store one; sizes
    are unsigned. *)
Definition op_ok (op : dict_op) : bool :=
  match op with
  | OpReplace _ _ => negb (no_value ty)
  | OpExpand size | OpShrink size => 0 <=? size
  | _ => true
  end.

Fixpoint dict_run (calls : list (dictResizeEnable * dict_op)) d : option (dict K V * list dict_res) :=
  match calls with
  | [] => Some (d, [])
  | c :: cs =>
      r ← dict_step c d; r' ← dict_run cs r.1; Some (r'.1, r.2 :: r'.2)
  end.

Fixpoint map_run (calls : list (dictResizeEnable * dict_op)) (m : gmap K (option V)) :
    gmap K (option V) * list dict_res :=
  match calls with
  | [] => (m, [])
  | c :: cs => let r := map_step c.2 m in let r' := map_run cs r.1 in (r'.1, r.2 :: r'.2)
  end.

(** The callbacks so far account for the buckets. *)
Definition accounted d : Prop :=
  dictBuckets d = sum_ev ev_buckets (d_events d) /\ draining d = sum_ev ev_rehashing (d_events d).

Definition is_empty_op (op : dict_op) : bool := match op with OpEmpty => true | _ => false end.

Lemma yields_accounted d d' m : yields ty d d' m -> accounted d -> accounted d'.
Proof.
  intros [_ _ _ _ _ (evs & E & B & D & _)] [A1 A2]. unfold accounted. rewrite E, !sum_ev_app. lia.
Qed.

(** One call does to the contents what the map does, and stays in the
    invariant. *)
Lemma dict_step_spec c d :
  wf ty d -> pauseAutoResize d = 0 -> op_ok c.2 = true ->
  exists d' res, dict_step c d = Some (d', res) /\ wf ty d' /\ pauseAutoResize d' = 0 /\
    (dict_map d', res) = map_step c.2 (dict_map d) /\
    (is_empty_op c.2 = false -> accounted d -> accounted d').
Proof.
  intros Hw Hp Hok. destruct c as [cr op]. cbn [fst snd] in *.
  assert (forall d' m res, yields ty d d' m ->
    (m, res) = map_step op (dict_map d) ->
    exists d'' res', Some (d', res) = Some (d'', res') /\ wf ty d'' /\ pauseAutoResize d'' = 0 /\
      (dict_map d'', res') = map_step op (dict_map d) /\
      (is_empty_op op = false -> accounted d -> accounted d'')) as Hdone.
  { intros d' m res Hy Hm. exists d', res. rewrite (y_map _ _ _ _ Hy), (y_auto _ _ _ _ Hy).
    split_and!; auto; [apply Hy|]. intros _. by eapply yields_accounted. }
  assert (ht_table (ht0 d) <> None \/ pauseAutoResize d <= 0) as Hpre by (right; lia).
  unfold dict_step. cbn [fst snd]. destruct op as [k|k|k v|k v|k|k|k|n|sz|sz| | |].
  - destruct (dictFind_spec cr ty d k Hw) as (d' & r & -> & Hs & Hr). simpl.
    eapply Hdone; [by apply sim_yields|]. simpl. by destruct r as [[ref de]|]; [destruct Hr as (_ & _ & ->)|rewrite Hr].
  - unfold dictFetchValue. destruct (dictFind_spec cr ty d k Hw) as (d' & r & -> & Hs & Hr). simpl.
    eapply Hdone; [by apply sim_yields|]. simpl. by destruct r as [[ref de]|]; [destruct Hr as (_ & _ & ->)|rewrite Hr].
  - destruct (dictAdd_spec cr ty d k v Hw Hpre) as (d' & -> & Hy). simpl.
    eapply Hdone; [done|]. simpl. by case_decide; case_bool_decide.
  - destruct (dictReplace_spec cr ty d k v Hw Hpre) as (d' & -> & Hy).
    { by apply negb_true_iff in Hok. }
    by eapply Hdone.
  - unfold dictDelete. destruct (dictGenericDelete_spec cr ty d k Hw) as (d' & r & -> & Hr & Hy). simpl.
    eapply Hdone; [done|]. simpl. rewrite <- Hr. by destruct r.
  - unfold dictUnlink. destruct (dictGenericDelete_spec cr ty d k Hw) as (d' & r & -> & Hr & Hy). simpl.
    eapply Hdone; [done|]. simpl. by rewrite <- Hr.
  - destruct (dictTwoPhaseUnlinkFind_spec cr ty d k Hw) as (d1 & r & -> & Hr). simpl.
    destruct r as [[ref de]|].
    2:{ destruct Hr as [Hn Hs]. eapply Hdone; [by apply sim_yields|]. simpl. by rewrite Hn, delete_id. }
    destruct Hr as (Hat & Hk & Hm & Hs & Hw1 & Hm1).
    destruct (dictTwoPhaseUnlinkFree_spec cr ty d1 ref de Hw1 Hat) as (d2 & -> & Hw2 & Hpr & Hy). simpl.
    eapply (Hdone _ (delete k (dict_map d))); [|by simpl; rewrite Hm].
    rewrite Hk, Hm1 in Hy. by eapply paused_yields.
  - destruct (dictRehash_spec cr ty (S n) d Hw) as (d' & more & -> & Hs & _); [lia|]. simpl.
    eapply Hdone; [by apply sim_yields|done].
  - destruct (dictExpand_spec cr ty d sz Hw) as (d' & ok & -> & Hs & _); [by apply Z.leb_le|]. simpl.
    eapply Hdone; [by apply sim_yields|done].
  - destruct (dictShrink_spec cr ty d sz Hw) as (d' & ok & -> & Hs); [by apply Z.leb_le|]. simpl.
    eapply Hdone; [by apply sim_yields|done].
  - exists (dictPauseRehashing d), RUnit. split_and!; try done. destruct Hw; by split.
  - exists (dictResumeRehashing d), RUnit. split_and!; try done. destruct Hw; by split.
  - exists (dictEmpty d), RUnit. destruct (dictEmpty_wf ty d) as [? ->]. by split_and!.
Qed.

Lemma dict_run_spec calls d :
  wf ty d -> pauseAutoResize d = 0 -> forallb (fun c => op_ok c.2) calls = true ->
  exists d' rs, dict_run calls d = Some (d', rs) /\ wf ty d' /\
    (dict_map d', rs) = map_run calls (dict_map d) /\
    (forallb (fun c => negb (is_empty_op c.2)) calls = true -> accounted d -> accounted d').
Proof.
  revert d. induction calls as [|c cs IH]; intros d Hw Hp Hok.
  { exists d, []. by split_and!. }
  cbn [forallb] in Hok. apply andb_true_iff in Hok as [Hc Hcs].
  destruct (dict_step_spec c d Hw Hp Hc) as (d1 & res & Hst & Hw1 & Hp1 & Hm1 & Ha1).
  destruct (IH d1 Hw1 Hp1 Hcs) as (d2 & rs & Hrun & Hw2 & Hm2 & Ha2).
  exists d2, (res :: rs). cbn [dict_run map_run]. rewrite Hst. simpl. rewrite Hrun. simpl.
  rewrite <- Hm1. simpl. rewrite <- Hm2. split_and!; try done.
  rewrite andb_true_iff, negb_true_iff. intros [? ?] ?. auto.
Qed.

(** C6: From an empty dict, any sequence of lookups, insertions,
    replacements, deletions (one- and two-phase), rehashing steps, expansions,
    shrinks and rehashing pauses, under any succession of resize policies,
    runs without a NULL dereference or failed assertion, and the results and
    the final contents are those of a finite map. *)
Theorem dict_refines_map (calls : list (dictResizeEnable * dict_op))
    (Hok : forallb (fun c => op_ok c.2) calls = true) :
  exists d' rs, dict_run calls dictCreate = Some (d', rs) /\ wf ty d' /\
    (dict_map d', rs) = map_run calls ∅ /\
    dictSize d' = Z.of_nat (size (map_run calls ∅).1).
Proof.
  destruct (dict_run_spec calls dictCreate (dictCreate_wf ty) eq_refl Hok)
    as (d' & rs & Hrun & Hw & Hm & _).
  exists d', rs. split_and!; [done|done|done|].
  rewrite (dictSize_map ty) by done. change ∅ with (dict_map (dictCreate (K:=K) (V:=V))).
  by rewrite <- Hm.
Qed.

(** The rehashing callbacks account for the buckets of a dict: after any
    such run (without [dictEmpty]) the number of buckets is the sum of the
    announced allocations minus the announced releases, and the buckets of
    the table being drained are what the callbacks leave open. *)
Theorem dict_events_accounted (calls : list (dictResizeEnable * dict_op))
    (Hok : forallb (fun c => op_ok c.2) calls = true)
    (Hne : forallb (fun c => negb (is_empty_op c.2)) calls = true) :
  exists d' rs, dict_run calls dictCreate = Some (d', rs) /\
    dictBuckets d' = sum_ev ev_buckets (d_events d') /\
    (if dictIsRehashing d' then size0 d' else 0) = sum_ev ev_rehashing (d_events d').
Proof.
  destruct (dict_run_spec calls dictCreate (dictCreate_wf ty) eq_refl Hok)
    as (d' & rs & Hrun & Hw & Hm & Ha).
  exists d', rs. split; [done|]. by apply Ha.
Qed.
End run.

(** A concrete run: enough insertions to grow the table, so that the later
    calls meet a dict in the middle of its rehashing. *)
Definition demo_type : dictType Z := DictType (fun k => k mod 2 ^ 64) None false false false false.

Definition demo_calls : list (dictResizeEnable * dict_op (K:=Z) (V:=Z)) :=
  pair DICT_RESIZE_ENABLE <$>
    [OpAdd 1 10; OpAdd 5 50; OpAdd 9 90; OpAdd 4 40; OpAdd 13 130; OpFind 9; OpReplace 9 91;
     OpTwoPhaseUnlink 5; OpFind 5; OpPauseRehashing; OpDelete 1; OpResumeRehashing; OpFetchValue 9;
     OpRehash 10; OpExpand 100; OpUnlink 4].

Lemma dict_refines_map_witness :
  (exists d' rs, dict_run demo_type demo_calls dictCreate = Some (d', rs) /\ wf demo_type d' /\
    (dict_map d', rs) = map_run demo_type demo_calls ∅ /\
    dictSize d' = Z.of_nat (size (map_run demo_type demo_calls ∅).1)) /\
  (exists d', fst <$> dict_run demo_type (take 6 demo_calls) dictCreate = Some d' /\
     dictIsRehashing d' = true).
Proof.
  split; [apply (dict_refines_map demo_type demo_calls); vm_compute; reflexivity|].
  eexists. split; vm_compute; reflexivity.
Defined.

Lemma dict_events_accounted_witness :
  exists d' rs, dict_run demo_type (take 6 demo_calls) dictCreate = Some (d', rs) /\
    dictBuckets d' = sum_ev ev_buckets (d_events d') /\
    (if dictIsRehashing d' then size0 d' else 0) = sum_ev ev_rehashing (d_events d').
Proof. apply (dict_events_accounted demo_type (take 6 demo_calls)); vm_compute; reflexivity. Defined.
