(* ===== verification/DictScan.v ===== *)
(** * The stateless cursor of the hash table (src/dict.c, [dictScan])

    [rev] reverses the bits of a word, and a scan step visits the bucket of
    the cursor (of both tables while rehashing) and increments the reversed
    cursor above the bits of the mask.  Seen through [rev], a cursor is a
    position in the hash space and a step covers an interval that starts at
    or before it and ends at the next cursor, whatever the table sizes; so
    the steps of a complete iteration cover the whole space, even when the
    table is resized between them. *)
From S2P Require Import Prelude Dict DictSpec DictCorrect.
From Stdlib Require Import ZArith Lia.
From stdpp Require Import prelude gmap list.

#[local] Open Scope Z_scope.

(** ** Bit reversal *)

(** One iteration of the loop of [rev], with [s] already halved. *)
Definition rev_step (s : Z) (st : Z * Z) : Z * Z :=
  let '(mask, v) := st in
  let mask := Z.lxor mask (wrapu 64 (Z.shiftl mask s)) in
  (mask, Z.lor (Z.land (Z.shiftr v s) mask)
               (Z.land (wrapu 64 (Z.shiftl v s)) (wrapu 64 (Z.lnot mask)))).

Fixpoint rev_loop (fuel : nat) (s : Z) (st : Z * Z) : Z * Z :=
  match fuel with
  | O => st
  | S fuel =>
      let s := Z.shiftr s 1 in
      if s >? 0 then rev_loop fuel s (rev_step s st) else st
  end.

Definition rev (v : Z) : Z := (rev_loop 8 64 (wrapu 64 (Z.lnot 0), v)).2.

Arguments rev : simpl never.

(** A step swaps blocks of [s] bits: bit [i] comes from bit [i xor s]. *)
Definition swap_mask_ok (s mask : Z) : bool :=
  forallb (fun i => (0 <=? Z.lxor i s) && (Z.lxor i s <? 64) &&
                    (Z.lxor i s =? if Z.testbit mask i then i + s else i - s)) (seqZ 0 64).

Definition swap (s mask v : Z) : Z :=
  Z.lor (Z.land (Z.shiftr v s) mask) (Z.land (wrapu 64 (Z.shiftl v s)) (wrapu 64 (Z.lnot mask))).

Lemma swap_fits s mask v : 0 <= s -> fits_u 64 v -> fits_u 64 (swap s mask v).
Proof.
  intros Hs Hv. apply lor_fits; [lia| |].
  - apply land_fits; [lia|]. rewrite Z.shiftr_div_pow2 by lia. destruct Hv as [H0 H1].
    pose proof (Z.pow_pos_nonneg 2 s ltac:(lia) Hs). split; [apply Z.div_pos; lia|].
    apply Z.div_lt_upper_bound; nia.
  - apply land_fits; [lia|]. apply wrapu_bound. lia.
Qed.

Lemma swap_testbit s mask v i :
  swap_mask_ok s mask = true -> 0 <= s -> 0 <= i < 64 ->
  0 <= Z.lxor i s < 64 /\ Z.testbit (swap s mask v) i = Z.testbit v (Z.lxor i s).
Proof.
  intros Hok Hs Hi. unfold swap_mask_ok in Hok. rewrite forallb_forall in Hok.
  specialize (Hok i). rewrite <- list_elem_of_In, elem_of_seqZ in Hok. specialize (Hok ltac:(lia)).
  apply andb_true_iff in Hok as [[H0 H1]%andb_true_iff H2].
  apply Z.leb_le in H0. apply Z.ltb_lt in H1. apply Z.eqb_eq in H2. split; [lia|].
  unfold swap. rewrite Z.lor_spec, !Z.land_spec, lnot_u_testbit, wrapu_testbit by lia.
  rewrite Z.shiftr_spec, Z.shiftl_spec by lia. rewrite H2.
  rewrite (proj2 (Z.ltb_lt i 64)) by lia.
  destruct (Z.testbit mask i); simpl; by rewrite ?andb_true_r, ?andb_false_r, ?orb_false_r.
Qed.

Definition rev_masks : list (Z * Z) :=
  Eval vm_compute in
    (fix go (ss : list Z) (mask : Z) :=
       match ss with
       | [] => []
       | s :: ss => let mask := Z.lxor mask (wrapu 64 (Z.shiftl mask s)) in (s, mask) :: go ss mask
       end) [32; 16; 8; 4; 2; 1] (wrapu 64 (Z.lnot 0)).

Lemma rev_swaps v : rev v = foldl (fun v sm => swap sm.1 sm.2 v) v rev_masks.
Proof. reflexivity. Qed.

Lemma swaps_testbit sms v i :
  Forall (fun sm => swap_mask_ok sm.1 sm.2 = true /\ 0 <= sm.1) sms -> 0 <= i < 64 ->
  Z.testbit (foldl (fun v sm => swap sm.1 sm.2 v) v sms) i
  = Z.testbit v (foldr (fun sm j => Z.lxor j sm.1) i sms).
Proof.
  intros Hok. revert v i. induction sms as [|sm sms IH]; intros v i Hi; [done|].
  apply Forall_cons in Hok as [[Hm Hs] Hok]. simpl. rewrite (IH Hok) by done.
  apply swap_testbit; [done|done|].
  clear IH Hm Hs. induction sms as [|sm' sms IH]; [done|]. simpl.
  apply Forall_cons in Hok as [[Hm Hs] Hok].
  apply (swap_testbit sm'.1 sm'.2 0); [done|done|auto].
Qed.

Lemma rev_testbit v i : 0 <= i < 64 -> Z.testbit (rev v) i = Z.testbit v (63 - i).
Proof.
  intros Hi. rewrite rev_swaps, swaps_testbit; [| |done].
  2:{ repeat (constructor; [split; [vm_compute; reflexivity|cbn; lia]|]). constructor. }
  f_equal. assert (forallb (fun i => foldr (fun sm j => Z.lxor j sm.1) i rev_masks =? 63 - i)
    (seqZ 0 64) = true) as Hall by (vm_compute; reflexivity).
  rewrite forallb_forall in Hall. apply Z.eqb_eq, Hall. rewrite <- list_elem_of_In, elem_of_seqZ. lia.
Qed.

Lemma rev_fits v : fits_u 64 v -> fits_u 64 (rev v).
Proof.
  rewrite rev_swaps. unfold rev_masks. intros Hv. cbn [foldl].
  repeat (apply swap_fits; [cbn; lia|]). done.
Qed.

Lemma rev_rev v : fits_u 64 v -> rev (rev v) = v.
Proof.
  intros Hv. apply (word_bits_inj 64); [by apply rev_fits, rev_fits|done|].
  intros i Hi. rewrite !rev_testbit by lia. f_equal. lia.
Qed.

#[global] Opaque rev.

(** ** One step in the reversed space *)

(** [v |= ~m; v = rev(v); v++; v = rev(v);] *)
Definition scan_next (m v : Z) : Z :=
  rev (wrapu 64 (rev (Z.lor v (wrapu 64 (Z.lnot m))) + 1)).

Arguments scan_next : simpl never.

(** Two words agree below [2^e] when their reversals fall in the same block
    of size [2^(64-e)]. *)
Lemma same_bucket e x y :
  0 <= e <= 60 -> fits_u 64 x -> fits_u 64 y ->
  rev x / 2 ^ (64 - e) = rev y / 2 ^ (64 - e) ->
  Z.land x (DICTHT_SIZE_MASK e) = Z.land y (DICTHT_SIZE_MASK e).
Proof.
  intros He Hx Hy Hd. rewrite !land_mask by lia.
  apply (word_bits_inj e); [apply wrapu_bound; lia|apply wrapu_bound; lia|]. intros i Hi.
  rewrite !Z.mod_pow2_bits_low by lia.
  assert (Z.testbit (rev x / 2 ^ (64 - e)) (e - 1 - i) = Z.testbit (rev y / 2 ^ (64 - e)) (e - 1 - i))
    as Hb by (by rewrite Hd).
  rewrite !Z.div_pow2_bits, !rev_testbit in Hb by lia.
  by replace (63 - (e - 1 - i + (64 - e))) with i in Hb by lia.
Qed.

(** The end of the block a word is in. *)
Lemma block_end_testbit k x i :
  0 <= k -> 0 <= i ->
  Z.testbit (x / 2 ^ k * 2 ^ k + (2 ^ k - 1)) i = (i <? k) || Z.testbit x i.
Proof.
  intros Hk Hi. pose proof (Z.pow_pos_nonneg 2 k ltac:(lia) Hk) as HB.
  destruct (Z.ltb_spec i k); simpl.
  - rewrite <- (Z.mod_pow2_bits_low _ k) by lia.
    rewrite Z.add_comm, Z.mod_add, Z.mod_small by lia.
    replace (2 ^ k - 1) with (Z.ones k) by (rewrite Z.ones_equiv; lia).
    by apply Z.ones_spec_low.
  - replace i with ((i - k) + k) at 1 by lia. rewrite <- Z.div_pow2_bits by lia.
    rewrite Z.add_comm, Z.div_add, (Z.div_small (2 ^ k - 1)), Z.add_0_l by lia.
    rewrite Z.div_pow2_bits by lia. f_equal. lia.
Qed.

Lemma mask_testbit e i : 0 <= e <= 60 -> 0 <= i -> Z.testbit (DICTHT_SIZE_MASK e) i = (i <? e).
Proof.
  intros He Hi. unfold DICTHT_SIZE_MASK. destruct (Z.eqb_spec e (-1)); [lia|].
  rewrite size_pow by lia. replace (2 ^ e - 1) with (Z.ones e) by (rewrite Z.ones_equiv; lia).
  destruct (Z.ltb_spec i e); [by apply Z.ones_spec_low|apply Z.ones_spec_high; lia].
Qed.

Lemma rev_or_not_mask e v :
  0 <= e <= 60 -> fits_u 64 v ->
  rev (Z.lor v (wrapu 64 (Z.lnot (DICTHT_SIZE_MASK e))))
  = rev v / 2 ^ (64 - e) * 2 ^ (64 - e) + (2 ^ (64 - e) - 1).
Proof.
  intros He Hv. pose proof (Z.pow_pos_nonneg 2 (64 - e) ltac:(lia) ltac:(lia)) as HB.
  destruct (rev_fits v Hv) as [Hr0 Hr1].
  apply (word_bits_inj 64).
  - apply rev_fits, lor_fits; [lia|done|apply wrapu_bound; lia].
  - assert (2 ^ 64 = 2 ^ e * 2 ^ (64 - e)) as H64 by (rewrite <- Z.pow_add_r by lia; f_equal; lia).
    assert (rev v / 2 ^ (64 - e) < 2 ^ e) by (apply Z.div_lt_upper_bound; lia).
    assert (0 <= rev v / 2 ^ (64 - e)) by (apply Z.div_pos; lia).
    split; nia.
  - intros i Hi. rewrite rev_testbit, Z.lor_spec, lnot_u_testbit, mask_testbit by lia.
    rewrite block_end_testbit, rev_testbit by lia.
    rewrite (proj2 (Z.ltb_lt (63 - i) 64)) by lia. simpl.
    destruct (Z.ltb_spec (63 - i) e), (Z.ltb_spec i (64 - e)); try lia; simpl;
      by rewrite ?orb_false_r, ?orb_true_r.
Qed.

Lemma scan_next_rev e v :
  0 <= e <= 60 -> fits_u 64 v ->
  fits_u 64 (scan_next (DICTHT_SIZE_MASK e) v) /\
  rev (scan_next (DICTHT_SIZE_MASK e) v)
  = ((rev v / 2 ^ (64 - e) + 1) * 2 ^ (64 - e)) mod 2 ^ 64.
Proof.
  intros He Hv. unfold scan_next. rewrite rev_or_not_mask by done.
  set (B := 2 ^ (64 - e)).
  replace (rev v / B * B + (B - 1) + 1) with ((rev v / B + 1) * B) by lia.
  pose proof (wrapu_bound 64 ((rev v / B + 1) * B) ltac:(lia)) as Hf.
  split; [by apply rev_fits|]. by rewrite rev_rev.
Qed.

(** Block arithmetic: the next multiple of [B] after [r], against the blocks
    [k] times as large. *)
Lemma next_block B k r :
  0 < B -> 0 < k ->
  let n := (r / B + 1) * B in
  (n mod (B * k) = 0 -> n = (r / (B * k) + 1) * (B * k)) /\
  (n mod (B * k) <> 0 -> n / (B * k) = r / (B * k)).
Proof.
  intros HB Hk n. unfold n. set (q := r / B).
  assert (r / (B * k) = q / k) as -> by (unfold q; rewrite Z.div_div by lia; done).
  assert (((q + 1) * B) mod (B * k) = ((q + 1) mod k) * B) as ->.
  { rewrite (Z.mul_comm B k), Z.mul_mod_distr_r by lia. done. }
  assert (((q + 1) * B) / (B * k) = (q + 1) / k) as ->.
  { rewrite (Z.mul_comm B k), Z.div_mul_cancel_r by lia. done. }
  pose proof (Z.div_mod q k ltac:(lia)) as Hq. pose proof (Z.mod_pos_bound q k Hk) as Hm.
  destruct (Z.eq_dec (q mod k) (k - 1)) as [He|He].
  - assert ((q + 1) = (q / k + 1) * k) as Hq1 by nia. split.
    + intros _. rewrite Hq1 at 1. lia.
    + intros Hn. exfalso. apply Hn. rewrite Hq1, Z.mod_mul by lia. done.
  - assert ((q + 1) / k = q / k) as Hd
      by (symmetry; apply (Z.div_unique_pos (q + 1) k (q / k) (q mod k + 1)); lia).
    assert ((q + 1) mod k = q mod k + 1) as Hm1
      by (symmetry; apply (Z.mod_unique_pos (q + 1) k (q / k) (q mod k + 1)); lia).
    split; [|done]. intros H0. rewrite Hm1 in H0. nia.
Qed.

#[global] Opaque scan_next.

(** ** The scan *)

Section scan.
Context {K V : Type} `{Countable K}.
Context (ty : dictType K).

Implicit Types (d : dict K V) (h : htab K V) (de : dictEntry K V).

#[local] Abbreviation hash := (hashFunction ty).

(** The [do .. while (v & (m0 ^ m1))] loop over the larger table. *)
Fixpoint scan_expansions (fuel : nat) h (m0 m1 v : Z) : option (list (dictEntry K V) * Z) :=
  match fuel with
  | O => None
  | S fuel =>
      b ← ht_bucket h (Z.land v m1);
      let v := scan_next m1 v in
      if Z.land v (Z.lxor m0 m1) =? 0 then Some (b, v)
      else r ← scan_expansions fuel h m0 m1 v; Some (b ++ r.1, r.2)
  end.

(** [dictScan] without a defragmentation callback: the entries passed to
    [fn], in order, and the next cursor. *)
Definition dictScan d (v : Z) : option (list (dictEntry K V) * Z) :=
  if dictSize d =? 0 then Some ([], 0)
  else if negb (dictIsRehashing d) then
    let m0 := DICTHT_SIZE_MASK (ht_size_exp (ht0 d)) in
    b ← ht_bucket (ht0 d) (Z.land v m0);
    Some (b, scan_next m0 v)
  else
    let '(t0, t1) := if size0 d >? size1 d then (ht1 d, ht0 d) else (ht0 d, ht1 d) in
    let m0 := DICTHT_SIZE_MASK (ht_size_exp t0) in
    let m1 := DICTHT_SIZE_MASK (ht_size_exp t1) in
    b ← ht_bucket t0 (Z.land v m0);
    r ← scan_expansions (Z.to_nat (2 ^ (ht_size_exp t1 - ht_size_exp t0))) t1 m0 m1 v;
    Some (b ++ r.1, r.2).

(** The position of a key in the reversed hash space. *)
Definition rpos (k : K) : Z := rev (wrapu 64 (hash k)).

Lemma rpos_range k : 0 <= rpos k < 2 ^ 64.
Proof. apply rev_fits, wrapu_bound. lia. Qed.

Lemma land_mask_word e x : 0 <= e <= 60 ->
  Z.land (wrapu 64 x) (DICTHT_SIZE_MASK e) = Z.land x (DICTHT_SIZE_MASK e).
Proof.
  intros He. rewrite !land_mask by lia. unfold wrapu.
  replace (2 ^ 64) with (2 ^ e * 2 ^ (64 - e)) by (rewrite <- Z.pow_add_r by lia; f_equal; lia).
  pose proof (Z.pow_pos_nonneg 2 e). pose proof (Z.pow_pos_nonneg 2 (64 - e)).
  rewrite Z.rem_mul_r by lia. rewrite Z.mul_comm, Z.mod_add, Z.mod_mod by lia. done.
Qed.

(** The bucket of a cursor holds every entry of its block. *)
Lemma bucket_covers h v b de :
  ht_wf ty h -> ht_table h <> None -> fits_u 64 v ->
  ht_bucket h (Z.land v (DICTHT_SIZE_MASK (ht_size_exp h))) = Some b ->
  de ∈ ht_entries h ->
  rpos (dictGetKey de) / 2 ^ (64 - ht_size_exp h) = rev v / 2 ^ (64 - ht_size_exp h) -> de ∈ b.
Proof.
  intros Hw Ht Hv Hb Hde Hr. destruct (ht_table h) eqn:E; [|done].
  destruct (ht_wf_some ty _ _ Hw E) as [He _].
  destruct (entries_bucket ty h de Hw Hde) as (b' & Hb' & Hin).
  rewrite <- (land_mask_word (ht_size_exp h)) in Hb' by lia.
  rewrite (same_bucket (ht_size_exp h) _ v) in Hb'; [congruence|lia|apply wrapu_bound; lia|done|done].
Qed.

Lemma mask_diff_zero e0 e1 v :
  0 <= e0 <= e1 -> e1 <= 60 -> fits_u 64 v -> rev v mod 2 ^ (64 - e1) = 0 ->
  Z.land v (Z.lxor (DICTHT_SIZE_MASK e0) (DICTHT_SIZE_MASK e1)) = 0 <-> rev v mod 2 ^ (64 - e0) = 0.
Proof.
  intros He0 He1 Hv H1.
  assert (forall i, 0 <= i < 64 - e1 -> Z.testbit (rev v) i = false) as Hlow.
  { intros i Hi. rewrite <- (Z.mod_pow2_bits_low _ (64 - e1)) by lia. rewrite H1. apply Z.testbit_0_l. }
  split; intros Hz.
  - apply Z.bits_inj'. intros i Hi. rewrite Z.testbit_0_l.
    destruct (Z.lt_ge_cases i (64 - e0)); [|by apply Z.mod_pow2_bits_high; lia].
    rewrite Z.mod_pow2_bits_low by lia. destruct (Z.lt_ge_cases i (64 - e1)); [by apply Hlow|].
    assert (Z.testbit (Z.land v (Z.lxor (DICTHT_SIZE_MASK e0) (DICTHT_SIZE_MASK e1))) (63 - i) = false)
      as Hb by (rewrite Hz; apply Z.testbit_0_l).
    rewrite Z.land_spec, Z.lxor_spec, !mask_testbit in Hb by lia. rewrite rev_testbit by lia.
    destruct (Z.ltb_spec (63 - i) e0), (Z.ltb_spec (63 - i) e1); try lia.
    simpl in Hb. by rewrite andb_true_r in Hb.
  - apply Z.bits_inj'. intros i Hi. rewrite Z.testbit_0_l, Z.land_spec, Z.lxor_spec, !mask_testbit by lia.
    destruct (Z.ltb_spec i e0), (Z.ltb_spec i e1); try lia; simpl; rewrite ?andb_false_r; try done.
    rewrite andb_true_r. replace i with (63 - (63 - i)) by lia. rewrite <- rev_testbit by lia.
    rewrite <- (Z.mod_pow2_bits_low _ (64 - e0)) by lia. rewrite Hz. apply Z.testbit_0_l.
Qed.

Lemma fits_div_blocks r e : 0 <= e <= 60 -> 0 <= r < 2 ^ 64 ->
  0 <= r / 2 ^ (64 - e) < 2 ^ e /\ r < (r / 2 ^ (64 - e) + 1) * 2 ^ (64 - e) <= 2 ^ 64 /\
  r / 2 ^ (64 - e) * 2 ^ (64 - e) <= r.
Proof.
  intros He Hr. pose proof (Z.pow_pos_nonneg 2 (64 - e) ltac:(lia) ltac:(lia)) as HB.
  assert (2 ^ 64 = 2 ^ e * 2 ^ (64 - e)) as H64 by (rewrite <- Z.pow_add_r by lia; f_equal; lia).
  assert (r / 2 ^ (64 - e) < 2 ^ e) by (apply Z.div_lt_upper_bound; lia).
  assert (0 <= r / 2 ^ (64 - e)) by (apply Z.div_pos; lia).
  pose proof (Z.div_mod r (2 ^ (64 - e)) ltac:(lia)). pose proof (Z.mod_pos_bound r (2 ^ (64 - e)) HB).
  split; [lia|]. split; [|lia]. split; [lia|]. nia.
Qed.

Lemma mod_mod_blocks x e : 0 <= e <= 60 -> (x mod 2 ^ 64) mod 2 ^ (64 - e) = x mod 2 ^ (64 - e).
Proof.
  intros He. pose proof (Z.pow_pos_nonneg 2 (64 - e)). pose proof (Z.pow_pos_nonneg 2 e).
  replace (2 ^ 64) with (2 ^ (64 - e) * 2 ^ e) by (rewrite <- Z.pow_add_r by lia; f_equal; lia).
  rewrite Z.rem_mul_r by lia. rewrite Z.mul_comm, Z.mod_add, Z.mod_mod by lia. done.
Qed.

Lemma succ_mod q k : 0 < k -> (q + 1) mod k <> 0 -> (q + 1) mod k = q mod k + 1.
Proof.
  intros Hk Hn. pose proof (Z.mod_pos_bound q k Hk). pose proof (Z.div_mod q k ltac:(lia)).
  destruct (Z.eq_dec (q mod k) (k - 1)) as [He|He].
  - exfalso. apply Hn. replace (q + 1) with ((q / k + 1) * k) by nia. apply Z.mod_mul. lia.
  - symmetry. apply (Z.mod_unique_pos _ _ (q / k)); lia.
Qed.

(** The loop over the larger table covers what is left of the smaller
    table's block, and ends at its end. *)
Lemma scan_expansions_spec fuel h e0 v :
  ht_wf ty h -> ht_table h <> None -> 0 <= e0 <= ht_size_exp h -> fits_u 64 v ->
  2 ^ (ht_size_exp h - e0) - (rev v / 2 ^ (64 - ht_size_exp h)) mod 2 ^ (ht_size_exp h - e0)
    <= Z.of_nat fuel ->
  exists es v', scan_expansions fuel h (DICTHT_SIZE_MASK e0) (DICTHT_SIZE_MASK (ht_size_exp h)) v
      = Some (es, v') /\ fits_u 64 v' /\
    rev v' = ((rev v / 2 ^ (64 - e0) + 1) * 2 ^ (64 - e0)) mod 2 ^ 64 /\
    forall de, de ∈ ht_entries h -> rev v <= rpos (dictGetKey de) ->
      rpos (dictGetKey de) < (rev v / 2 ^ (64 - e0) + 1) * 2 ^ (64 - e0) -> de ∈ es.
Proof.
  intros Hw Ht He0. set (e1 := ht_size_exp h) in *.
  assert (2 <= e1 <= 60) as He1.
  { destruct (ht_table h) eqn:E; [|done]. by destruct (ht_wf_some ty _ _ Hw E). }
  set (k := 2 ^ (e1 - e0)). set (B1 := 2 ^ (64 - e1)).
  assert (2 ^ (64 - e0) = B1 * k) as HBk.
  { unfold B1, k. rewrite <- Z.pow_add_r by lia. f_equal. lia. }
  assert (0 < B1 /\ 0 < k) as [HB1 Hk] by (split; apply Z.pow_pos_nonneg; lia).
  revert v. induction fuel as [|fuel IH]; intros v Hv Hf.
  { pose proof (Z.mod_pos_bound (rev v / B1) k Hk). lia. }
  cbn [scan_expansions].
  destruct (ht_bucket_hash ty h v Hw Ht) as [b Hb]. fold e1 in Hb. rewrite Hb. mstep.
  destruct (scan_next_rev e1 v ltac:(lia) Hv) as [Hv1 Hr1]. fold B1 in Hr1.
  set (v1 := scan_next _ v) in *. clearbody v1.
  pose proof (rev_fits v Hv) as Hrv.
  destruct (fits_div_blocks (rev v) e1 ltac:(lia) Hrv) as (Hq & Hn & Hlo). fold B1 in Hq, Hn, Hlo.
  destruct (next_block B1 k (rev v) HB1 Hk) as [Hend Hmore].
  set (n := (rev v / B1 + 1) * B1) in *.
  assert (rev v1 mod (B1 * k) = n mod (B1 * k)) as Hmod.
  { rewrite Hr1, <- HBk. apply mod_mod_blocks. lia. }
  assert (rev v1 mod B1 = 0) as Hz1.
  { rewrite Hr1. etransitivity; [apply mod_mod_blocks; lia|]. apply Z.mod_mul. lia. }
  pose proof (mask_diff_zero e0 e1 v1 He0 ltac:(lia) Hv1 Hz1) as Htest. rewrite HBk, Hmod in Htest.
  assert (forall de, de ∈ ht_entries h -> rev v <= rpos (dictGetKey de) < n -> de ∈ b) as Hcov.
  { intros de Hde Hr. eapply (bucket_covers h v); try done. fold e1 B1.
    symmetry. apply (Z.div_unique_pos _ _ _ (rpos (dictGetKey de) - rev v / B1 * B1)); unfold n in *; lia. }
  rewrite HBk. destruct (Z.eqb_spec (Z.land v1 (Z.lxor (DICTHT_SIZE_MASK e0) (DICTHT_SIZE_MASK e1))) 0)
    as [Hz|Hz].
  - apply Htest in Hz. specialize (Hend Hz). exists b, v1. rewrite <- Hend. split_and!; auto.
  - assert (n mod (B1 * k) <> 0) as Hnz by (rewrite <- Htest; done). specialize (Hmore Hnz).
    assert (n <> 2 ^ 64) as Hn64.
    { intros Hx. rewrite Hx in Hr1. rewrite Z.mod_same in Hr1 by lia. rewrite Hr1 in Hmod.
      rewrite Z.mod_0_l in Hmod by lia. congruence. }
    rewrite Z.mod_small in Hr1 by (unfold n in *; nia).
    assert (rev v1 / B1 = rev v / B1 + 1) as Hq1 by (rewrite Hr1; unfold n; apply Z.div_mul; lia).
    destruct (IH v1 Hv1) as (es & v' & Hrec & Hfv & Hrv' & Hcov').
    { rewrite Hq1, succ_mod; [lia|lia|]. intros Hx. apply Hnz. unfold n.
      rewrite (Z.mul_comm B1 k), Z.mul_mod_distr_r, Hx by lia. lia. }
    rewrite Hrec. cbn [mbind option_bind fst snd]. exists (b ++ es), v'. rewrite HBk, Hr1, Hmore in Hrv', Hcov'.
    split_and!; try done. intros de Hde Hr0 Hr2. apply elem_of_app.
    destruct (Z.lt_ge_cases (rpos (dictGetKey de)) n); [left; auto|right; auto].
Qed.

(** A cursor at the end of a block has no bits above the table's. *)
Lemma cursor_small e v :
  0 <= e <= 60 -> fits_u 64 v -> rev v mod 2 ^ (64 - e) = 0 -> v < 2 ^ e.
Proof.
  intros He Hv Hz. apply (fits_u_bits e v ltac:(lia)); [|apply Hv]. intros i Hi.
  destruct (Z.lt_ge_cases i 64); [|by apply (testbit_high 64)].
  replace i with (63 - (63 - i)) by lia. rewrite <- rev_testbit by lia.
  rewrite <- (Z.mod_pow2_bits_low _ (64 - e)) by lia. rewrite Hz. apply Z.testbit_0_l.
Qed.

Lemma next_cursor_small e q v' :
  0 <= e <= 60 -> fits_u 64 v' -> rev v' = (q * 2 ^ (64 - e)) mod 2 ^ 64 -> v' < 2 ^ e.
Proof.
  intros He Hv' Hr. apply cursor_small; [done|done|]. rewrite Hr, mod_mod_blocks by done.
  apply Z.mod_mul. pose proof (Z.pow_pos_nonneg 2 (64 - e)). lia.
Qed.

(** What one step visits: everything between its cursor and the next. *)
Definition step_covers d (v n : Z) (es : list (dictEntry K V)) : Prop :=
  forall t de, de ∈ ht_entries (ht_of d t) -> rev v <= rpos (dictGetKey de) < n -> de ∈ es.

Lemma bucket_sound h idx b de : ht_bucket h idx = Some b -> de ∈ b -> de ∈ ht_entries h.
Proof. apply bucket_entries. Qed.

Lemma scan_expansions_sound fuel h m0 m1 v es v' de :
  scan_expansions fuel h m0 m1 v = Some (es, v') -> de ∈ es -> de ∈ ht_entries h.
Proof.
  revert v es. induction fuel as [|fuel IH]; intros v es Hs Hde; [done|]. cbn [scan_expansions] in Hs.
  apply bind_Some in Hs as (b & Hb & Hs). destruct (_ =? 0); simplify_eq.
  - by eapply bucket_sound.
  - apply bind_Some in Hs as ([es' v''] & Hr & [= <- <-]). apply elem_of_app in Hde as [Hde|Hde].
    + by eapply bucket_sound.
    + by eapply IH.
Qed.

Lemma scan_single_step d v :
  wf ty d -> fits_u 64 v -> dictSize d <> 0 -> dictIsRehashing d = false ->
  exists es v' n, dictScan d v = Some (es, v') /\ fits_u 64 v' /\
    rev v < n <= 2 ^ 64 /\ rev v' = n mod 2 ^ 64 /\ (v' = 0 \/ v' < dictBuckets d) /\
    step_covers d v n es /\
    (forall de, de ∈ es -> exists t, de ∈ ht_entries (ht_of d t)).
Proof.
  intros Hw Hv Hsz Hr. unfold dictScan. rewrite (proj2 (Z.eqb_neq _ _) Hsz), Hr. cbn [negb].
  pose proof (nonempty_table ty d Hw Hsz) as Ht. pose proof (wf_ht0 _ _ Hw) as Hw0.
  destruct (ht_bucket_hash ty (ht0 d) v Hw0 Ht) as [b Hb]. rewrite Hb. mstep.
  assert (2 <= ht_size_exp (ht0 d) <= 60) as He.
  { destruct (ht_table (ht0 d)) eqn:E; [|done]. by destruct (ht_wf_some ty _ _ Hw0 E). }
  destruct (scan_next_rev (ht_size_exp (ht0 d)) v ltac:(lia) Hv) as [Hv1 Hr1].
  destruct (fits_div_blocks (rev v) (ht_size_exp (ht0 d)) ltac:(lia) (rev_fits v Hv)) as (Hq & Hn & Hlo).
  eexists b, _, _. split_and!; [done|done|apply Hn|apply Hn|exact Hr1| | |].
  { right. unfold dictBuckets. rewrite size_pow by lia.
    pose proof (next_cursor_small (ht_size_exp (ht0 d)) _ _ ltac:(lia) Hv1 Hr1).
    pose proof (wf_ht1 _ _ Hw) as H1. unfold ht_wf in H1. apply idle_false in Hr.
    rewrite (wf_idle _ _ Hw Hr) in H1. destruct H1 as [-> _]. change (DICTHT_SIZE (-1)) with 0. lia. }
  - intros t de Hde Hrp. destruct t.
    { apply idle_false in Hr. unfold ht_entries in Hde. simpl in Hde.
      rewrite (wf_idle _ _ Hw Hr) in Hde. by apply not_elem_of_nil in Hde. }
    eapply (bucket_covers (ht0 d) v); try done.
    pose proof (Z.pow_pos_nonneg 2 (64 - ht_size_exp (ht0 d))).
    symmetry. apply (Z.div_unique_pos _ _ _ (rpos (dictGetKey de)
      - rev v / 2 ^ (64 - ht_size_exp (ht0 d)) * 2 ^ (64 - ht_size_exp (ht0 d)))); lia.
  - intros de Hde. exists false. by eapply bucket_sound.
Qed.

(** Both tables, the smaller one first. *)
Lemma scan_pair_step h0 h1 v :
  ht_wf ty h0 -> ht_wf ty h1 -> ht_table h0 <> None -> ht_table h1 <> None ->
  ht_size_exp h0 <= ht_size_exp h1 -> fits_u 64 v ->
  exists b es v' n,
    ht_bucket h0 (Z.land v (DICTHT_SIZE_MASK (ht_size_exp h0))) = Some b /\
    scan_expansions (Z.to_nat (2 ^ (ht_size_exp h1 - ht_size_exp h0))) h1
      (DICTHT_SIZE_MASK (ht_size_exp h0)) (DICTHT_SIZE_MASK (ht_size_exp h1)) v = Some (es, v') /\
    fits_u 64 v' /\ rev v < n <= 2 ^ 64 /\ rev v' = n mod 2 ^ 64 /\ v' < 2 ^ ht_size_exp h0 /\
    (forall de, de ∈ ht_entries h0 \/ de ∈ ht_entries h1 ->
       rev v <= rpos (dictGetKey de) < n -> de ∈ b ++ es) /\
    (forall de, de ∈ b ++ es -> de ∈ ht_entries h0 \/ de ∈ ht_entries h1).
Proof.
  intros Hw0 Hw1 Ht0 Ht1 Hle Hv.
  destruct (ht_bucket_hash ty h0 v Hw0 Ht0) as [b Hb].
  assert (2 <= ht_size_exp h0 <= 60) as He.
  { destruct (ht_table h0) eqn:E; [|done]. by destruct (ht_wf_some ty _ _ Hw0 E). }
  pose proof (Z.pow_pos_nonneg 2 (ht_size_exp h1 - ht_size_exp h0) ltac:(lia) ltac:(lia)) as Hk.
  destruct (scan_expansions_spec (Z.to_nat (2 ^ (ht_size_exp h1 - ht_size_exp h0))) h1 (ht_size_exp h0) v
    Hw1 Ht1 ltac:(lia) Hv) as (es & v' & Hs & Hv' & Hr' & Hcov).
  { pose proof (Z.mod_pos_bound (rev v / 2 ^ (64 - ht_size_exp h1)) _ Hk). lia. }
  destruct (fits_div_blocks (rev v) (ht_size_exp h0) ltac:(lia) (rev_fits v Hv)) as (Hq & Hn & Hlo).
  eexists b, es, v', _. split_and!; [done|done|done|apply Hn|apply Hn|exact Hr'| | |].
  { by eapply next_cursor_small; [lia| |exact Hr']. }
  - intros de [Hde|Hde] Hrp; apply elem_of_app; [left|right].
    + eapply (bucket_covers h0 v); try done. pose proof (Z.pow_pos_nonneg 2 (64 - ht_size_exp h0)).
      symmetry. apply (Z.div_unique_pos _ _ _ (rpos (dictGetKey de)
        - rev v / 2 ^ (64 - ht_size_exp h0) * 2 ^ (64 - ht_size_exp h0))); lia.
    + apply Hcov; [done|lia|lia].
  - intros de [Hde|Hde]%elem_of_app; [left|right].
    + by eapply bucket_sound.
    + by eapply scan_expansions_sound.
Qed.

Lemma dictScan_step d v :
  wf ty d -> fits_u 64 v ->
  exists es v' n, dictScan d v = Some (es, v') /\ fits_u 64 v' /\
    rev v < n <= 2 ^ 64 /\ rev v' = n mod 2 ^ 64 /\ (v' = 0 \/ v' < dictBuckets d) /\
    step_covers d v n es /\
    (forall de, de ∈ es -> exists t, de ∈ ht_entries (ht_of d t)).
Proof.
  intros Hw Hv. destruct (Z.eq_dec (dictSize d) 0) as [Hsz|Hsz].
  { exists [], 0, (2 ^ 64). unfold dictScan. rewrite (proj2 (Z.eqb_eq _ _) Hsz).
    pose proof (rev_fits v Hv) as Hr. rewrite (dictSize_kvs ty) in Hsz by done.
    split_and!; try done; [apply Hr|by left| |].
    - intros t de Hde _. exfalso.
      assert (kv de ∈ kvs d) as Hin by (destruct de; apply elem_of_kvs; eauto).
      destruct (kvs d); [by apply not_elem_of_nil in Hin|simpl in Hsz; lia].
    - intros de Hde. by apply not_elem_of_nil in Hde. }
  destruct (dictIsRehashing d) eqn:Hr; [|by apply scan_single_step].
  pose proof Hr as Hr'. apply rehashing_true in Hr'. destruct (wf_rehash _ _ Hw Hr') as (Ht0 & Ht1 & _).
  pose proof (wf_ht0 _ _ Hw) as Hw0. pose proof (wf_ht1 _ _ Hw) as Hw1.
  unfold dictScan. rewrite (proj2 (Z.eqb_neq _ _) Hsz), Hr. cbn [negb].
  assert (forall h, ht_wf ty h -> ht_table h <> None -> DICTHT_SIZE (ht_size_exp h) = 2 ^ ht_size_exp h
    /\ 2 <= ht_size_exp h) as Hpow.
  { intros h Hh Ht. destruct (ht_table h) eqn:E; [|done]. destruct (ht_wf_some ty _ _ Hh E).
    split; [apply size_pow; lia|lia]. }
  destruct (Hpow _ Hw0 Ht0) as [Hp0 ?], (Hpow _ Hw1 Ht1) as [Hp1 ?].
  pose proof (Z.pow_pos_nonneg 2 (ht_size_exp (ht0 d))).
  pose proof (Z.pow_pos_nonneg 2 (ht_size_exp (ht1 d))).
  unfold size0, size1. rewrite Hp0, Hp1.
  destruct (Z.gtb_spec (2 ^ ht_size_exp (ht0 d)) (2 ^ ht_size_exp (ht1 d))) as [Hgt|Hle].
  - apply Z.pow_lt_mono_r_iff in Hgt; [|lia|lia].
    destruct (scan_pair_step (ht1 d) (ht0 d) v) as (b & es & v' & n & -> & Hs & Hv' & Hn & Hr1 & Hsm & Hc & Hso);
      try done; [lia|]. mstep. rewrite Hs. cbn [mbind option_bind fst snd].
    exists (b ++ es), v', n. split_and!; try done; try lia;
      [right; unfold dictBuckets; rewrite Hp0, Hp1; lia| |].
    + intros [] de Hde; apply Hc; auto.
    + intros de Hde. destruct (Hso de Hde); [by exists true|by exists false].
  - apply Z.pow_le_mono_r_iff in Hle; [|lia|lia].
    destruct (scan_pair_step (ht0 d) (ht1 d) v) as (b & es & v' & n & -> & Hs & Hv' & Hn & Hr1 & Hsm & Hc & Hso);
      try done. mstep. rewrite Hs. cbn [mbind option_bind fst snd].
    exists (b ++ es), v', n. split_and!; try done; try lia;
      [right; unfold dictBuckets; rewrite Hp0, Hp1; lia| |].
    + intros [] de Hde; apply Hc; auto.
    + intros de Hde. destruct (Hso de Hde); [by exists false|by exists true].
Qed.

(** ** Complete iterations *)

(** Scanning successive states [ds] of a dict, each step from the cursor the
    previous one returned. *)
Fixpoint scan_all (ds : list (dict K V)) (v : Z) : option (list (dictEntry K V) * Z) :=
  match ds with
  | [] => Some ([], v)
  | d :: ds =>
      r ← dictScan d v;
      r' ← scan_all ds r.2;
      Some (r.1 ++ r'.1, r'.2)
  end.

Lemma scan_all_covers ds v es k :
  Forall (wf ty) ds -> ds <> [] -> fits_u 64 v -> scan_all ds v = Some (es, 0) ->
  Forall (fun d => k ∈ dom (dict_map d)) ds -> rev v <= rpos k -> k ∈ dictGetKey <$> es.
Proof.
  intros Hw. revert v es. induction Hw as [|d ds Hwd Hw IH]; intros v es Hne Hv Hrun Hk Hr; [done|].
  apply Forall_cons in Hk as [Hkd Hk].
  destruct (dictScan_step d v Hwd Hv) as (es1 & v1 & n & Hst & Hv1 & Hn & Hr1 & _ & Hc & _).
  cbn [scan_all] in Hrun. rewrite Hst in Hrun. cbn [mbind option_bind fst snd] in Hrun.
  apply bind_Some in Hrun as ([es2 v2] & Hrun & [= <- ->]). rewrite fmap_app, elem_of_app.
  pose proof (rpos_range k) as Hrk. destruct (rev_fits v Hv) as [Hrv0 _].
  assert (rpos k < n -> k ∈ dictGetKey <$> es1) as Hin.
  { intros Hlt. apply elem_of_dom in Hkd as [x Hx]. apply (dict_map_lookup ty) in Hx; [|done].
    apply elem_of_kvs in Hx as (t & de & Hde & Hkv). assert (dictGetKey de = k) as <-
      by (unfold kv in Hkv; congruence).
    apply list_elem_of_fmap_2, (Hc t); [done|lia]. }
  destruct (Z.lt_ge_cases (rpos k) n) as [Hlt|Hge]; [by left; apply Hin|].
  destruct ds as [|d' ds].
  { simpl in Hrun. simplify_eq. exfalso.
    assert (rev 0 = 0) as Hr0 by (vm_compute; reflexivity). rewrite Hr0 in Hr1.
    destruct (Z.eq_dec n (2 ^ 64)); [lia|]. rewrite Z.mod_small in Hr1 by lia. lia. }
  right. apply (IH v1); try done. rewrite Hr1, Z.mod_small; lia.
Qed.

(** C1: The guarantee of SCAN.  An iteration that starts at cursor 0 and ends
    when the cursor is 0 again returns every key that is in the dict during
    all of it, although the dict may be modified, grown, shrunk and rehashed
    between any two steps; and it returns only keys the dict had at the step
    that returned them. *)
Theorem dictScan_complete (ds : list (dict K V)) (es : list (dictEntry K V))
    (Hwf : Forall (wf ty) ds) (Hne : ds <> []) (Hrun : scan_all ds 0 = Some (es, 0)) :
  (forall k, Forall (fun d => k ∈ dom (dict_map d)) ds -> k ∈ dictGetKey <$> es) /\
  (forall de, de ∈ es -> exists d, d ∈ ds /\ dict_map d !! dictGetKey de = Some (dictGetVal de)).
Proof.
  split.
  - intros k Hk. apply (scan_all_covers ds 0 es k); try done. apply rpos_range.
  - clear Hne. assert (fits_u 64 0) as Hv by done. revert Hv Hrun. generalize 0 at 1 2 as v.
    revert es. induction Hwf as [|d ds Hwd Hw IH]; intros es v Hv Hrun de Hde; simplify_eq/=.
    { by apply not_elem_of_nil in Hde. }
    destruct (dictScan_step d v Hwd Hv) as (es1 & v1 & n & Hst & Hv1 & _ & _ & _ & _ & Hso).
    rewrite Hst in Hrun. cbn [mbind option_bind fst snd] in Hrun. apply bind_Some in Hrun as ([es2 v2] & Hrun & [= <- ->]).
    apply elem_of_app in Hde as [Hde|Hde].
    + exists d. split; [apply elem_of_cons; by left|]. apply (dict_map_lookup ty); [done|].
      apply elem_of_kvs. destruct (Hso de Hde) as [t Ht]. by exists t, de.
    + destruct (IH es2 v1 Hv1 Hrun de Hde) as (d' & Hd' & Hl). exists d'.
      split; [apply elem_of_cons; by right|done].
Qed.

(** The cursor after [n] steps, the dict being in state [f i] at step [i]. *)
Fixpoint scan_cursor (f : nat -> dict K V) (n : nat) : option Z :=
  match n with
  | O => Some 0
  | S n => v ← scan_cursor f n; snd <$> dictScan (f n) v
  end.

(** C31: An iteration terminates: whatever happens to the dict between the
    steps, the cursor comes back to 0. *)
Theorem dictScan_terminates (f : nat -> dict K V) (Hwf : forall i, wf ty (f i)) :
  exists n, (0 < n)%nat /\ scan_cursor f n = Some 0 /\
    forall i, (0 < i < n)%nat -> exists v, scan_cursor f i = Some v /\ v <> 0.
Proof.
  assert (rev 0 = 0) as Hr0 by (vm_compute; reflexivity).
  enough (forall m i v, 2 ^ 64 - rev v <= Z.of_nat m -> scan_cursor f i = Some v -> fits_u 64 v ->
    exists n, (i < n)%nat /\ scan_cursor f n = Some 0 /\
      forall j, (i < j < n)%nat -> exists v, scan_cursor f j = Some v /\ v <> 0) as Hall.
  { by apply (Hall (Z.to_nat (2 ^ 64 - rev 0)) O 0); [lia|..]. }
  induction m as [|m IH]; intros i v Hm Hi Hv.
  { pose proof (rev_fits v Hv) as [_ Hx]. lia. }
  destruct (dictScan_step (f i) v (Hwf i) Hv) as (es & v1 & n & Hst & Hv1 & Hn & Hr1 & _).
  assert (scan_cursor f (S i) = Some v1) as Hi1 by (cbn [scan_cursor]; by rewrite Hi; simpl; rewrite Hst).
  destruct (Z.eq_dec v1 0) as [->|Hnz].
  { exists (S i). split_and!; [lia|done|]. intros j Hj. lia. }
  destruct (rev_fits v Hv) as [Hv0 _].
  assert (n <> 2 ^ 64) as Hn64.
  { intros ->. rewrite Z.mod_same in Hr1 by lia. apply Hnz.
    rewrite <- (rev_rev v1) by done. by rewrite Hr1. }
  rewrite Z.mod_small in Hr1 by lia.
  destruct (IH (S i) v1 ltac:(lia) Hi1 Hv1) as (k & Hk & Hk0 & Hkj).
  exists k. split_and!; [lia|done|]. intros j Hj.
  destruct (decide (j = S i)) as [->|]; [by exists v1|]. apply Hkj. lia.
Qed.
End scan.

(** A scan over three states of a growing dict: four buckets, then in the
    middle of its rehashing to eight, then (after all have moved) eight. *)
Definition state_after (calls : list (dictResizeEnable * dict_op (K:=Z) (V:=Z))) : dict Z Z :=
  from_option fst dictCreate (dict_run demo_type calls dictCreate).

Definition scan_calls : list (dictResizeEnable * dict_op (K:=Z) (V:=Z)) :=
  pair DICT_RESIZE_ENABLE <$> [OpAdd 1 10; OpAdd 5 50; OpAdd 2 20; OpAdd 7 70; OpAdd 9 90; OpRehash 20].

Definition scan_states : list (dict Z Z) :=
  (fun n => state_after (take n scan_calls)) <$> [4; 5; 5; 6; 6]%nat.

Lemma state_after_wf calls :
  forallb (fun c => op_ok demo_type c.2) calls = true -> wf demo_type (state_after calls).
Proof.
  intros Hok. destruct (dict_run_spec demo_type calls dictCreate (dictCreate_wf _) eq_refl Hok)
    as (d & rs & Hrun & Hw & _). unfold state_after. by rewrite Hrun.
Qed.

Lemma scan_states_wf : Forall (wf demo_type) scan_states.
Proof. repeat (constructor; [apply state_after_wf; vm_compute; reflexivity|]). constructor. Qed.

Lemma dictScan_complete_witness :
  exists es, scan_all scan_states 0 = Some (es, 0) /\
    (dictIsRehashing <$> scan_states) = [false; true; true; false; false] /\
    (forall k, Forall (fun d => k ∈ dom (dict_map d)) scan_states -> k ∈ dictGetKey <$> es).
Proof.
  eexists. split; [vm_compute; reflexivity|]. split; [vm_compute; reflexivity|].
  apply (dictScan_complete demo_type scan_states); [apply scan_states_wf|discriminate|].
  vm_compute. reflexivity.
Defined.

Lemma dictScan_terminates_witness :
  exists n, (0 < n)%nat /\
    scan_cursor (fun i => if Nat.even i then state_after (take 5 scan_calls)
                          else state_after (take 6 scan_calls)) n = Some 0.
Proof.
  destruct (dictScan_terminates demo_type
    (fun i => if Nat.even i then state_after (take 5 scan_calls) else state_after (take 6 scan_calls)))
    as (n & Hn & Hc & _).
  - intros i. destruct (Nat.even i); apply state_after_wf; vm_compute; reflexivity.
  - by exists n.
Defined.
