(* ===== verification/DictIface.v ===== *)
(** * What the hash table promises to its clients

    [DictOps] collects the operations of src/dict.c that src/kvstore.c calls,
    [DictLaws] what it relies on; the instances are the definitions of Dict.v
    and DictScan.v and the lemmas of DictCorrect.v and DictScan.v. *)
From S2P Require Import Prelude Dict DictSpec DictCorrect DictScan.
From Stdlib Require Import ZArith Lia.
From stdpp Require Import prelude gmap list.

#[local] Open Scope Z_scope.
#[local] Abbreviation rev := DictScan.rev.

Class DictOps (K V D : Type) := {
  handle : Type;                     (* a pointer to an entry *)
  d_create : D;
  d_size : D -> Z;
  d_buckets : D -> Z;
  d_rehashing : D -> bool;
  d_paused : D -> bool;
  d_log : D -> list dict_event;      (* the callbacks made so far *)
  d_fetch : dictResizeEnable -> D -> K -> option (D * option V);
  d_find : dictResizeEnable -> D -> K -> option (D * option handle);
  d_add_raw : dictResizeEnable -> D -> K -> option (D * (handle + handle));
  d_set_val : D -> handle -> V -> option D;
  d_delete : dictResizeEnable -> D -> K -> option (D * bool);
  d_unlink_find : dictResizeEnable -> D -> K -> option (D * option handle);
  d_unlink_free : dictResizeEnable -> D -> handle -> option D;
  d_expand : dictResizeEnable -> D -> Z -> option (D * bool);
  d_try_expand : dictResizeEnable -> bool -> D -> Z -> option (D * bool);
  d_shrink_if_needed : dictResizeEnable -> D -> option (D * bool);
  d_expand_if_needed : dictResizeEnable -> D -> option (D * bool);
  d_empty : D -> D;
  d_release : D -> list dict_event;
  d_scan : D -> Z -> option (list (K * option V) * Z)
}.

Class DictLaws (K V D : Type) `{Countable K} `{DictOps K V D} := {
  d_inv : D -> Prop;
  d_map : D -> gmap K (option V);
  d_at : D -> handle -> K -> Prop;
  d_draining : D -> Z;               (* buckets of the table being drained *)
  d_kpos : K -> Z;                   (* position of a key in the scan order *)
  d_valued : Prop;                   (* entries carry values *)

  (** [d'] has contents [m], and its callbacks since [d] account for it. *)
  d_yields (d d' : D) (m : gmap K (option V)) : Prop :=
    d_inv d' /\ d_map d' = m /\
    exists evs, d_log d' = d_log d ++ evs /\
      d_buckets d' = d_buckets d + sum_ev ev_buckets evs /\
      d_draining d' = d_draining d + sum_ev ev_rehashing evs /\
      ev_fold (d_rehashing d) evs = Some (d_rehashing d');

  d_create_law : d_inv d_create /\ d_map d_create = ∅ /\ d_log d_create = [] /\
    d_buckets d_create = 0 /\ d_draining d_create = 0 /\ d_rehashing d_create = false;
  d_size_law d : d_inv d -> d_size d = Z.of_nat (size (d_map d));
  d_fetch_law cr d k : d_inv d ->
    exists d', d_fetch cr d k = Some (d', d_map d !! k ≫= id) /\ d_yields d d' (d_map d) /\
      d_paused d' = d_paused d;
  d_find_law cr d k : d_inv d ->
    exists d' r, d_find cr d k = Some (d', r) /\ d_yields d d' (d_map d) /\ d_paused d' = d_paused d /\
      match r with Some h => d_at d' h k /\ d_map d !! k <> None | None => d_map d !! k = None end;
  d_add_raw_law cr d k : d_inv d ->
    exists d' r, d_add_raw cr d k = Some (d', r) /\ d_paused d' = d_paused d /\
      match r with
      | inl h => d_yields d d' (d_map d) /\ d_at d' h k /\ d_map d !! k <> None
      | inr h => d_yields d d' (<[k := None]> (d_map d)) /\ d_at d' h k /\ d_map d !! k = None
      end;
  d_set_val_law d h k v : d_inv d -> d_at d h k -> d_valued ->
    exists d', d_set_val d h v = Some d' /\ d_yields d d' (<[k := Some v]> (d_map d)) /\
      d_paused d' = d_paused d;
  d_delete_law cr d k : d_inv d ->
    exists d', d_delete cr d k = Some (d', bool_decide (d_map d !! k <> None)) /\
      d_yields d d' (delete k (d_map d)) /\ d_paused d' = d_paused d;
  d_unlink_find_law cr d k : d_inv d ->
    exists d' r, d_unlink_find cr d k = Some (d', r) /\ d_yields d d' (d_map d) /\
      match r with Some h => d_at d' h k /\ d_map d !! k <> None | None => d_map d !! k = None end;
  d_unlink_free_law cr d h k : d_inv d -> d_at d h k ->
    exists d', d_unlink_free cr d h = Some d' /\ d_yields d d' (delete k (d_map d));
  d_expand_law cr d sz : d_inv d -> 0 <= sz ->
    exists d' ok, d_expand cr d sz = Some (d', ok) /\ d_yields d d' (d_map d) /\ d_paused d' = d_paused d;
  d_try_expand_law cr alloc d sz : d_inv d -> 0 <= sz ->
    exists d' ok, d_try_expand cr alloc d sz = Some (d', ok) /\ d_yields d d' (d_map d) /\
      d_paused d' = d_paused d;
  d_shrink_if_needed_law cr d : d_inv d ->
    exists d' ok, d_shrink_if_needed cr d = Some (d', ok) /\ d_yields d d' (d_map d) /\
      d_paused d' = d_paused d;
  d_expand_if_needed_law cr d : d_inv d ->
    exists d' ok, d_expand_if_needed cr d = Some (d', ok) /\ d_yields d d' (d_map d) /\
      d_paused d' = d_paused d;
  d_empty_law d : d_inv d ->
    d_inv (d_empty d) /\ d_map (d_empty d) = ∅ /\ d_buckets (d_empty d) = 0 /\
    d_draining (d_empty d) = 0 /\ d_rehashing (d_empty d) = false /\ d_paused (d_empty d) = false;
  d_release_law d :
    exists from to, d_release d = d_log d ++
      (if d_rehashing d then [RehashingCompleted from to] else []) /\
      (d_rehashing d = true -> from = d_draining d);
  d_draining_law d : d_inv d -> 0 <= d_draining d <= d_buckets d /\
    (d_rehashing d = false -> d_draining d = 0);
  d_kpos_law k : 0 <= d_kpos k < 2 ^ 64;
  d_scan_law d v : d_inv d -> fits_u 64 v ->
    exists es v' n, d_scan d v = Some (es, v') /\ fits_u 64 v' /\
      rev v < n <= 2 ^ 64 /\ rev v' = n mod 2 ^ 64 /\ (v' = 0 \/ v' < d_buckets d) /\
      (forall k x, d_map d !! k = Some x -> rev v <= d_kpos k < n -> (k, x) ∈ es) /\
      (forall k x, (k, x) ∈ es -> d_map d !! k = Some x)
}.

(** ** The hash table of src/dict.c *)

Section instance.
Context {K V : Type} `{Countable K}.
Context (ty : dictType K).

Definition dictRehashingPaused (d : dict K V) : bool := pauserehash d >? 0.

Definition find_handle cr (d : dict K V) k : option (dict K V * option entry_ref) :=
  match dictFind cr ty d k with
  | Some (d, r) => Some (d, match r with Some (ref, _) => Some ref | None => None end)
  | None => None
  end.
Definition add_raw_handle cr (d : dict K V) k : option (dict K V * (entry_ref + entry_ref)) :=
  match dictAddRaw cr ty d k with
  | Some (d, r) => Some (d, match r with inl (ref, _) => inl ref | inr ref => inr ref end)
  | None => None
  end.
Definition unlink_find_handle cr (d : dict K V) k : option (dict K V * option entry_ref) :=
  match dictTwoPhaseUnlinkFind cr ty d k with
  | Some (d, r) => Some (d, match r with Some (ref, _) => Some ref | None => None end)
  | None => None
  end.
Definition scan_kvs (d : dict K V) (v : Z) : option (list (K * option V) * Z) :=
  match dictScan d v with Some (es, v) => Some (kv <$> es, v) | None => None end.

Implicit Types (d : dict K V).

#[export] Instance dict_ops : DictOps K V (dict K V) := {|
  handle := entry_ref;
  d_create := dictCreate;
  d_size := dictSize;
  d_buckets := dictBuckets;
  d_rehashing := dictIsRehashing;
  d_paused := dictRehashingPaused;
  d_log := d_events;
  d_fetch := fun cr d k => dictFetchValue cr ty d k;
  d_find := find_handle;
  d_add_raw := add_raw_handle;
  d_set_val := dictSetVal;
  d_delete := fun cr d k => dictDelete cr ty d k;
  d_unlink_find := unlink_find_handle;
  d_unlink_free := fun cr d h => dictTwoPhaseUnlinkFree cr ty d h;
  d_expand := fun cr d sz => dictExpand cr ty d sz;
  d_try_expand := fun cr alloc d sz => dictTryExpand cr ty alloc d sz;
  d_shrink_if_needed := fun cr d => dictShrinkIfNeeded cr ty d;
  d_expand_if_needed := fun cr d => dictExpandIfNeeded cr ty d;
  d_empty := dictEmpty;
  d_release := dictRelease;
  d_scan := scan_kvs
|}.

(** Automatic resizing is never paused in the dicts of a kvstore. *)
Definition dict_inv (d : dict K V) : Prop := wf ty d /\ pauseAutoResize d = 0.
Definition dict_at (d : dict K V) (h : entry_ref) (k : K) : Prop :=
  exists de, entry_at d h de /\ dictGetKey de = k.

Definition dict_yields (d d' : dict K V) (m : gmap K (option V)) : Prop :=
  dict_inv d' /\ dict_map d' = m /\ announced d d'.

Lemma of_yields d d' m : dict_inv d -> yields ty d d' m ->
  dict_yields d d' m /\ dictRehashingPaused d' = dictRehashingPaused d.
Proof.
  intros [Hw Hp] [W M P A T E]. split; [|unfold dictRehashingPaused; by rewrite P].
  split; [|done]. split; [done|congruence].
Qed.

Lemma of_sim d d' : dict_inv d -> sim ty d d' ->
  dict_yields d d' (dict_map d) /\ dictRehashingPaused d' = dictRehashingPaused d.
Proof. intros Hi Hs. apply of_yields; [done|]. apply sim_yields; [apply Hi|done]. Qed.

Lemma draining_law d : dict_inv d -> 0 <= draining d <= dictBuckets d /\
  (dictIsRehashing d = false -> draining d = 0).
Proof.
  intros [Hw _]. unfold draining, dictBuckets, size0.
  assert (forall e, 0 <= DICTHT_SIZE e) as Hnn.
  { intros e. unfold DICTHT_SIZE. destruct (e =? -1); [lia|apply Z.pow_nonneg; lia]. }
  pose proof (Hnn (ht_size_exp (ht0 d))). pose proof (Hnn (ht_size_exp (ht1 d))).
  destruct (dictIsRehashing d); split; try done; lia.
Qed.

Lemma shrink_if_needed_law cr d : dict_inv d ->
  exists d' ok, dictShrinkIfNeeded cr ty d = Some (d', ok) /\ sim ty d d'.
Proof.
  intros [Hw Hp]. pose proof (dictShrinkIfAutoResizeAllowed_spec cr ty d Hw) as (d' & He & Hs).
  unfold dictShrinkIfAutoResizeAllowed in He. rewrite Hp in He. simpl in He.
  destruct (dictShrinkIfNeeded cr ty d) as [[d1 ok]|]; [|done]. simpl in He. simplify_eq. eauto.
Qed.

Lemma expand_if_needed_law cr d : dict_inv d ->
  exists d' ok, dictExpandIfNeeded cr ty d = Some (d', ok) /\ sim ty d d'.
Proof.
  intros [Hw Hp].
  destruct (dictExpandIfAutoResizeAllowed_spec cr ty d Hw) as (d' & He & Hs & _); [right; lia|].
  unfold dictExpandIfAutoResizeAllowed in He. rewrite Hp in He. simpl in He.
  destruct (dictExpandIfNeeded cr ty d) as [[d1 ok]|]; [|done]. simpl in He. simplify_eq. eauto.
Qed.

Lemma scan_law d v : dict_inv d -> fits_u 64 v ->
  exists es v' n, scan_kvs d v = Some (es, v') /\ fits_u 64 v' /\
    rev v < n <= 2 ^ 64 /\ rev v' = n mod 2 ^ 64 /\ (v' = 0 \/ v' < dictBuckets d) /\
    (forall k x, dict_map d !! k = Some x -> rev v <= rpos ty k < n -> (k, x) ∈ es) /\
    (forall k x, (k, x) ∈ es -> dict_map d !! k = Some x).
Proof.
  intros [Hw _] Hv. unfold scan_kvs. destruct (dictScan_step ty d v Hw Hv)
    as (es & v' & n & -> & Hv' & Hn & Hr & Hb & Hc & Hso). cbn [mbind option_bind fst snd].
  exists (kv <$> es), v', n. split_and!; try done; try lia.
  - intros k x Hk Hr'. apply (dict_map_lookup ty) in Hk; [|done].
    apply elem_of_kvs in Hk as (t & de & Hde & Hkv). rewrite <- Hkv. apply list_elem_of_fmap_2.
    eapply Hc; [done|]. assert (dictGetKey de = k) as -> by (unfold kv in Hkv; congruence). done.
  - intros k x Hkx. apply list_elem_of_fmap in Hkx as (de & Hkv & Hde).
    apply (dict_map_lookup ty); [done|]. apply elem_of_kvs.
    destruct (Hso de Hde) as [t Ht]. exists t, de. done.
Qed.

Lemma add_raw_law cr d k : dict_inv d ->
  exists d' r, add_raw_handle cr d k = Some (d', r) /\
    dictRehashingPaused d' = dictRehashingPaused d /\
    match r with
    | inl h => dict_yields d d' (dict_map d) /\ dict_at d' h k /\ dict_map d !! k <> None
    | inr h => dict_yields d d' (<[k := None]> (dict_map d)) /\ dict_at d' h k /\ dict_map d !! k = None
    end.
Proof.
  intros Hi. unfold add_raw_handle. destruct (dictAddRaw_spec cr ty d k) as (d' & r & -> & Hr); [apply Hi|right; destruct Hi; lia|].
  simpl. destruct r as [[ref de]|ref].
  - destruct Hr as (Hs & Hat & Hk & Hm). destruct (of_sim d d' Hi Hs) as [Hy Hp].
    exists d', (inl ref). split_and!; try done; [by exists de|congruence].
  - destruct Hr as (Hn & Hy & de & Hat & Hk). destruct (of_yields d d' _ Hi Hy) as [Hy' Hp].
    exists d', (inr ref). split_and!; try done. by exists de.
Qed.

Lemma delete_law cr d k : dict_inv d ->
  exists d', dictDelete cr ty d k = Some (d', bool_decide (dict_map d !! k <> None)) /\
    dict_yields d d' (delete k (dict_map d)) /\ dictRehashingPaused d' = dictRehashingPaused d.
Proof.
  intros Hi. unfold dictDelete.
  destruct (dictGenericDelete_spec cr ty d k) as (d' & r & -> & Hr & Hy); [apply Hi|]. simpl.
  exists d'. destruct (of_yields d d' _ Hi Hy) as [Hy' Hp]. split_and!; try done.
  f_equal. f_equal. rewrite <- Hr. by destruct r.
Qed.

Lemma unlink_find_law cr d k : dict_inv d ->
  exists d' r, unlink_find_handle cr d k = Some (d', r) /\
    dict_yields d d' (dict_map d) /\
    match r with
    | Some h => dict_at d' h k /\ dict_map d !! k <> None
    | None => dict_map d !! k = None
    end.
Proof.
  intros Hi. unfold unlink_find_handle. destruct (dictTwoPhaseUnlinkFind_spec cr ty d k) as (d' & r & -> & Hr); [apply Hi|]. simpl.
  destruct r as [[ref de]|]; simpl.
  - destruct Hr as (Hat & Hk & Hm & Hs & Hw & Hm'). exists d', (Some ref). split_and!; [done| | |congruence].
    + destruct (of_sim d _ Hi Hs) as [(Hi' & _ & Ha) _]. split_and!; [|done|exact Ha].
      destruct Hi'. by split.
    + by exists de.
  - destruct Hr as [Hn Hs]. destruct (of_sim d d' Hi Hs) as [Hy _]. exists d', None. done.
Qed.

Lemma unlink_free_law cr d h k : dict_inv d -> dict_at d h k ->
  exists d', dictTwoPhaseUnlinkFree cr ty d h = Some d' /\ dict_yields d d' (delete k (dict_map d)).
Proof.
  intros Hi (de & Hat & Hk).
  destruct (dictTwoPhaseUnlinkFree_spec cr ty d h de) as (d' & -> & Hw & Hp & Hy); [apply Hi|done|].
  exists d'. split; [done|]. rewrite Hk in Hy. destruct (of_yields d _ _ Hi Hy) as [(Hi' & Hm & Ha) _].
  split_and!; [|exact Hm|exact Ha]. destruct Hi'. by split.
Qed.

Lemma find_law cr d k : dict_inv d ->
  exists d' r, find_handle cr d k = Some (d', r) /\ dict_yields d d' (dict_map d) /\
    dictRehashingPaused d' = dictRehashingPaused d /\
    match r with
    | Some h => dict_at d' h k /\ dict_map d !! k <> None
    | None => dict_map d !! k = None
    end.
Proof.
  intros Hi. unfold find_handle. destruct (dictFind_spec cr ty d k) as (d' & r & -> & Hs & Hr); [apply Hi|].
  destruct (of_sim d d' Hi Hs) as [Hy Hp]. simpl. eexists d', _. split; [done|]. split_and!; try done.
  destruct r as [[ref de]|]; [|done]. destruct Hr as (Hat & Hk & Hm).
  split; [by exists de|simpl; congruence].
Qed.

Lemma fetch_law cr d k : dict_inv d ->
  exists d', dictFetchValue cr ty d k = Some (d', dict_map d !! k ≫= id) /\ dict_yields d d' (dict_map d) /\
    dictRehashingPaused d' = dictRehashingPaused d.
Proof.
  intros Hi. unfold dictFetchValue.
  destruct (dictFind_spec cr ty d k) as (d' & r & -> & Hs & Hr); [apply Hi|].
  destruct (of_sim d d' Hi Hs) as [Hy Hp]. simpl. exists d'. split_and!; try done.
  destruct r as [[ref de]|]; [destruct Hr as (_ & _ & ->)|rewrite Hr]; done.
Qed.

Lemma set_val_law d h k v : dict_inv d -> dict_at d h k -> no_value ty = false ->
  exists d', dictSetVal d h v = Some d' /\ dict_yields d d' (<[k := Some v]> (dict_map d)) /\
    dictRehashingPaused d' = dictRehashingPaused d.
Proof.
  intros Hi (de & Hat & <-) Hnv.
  destruct (dictSetVal_spec ty d h de v) as (d' & -> & Hy); [apply Hi|done|done|].
  exists d'. by destruct (of_yields d d' _ Hi Hy).
Qed.

Lemma expand_law cr d sz : dict_inv d -> 0 <= sz ->
  exists d' ok, dictExpand cr ty d sz = Some (d', ok) /\ dict_yields d d' (dict_map d) /\
    dictRehashingPaused d' = dictRehashingPaused d.
Proof.
  intros Hi Hsz. destruct (dictExpand_spec cr ty d sz) as (d' & ok & -> & Hs & _); [apply Hi|done|].
  exists d', ok. by destruct (of_sim d d' Hi Hs).
Qed.

Lemma try_expand_law cr alloc d sz : dict_inv d -> 0 <= sz ->
  exists d' ok, dictTryExpand cr ty alloc d sz = Some (d', ok) /\ dict_yields d d' (dict_map d) /\
    dictRehashingPaused d' = dictRehashingPaused d.
Proof.
  intros Hi Hsz. destruct (dictTryExpand_spec cr ty alloc d sz) as (d' & ok & -> & Hs); [apply Hi|done|].
  exists d', ok. by destruct (of_sim d d' Hi Hs).
Qed.

Lemma empty_law (d : dict K V) : dict_inv d ->
  dict_inv (dictEmpty d) /\ dict_map (dictEmpty d) = ∅ /\ dictBuckets (dictEmpty d) = 0 /\
  draining (dictEmpty d) = 0 /\ dictIsRehashing (dictEmpty d) = false /\
  dictRehashingPaused (dictEmpty d) = false.
Proof. intros _. split; [|done]. split; [apply dictEmpty_wf|done]. Qed.

Lemma release_law (d : dict K V) :
  exists from to, dictRelease d = d_events d ++
    (if dictIsRehashing d then [RehashingCompleted from to] else []) /\
    (dictIsRehashing d = true -> from = draining d).
Proof.
  exists (size0 d), (size1 d). unfold dictRelease, draining.
  destruct (dictIsRehashing d); [done|]. by rewrite app_nil_r.
Qed.

#[export] Instance dict_laws : @DictLaws K V (dict K V) _ _ dict_ops.
Proof.
  refine (@Build_DictLaws K V (dict K V) _ _ dict_ops dict_inv dict_map dict_at draining (rpos ty)
    (no_value ty = false) _ _ fetch_law find_law add_raw_law set_val_law delete_law unlink_find_law
    unlink_free_law expand_law try_expand_law _ _ empty_law release_law draining_law (rpos_range ty) scan_law).
  - split_and!; try done. split; [apply dictCreate_wf|done].
  - intros d [Hw _]. by apply (dictSize_map ty).
  - intros cr d Hi. destruct (shrink_if_needed_law cr d Hi) as (d' & ok & He & Hs).
    exists d', ok. by destruct (of_sim d d' Hi Hs).
  - intros cr d Hi. destruct (expand_if_needed_law cr d Hi) as (d' & ok & He & Hs).
    exists d', ok. by destruct (of_sim d d' Hi Hs).
Defined.
End instance.
