(* ===== verification/Kvstore.v ===== *)
(** * The array of dicts (src/kvstore.c)

    A kvstore holds [2 ^ num_dicts_bits] dicts (one per hash slot in cluster
    mode), allocated on demand, together with counters maintained by the
    operations and by the rehashing callbacks, and a binary indexed tree over
    the sizes of the dicts.  The dict operations come from the interface
    [DictOps]; the callbacks a dict operation makes are replayed on the
    kvstore right after it (the callbacks touch only the kvstore, and the dict
    code never reads it).  A list node of [kvs->rehashing] is represented by
    the index of its dict.  [None] is an index out of bounds, a failed
    assertion or a NULL dereference. *)
From S2P Require Import Prelude Dict DictSpec DictIface.
From Stdlib Require Import ZArith Lia.
From stdpp Require Import prelude gmap list.

#[local] Open Scope Z_scope.

(** ** The binary indexed tree *)

(** [while (idx > 0) { sum += index[idx]; idx -= (idx & -idx); }] *)
Fixpoint bit_read (fuel : nat) (index : list Z) (idx sum : Z) : option Z :=
  match fuel with
  | O => None
  | S fuel =>
      if idx >? 0 then
        v ← index !! Z.to_nat idx;
        bit_read fuel index (idx - Z.land idx (- idx)) (sum + v)
      else Some sum
  end.

(** [while (idx <= num_dicts) { .. index[idx] += delta; idx += (idx & -idx); }] *)
Fixpoint bit_add (fuel : nat) (index : list Z) (num_dicts idx delta : Z) : option (list Z) :=
  match fuel with
  | O => None
  | S fuel =>
      if idx <=? num_dicts then
        v ← index !! Z.to_nat idx;
        if (delta <? 0) && negb (v >=? Z.abs delta) then None
        else bit_add fuel (<[Z.to_nat idx := v + delta]> index) num_dicts
               (idx + Z.land idx (- idx)) delta
      else Some index
  end.

(** [for (int i = bit_mask; i != 0; i >>= 1) ..] *)
Fixpoint bit_find (fuel : nat) (index : list Z) (i result target : Z) : option Z :=
  match fuel with
  | O => None
  | S fuel =>
      if i =? 0 then Some result
      else
        let current := result + i in
        v ← index !! Z.to_nat current;
        if target >? v then bit_find fuel index (Z.shiftr i 1) current (target - v)
        else bit_find fuel index (Z.shiftr i 1) result target
  end.

Section kvstore.
Context {K V D : Type} `{Countable K} `{!DictOps K V D}.

Record kvstore := Kvstore {
  flag_on_demand : bool;        (* KVSTORE_ALLOCATE_DICTS_ON_DEMAND *)
  flag_free_empty : bool;       (* KVSTORE_FREE_EMPTY_DICTS *)
  num_dicts_bits : Z;
  dicts : list (option D);
  rehashing : list Z;
  resize_cursor : Z;
  allocated_dicts : Z;
  non_empty_dicts : Z;
  key_count : Z;
  bucket_count : Z;
  dict_size_index : list Z;     (* [] is the NULL of a single dict *)
  overhead_hashtable_lut : Z;
  overhead_hashtable_rehashing : Z
}.

Implicit Types (kvs : kvstore) (d : D).

Definition num_dicts kvs : Z := Z.shiftl 1 (num_dicts_bits kvs).

Definition set_dicts kvs (ds : list (option D)) (allocated : Z) : kvstore :=
  Kvstore (flag_on_demand kvs) (flag_free_empty kvs) (num_dicts_bits kvs) ds (rehashing kvs)
    (resize_cursor kvs) allocated (non_empty_dicts kvs) (key_count kvs) (bucket_count kvs)
    (dict_size_index kvs) (overhead_hashtable_lut kvs) (overhead_hashtable_rehashing kvs).

Definition set_counts kvs (keys non_empty : Z) (index : list Z) : kvstore :=
  Kvstore (flag_on_demand kvs) (flag_free_empty kvs) (num_dicts_bits kvs) (dicts kvs) (rehashing kvs)
    (resize_cursor kvs) (allocated_dicts kvs) non_empty keys (bucket_count kvs)
    index (overhead_hashtable_lut kvs) (overhead_hashtable_rehashing kvs).

Definition set_rehash kvs (rh : list Z) (buckets lut ovh : Z) : kvstore :=
  Kvstore (flag_on_demand kvs) (flag_free_empty kvs) (num_dicts_bits kvs) (dicts kvs) rh
    (resize_cursor kvs) (allocated_dicts kvs) (non_empty_dicts kvs) (key_count kvs) buckets
    (dict_size_index kvs) lut ovh.

Definition set_cursor kvs (c : Z) : kvstore :=
  Kvstore (flag_on_demand kvs) (flag_free_empty kvs) (num_dicts_bits kvs) (dicts kvs) (rehashing kvs)
    c (allocated_dicts kvs) (non_empty_dicts kvs) (key_count kvs) (bucket_count kvs)
    (dict_size_index kvs) (overhead_hashtable_lut kvs) (overhead_hashtable_rehashing kvs).

(** [kvs->dicts[didx]]; the outer [None] is an index out of bounds, the inner
    one the NULL pointer. *)
Definition kvstoreGetDict kvs (didx : Z) : option (option D) :=
  if 0 <=? didx then dicts kvs !! Z.to_nat didx else None.

Definition kvstoreDictSize kvs (didx : Z) : option Z :=
  d ← kvstoreGetDict kvs didx;
  Some match d with Some d => d_size d | None => 0 end.

Definition kvstoreDictBuckets kvs (didx : Z) : option Z :=
  d ← kvstoreGetDict kvs didx;
  Some match d with Some d => d_buckets d | None => 0 end.

Definition kvstoreDictIsRehashingPaused kvs (didx : Z) : option bool :=
  d ← kvstoreGetDict kvs didx;
  Some match d with Some d => d_paused d | None => false end.

Definition kvstoreSize kvs : option Z :=
  if negb (num_dicts kvs =? 1) then Some (key_count kvs) else kvstoreDictSize kvs 0.

Definition kvstoreBuckets kvs : option Z :=
  if negb (num_dicts kvs =? 1) then Some (bucket_count kvs) else kvstoreDictBuckets kvs 0.

Definition cumulativeKeyCountRead kvs (didx : Z) : option Z :=
  if num_dicts kvs =? 1 then (if didx =? 0 then kvstoreSize kvs else None)
  else bit_read (S (Z.to_nat (didx + 1))) (dict_size_index kvs) (didx + 1) 0.

Definition addDictIndexToCursor kvs (didx cursor : Z) : Z :=
  if num_dicts kvs =? 1 then cursor
  else if didx <? 0 then cursor
  else Z.lor (wrapu 64 (Z.shiftl cursor (num_dicts_bits kvs))) didx.

(** The index and the rest of the cursor. *)
Definition getAndClearDictIndexFromCursor kvs (cursor : Z) : Z * Z :=
  if num_dicts kvs =? 1 then (0, cursor)
  else (Z.land cursor (num_dicts kvs - 1), Z.shiftr cursor (num_dicts_bits kvs)).

Definition cumulativeKeyCountAdd kvs (didx delta : Z) : option kvstore :=
  let keys := key_count kvs + delta in
  od ← kvstoreGetDict kvs didx;
  d ← od;
  let dsize := d_size d in
  let non_empty_dicts_delta := if dsize =? 1 then 1 else if dsize =? 0 then -1 else 0 in
  let non_empty := non_empty_dicts kvs + non_empty_dicts_delta in
  if num_dicts kvs =? 1 then Some (set_counts kvs keys non_empty (dict_size_index kvs))
  else
    index ← bit_add (S (Z.to_nat (num_dicts kvs))) (dict_size_index kvs) (num_dicts kvs) (didx + 1) delta;
    Some (set_counts kvs keys non_empty index).

(** ** Callbacks *)

Definition kvstoreDictRehashingStarted kvs (didx from to : Z) : kvstore :=
  set_rehash kvs (rehashing kvs ++ [didx]) (bucket_count kvs + to)
    (overhead_hashtable_lut kvs + to) (overhead_hashtable_rehashing kvs + from).

Definition kvstoreDictRehashingCompleted kvs (didx from to : Z) : kvstore :=
  set_rehash kvs (filter (fun i => i <> didx) (rehashing kvs)) (bucket_count kvs - from)
    (overhead_hashtable_lut kvs - from) (overhead_hashtable_rehashing kvs - from).

Definition rehash_callback (didx : Z) kvs (ev : dict_event) : kvstore :=
  match ev with
  | RehashingStarted from to => kvstoreDictRehashingStarted kvs didx from to
  | RehashingCompleted from to => kvstoreDictRehashingCompleted kvs didx from to
  end.

(** The callbacks [log'] has beyond [log]. *)
Definition replay kvs (didx : Z) (log log' : list dict_event) : kvstore :=
  foldl (rehash_callback didx) kvs (drop (length log) log').

(** Dict [didx] went from [d] to [d']. *)
Definition put_dict kvs (didx : Z) d d' : kvstore :=
  replay (set_dicts kvs (<[Z.to_nat didx := Some d']> (dicts kvs)) (allocated_dicts kvs))
    didx (d_log d) (d_log d').

(** ** Allocation *)

Definition createDictIfNeeded kvs (didx : Z) : option (kvstore * D) :=
  od ← kvstoreGetDict kvs didx;
  match od with
  | Some d => Some (kvs, d)
  | None => Some (set_dicts kvs (<[Z.to_nat didx := Some d_create]> (dicts kvs)) (allocated_dicts kvs + 1),
                  d_create)
  end.

Definition freeDictIfNeeded kvs (didx : Z) : option kvstore :=
  if negb (flag_free_empty kvs) then Some kvs
  else
    od ← kvstoreGetDict kvs didx;
    match od with
    | None => Some kvs
    | Some d =>
        size ← kvstoreDictSize kvs didx;
        paused ← kvstoreDictIsRehashingPaused kvs didx;
        if negb (size =? 0) || paused then Some kvs
        else
          let kvs := replay kvs didx (d_log d) (d_release d) in
          Some (set_dicts kvs (<[Z.to_nat didx := None]> (dicts kvs)) (allocated_dicts kvs - 1))
    end.

Definition kvstoreCreate (bits : Z) (on_demand free_empty : bool) : option kvstore :=
  if negb (bits <=? 16) then None
  else
    let n := Z.to_nat (Z.shiftl 1 bits) in
    Some (Kvstore on_demand free_empty bits
      (replicate n (if on_demand then None else Some d_create)) [] 0
      (if on_demand then 0 else Z.of_nat n) 0 0 0
      (if Z.shiftl 1 bits >? 1 then replicate (S n) 0 else []) 0 0).

(** ** Searching by key index *)

Definition kvstoreFindDictIndexByKeyIndex kvs (target : Z) : option Z :=
  size ← kvstoreSize kvs;
  if (num_dicts kvs =? 1) || (size =? 0) then Some 0
  else if negb (target <=? size) then None
  else bit_find (S (S (Z.to_nat (num_dicts_bits kvs)))) (dict_size_index kvs) (num_dicts kvs) 0 target.

Definition kvstoreGetFirstNonEmptyDictIndex kvs : option Z := kvstoreFindDictIndexByKeyIndex kvs 1.

Definition kvstoreGetNextNonEmptyDictIndex kvs (didx : Z) : option Z :=
  if num_dicts kvs =? 1 then (if didx =? 0 then Some (-1) else None)
  else
    n ← cumulativeKeyCountRead kvs didx;
    let next_key := n + 1 in
    size ← kvstoreSize kvs;
    if next_key <=? size then kvstoreFindDictIndexByKeyIndex kvs next_key else Some (-1).

(** [rand] is the value of [randomULong()]. *)
Definition kvstoreGetFairRandomDictIndex kvs (rand : Z) : option Z :=
  size ← kvstoreSize kvs;
  kvstoreFindDictIndexByKeyIndex kvs (if negb (size =? 0) then rand mod size + 1 else 0).

(** ** Operations on one dict *)

Definition kvstoreDictFetchValue cr kvs (didx : Z) (key : K) : option (kvstore * option V) :=
  od ← kvstoreGetDict kvs didx;
  match od with
  | None => Some (kvs, None)
  | Some d => r ← d_fetch cr d key; Some (put_dict kvs didx d r.1, r.2)
  end.

Definition kvstoreDictFind cr kvs (didx : Z) (key : K) : option (kvstore * option handle) :=
  od ← kvstoreGetDict kvs didx;
  match od with
  | None => Some (kvs, None)
  | Some d => r ← d_find cr d key; Some (put_dict kvs didx d r.1, r.2)
  end.

Definition kvstoreDictAddRaw cr kvs (didx : Z) (key : K) : option (kvstore * (handle + handle)) :=
  r ← createDictIfNeeded kvs didx;
  let '(kvs, d) := r in
  r ← d_add_raw cr d key;
  let '(d', ret) := r in
  let kvs := put_dict kvs didx d d' in
  match ret with
  | inr _ => kvs ← cumulativeKeyCountAdd kvs didx 1; Some (kvs, ret)
  | inl _ => Some (kvs, ret)
  end.

Definition kvstoreDictSetVal kvs (didx : Z) (de : handle) (val : V) : option kvstore :=
  od ← kvstoreGetDict kvs didx;
  d ← od;
  d' ← d_set_val d de val;
  Some (put_dict kvs didx d d').

Definition kvstoreDictTwoPhaseUnlinkFind cr kvs (didx : Z) (key : K) : option (kvstore * option handle) :=
  od ← kvstoreGetDict kvs didx;
  match od with
  | None => Some (kvs, None)
  | Some d => r ← d_unlink_find cr d key; Some (put_dict kvs didx d r.1, r.2)
  end.

Definition kvstoreDictTwoPhaseUnlinkFree cr kvs (didx : Z) (he : handle) : option kvstore :=
  od ← kvstoreGetDict kvs didx;
  d ← od;
  d' ← d_unlink_free cr d he;
  kvs ← cumulativeKeyCountAdd (put_dict kvs didx d d') didx (-1);
  freeDictIfNeeded kvs didx.

Definition kvstoreDictDelete cr kvs (didx : Z) (key : K) : option (kvstore * bool) :=
  od ← kvstoreGetDict kvs didx;
  match od with
  | None => Some (kvs, false)
  | Some d =>
      r ← d_delete cr d key;
      let '(d', ret) := r in
      let kvs := put_dict kvs didx d d' in
      if (ret : bool) then
        kvs ← cumulativeKeyCountAdd kvs didx (-1);
        kvs ← freeDictIfNeeded kvs didx;
        Some (kvs, true)
      else Some (kvs, false)
  end.

Definition kvstoreDictExpand cr kvs (didx size : Z) : option (kvstore * bool) :=
  if size =? 0 then Some (kvs, false)
  else
    r ← createDictIfNeeded kvs didx;
    let '(kvs, d) := r in
    r ← d_expand cr d size;
    Some (put_dict kvs didx d r.1, r.2).

Definition kvstoreDictTryExpand cr (alloc : bool) kvs (didx size : Z) : option (kvstore * bool) :=
  if size =? 0 then Some (kvs, false)
  else
    r ← createDictIfNeeded kvs didx;
    let '(kvs, d) := r in
    r ← d_try_expand cr alloc d size;
    Some (put_dict kvs didx d r.1, r.2).

(** ** Operations on all dicts *)

(** The loop of [kvstoreEmpty]: [rehashing_node] is cleared first, so the
    callback [dictEmpty] makes only adjusts the counters, which are all reset
    afterwards. *)
Fixpoint kvstoreEmpty_loop (todo : nat) kvs (didx : Z) : option kvstore :=
  match todo with
  | O => Some kvs
  | S todo =>
      od ← kvstoreGetDict kvs didx;
      match od with
      | None => kvstoreEmpty_loop todo kvs (didx + 1)
      | Some d =>
          kvs ← freeDictIfNeeded (set_dicts kvs (<[Z.to_nat didx := Some (d_empty d)]> (dicts kvs))
                                    (allocated_dicts kvs)) didx;
          kvstoreEmpty_loop todo kvs (didx + 1)
      end
  end.

Definition kvstoreEmpty kvs : option kvstore :=
  kvs ← kvstoreEmpty_loop (Z.to_nat (num_dicts kvs)) kvs 0;
  let index := match dict_size_index kvs with
               | [] => []
               | _ => replicate (S (Z.to_nat (num_dicts kvs))) 0
               end in
  Some (set_cursor (set_counts (set_rehash kvs [] 0 0 0) 0 0 index) 0).

(** [if (dictShrinkIfNeeded(d) == DICT_ERR) dictExpandIfNeeded(d);] *)
Definition try_resize_dict cr kvs (didx : Z) d : option kvstore :=
  r ← d_shrink_if_needed cr d;
  let '(d1, ok) := r in
  let kvs := put_dict kvs didx d d1 in
  if (ok : bool) then Some kvs
  else r ← d_expand_if_needed cr d1; Some (put_dict kvs didx d1 r.1).

Fixpoint kvstoreTryResizeDicts_loop cr (limit : nat) kvs : option kvstore :=
  match limit with
  | O => Some kvs
  | S limit =>
      let didx := resize_cursor kvs in
      od ← kvstoreGetDict kvs didx;
      kvs ← match od with None => Some kvs | Some d => try_resize_dict cr kvs didx d end;
      kvstoreTryResizeDicts_loop cr limit (set_cursor kvs ((didx + 1) mod num_dicts kvs))
  end.

Definition kvstoreTryResizeDicts cr kvs (limit : Z) : option kvstore :=
  let limit := if limit >? num_dicts kvs then num_dicts kvs else limit in
  kvstoreTryResizeDicts_loop cr (Z.to_nat limit) kvs.

(** [skip_cb] by dict index; [alloc] says which trial allocations succeed. *)
Fixpoint kvstoreExpand_loop cr (alloc : Z -> bool) (todo : nat) kvs (i newsize : Z) (try_expand : bool)
    (skip_cb : Z -> bool) : option (kvstore * bool) :=
  match todo with
  | O => Some (kvs, true)
  | S todo =>
      if skip_cb i then kvstoreExpand_loop cr alloc todo kvs (i + 1) newsize try_expand skip_cb
      else if try_expand then
        r ← kvstoreDictTryExpand cr (alloc i) kvs i newsize;
        let '(kvs, ok) := r in
        if negb ok then Some (kvs, false)
        else kvstoreExpand_loop cr alloc todo kvs (i + 1) newsize try_expand skip_cb
      else
        r ← kvstoreDictExpand cr kvs i newsize;
        kvstoreExpand_loop cr alloc todo r.1 (i + 1) newsize try_expand skip_cb
  end.

Definition kvstoreExpand cr alloc kvs (newsize : Z) (try_expand : bool) (skip_cb : Z -> bool) :
    option (kvstore * bool) :=
  if newsize =? 0 then Some (kvs, true)
  else kvstoreExpand_loop cr alloc (Z.to_nat (num_dicts kvs)) kvs 0 newsize try_expand skip_cb.

(** Scanning one dict, unless it is NULL or to be skipped: entries, dict
    cursor, and whether it was skipped. *)
Definition scan_dict kvs (didx cursor : Z) (skip_cb : D -> bool) :
    option (kvstore * list (K * option V) * Z * bool) :=
  od ← kvstoreGetDict kvs didx;
  match od with
  | None => Some (kvs, [], 0, true)
  | Some d =>
      if skip_cb d then Some (kvs, [], 0, true)
      else
        r ← d_scan d cursor;
        kvs ← freeDictIfNeeded kvs didx;
        Some (kvs, r.1, r.2, false)
  end.

(** The entries reported and the next cursor; the callback does not modify
    the kvstore. *)
Definition kvstoreScan kvs (cursor onlydidx : Z) (skip_cb : D -> bool) :
    option (kvstore * list (K * option V) * Z) :=
  let '(didx, cursor) := getAndClearDictIndexFromCursor kvs cursor in
  if (0 <=? onlydidx) && (didx >? onlydidx) then Some (kvs, [], 0)
  else if (0 <=? onlydidx) && (didx <? onlydidx) && negb (onlydidx <? num_dicts kvs) then None
  else
    let '(didx, cursor) :=
      if (0 <=? onlydidx) && (didx <? onlydidx) then (onlydidx, 0) else (didx, cursor) in
    r ← scan_dict kvs didx cursor skip_cb;
    let '(kvs, es, _cursor, skip) := r in
    if (_cursor =? 0) || skip then
      if 0 <=? onlydidx then Some (kvs, es, 0)
      else
        didx ← kvstoreGetNextNonEmptyDictIndex kvs didx;
        if didx =? -1 then Some (kvs, es, 0)
        else Some (kvs, es, addDictIndexToCursor kvs didx _cursor)
    else
      if didx =? -1 then Some (kvs, es, 0)
      else Some (kvs, es, addDictIndexToCursor kvs didx _cursor).
End kvstore.
Arguments kvstore D : clear implicits.
