(* ===== verification/KvstoreSpec.v ===== *)
(** * The binary indexed tree of the kvstore

    The tree over the sizes [s] of the dicts stores at node [i] (1-based) the
    sum over the [lb i] positions ending at [i], where [lb i = i & -i].
    Reading, updating and searching it, against prefix sums. *)
From S2P Require Import Prelude Dict DictSpec DictIface Kvstore.
From Stdlib Require Import ZArith Lia Znumtheory.
From stdpp Require Import prelude gmap list.

#[local] Open Scope Z_scope.

(** ** The lowest set bit *)

Definition lb (i : Z) : Z := Z.land i (- i).

Lemma lb_double j : lb (2 * j) = 2 * lb j.
Proof.
  unfold lb. replace (- (2 * j)) with (2 * (- j)) by lia. rewrite !(Z.mul_comm 2).
  change 2 with (2 ^ 1). rewrite <- !Z.shiftl_mul_pow2 by lia. symmetry. apply Z.shiftl_land.
Qed.

Lemma lb_odd j : lb (2 * j + 1) = 1.
Proof.
  unfold lb. replace (- (2 * j + 1)) with (Z.lnot (2 * j)) by (unfold Z.lnot; lia).
  apply Z.bits_inj'. intros i Hi. rewrite Z.land_spec, Z.lnot_spec by done.
  destruct (Z.eq_dec i 0) as [->|Hne].
  - by rewrite Z.testbit_odd_0, Z.testbit_even_0.
  - replace i with (Z.succ (i - 1)) by lia.
    rewrite Z.testbit_odd_succ, Z.testbit_even_succ by lia. rewrite andb_negb_r.
    change 1 with (2 * 0 + 1). rewrite Z.testbit_odd_succ by lia. by rewrite Z.testbit_0_l.
Qed.

Lemma lb_spec_nat n i :
  0 < i <= Z.of_nat n -> exists k o, 0 <= k /\ 0 <= o /\ i = 2 ^ k * (2 * o + 1) /\ lb i = 2 ^ k.
Proof.
  revert i. induction n as [|n IH]; intros i Hi; [lia|].
  destruct (Z.Even_or_Odd i) as [[j ->]|[j ->]].
  - destruct (IH j) as (k & o & Hk & Ho & Hj & Hlb); [lia|]. exists (k + 1), o.
    rewrite lb_double, Hlb, Z.pow_add_r by lia. split_and!; lia.
  - exists 0, j. rewrite lb_odd. lia.
Qed.

Lemma lb_spec i : 0 < i -> exists k o, 0 <= k /\ 0 <= o /\ i = 2 ^ k * (2 * o + 1) /\ lb i = 2 ^ k.
Proof. intros Hi. apply (lb_spec_nat (Z.to_nat i)). lia. Qed.

Lemma lb_range i : 0 < i -> 0 < lb i <= i.
Proof.
  intros Hi. destruct (lb_spec i Hi) as (k & o & Hk & Ho & He & ->).
  pose proof (Z.pow_pos_nonneg 2 k ltac:(lia) Hk). nia.
Qed.

(** [lb i] is the largest power of two that divides [i]. *)
Lemma pow2_divide_lb i m : 0 < i -> 0 <= m -> (2 ^ m | i) -> (2 ^ m | lb i).
Proof.
  intros Hi Hm Hd. destruct (lb_spec i Hi) as (k & o & Hk & Ho & He & ->).
  destruct (Z.le_gt_cases m k) as [Hle|Hgt].
  - exists (2 ^ (k - m)). rewrite <- Z.pow_add_r by lia. f_equal. lia.
  - exfalso. rewrite He in Hd. replace m with (k + (1 + (m - k - 1))) in Hd by lia.
    rewrite Z.pow_add_r in Hd by lia. pose proof (Z.pow_pos_nonneg 2 k ltac:(lia) Hk).
    apply Z.mul_divide_cancel_l in Hd; [|lia]. destruct Hd as [q Hq].
    rewrite Z.pow_add_r in Hq by lia. change (2 ^ 1) with 2 in Hq. lia.
Qed.

Lemma lb_divide i : 0 < i -> (lb i | i).
Proof.
  intros Hi. destruct (lb_spec i Hi) as (k & o & _ & _ & He & ->). exists (2 * o + 1). lia.
Qed.

(** Node [i] counts position [p]. *)
Definition covers (i p : Z) : Prop := i - lb i < p <= i.

Lemma covers_self p : 0 < p -> covers p p.
Proof. intros Hp. pose proof (lb_range p Hp). unfold covers. lia. Qed.

Lemma covers_gap i j p : 0 < i -> covers i p -> i < j < i + lb i -> ~ covers j p.
Proof.
  intros Hi Hc Hj. unfold covers in *.
  destruct (lb_spec i Hi) as (k & o & Hk & Ho & He & Hlb).
  destruct (lb_spec j ltac:(lia)) as (m & q & Hm & Hq & Hje & Hjlb).
  pose proof (Z.pow_pos_nonneg 2 m ltac:(lia) Hm) as Hpm.
  enough (2 ^ m <= j - i) by lia.
  assert (m < k) as Hmk.
  { destruct (Z.lt_ge_cases m k) as [|Hge]; [done|]. exfalso.
    assert ((2 ^ k | j - i)) as Hd.
    { apply Z.divide_sub_r.
      - rewrite Hje. apply Z.divide_mul_l. exists (2 ^ (m - k)).
        rewrite <- Z.pow_add_r by lia. f_equal. lia.
      - rewrite He. apply Z.divide_mul_l, Z.divide_refl. }
    apply Z.divide_pos_le in Hd; lia. }
  apply Z.divide_pos_le; [lia|]. apply Z.divide_sub_r.
  - rewrite Hje. apply Z.divide_mul_l, Z.divide_refl.
  - rewrite He. apply Z.divide_mul_l. exists (2 ^ (k - m)). rewrite <- Z.pow_add_r by lia. f_equal. lia.
Qed.

Lemma covers_next i p : 0 < i -> covers i p -> covers (i + lb i) p.
Proof.
  intros Hi Hc. unfold covers in *. pose proof (lb_range i Hi) as Hr.
  destruct (lb_spec i Hi) as (k & o & Hk & Ho & He & Hlb).
  assert (2 * lb i <= lb (i + lb i)) as Hd; [|lia].
  apply Z.divide_pos_le; [apply lb_range; lia|]. rewrite Hlb, <- Z.pow_succ_r by done.
  apply pow2_divide_lb; [lia|lia|]. exists (o + 1).
  rewrite Z.pow_succ_r by lia. lia.
Qed.

Lemma lb_step r m : 0 <= r -> 0 <= m -> (2 ^ (m + 1) | r) -> lb (r + 2 ^ m) = 2 ^ m.
Proof.
  intros Hr Hm [q Hq]. pose proof (Z.pow_pos_nonneg 2 m ltac:(lia) Hm) as Hp.
  destruct (lb_spec (r + 2 ^ m) ltac:(lia)) as (k & o & Hk & Ho & He & Hlb). rewrite Hlb.
  f_equal. rewrite Z.pow_add_r in Hq by lia. change (2 ^ 1) with 2 in Hq.
  assert (r + 2 ^ m = 2 ^ m * (2 * q + 1)) as He' by lia. rewrite He' in He.
  destruct (Z.lt_trichotomy k m) as [Hlt|[|Hgt]]; [|done|]; exfalso.
  - replace m with (k + (1 + (m - k - 1))) in He by lia. rewrite !Z.pow_add_r in He by lia.
    pose proof (Z.pow_pos_nonneg 2 k ltac:(lia) Hk). rewrite <- !Z.mul_assoc in He.
    apply Z.mul_reg_l in He; [|lia]. change (2 ^ 1) with 2 in He. lia.
  - replace k with (m + (1 + (k - m - 1))) in He by lia. rewrite !Z.pow_add_r in He by lia.
    rewrite <- !Z.mul_assoc in He.
    apply Z.mul_reg_l in He; [|lia]. change (2 ^ 1) with 2 in He. lia.
Qed.

(** ** Prefix sums and the tree *)

Definition zsum (l : list Z) : Z := foldr Z.add 0 l.
Definition psum (s : list Z) (n : Z) : Z := zsum (take (Z.to_nat n) s).

Lemma zsum_app l1 l2 : zsum (l1 ++ l2) = zsum l1 + zsum l2.
Proof. unfold zsum. induction l1; simpl; lia. Qed.

Lemma zsum_nonneg l : Forall (Z.le 0) l -> 0 <= zsum l.
Proof. unfold zsum. induction 1; simpl; lia. Qed.

Lemma psum_0 s : psum s 0 = 0.
Proof. reflexivity. Qed.

Lemma psum_all s : psum s (Z.of_nat (length s)) = zsum s.
Proof. unfold psum. by rewrite Nat2Z.id, firstn_all. Qed.

Lemma psum_succ s n x : 0 <= n -> s !! Z.to_nat n = Some x -> psum s (n + 1) = psum s n + x.
Proof.
  intros Hn Hx. unfold psum. replace (Z.to_nat (n + 1)) with (S (Z.to_nat n)) by lia.
  rewrite (take_S_r s _ x Hx), zsum_app. unfold zsum at 2. simpl. lia.
Qed.

Lemma psum_mono s a b : Forall (Z.le 0) s -> 0 <= a <= b -> psum s a <= psum s b.
Proof.
  intros Hs Hab. unfold psum. replace (Z.to_nat b) with (Z.to_nat a + (Z.to_nat b - Z.to_nat a))%nat by lia.
  rewrite <- take_take_drop, zsum_app.
  pose proof (zsum_nonneg (take (Z.to_nat b - Z.to_nat a) (drop (Z.to_nat a) s))
    ltac:(by apply Forall_take, Forall_drop)). lia.
Qed.

(** Adding [delta] at position [i] (0-based). *)
Lemma psum_insert s i x delta n :
  s !! i = Some x -> 0 <= n ->
  psum (<[i := x + delta]> s) n = psum s n + (if Z.of_nat i <? n then delta else 0).
Proof.
  intros Hi Hn. unfold psum. destruct (Z.ltb_spec (Z.of_nat i) n).
  - pose proof (lookup_lt_Some _ _ _ Hi) as Hlt.
    assert (take (Z.to_nat n) (<[i := x + delta]> s) = <[i := x + delta]> (take (Z.to_nat n) s)) as ->.
    { apply list_eq. intros j. destruct (decide (j < Z.to_nat n)%nat).
      - rewrite lookup_take_lt by done. destruct (decide (i = j)) as [->|].
        + rewrite !list_lookup_insert_eq; [done| |done]. rewrite length_take. lia.
        + rewrite !list_lookup_insert_ne by done. by rewrite lookup_take_lt.
      - rewrite lookup_take_ge by lia. symmetry. apply lookup_ge_None. rewrite length_insert, length_take. lia. }
    assert (take (Z.to_nat n) s !! i = Some x) as Hx by (rewrite lookup_take_lt; [done|lia]).
    rewrite (insert_take_drop _ i (x + delta)) by (by eapply lookup_lt_Some).
    rewrite <- (take_drop_middle _ _ _ Hx) at 3. rewrite !zsum_app. unfold zsum. simpl. lia.
  - rewrite take_insert_ge by lia. lia.
Qed.

(** [index] is the tree over [s]. *)
Definition bit_inv (s index : list Z) : Prop :=
  length index = S (length s) /\
  forall i, 1 <= i <= Z.of_nat (length s) -> index !! Z.to_nat i = Some (psum s i - psum s (i - lb i)).

Lemma bit_inv_zero n : bit_inv (replicate n 0) (replicate (S n) 0).
Proof.
  split; [by rewrite !length_replicate|]. intros i Hi. rewrite length_replicate in Hi.
  assert (forall m, psum (replicate n 0) m = 0) as Hz.
  { intros m. unfold psum. rewrite take_replicate. generalize (Nat.min (Z.to_nat m) n).
    intros k. unfold zsum. by induction k. }
  rewrite !Hz. apply lookup_replicate. split; [done|lia].
Qed.

Lemma bit_read_spec fuel s index idx sum :
  bit_inv s index -> 0 <= idx <= Z.of_nat (length s) -> idx < Z.of_nat fuel ->
  bit_read fuel index idx sum = Some (sum + psum s idx).
Proof.
  intros [_ Hix]. revert idx sum. induction fuel as [|fuel IH]; intros idx sum Hidx Hf; [lia|].
  cbn [bit_read]. destruct (Z.gtb_spec idx 0) as [Hpos|Hz].
  - rewrite Hix by lia. simpl. fold (lb idx). pose proof (lb_range idx Hpos).
    rewrite IH by lia. f_equal. lia.
  - assert (idx = 0) as -> by lia. rewrite psum_0. f_equal. lia.
Qed.

(** The update loop has treated the nodes below [idx]. *)
Lemma bit_add_loop fuel s index p x delta idx :
  Forall (Z.le 0) s -> length index = S (length s) ->
  1 <= p <= Z.of_nat (length s) -> s !! Z.to_nat (p - 1) = Some x -> 0 <= x + delta ->
  0 < idx -> covers idx p -> Z.max 0 (Z.of_nat (length s) - idx + 1) < Z.of_nat fuel ->
  (forall i, 1 <= i <= Z.of_nat (length s) ->
     index !! Z.to_nat i = Some (psum s i - psum s (i - lb i)
                                 + if bool_decide (covers i p /\ i < idx) then delta else 0)) ->
  exists index', bit_add fuel index (Z.of_nat (length s)) idx delta = Some index' /\
    length index' = S (length s) /\
    forall i, 1 <= i <= Z.of_nat (length s) ->
      index' !! Z.to_nat i = Some (psum s i - psum s (i - lb i)
                                   + if bool_decide (covers i p) then delta else 0).
Proof.
  intros Hs Hlen Hp Hx Hxd. revert index idx Hlen.
  induction fuel as [|fuel IH]; intros index idx Hlen Hpos Hc Hf Hix; [lia|]. cbn [bit_add].
  destruct (Z.leb_spec idx (Z.of_nat (length s))) as [Hle|Hgt].
  2:{ exists index. split_and!; [done|done|]. intros i Hi. rewrite Hix by done.
      rewrite (bool_decide_ext (covers i p /\ i < idx) (covers i p)); [done|].
      split; [by intros [? _]|]. intros; split; [done|lia]. }
  rewrite Hix by lia. rewrite (bool_decide_false (_ /\ _)) by lia. simpl. rewrite Z.add_0_r.
  fold (lb idx). pose proof (lb_range idx Hpos) as Hlb.
  assert (x <= psum s idx - psum s (idx - lb idx)) as Hsum.
  { unfold covers in Hc. pose proof (psum_succ s (p - 1) x ltac:(lia) Hx) as Hps.
    replace (p - 1 + 1) with p in Hps by lia.
    pose proof (psum_mono s p idx Hs ltac:(lia)).
    pose proof (psum_mono s (idx - lb idx) (p - 1) Hs ltac:(lia)). lia. }
  destruct ((delta <? 0) && _) eqn:Hchk.
  { exfalso. apply andb_true_iff in Hchk as [Hd Hv]. apply Z.ltb_lt in Hd.
    apply negb_true_iff in Hv. rewrite Z.geb_leb in Hv. apply Z.leb_gt in Hv. lia. }
  apply (IH _ (idx + lb idx)); [by rewrite length_insert|lia|by apply covers_next|lia|].
  intros i Hi. destruct (Z.eq_dec i idx) as [->|Hne].
  - rewrite list_lookup_insert_eq by lia. rewrite bool_decide_true by (split; [done|lia]). done.
  - rewrite list_lookup_insert_ne by lia. rewrite Hix by done.
    rewrite (bool_decide_ext (covers i p /\ i < idx) (covers i p /\ i < idx + lb idx)); [done|].
    split; [intros [? ?]; split; [done|lia]|]. intros [Hci Hlt]. split; [done|].
    destruct (Z.lt_ge_cases i idx); [done|]. exfalso. eapply (covers_gap idx i); eauto with lia.
Qed.

Lemma bit_add_spec s index p x delta :
  Forall (Z.le 0) s -> bit_inv s index ->
  s !! Z.to_nat p = Some x -> 0 <= p -> 0 <= x + delta ->
  exists index', bit_add (S (length s)) index (Z.of_nat (length s)) (p + 1) delta = Some index' /\
    bit_inv (<[Z.to_nat p := x + delta]> s) index'.
Proof.
  intros Hs [Hlen Hix] Hx Hp Hxd. pose proof (lookup_lt_Some _ _ _ Hx) as Hlt.
  destruct (bit_add_loop (S (length s)) s index (p + 1) x delta (p + 1)) as (index' & He & Hl & Hi); try lia.
  - done.
  - by replace (p + 1 - 1) with p by lia.
  - apply covers_self. lia.
  - intros i Hi. rewrite Hix by done. destruct (bool_decide_reflect (covers i (p + 1) /\ i < p + 1)) as [Hc|];
      [unfold covers in Hc; lia|]. f_equal. lia.
  - exists index'. split; [done|]. split; [by rewrite length_insert|].
    rewrite length_insert. intros i Hi'. rewrite Hi by done. pose proof (lb_range i ltac:(lia)) as Hlb.
    rewrite !(psum_insert s (Z.to_nat p) x) by (done || lia). f_equal.
    rewrite !Z2Nat.id by lia. destruct (bool_decide_reflect (covers i (p + 1))) as [Hc|Hc];
      unfold covers in Hc; destruct (Z.ltb_spec p i), (Z.ltb_spec p (i - lb i)); lia.
Qed.

(** The search: [target] is what is left of the key index [tgt] after the
    first [result] dicts. *)
Lemma bit_find_loop m s index result tgt fuel :
  bit_inv s index -> 0 <= m -> 0 <= result -> (2 ^ (m + 1) | result) ->
  result + 2 ^ (m + 1) <= Z.of_nat (length s) ->
  psum s result < tgt <= psum s (result + 2 ^ (m + 1)) -> m + 1 < Z.of_nat fuel ->
  exists r, bit_find fuel index (2 ^ m) result (tgt - psum s result) = Some r /\
    0 <= r < Z.of_nat (length s) /\ psum s r < tgt <= psum s (r + 1).
Proof.
  intros Hinv Hm. revert result fuel. pattern m. apply natlike_ind; [| |done]; clear m Hm.
  - intros result fuel Hr Hd Hle Ht Hf. destruct fuel as [|[|fuel]]; [lia|lia|].
    change (2 ^ (0 + 1)) with 2 in *. change (2 ^ 0) with 1. cbn [bit_find].
    change (1 =? 0) with false. change (Z.shiftr 1 1) with 0. change (0 =? 0) with true.
    destruct Hinv as [_ Hix]. rewrite (Hix (result + 1)) by lia. mstep.
    change (result + 1) with (result + 2 ^ 0). rewrite (lb_step result 0) by (done || lia). change (2 ^ 0) with 1.
    replace (result + 1 - 1) with result by lia.
    destruct (Z.gtb_spec (tgt - psum s result) (psum s (result + 1) - psum s result)) as [Hgt|Hle'].
    + exists (result + 1). replace (result + 1 + 1) with (result + 2) by lia. split_and!; [done|lia..].
    + exists result. split_and!; [done|lia..].
  - intros m Hm IH result fuel Hr Hd Hle Ht Hf. destruct fuel as [|fuel]; [lia|].
    pose proof (Z.pow_pos_nonneg 2 m ltac:(lia) Hm) as Hpm.
    replace (Z.succ m + 1) with (m + 1 + 1) in * by lia. replace (Z.succ m) with (m + 1) in * by lia.
    assert (2 ^ (m + 1 + 1) = 2 * 2 ^ (m + 1)) as H2 by (rewrite Z.pow_add_r by lia; lia).
    assert (2 ^ (m + 1) = 2 * 2 ^ m) as H1 by (rewrite Z.pow_add_r by lia; lia).
    assert ((2 ^ (m + 1) | 2 ^ (m + 1 + 1))) as Hdd by (exists 2; lia).
    cbn [bit_find]. rewrite (proj2 (Z.eqb_neq _ _)) by lia.
    destruct Hinv as [Hlen Hix]. rewrite Hix by lia. simpl.
    rewrite (lb_step result (m + 1)) by (done || lia).
    replace (result + 2 ^ (m + 1) - 2 ^ (m + 1)) with result by lia.
    replace (Z.shiftr (2 ^ (m + 1)) 1) with (2 ^ m)
      by (rewrite Z.shiftr_div_pow2, H1 by lia; change (2 ^ 1) with 2; rewrite Z.mul_comm, Z.div_mul; lia).
    destruct (Z.gtb_spec (tgt - psum s result) (psum s (result + 2 ^ (m + 1)) - psum s result)) as [Hgt|Hle'].
    + replace (tgt - psum s result - (psum s (result + 2 ^ (m + 1)) - psum s result))
        with (tgt - psum s (result + 2 ^ (m + 1))) by lia.
      apply IH; try lia.
      * apply Z.divide_add_r; [|apply Z.divide_refl]. by eapply Z.divide_trans.
      * replace (result + 2 ^ (m + 1) + 2 ^ (m + 1)) with (result + 2 ^ (m + 1 + 1)) by lia. lia.
    + apply IH; try lia. by eapply Z.divide_trans.
Qed.

Lemma bit_find_spec bits s index tgt :
  bit_inv s index -> 1 <= bits -> Z.of_nat (length s) = 2 ^ bits -> 1 <= tgt <= zsum s ->
  exists r, bit_find (S (S (Z.to_nat bits))) index (2 ^ bits) 0 tgt = Some r /\
    0 <= r < 2 ^ bits /\ psum s r < tgt <= psum s (r + 1).
Proof.
  intros Hinv Hb Hlen Ht. pose proof (Z.pow_pos_nonneg 2 bits ltac:(lia) ltac:(lia)) as Hp.
  remember (S (Z.to_nat bits)) as fuel eqn:Hfuel.
  cbn [bit_find]. rewrite (proj2 (Z.eqb_neq _ _)) by lia. rewrite Z.add_0_l.
  pose proof Hinv as [_ Hix]. rewrite (Hix (2 ^ bits)) by lia. mstep.
  assert (lb (2 ^ bits) = 2 ^ bits) as Hlb.
  { rewrite <- (Z.add_0_l (2 ^ bits)) at 1. apply lb_step; [lia|lia|apply Z.divide_0_r]. }
  assert (2 ^ bits = 2 * 2 ^ (bits - 1)) as H2.
  { rewrite <- Z.pow_succ_r by lia. f_equal. lia. }
  replace (Z.shiftr (2 ^ bits) 1) with (2 ^ (bits - 1))
    by (rewrite Z.shiftr_div_pow2, H2 by lia; change (2 ^ 1) with 2; rewrite Z.mul_comm, Z.div_mul; lia).
  rewrite Hlb, Z.sub_diag, psum_0, <- Hlen, psum_all.
  destruct (Z.gtb_spec tgt (zsum s - 0)) as [|_]; [lia|].
  destruct (bit_find_loop (bits - 1) s index 0 tgt fuel) as (r & Hr & Hb1 & Hb2); try lia.
  - done.
  - apply Z.divide_0_r.
  - replace (bits - 1 + 1) with bits by lia. lia.
  - replace (bits - 1 + 1) with bits by lia. rewrite Z.add_0_l, <- Hlen, psum_all, psum_0. lia.
  - rewrite psum_0, Z.sub_0_r in Hr. exists r. rewrite Hr. split_and!; [done|lia..].
Qed.
