(* ===== verification/KvstoreCorrect.v ===== *)
(** * Invariant and contents of the kvstore

    The invariant ties every counter to the dicts: the key count and the
    binary indexed tree to their sizes, the overheads to their tables, the
    rehashing list to the dicts that are rehashing.  All operations preserve
    it and do to the contents (a finite map per dict index) what they should,
    whatever dict implements [DictLaws].  Two counters are not what their
    names say; the last part shows how they drift. *)
From S2P Require Import Prelude Dict DictSpec DictScan DictIface Kvstore KvstoreSpec.
From Stdlib Require Import ZArith Lia.
From stdpp Require Import prelude gmap list.

#[local] Open Scope Z_scope.
#[local] Abbreviation rev := DictScan.rev.

Lemma zsum_insert {A} (f : A -> Z) (l : list A) i x y :
  l !! i = Some x -> zsum (f <$> <[i := y]> l) = zsum (f <$> l) - f x + f y.
Proof.
  intros Hi. rewrite (insert_take_drop _ i y) by (by eapply lookup_lt_Some).
  rewrite <- (take_drop_middle _ _ _ Hi) at 3. rewrite !fmap_app, !zsum_app. unfold zsum. simpl. lia.
Qed.

Section correct.
Context {K V D : Type} `{Countable K} `{!DictOps K V D} `{!DictLaws K V D}.

Implicit Types (kvs : kvstore D) (d : D) (od : option D).

(** ** The invariant *)

Definition od_map od : gmap K (option V) := match od with Some d => d_map d | None => ∅ end.
Definition od_size od : Z := Z.of_nat (size (od_map od)).
Definition od_alloc od : Z := match od with Some _ => 1 | None => 0 end.
Definition od_buckets od : Z := match od with Some d => d_buckets d | None => 0 end.
Definition od_draining od : Z := match od with Some d => d_draining d | None => 0 end.

Definition sizes kvs : list Z := od_size <$> dicts kvs.

Record shape_ok kvs : Prop := {
  so_bits : 0 <= num_dicts_bits kvs <= 16;
  so_len : Z.of_nat (length (dicts kvs)) = 2 ^ num_dicts_bits kvs;
  so_dicts i d : dicts kvs !! i = Some (Some d) -> d_inv d;
  so_alloc : allocated_dicts kvs = zsum (od_alloc <$> dicts kvs);
  so_rehash_nodup : NoDup (rehashing kvs);
  so_rehash i : i ∈ rehashing kvs <->
    0 <= i /\ exists d, dicts kvs !! Z.to_nat i = Some (Some d) /\ d_rehashing d = true;
  so_draining : overhead_hashtable_rehashing kvs = zsum (od_draining <$> dicts kvs);
  so_lut : overhead_hashtable_lut kvs = bucket_count kvs;
  (** buckets of freed dicts are never given back *)
  so_buckets : zsum (od_buckets <$> dicts kvs) <= bucket_count kvs;
  so_buckets_exact : flag_free_empty kvs = false -> bucket_count kvs = zsum (od_buckets <$> dicts kvs);
  so_cursor : 0 <= resize_cursor kvs < 2 ^ num_dicts_bits kvs
}.

(** The counters agree with the dict sizes [s]. *)
Definition counts_ok kvs (s : list Z) : Prop :=
  key_count kvs = zsum s /\
  (num_dicts_bits kvs = 0 -> dict_size_index kvs = []) /\
  (0 < num_dicts_bits kvs -> bit_inv s (dict_size_index kvs)).

Definition kvs_inv kvs : Prop := shape_ok kvs /\ counts_ok kvs (sizes kvs).

Definition kvs_map kvs (didx : Z) : gmap K (option V) :=
  match kvstoreGetDict kvs didx with Some od => od_map od | None => ∅ end.

Lemma num_dicts_pow kvs : shape_ok kvs -> num_dicts kvs = 2 ^ num_dicts_bits kvs.
Proof. intros Hs. unfold num_dicts. destruct (so_bits _ Hs). rewrite Z.shiftl_mul_pow2 by lia. lia. Qed.

Lemma num_dicts_pos kvs : shape_ok kvs -> 1 <= num_dicts kvs.
Proof.
  intros Hs. rewrite num_dicts_pow by done. pose proof (so_bits _ Hs).
  pose proof (Z.pow_pos_nonneg 2 (num_dicts_bits kvs)). lia.
Qed.

Lemma get_dict kvs didx :
  shape_ok kvs -> 0 <= didx < num_dicts kvs ->
  exists od, kvstoreGetDict kvs didx = Some od /\ dicts kvs !! Z.to_nat didx = Some od /\
    kvs_map kvs didx = od_map od.
Proof.
  intros Hs Hd. rewrite num_dicts_pow in Hd by done. pose proof (so_len _ Hs).
  destruct (lookup_lt_is_Some_2 (dicts kvs) (Z.to_nat didx)) as [od Hod]; [lia|].
  exists od. unfold kvs_map, kvstoreGetDict. rewrite (proj2 (Z.leb_le 0 didx)) by lia.
  by rewrite Hod.
Qed.

Lemma single_dict kvs : shape_ok kvs -> (num_dicts kvs =? 1) = (num_dicts_bits kvs =? 0).
Proof.
  intros Hs. rewrite num_dicts_pow by done. pose proof (so_bits _ Hs).
  destruct (Z.eqb_spec (num_dicts_bits kvs) 0) as [->|Hne]; [done|].
  apply Z.eqb_neq. pose proof (Z.pow_gt_1 2 (num_dicts_bits kvs)). lia.
Qed.

(** ** Replaying callbacks *)

(** What no callback touches. *)
Definition same_core kvs kvs' : Prop :=
  dicts kvs' = dicts kvs /\ num_dicts_bits kvs' = num_dicts_bits kvs /\
  flag_free_empty kvs' = flag_free_empty kvs /\ flag_on_demand kvs' = flag_on_demand kvs /\
  key_count kvs' = key_count kvs /\ dict_size_index kvs' = dict_size_index kvs /\
  allocated_dicts kvs' = allocated_dicts kvs /\ resize_cursor kvs' = resize_cursor kvs /\
  non_empty_dicts kvs' = non_empty_dicts kvs.

Lemma replay_counters didx evs kvs :
  let kvs' := foldl (rehash_callback didx) kvs evs in
  same_core kvs kvs' /\
  bucket_count kvs' = bucket_count kvs + sum_ev ev_buckets evs /\
  overhead_hashtable_lut kvs' = overhead_hashtable_lut kvs + sum_ev ev_buckets evs /\
  overhead_hashtable_rehashing kvs' = overhead_hashtable_rehashing kvs + sum_ev ev_rehashing evs.
Proof.
  revert kvs. induction evs as [|ev evs IH]; intros kvs.
  { simpl. split_and!; [repeat split|lia..]. }
  cbn [foldl]. destruct (IH (rehash_callback didx kvs ev)) as (Hc & Hb & Hl & Ho).
  split_and!.
  - destruct ev; exact Hc.
  - rewrite Hb. unfold sum_ev. destruct ev; simpl; lia.
  - rewrite Hl. unfold sum_ev. destruct ev; simpl; lia.
  - rewrite Ho. unfold sum_ev. destruct ev; simpl; lia.
Qed.

Lemma replay_rehashing didx evs kvs (b b' : bool) :
  NoDup (rehashing kvs) -> (didx ∈ rehashing kvs <-> b = true) -> ev_fold b evs = Some b' ->
  let kvs' := foldl (rehash_callback didx) kvs evs in
  NoDup (rehashing kvs') /\ (didx ∈ rehashing kvs' <-> b' = true) /\
  forall i, i <> didx -> i ∈ rehashing kvs' <-> i ∈ rehashing kvs.
Proof.
  revert kvs b. induction evs as [|ev evs IH]; intros kvs b Hn Hb He; simplify_eq/=; [done|].
  destruct ev as [from to|from to]; destruct b; try done.
  - destruct (IH (kvstoreDictRehashingStarted kvs didx from to) true) as (H1 & H2 & H3); [| |done|].
    + simpl. apply NoDup_app. split_and!; [done| |apply NoDup_singleton].
      intros x Hx Hx'. apply list_elem_of_singleton in Hx' as ->. by apply Hb in Hx.
    + simpl. rewrite elem_of_app, list_elem_of_singleton. split; auto.
    + split_and!; [done|done|]. intros i Hi. rewrite H3 by done. simpl.
      rewrite elem_of_app, list_elem_of_singleton. tauto.
  - destruct (IH (kvstoreDictRehashingCompleted kvs didx from to) false) as (H1 & H2 & H3); [| |done|].
    + simpl. by apply NoDup_filter.
    + simpl. rewrite list_elem_of_filter. split; [by intros [? _]|done].
    + split_and!; [done|done|]. intros i Hi. rewrite H3 by done. simpl. rewrite list_elem_of_filter. tauto.
Qed.

Lemma log_suffix (l evs : list dict_event) : drop (length l) (l ++ evs) = evs.
Proof. by rewrite drop_app_length. Qed.

(** Replacing dict [didx] by what an operation made of it. *)
Lemma put_dict_shape kvs didx d d' m :
  shape_ok kvs -> 0 <= didx -> dicts kvs !! Z.to_nat didx = Some (Some d) -> d_yields d d' m ->
  shape_ok (put_dict kvs didx d d') /\
  same_core (set_dicts kvs (<[Z.to_nat didx := Some d']> (dicts kvs)) (allocated_dicts kvs))
            (put_dict kvs didx d d').
Proof.
  intros Hs Hd Hi (Hinv & Hm & evs & Hlog & Hbk & Hdr & Hrh).
  unfold put_dict, replay. rewrite Hlog, log_suffix.
  set (kvs0 := set_dicts _ _ _).
  destruct (replay_counters didx evs kvs0) as (Hc & Hb & Hl & Ho).
  destruct (replay_rehashing didx evs kvs0 (d_rehashing d) (d_rehashing d')) as (R1 & R2 & R3).
  { apply Hs. }
  { unfold kvs0. simpl. rewrite (so_rehash _ Hs didx). split; [|eauto].
    intros (_ & d0 & Hd0 & Hr). congruence. }
  { done. }
  split; [|done]. set (kvs1 := foldl _ _ _) in *. clearbody kvs1.
  destruct Hc as (E1 & E2 & E3 & E4 & E5 & E6 & E7 & E8 & E9). unfold kvs0 in *. cbn in *.
  split; rewrite ?E1, ?E2, ?E3, ?E7, ?E8.
  - apply Hs.
  - rewrite length_insert. apply Hs.
  - intros i d0. destruct (decide (i = Z.to_nat didx)) as [->|Hne].
    + rewrite list_lookup_insert_eq by (by eapply lookup_lt_Some). intros [= <-]. done.
    + rewrite list_lookup_insert_ne by done. apply Hs.
  - rewrite (zsum_insert _ _ _ _ _ Hi). simpl. rewrite (so_alloc _ Hs). lia.
  - done.
  - intros i. destruct (Z.eq_dec i didx) as [->|Hne].
    + rewrite R2, list_lookup_insert_eq by (by eapply lookup_lt_Some). naive_solver.
    + rewrite R3, (so_rehash _ Hs) by done.
      split; intros [? Hx]; (split; [done|]); [rewrite list_lookup_insert_ne by lia
        |rewrite list_lookup_insert_ne in Hx by lia]; done.
  - rewrite (zsum_insert _ _ _ _ _ Hi), Ho, (so_draining _ Hs). simpl. lia.
  - rewrite Hl, Hb, (so_lut _ Hs). done.
  - rewrite (zsum_insert _ _ _ _ _ Hi), Hb. simpl. pose proof (so_buckets _ Hs). lia.
  - intros Hf. rewrite (zsum_insert _ _ _ _ _ Hi), Hb, (so_buckets_exact _ Hs Hf). simpl. lia.
  - apply Hs.
Qed.

(** ** Steps that leave the contents alone, or change one dict *)

(** [kvs'] differs from [kvs] in the contents [m] of dict [didx]. *)
Record updates kvs kvs' (didx : Z) (m : gmap K (option V)) : Prop := {
  up_inv : kvs_inv kvs';
  up_bits : num_dicts_bits kvs' = num_dicts_bits kvs;
  up_free : flag_free_empty kvs' = flag_free_empty kvs;
  up_map i : 0 <= i < num_dicts kvs -> kvs_map kvs' i = if decide (i = didx) then m else kvs_map kvs i
}.

Lemma updates_num kvs kvs' didx m : updates kvs kvs' didx m -> num_dicts kvs' = num_dicts kvs.
Proof. intros Hu. unfold num_dicts. by rewrite (up_bits _ _ _ _ Hu). Qed.

Lemma updates_refl kvs didx : kvs_inv kvs -> updates kvs kvs didx (kvs_map kvs didx).
Proof. intros Hi. split; try done. intros i _. by case_decide; subst. Qed.

Lemma updates_trans kvs1 kvs2 kvs3 didx m2 m3 :
  updates kvs1 kvs2 didx m2 -> updates kvs2 kvs3 didx m3 -> updates kvs1 kvs3 didx m3.
Proof.
  intros U1 U2. pose proof (updates_num _ _ _ _ U1) as Hn.
  destruct U1 as [I1 B1 F1 M1], U2 as [I2 B2 F2 M2]. split; [done|congruence|congruence|].
  intros i Hi. rewrite M2 by (rewrite Hn; done). case_decide as Hd; [done|].
  rewrite M1 by done. by rewrite decide_False.
Qed.

Lemma kvs_map_insert kvs kvs' didx od od' i :
  0 <= didx -> dicts kvs !! Z.to_nat didx = Some od ->
  dicts kvs' = <[Z.to_nat didx := od']> (dicts kvs) -> 0 <= i ->
  kvs_map kvs' i = if decide (i = didx) then od_map od' else kvs_map kvs i.
Proof.
  intros Hd Hod Hds Hi. unfold kvs_map, kvstoreGetDict. rewrite (proj2 (Z.leb_le 0 i)), Hds by done.
  case_decide as Hc.
  - subst. by rewrite list_lookup_insert_eq by (by eapply lookup_lt_Some).
  - by rewrite list_lookup_insert_ne by lia.
Qed.

Lemma sizes_nonneg kvs : Forall (Z.le 0) (sizes kvs).
Proof. apply Forall_fmap, Forall_true. intros od. simpl. unfold od_size. lia. Qed.

Lemma createDictIfNeeded_spec kvs didx :
  kvs_inv kvs -> 0 <= didx < num_dicts kvs ->
  exists kvs' d, createDictIfNeeded kvs didx = Some (kvs', d) /\
    updates kvs kvs' didx (kvs_map kvs didx) /\
    dicts kvs' !! Z.to_nat didx = Some (Some d) /\ d_inv d /\ d_map d = kvs_map kvs didx.
Proof.
  intros [Hs Hc] Hd. destruct (get_dict kvs didx Hs Hd) as (od & Hg & Hl & Hm).
  unfold createDictIfNeeded. rewrite Hg. simpl. destruct od as [d|].
  { exists kvs, d. split_and!; [done|by apply updates_refl|done|by apply (so_dicts _ Hs _ _ Hl)|done]. }
  destruct d_create_law as (Hci & Hcm & Hcl & Hcb & Hcd & Hcr).
  set (kvs' := set_dicts _ _ _). exists kvs', d_create.
  pose proof (lookup_lt_Some _ _ _ Hl) as Hlt.
  assert (sizes kvs' = sizes kvs) as Hsz.
  { unfold sizes, kvs'. simpl. rewrite list_fmap_insert. apply list_insert_id.
    rewrite list_lookup_fmap, Hl. simpl. unfold od_size. simpl. by rewrite Hcm. }
  split_and!; [done| |unfold kvs'; simpl; by apply list_lookup_insert_eq|done|by rewrite Hm].
  split; [split|done|done|].
  - split; try apply Hs; unfold kvs'; cbn -[d_create].
    + rewrite length_insert. apply Hs.
    + intros i d. destruct (decide (i = Z.to_nat didx)) as [->|Hne].
      * rewrite list_lookup_insert_eq by done. by intros [= <-].
      * rewrite list_lookup_insert_ne by done. apply Hs.
    + rewrite (zsum_insert _ _ _ _ _ Hl), (so_alloc _ Hs). simpl. lia.
    + intros i. rewrite (so_rehash _ Hs i).
      destruct (decide (Z.to_nat i = Z.to_nat didx)) as [He|Hne].
      * rewrite He, Hl, list_lookup_insert_eq by done.
        split; intros (_ & d & Hx & Hr); [done|]. injection Hx as <-. congruence.
      * by rewrite list_lookup_insert_ne by done.
    + rewrite (zsum_insert _ _ _ _ _ Hl), (so_draining _ Hs). simpl. lia.
    + rewrite (zsum_insert _ _ _ _ _ Hl). simpl. pose proof (so_buckets _ Hs). lia.
    + intros Hf. rewrite (zsum_insert _ _ _ _ _ Hl), (so_buckets_exact _ Hs Hf). simpl. lia.
  - rewrite Hsz. exact Hc.
  - intros i Hi. rewrite (kvs_map_insert kvs kvs' didx None (Some d_create)) by (done || lia).
    simpl. rewrite Hm. by rewrite Hcm.
Qed.

(** The counters catch up with a dict that gained or lost one key. *)
Lemma cumulativeKeyCountAdd_spec kvs didx d s x delta :
  shape_ok kvs -> 0 <= didx -> dicts kvs !! Z.to_nat didx = Some (Some d) ->
  counts_ok kvs s -> Forall (Z.le 0) s -> s !! Z.to_nat didx = Some x -> 0 <= x + delta ->
  sizes kvs = <[Z.to_nat didx := x + delta]> s ->
  exists kvs', cumulativeKeyCountAdd kvs didx delta = Some kvs' /\ kvs_inv kvs' /\
    dicts kvs' = dicts kvs /\ num_dicts_bits kvs' = num_dicts_bits kvs /\
    flag_free_empty kvs' = flag_free_empty kvs.
Proof.
  intros Hs Hd Hi (Hk & H0 & H1) Hnn Hx Hxd Hsz.
  assert (zsum (sizes kvs) = zsum s + delta) as Hsum.
  { rewrite Hsz. pose proof (zsum_insert id s _ _ (x + delta) Hx) as Hz.
    rewrite !list_fmap_id in Hz. unfold id in Hz. lia. }
  assert (length s = length (dicts kvs)) as Hls.
  { assert (length (sizes kvs) = length s) as Hl by (by rewrite Hsz, length_insert).
    unfold sizes in Hl. by rewrite length_fmap in Hl. }
  unfold cumulativeKeyCountAdd, kvstoreGetDict. rewrite (proj2 (Z.leb_le 0 didx)), Hi by done.
  mstep.
  rewrite single_dict by done. pose proof (so_bits _ Hs) as Hb.
  destruct (Z.eqb_spec (num_dicts_bits kvs) 0) as [Hz|Hz].
  - eexists. split; [done|]. split; [|done]. split; [destruct Hs; by split|].
    split_and!; [simpl; rewrite Hk; symmetry; exact Hsum|auto|simpl; intros; lia].
  - destruct (bit_add_spec s (dict_size_index kvs) didx x delta) as (index' & Ha & Hb'); auto with lia.
    rewrite num_dicts_pow, <- (so_len _ Hs), <- Hls, Nat2Z.id by done. rewrite Ha.
    eexists. split; [done|]. split; [|done]. split; [destruct Hs; by split|].
    split_and!; [simpl; rewrite Hk; symmetry; exact Hsum|simpl; intros; lia|]. intros _.
    change (bit_inv (sizes kvs) index'). by rewrite Hsz.
Qed.

(** Freeing the (empty) dict [didx]. *)
Lemma release_shape kvs didx d :
  shape_ok kvs -> 0 <= didx -> dicts kvs !! Z.to_nat didx = Some (Some d) -> flag_free_empty kvs = true ->
  let kvs1 := replay kvs didx (d_log d) (d_release d) in
  let kvs' := set_dicts kvs1 (<[Z.to_nat didx := None]> (dicts kvs1)) (allocated_dicts kvs1 - 1) in
  shape_ok kvs' /\ same_core (set_dicts kvs (<[Z.to_nat didx := None]> (dicts kvs)) (allocated_dicts kvs - 1)) kvs'.
Proof.
  intros Hs Hd Hi Hfree kvs1. destruct (d_release_law d) as (from & to & Hrel & Hfrom).
  set (evs := if d_rehashing d then [RehashingCompleted from to] else []) in *.
  assert (kvs1 = foldl (rehash_callback didx) kvs evs) as Hk1.
  { unfold kvs1, replay. by rewrite Hrel, log_suffix. }
  destruct (replay_counters didx evs kvs) as (Hc & Hb & Hl & Ho).
  destruct (replay_rehashing didx evs kvs (d_rehashing d) false) as (R1 & R2 & R3).
  { apply Hs. }
  { rewrite (so_rehash _ Hs didx). split; [|eauto]. intros (_ & d0 & Hd0 & Hr). congruence. }
  { unfold evs. by destruct (d_rehashing d). }
  destruct (d_draining_law d (so_dicts _ Hs _ _ Hi)) as [Hdr Hdr0].
  assert (sum_ev ev_buckets evs = - d_draining d /\ sum_ev ev_rehashing evs = - d_draining d) as [Hsb Hsr].
  { unfold evs, sum_ev. destruct (d_rehashing d) eqn:Hr; simpl; [rewrite Hfrom by done|rewrite Hdr0 by done]; lia. }
  rewrite <- Hk1 in *. clearbody kvs1. clear Hk1.
  destruct Hc as (E1 & E2 & E3 & E4 & E5 & E6 & E7 & E8 & E9). intros kvs'.
  split; [|by repeat split; unfold kvs'; simpl; congruence].
  split; unfold kvs'; simpl; rewrite ?E1, ?E2, ?E3, ?E7, ?E8.
  - apply Hs.
  - rewrite length_insert. apply Hs.
  - intros i d0. destruct (decide (i = Z.to_nat didx)) as [->|Hne].
    + by rewrite list_lookup_insert_eq by (by eapply lookup_lt_Some).
    + rewrite list_lookup_insert_ne by done. apply Hs.
  - rewrite (zsum_insert _ _ _ _ _ Hi). simpl. rewrite (so_alloc _ Hs). lia.
  - done.
  - intros i. destruct (Z.eq_dec i didx) as [->|Hne].
    + rewrite R2, list_lookup_insert_eq by (by eapply lookup_lt_Some). naive_solver.
    + rewrite R3, (so_rehash _ Hs) by done.
      split; intros [? Hx]; (split; [done|]); [rewrite list_lookup_insert_ne by lia
        |rewrite list_lookup_insert_ne in Hx by lia]; done.
  - rewrite (zsum_insert _ _ _ _ _ Hi), Ho, (so_draining _ Hs). simpl. lia.
  - rewrite Hl, Hb, (so_lut _ Hs). done.
  - rewrite (zsum_insert _ _ _ _ _ Hi), Hb. simpl. pose proof (so_buckets _ Hs). lia.
  - congruence.
  - apply Hs.
Qed.

Lemma freeDictIfNeeded_spec kvs didx :
  kvs_inv kvs -> 0 <= didx < num_dicts kvs ->
  exists kvs', freeDictIfNeeded kvs didx = Some kvs' /\ updates kvs kvs' didx (kvs_map kvs didx).
Proof.
  intros [Hs Hc] Hd. destruct (get_dict kvs didx Hs Hd) as (od & Hg & Hl & Hm).
  unfold freeDictIfNeeded. destruct (flag_free_empty kvs) eqn:Hf; simpl;
    [|exists kvs; split; [done|by apply updates_refl]].
  unfold kvstoreDictSize, kvstoreDictIsRehashingPaused. rewrite Hg. simpl.
  destruct od as [d|]; [|exists kvs; split; [done|by apply updates_refl]].
  destruct (negb (d_size d =? 0) || d_paused d) eqn:Hsz; [exists kvs; split; [done|by apply updates_refl]|].
  apply orb_false_iff in Hsz as [Hsz _]. apply negb_false_iff, Z.eqb_eq in Hsz.
  rewrite (d_size_law d (so_dicts _ Hs _ _ Hl)) in Hsz.
  assert (d_map d = ∅) as Hem by (apply map_size_empty_inv; lia).
  destruct (release_shape kvs didx d Hs ltac:(lia) Hl Hf) as [Hs' Hcore].
  set (kvs' := set_dicts _ _ _) in *. exists kvs'. split; [done|].
  destruct Hcore as (E1 & E2 & E3 & E4 & E5 & E6 & E7 & E8 & E9). cbn [set_dicts dicts num_dicts_bits
    flag_free_empty flag_on_demand key_count dict_size_index allocated_dicts resize_cursor] in *.
  assert (sizes kvs' = sizes kvs) as Hsz'.
  { unfold sizes. rewrite E1, list_fmap_insert. apply list_insert_id.
    rewrite list_lookup_fmap, Hl. simpl. unfold od_size. simpl. by rewrite Hem. }
  split; [split; [done|]|done|done|].
  - unfold counts_ok. rewrite E5, E2, E6, Hsz'. exact Hc.
  - intros i Hi. rewrite (kvs_map_insert kvs kvs' didx (Some d) None) by (done || lia).
    simpl. rewrite Hm. simpl. by rewrite Hem.
Qed.

(** ** The operations *)

(** A dict operation that keeps the number of keys. *)
Lemma put_dict_updates kvs didx d d' m :
  kvs_inv kvs -> 0 <= didx -> dicts kvs !! Z.to_nat didx = Some (Some d) ->
  d_yields d d' m -> size m = size (d_map d) ->
  updates kvs (put_dict kvs didx d d') didx m /\
  dicts (put_dict kvs didx d d') !! Z.to_nat didx = Some (Some d').
Proof.
  intros [Hs Hc] Hd Hi Hy Hsz. destruct (put_dict_shape kvs didx d d' m Hs Hd Hi Hy) as [Hs' Hcore].
  destruct Hcore as (E1 & E2 & E3 & E4 & E5 & E6 & E7 & E8 & E9). cbn [set_dicts dicts num_dicts_bits
    flag_free_empty flag_on_demand key_count dict_size_index allocated_dicts resize_cursor] in *.
  destruct Hy as (Hinv & Hm & _).
  split; [|rewrite E1; apply list_lookup_insert_eq; by eapply lookup_lt_Some].
  split; [split; [done|]|done|done|].
  - unfold counts_ok, sizes. rewrite E1, E2, E5, E6, list_fmap_insert, list_insert_id; [exact Hc|].
    rewrite list_lookup_fmap, Hi. simpl. unfold od_size. simpl. by rewrite Hm, Hsz.
  - intros i Hi'. rewrite (kvs_map_insert kvs _ didx (Some d) (Some d')) by (done || lia).
    simpl. by rewrite Hm.
Qed.

(** A dict operation that adds or removes one key, and the counters. *)
Lemma put_dict_count kvs didx d d' m delta :
  kvs_inv kvs -> 0 <= didx -> dicts kvs !! Z.to_nat didx = Some (Some d) ->
  d_yields d d' m -> Z.of_nat (size m) = Z.of_nat (size (d_map d)) + delta ->
  exists kvs', cumulativeKeyCountAdd (put_dict kvs didx d d') didx delta = Some kvs' /\
    updates kvs kvs' didx m /\ dicts kvs' !! Z.to_nat didx = Some (Some d').
Proof.
  intros [Hs Hc] Hd Hi Hy Hsz. destruct (put_dict_shape kvs didx d d' m Hs Hd Hi Hy) as [Hs' Hcore].
  destruct Hcore as (E1 & E2 & E3 & E4 & E5 & E6 & E7 & E8 & E9). cbn [set_dicts dicts num_dicts_bits
    flag_free_empty flag_on_demand key_count dict_size_index allocated_dicts resize_cursor] in *.
  destruct Hy as (Hinv & Hm & _). pose proof (lookup_lt_Some _ _ _ Hi) as Hlt.
  set (kvs1 := put_dict kvs didx d d') in *.
  destruct (cumulativeKeyCountAdd_spec kvs1 didx d' (sizes kvs) (od_size (Some d)) delta)
    as (kvs' & Ha & Hinv' & D1 & D2 & D3); try done.
  - rewrite E1. by apply list_lookup_insert_eq.
  - unfold counts_ok. rewrite E2, E5, E6. exact Hc.
  - apply sizes_nonneg.
  - unfold sizes. by rewrite list_lookup_fmap, Hi.
  - unfold od_size. simpl. lia.
  - unfold sizes. rewrite E1, list_fmap_insert. f_equal. unfold od_size. simpl. rewrite Hm. lia.
  - exists kvs'. split; [done|]. rewrite D1, E1. split; [|by apply list_lookup_insert_eq].
    split; [done|congruence|congruence|]. intros i Hi'.
    rewrite (kvs_map_insert kvs kvs' didx (Some d) (Some d')) by (done || lia || congruence).
    simpl. by rewrite Hm.
Qed.

Lemma kvstoreDictAddRaw_spec cr kvs didx k :
  kvs_inv kvs -> 0 <= didx < num_dicts kvs ->
  exists kvs' r d, kvstoreDictAddRaw cr kvs didx k = Some (kvs', r) /\
    dicts kvs' !! Z.to_nat didx = Some (Some d) /\
    match r with
    | inl h => updates kvs kvs' didx (kvs_map kvs didx) /\ kvs_map kvs didx !! k <> None /\ d_at d h k
    | inr h => updates kvs kvs' didx (<[k := None]> (kvs_map kvs didx)) /\ kvs_map kvs didx !! k = None
               /\ d_at d h k
    end.
Proof.
  intros Hi Hd. unfold kvstoreDictAddRaw.
  destruct (createDictIfNeeded_spec kvs didx Hi Hd) as (kvs1 & d & -> & Hu1 & Hl & Hdi & Hm).
  mstep. destruct (d_add_raw_law cr d k Hdi) as (d' & r & -> & _ & Hr).
  mstep. rewrite <- Hm in *. destruct r as [h|h].
  - destruct Hr as (Hy & Hat & Hn).
    destruct (put_dict_updates kvs1 didx d d' _ (up_inv _ _ _ _ Hu1) ltac:(lia) Hl Hy eq_refl) as [Hu2 Hl2].
    eexists _, _, d'. split_and!; [done|done|]. split_and!; [by eapply updates_trans|done|done].
  - destruct Hr as (Hy & Hat & Hn).
    destruct (put_dict_count kvs1 didx d d' _ 1 (up_inv _ _ _ _ Hu1) ltac:(lia) Hl Hy)
      as (kvs2 & -> & Hu2 & Hl2).
    { rewrite map_size_insert_None by done. lia. }
    mstep. eexists _, _, d'. split_and!; [done|done|].
    split_and!; [by eapply updates_trans|done|done].
Qed.

Lemma kvstoreDictDelete_spec cr kvs didx k :
  kvs_inv kvs -> 0 <= didx < num_dicts kvs ->
  exists kvs', kvstoreDictDelete cr kvs didx k = Some (kvs', bool_decide (kvs_map kvs didx !! k <> None)) /\
    updates kvs kvs' didx (delete k (kvs_map kvs didx)).
Proof.
  intros Hi Hd. pose proof Hi as [Hs _]. destruct (get_dict kvs didx Hs Hd) as (od & Hg & Hl & Hm).
  unfold kvstoreDictDelete. rewrite Hg. mstep. destruct od as [d|]; simpl in Hm.
  2:{ exists kvs. rewrite Hm, lookup_empty, delete_empty. split; [by rewrite bool_decide_false by tauto|].
      rewrite <- Hm. by apply updates_refl. }
  destruct (d_delete_law cr d k (so_dicts _ Hs _ _ Hl)) as (d' & -> & Hy & _). mstep.
  rewrite Hm. destruct (bool_decide_reflect (d_map d !! k <> None)) as [Hk|Hk].
  - destruct (put_dict_count kvs didx d d' _ (-1) Hi ltac:(lia) Hl Hy) as (kvs2 & -> & Hu2 & Hl2).
    { destruct (d_map d !! k) as [x|] eqn:E; [|done].
      rewrite (map_size_delete_Some k (d_map d)) by eauto.
      assert (size (d_map d) <> 0%nat).
      { intros Hz. apply map_size_empty_inv in Hz. by rewrite Hz, lookup_empty in E. }
      lia. }
    mstep. rewrite <- (updates_num _ _ _ _ Hu2) in Hd.
    destruct (freeDictIfNeeded_spec kvs2 didx (up_inv _ _ _ _ Hu2) Hd) as (kvs3 & -> & Hu3).
    mstep. exists kvs3. split; [done|]. eapply updates_trans; [done|].
    rewrite (up_map _ _ _ _ Hu2), decide_True in Hu3; [done|done|].
    by rewrite <- (updates_num _ _ _ _ Hu2).
  - assert (d_map d !! k = None) as Hn by (destruct (d_map d !! k); [exfalso; by apply Hk|done]).
    rewrite delete_id in * by done.
    destruct (put_dict_updates kvs didx d d' _ Hi ltac:(lia) Hl Hy eq_refl) as [Hu2 _]. eauto.
Qed.

(** Read-only operations of the dict. *)
Lemma put_dict_same kvs didx d d' :
  kvs_inv kvs -> 0 <= didx < num_dicts kvs -> dicts kvs !! Z.to_nat didx = Some (Some d) ->
  d_yields d d' (d_map d) ->
  updates kvs (put_dict kvs didx d d') didx (kvs_map kvs didx) /\
  dicts (put_dict kvs didx d d') !! Z.to_nat didx = Some (Some d').
Proof.
  intros Hi Hd Hl Hy. destruct (get_dict kvs didx (proj1 Hi) Hd) as (od & Hg & Hl' & Hm).
  rewrite Hl in Hl'. simplify_eq. rewrite Hm. by apply put_dict_updates; try lia.
Qed.

Lemma kvstoreDictFetchValue_spec cr kvs didx k :
  kvs_inv kvs -> 0 <= didx < num_dicts kvs ->
  exists kvs', kvstoreDictFetchValue cr kvs didx k = Some (kvs', kvs_map kvs didx !! k ≫= id) /\
    updates kvs kvs' didx (kvs_map kvs didx).
Proof.
  intros Hi Hd. destruct (get_dict kvs didx (proj1 Hi) Hd) as (od & Hg & Hl & Hm).
  unfold kvstoreDictFetchValue. rewrite Hg. mstep. destruct od as [d|]; simpl in Hm.
  2:{ exists kvs. rewrite Hm at 1. split; [done|by apply updates_refl]. }
  destruct (d_fetch_law cr d k (so_dicts _ (proj1 Hi) _ _ Hl)) as (d' & -> & Hy & _).
  cbn [mbind option_bind fst snd]. eexists. rewrite Hm at 1. split; [done|].
  by apply put_dict_same.
Qed.

Lemma kvstoreDictFind_spec cr kvs didx k :
  kvs_inv kvs -> 0 <= didx < num_dicts kvs ->
  exists kvs' r, kvstoreDictFind cr kvs didx k = Some (kvs', r) /\
    updates kvs kvs' didx (kvs_map kvs didx) /\
    match r with
    | Some h => kvs_map kvs didx !! k <> None /\
                exists d, dicts kvs' !! Z.to_nat didx = Some (Some d) /\ d_at d h k
    | None => kvs_map kvs didx !! k = None
    end.
Proof.
  intros Hi Hd. destruct (get_dict kvs didx (proj1 Hi) Hd) as (od & Hg & Hl & Hm).
  unfold kvstoreDictFind. rewrite Hg. mstep. destruct od as [d|]; simpl in Hm.
  2:{ exists kvs, None. split_and!; [done|by apply updates_refl|]. by rewrite Hm. }
  destruct (d_find_law cr d k (so_dicts _ (proj1 Hi) _ _ Hl)) as (d' & r & -> & Hy & _ & Hr).
  cbn [mbind option_bind fst snd]. destruct (put_dict_same kvs didx d d' Hi Hd Hl Hy) as [Hu Hl'].
  eexists _, r. split_and!; [done|done|]. rewrite Hm. destruct r as [h|]; [|done].
  destruct Hr as [Hat Hk]. split; [done|]. eauto.
Qed.

Lemma kvstoreDictSetVal_spec kvs didx d h k v :
  kvs_inv kvs -> 0 <= didx < num_dicts kvs -> dicts kvs !! Z.to_nat didx = Some (Some d) ->
  d_at d h k -> d_valued -> kvs_map kvs didx !! k <> None ->
  exists kvs', kvstoreDictSetVal kvs didx h v = Some kvs' /\
    updates kvs kvs' didx (<[k := Some v]> (kvs_map kvs didx)).
Proof.
  intros Hi Hd Hl Hat Hv Hk. destruct (get_dict kvs didx (proj1 Hi) Hd) as (od & Hg & Hl' & Hm).
  rewrite Hl in Hl'. simplify_eq/=. unfold kvstoreDictSetVal. rewrite Hg. mstep.
  destruct (d_set_val_law d h k v (so_dicts _ (proj1 Hi) _ _ Hl) Hat Hv) as (d' & -> & Hy & _).
  mstep. eexists. split; [done|]. rewrite Hm in *.
  apply put_dict_updates; try done; [lia|].
  destruct (d_map d !! k) eqn:E; [|done]. apply map_size_insert_Some. eauto.
Qed.

Lemma size_delete_present (m : gmap K (option V)) k :
  m !! k <> None -> Z.of_nat (size (delete k m)) = Z.of_nat (size m) + -1.
Proof.
  intros Hk. destruct (m !! k) as [x|] eqn:E; [|done]. rewrite (map_size_delete_Some k m) by eauto.
  assert (size m <> 0%nat).
  { intros Hz. apply map_size_empty_inv in Hz. by rewrite Hz, lookup_empty in E. }
  lia.
Qed.

(** Both phases of an unlink, as [dbGenericDelete] calls them. *)
Lemma kvstoreDictTwoPhaseUnlink_spec cr kvs didx k :
  kvs_inv kvs -> 0 <= didx < num_dicts kvs ->
  exists kvs1 r, kvstoreDictTwoPhaseUnlinkFind cr kvs didx k = Some (kvs1, r) /\
    updates kvs kvs1 didx (kvs_map kvs didx) /\
    match r with
    | None => kvs_map kvs didx !! k = None
    | Some h => kvs_map kvs didx !! k <> None /\
        exists kvs', kvstoreDictTwoPhaseUnlinkFree cr kvs1 didx h = Some kvs' /\
          updates kvs kvs' didx (delete k (kvs_map kvs didx))
    end.
Proof.
  intros Hi Hd. destruct (get_dict kvs didx (proj1 Hi) Hd) as (od & Hg & Hl & Hm).
  unfold kvstoreDictTwoPhaseUnlinkFind. rewrite Hg. mstep.
  destruct od as [d|]; simpl in Hm.
  2:{ exists kvs, None. split_and!; [done|by apply updates_refl|]. by rewrite Hm. }
  destruct (d_unlink_find_law cr d k (so_dicts _ (proj1 Hi) _ _ Hl)) as (d1 & r & -> & Hy & Hr).
  cbn [mbind option_bind fst snd]. destruct (put_dict_same kvs didx d d1 Hi Hd Hl Hy) as [Hu Hl1].
  set (kvs1 := put_dict kvs didx d d1) in *. clearbody kvs1.
  exists kvs1, r. split_and!; [done|done|]. destruct r as [h|]; [|by rewrite Hm].
  destruct Hr as [Hat Hk]. rewrite Hm. split; [done|].
  pose proof Hd as Hd1. rewrite <- (updates_num _ _ _ _ Hu) in Hd1.
  destruct (get_dict kvs1 didx (proj1 (up_inv _ _ _ _ Hu)) Hd1) as (od & Hg1 & Hl1' & Hm1).
  rewrite Hl1 in Hl1'. simplify_eq/=. unfold kvstoreDictTwoPhaseUnlinkFree. rewrite Hg1.
  mstep. destruct Hy as (Hi1 & Hmm & _).
  destruct (d_unlink_free_law cr d1 h k Hi1 Hat) as (d2 & -> & Hy2). mstep.
  rewrite Hmm in Hy2.
  destruct (put_dict_count kvs1 didx d1 d2 _ (-1) (up_inv _ _ _ _ Hu) ltac:(lia) Hl1 Hy2)
    as (kvs2 & -> & Hu2 & _). { rewrite Hmm. by apply size_delete_present. }
  mstep. pose proof Hd1 as Hd2. rewrite <- (updates_num _ _ _ _ Hu2) in Hd2.
  destruct (freeDictIfNeeded_spec kvs2 didx (up_inv _ _ _ _ Hu2) Hd2) as (kvs3 & Hf & Hu3).
  exists kvs3. split; [done|]. rewrite (up_map _ _ _ _ Hu2), decide_True in Hu3 by done.
  eapply updates_trans; [exact Hu|]. by eapply updates_trans.
Qed.

Lemma kvstoreDictExpand_spec cr kvs didx sz :
  kvs_inv kvs -> 0 <= didx < num_dicts kvs -> 0 <= sz ->
  exists kvs' ok, kvstoreDictExpand cr kvs didx sz = Some (kvs', ok) /\
    updates kvs kvs' didx (kvs_map kvs didx).
Proof.
  intros Hi Hd Hsz. unfold kvstoreDictExpand. destruct (sz =? 0); [eauto using updates_refl|].
  destruct (createDictIfNeeded_spec kvs didx Hi Hd) as (kvs1 & d & -> & Hu1 & Hl & Hdi & Hm).
  mstep. destruct (d_expand_law cr d sz Hdi Hsz) as (d' & ok & -> & Hy & _).
  cbn [mbind option_bind fst snd]. eexists _, _. split; [done|].
  eapply updates_trans; [done|]. rewrite <- Hm. apply put_dict_updates; try done; [apply Hu1|lia].
Qed.

Lemma kvstoreDictTryExpand_spec cr alloc kvs didx sz :
  kvs_inv kvs -> 0 <= didx < num_dicts kvs -> 0 <= sz ->
  exists kvs' ok, kvstoreDictTryExpand cr alloc kvs didx sz = Some (kvs', ok) /\
    updates kvs kvs' didx (kvs_map kvs didx).
Proof.
  intros Hi Hd Hsz. unfold kvstoreDictTryExpand. destruct (sz =? 0); [eauto using updates_refl|].
  destruct (createDictIfNeeded_spec kvs didx Hi Hd) as (kvs1 & d & -> & Hu1 & Hl & Hdi & Hm).
  mstep. destruct (d_try_expand_law cr alloc d sz Hdi Hsz) as (d' & ok & -> & Hy & _).
  cbn [mbind option_bind fst snd]. eexists _, _. split; [done|].
  eapply updates_trans; [done|]. rewrite <- Hm. apply put_dict_updates; try done; [apply Hu1|lia].
Qed.

(** [kvs'] has the same contents. *)
Record same_contents kvs kvs' : Prop := {
  sc_inv : kvs_inv kvs';
  sc_bits : num_dicts_bits kvs' = num_dicts_bits kvs;
  sc_free : flag_free_empty kvs' = flag_free_empty kvs;
  sc_map i : 0 <= i < num_dicts kvs -> kvs_map kvs' i = kvs_map kvs i
}.

Lemma updates_same kvs kvs' didx : updates kvs kvs' didx (kvs_map kvs didx) -> same_contents kvs kvs'.
Proof.
  intros [Hi Hb Hf Hm]. split; try done. intros i Hr. rewrite Hm by done. by case_decide; subst.
Qed.

Lemma same_contents_refl kvs : kvs_inv kvs -> same_contents kvs kvs.
Proof. by split. Qed.

Lemma same_contents_trans kvs1 kvs2 kvs3 :
  same_contents kvs1 kvs2 -> same_contents kvs2 kvs3 -> same_contents kvs1 kvs3.
Proof.
  intros [I1 B1 F1 M1] [I2 B2 F2 M2]. split; [done|congruence|congruence|].
  intros i Hi. rewrite M2 by (unfold num_dicts in *; by rewrite B1). auto.
Qed.

Lemma kvstoreExpand_loop_spec cr alloc todo kvs i newsize try_expand skip_cb :
  kvs_inv kvs -> 0 <= newsize -> 0 <= i -> i + Z.of_nat todo <= num_dicts kvs ->
  exists kvs' ok, kvstoreExpand_loop cr alloc todo kvs i newsize try_expand skip_cb = Some (kvs', ok) /\
    same_contents kvs kvs'.
Proof.
  revert kvs i. induction todo as [|todo IH]; intros kvs i Hi Hn H0 Hle; cbn [kvstoreExpand_loop].
  { eauto using same_contents_refl. }
  destruct (skip_cb i); [apply IH; lia || done|].
  assert (forall kvs1, updates kvs kvs1 i (kvs_map kvs i) ->
    exists kvs' ok, kvstoreExpand_loop cr alloc todo kvs1 (i + 1) newsize try_expand skip_cb = Some (kvs', ok) /\
      same_contents kvs kvs') as Hnext.
  { intros kvs1 Hu. pose proof (updates_num _ _ _ _ Hu) as Hnum.
    destruct (IH kvs1 (i + 1) (up_inv _ _ _ _ Hu)) as (kvs2 & ok & -> & Hs2); [lia..|].
    exists kvs2, ok. split; [done|]. eapply same_contents_trans; [by eapply updates_same|done]. }
  destruct try_expand.
  - destruct (kvstoreDictTryExpand_spec cr (alloc i) kvs i newsize Hi ltac:(lia) Hn) as (kvs1 & ok & -> & Hu).
    mstep. destruct ok; [by apply Hnext|]. simpl.
    eexists _, _. split; [done|]. by eapply updates_same.
  - destruct (kvstoreDictExpand_spec cr kvs i newsize Hi ltac:(lia) Hn) as (kvs1 & ok & -> & Hu).
    cbn [mbind option_bind fst]. by apply Hnext.
Qed.

Lemma kvstoreExpand_spec cr alloc kvs newsize try_expand skip_cb :
  kvs_inv kvs -> 0 <= newsize ->
  exists kvs' ok, kvstoreExpand cr alloc kvs newsize try_expand skip_cb = Some (kvs', ok) /\
    same_contents kvs kvs'.
Proof.
  intros Hi Hn. unfold kvstoreExpand. destruct (newsize =? 0); [eauto using same_contents_refl|].
  pose proof (num_dicts_pos kvs (proj1 Hi)). apply kvstoreExpand_loop_spec; lia || done.
Qed.

Lemma set_cursor_inv kvs c :
  kvs_inv kvs -> 0 <= c < num_dicts kvs -> same_contents kvs (set_cursor kvs c).
Proof.
  intros [Hs Hc] Hr. rewrite num_dicts_pow in Hr by done. split; [split; [|exact Hc]|done|done|done].
  destruct Hs. by split.
Qed.

Lemma try_resize_dict_spec cr kvs didx d :
  kvs_inv kvs -> 0 <= didx < num_dicts kvs -> dicts kvs !! Z.to_nat didx = Some (Some d) ->
  exists kvs', try_resize_dict cr kvs didx d = Some kvs' /\ same_contents kvs kvs'.
Proof.
  intros Hi Hd Hl. unfold try_resize_dict.
  destruct (d_shrink_if_needed_law cr d (so_dicts _ (proj1 Hi) _ _ Hl)) as (d1 & ok & -> & Hy & _).
  mstep. destruct (put_dict_same kvs didx d d1 Hi Hd Hl Hy) as [Hu1 Hl1].
  destruct ok; [eexists; split; [done|]; by eapply updates_same|].
  destruct Hy as (Hi1 & Hm1 & _).
  destruct (d_expand_if_needed_law cr d1 Hi1) as (d2 & ok & -> & Hy2 & _). cbn [mbind option_bind fst].
  pose proof Hd as Hd1. rewrite <- (updates_num _ _ _ _ Hu1) in Hd1.
  destruct (put_dict_same _ didx d1 d2 (up_inv _ _ _ _ Hu1) Hd1 Hl1 Hy2) as [Hu2 _].
  eexists. split; [done|]. eapply same_contents_trans; by eapply updates_same.
Qed.

Lemma kvstoreTryResizeDicts_spec cr kvs limit :
  kvs_inv kvs ->
  exists kvs', kvstoreTryResizeDicts cr kvs limit = Some kvs' /\ same_contents kvs kvs'.
Proof.
  unfold kvstoreTryResizeDicts. generalize (Z.to_nat (if limit >? num_dicts kvs then num_dicts kvs else limit)).
  intros n. revert kvs. induction n as [|n IH]; intros kvs Hi; cbn [kvstoreTryResizeDicts_loop].
  { eauto using same_contents_refl. }
  pose proof (num_dicts_pos kvs (proj1 Hi)) as Hpos.
  assert (0 <= resize_cursor kvs < num_dicts kvs) as Hr.
  { rewrite num_dicts_pow by apply Hi. apply Hi. }
  destruct (get_dict kvs _ (proj1 Hi) Hr) as (od & Hg & Hl & Hm). rewrite Hg. mstep.
  assert (exists kvs1, match od with None => Some kvs | Some d => try_resize_dict cr kvs (resize_cursor kvs) d
    end = Some kvs1 /\ same_contents kvs kvs1) as (kvs1 & -> & Hs1).
  { destruct od; [by apply try_resize_dict_spec|eauto using same_contents_refl]. }
  mstep.
  assert (num_dicts kvs1 = num_dicts kvs) as Hn1 by (unfold num_dicts; by rewrite (sc_bits _ _ Hs1)).
  destruct (IH (set_cursor kvs1 ((resize_cursor kvs + 1) mod num_dicts kvs1))) as (kvs2 & -> & Hs2).
  { apply set_cursor_inv; [apply Hs1|]. apply Z.mod_pos_bound. lia. }
  exists kvs2. split; [done|]. eapply same_contents_trans; [done|]. eapply same_contents_trans; [|done].
  apply set_cursor_inv; [apply Hs1|]. apply Z.mod_pos_bound. lia.
Qed.

(** ** Emptying *)

Definition emptied od : Prop :=
  match od with
  | None => True
  | Some d => d_inv d /\ d_map d = ∅ /\ d_buckets d = 0 /\ d_draining d = 0 /\ d_rehashing d = false
  end.

Lemma empty_dict_step kvs didx d :
  0 <= didx -> dicts kvs !! Z.to_nat didx = Some (Some d) -> d_inv d ->
  exists od, emptied od /\
    freeDictIfNeeded (set_dicts kvs (<[Z.to_nat didx := Some (d_empty d)]> (dicts kvs)) (allocated_dicts kvs)) didx
    = Some (set_dicts kvs (<[Z.to_nat didx := od]> (dicts kvs)) (allocated_dicts kvs - 1 + od_alloc od)).
Proof.
  intros Hd Hl Hi. destruct (d_empty_law d Hi) as (E1 & E2 & E3 & E4 & E5 & E6).
  pose proof (lookup_lt_Some _ _ _ Hl) as Hlt.
  unfold freeDictIfNeeded, kvstoreDictSize, kvstoreDictIsRehashingPaused, kvstoreGetDict.
  rewrite (proj2 (Z.leb_le 0 didx)) by done. cbn [dicts set_dicts flag_free_empty].
  rewrite list_lookup_insert_eq by done. mstep.
  rewrite (d_size_law _ E1), E2, map_size_empty, E6. cbn [negb orb Z.of_nat Z.eqb].
  destruct (flag_free_empty kvs); cbn [negb].
  - exists None. split; [done|]. f_equal. unfold replay.
    destruct (d_release_law (d_empty d)) as (from & to & -> & _). rewrite E5, log_suffix. cbn.
    rewrite list_insert_insert_eq. unfold set_dicts. cbn. f_equal. lia.
  - exists (Some (d_empty d)). split; [done|]. f_equal. unfold set_dicts. cbn. f_equal. lia.
Qed.

Lemma kvstoreEmpty_loop_spec todo kvs didx :
  0 <= didx -> didx + Z.of_nat todo = Z.of_nat (length (dicts kvs)) ->
  (forall i d, dicts kvs !! i = Some (Some d) -> d_inv d) ->
  (forall i od, (Z.of_nat i < didx) -> dicts kvs !! i = Some od -> emptied od) ->
  allocated_dicts kvs = zsum (od_alloc <$> dicts kvs) ->
  exists ds, kvstoreEmpty_loop todo kvs didx = Some (set_dicts kvs ds (zsum (od_alloc <$> ds))) /\
    length ds = length (dicts kvs) /\ Forall emptied ds.
Proof.
  revert kvs didx. induction todo as [|todo IH]; intros kvs didx Hd Hn Hinv Hem Hal; cbn [kvstoreEmpty_loop].
  { exists (dicts kvs). split_and!; [|done|].
    - rewrite <- Hal. by destruct kvs.
    - apply Forall_lookup. intros i od Hi. apply (Hem i od); [|done].
      apply lookup_lt_Some in Hi. lia. }
  unfold kvstoreGetDict at 1. rewrite (proj2 (Z.leb_le 0 didx)) by done.
  destruct (lookup_lt_is_Some_2 (dicts kvs) (Z.to_nat didx)) as [od Hod]; [lia|].
  rewrite Hod. mstep. destruct od as [d|].
  - destruct (empty_dict_step kvs didx d Hd Hod (Hinv _ _ Hod)) as (od & Hod' & ->). mstep.
    pose proof (lookup_lt_Some _ _ _ Hod) as Hlt.
    destruct (IH (set_dicts kvs (<[Z.to_nat didx := od]> (dicts kvs)) (allocated_dicts kvs - 1 + od_alloc od))
      (didx + 1)) as (ds & -> & Hl & Hall); cbn [dicts set_dicts allocated_dicts].
    + lia.
    + rewrite length_insert. lia.
    + intros i d0. destruct (decide (i = Z.to_nat didx)) as [->|Hne].
      * rewrite list_lookup_insert_eq by done. intros [= ->]. apply Hod'.
      * rewrite list_lookup_insert_ne by done. apply Hinv.
    + intros i od0 Hi. destruct (decide (i = Z.to_nat didx)) as [->|Hne].
      * rewrite list_lookup_insert_eq by done. by intros [= ->].
      * rewrite list_lookup_insert_ne by done. apply Hem. lia.
    + rewrite (zsum_insert _ _ _ _ _ Hod), Hal. simpl. lia.
    + exists ds. rewrite Hl. cbn [dicts set_dicts]. by rewrite length_insert.
  - apply IH; try done; [lia|lia|]. intros i od Hi Hio.
    destruct (decide (i = Z.to_nat didx)) as [->|Hne]; [rewrite Hod in Hio; by simplify_eq|].
    apply (Hem i); [lia|done].
Qed.

Lemma zsum_emptied (f : option D -> Z) ds :
  Forall emptied ds -> (forall od, emptied od -> f od = 0) -> zsum (f <$> ds) = 0.
Proof.
  intros Hall Hf. induction Hall as [|od ds Ho _ IH]; [done|].
  rewrite fmap_cons. change (f od + zsum (f <$> ds) = 0). rewrite Hf by done. lia.
Qed.

Lemma sizes_emptied ds : Forall emptied ds -> od_size <$> ds = replicate (length ds) 0.
Proof.
  induction 1 as [|od ds Ho _ IH]; [done|]. rewrite fmap_cons, IH. simpl. f_equal.
  unfold od_size. destruct od; simpl in *; [destruct Ho as (_ & -> & _)|]; done.
Qed.

Lemma kvstoreEmpty_spec kvs :
  kvs_inv kvs ->
  exists kvs', kvstoreEmpty kvs = Some kvs' /\ kvs_inv kvs' /\
    num_dicts_bits kvs' = num_dicts_bits kvs /\ flag_free_empty kvs' = flag_free_empty kvs /\
    (forall i, kvs_map kvs' i = ∅).
Proof.
  intros [Hs (Hk & H0 & H1)]. unfold kvstoreEmpty.
  destruct (kvstoreEmpty_loop_spec (Z.to_nat (num_dicts kvs)) kvs 0) as (ds & -> & Hl & Hall).
  { lia. }
  { rewrite num_dicts_pow, <- (so_len _ Hs), Nat2Z.id by done. lia. }
  { apply Hs. }
  { intros i od Hi. lia. }
  { apply Hs. }
  mstep. eexists. split; [done|].
  set (kvs' := set_cursor _ _).
  assert (forall od, od ∈ ds -> emptied od) as Hin by (by apply Forall_forall).
  assert (Z.of_nat (length ds) = 2 ^ num_dicts_bits kvs) as Hlen by (rewrite Hl; apply Hs).
  pose proof (Z.pow_pos_nonneg 2 (num_dicts_bits kvs)). pose proof (so_bits _ Hs) as Hb.
  split_and!; [split|done|done|].
  - unfold kvs'. split; cbn -[zsum]; try done; try lia.
    + intros i d Hi. apply list_elem_of_lookup_2, Hin in Hi. apply Hi.
    + constructor.
    + intros i. split; [intros Hx; by apply not_elem_of_nil in Hx|].
      intros (_ & d & Hd & Hr). apply list_elem_of_lookup_2, Hin in Hd. simpl in Hd.
      destruct Hd as (_ & _ & _ & _ & Hd). congruence.
    + symmetry. apply zsum_emptied; [done|]. intros [d|]; simpl; [tauto|done].
    + rewrite (zsum_emptied od_buckets); [lia|done|]. intros [d|]; simpl; [tauto|done].
    + intros _. symmetry. apply zsum_emptied; [done|]. intros [d|]; simpl; [tauto|done].
  - unfold kvs', sizes. cbn [dicts set_cursor set_counts set_rehash set_dicts].
    rewrite sizes_emptied by done. split_and!; cbn [key_count set_cursor set_counts num_dicts_bits
      set_rehash set_dicts dict_size_index].
    + unfold zsum. generalize (length ds). intros n. by induction n.
    + intros Hz. by rewrite H0.
    + intros Hp. destruct (H1 Hp) as [Hli _]. destruct (dict_size_index kvs); [done|].
      replace (Z.to_nat (num_dicts _)) with (length ds); [apply bit_inv_zero|].
      unfold num_dicts. cbn [num_dicts_bits set_dicts]. rewrite Z.shiftl_mul_pow2 by lia. lia.
  - intros i. unfold kvs_map, kvstoreGetDict, kvs'. cbn [dicts set_cursor set_counts set_rehash set_dicts].
    destruct (0 <=? i); [|done]. destruct (ds !! Z.to_nat i) as [[d|]|] eqn:E; [|done|done].
    apply list_elem_of_lookup_2, Hin in E. simpl in *. tauto.
Qed.

Lemma kvstoreCreate_spec bits on_demand free_empty :
  0 <= bits <= 16 ->
  exists kvs, kvstoreCreate bits on_demand free_empty = Some kvs /\ kvs_inv kvs /\
    num_dicts_bits kvs = bits /\ flag_free_empty kvs = free_empty /\ (forall i, kvs_map kvs i = ∅).
Proof.
  intros Hb. unfold kvstoreCreate. rewrite (proj2 (Z.leb_le bits 16)) by lia. cbn [negb].
  destruct d_create_law as (C1 & C2 & C3 & C4 & C5 & C6).
  set (od := if on_demand then None else Some d_create).
  assert (Z.shiftl 1 bits = 2 ^ bits) as Hsh by (rewrite Z.shiftl_mul_pow2 by lia; lia).
  pose proof (Z.pow_pos_nonneg 2 bits ltac:(lia) ltac:(lia)) as Hpow.
  rewrite Hsh. eexists. split; [done|]. set (kvs := Kvstore _ _ _ _ _ _ _ _ _ _ _ _ _).
  assert (emptied od) as Hem by (unfold od; by destruct on_demand; simpl; auto).
  assert (Forall emptied (replicate (Z.to_nat (2 ^ bits)) od)) as Hall by (by apply Forall_replicate).
  assert (forall i d, dicts kvs !! i = Some (Some d) -> emptied (Some d)) as Hl.
  { intros i d Hi. apply lookup_replicate in Hi as [<- _]. done. }
  split_and!; [split|done|done|].
  - unfold kvs. split; cbn -[zsum replicate]; try done; try lia.
    + rewrite length_replicate. lia.
    + intros i d Hi. by apply (Hl i d).
    + rewrite fmap_replicate. unfold od. generalize (Z.to_nat (2 ^ bits)). intros n.
      unfold zsum. destruct on_demand; induction n as [|n IH]; simpl in *; lia.
    + constructor.
    + intros i. split; [intros Hx; by apply not_elem_of_nil in Hx|].
      intros (_ & d & Hd & Hr). apply (Hl _ d) in Hd. simpl in Hd. destruct Hd as (_ & _ & _ & _ & Hd). congruence.
    + symmetry. apply zsum_emptied; [done|]. intros [d|]; simpl; [tauto|done].
    + rewrite (zsum_emptied od_buckets); [lia|done|]. intros [d|]; simpl; [tauto|done].
    + intros _. symmetry. apply zsum_emptied; [done|]. intros [d|]; simpl; [tauto|done].
  - unfold sizes, kvs. cbn [dicts key_count num_dicts_bits dict_size_index].
    rewrite sizes_emptied, length_replicate by done. split_and!; cbn [key_count num_dicts_bits dict_size_index].
    + unfold zsum. generalize (Z.to_nat (2 ^ bits)). intros n. by induction n.
    + intros ->. done.
    + intros Hp. rewrite (proj2 (Z.gtb_lt _ _)); [apply bit_inv_zero|]. apply Z.pow_gt_1; lia.
  - intros i. unfold kvs_map, kvstoreGetDict. destruct (0 <=? i); [|done].
    destruct (dicts kvs !! Z.to_nat i) as [[d|]|] eqn:E; [|done|done].
    apply (Hl _ d) in E. simpl in *. tauto.
Qed.
End correct.
