(* ===== verification/KvstoreRun.v ===== *)
(** * What the kvstore guarantees

    Whole runs against finite maps, the searches over the binary indexed
    tree, and the iteration of SCAN across dicts; then the two counters that
    go wrong.  Everything is proved for any dict satisfying [DictLaws]; the
    witnesses use the hash table of src/dict.c. *)
From S2P Require Import Prelude Dict DictSpec DictCorrect DictScan DictIface.
From S2P Require Import Kvstore KvstoreSpec KvstoreCorrect.
From Stdlib Require Import ZArith Lia.
From stdpp Require Import prelude gmap list.

#[local] Open Scope Z_scope.
#[local] Abbreviation rev := DictScan.rev.

Section run.
Context {K V D : Type} `{Countable K} `{!DictOps K V D} `{!DictLaws K V D}.

Implicit Types (kvs : kvstore D).

(** ** Sizes *)

Lemma zsum_sizes kvs :
  kvs_inv kvs ->
  zsum (sizes kvs) = zsum ((fun i => Z.of_nat (size (kvs_map kvs i))) <$> seqZ 0 (num_dicts kvs)).
Proof.
  intros [Hs _]. f_equal. unfold sizes. apply list_eq. intros i.
  pose proof (so_len _ Hs) as Hlen. rewrite <- num_dicts_pow in Hlen by done.
  rewrite !list_lookup_fmap. destruct (decide (i < length (dicts kvs))%nat) as [Hlt|Hge].
  - rewrite lookup_seqZ_lt, Z.add_0_l by lia. cbn [fmap option_fmap option_map].
    destruct (get_dict kvs (Z.of_nat i) Hs ltac:(lia)) as (od & _ & Hl & Hm).
    rewrite Nat2Z.id in Hl. rewrite Hl, Hm. done.
  - rewrite lookup_seqZ_ge by lia. by rewrite lookup_ge_None_2 by lia.
Qed.

Lemma kvstoreSize_spec kvs : kvs_inv kvs -> kvstoreSize kvs = Some (zsum (sizes kvs)).
Proof.
  intros [Hs (Hk & _)]. unfold kvstoreSize. rewrite single_dict by done.
  destruct (Z.eqb_spec (num_dicts_bits kvs) 0) as [Hz|Hz]; simpl; [|by rewrite Hk].
  unfold kvstoreDictSize. pose proof (num_dicts_pos kvs Hs).
  destruct (get_dict kvs 0 Hs ltac:(lia)) as (od & Hg & Hl & Hm). rewrite Hg. simpl.
  pose proof (so_len _ Hs) as Hlen. rewrite Hz in Hlen. unfold sizes.
  destruct (dicts kvs) as [|od' [|]] eqn:E; simpl in Hlen; try lia.
  simpl in Hl. simplify_eq. f_equal. unfold zsum. simpl. unfold od_size, od_map.
  destruct od as [d|]; [|done]. rewrite (d_size_law d (so_dicts _ Hs 0%nat d ltac:(by rewrite E))). lia.
Qed.

Lemma sizes_lookup kvs i :
  kvs_inv kvs -> 0 <= i < num_dicts kvs ->
  sizes kvs !! Z.to_nat i = Some (Z.of_nat (size (kvs_map kvs i))).
Proof.
  intros [Hs _] Hi. destruct (get_dict kvs i Hs Hi) as (od & _ & Hl & Hm).
  unfold sizes. rewrite list_lookup_fmap, Hl. simpl. unfold od_size. by rewrite Hm.
Qed.

Lemma length_sizes kvs : kvs_inv kvs -> Z.of_nat (length (sizes kvs)) = num_dicts kvs.
Proof. intros [Hs _]. unfold sizes. rewrite length_fmap, num_dicts_pow by done. apply Hs. Qed.

Lemma psum_next kvs i :
  kvs_inv kvs -> 0 <= i < num_dicts kvs ->
  psum (sizes kvs) (i + 1) = psum (sizes kvs) i + Z.of_nat (size (kvs_map kvs i)).
Proof. intros Hi Hr. apply psum_succ; [lia|by apply sizes_lookup]. Qed.

(** ** Searching *)

Lemma find_index_spec kvs target :
  kvs_inv kvs -> 0 < num_dicts_bits kvs -> 1 <= target <= zsum (sizes kvs) ->
  exists r, kvstoreFindDictIndexByKeyIndex kvs target = Some r /\ 0 <= r < num_dicts kvs /\
    psum (sizes kvs) r < target <= psum (sizes kvs) (r + 1).
Proof.
  intros Hi Hb Ht. unfold kvstoreFindDictIndexByKeyIndex. rewrite kvstoreSize_spec by done.
  mstep. rewrite single_dict by apply Hi. rewrite (proj2 (Z.eqb_neq _ 0)) by lia.
  rewrite (proj2 (Z.eqb_neq _ 0)) by lia. rewrite (proj2 (Z.leb_le _ _)) by lia. cbn [orb negb].
  pose proof (length_sizes kvs Hi) as Hlen. rewrite num_dicts_pow in * by apply Hi.
  apply bit_find_spec; [by apply Hi|lia|done|lia].
Qed.

Lemma cumulativeKeyCountRead_spec kvs didx :
  kvs_inv kvs -> 0 <= didx < num_dicts kvs ->
  cumulativeKeyCountRead kvs didx = Some (psum (sizes kvs) (didx + 1)).
Proof.
  intros Hi Hd. unfold cumulativeKeyCountRead. rewrite single_dict by apply Hi.
  pose proof (length_sizes kvs Hi) as Hlen.
  destruct (Z.eqb_spec (num_dicts_bits kvs) 0) as [Hz|Hz].
  - assert (num_dicts kvs = 1) as Hn by (rewrite num_dicts_pow, Hz by apply Hi; done).
    assert (didx = 0) as -> by lia. rewrite kvstoreSize_spec by done. simpl.
    rewrite <- psum_all, Hlen, Hn. done.
  - pose proof (so_bits _ (proj1 Hi)).
    rewrite (bit_read_spec _ (sizes kvs)); [f_equal; lia|apply Hi; lia|lia|lia].
Qed.

(** The search over the binary indexed tree returns the dict that holds
    the [target]-th key when the keys are counted in dict order, so a uniform
    [target] picks a dict with probability proportional to its size. *)
Theorem kvstoreFindDictIndexByKeyIndex_correct kvs target
    (Hi : kvs_inv kvs) (Hb : 0 < num_dicts_bits kvs) (Ht : 1 <= target <= zsum (sizes kvs)) :
  exists r, kvstoreFindDictIndexByKeyIndex kvs target = Some r /\ 0 <= r < num_dicts kvs /\
    psum (sizes kvs) r < target <= psum (sizes kvs) r + Z.of_nat (size (kvs_map kvs r)).
Proof.
  destruct (find_index_spec kvs target Hi Hb Ht) as (r & Hr & Hrange & Hp).
  exists r. split_and!; try done; try lia. rewrite <- psum_next by done. lia.
Qed.

Lemma next_index_spec kvs didx :
  kvs_inv kvs -> 0 <= didx < num_dicts kvs ->
  exists r, kvstoreGetNextNonEmptyDictIndex kvs didx = Some r /\
    (r = -1 \/ didx < r < num_dicts kvs /\ kvs_map kvs r <> ∅) /\
    (forall i, didx < i < (if r =? -1 then num_dicts kvs else r) -> kvs_map kvs i = ∅).
Proof.
  intros Hi Hd. unfold kvstoreGetNextNonEmptyDictIndex. rewrite single_dict by apply Hi.
  pose proof (so_bits _ (proj1 Hi)) as Hb. pose proof (length_sizes kvs Hi) as Hlen.
  destruct (Z.eqb_spec (num_dicts_bits kvs) 0) as [Hz|Hz].
  { assert (num_dicts kvs = 1) as Hn by (rewrite num_dicts_pow, Hz by apply Hi; done).
    assert (didx = 0) as -> by lia. exists (-1). split_and!; [done|by left|]. simpl. lia. }
  rewrite cumulativeKeyCountRead_spec by done. mstep.
  rewrite kvstoreSize_spec by done. mstep.
  assert (forall i, 0 <= i < num_dicts kvs -> psum (sizes kvs) i <= psum (sizes kvs) (i + 1)
    <= zsum (sizes kvs) /\ (psum (sizes kvs) (i + 1) = psum (sizes kvs) i -> kvs_map kvs i = ∅)) as Hpi.
  { intros i Hr. pose proof (psum_next kvs i Hi Hr) as Hn.
    assert (0 <= i + 1 <= Z.of_nat (length (sizes kvs))) as Hx by lia.
    pose proof (psum_mono _ _ _ (sizes_nonneg kvs) Hx) as Hm.
    rewrite psum_all in Hm. split; [lia|]. intros He. apply map_size_empty_inv. lia. }
  pose proof (psum_mono (sizes kvs)) as Hmono.
  destruct (Z.leb_spec (psum (sizes kvs) (didx + 1) + 1) (zsum (sizes kvs))) as [Hle|Hgt].
  - assert (0 <= 0 <= didx + 1) as Hx by lia.
    pose proof (Hmono 0 (didx + 1) (sizes_nonneg kvs) Hx) as Hpos. rewrite psum_0 in Hpos.
    destruct (find_index_spec kvs (psum (sizes kvs) (didx + 1) + 1) Hi)
      as (r & -> & Hr & Hp); [lia|lia|].
    assert (didx < r) as Hlt.
    { destruct (Z.lt_ge_cases didx r); [done|]. exfalso.
      pose proof (Hmono (r + 1) (didx + 1) (sizes_nonneg kvs) ltac:(lia)). lia. }
    exists r. split; [done|]. rewrite (proj2 (Z.eqb_neq r (-1))) by lia. split.
    + right. split; [lia|]. intros He. pose proof (psum_next kvs r Hi Hr) as Hn.
      rewrite He, map_size_empty in Hn. lia.
    + intros i Hir. apply Hpi; [lia|]. pose proof (Hmono (didx + 1) i (sizes_nonneg kvs) ltac:(lia)).
      pose proof (Hmono (i + 1) r (sizes_nonneg kvs) ltac:(lia)). pose proof (Hpi i ltac:(lia)). lia.
  - exists (-1). split_and!; [done|by left|]. simpl. intros i Hir. apply Hpi; [lia|].
    pose proof (Hmono (didx + 1) i (sizes_nonneg kvs) ltac:(lia)). pose proof (Hpi i ltac:(lia)). lia.
Qed.

(** The successor search returns the next non-empty dict: the result is
    after [didx] and not empty, every dict in between is empty, and [-1] means
    that no non-empty dict follows. *)
Theorem kvstoreGetNextNonEmptyDictIndex_correct kvs didx
    (Hi : kvs_inv kvs) (Hd : 0 <= didx < num_dicts kvs) :
  exists r, kvstoreGetNextNonEmptyDictIndex kvs didx = Some r /\
    (r = -1 \/ didx < r < num_dicts kvs /\ kvs_map kvs r <> ∅) /\
    (forall i, didx < i < (if r =? -1 then num_dicts kvs else r) -> kvs_map kvs i = ∅).
Proof. by apply next_index_spec. Qed.

(** ** Whole runs *)

Inductive kv_op :=
  | KvAdd (didx : Z) (k : K)             (* kvstoreDictAddRaw *)
  | KvSet (didx : Z) (k : K) (v : V)     (* kvstoreDictFind, then kvstoreDictSetVal *)
  | KvFetch (didx : Z) (k : K)
  | KvDelete (didx : Z) (k : K)
  | KvUnlink (didx : Z) (k : K)          (* both phases of the unlink *)
  | KvExpandAll (newsize : Z) (try_expand : bool) (skip : Z -> bool) (alloc : Z -> bool)
  | KvTryResize (limit : Z)
  | KvEmpty.

Inductive kv_res := KUnit | KFlag (ok : bool) | KVal (v : option V).

Definition kv_step (call : dictResizeEnable * kv_op) kvs : option (kvstore D * kv_res) :=
  let cr := call.1 in
  match call.2 with
  | KvAdd didx k =>
      match kvstoreDictAddRaw cr kvs didx k with
      | Some (kvs, inr _) => Some (kvs, KFlag true)
      | Some (kvs, inl _) => Some (kvs, KFlag false)
      | None => None
      end
  | KvSet didx k v =>
      match kvstoreDictFind cr kvs didx k with
      | Some (kvs, Some h) => kvs ← kvstoreDictSetVal kvs didx h v; Some (kvs, KFlag true)
      | Some (kvs, None) => Some (kvs, KFlag false)
      | None => None
      end
  | KvFetch didx k =>
      match kvstoreDictFetchValue cr kvs didx k with Some (kvs, v) => Some (kvs, KVal v) | None => None end
  | KvDelete didx k =>
      match kvstoreDictDelete cr kvs didx k with Some (kvs, b) => Some (kvs, KFlag b) | None => None end
  | KvUnlink didx k =>
      match kvstoreDictTwoPhaseUnlinkFind cr kvs didx k with
      | Some (kvs, Some h) => kvs ← kvstoreDictTwoPhaseUnlinkFree cr kvs didx h; Some (kvs, KFlag true)
      | Some (kvs, None) => Some (kvs, KFlag false)
      | None => None
      end
  | KvExpandAll n try skip alloc =>
      match kvstoreExpand cr alloc kvs n try skip with Some (kvs, _) => Some (kvs, KUnit) | None => None end
  | KvTryResize limit =>
      match kvstoreTryResizeDicts cr kvs limit with Some kvs => Some (kvs, KUnit) | None => None end
  | KvEmpty => match kvstoreEmpty kvs with Some kvs => Some (kvs, KUnit) | None => None end
  end.

Definition kv_op_ok (n : Z) (op : kv_op) : Prop :=
  match op with
  | KvAdd didx _ | KvFetch didx _ | KvDelete didx _ | KvUnlink didx _ => 0 <= didx < n
  | KvSet didx _ _ => 0 <= didx < n /\ d_valued
  | KvExpandAll newsize _ _ _ => 0 <= newsize
  | KvTryResize _ | KvEmpty => True
  end.

(** The specification: one finite map per dict index. *)
Definition maps := Z -> gmap K (option V).
Definition set_map (f : maps) (didx : Z) (m : gmap K (option V)) : maps :=
  fun i => if decide (i = didx) then m else f i.

Definition maps_step (op : kv_op) (f : maps) : maps * kv_res :=
  match op with
  | KvAdd didx k =>
      if decide (f didx !! k = None) then (set_map f didx (<[k := None]> (f didx)), KFlag true)
      else (f, KFlag false)
  | KvSet didx k v =>
      if decide (f didx !! k = None) then (f, KFlag false)
      else (set_map f didx (<[k := Some v]> (f didx)), KFlag true)
  | KvFetch didx k => (f, KVal (f didx !! k ≫= id))
  | KvDelete didx k | KvUnlink didx k =>
      (set_map f didx (delete k (f didx)), KFlag (bool_decide (f didx !! k <> None)))
  | KvExpandAll _ _ _ _ | KvTryResize _ => (f, KUnit)
  | KvEmpty => (fun _ => ∅, KUnit)
  end.

Fixpoint kv_run (calls : list (dictResizeEnable * kv_op)) kvs : option (kvstore D * list kv_res) :=
  match calls with
  | [] => Some (kvs, [])
  | c :: cs => r ← kv_step c kvs; r' ← kv_run cs r.1; Some (r'.1, r.2 :: r'.2)
  end.

Fixpoint maps_run (calls : list (dictResizeEnable * kv_op)) (f : maps) : maps * list kv_res :=
  match calls with
  | [] => (f, [])
  | c :: cs => let r := maps_step c.2 f in let r' := maps_run cs r.1 in (r'.1, r.2 :: r'.2)
  end.

(** [kvs] holds the maps [f]. *)
Definition holds kvs (f : maps) : Prop :=
  kvs_inv kvs /\ forall i, 0 <= i < num_dicts kvs -> kvs_map kvs i = f i.

Lemma updates_holds kvs kvs' f didx m :
  holds kvs f -> updates kvs kvs' didx m ->
  holds kvs' (set_map f didx m) /\ num_dicts_bits kvs' = num_dicts_bits kvs.
Proof.
  intros [_ Hf] Hu. split; [|apply Hu]. split; [apply Hu|]. intros i Hi.
  rewrite (updates_num _ _ _ _ Hu) in Hi. rewrite (up_map _ _ _ _ Hu) by done.
  unfold set_map. case_decide; [done|auto].
Qed.

Lemma same_holds kvs kvs' f :
  holds kvs f -> same_contents kvs kvs' -> holds kvs' f /\ num_dicts_bits kvs' = num_dicts_bits kvs.
Proof.
  intros [_ Hf] Hs. split; [|apply Hs]. split; [apply Hs|]. intros i Hi.
  assert (num_dicts kvs' = num_dicts kvs) as Hn by (unfold num_dicts; by rewrite (sc_bits _ _ Hs)).
  rewrite (sc_map _ _ Hs) by (by rewrite <- Hn). apply Hf. by rewrite <- Hn.
Qed.

Lemma kv_step_spec c kvs f :
  holds kvs f -> kv_op_ok (num_dicts kvs) c.2 ->
  exists kvs' res, kv_step c kvs = Some (kvs', res) /\ res = (maps_step c.2 f).2 /\
    holds kvs' (maps_step c.2 f).1 /\ num_dicts_bits kvs' = num_dicts_bits kvs.
Proof.
  intros Hh Hok. pose proof Hh as [Hi Hf]. destruct c as [cr op]. unfold kv_step. cbn [fst snd] in *.
  assert (forall kvs' didx, updates kvs kvs' didx (kvs_map kvs didx) ->
    holds kvs' f /\ num_dicts_bits kvs' = num_dicts_bits kvs) as Hsame.
  { intros kvs' didx Hu. eapply same_holds; [done|]. by eapply updates_same. }
  destruct op as [didx k|didx k v|didx k|didx k|didx k|n try skip alloc|limit|]; simpl in Hok.
  - destruct (kvstoreDictAddRaw_spec cr kvs didx k Hi Hok) as (kvs' & r & d & -> & _ & Hr).
    rewrite Hf in Hr by done. simpl. destruct r as [h|h]; destruct Hr as (Hu & Hk & _).
    + rewrite decide_False by done. eexists _, _. do 2 (split; [done|]).
      rewrite <- Hf in Hu by done. by apply (Hsame kvs' didx).
    + rewrite decide_True by done. eexists _, _. do 2 (split; [done|]); by apply (updates_holds kvs).
  - destruct Hok as [Hd Hv].
    destruct (kvstoreDictFind_spec cr kvs didx k Hi Hd) as (kvs1 & r & -> & Hu & Hr). simpl.
    pose proof Hu as Hu'. rewrite Hf in Hr by done. destruct r as [h|].
    2:{ rewrite decide_True by done. eexists _, _. do 2 (split; [done|]); by apply (Hsame kvs1 didx). }
    destruct Hr as (Hk & d & Hl & Hat). rewrite decide_False by done.
    assert (kvs_map kvs1 didx = f didx) as Hm1
      by (rewrite (up_map _ _ _ _ Hu), decide_True by done; auto).
    destruct (kvstoreDictSetVal_spec kvs1 didx d h k v (up_inv _ _ _ _ Hu)) as (kvs2 & -> & Hu2); try done.
    { by rewrite (updates_num _ _ _ _ Hu). }
    { by rewrite Hm1. }
    rewrite Hm1 in Hu2. mstep. eexists _, _. do 2 (split; [done|]).
    apply (updates_holds kvs); [done|]. by eapply updates_trans.
  - destruct (kvstoreDictFetchValue_spec cr kvs didx k Hi Hok) as (kvs' & -> & Hu). simpl.
    eexists _, _. split; [done|]. split; [by rewrite Hf|]. by apply (Hsame kvs' didx).
  - destruct (kvstoreDictDelete_spec cr kvs didx k Hi Hok) as (kvs' & -> & Hu). simpl.
    rewrite Hf in * by done. eexists _, _. do 2 (split; [done|]); by apply (updates_holds kvs).
  - destruct (kvstoreDictTwoPhaseUnlink_spec cr kvs didx k Hi Hok) as (kvs1 & r & -> & Hu & Hr). simpl.
    rewrite Hf in * by done. destruct r as [h|].
    + destruct Hr as (Hk & kvs2 & -> & Hu2). mstep. rewrite bool_decide_true by done.
      eexists _, _. do 2 (split; [done|]); by apply (updates_holds kvs).
    + rewrite bool_decide_false by tauto. rewrite delete_id by done.
      eexists _, _. do 2 (split; [done|]); by apply (updates_holds kvs).
  - destruct (kvstoreExpand_spec cr alloc kvs n try skip Hi Hok) as (kvs' & ok & -> & Hs).
    eexists _, _. do 2 (split; [done|]); by apply (same_holds kvs).
  - destruct (kvstoreTryResizeDicts_spec cr kvs limit Hi) as (kvs' & -> & Hs).
    eexists _, _. do 2 (split; [done|]); by apply (same_holds kvs).
  - destruct (kvstoreEmpty_spec kvs Hi) as (kvs' & -> & Hi' & Hb & _ & Hm).
    eexists _, _. split_and!; [done|done| |done]. split; [done|]. intros i _. apply Hm.
Qed.

Lemma kv_run_spec calls kvs f :
  holds kvs f -> Forall (fun c => kv_op_ok (num_dicts kvs) c.2) calls ->
  exists kvs' rs, kv_run calls kvs = Some (kvs', rs) /\ rs = (maps_run calls f).2 /\
    holds kvs' (maps_run calls f).1 /\ num_dicts_bits kvs' = num_dicts_bits kvs.
Proof.
  revert kvs f. induction calls as [|c cs IH]; intros kvs f Hh Hok.
  { exists kvs, []. done. }
  apply Forall_cons in Hok as [Hc Hcs]. cbn [kv_run maps_run].
  destruct (kv_step_spec c kvs f Hh Hc) as (kvs1 & res & -> & -> & Hh1 & Hb1). cbn [mbind option_bind fst snd].
  assert (num_dicts kvs1 = num_dicts kvs) as Hn by (unfold num_dicts; by rewrite Hb1).
  destruct (IH kvs1 _ Hh1) as (kvs2 & rs & -> & -> & Hh2 & Hb2); [by rewrite Hn|].
  cbn [mbind option_bind fst snd]. eexists _, _. split_and!; [done|done|done|congruence].
Qed.


(** ** Cursors across dicts *)

Lemma cursor_encode kvs didx v :
  shape_ok kvs -> 0 <= didx < num_dicts kvs -> fits_u 64 v ->
  (0 < num_dicts_bits kvs -> v < 2 ^ (64 - num_dicts_bits kvs)) ->
  fits_u 64 (addDictIndexToCursor kvs didx v) /\
  getAndClearDictIndexFromCursor kvs (addDictIndexToCursor kvs didx v) = (didx, v) /\
  (addDictIndexToCursor kvs didx v = 0 -> didx = 0 /\ v = 0).
Proof.
  intros Hs Hd Hv Hfit. unfold addDictIndexToCursor, getAndClearDictIndexFromCursor.
  rewrite single_dict by done. pose proof (so_bits _ Hs) as Hb. rewrite num_dicts_pow in * by done.
  destruct (Z.eqb_spec (num_dicts_bits kvs) 0) as [Hz|Hz].
  { rewrite Hz in Hd. split_and!; [done|f_equal; lia|lia]. }
  rewrite (proj2 (Z.ltb_ge _ _)) by lia. set (b := num_dicts_bits kvs) in *.
  assert (2 ^ 64 = 2 ^ (64 - b) * 2 ^ b) as H64 by (rewrite <- Z.pow_add_r by lia; f_equal; lia).
  destruct Hv as [Hv0 _]. specialize (Hfit ltac:(lia)).
  rewrite Z.shiftl_mul_pow2 by lia. rewrite wrapu_id by (split; nia).
  rewrite lor_disjoint by (lia || done). split_and!.
  - split; nia.
  - f_equal.
    + replace (2 ^ b - 1) with (Z.ones b) by (rewrite Z.ones_equiv; lia).
      rewrite Z.land_ones, Z.add_comm, Z.mod_add, Z.mod_small by lia. done.
    + rewrite Z.shiftr_div_pow2, Z.add_comm, Z.div_add, Z.div_small by lia. lia.
  - intros He. nia.
Qed.

Lemma cursor_decode kvs c :
  shape_ok kvs -> fits_u 64 c ->
  let p := getAndClearDictIndexFromCursor kvs c in 0 <= p.1 < num_dicts kvs /\ fits_u 64 p.2.
Proof.
  intros Hs Hc. unfold getAndClearDictIndexFromCursor. rewrite single_dict by done.
  pose proof (so_bits _ Hs) as Hb. pose proof (num_dicts_pos kvs Hs) as Hp.
  rewrite num_dicts_pow in * by done. destruct (Z.eqb_spec (num_dicts_bits kvs) 0) as [Hz|Hz]; simpl.
  { split; [lia|done]. }
  replace (2 ^ num_dicts_bits kvs - 1) with (Z.ones (num_dicts_bits kvs)) by (rewrite Z.ones_equiv; lia).
  rewrite Z.land_ones, Z.shiftr_div_pow2 by lia. split; [apply Z.mod_pos_bound; lia|].
  destruct Hc as [Hc0 Hc1]. split; [apply Z.div_pos; lia|]. apply Z.div_lt_upper_bound; nia.
Qed.

(** The position of a cursor, and of a key, in the order of the scan. *)
Definition cpos kvs (c : Z) : Z :=
  let p := getAndClearDictIndexFromCursor kvs c in p.1 * 2 ^ 64 + rev p.2.
Definition kpos (i : Z) (k : K) : Z := i * 2 ^ 64 + d_kpos k.

(** The dict cursors leave room for the dict index. *)
Definition cursors_fit kvs : Prop :=
  forall i d, dicts kvs !! i = Some (Some d) -> 0 < num_dicts_bits kvs ->
    d_buckets d <= 2 ^ (64 - num_dicts_bits kvs).

Lemma rev_0 : rev 0 = 0.
Proof. vm_compute. reflexivity. Qed.

(** Moving on to the next non-empty dict. *)
Lemma scan_next_dict kvs didx :
  kvs_inv kvs -> 0 <= didx < num_dicts kvs ->
  exists r q, kvstoreGetNextNonEmptyDictIndex kvs didx = Some r /\
    (didx + 1) * 2 ^ 64 <= q <= num_dicts kvs * 2 ^ 64 /\
    (r = -1 /\ q = num_dicts kvs * 2 ^ 64 \/
     r <> -1 /\ fits_u 64 (addDictIndexToCursor kvs r 0) /\ addDictIndexToCursor kvs r 0 <> 0 /\
     cpos kvs (addDictIndexToCursor kvs r 0) = q) /\
    (forall i k x, 0 <= i < num_dicts kvs -> kvs_map kvs i !! k = Some x ->
       (didx + 1) * 2 ^ 64 <= kpos i k < q -> False).
Proof.
  intros Hi Hd. destruct (next_index_spec kvs didx Hi Hd) as (r & Hr & Hcase & Hgap).
  exists r. destruct Hcase as [->|[Hlt Hne]].
  - exists (num_dicts kvs * 2 ^ 64). split_and!; [done|lia|lia|by left|].
    intros i k x Hir Hk Hpos. unfold kpos in Hpos. pose proof (d_kpos_law k).
    rewrite (Hgap i) in Hk by (simpl; lia). by rewrite lookup_empty in Hk.
  - exists (r * 2 ^ 64).
    destruct (cursor_encode kvs r 0 (proj1 Hi) ltac:(lia)) as (Hf & Hdec & Hz); [done| |].
    { intros _. apply Z.pow_pos_nonneg; pose proof (so_bits _ (proj1 Hi)); lia. }
    split_and!; [done|lia|lia| |].
    + right. split_and!; [lia|apply Hf|intros He; destruct (Hz He); lia|].
      unfold cpos. rewrite Hdec. cbn [fst snd]. rewrite rev_0. lia.
    + intros i k x Hir Hk Hpos. unfold kpos in Hpos. pose proof (d_kpos_law k).
      rewrite (Hgap i) in Hk by (rewrite (proj2 (Z.eqb_neq r (-1))) by lia; lia).
      by rewrite lookup_empty in Hk.
Qed.

(** Scanning the dict a cursor designates. *)
Lemma scan_dict_spec kvs didx v :
  kvs_inv kvs -> cursors_fit kvs -> 0 <= didx < num_dicts kvs -> fits_u 64 v ->
  exists kvs' es v' skip q, scan_dict kvs didx v (fun _ => false) = Some (kvs', es, v', skip) /\
    same_contents kvs kvs' /\ fits_u 64 v' /\
    (0 < num_dicts_bits kvs -> v' < 2 ^ (64 - num_dicts_bits kvs)) /\
    rev v < q <= 2 ^ 64 /\
    (if (v' =? 0) || skip then v' = 0 /\ q = 2 ^ 64 else rev v' = q) /\
    (forall k x, kvs_map kvs didx !! k = Some x -> rev v <= d_kpos k < q -> (k, x) ∈ es) /\
    (forall k x, (k, x) ∈ es -> kvs_map kvs didx !! k = Some x).
Proof.
  intros Hi Hfit Hd Hv. destruct (get_dict kvs didx (proj1 Hi) Hd) as (od & Hg & Hl & Hm).
  pose proof (so_bits _ (proj1 Hi)) as Hb. pose proof (rev_fits v Hv) as Hrv.
  assert (0 < num_dicts_bits kvs -> 0 < 2 ^ (64 - num_dicts_bits kvs)) as Hp
    by (intros _; apply Z.pow_pos_nonneg; lia).
  unfold scan_dict. rewrite Hg. mstep. destruct od as [d|]; simpl in Hm.
  2:{ eexists kvs, [], 0, true, (2 ^ 64). split_and!; try done; [apply Hrv|..].
      - intros k x Hk. by rewrite Hm, lookup_empty in Hk.
      - intros k x Hk. by apply not_elem_of_nil in Hk. }
  destruct (d_scan_law d v (so_dicts _ (proj1 Hi) _ _ Hl) Hv)
    as (es & v' & n & -> & Hv' & Hn & Hr & Hbk & Hc & Hso). cbn [mbind option_bind fst snd].
  destruct (freeDictIfNeeded_spec kvs didx Hi Hd) as (kvs' & -> & Hu). mstep.
  eexists kvs', es, v', false, n. rewrite Hm. split_and!; try done; try lia.
  - by eapply updates_same.
  - intros Hb0. specialize (Hfit _ _ Hl Hb0). specialize (Hp Hb0). lia.
  - rewrite orb_false_r. destruct (Z.eqb_spec v' 0) as [->|Hne].
    + split; [done|]. rewrite rev_0 in Hr. destruct (Z.eq_dec n (2 ^ 64)); [done|].
      rewrite Z.mod_small in Hr; [|destruct Hrv; lia]. destruct Hrv; lia.
    + rewrite Hr, Z.mod_small; [done|]. split; [destruct Hrv; lia|].
      destruct (Z.eq_dec n (2 ^ 64)) as [->|]; [|lia]. exfalso. apply Hne.
      rewrite Z.mod_same in Hr by lia. rewrite <- (rev_rev v') by done. rewrite Hr. apply rev_0.
Qed.

Lemma same_bits_cursor kvs kvs' :
  num_dicts_bits kvs' = num_dicts_bits kvs ->
  (forall c, cpos kvs' c = cpos kvs c) /\
  (forall didx c, addDictIndexToCursor kvs' didx c = addDictIndexToCursor kvs didx c) /\
  num_dicts kvs' = num_dicts kvs.
Proof.
  intros Hb. unfold cpos, getAndClearDictIndexFromCursor, addDictIndexToCursor, num_dicts.
  by rewrite Hb.
Qed.

Lemma kvstoreScan_step kvs c :
  kvs_inv kvs -> cursors_fit kvs -> fits_u 64 c ->
  exists kvs' es c' q, kvstoreScan kvs c (-1) (fun _ => false) = Some (kvs', es, c') /\
    same_contents kvs kvs' /\ fits_u 64 c' /\ cpos kvs c < q <= num_dicts kvs * 2 ^ 64 /\
    (c' = 0 /\ q = num_dicts kvs * 2 ^ 64 \/ c' <> 0 /\ cpos kvs c' = q) /\
    (forall i k x, 0 <= i < num_dicts kvs -> kvs_map kvs i !! k = Some x ->
       cpos kvs c <= kpos i k < q -> (k, x) ∈ es) /\
    (forall k x, (k, x) ∈ es -> exists i, 0 <= i < num_dicts kvs /\ kvs_map kvs i !! k = Some x).
Proof.
  intros Hi Hfit Hc. pose proof (cursor_decode kvs c (proj1 Hi) Hc) as [Hd Hv].
  unfold kvstoreScan, cpos at 1 3. destruct (getAndClearDictIndexFromCursor kvs c) as [didx v].
  cbn [fst snd] in *. change (0 <=? -1) with false. cbn [andb].
  destruct (scan_dict_spec kvs didx v Hi Hfit Hd Hv)
    as (kvs1 & es & v' & skip & q & -> & Hsc & Hv' & Hsm & Hq & Hend & Hcov & Hso).
  mstep. destruct (same_bits_cursor kvs kvs1 (sc_bits _ _ Hsc)) as (Hcp & Hadd & Hnum).
  destruct (rev_fits v Hv) as [Hr0 Hr1].
  assert (forall k x, (k, x) ∈ es -> exists i, 0 <= i < num_dicts kvs /\ kvs_map kvs i !! k = Some x)
    as Hsound by eauto.
  destruct ((v' =? 0) || skip).
  - destruct Hend as [-> ->].
    destruct (scan_next_dict kvs1 didx (sc_inv _ _ Hsc) ltac:(lia)) as (r & q2 & -> & Hq2 & Hcase & Hgap).
    mstep. rewrite Hnum in Hq2, Hcase, Hgap.
    assert (forall i k x, 0 <= i < num_dicts kvs -> kvs_map kvs i !! k = Some x ->
      didx * 2 ^ 64 + rev v <= kpos i k < q2 -> (k, x) ∈ es) as Hall.
    { intros i k x Hir Hk Hpos. pose proof (d_kpos_law k).
      destruct (Z.lt_ge_cases (kpos i k) ((didx + 1) * 2 ^ 64)) as [Hlt|Hge].
      - unfold kpos in *. assert (i = didx) as -> by lia. apply Hcov; [done|lia].
      - exfalso. apply (Hgap i k x); [done| |lia]. by rewrite (sc_map _ _ Hsc). }
    destruct Hcase as [[-> Hq2']|(Hr & Hf & Hnz & Hcq)].
    + eexists kvs1, es, 0, q2. split_and!; try done; try lia.
    + rewrite (proj2 (Z.eqb_neq r (-1))) by done.
      eexists kvs1, es, _, q2. rewrite Hcp in Hcq. rewrite Hadd in *. split_and!; try done; try lia; by right.
  - rewrite (proj2 (Z.eqb_neq didx (-1))) by lia.
    destruct (cursor_encode kvs didx v' (proj1 Hi) Hd Hv' Hsm) as (Hf & Hdec & Hz).
    rewrite Hadd. eexists kvs1, es, _, (didx * 2 ^ 64 + q). split_and!; try done; try lia.
    + right. unfold cpos. rewrite Hdec. cbn [fst snd]. rewrite Hend. split; [|done].
      intros He. destruct (Hz He) as [_ ->]. rewrite rev_0 in Hend. lia.
    + intros i k x Hir Hk Hpos. pose proof (d_kpos_law k). unfold kpos in Hpos.
      assert (i = didx) as -> by lia. apply Hcov; [done|lia].
Qed.

(** Scanning successive states of a kvstore, from the cursor the previous
    step returned. *)
Fixpoint kv_scan_all (ks : list (kvstore D)) (c : Z) : option (list (K * option V) * Z) :=
  match ks with
  | [] => Some ([], c)
  | kvs :: ks =>
      match kvstoreScan kvs c (-1) (fun _ => false) with
      | Some (_, es, c) => r ← kv_scan_all ks c; Some (es ++ r.1, r.2)
      | None => None
      end
  end.

Lemma kv_scan_covers bits ks c es i k :
  Forall (fun kvs => kvs_inv kvs /\ cursors_fit kvs /\ num_dicts_bits kvs = bits) ks -> ks <> [] ->
  fits_u 64 c -> kv_scan_all ks c = Some (es, 0) -> 0 <= i < 2 ^ bits ->
  Forall (fun kvs => k ∈ dom (kvs_map kvs i)) ks ->
  Forall (fun kvs => cpos kvs c <= kpos i k) ks -> k ∈ es.*1.
Proof.
  intros Hall. revert c es. induction Hall as [|kvs ks (Hi & Hfit & Hb) Hall IH];
    intros c es Hne Hc Hrun Hr Hk Hpos; [done|].
  apply Forall_cons in Hk as [Hk0 Hk]. apply Forall_cons in Hpos as [Hpos _].
  destruct (kvstoreScan_step kvs c Hi Hfit Hc) as (kvs' & es1 & c1 & q & Hst & _ & Hc1 & Hq & Hcase & Hcov & _).
  cbn [kv_scan_all] in Hrun. rewrite Hst in Hrun.
  apply bind_Some in Hrun as ([es2 c2] & Hrun & [= <- ->]). cbn [fst snd]. rewrite fmap_app, elem_of_app.
  assert (num_dicts kvs = 2 ^ bits) as Hn by (rewrite num_dicts_pow, Hb by apply Hi; done).
  pose proof (d_kpos_law k) as Hkp.
  destruct (Z.lt_ge_cases (kpos i k) q) as [Hlt|Hge].
  { left. apply elem_of_dom in Hk0 as [x Hx]. apply (list_elem_of_fmap_2' _ _ (k, x)); [|done].
    apply (Hcov i); [lia|done|lia]. }
  assert (kpos i k < num_dicts kvs * 2 ^ 64) as Hlast by (unfold kpos; nia).
  destruct Hcase as [[-> ->]|[Hnz Hcq]]; [lia|]. destruct ks as [|kvs2 ks].
  { simpl in Hrun. simplify_eq. }
  right. apply (IH c1); try done. apply Forall_forall. intros kvs3 Hin.
  apply (proj1 (Forall_forall _ _) Hall) in Hin as (_ & _ & Hb3).
  destruct (same_bits_cursor kvs kvs3) as (-> & _); [congruence|]. lia.
Qed.

(** C13: The guarantee of SCAN over the whole keyspace.  An iteration from
    cursor 0 back to cursor 0 returns every key that stays in its dict
    throughout, although dicts are resized, rehashed, created and freed
    between the steps, and only keys that were there at the step that
    returned them; each cursor encodes the dict index and the position in it
    without loss as long as the tables leave room for the index. *)
Theorem kvstoreScan_complete bits (ks : list (kvstore D)) es
    (Hks : Forall (fun kvs => kvs_inv kvs /\ cursors_fit kvs /\ num_dicts_bits kvs = bits) ks)
    (Hne : ks <> []) (Hrun : kv_scan_all ks 0 = Some (es, 0)) :
  (forall i k, 0 <= i < 2 ^ bits -> Forall (fun kvs => k ∈ dom (kvs_map kvs i)) ks -> k ∈ es.*1) /\
  (forall k x, (k, x) ∈ es -> exists kvs i, kvs ∈ ks /\ kvs_map kvs i !! k = Some x).
Proof.
  split.
  - intros i k Hr Hk. apply (kv_scan_covers bits ks 0 es i k); try done.
    apply Forall_forall. intros kvs Hin. apply (proj1 (Forall_forall _ _) Hks) in Hin as (Hi & _ & _).
    unfold cpos, getAndClearDictIndexFromCursor. pose proof (d_kpos_law k). unfold kpos.
    destruct (num_dicts kvs =? 1); cbn [fst snd]; rewrite ?Z.land_0_l, ?Z.shiftr_0_l, rev_0; lia.
  - clear Hne. assert (fits_u 64 0) as Hc by done. revert Hc Hrun. generalize 0 at 1 2 as c. revert es.
    induction Hks as [|kvs ks (Hi & Hfit & Hb) Hall IH]; intros es c Hc Hrun k x Hkx; simpl in Hrun.
    { simplify_eq. by apply not_elem_of_nil in Hkx. }
    destruct (kvstoreScan_step kvs c Hi Hfit Hc) as (kvs' & es1 & c1 & q & Hst & _ & Hc1 & _ & _ & _ & Hso).
    rewrite Hst in Hrun. apply bind_Some in Hrun as ([es2 c2] & Hrun & [= <- ->]).
    apply elem_of_app in Hkx as [Hkx|Hkx].
    + destruct (Hso k x Hkx) as (i & _ & Hm). exists kvs, i. split; [apply elem_of_cons; by left|done].
    + destruct (IH es2 c1 Hc1 Hrun k x Hkx) as (kvs2 & i & Hin & Hm). exists kvs2, i.
      split; [apply elem_of_cons; by right|done].
Qed.

(** ** Two counters that drift *)

(** [non_empty_dicts] counts wrong: it is incremented whenever a dict
    has exactly one key after an update, also after a deletion.  Deleting one
    of the two keys of a dict reports one more non-empty dict, while the same
    dicts are non-empty as before. *)
Theorem kvstoreDictDelete_overcounts cr kvs didx k
    (Hi : kvs_inv kvs) (Hd : 0 <= didx < num_dicts kvs)
    (Hk : kvs_map kvs didx !! k <> None) (Htwo : size (kvs_map kvs didx) = 2%nat) :
  exists kvs', kvstoreDictDelete cr kvs didx k = Some (kvs', true) /\
    non_empty_dicts kvs' = non_empty_dicts kvs + 1 /\
    (forall i, 0 <= i < num_dicts kvs -> kvs_map kvs' i = ∅ <-> kvs_map kvs i = ∅).
Proof.
  destruct (kvstoreDictDelete_spec cr kvs didx k Hi Hd) as (kvs' & Hdel & Hu).
  rewrite bool_decide_true in Hdel by done. exists kvs'. split; [done|].
  assert (size (delete k (kvs_map kvs didx)) = 1%nat) as Hone.
  { pose proof (size_delete_present (kvs_map kvs didx) k Hk). lia. }
  split.
  - pose proof Hi as [Hs _]. destruct (get_dict kvs didx Hs Hd) as (od & Hg & Hl & Hm).
    unfold kvstoreDictDelete in Hdel. rewrite Hg in Hdel. mstep in Hdel.
    destruct od as [d|]; [|done]. simpl in Hm. rewrite Hm in *.
    destruct (d_delete_law cr d k (so_dicts _ Hs _ _ Hl)) as (d' & Hdd & Hy & _).
    rewrite Hdd, bool_decide_true in Hdel by done. mstep in Hdel.
    destruct (put_dict_shape kvs didx d d' _ Hs ltac:(lia) Hl Hy) as [_ Hcore].
    destruct Hy as (Hdi & Hdm & _). rewrite <- Hdm, <- (Nat2Z.id (size _)) in Hone.
    rewrite <- (d_size_law d' Hdi) in Hone. assert (d_size d' = 1) as Hsz by lia.
    set (kvs1 := put_dict kvs didx d d') in *. destruct Hcore as (E1 & E2 & _ & _ & _ & _ & _ & _ & E9).
    assert (kvstoreGetDict kvs1 didx = Some (Some d')) as Hg1.
    { unfold kvstoreGetDict. rewrite (proj2 (Z.leb_le 0 didx)), E1 by lia.
      apply list_lookup_insert_eq. by eapply lookup_lt_Some. }
    apply bind_Some in Hdel as (kvs2 & Hadd & Hdel).
    apply bind_Some in Hdel as (kvs3 & Hfree & [= <-]).
    unfold cumulativeKeyCountAdd in Hadd. rewrite Hg1 in Hadd. mstep in Hadd.
    rewrite Hsz in Hadd. change (1 =? 1) with true in Hadd. cbn iota in Hadd.
    assert (non_empty_dicts kvs2 = non_empty_dicts kvs + 1 /\ dicts kvs2 = dicts kvs1) as [Hne Hds].
    { destruct (num_dicts kvs1 =? 1); [simplify_eq; by rewrite E9|].
      apply bind_Some in Hadd as (index & _ & [= <-]). by rewrite E9. }
    assert (kvstoreGetDict kvs2 didx = Some (Some d')) as Hg2
      by (unfold kvstoreGetDict in *; by rewrite Hds).
    unfold freeDictIfNeeded, kvstoreDictSize, kvstoreDictIsRehashingPaused in Hfree. rewrite Hg2 in Hfree.
    mstep in Hfree. rewrite Hsz in Hfree. cbn [negb orb Z.eqb] in Hfree.
    destruct (negb (flag_free_empty kvs2)); by simplify_eq.
  - intros i Hir. rewrite (up_map _ _ _ _ Hu) by done. case_decide as He; [subst|done].
    split; intros Hz; exfalso; rewrite Hz, map_size_empty in *; lia.
Qed.

(** [bucket_count] leaks: freeing an empty dict (KVSTORE_FREE_EMPTY_DICTS)
    leaves its buckets in the total, since [dictRelease] announces only the
    end of a rehashing. *)
Theorem freeDictIfNeeded_leaks kvs didx d
    (Hd : 0 <= didx < num_dicts kvs) (Hfree : flag_free_empty kvs = true)
    (Hl : dicts kvs !! Z.to_nat didx = Some (Some d)) (Hsize : d_size d = 0)
    (Hpause : d_paused d = false) (Hrh : d_rehashing d = false) :
  exists kvs', freeDictIfNeeded kvs didx = Some kvs' /\
    dicts kvs' = <[Z.to_nat didx := None]> (dicts kvs) /\
    bucket_count kvs' = bucket_count kvs /\
    bucket_count kvs' - zsum (od_buckets <$> dicts kvs')
      = bucket_count kvs - zsum (od_buckets <$> dicts kvs) + d_buckets d.
Proof.
  unfold freeDictIfNeeded, kvstoreDictSize, kvstoreDictIsRehashingPaused, kvstoreGetDict.
  rewrite Hfree, (proj2 (Z.leb_le 0 didx)), Hl by lia. cbn [negb mbind option_bind].
  rewrite Hsize, Hpause. cbn [negb orb Z.eqb]. eexists. split; [done|].
  unfold replay. destruct (d_release_law d) as (from & to & -> & _). rewrite Hrh, log_suffix. cbn [foldl].
  cbn [dicts bucket_count set_dicts]. split_and!; [done|done|].
  rewrite (zsum_insert _ _ _ _ _ Hl). simpl. lia.
Qed.
End run.

(** ** Witnesses: the hash table of src/dict.c, integer keys *)

#[local] Instance demo_ops : DictOps Z Z (dict Z Z) := dict_ops demo_type.
#[local] Instance demo_laws : DictLaws Z Z (dict Z Z) := dict_laws demo_type.

Definition demo_kv_calls : list (dictResizeEnable * kv_op (K:=Z) (V:=Z)) :=
  pair DICT_RESIZE_ENABLE <$>
    [KvAdd 0 1; KvAdd 2 5; KvSet 2 5 50; KvAdd 2 6; KvAdd 2 7; KvAdd 2 8; KvAdd 2 9; KvFetch 2 5;
     KvAdd 3 4; KvDelete 3 4; KvTryResize 4; KvUnlink 2 9; KvAdd 1 11].

(** Four dicts, allocated on demand and freed when empty. *)
Definition demo_state (n : nat) : kvstore (dict Z Z) :=
  from_option (fun kvs => from_option fst kvs (kv_run (take n demo_kv_calls) kvs))
    (Kvstore true true 0 [] [] 0 0 0 0 0 [] 0 0) (kvstoreCreate 2 true true).

Lemma demo_calls_ok : Forall (fun c => kv_op_ok (2 ^ 2) c.2) demo_kv_calls.
Proof. repeat constructor; simpl; try lia; reflexivity. Qed.

Lemma demo_state_inv n : kvs_inv (demo_state n) /\ num_dicts_bits (demo_state n) = 2.
Proof.
  unfold demo_state.
  destruct (kvstoreCreate_spec 2 true true ltac:(lia)) as (kvs0 & Hc & Hi0 & Hb0 & _ & Hm0).
  rewrite Hc. cbn [from_option].
  destruct (kv_run_spec (take n demo_kv_calls) kvs0 (fun _ => ∅)) as (kvs' & rs & Hr & _ & [Hi _] & Hb).
  - split; [done|]. intros i _. apply Hm0.
  - apply Forall_take. rewrite num_dicts_pow, Hb0 by apply Hi0. apply demo_calls_ok.
  - rewrite Hr. cbn [from_option fst]. split; [done|congruence].
Qed.

Lemma kvstoreFindDictIndexByKeyIndex_correct_witness :
  exists r, kvstoreFindDictIndexByKeyIndex (demo_state 13) 4 = Some r /\ 0 <= r < num_dicts (demo_state 13) /\
    psum (sizes (demo_state 13)) r < 4
    <= psum (sizes (demo_state 13)) r + Z.of_nat (size (kvs_map (demo_state 13) r)).
Proof.
  apply (kvstoreFindDictIndexByKeyIndex_correct (demo_state 13) 4); [apply demo_state_inv|..];
    vm_compute; try (split; discriminate); reflexivity.
Defined.

Lemma kvstoreGetNextNonEmptyDictIndex_correct_witness :
  exists r, kvstoreGetNextNonEmptyDictIndex (demo_state 12) 0 = Some r /\
    (r = -1 \/ 0 < r < num_dicts (demo_state 12) /\ kvs_map (demo_state 12) r <> ∅) /\
    (forall i, 0 < i < (if r =? -1 then num_dicts (demo_state 12) else r) -> kvs_map (demo_state 12) i = ∅).
Proof.
  apply (kvstoreGetNextNonEmptyDictIndex_correct (demo_state 12) 0); [apply demo_state_inv|].
  vm_compute. split; [discriminate|reflexivity].
Defined.


(** Eight steps over dicts 0 and 2, the latter growing and rehashing. *)
Definition demo_scan_states : list (kvstore (dict Z Z)) :=
  demo_state <$> [6; 6; 6; 6; 6; 7; 8; 12]%nat.

Lemma cursors_fit_check (kvs : kvstore (dict Z Z)) :
  forallb (fun od => od_buckets od <=? 2 ^ (64 - num_dicts_bits kvs)) (dicts kvs) = true -> cursors_fit kvs.
Proof.
  rewrite forallb_forall. intros Hall i d Hd _.
  apply list_elem_of_lookup_2, list_elem_of_In, Hall, Z.leb_le in Hd. done.
Qed.

Lemma demo_scan_states_ok :
  Forall (fun kvs => kvs_inv kvs /\ cursors_fit kvs /\ num_dicts_bits kvs = 2) demo_scan_states.
Proof.
  assert (forall n, forallb (fun od => od_buckets od <=? 2 ^ (64 - num_dicts_bits (demo_state n)))
      (dicts (demo_state n)) = true ->
    kvs_inv (demo_state n) /\ cursors_fit (demo_state n) /\ num_dicts_bits (demo_state n) = 2) as Hok.
  { intros n Hn. destruct (demo_state_inv n). auto using cursors_fit_check. }
  repeat (constructor; [apply Hok; vm_compute; reflexivity|]). constructor.
Qed.

Lemma kvstoreScan_complete_witness :
  exists es, kv_scan_all demo_scan_states 0 = Some (es, 0) /\
    (forall i k, 0 <= i < 2 ^ 2 -> Forall (fun kvs => k ∈ dom (kvs_map kvs i)) demo_scan_states -> k ∈ es.*1).
Proof.
  eexists. split; [vm_compute; reflexivity|].
  apply (kvstoreScan_complete 2 demo_scan_states); [apply demo_scan_states_ok|discriminate|].
  vm_compute. reflexivity.
Defined.

Lemma kvstoreDictDelete_overcounts_witness :
  exists kvs', kvstoreDictDelete DICT_RESIZE_ENABLE (demo_state 4) 2 6 = Some (kvs', true) /\
    non_empty_dicts kvs' = non_empty_dicts (demo_state 4) + 1 /\
    (forall i, 0 <= i < num_dicts (demo_state 4) -> kvs_map kvs' i = ∅ <-> kvs_map (demo_state 4) i = ∅).
Proof.
  apply (kvstoreDictDelete_overcounts DICT_RESIZE_ENABLE (demo_state 4) 2 6); [apply demo_state_inv|..].
  - vm_compute. split; [discriminate|reflexivity].
  - vm_compute. discriminate.
  - vm_compute. reflexivity.
Defined.

(** Four expanded, empty dicts. *)
Definition demo_expanded : kvstore (dict Z Z) :=
  from_option (fun kvs => from_option fst kvs
      (kv_run [(DICT_RESIZE_ENABLE, KvExpandAll 8 false (fun _ => false) (fun _ => true))] kvs))
    (Kvstore true true 0 [] [] 0 0 0 0 0 [] 0 0) (kvstoreCreate 2 true true).

Lemma freeDictIfNeeded_leaks_witness :
  exists d kvs', dicts demo_expanded !! 1%nat = Some (Some d) /\ d_buckets d = 8 /\
    freeDictIfNeeded demo_expanded 1 = Some kvs' /\
    bucket_count kvs' - zsum (od_buckets <$> dicts kvs')
      = bucket_count demo_expanded - zsum (od_buckets <$> dicts demo_expanded) + d_buckets d.
Proof.
  assert (exists d, dicts demo_expanded !! Z.to_nat 1 = Some (Some d)) as [d Hd]
    by (eexists; vm_compute; reflexivity).
  destruct (freeDictIfNeeded_leaks demo_expanded 1 d) as (kvs' & Hf & _ & _ & Hl); [..|].
  - vm_compute. split; [discriminate|reflexivity].
  - vm_compute. reflexivity.
  - exact Hd.
  - revert Hd. vm_compute. intros [= <-]. reflexivity.
  - revert Hd. vm_compute. intros [= <-]. reflexivity.
  - revert Hd. vm_compute. intros [= <-]. reflexivity.
  - exists d, kvs'. split; [exact Hd|]. split; [|by split].
    revert Hd. vm_compute. intros [= <-]. reflexivity.
Defined.
