(* ===== verification/Crc.v ===== *)
(** * CRC-64 (src/crc64.c, src/crcspeed.c, src/crccombine.c)

    The bit-by-bit reference [_crc64], the lookup tables built from it, and
    the fast routine [crcspeed64little] that the server uses: eight bytes per
    step, and two or three interleaved streams whose results are merged with
    powers of the zero-bit operator over GF(2).  A buffer is its list of bytes
    and the address of the first.  The theorem is that the fast routine
    computes the reference for every alignment, length and pair of cutoffs. *)
From S2P Require Import Prelude.
From Stdlib Require Import ZArith Lia.
From stdpp Require Import prelude list.

#[local] Open Scope Z_scope.

(** ** Definitions *)

Definition POLY : Z := 0xad93d23594c935a9.
Definition CRC64_REVERSED_POLY : Z := 0x95ac9329ac4bc9b5.
Definition CRC64_LEN_MASK : Z := 0x7ffffffffffffff8.

(** Swap neighbouring groups of [k] bits; [m] selects the lower groups. *)
Definition swap_groups (k m data : Z) : Z :=
  Z.lor (Z.land (Z.shiftr data k) m) (Z.shiftl (Z.land data m) k).

(** The three steps of [__builtin_bswap64] the source spells out for other
    compilers. *)
Definition rev8 (a : Z) : Z :=
  swap_groups 32 0xFFFFFFFF (swap_groups 16 0xFFFF0000FFFF (swap_groups 8 0x00FF00FF00FF00FF a)).

(** [data_len <= 64] is asserted by the source; the only caller passes 64. *)
Definition crc_reflect (data data_len : Z) : Z :=
  let data := swap_groups 1 0x5555555555555555 data in
  let data := swap_groups 2 0x3333333333333333 data in
  let data := swap_groups 4 0x0F0F0F0F0F0F0F0F data in
  Z.shiftr (rev8 data) (64 - data_len).

(** One turn of the inner loop of [_crc64]; [i] is the number of the bit. *)
Definition crc64_bit (c crc i : Z) : Z :=
  let bit := xorb (Z.testbit crc 63) (Z.testbit c i) in
  let crc := wrapu 64 (Z.shiftl crc 1) in
  if bit then Z.lxor crc POLY else crc.

Definition crc64_byte (crc c : Z) : Z :=
  fold_left (crc64_bit c) [0; 1; 2; 3; 4; 5; 6; 7] crc.

Definition _crc64 (crc : Z) (data : list Z) : Z :=
  crc_reflect (fold_left crc64_byte data crc) 64.

(** *** Tables *)

Definition table := list (list Z).

Definition tbl (t : table) (k : nat) (i : Z) : Z := (t !!! k) !!! Z.to_nat i.

Definition next_entry (t0 : list Z) (crc : Z) : Z :=
  Z.lxor (t0 !!! Z.to_nat (Z.land crc 0xff)) (Z.shiftr crc 8).

Fixpoint next_rows (t0 row : list Z) (n : nat) : table :=
  match n with
  | O => []
  | S n => let row := next_entry t0 <$> row in row :: next_rows t0 row n
  end.

Definition crcspeed64little_init (crcfn : Z -> list Z -> Z) : table :=
  let t0 := (fun n => crcfn 0 [Z.of_nat n]) <$> seq 0 256 in
  t0 :: next_rows t0 t0 7.

(** [crc64_init] on a little-endian machine. *)
Definition crc64_table : table := crcspeed64little_init _crc64.

(** *** Combining *)

(** A matrix is the list of its columns; missing columns read as 0. *)
Definition column (mat : list Z) (i : nat) : Z := default 0 (mat !! i).

(** The [switch] on the low four bits of [vec]. *)
Definition switch4 (mat : list Z) (v : Z) : Z :=
  let '(m0, m1, m2, m3) := (column mat 0, column mat 1, column mat 2, column mat 3) in
  match v with
  | 15 => Z.lxor (Z.lxor (Z.lxor m0 m1) m2) m3
  | 14 => Z.lxor (Z.lxor m1 m2) m3
  | 13 => Z.lxor (Z.lxor m0 m2) m3
  | 12 => Z.lxor m2 m3
  | 11 => Z.lxor (Z.lxor m0 m1) m3
  | 10 => Z.lxor m1 m3
  | 9 => Z.lxor m0 m3
  | 8 => m3
  | 7 => Z.lxor (Z.lxor m0 m1) m2
  | 6 => Z.lxor m1 m2
  | 5 => Z.lxor m0 m2
  | 4 => m2
  | 3 => Z.lxor m0 m1
  | 2 => m1
  | 1 => m0
  | _ => 0
  end.

Fixpoint times_switch_loop (fuel : nat) (mat : list Z) (vec sum : Z) : option Z :=
  if vec =? 0 then Some sum
  else
    match fuel with
    | O => None
    | S fuel =>
        times_switch_loop fuel (drop 4 mat) (Z.shiftr vec 4) (Z.lxor sum (switch4 mat (Z.land vec 15)))
    end.

(** Sixteen turns use up a 64-bit word ([times_switch_spec]). *)
Definition gf2_matrix_times_switch (mat : list Z) (vec : Z) : Z :=
  default 0 (times_switch_loop 16 mat vec 0).

(** Two lanes of 64 bits; each step takes two columns and two bits. *)
Definition mask64 (b : bool) (x : Z) : Z := if b then x else 0.

Fixpoint times_vec2_loop (steps : nat) (mat : list Z) (vec s0 s1 : Z) : Z :=
  match steps with
  | O => Z.lxor s0 s1
  | S steps =>
      times_vec2_loop steps (drop 2 mat) (Z.shiftr vec 2)
        (Z.lxor s0 (mask64 (Z.testbit vec 0) (column mat 0)))
        (Z.lxor s1 (mask64 (Z.testbit vec 1) (column mat 1)))
  end.

(** Two steps per chunk of four bits, four chunks per sixteen, four of those. *)
Definition gf2_matrix_times_vec2 (mat : list Z) (vec : Z) : Z := times_vec2_loop 32 mat vec 0 0.

Section combine.
(** [CRC_MULTIPLY]: one of the two products, by platform. *)
Context (CRC_MULTIPLY : list Z -> Z -> Z).

Definition gf2_matrix_square (mat : list Z) : list Z := CRC_MULTIPLY mat <$> mat.

(** The operator for one zero bit. *)
Definition zero_bit_matrix (poly : Z) (dim : nat) : list Z :=
  poly :: ((fun n => Z.shiftl 1 (Z.of_nat n)) <$> seq 0 (dim - 1)).

Fixpoint cache_layers (mat : list Z) (n : nat) : list (list Z) :=
  match n with
  | O => []
  | S n => let mat := gf2_matrix_square mat in mat :: cache_layers mat n
  end.

Definition init_combine_cache (poly : Z) (dim : nat) : list (list Z) :=
  let c1 := zero_bit_matrix poly dim in
  let c0 := gf2_matrix_square c1 in
  let c1 := gf2_matrix_square c0 in
  cache_layers c1 64.

Fixpoint combine_loop (fuel : nat) (cache : list (list Z)) (cache_num : nat) (crc1 len2 : Z) : option Z :=
  match fuel with
  | O => None
  | S fuel =>
      let crc1 := if Z.odd len2 then CRC_MULTIPLY (cache !!! cache_num) crc1 else crc1 in
      let len2 := Z.shiftr len2 1 in
      let cache_num := Nat.land (cache_num + 1) 63 in
      if len2 =? 0 then Some crc1 else combine_loop fuel cache cache_num crc1 len2
  end.

(** A [uintmax_t] has 64 bits, so 64 turns are enough ([crc64_combine_spec]). *)
Definition crc64_combine (crc1 crc2 len2 poly : Z) (dim : nat) : Z :=
  if len2 =? 0 then crc1
  else Z.lxor (default 0 (combine_loop 64 (init_combine_cache poly dim) 0 crc1 len2)) crc2.

(** *** The fast routine *)

(** [CRC64_DUAL_CUTOFF] and [CRC64_TRI_CUTOFF], which [set_crc64_cutoffs]
    changes. *)
Context (DUAL TRI : Z).
Context (t : table).

Definition do_byte (crc b : Z) : Z :=
  Z.lxor (tbl t 0 (Z.land (Z.lxor crc b) 0xff)) (Z.shiftr crc 8).

Fixpoint align_loop (addr crc : Z) (l : list Z) : Z * list Z :=
  match l with
  | [] => (crc, [])
  | b :: l' => if Z.land addr 7 =? 0 then (crc, l) else align_loop (addr + 1) (do_byte crc b) l'
  end.

(** [DO_8_1] and [DO_8_2] *)
Definition do_8 (crc : Z) (next : list Z) : Z :=
  let crc := Z.lxor crc (le_decode (take 8 next)) in
  Z.lxor (Z.lxor (Z.lxor (Z.lxor (Z.lxor (Z.lxor (Z.lxor
    (tbl t 7 (Z.land crc 0xff))
    (tbl t 6 (Z.land (Z.shiftr crc 8) 0xff)))
    (tbl t 5 (Z.land (Z.shiftr crc 16) 0xff)))
    (tbl t 4 (Z.land (Z.shiftr crc 24) 0xff)))
    (tbl t 3 (Z.land (Z.shiftr crc 32) 0xff)))
    (tbl t 2 (Z.land (Z.shiftr crc 40) 0xff)))
    (tbl t 1 (Z.land (Z.shiftr crc 48) 0xff)))
    (tbl t 0 (Z.shiftr crc 56)).

(** A loop [while (len >= 8)] over one stream; [n] is the number of turns,
    [len / 8]. *)
Fixpoint stream_loop (n : nat) (crc : Z) (next : list Z) : Z * list Z :=
  match n with
  | O => (crc, next)
  | S n => stream_loop n (do_8 crc next) (drop 8 next)
  end.

Fixpoint stream_loop2 (n : nat) (crc1 crc2 : Z) (next1 next2 : list Z) : Z * Z * list Z :=
  match n with
  | O => (crc1, crc2, next2)
  | S n => stream_loop2 n (do_8 crc1 next1) (do_8 crc2 next2) (drop 8 next1) (drop 8 next2)
  end.

Fixpoint stream_loop3 (n : nat) (crc1 crc2 crc3 : Z) (next1 next2 next3 : list Z) :
    Z * Z * Z * list Z :=
  match n with
  | O => (crc1, crc2, crc3, next3)
  | S n =>
      stream_loop3 n (do_8 crc1 next1) (do_8 crc2 next2) (do_8 crc3 next3)
        (drop 8 next1) (drop 8 next2) (drop 8 next3)
  end.

Definition MERGE_CRC (crc1 crcn len : Z) : Z := crc64_combine crc1 crcn len CRC64_REVERSED_POLY 64.

(** [CRC64_SPLIT]: the length of a segment. *)
Definition CRC64_SPLIT (len div : Z) : Z := Z.land (len / div) CRC64_LEN_MASK.

Definition crcspeed64little (addr crc1 : Z) (buf : list Z) : Z :=
  if DUAL <? 1 then fold_left do_byte buf crc1
  else
    let '(crc1, next) := align_loop addr crc1 buf in
    let len := Z.of_nat (length next) in
    let '(crc1, next) :=
      if TRI <? len then
        let seg := CRC64_SPLIT len 3 in
        let n := Z.to_nat seg in
        let '(crc1, crc2, crc3, next3) :=
          stream_loop3 (Z.to_nat (seg / 8)) crc1 0 0 next (drop n next) (drop (n + n) next) in
        (MERGE_CRC (MERGE_CRC crc1 crc2 seg) crc3 seg, next3)
      else if DUAL <? len then
        let seg := CRC64_SPLIT len 2 in
        let n := Z.to_nat seg in
        let '(crc1, crc2, next2) :=
          stream_loop2 (Z.to_nat (seg / 8)) crc1 0 next (drop n next) in
        (MERGE_CRC crc1 crc2 seg, next2)
      else (crc1, next) in
    let '(crc1, next) := stream_loop (Nat.div (length next) 8) crc1 next in
    fold_left do_byte next crc1.
End combine.

(** [crc64], on a little-endian machine, with the product [mul]. *)
Definition crc64 (mul : list Z -> Z -> Z) (DUAL TRI addr crc : Z) (s : list Z) : Z :=
  crcspeed64little mul DUAL TRI crc64_table addr crc s.

#[global] Opaque crc64_table.
