(* ===== verification/CrcSpec.v ===== *)
(** * CRC-64: the fast routine computes the reference

    The reflected CRC is iteration of the linear map [step1]; tables,
    slicing and the combine matrices are evaluations of its powers. *)
From S2P Require Import Prelude Crc.
From Stdlib Require Import ZArith Lia.
From stdpp Require Import prelude list.

#[local] Open Scope Z_scope.

(** ** One zero bit, as a linear map *)

Definition step1 (x : Z) : Z :=
  Z.lxor (Z.shiftr x 1) (if Z.odd x then CRC64_REVERSED_POLY else 0).

Definition zeros (n : nat) (x : Z) : Z := Nat.iter n step1 x.

(** The reflected CRC of a list of bytes, bit by bit. *)
Definition crc_bytes (r : Z) (l : list Z) : Z := fold_left (fun r b => zeros 8 (Z.lxor r b)) l r.

Lemma lxor_swap a b c d : Z.lxor (Z.lxor a b) (Z.lxor c d) = Z.lxor (Z.lxor a c) (Z.lxor b d).
Proof. rewrite !Z.lxor_assoc. f_equal. rewrite <- !Z.lxor_assoc. f_equal. apply Z.lxor_comm. Qed.

Lemma odd_lxor x y : Z.odd (Z.lxor x y) = xorb (Z.odd x) (Z.odd y).
Proof. rewrite <- !Z.bit0_odd. apply Z.lxor_spec. Qed.

Lemma step1_lxor x y : step1 (Z.lxor x y) = Z.lxor (step1 x) (step1 y).
Proof.
  unfold step1. rewrite odd_lxor, Z.shiftr_lxor, lxor_swap. f_equal.
  destruct (Z.odd x), (Z.odd y); cbn [xorb];
    by rewrite ?Z.lxor_nilpotent, ?Z.lxor_0_l, ?Z.lxor_0_r.
Qed.

Lemma zeros_lxor n x y : zeros n (Z.lxor x y) = Z.lxor (zeros n x) (zeros n y).
Proof.
  unfold zeros. induction n as [|n IH]; [done|]. rewrite !Nat.iter_succ, IH. apply step1_lxor.
Qed.

Lemma zeros_0 n : zeros n 0 = 0.
Proof. unfold zeros. induction n as [|n IH]; [done|]. by rewrite Nat.iter_succ, IH. Qed.

Lemma zeros_add n m x : zeros (n + m) x = zeros n (zeros m x).
Proof. unfold zeros. apply Nat.iter_add. Qed.

Lemma zeros_mul n m x : Nat.iter n (zeros m) x = zeros (n * m) x.
Proof.
  induction n as [|n IH]; [done|]. rewrite Nat.iter_succ, IH, <- zeros_add. done.
Qed.

(** Bits above the ones shifted out only move. *)
Lemma zeros_shiftl n x : zeros n (Z.shiftl x (Z.of_nat n)) = x.
Proof.
  revert x. induction n as [|n IH]; intros x; [apply Z.shiftl_0_r|].
  replace (S n) with (n + 1)%nat at 1 by lia. rewrite zeros_add.
  replace (Z.shiftl x (Z.of_nat (S n))) with (Z.shiftl (Z.shiftl x (Z.of_nat n)) 1)
    by (rewrite Z.shiftl_shiftl by lia; f_equal; lia).
  replace (zeros 1 (Z.shiftl (Z.shiftl x (Z.of_nat n)) 1)) with (Z.shiftl x (Z.of_nat n)); [apply IH|].
  change (zeros 1 ?y) with (step1 y). unfold step1.
  rewrite <- Z.bit0_odd, Z.shiftl_spec_low, Z.lxor_0_r by lia.
  rewrite Z.shiftr_shiftl_l by lia. by rewrite Z.shiftl_0_r.
Qed.

Lemma split_low n x : 0 <= n -> x = Z.lxor (Z.land x (Z.ones n)) (Z.shiftl (Z.shiftr x n) n).
Proof.
  intros Hn. apply Z.bits_inj'. intros i Hi.
  rewrite Z.lxor_spec, Z.land_spec, Z.shiftl_spec, Z.testbit_ones_nonneg by lia.
  destruct (Z.ltb_spec i n).
  - rewrite (Z.testbit_neg_r _ (i - n)) by lia. by rewrite andb_true_r, xorb_false_r.
  - rewrite Z.shiftr_spec by lia. rewrite andb_false_r, xorb_false_l. f_equal. lia.
Qed.

Lemma zeros_split n x :
  zeros n x = Z.lxor (zeros n (Z.land x (Z.ones (Z.of_nat n)))) (Z.shiftr x (Z.of_nat n)).
Proof.
  rewrite (split_low (Z.of_nat n) x) at 1 by lia. rewrite zeros_lxor. f_equal. apply zeros_shiftl.
Qed.

(** ** Words stay words *)

Lemma shiftr_fits w x n : 0 <= n -> fits_u w x -> fits_u w (Z.shiftr x n).
Proof.
  intros Hn [H0 H1]. rewrite Z.shiftr_div_pow2 by done. unfold fits_u.
  pose proof (Z.pow_pos_nonneg 2 n ltac:(lia) Hn).
  split; [apply Z.div_pos; lia|]. eapply Z.le_lt_trans; [|exact H1]. apply Z.div_le_upper_bound; nia.
Qed.

Lemma step1_fits x : fits_u 64 x -> fits_u 64 (step1 x).
Proof.
  intros H. apply lxor_fits; [done|by apply shiftr_fits|].
  destruct (Z.odd x); unfold fits_u, CRC64_REVERSED_POLY; lia.
Qed.

Lemma zeros_fits n x : fits_u 64 x -> fits_u 64 (zeros n x).
Proof.
  intros H. unfold zeros. induction n as [|n IH]; [done|]. rewrite Nat.iter_succ. by apply step1_fits.
Qed.

Lemma byte_fits b : is_byte b -> fits_u 64 b.
Proof. unfold is_byte, fits_u. lia. Qed.

#[export] Hint Resolve shiftr_fits step1_fits zeros_fits byte_fits : word.
#[local] Hint Resolve zeros_fits byte_fits : core.

Lemma crc_bytes_fits l r : fits_u 64 r -> Forall is_byte l -> fits_u 64 (crc_bytes r l).
Proof.
  intros Hr Hl. revert r Hr. induction Hl as [|b l Hb Hl IH]; intros r Hr; [done|].
  apply IH. auto with word.
Qed.

(** ** Whole buffers *)

Lemma lxor_byte_word b x : is_byte b -> b + 256 * x = Z.lxor b (Z.shiftl x 8).
Proof.
  intros Hb. rewrite Z.shiftl_mul_pow2 by lia. change 256 with (2 ^ 8). rewrite (Z.mul_comm (2 ^ 8)).
  rewrite Z.add_nocarry_lxor; [done|]. rewrite Z.land_comm. by apply land_disjoint.
Qed.

(** A run of bytes is one application of a power of [step1]. *)
Lemma crc_bytes_word l r :
  Forall is_byte l -> crc_bytes r l = zeros (8 * length l) (Z.lxor r (le_decode l)).
Proof.
  intros Hl. revert r. induction Hl as [|b l Hb Hl IH]; intros r; [by cbn; rewrite Z.lxor_0_r|].
  change (crc_bytes r (b :: l)) with (crc_bytes (zeros 8 (Z.lxor r b)) l).
  rewrite IH. cbn [length]. change (le_decode (b :: l)) with (b + 256 * le_decode l). rewrite lxor_byte_word by done.
  replace (8 * S (length l))%nat with (8 * length l + 8)%nat by lia.
  rewrite zeros_add, <- Z.lxor_assoc, (zeros_lxor 8 (Z.lxor r b)).
  by rewrite (zeros_shiftl 8).
Qed.

Lemma crc_bytes_app r l1 l2 : crc_bytes r (l1 ++ l2) = crc_bytes (crc_bytes r l1) l2.
Proof. apply fold_left_app. Qed.

Lemma crc_bytes_split r l :
  Forall is_byte l -> crc_bytes r l = Z.lxor (zeros (8 * length l) r) (crc_bytes 0 l).
Proof. intros Hl. by rewrite !crc_bytes_word, zeros_lxor, Z.lxor_0_l by done. Qed.

(** ** The reference *)

Lemma testbit_cases64 (P : Z -> Prop) : (forall k, (k < 64)%nat -> P (Z.of_nat k)) ->
  forall i, 0 <= i < 64 -> P i.
Proof. intros H i Hi. rewrite <- (Z2Nat.id i) by lia. apply H. lia. Qed.

Lemma swap_groups_testbit k m x i :
  0 < k -> 0 <= i < 64 ->
  Z.testbit (swap_groups k m x) i =
    (Z.testbit x (i + k) && Z.testbit m i) || (Z.testbit x (i - k) && Z.testbit m (i - k)).
Proof.
  intros Hk Hi. unfold swap_groups.
  rewrite Z.lor_spec, Z.land_spec, Z.shiftr_spec, Z.shiftl_spec, Z.land_spec by lia. done.
Qed.

(** [swap_groups k m] exchanges the bits whose numbers differ in bit [k]. *)
Definition swap_mask (k m : Z) : bool :=
  forallb (fun i => let i := Z.of_nat i in
    if Z.testbit m i then (Z.lxor i k =? i + k) && negb (Z.testbit m (i - k))
    else (Z.lxor i k =? i - k) && Z.testbit m (i - k)) (seq 0 64).

Lemma swap_groups_lxor k m x i :
  0 < k -> swap_mask k m = true -> 0 <= i < 64 ->
  Z.testbit (swap_groups k m x) i = Z.testbit x (Z.lxor i k).
Proof.
  intros Hk Hm Hi. rewrite swap_groups_testbit by done.
  unfold swap_mask in Hm. rewrite forallb_forall in Hm. specialize (Hm (Z.to_nat i)).
  rewrite Z2Nat.id in Hm by lia. cbv zeta in Hm.
  assert (In (Z.to_nat i) (seq 0 64)) as Hin by (apply in_seq; lia). specialize (Hm Hin).
  destruct (Z.testbit m i); apply andb_prop in Hm as [->%Z.eqb_eq Hm].
  - apply negb_true_iff in Hm. by rewrite Hm, andb_true_r, andb_false_r, orb_false_r.
  - by rewrite Hm, andb_true_r, andb_false_r.
Qed.

Lemma lxor_lt64 i k : 0 <= i < 64 -> 0 <= k < 64 -> 0 <= Z.lxor i k < 64.
Proof. intros. by apply (lxor_fits 6). Qed.

Lemma reflect_testbit x i : 0 <= i < 64 -> Z.testbit (crc_reflect x 64) i = Z.testbit x (63 - i).
Proof.
  intros Hi. unfold crc_reflect, rev8. rewrite Z.shiftr_0_r.
  rewrite !swap_groups_lxor by first [done | repeat apply lxor_lt64; lia].
  f_equal. revert i Hi. apply testbit_cases64. intros i Hi.
  do 64 (destruct i as [|i]; [done|]). lia.
Qed.

Lemma swap_groups_fits k m x :
  0 < k -> fits_u (64 - k) m -> k <= 64 -> fits_u 64 x -> fits_u 64 (swap_groups k m x).
Proof.
  intros Hk Hm Hk' Hx. apply lor_fits; [lia|..].
  - apply land_fits; [lia|]. apply shiftr_fits; [lia|done].
  - rewrite Z.land_comm. pose proof (land_fits (64 - k) m x ltac:(lia) Hm) as [H0 H1].
    pose proof (Z.pow_pos_nonneg 2 k ltac:(lia) ltac:(lia)).
    rewrite Z.shiftl_mul_pow2 by lia. split; [by apply Z.mul_nonneg_nonneg; lia|].
    replace (2 ^ 64) with (2 ^ (64 - k) * 2 ^ k) by (rewrite <- Z.pow_add_r by lia; f_equal; lia).
    by apply Z.mul_lt_mono_pos_r.
Qed.

Lemma reflect_fits x : fits_u 64 x -> fits_u 64 (crc_reflect x 64).
Proof.
  intros Hx. unfold crc_reflect, rev8. rewrite Z.shiftr_0_r.
  by repeat (apply swap_groups_fits; [lia|by split; vm_compute|lia|]).
Qed.

Lemma reflect_poly i : 0 <= i < 64 -> Z.testbit POLY (63 - i) = Z.testbit CRC64_REVERSED_POLY i.
Proof.
  revert i. apply testbit_cases64. intros i Hi. do 64 (destruct i as [|i]; [done|]). lia.
Qed.

Lemma crc64_bit_fits c crc i : fits_u 64 (crc64_bit c crc i).
Proof.
  unfold crc64_bit. cbv zeta. pose proof (wrapu_bound 64 (Z.shiftl crc 1) ltac:(lia)).
  destruct (xorb _ _); [|done]. apply lxor_fits; [lia|done|]. split; by vm_compute.
Qed.

Lemma testbit_b2z b i : 0 < i -> Z.testbit (Z.b2z b) i = false.
Proof. intros. apply (testbit_high 1); [|lia]. by destruct b. Qed.

(** One turn of the reference, seen through the reflection. *)
Lemma reflect_bit c crc i :
  fits_u 64 crc ->
  crc_reflect (crc64_bit c crc i) 64 = step1 (Z.lxor (crc_reflect crc 64) (Z.b2z (Z.testbit c i))).
Proof.
  intros Hc. pose proof (reflect_fits crc Hc) as Hr.
  apply (word_bits_inj 64); [by apply reflect_fits, crc64_bit_fits|..].
  { apply step1_fits, lxor_fits; [lia|done|]. by destruct (Z.testbit c i); split; vm_compute. }
  intros j Hj. rewrite reflect_testbit by done. unfold step1, crc64_bit.
  rewrite Z.lxor_spec, Z.shiftr_spec, Z.lxor_spec, testbit_b2z, xorb_false_r by lia.
  rewrite odd_lxor, <- (Z.bit0_odd (crc_reflect _ _)), (reflect_testbit crc 0) by lia.
  replace (Z.odd (Z.b2z (Z.testbit c i))) with (Z.testbit c i) by by destruct (Z.testbit c i).
  replace (Z.testbit (crc_reflect crc 64) (j + 1)) with (Z.testbit (wrapu 64 (Z.shiftl crc 1)) (63 - j)).
  - cbv zeta. change (63 - 0) with 63. destruct (xorb _ _).
    + by rewrite Z.lxor_spec, reflect_poly.
    + by rewrite Z.testbit_0_l, xorb_false_r.
  - rewrite wrapu_testbit, Z.shiftl_spec by lia. destruct (Z.ltb_spec (63 - j) 64); [|lia].
    destruct (Z.eq_dec j 63) as [->|].
    + rewrite (testbit_high 64 (crc_reflect _ _)) by done. by rewrite Z.testbit_neg_r.
    + rewrite reflect_testbit by lia. cbn [andb]. f_equal. lia.
Qed.

(** The bits of a byte may be consumed one at a time. *)
Lemma step1_consume r c : step1 (Z.lxor r c) = Z.lxor (step1 (Z.lxor r (Z.b2z (Z.odd c)))) (Z.shiftr c 1).
Proof.
  rewrite !step1_lxor, Z.lxor_assoc. f_equal. unfold step1 at 1 2.
  rewrite Z.lxor_comm. by destruct (Z.odd c).
Qed.

Lemma reflect_bits c n crc i :
  fits_u 64 crc -> 0 <= i ->
  crc_reflect (fold_left (crc64_bit c) (seqZ i (Z.of_nat n)) crc) 64 =
    zeros n (Z.lxor (crc_reflect crc 64) (Z.land (Z.shiftr c i) (Z.ones (Z.of_nat n)))).
Proof.
  revert crc i. induction n as [|n IH]; intros crc i Hc Hi; [by rewrite Z.land_0_r, Z.lxor_0_r|].
  rewrite seqZ_cons by lia. cbn [fold_left].
  replace (Z.pred (Z.of_nat (S n))) with (Z.of_nat n) by lia.
  rewrite IH by first [lia|apply crc64_bit_fits]. rewrite reflect_bit by done.
  replace (zeros (S n)) with (zeros (n + 1)) by (f_equal; lia). rewrite zeros_add. f_equal.
  change (zeros 1 ?y) with (step1 y). rewrite (step1_consume _ (Z.land _ _)). f_equal.
  - do 3 f_equal. rewrite <- Z.bit0_odd, Z.land_spec, Z.shiftr_spec, Z.testbit_ones_nonneg by lia.
    destruct (Z.ltb_spec 0 (Z.of_nat (S n))); [|lia]. by rewrite andb_true_r.
  - apply Z.bits_inj'. intros j Hj.
    rewrite Z.shiftr_spec, !Z.land_spec, !Z.shiftr_spec, !Z.testbit_ones_nonneg by lia.
    replace (j + Z.succ i) with (j + 1 + i) by lia. f_equal.
    destruct (Z.ltb_spec j (Z.of_nat n)), (Z.ltb_spec (j + 1) (Z.of_nat (S n))); lia || done.
Qed.

Lemma land_ones8_byte b : is_byte b -> Z.land b (Z.ones 8) = b.
Proof. intros. rewrite Z.land_ones by lia. by apply Z.mod_small. Qed.

Lemma crc64_byte_fits crc c : fits_u 64 (crc64_byte crc c).
Proof. apply crc64_bit_fits. Qed.

Lemma crc64_loop_spec l crc :
  fits_u 64 crc -> Forall is_byte l -> _crc64 crc l = crc_bytes (crc_reflect crc 64) l.
Proof.
  intros Hc Hl. unfold _crc64. revert crc Hc. induction Hl as [|b l Hb Hl IH]; intros crc Hc; [done|].
  cbn [fold_left]. rewrite IH by apply crc64_byte_fits.
  change (crc_bytes ?r (b :: l)) with (crc_bytes (zeros 8 (Z.lxor r b)) l). f_equal.
  pose proof (reflect_bits b 8 crc 0 Hc ltac:(lia)) as H. rewrite Z.shiftr_0_r in H.
  change (Z.ones (Z.of_nat 8)) with (Z.ones 8) in H. rewrite land_ones8_byte in H by done. exact H.
Qed.

(** ** Tables *)

Definition good_table (t : table) : Prop :=
  forall (k : nat) n, (k < 8)%nat -> is_byte n -> tbl t k n = zeros (8 * S k) n.

(** The row of the table for [m] zero bits. *)
Definition zeros_row (m : nat) : list Z := (fun n => zeros m (Z.of_nat n)) <$> seq 0 256.

Lemma zeros_row_lookup m n : is_byte n -> zeros_row m !!! Z.to_nat n = zeros m n.
Proof.
  intros Hn. unfold is_byte in Hn. apply list_lookup_total_correct. unfold zeros_row.
  rewrite list_lookup_fmap, lookup_seq_lt by lia. cbn. do 2 f_equal. lia.
Qed.

Lemma land_ff x : Z.land x 0xff = Z.land x (Z.ones 8).
Proof. done. Qed.

Lemma land_ff_byte x : is_byte (Z.land x 0xff).
Proof. rewrite land_ff, Z.land_ones by lia. by apply Z.mod_pos_bound. Qed.

Lemma next_entry_spec crc : next_entry (zeros_row 8) crc = zeros 8 crc.
Proof.
  unfold next_entry. rewrite zeros_row_lookup by apply land_ff_byte.
  by rewrite (zeros_split 8 crc).
Qed.

Lemma next_rows_lookup n m k :
  (k < n)%nat -> next_rows (zeros_row 8) (zeros_row m) n !!! k = zeros_row (8 * S k + m).
Proof.
  revert m k. induction n as [|n IH]; intros m k Hk; [lia|]. cbn [next_rows].
  assert (next_entry (zeros_row 8) <$> zeros_row m = zeros_row (8 + m)) as Hrow.
  { unfold zeros_row at 2 3. rewrite <- list_fmap_compose. apply list_fmap_ext. intros _ x _. cbn.
    by rewrite next_entry_spec, <- zeros_add. }
  rewrite Hrow. destruct k as [|k]; [done|]. change ((?a :: ?l) !!! S k) with (l !!! k).
  rewrite IH by lia. f_equal. lia.
Qed.

Lemma crc64_single n : is_byte n -> _crc64 0 [n] = zeros 8 n.
Proof.
  intros Hn. rewrite crc64_loop_spec; [|by split; vm_compute|by constructor].
  change (crc_reflect 0 64) with 0. by cbn [crc_bytes fold_left]; rewrite Z.lxor_0_l.
Qed.

Lemma crc64_table_good : good_table (crcspeed64little_init _crc64).
Proof.
  intros k n Hk Hn. unfold tbl, crcspeed64little_init. cbv zeta.
  assert (((fun n => _crc64 0 [Z.of_nat n]) <$> seq 0 256) = zeros_row 8) as ->.
  { apply list_fmap_ext. intros i x Hx. apply lookup_seq in Hx as [-> Hi].
    apply crc64_single. unfold is_byte. lia. }
  destruct k as [|k]; [by apply zeros_row_lookup|].
  change ((?a :: ?l) !!! S k) with (l !!! k). rewrite next_rows_lookup by lia.
  rewrite zeros_row_lookup by done. f_equal. lia.
Qed.

Section fast.
Context (t : table) (Ht : good_table t).

Lemma do_byte_spec crc b : is_byte b -> do_byte t crc b = zeros 8 (Z.lxor crc b).
Proof.
  intros Hb. unfold do_byte. rewrite Ht by first [lia|apply land_ff_byte].
  rewrite (zeros_split 8 (Z.lxor crc b)), land_ff. f_equal. rewrite Z.shiftr_lxor.
  replace (Z.shiftr b (Z.of_nat 8)) with 0; [by rewrite Z.lxor_0_r|].
  rewrite Z.shiftr_div_pow2 by lia. symmetry. by apply Z.div_small.
Qed.

Lemma do_bytes_spec l crc : Forall is_byte l -> fold_left (do_byte t) l crc = crc_bytes crc l.
Proof.
  intros Hl. revert crc. induction Hl as [|b l Hb Hl IH]; intros crc; [done|].
  cbn [fold_left]. by rewrite do_byte_spec, IH.
Qed.

Lemma align_loop_spec l addr crc :
  Forall is_byte l -> let r := align_loop t addr crc l in
  crc_bytes r.1 r.2 = crc_bytes crc l /\ Forall is_byte r.2.
Proof.
  intros Hl. revert addr crc. induction Hl as [|b l Hb Hl IH]; intros addr crc; [done|].
  cbn [align_loop]. destruct (_ =? 0); [by split; [|constructor]|].
  cbv zeta. destruct (IH (addr + 1) (do_byte t crc b)) as [-> ?]. split; [|done].
  by rewrite do_byte_spec.
Qed.

(** Eight zero bytes, one table row per byte. *)
Lemma zeros_slice n x j j' :
  0 <= j -> j' = j + 8 ->
  zeros (8 * S n) (Z.shiftr x j) =
    Z.lxor (zeros (8 * S n) (Z.land (Z.shiftr x j) 0xff)) (zeros (8 * n) (Z.shiftr x j')).
Proof.
  intros Hj ->. replace (8 * S n)%nat with (8 * n + 8)%nat by lia. rewrite !zeros_add.
  rewrite <- zeros_lxor, <- Z.shiftr_shiftr by lia. f_equal. apply (zeros_split 8).
Qed.

Lemma do_8_spec crc next :
  fits_u 64 crc -> Forall is_byte next -> (8 <= length next)%nat ->
  do_8 t crc next = crc_bytes crc (take 8 next).
Proof.
  intros Hc Hn Hlen. rewrite crc_bytes_word by by apply Forall_take.
  rewrite length_take_le by lia. unfold do_8. cbv zeta.
  assert (fits_u 64 (Z.lxor crc (le_decode (take 8 next)))) as Hx.
  { apply lxor_fits; [lia|done|]. pose proof (le_decode_bound (take 8 next) ltac:(by apply Forall_take)).
    rewrite length_take_le in H by lia. exact H. }
  revert Hx. generalize (Z.lxor crc (le_decode (take 8 next))) as x. intros x Hx.
  rewrite !Ht by first [lia | apply land_ff_byte |
    destruct Hx as [? Hx]; rewrite Z.shiftr_div_pow2 by lia;
    split; [by apply Z.div_pos|]; apply Z.div_lt_upper_bound; lia].
  symmetry. rewrite <- (Z.shiftr_0_r x) at 1.
  rewrite (zeros_slice 7 x 0 8), (zeros_slice 6 x 8 16), (zeros_slice 5 x 16 24),
    (zeros_slice 4 x 24 32), (zeros_slice 3 x 32 40), (zeros_slice 2 x 40 48),
    (zeros_slice 1 x 48 56), Z.shiftr_0_r, !Z.lxor_assoc by lia. done.
Qed.

(** *** Streams of eight bytes *)

Lemma stream_loop_spec n crc next :
  fits_u 64 crc -> Forall is_byte next -> (8 * n <= length next)%nat ->
  stream_loop t n crc next = (crc_bytes crc (take (8 * n) next), drop (8 * n) next).
Proof.
  revert crc next. induction n as [|n IH]; intros crc next Hc Hn Hlen; [by rewrite take_0, drop_0|].
  cbn [stream_loop]. rewrite do_8_spec by (done || lia).
  rewrite IH; [|by apply crc_bytes_fits, Forall_take|by apply Forall_drop|rewrite length_drop; lia].
  rewrite <- crc_bytes_app, take_take_drop, drop_drop. do 2 f_equal; f_equal; lia.
Qed.

Lemma stream_loop2_spec n crc1 crc2 next1 next2 :
  stream_loop2 t n crc1 crc2 next1 next2 =
    ((stream_loop t n crc1 next1).1, (stream_loop t n crc2 next2).1, (stream_loop t n crc2 next2).2).
Proof.
  revert crc1 crc2 next1 next2. induction n as [|n IH]; intros; [done|]. cbn. apply IH.
Qed.

Lemma stream_loop3_spec n crc1 crc2 crc3 next1 next2 next3 :
  stream_loop3 t n crc1 crc2 crc3 next1 next2 next3 =
    ((stream_loop t n crc1 next1).1, (stream_loop t n crc2 next2).1,
     (stream_loop t n crc3 next3).1, (stream_loop t n crc3 next3).2).
Proof.
  revert crc1 crc2 crc3 next1 next2 next3. induction n as [|n IH]; intros; [done|]. cbn. apply IH.
Qed.
End fast.

(** ** Matrices over GF(2) *)

Fixpoint mat_mul (mat : list Z) (v : Z) : Z :=
  match mat with
  | [] => 0
  | m :: mat => Z.lxor (mask64 (Z.odd v) m) (mat_mul mat (Z.shiftr v 1))
  end.

(** What the combine code needs of a product. *)
Class CrcMultiply (mul : list Z -> Z -> Z) : Prop :=
  crc_multiply mat v : length mat = 64%nat -> fits_u 64 v -> mul mat v = mat_mul mat v.

Lemma mat_mul_0 mat : mat_mul mat 0 = 0.
Proof. induction mat as [|m mat IH]; [done|]. cbn [mat_mul]. by rewrite Z.shiftr_0_l, IH. Qed.

Lemma odd_shiftr v n : 0 <= n -> Z.odd (Z.shiftr v n) = Z.testbit v n.
Proof. intros. by rewrite <- Z.bit0_odd, Z.shiftr_spec by done. Qed.

Lemma switch4_spec m0 m1 m2 m3 mat v :
  switch4 (m0 :: m1 :: m2 :: m3 :: mat) (Z.land v 15) =
    Z.lxor (mask64 (Z.testbit v 0) m0) (Z.lxor (mask64 (Z.testbit v 1) m1)
      (Z.lxor (mask64 (Z.testbit v 2) m2) (mask64 (Z.testbit v 3) m3))).
Proof.
  assert (forall i, 0 <= i < 4 -> Z.testbit v i = Z.testbit (Z.land v 15) i) as Hb.
  { intros i Hi. change 15 with (Z.ones 4). rewrite Z.land_spec, Z.testbit_ones_nonneg by lia.
    destruct (Z.ltb_spec i 4); [|lia]. by rewrite andb_true_r. }
  rewrite !Hb by lia. assert (0 <= Z.land v 15 < 16) as Hv.
  { change 15 with (Z.ones 4). rewrite Z.land_ones by lia. by apply Z.mod_pos_bound. }
  revert Hv. generalize (Z.land v 15). intros c Hc.
  assert (c = 0 \/ c = 1 \/ c = 2 \/ c = 3 \/ c = 4 \/ c = 5 \/ c = 6 \/ c = 7 \/ c = 8 \/ c = 9 \/
    c = 10 \/ c = 11 \/ c = 12 \/ c = 13 \/ c = 14 \/ c = 15) as Hcase by lia.
  repeat destruct Hcase as [->|Hcase]; [..|subst c];
    cbn; rewrite ?Z.lxor_0_l, ?Z.lxor_0_r, ?Z.lxor_assoc; done.
Qed.

Lemma times_switch_spec fuel mat vec sum :
  length mat = (4 * fuel)%nat -> fits_u (4 * Z.of_nat fuel) vec ->
  times_switch_loop fuel mat vec sum = Some (Z.lxor sum (mat_mul mat vec)).
Proof.
  revert mat vec sum. induction fuel as [|fuel IH]; intros mat vec sum Hl Hv;
    cbn [times_switch_loop]; (destruct (Z.eqb_spec vec 0) as [->|Hne];
      [by rewrite mat_mul_0, Z.lxor_0_r|]).
  { unfold fits_u in Hv. cbn in Hv. lia. }
  do 4 (destruct mat as [|? mat]; [cbn in Hl; lia|]). cbn [length] in Hl.
  change (drop 4 (?a :: ?b :: ?c :: ?d :: mat)) with mat. rewrite IH; [|lia|].
  - f_equal. rewrite switch4_spec, Z.lxor_assoc. f_equal. cbn [mat_mul].
    rewrite !Z.shiftr_shiftr by lia. cbn [Z.add Pos.add Pos.succ Pos.add_carry].
    rewrite <- (Z.shiftr_0_r vec) at 5. rewrite !odd_shiftr, !Z.lxor_assoc by lia. done.
  - destruct Hv as [H0 H1]. rewrite Z.shiftr_div_pow2 by lia. split; [by apply Z.div_pos|].
    apply Z.div_lt_upper_bound; [lia|]. rewrite <- Z.pow_add_r by lia.
    replace (4 + 4 * Z.of_nat fuel) with (4 * Z.of_nat (S fuel)) by lia. done.
Qed.

#[export] Instance switch_multiply : CrcMultiply gf2_matrix_times_switch.
Proof.
  intros mat v Hl Hv. unfold gf2_matrix_times_switch.
  rewrite times_switch_spec by done. apply Z.lxor_0_l.
Qed.

Lemma times_vec2_spec steps mat vec s0 s1 :
  length mat = (2 * steps)%nat ->
  times_vec2_loop steps mat vec s0 s1 = Z.lxor (Z.lxor s0 s1) (mat_mul mat vec).
Proof.
  revert mat vec s0 s1. induction steps as [|n IH]; intros mat vec s0 s1 Hl.
  { destruct mat; [|done]. cbn. by rewrite Z.lxor_0_r. }
  do 2 (destruct mat as [|? mat]; [cbn in Hl; lia|]). cbn [length] in Hl.
  cbn [times_vec2_loop]. change (drop 2 (?a :: ?b :: mat)) with mat. rewrite IH by lia. cbn [mat_mul].
  rewrite Z.shiftr_shiftr, odd_shiftr, <- Z.bit0_odd by lia.
  change (column (?a :: ?b :: ?l) 0) with a. change (column (?a :: ?b :: ?l) 1) with b.
  rewrite lxor_swap, !Z.lxor_assoc. done.
Qed.

#[export] Instance vec2_multiply : CrcMultiply gf2_matrix_times_vec2.
Proof.
  intros mat v Hl _. unfold gf2_matrix_times_vec2. rewrite times_vec2_spec by done. apply Z.lxor_0_l.
Qed.

(** The matrix of a linear map, from column [j] on. *)
Definition linear (f : Z -> Z) : Prop := f 0 = 0 /\ forall x y, f (Z.lxor x y) = Z.lxor (f x) (f y).

Definition matrix_of (f : Z -> Z) (j n : nat) : list Z :=
  (fun i => f (Z.shiftl 1 (Z.of_nat i))) <$> seq j n.

Lemma zeros_linear n : linear (zeros n).
Proof. split; [apply zeros_0|apply zeros_lxor]. Qed.

Lemma length_matrix_of f j n : length (matrix_of f j n) = n.
Proof. unfold matrix_of. by rewrite length_fmap, length_seq. Qed.

Lemma mat_mul_matrix f j n v :
  linear f -> fits_u (Z.of_nat n) v -> mat_mul (matrix_of f j n) v = f (Z.shiftl v (Z.of_nat j)).
Proof.
  intros [Hf0 Hf]. revert j v. induction n as [|n IH]; intros j v Hv.
  { assert (v = 0) as -> by (unfold fits_u in Hv; cbn in Hv; lia). by rewrite Z.shiftl_0_l. }
  unfold matrix_of. cbn [seq]. rewrite fmap_cons. cbn [mat_mul]. fold (matrix_of f (S j) n).
  assert (fits_u (Z.of_nat n) (Z.shiftr v 1)) as Hv'.
  { destruct Hv as [H0 H1]. rewrite Z.shiftr_div_pow2 by lia. split; [by apply Z.div_pos|].
    apply Z.div_lt_upper_bound; [lia|]. rewrite <- Z.pow_add_r by lia.
    replace (1 + Z.of_nat n) with (Z.of_nat (S n)) by lia. done. }
  rewrite IH by done. rewrite (split_low 1 v) at 3 by lia. rewrite Z.shiftl_lxor, Hf. f_equal.
  - replace (Z.land v (Z.ones 1)) with (Z.b2z (Z.odd v)).
    + destruct (Z.odd v); cbn [mask64 Z.b2z]; [done|by rewrite Z.shiftl_0_l].
    + rewrite Z.land_ones, <- Z.bit0_odd by lia. apply Z.bit0_mod.
  - rewrite Z.shiftl_shiftl by lia. do 2 f_equal. lia.
Qed.

Section combine.
Context (mul : list Z -> Z -> Z) {Hmul : CrcMultiply mul}.

Lemma mul_zeros m v : fits_u 64 v -> mul (matrix_of (zeros m) 0 64) v = zeros m v.
Proof.
  intros Hv. rewrite crc_multiply by first [done|apply length_matrix_of].
  rewrite mat_mul_matrix by (done || apply zeros_linear). by rewrite Z.shiftl_0_r.
Qed.

Lemma square_zeros m :
  gf2_matrix_square mul (matrix_of (zeros m) 0 64) = matrix_of (zeros (2 * m)) 0 64.
Proof.
  unfold gf2_matrix_square. unfold matrix_of at 2 3. rewrite <- list_fmap_compose.
  apply list_fmap_ext. intros k i Hi. apply lookup_seq in Hi as [-> Hi]. cbn [compose].
  assert (fits_u 64 (Z.shiftl 1 (Z.of_nat (0 + k)))) as Hfit.
  { rewrite Z.shiftl_mul_pow2, Z.mul_1_l by lia. split; [apply Z.pow_nonneg; lia|].
    apply Z.pow_lt_mono_r; lia. }
  unfold compose. rewrite mul_zeros by by apply zeros_fits.
  rewrite <- zeros_add. f_equal. lia.
Qed.

Lemma cache_layers_lookup n m k :
  (k < n)%nat ->
  cache_layers mul (matrix_of (zeros m) 0 64) n !!! k = matrix_of (zeros (2 ^ S k * m)) 0 64.
Proof.
  revert m k. induction n as [|n IH]; intros m k Hk; [lia|]. cbn [cache_layers].
  rewrite square_zeros. destruct k as [|k]; [done|].
  change ((?a :: ?l) !!! S k) with (l !!! k). rewrite IH by lia.
  f_equal. f_equal. rewrite (Nat.pow_succ_r' 2 (S k)). lia.
Qed.

Lemma zero_bit_matrix_spec : zero_bit_matrix CRC64_REVERSED_POLY 64 = matrix_of (zeros 1) 0 64.
Proof. by vm_compute. Qed.

(** Layer [k] of the cache applies [2 ^ k] zero bytes. *)
Lemma combine_cache_lookup k :
  (k < 64)%nat ->
  init_combine_cache mul CRC64_REVERSED_POLY 64 !!! k = matrix_of (zeros (2 ^ k * 8)) 0 64.
Proof.
  intros Hk. unfold init_combine_cache. cbv zeta. rewrite zero_bit_matrix_spec, !square_zeros.
  rewrite cache_layers_lookup by done. do 2 f_equal. rewrite Nat.pow_succ_r'. lia.
Qed.

Lemma combine_loop_S fuel cache num crc len :
  combine_loop mul (S fuel) cache num crc len =
    let crc' := if Z.odd len then mul (cache !!! num) crc else crc in
    if Z.shiftr len 1 =? 0 then Some crc'
    else combine_loop mul fuel cache (Nat.land (num + 1) 63) crc' (Z.shiftr len 1).
Proof. done. Qed.

Lemma combine_loop_spec fuel num crc len :
  fits_u 64 crc -> (num + S fuel <= 64)%nat -> 0 <= len < 2 ^ Z.of_nat (S fuel) ->
  combine_loop mul (S fuel) (init_combine_cache mul CRC64_REVERSED_POLY 64) num crc len =
    Some (zeros (2 ^ num * (Z.to_nat len * 8)) crc).
Proof.
  revert num crc len. induction fuel as [|fuel IH]; intros num crc len Hc Hnum Hlen;
    rewrite combine_loop_S, combine_cache_lookup, mul_zeros by (done || lia); cbv zeta;
    pose proof (Z.div2_odd len) as Hdec; rewrite Z.div2_spec in Hdec;
    set (crc' := if Z.odd len then _ else _);
    assert (crc' = zeros (2 ^ num * (Z.to_nat (Z.b2z (Z.odd len)) * 8)) crc) as Hcrc'
      by (subst crc'; destruct (Z.odd len); [f_equal; cbn; lia|]; cbn; by rewrite Nat.mul_0_r).
  - replace (Z.shiftr len 1) with 0 in *; [cbn [Z.eqb]; f_equal; rewrite Hcrc'; do 4 f_equal; lia|].
    cbn in Hlen. destruct (Z.odd len); cbn in Hdec; lia.
  - assert (0 <= Z.shiftr len 1 < 2 ^ Z.of_nat (S fuel)) as Hhalf.
    { rewrite (Nat2Z.inj_succ (S fuel)), Z.pow_succ_r in Hlen by lia.
      destruct (Z.odd len); cbn [Z.b2z] in Hdec; lia. }
    destruct (Z.eqb_spec (Z.shiftr len 1) 0) as [Hz|Hz].
    { rewrite Hz in Hdec. f_equal. rewrite Hcrc'. do 4 f_equal. lia. }
    assert (Nat.land (num + 1) 63 = S num) as ->.
    { change 63%nat with (Nat.ones 6). rewrite Nat.land_ones, Nat.mod_small by (cbn; lia). lia. }
    rewrite IH; [|rewrite Hcrc'; by apply zeros_fits|lia|done].
    f_equal. rewrite Hcrc', <- zeros_add. f_equal. rewrite Hdec at 3.
    rewrite Z2Nat.inj_add, Z2Nat.inj_mul, Nat.pow_succ_r' by (destruct (Z.odd len); cbn; lia).
    change (Z.to_nat 2) with 2%nat. lia.
Qed.

Lemma crc64_combine_spec crc1 crc2 len2 :
  fits_u 64 crc1 -> 0 <= len2 < 2 ^ 64 -> (len2 = 0 -> crc2 = 0) ->
  crc64_combine mul crc1 crc2 len2 CRC64_REVERSED_POLY 64 =
    Z.lxor (zeros (8 * Z.to_nat len2) crc1) crc2.
Proof.
  intros Hc Hlen H0. unfold crc64_combine. destruct (Z.eqb_spec len2 0) as [->|Hne].
  - rewrite H0 by done. cbn. by rewrite Z.lxor_0_r.
  - rewrite (combine_loop_spec 63) by (done || lia). cbn [default from_option id Nat.pow]. unfold id.
    do 2 f_equal. lia.
Qed.
End combine.

(** ** The theorem *)

Lemma len_mask_spec x : 0 <= x < 2 ^ 63 -> Z.land x CRC64_LEN_MASK = 8 * (x / 8).
Proof.
  intros Hx. replace (8 * (x / 8)) with (Z.shiftl (Z.shiftr x 3) 3)
    by (rewrite Z.shiftl_mul_pow2, Z.shiftr_div_pow2 by lia; change (2 ^ 3) with 8; lia).
  apply (word_bits_inj 63).
  - by apply land_fits.
  - rewrite Z.shiftl_mul_pow2, Z.shiftr_div_pow2 by lia. change (2 ^ 3) with 8. unfold fits_u.
    pose proof (Z.mul_div_le x 8 ltac:(lia)). pose proof (Z.div_pos x 8 ltac:(lia) ltac:(lia)). lia.
  - intros i Hi. rewrite Z.land_spec, Z.shiftl_spec by lia.
    replace (Z.testbit CRC64_LEN_MASK i) with (3 <=? i).
    + destruct (Z.leb_spec 3 i); [|by rewrite andb_false_r, Z.testbit_neg_r by lia].
      rewrite andb_true_r, Z.shiftr_spec by lia. f_equal. lia.
    + assert (0 <= i < 64) as Hi' by lia. assert (i <> 63) as Hne by lia. clear Hi. revert i Hi' Hne.
      apply (testbit_cases64 (fun i => i <> 63 -> _)). intros i Hi Hne.
      do 63 (destruct i as [|i]; [done|]). lia.
Qed.

Lemma split_spec len div :
  0 <= len < 2 ^ 64 -> 2 <= div ->
  exists q : nat, CRC64_SPLIT len div = 8 * Z.of_nat q /\ 8 * Z.of_nat q * div <= len.
Proof.
  intros Hlen Hdiv. pose proof (Z.div_pos len div ltac:(lia) ltac:(lia)).
  assert (len / div < 2 ^ 63) by (apply Z.div_lt_upper_bound; lia).
  unfold CRC64_SPLIT. rewrite len_mask_spec by lia. exists (Z.to_nat (len / div / 8)).
  pose proof (Z.div_pos (len / div) 8 ltac:(lia) ltac:(lia)). rewrite Z2Nat.id by done.
  split; [done|]. pose proof (Z.mul_div_le (len / div) 8 ltac:(lia)).
  pose proof (Z.mul_div_le len div ltac:(lia)). nia.
Qed.

Section main.
Context (mul : list Z -> Z -> Z) {Hmul : CrcMultiply mul} (t : table) (Ht : good_table t).

(** Merging two adjacent segments. *)
Lemma MERGE_CRC_spec crc seg len :
  fits_u 64 crc -> Forall is_byte seg -> len = Z.of_nat (length seg) -> len < 2 ^ 64 ->
  MERGE_CRC mul crc (crc_bytes 0 seg) len = crc_bytes crc seg.
Proof.
  intros Hc Hs -> Hlen. unfold MERGE_CRC. rewrite crc64_combine_spec; [|done..|lia|].
  - by rewrite Nat2Z.id, <- crc_bytes_split.
  - intros H. by assert (seg = []) as -> by (destruct seg; [done|cbn in H; lia]).
Qed.

Lemma fits_u64_0 : fits_u 64 0.
Proof. by split. Qed.

Lemma cut3 {A} n (l : list A) :
  take n l ++ take n (drop n l) ++ take n (drop (n + n) l) ++ drop n (drop (n + n) l) = l.
Proof. by rewrite take_drop, <- (drop_drop l n n), !take_drop. Qed.

Ltac side := first [done | by apply Forall_drop | by apply crc_bytes_fits; first [done | apply Forall_take]
  | rewrite ?length_take, ?length_drop; lia].

Lemma three_streams crc next (q : nat) :
  fits_u 64 crc -> Forall is_byte next -> Z.of_nat (length next) < 2 ^ 64 ->
  (24 * q <= length next)%nat ->
  let '(c1, c2, c3, rest) := stream_loop3 t q crc 0 0 next (drop (8 * q) next)
    (drop (8 * q + 8 * q) next) in
  let r := MERGE_CRC mul (MERGE_CRC mul c1 c2 (8 * Z.of_nat q)) c3 (8 * Z.of_nat q) in
  crc_bytes r rest = crc_bytes crc next /\ fits_u 64 r /\ Forall is_byte rest.
Proof.
  intros Hc Hn Hlen Hq. pose proof fits_u64_0.
  rewrite stream_loop3_spec, !stream_loop_spec by side. cbn [fst snd].
  assert (forall k, Forall is_byte (take (8 * q) (drop k next))) by (intros; by apply Forall_take, Forall_drop).
  assert (fits_u 64 (crc_bytes crc (take (8 * q) next))) by side.
  rewrite (MERGE_CRC_spec _ (take _ (drop (8 * q) next))) by side.
  assert (fits_u 64 (crc_bytes (crc_bytes crc (take (8 * q) next)) (take (8 * q) (drop (8 * q) next)))) by side.
  rewrite MERGE_CRC_spec by side. split; [|split; [side|by do 2 apply Forall_drop]].
  by rewrite <- !crc_bytes_app, <- ?app_assoc, cut3.
Qed.

Lemma two_streams crc next (q : nat) :
  fits_u 64 crc -> Forall is_byte next -> Z.of_nat (length next) < 2 ^ 64 ->
  (16 * q <= length next)%nat ->
  let '(c1, c2, rest) := stream_loop2 t q crc 0 next (drop (8 * q) next) in
  let r := MERGE_CRC mul c1 c2 (8 * Z.of_nat q) in
  crc_bytes r rest = crc_bytes crc next /\ fits_u 64 r /\ Forall is_byte rest.
Proof.
  intros Hc Hn Hlen Hq. pose proof fits_u64_0.
  rewrite stream_loop2_spec, !stream_loop_spec by side. cbn [fst snd].
  assert (forall k, Forall is_byte (take (8 * q) (drop k next))) by (intros; by apply Forall_take, Forall_drop).
  assert (fits_u 64 (crc_bytes crc (take (8 * q) next))) by side.
  rewrite MERGE_CRC_spec by side. split; [|split; [side|by do 2 apply Forall_drop]].
  by rewrite <- !crc_bytes_app, <- ?app_assoc, !take_drop.
Qed.

Lemma align_fits addr crc l :
  fits_u 64 crc -> Forall is_byte l ->
  fits_u 64 (align_loop t addr crc l).1 /\ (length (align_loop t addr crc l).2 <= length l)%nat.
Proof.
  intros Hc Hl. revert addr crc Hc. induction Hl as [|b l Hb Hl IH]; intros addr crc Hc; [done|].
  cbn [align_loop length]. destruct (_ =? 0); [done|].
  destruct (IH (addr + 1) (do_byte t crc b)) as [? ?]; [|split; [done|lia]].
  rewrite do_byte_spec by done. apply zeros_fits, lxor_fits; [lia|done|by apply byte_fits].
Qed.

Lemma tail_spec crc next :
  fits_u 64 crc -> Forall is_byte next ->
  (let '(c, rest) := stream_loop t (length next / 8) crc next in fold_left (do_byte t) rest c) =
    crc_bytes crc next.
Proof.
  intros Hc Hn. pose proof (Nat.Div0.mul_div_le (length next) 8).
  rewrite stream_loop_spec, do_bytes_spec by side. by rewrite <- crc_bytes_app, take_drop.
Qed.

Lemma crcspeed64little_spec DUAL TRI addr crc buf :
  fits_u 64 crc -> Forall is_byte buf -> Z.of_nat (length buf) < 2 ^ 64 ->
  crcspeed64little mul DUAL TRI t addr crc buf = crc_bytes crc buf.
Proof.
  intros Hc Hb Hlen. unfold crcspeed64little. destruct (DUAL <? 1); [by apply do_bytes_spec|].
  destruct (align_loop_spec t Ht buf addr crc Hb) as [<- Hn].
  destruct (align_fits addr crc buf Hc Hb) as [Hc1 Hl1].
  destruct (align_loop t addr crc buf) as [crc1 next]. cbn [fst snd] in *. clear Hc crc.
  assert (0 <= Z.of_nat (length next) < 2 ^ 64) as Hlen' by lia. cbv zeta.
  destruct (TRI <? _); [|destruct (DUAL <? _); [|by apply tail_spec]].
  - destruct (split_spec _ 3 Hlen' ltac:(lia)) as (q & -> & Hq).
    replace (8 * Z.of_nat q / 8) with (Z.of_nat q) by (apply Z.div_unique_exact; lia).
    replace (Z.to_nat (8 * Z.of_nat q)) with (8 * q)%nat by lia. rewrite Nat2Z.id.
    pose proof (three_streams crc1 next q Hc1 Hn ltac:(lia) ltac:(lia)) as H.
    destruct (stream_loop3 _ _ _ _ _ _ _ _) as [[[c1 c2] c3] rest].
    destruct H as (<- & ? & ?). by apply tail_spec.
  - destruct (split_spec _ 2 Hlen' ltac:(lia)) as (q & -> & Hq).
    replace (8 * Z.of_nat q / 8) with (Z.of_nat q) by (apply Z.div_unique_exact; lia).
    replace (Z.to_nat (8 * Z.of_nat q)) with (8 * q)%nat by lia. rewrite Nat2Z.id.
    pose proof (two_streams crc1 next q Hc1 Hn ltac:(lia) ltac:(lia)) as H.
    destruct (stream_loop2 _ _ _ _ _ _) as [[c1 c2] rest].
    destruct H as (<- & ? & ?). by apply tail_spec.
Qed.
End main.

Lemma reflect_involutive x : fits_u 64 x -> crc_reflect (crc_reflect x 64) 64 = x.
Proof.
  intros Hx. apply (word_bits_inj 64); [by do 2 apply reflect_fits|done|].
  intros i Hi. rewrite !reflect_testbit by lia. f_equal. lia.
Qed.

(** C20: for every alignment, length, pair of cutoffs and either matrix
    product, the sliced, interleaved and merged [crc64] of a buffer is what
    the bit-by-bit [_crc64] computes from the reflected initial value. *)
Theorem crc64_correct (mul : list Z -> Z -> Z) DUAL TRI addr crc s :
  mul = gf2_matrix_times_switch \/ mul = gf2_matrix_times_vec2 ->
  fits_u 64 crc -> Forall is_byte s -> Z.of_nat (length s) < 2 ^ 64 ->
  crc64 mul DUAL TRI addr crc s = _crc64 (crc_reflect crc 64) s.
Proof.
  intros Hm Hc Hs Hlen. unfold crc64. rewrite crc64_loop_spec by (done || by apply reflect_fits).
  rewrite reflect_involutive by done.
  by destruct Hm as [-> | ->]; apply crcspeed64little_spec; first [typeclasses eauto | apply crc64_table_good | done].
Qed.

(** A buffer long enough for the three-stream path with cutoffs 16 and 32. *)
Lemma crc64_correct_witness :
  let s := (fun n => Z.of_nat n mod 256) <$> seq 7 100 in
  crc64 gf2_matrix_times_switch 16 32 0x1003 5 s = _crc64 (crc_reflect 5 64) s.
Proof.
  apply crc64_correct; [by left|by split|by apply (bool_decide_unpack _); vm_compute|by vm_compute].
Defined.

(** The check value of this CRC, of the digits 1 to 9. *)
Lemma crc64_check_value : crc64 gf2_matrix_times_switch 1024 16384 0 0 (seqZ 49 9) = 0xe9c6d914c4b8d9ca.
Proof. by vm_compute. Qed.
