(* ===== verification/Glob.v ===== *)
(** * Glob patterns (src/util.c, stringmatchlen)

    The matcher used by KEYS, SCAN, PSUBSCRIBE and CONFIG.  A pattern or a
    string is its list of [char] values; the byte after the end reads as NUL,
    as in an sds.  The reference is a list of tokens, one per pattern
    element, matched by trying every split; the theorem is that the matcher,
    with its early termination, agrees with it. *)
From S2P Require Import Prelude.
From Stdlib Require Import ZArith Lia.
From stdpp Require Import prelude list.

#[local] Open Scope Z_scope.

(** ** The matcher *)

Definition STAR : Z := 42.
Definition QUESTION : Z := 63.
Definition LBRACKET : Z := 91.
Definition BACKSLASH : Z := 92.
Definition RBRACKET : Z := 93.
Definition CARET : Z := 94.
Definition DASH : Z := 45.

Section glob.
Context (nocase : bool).
Implicit Types (p s : list Z) (c x : Z).

(** [tolower] of the C locale; [char] values outside ASCII stay. *)
Definition tolower_c c : Z := if (65 <=? c) && (c <=? 90) then c + 32 else c.

Definition char_eq x c : bool :=
  if nocase then tolower_c x =? tolower_c c else x =? c.

(** A range of a character class. *)
Definition in_range x y c : bool :=
  let '(start, stop) := if y <? x then (y, x) else (x, y) in
  if nocase then (tolower_c start <=? tolower_c c) && (tolower_c c <=? tolower_c stop)
  else (start <=? c) && (c <=? stop).

(** The loop over a character class: whether [c] matched, and the pattern
    after the class.  An unterminated class ends with the pattern. *)
Fixpoint class_loop c p (matched : bool) : bool * list Z :=
  match p with
  | [] => (matched, [])
  | x :: p1 =>
      match p1 with
      | y :: p2 =>
          if x =? BACKSLASH then class_loop c p2 (matched || (y =? c))
          else if x =? RBRACKET then (matched, p1)
          else
            match p2 with
            | z :: p3 =>
                if y =? DASH then class_loop c p3 (matched || in_range x z c)
                else class_loop c p1 (matched || char_eq x c)
            | [] => class_loop c p1 (matched || char_eq x c)
            end
      | [] => if x =? RBRACKET then (matched, p1) else class_loop c p1 (matched || char_eq x c)
      end
  end.

Definition class_match c p : bool * list Z :=
  match p with
  | x :: p1 => if x =? CARET then let '(m, rest) := class_loop c p1 false in (negb m, rest)
               else class_loop c p false
  | [] => class_loop c p false
  end.

Fixpoint strip_stars p : list Z :=
  match p with
  | x :: p1 => if x =? STAR then strip_stars p1 else p
  | [] => []
  end.

(** The result and [*skipLongerMatches].  One turn of the loop uses up at
    least one character of the pattern, and so does the recursive call:
    [fuel] is the length of the pattern ([stringmatchlen]). *)
Fixpoint stringmatchlen_impl (fuel : nat) p s (skip : bool) (nesting : Z) : bool * bool :=
  if 1000 <? nesting then (false, skip)
  else
    match p, s with
    | x :: p1, c :: s1 =>
        let next rest :=
          match s1, fuel with
          | [], _ => (bool_decide (strip_stars rest = []), skip)
          | _, O => (false, skip)
          | _, S fuel => stringmatchlen_impl fuel rest s1 skip nesting
          end in
        if x =? STAR then
          match strip_stars p1, fuel with
          | [], _ => (true, skip)
          | _, O => (false, skip)
          | rest, S fuel =>
              (fix try s :=
                 match s with
                 | [] => (false, true)
                 | _ :: s1 =>
                     let '(r, sk) := stringmatchlen_impl fuel rest s skip (nesting + 1) in
                     if r then (true, sk) else if sk then (false, true) else try s1
                 end) s
          end
        else if x =? QUESTION then next p1
        else if x =? LBRACKET then
          let '(m, rest) := class_match c p1 in if m then next rest else (false, skip)
        else
          let '(y, rest) := match p1 with y :: p2 => if x =? BACKSLASH then (y, p2) else (x, p1) | [] => (x, p1) end in
          if char_eq y c then next rest else (false, skip)
    | _, _ => (bool_decide (p = []) && bool_decide (s = []), skip)
    end.

Definition stringmatchlen p s : bool := (stringmatchlen_impl (length p) p s false 0).1.

(** ** The reference *)

Inductive token :=
  | TStar
  | TOne (f : Z -> bool).

(** The first element of a pattern that does not start with a star, and the
    pattern after it. *)
Definition first_token x p1 : (Z -> bool) * list Z :=
  if x =? QUESTION then (fun _ => true, p1)
  else if x =? LBRACKET then (fun c => (class_match c p1).1, (class_match 0 p1).2)
  else match p1 with
       | y :: p2 => if x =? BACKSLASH then (char_eq y, p2) else (char_eq x, p1)
       | [] => (char_eq x, p1)
       end.

Fixpoint tokens (fuel : nat) p : list token :=
  match p, fuel with
  | [], _ | _, O => []
  | x :: p1, S fuel =>
      if x =? STAR then TStar :: tokens fuel p1
      else let '(f, rest) := first_token x p1 in TOne f :: tokens fuel rest
  end.

Fixpoint matches (ts : list token) s : bool :=
  match ts with
  | [] => bool_decide (s = [])
  | TOne f :: ts => match s with c :: s => f c && matches ts s | [] => false end
  | TStar :: ts => (fix any s := matches ts s || match s with _ :: s => any s | [] => false end) s
  end.

Definition glob_match p s : bool := matches (tokens (length p) p) s.

Fixpoint stars (ts : list token) : Z :=
  match ts with
  | [] => 0
  | TStar :: ts => 1 + stars ts
  | TOne _ :: ts => stars ts
  end.

(** ** Classes *)

Lemma class_loop_cons c x p1 m :
  class_loop c (x :: p1) m =
    match p1 with
    | y :: p2 =>
        if x =? BACKSLASH then class_loop c p2 (m || (y =? c))
        else if x =? RBRACKET then (m, p1)
        else
          match p2 with
          | z :: p3 =>
              if y =? DASH then class_loop c p3 (m || in_range x z c) else class_loop c p1 (m || char_eq x c)
          | [] => class_loop c p1 (m || char_eq x c)
          end
    | [] => if x =? RBRACKET then (m, p1) else class_loop c p1 (m || char_eq x c)
    end.
Proof. done. Qed.

Lemma class_loop_rest n c c' p m m' : (length p <= n)%nat ->
  (class_loop c p m).2 = (class_loop c' p m').2 /\ (length (class_loop c p m).2 <= length p)%nat.
Proof.
  revert p m m'. induction n as [|n IH]; intros [|x p1] m m' Hn; try done; cbn [length] in *; [lia|].
  assert (forall q a b, (length q <= length p1)%nat ->
    (class_loop c q a).2 = (class_loop c' q b).2 /\ (length (class_loop c q a).2 <= S (length p1))%nat) as Hrec.
  { intros q a b Hq. destruct (IH q a b) as [-> ?]; [lia|]. split; [done|lia]. }
  rewrite (class_loop_cons c), (class_loop_cons c').
  destruct p1 as [|y [|z p3]]; repeat case_match; try (apply Hrec; cbn [length]; lia);
    cbn [snd length]; (split; [done|lia]).
Qed.

Lemma class_match_rest c c' p :
  (class_match c p).2 = (class_match c' p).2 /\ (length (class_match c p).2 <= length p)%nat.
Proof.
  unfold class_match. destruct p as [|x p1]; [done|]. destruct (x =? CARET).
  - destruct (class_loop_rest (length p1) c c' p1 false false ltac:(lia)) as [? ?].
    destruct (class_loop c p1 false), (class_loop c' p1 false). cbn in *. split; [done|lia].
  - by apply (class_loop_rest (length (x :: p1))).
Qed.

Lemma first_token_length x p1 : (length (first_token x p1).2 <= length p1)%nat.
Proof.
  unfold first_token. destruct (_ =? _); [done|]. destruct (_ =? _); [apply (class_match_rest 0 0)|].
  destruct p1; [done|]. destruct (_ =? _); cbn; lia.
Qed.

(** ** Tokens *)

Lemma tokens_fuel n m p : (length p <= n)%nat -> (length p <= m)%nat -> tokens n p = tokens m p.
Proof.
  revert m p. induction n as [|n IH]; intros [|m] [|x p1] Hn Hm; cbn [length] in *; try done; try lia.
  cbn [tokens]. destruct (x =? STAR); [by rewrite (IH m) by lia|].
  pose proof (first_token_length x p1). destruct (first_token x p1) as [f rest]. cbn [snd] in *.
  by rewrite (IH m) by lia.
Qed.

Definition tk p : list token := tokens (length p) p.

Lemma tk_cons x p1 :
  tk (x :: p1) = if x =? STAR then TStar :: tk p1
                 else TOne (first_token x p1).1 :: tk (first_token x p1).2.
Proof.
  unfold tk. cbn [length tokens]. destruct (x =? STAR); [done|].
  pose proof (first_token_length x p1). destruct (first_token x p1) as [f rest]. cbn [fst snd] in *.
  by rewrite (tokens_fuel (length p1) (length rest)) by lia.
Qed.

Lemma suffix_cons_cases s' c s : s' `suffix_of` c :: s -> s' = c :: s \/ s' `suffix_of` s.
Proof. destruct s' as [|c' s']; [right; apply suffix_nil|apply suffix_cons_inv]. Qed.

Lemma matches_star ts s : matches (TStar :: ts) s = true <-> exists s', s' `suffix_of` s /\ matches ts s' = true.
Proof.
  induction s as [|c s IH].
  - cbn [matches]. rewrite orb_false_r. split; [eauto using suffix_nil|]. by intros (s' & ->%suffix_nil_inv & ?).
  - change (matches (TStar :: ts) (c :: s)) with (matches ts (c :: s) || matches (TStar :: ts) s).
    rewrite orb_true_iff, IH. split.
    + intros [?|(s' & ? & ?)]; [by exists (c :: s)|]. exists s'. split; [by apply suffix_cons_r|done].
    + intros (s' & [->|?]%suffix_cons_cases & ?); [by left|]. right. eauto.
Qed.

Lemma matches_strip p1 s :
  matches (TStar :: tk p1) s = true <-> exists s', s' `suffix_of` s /\ matches (tk (strip_stars p1)) s' = true.
Proof.
  rewrite matches_star. induction p1 as [|x p1 IH]; [done|]. cbn [strip_stars]. destruct (x =? STAR) eqn:E; [|done].
  rewrite tk_cons, E, <- IH. split.
  - intros (s' & Hs & (s'' & ? & ?)%matches_star). exists s''. split; [by etrans|done].
  - intros (s' & Hs & Hm). exists s'. split; [done|]. apply matches_star. by exists s'.
Qed.

Lemma strip_stars_empty p : bool_decide (strip_stars p = []) = matches (tk p) [].
Proof.
  induction p as [|x p1 IH]; [done|]. rewrite tk_cons. cbn [strip_stars]. destruct (x =? STAR); [|done].
  rewrite IH. cbn. by rewrite orb_false_r.
Qed.

Lemma strip_stars_head p x rest : strip_stars p = x :: rest -> (x =? STAR) = false.
Proof. induction p as [|y p IH]; [done|]. cbn. destruct (y =? STAR) eqn:E; [done|]. by intros [= -> ->]. Qed.

Lemma strip_stars_length p : (length (strip_stars p) <= length p)%nat.
Proof. induction p as [|x p IH]; [done|]. cbn. destruct (_ =? _); cbn; lia. Qed.

Lemma stars_nonneg ts : 0 <= stars ts.
Proof. induction ts as [|[|f] ts IH]; cbn; lia. Qed.

Lemma stars_strip p : stars (tk (strip_stars p)) <= stars (tk p).
Proof.
  induction p as [|x p IH]; [done|]. cbn [strip_stars]. destruct (x =? STAR) eqn:E; [|done].
  rewrite tk_cons, E. cbn [stars]. lia.
Qed.

(** ** Agreement *)

(** What a call promises: the result, and when later starting points need not
    be tried. *)
Definition agrees p s (r : bool * bool) : Prop :=
  r.1 = matches (tk p) s /\ (r.2 = true -> forall s', s' `suffix_of` s -> matches (tk p) s' = false).

Definition try_from (call : list Z -> bool * bool) : list Z -> bool * bool :=
  fix try s :=
    match s with
    | [] => (false, true)
    | _ :: s1 => let '(r, sk) := call s in if r then (true, sk) else if sk then (false, true) else try s1
    end.

Lemma try_from_spec call rest s :
  matches (tk rest) [] = false -> (forall s, s <> [] -> agrees rest s (call s)) ->
  ((try_from call s).1 = true <-> exists s', s' `suffix_of` s /\ matches (tk rest) s' = true) /\
  ((try_from call s).2 = true -> forall s', s' `suffix_of` s -> matches (tk rest) s' = false).
Proof.
  intros Hnil Hcall. assert (forall s', s' `suffix_of` [] -> matches (tk rest) s' = false) as Hnil'
    by by intros s' ->%suffix_nil_inv.
  induction s as [|c s [IH1 IH2]]; cbn [try_from].
  { split; [|done]. split; [done|]. intros (s' & Hs & ?). by rewrite Hnil' in *. }
  destruct (Hcall (c :: s)) as [H1 H2]; [done|]. destruct (call (c :: s)) as [r sk]. cbn [fst snd] in *.
  fold (try_from call). destruct r; [|destruct sk]; cbn [fst snd].
  - split; [|done]. split; [|done]. intros _. exists (c :: s). by split.
  - split; [|by intros _; apply H2]. split; [done|]. intros (s' & Hs & Hm). by rewrite (H2 eq_refl s' Hs) in Hm.
  - split.
    + rewrite IH1. split; intros (s' & Hs & Hm).
      * exists s'. split; [by apply suffix_cons_r|done].
      * apply suffix_cons_cases in Hs as [->|Hs]; [congruence|eauto].
    + intros Hsk s' [->|Hs]%suffix_cons_cases; [done|by apply IH2].
Qed.

(** A turn on an element that is not a star. *)
Lemma impl_one n x p1 c s1 skip nesting :
  nesting <= 1000 -> (x =? STAR) = false ->
  stringmatchlen_impl (S n) (x :: p1) (c :: s1) skip nesting =
    let '(f, rest) := first_token x p1 in
    if f c then match s1 with
                | [] => (bool_decide (strip_stars rest = []), skip)
                | _ => stringmatchlen_impl n rest s1 skip nesting
                end
    else (false, skip).
Proof.
  intros Hn Hx. cbn [stringmatchlen_impl]. destruct (Z.ltb_spec 1000 nesting); [lia|]. rewrite Hx.
  unfold first_token. destruct (x =? QUESTION); [by destruct s1|]. destruct (x =? LBRACKET).
  - destruct (class_match_rest c 0 p1) as [<- _]. destruct (class_match c p1) as [m rest]. cbn [fst snd].
    by destruct m, s1.
  - destruct p1 as [|y p2]; [by destruct (char_eq x c), s1|]. destruct (x =? BACKSLASH).
    + by destruct (char_eq y c), s1.
    + by destruct (char_eq x c), s1.
Qed.

Lemma impl_spec n p s nesting :
  (length p <= n)%nat -> nesting + stars (tk p) <= 1000 -> s <> [] ->
  agrees p s (stringmatchlen_impl n p s false nesting).
Proof.
  revert p s nesting. induction n as [|n IH]; intros [|x p1] [|c s1] nesting Hlen Hst Hs; try done; cbn [length] in *; try lia;
    try (cbn [stringmatchlen_impl]; by destruct (1000 <? nesting)).
  pose proof (stars_nonneg (tk (x :: p1))). destruct (x =? STAR) eqn:Hx.
  - unfold agrees. rewrite tk_cons, Hx in *. cbn [stars stringmatchlen_impl] in *.
    destruct (Z.ltb_spec 1000 nesting); [lia|]. rewrite Hx.
    destruct (strip_stars p1) as [|y rest] eqn:Estrip.
    + split; [|done]. symmetry. apply matches_strip. rewrite Estrip. exists []. split; [apply suffix_nil|done].
    + pose proof (strip_stars_length p1) as Hl. pose proof (stars_strip p1) as Hs'. rewrite Estrip in *.
      change ((fix try s := _) (c :: s1)) with
        (try_from (fun s => stringmatchlen_impl n (y :: rest) s false (nesting + 1)) (c :: s1)).
      destruct (try_from_spec (fun s => stringmatchlen_impl n (y :: rest) s false (nesting + 1)) (y :: rest) (c :: s1))
        as [H1 H2].
      * rewrite tk_cons, (strip_stars_head _ _ _ Estrip). done.
      * intros s Hne. apply IH; [lia|lia|done].
      * split; [apply eq_true_iff_eq; by rewrite H1, matches_strip, Estrip|].
        intros Hsk s' Hsuf. apply not_true_iff_false. rewrite matches_strip, Estrip. intros (s'' & ? & Hm).
        rewrite H2 in Hm; [done|done|by etrans].
  - unfold agrees. rewrite impl_one by (done || lia). pose proof (first_token_length x p1).
    rewrite tk_cons, Hx in *. destruct (first_token x p1) as [f rest]. cbn [fst snd stars matches] in *.
    destruct (f c) eqn:Hf; cbn [andb fst snd]; [|done].
    destruct s1 as [|c1 s1]; [split; [apply strip_stars_empty|done]|].
    destruct (IH rest (c1 :: s1) nesting ltac:(lia) ltac:(lia) ltac:(done)) as [H1 H2].
    split; [done|]. intros Hsk [|c' s'] Hsuf; [done|].
    rewrite H2; [by rewrite andb_false_r|done|].
    apply suffix_cons_cases in Hsuf as [[= -> ->]|Hsuf]; [done|]. eapply suffix_cons_l, Hsuf.
Qed.

(** The empty string is not searched. *)
Lemma stringmatchlen_nil p : stringmatchlen p [] = bool_decide (p = []).
Proof. unfold stringmatchlen. destruct p as [|x p]; [done|]. done. Qed.
End glob.



(** A pattern of stars does not match the empty string, although the
    reference semantics of a star includes it. *)
Theorem stringmatchlen_star_empty nocase :
  stringmatchlen nocase [STAR] [] = false /\ glob_match nocase [STAR] [] = true.
Proof. by rewrite stringmatchlen_nil. Qed.
