(* ===== verification/HashSlot.v ===== *)
(** * Cluster hash slots (src/crc16.c, src/cluster.c)

    The table-driven CRC-16, the slot of a key with its hash tag, and the slot
    of a glob pattern.  Characters are [char] values, from -128 to 127. *)
From S2P Require Import Prelude Glob.
From Stdlib Require Import ZArith Lia.
From stdpp Require Import prelude list.

#[local] Open Scope Z_scope.

(** ** Definitions *)

Definition crc16tab : list Z := [
  0x0000; 0x1021; 0x2042; 0x3063; 0x4084; 0x50a5; 0x60c6; 0x70e7;
  0x8108; 0x9129; 0xa14a; 0xb16b; 0xc18c; 0xd1ad; 0xe1ce; 0xf1ef;
  0x1231; 0x0210; 0x3273; 0x2252; 0x52b5; 0x4294; 0x72f7; 0x62d6;
  0x9339; 0x8318; 0xb37b; 0xa35a; 0xd3bd; 0xc39c; 0xf3ff; 0xe3de;
  0x2462; 0x3443; 0x0420; 0x1401; 0x64e6; 0x74c7; 0x44a4; 0x5485;
  0xa56a; 0xb54b; 0x8528; 0x9509; 0xe5ee; 0xf5cf; 0xc5ac; 0xd58d;
  0x3653; 0x2672; 0x1611; 0x0630; 0x76d7; 0x66f6; 0x5695; 0x46b4;
  0xb75b; 0xa77a; 0x9719; 0x8738; 0xf7df; 0xe7fe; 0xd79d; 0xc7bc;
  0x48c4; 0x58e5; 0x6886; 0x78a7; 0x0840; 0x1861; 0x2802; 0x3823;
  0xc9cc; 0xd9ed; 0xe98e; 0xf9af; 0x8948; 0x9969; 0xa90a; 0xb92b;
  0x5af5; 0x4ad4; 0x7ab7; 0x6a96; 0x1a71; 0x0a50; 0x3a33; 0x2a12;
  0xdbfd; 0xcbdc; 0xfbbf; 0xeb9e; 0x9b79; 0x8b58; 0xbb3b; 0xab1a;
  0x6ca6; 0x7c87; 0x4ce4; 0x5cc5; 0x2c22; 0x3c03; 0x0c60; 0x1c41;
  0xedae; 0xfd8f; 0xcdec; 0xddcd; 0xad2a; 0xbd0b; 0x8d68; 0x9d49;
  0x7e97; 0x6eb6; 0x5ed5; 0x4ef4; 0x3e13; 0x2e32; 0x1e51; 0x0e70;
  0xff9f; 0xefbe; 0xdfdd; 0xcffc; 0xbf1b; 0xaf3a; 0x9f59; 0x8f78;
  0x9188; 0x81a9; 0xb1ca; 0xa1eb; 0xd10c; 0xc12d; 0xf14e; 0xe16f;
  0x1080; 0x00a1; 0x30c2; 0x20e3; 0x5004; 0x4025; 0x7046; 0x6067;
  0x83b9; 0x9398; 0xa3fb; 0xb3da; 0xc33d; 0xd31c; 0xe37f; 0xf35e;
  0x02b1; 0x1290; 0x22f3; 0x32d2; 0x4235; 0x5214; 0x6277; 0x7256;
  0xb5ea; 0xa5cb; 0x95a8; 0x8589; 0xf56e; 0xe54f; 0xd52c; 0xc50d;
  0x34e2; 0x24c3; 0x14a0; 0x0481; 0x7466; 0x6447; 0x5424; 0x4405;
  0xa7db; 0xb7fa; 0x8799; 0x97b8; 0xe75f; 0xf77e; 0xc71d; 0xd73c;
  0x26d3; 0x36f2; 0x0691; 0x16b0; 0x6657; 0x7676; 0x4615; 0x5634;
  0xd94c; 0xc96d; 0xf90e; 0xe92f; 0x99c8; 0x89e9; 0xb98a; 0xa9ab;
  0x5844; 0x4865; 0x7806; 0x6827; 0x18c0; 0x08e1; 0x3882; 0x28a3;
  0xcb7d; 0xdb5c; 0xeb3f; 0xfb1e; 0x8bf9; 0x9bd8; 0xabbb; 0xbb9a;
  0x4a75; 0x5a54; 0x6a37; 0x7a16; 0x0af1; 0x1ad0; 0x2ab3; 0x3a92;
  0xfd2e; 0xed0f; 0xdd6c; 0xcd4d; 0xbdaa; 0xad8b; 0x9de8; 0x8dc9;
  0x7c26; 0x6c07; 0x5c64; 0x4c45; 0x3ca2; 0x2c83; 0x1ce0; 0x0cc1;
  0xef1f; 0xff3e; 0xcf5d; 0xdf7c; 0xaf9b; 0xbfba; 0x8fd9; 0x9ff8;
  0x6e17; 0x7e36; 0x4e55; 0x5e74; 0x2e93; 0x3eb2; 0x0ed1; 0x1ef0].

(** One turn of the loop of [crc16]. *)
Definition crc16_step (crc c : Z) : Z :=
  wrapu 16 (Z.lxor (Z.shiftl crc 8) (crc16tab !!! Z.to_nat (Z.land (Z.lxor (Z.shiftr crc 8) c) 0xff))).

Definition crc16 (buf : list Z) : Z := fold_left crc16_step buf 0.

Definition LBRACE : Z := 123.
Definition RBRACE : Z := 125.

(** The index of the first [ch] of [l], or its length, counted from [i]. *)
Fixpoint scan_for (ch : Z) (l : list Z) (i : nat) : nat :=
  match l with
  | [] => i
  | x :: l => if x =? ch then i else scan_for ch l (S i)
  end.

Definition keyHashSlot (key : list Z) : Z :=
  let keylen := length key in
  let s := scan_for LBRACE key 0 in
  if (s =? keylen)%nat then Z.land (crc16 key) 0x3fff
  else
    let e := scan_for RBRACE (drop (s + 1) key) (s + 1) in
    if (e =? keylen)%nat || (e =? s + 1)%nat then Z.land (crc16 key) 0x3fff
    else Z.land (crc16 (take (e - s - 1) (drop (s + 1) key))) 0x3fff.

(** The loop of [patternHashSlot]; [i] is the index of the head of [rest] and
    [s] the source's variable: -1 before, -2 after an empty tag, else the
    index of the opening brace. *)
Fixpoint pattern_loop (pattern rest : list Z) (i s : Z) : Z :=
  match rest with
  | [] => Z.land (crc16 pattern) 0x3fff
  | x :: rest =>
      if (x =? STAR) || (x =? QUESTION) || (x =? LBRACKET) then -1
      else if x =? BACKSLASH then -1
      else if (s =? -1) && (x =? LBRACE) then pattern_loop pattern rest (i + 1) i
      else if (0 <=? s) && (x =? RBRACE) && (i =? s + 1) then pattern_loop pattern rest (i + 1) (-2)
      else if (0 <=? s) && (x =? RBRACE) then
        Z.land (crc16 (take (Z.to_nat (i - s - 1)) (drop (Z.to_nat (s + 1)) pattern))) 0x3fff
      else pattern_loop pattern rest (i + 1) s
  end.

Definition patternHashSlot (pattern : list Z) : Z := pattern_loop pattern pattern 0 (-1).

(** ** CRC-16 *)

(** The reference: CRC-16/XMODEM, bit by bit. *)
Definition crc16_bit (x : Z) : Z :=
  Z.lxor (wrapu 16 (Z.shiftl x 1)) (if Z.testbit x 15 then 0x1021 else 0).

Definition crc16_ref_step (crc c : Z) : Z :=
  Nat.iter 8 crc16_bit (Z.lxor crc (Z.shiftl (wrapu 8 c) 8)).

Definition crc16_ref (buf : list Z) : Z := fold_left crc16_ref_step buf 0.

Lemma wrapu_lxor w x y : 0 <= w -> wrapu w (Z.lxor x y) = Z.lxor (wrapu w x) (wrapu w y).
Proof.
  intros Hw. apply Z.bits_inj'. intros i Hi. rewrite Z.lxor_spec, !wrapu_testbit, Z.lxor_spec by lia.
  destruct (i <? w); [done|]. by rewrite !andb_false_l.
Qed.

Lemma crc16_bit_lxor x y : crc16_bit (Z.lxor x y) = Z.lxor (crc16_bit x) (crc16_bit y).
Proof.
  unfold crc16_bit. rewrite Z.lxor_spec, Z.shiftl_lxor, wrapu_lxor by lia.
  destruct (Z.testbit x 15), (Z.testbit y 15); cbn [xorb]; rewrite ?Z.lxor_0_r;
    apply Z.bits_inj'; intros i Hi; rewrite !Z.lxor_spec;
    by destruct (Z.testbit (wrapu 16 (Z.shiftl x 1)) i), (Z.testbit (wrapu 16 (Z.shiftl y 1)) i), (Z.testbit 4129 i).
Qed.

Lemma crc16_bits_lxor n x y : Nat.iter n crc16_bit (Z.lxor x y) = Z.lxor (Nat.iter n crc16_bit x) (Nat.iter n crc16_bit y).
Proof. induction n as [|n IH]; [done|]. by rewrite !Nat.iter_succ, IH, crc16_bit_lxor. Qed.

Lemma byte_cases (P : Z -> Prop) : Forall P (Z.of_nat <$> seq 0 256) -> forall x, is_byte x -> P x.
Proof.
  rewrite Forall_forall. intros H x Hx. apply H. apply list_elem_of_fmap. unfold is_byte in Hx.
  exists (Z.to_nat x). rewrite elem_of_seq. lia.
Qed.

Ltac each_byte := apply byte_cases; apply (bool_decide_unpack _); by vm_compute.

Lemma crc16tab_spec : forall n, is_byte n -> crc16tab !!! Z.to_nat n = Nat.iter 8 crc16_bit (Z.shiftl n 8).
Proof. each_byte. Qed.

Lemma crc16_low_byte : forall n, is_byte n -> Nat.iter 8 crc16_bit n = Z.shiftl n 8.
Proof. each_byte. Qed.

Lemma land_ff_is_byte x : is_byte (Z.land x 0xff).
Proof. change 0xff with (Z.ones 8). rewrite Z.land_ones by lia. by apply Z.mod_pos_bound. Qed.

(** The high byte goes through the table, the low byte moves up. *)
Lemma crc16_split crc c :
  fits_u 16 crc ->
  Z.lxor crc (Z.shiftl (wrapu 8 c) 8) =
    Z.lxor (Z.shiftl (Z.land (Z.lxor (Z.shiftr crc 8) c) 0xff) 8) (Z.land crc 0xff).
Proof.
  intros Hc. apply Z.bits_inj'. intros i Hi. change 0xff with (Z.ones 8).
  rewrite !Z.lxor_spec, !Z.shiftl_spec, !Z.land_spec by lia. destruct (Z.ltb_spec i 8).
  - rewrite !(Z.testbit_neg_r _ (i - 8)), Z.testbit_ones_nonneg by lia.
    destruct (Z.ltb_spec i 8); [|lia]. by rewrite xorb_false_r, xorb_false_l, andb_true_r.
  - rewrite wrapu_testbit, !Z.testbit_ones_nonneg, Z.lxor_spec, Z.shiftr_spec by lia.
    replace (i - 8 + 8) with i by lia. destruct (Z.ltb_spec i 8); [lia|]. rewrite andb_false_r, xorb_false_r.
    destruct (Z.ltb_spec (i - 8) 8); [by rewrite andb_true_l, andb_true_r|].
    rewrite andb_false_l, andb_false_r, xorb_false_r. apply (testbit_high 16); [done|lia].
Qed.

Lemma crc16_step_spec crc c :
  fits_u 16 crc -> crc16_step crc c = crc16_ref_step crc c.
Proof.
  intros Hc. unfold crc16_ref_step. rewrite crc16_split, crc16_bits_lxor by done.
  rewrite (crc16_low_byte (Z.land crc 255)), <- crc16tab_spec by apply land_ff_is_byte.
  unfold crc16_step. rewrite wrapu_lxor, Z.lxor_comm by lia.
  f_equal.
  - rewrite crc16tab_spec by apply land_ff_is_byte. revert c. intros c.
    generalize (land_ff_is_byte (Z.lxor (Z.shiftr crc 8) c)). generalize (Z.land (Z.lxor (Z.shiftr crc 8) c) 0xff).
    each_byte.
  - apply Z.bits_inj'. intros i Hi. rewrite wrapu_testbit, !Z.shiftl_spec by lia. destruct (Z.ltb_spec i 16).
    + rewrite andb_true_l. destruct (Z.ltb_spec i 8); [by rewrite !Z.testbit_neg_r by lia|].
      change 255 with (Z.ones 8). rewrite Z.land_spec, Z.testbit_ones_nonneg by lia.
      destruct (Z.ltb_spec (i - 8) 8); [by rewrite andb_true_r|lia].
    + rewrite andb_false_l. symmetry. apply (testbit_high 8); [apply land_ff_is_byte|lia].
Qed.

Lemma crc16_step_fits crc c : fits_u 16 (crc16_step crc c).
Proof. by apply wrapu_bound. Qed.

#[global] Opaque crc16_step crc16_ref_step.

Lemma fold_left_cons {A B} (f : A -> B -> A) x l a : fold_left f (x :: l) a = fold_left f l (f a x).
Proof. done. Qed.

Lemma crc16_fold buf crc :
  fits_u 16 crc -> fold_left crc16_step buf crc = fold_left crc16_ref_step buf crc.
Proof.
  revert crc. induction buf as [|c buf IH]; intros crc Hc; [done|]. rewrite !fold_left_cons.
  rewrite IH by apply crc16_step_fits. by rewrite crc16_step_spec.
Qed.

Lemma crc16_spec buf : crc16 buf = crc16_ref buf.
Proof. apply crc16_fold. by split. Qed.

#[global] Opaque crc16 crc16_ref.

(** ** Keys *)

Lemma scan_for_found ch a b i : ch ∉ a -> scan_for ch (a ++ ch :: b) i = (i + length a)%nat.
Proof.
  revert i. induction a as [|x a IH]; intros i Hin; cbn [app scan_for length].
  - by rewrite Z.eqb_refl, Nat.add_0_r.
  - destruct (Z.eqb_spec x ch) as [->|]; [set_solver|]. rewrite IH by set_solver. lia.
Qed.

Lemma scan_for_none ch l i : ch ∉ l -> scan_for ch l i = (i + length l)%nat.
Proof.
  revert i. induction l as [|x l IH]; intros i Hin; cbn [scan_for length]; [lia|].
  destruct (Z.eqb_spec x ch) as [->|]; [set_solver|]. rewrite IH by set_solver. lia.
Qed.

Definition slot_of (part : list Z) : Z := Z.land (crc16 part) 0x3fff.

Lemma drop_tag (a r : list Z) x : drop (length a + 1) (a ++ x :: r) = r.
Proof. rewrite <- drop_drop, drop_app_length. done. Qed.

Lemma keyHashSlot_no_brace key : LBRACE ∉ key -> keyHashSlot key = slot_of key.
Proof. intros H. unfold keyHashSlot. rewrite scan_for_none by done. by rewrite Nat.add_0_l, Nat.eqb_refl. Qed.

Lemma keyHashSlot_brace a r :
  LBRACE ∉ a ->
  keyHashSlot (a ++ LBRACE :: r) =
    let e := scan_for RBRACE r (length a + 1) in
    if (e =? length (a ++ LBRACE :: r))%nat || (e =? length a + 1)%nat then slot_of (a ++ LBRACE :: r)
    else slot_of (take (e - length a - 1) r).
Proof.
  intros H. unfold keyHashSlot. rewrite scan_for_found by done. rewrite Nat.add_0_l, drop_tag.
  destruct (Nat.eqb_spec (length a) (length (a ++ LBRACE :: r))) as [E|E]; [|done].
  rewrite length_app in E. cbn in E. lia.
Qed.

Lemma keyHashSlot_open a r : LBRACE ∉ a -> RBRACE ∉ r -> keyHashSlot (a ++ LBRACE :: r) = slot_of (a ++ LBRACE :: r).
Proof.
  intros Ha Hr. rewrite keyHashSlot_brace by done. cbv zeta. rewrite scan_for_none by done.
  rewrite length_app. cbn [length].
  destruct (Nat.eqb_spec (length a + 1 + length r) (length a + S (length r))); [done|lia].
Qed.

Lemma keyHashSlot_empty_tag a r :
  LBRACE ∉ a -> keyHashSlot (a ++ LBRACE :: RBRACE :: r) = slot_of (a ++ LBRACE :: RBRACE :: r).
Proof.
  intros Ha. rewrite keyHashSlot_brace by done. cbn [scan_for]. by rewrite Z.eqb_refl, Nat.eqb_refl, orb_true_r.
Qed.

Lemma keyHashSlot_tag a t b :
  LBRACE ∉ a -> RBRACE ∉ t -> t <> [] -> keyHashSlot (a ++ LBRACE :: t ++ RBRACE :: b) = slot_of t.
Proof.
  intros Ha Ht Hne. rewrite keyHashSlot_brace by done. cbv zeta. rewrite scan_for_found by done.
  assert (length t <> 0)%nat by by destruct t. rewrite !length_app. cbn [length]. rewrite length_app. cbn [length].
  destruct (Nat.eqb_spec (length a + 1 + length t) (length a + S (length t + S (length b)))); [lia|].
  destruct (Nat.eqb_spec (length a + 1 + length t) (length a + 1)); [lia|]. cbn [orb].
  replace (length a + 1 + length t - length a - 1)%nat with (length t) by lia. by rewrite take_app_length.
Qed.

(** The text between the first opening brace and the first closing brace after
    it, when there is any. *)
Definition has_tag (key t : list Z) : Prop :=
  exists a b, key = a ++ (LBRACE :: t ++ (RBRACE :: b)) /\ (LBRACE ∉ a) /\ (RBRACE ∉ t) /\ t <> [].

(** The slot of a key is the CRC-16/XMODEM, modulo 16384, of its hash tag
    when it has a non-empty one, and of the whole key when it has none. *)
Theorem keyHashSlot_correct key part :
  has_tag key part \/ ((forall t, ~ has_tag key t) /\ part = key) ->
  keyHashSlot key = crc16_ref part mod 16384.
Proof.
  intros H. replace (crc16_ref part mod 16384) with (slot_of part); cycle 1.
  { unfold slot_of. change 0x3fff with (Z.ones 14). by rewrite Z.land_ones, crc16_spec by lia. }
  destruct H as [(a & b & -> & ? & ? & ?)|[Hno ->]]; [by apply keyHashSlot_tag|].
  destruct (decide (LBRACE ∈ key)) as [Hin|]; [|by apply keyHashSlot_no_brace].
  apply list_elem_of_split_l in Hin as (a & r & -> & Ha).
  destruct (decide (RBRACE ∈ r)) as [Hin|]; [|by apply keyHashSlot_open].
  apply list_elem_of_split_l in Hin as (t & b & -> & Ht). destruct t as [|x t]; [by apply keyHashSlot_empty_tag|].
  destruct (Hno (x :: t)). by exists a, b.
Qed.

(** The key foo{bar}{zap} has the tag bar. *)
Lemma keyHashSlot_correct_witness :
  keyHashSlot [102; 111; 111; 123; 98; 97; 114; 125; 123; 122; 97; 112; 125] = crc16_ref [98; 97; 114] mod 16384.
Proof.
  apply keyHashSlot_correct. left. exists [102; 111; 111], [123; 122; 97; 112; 125].
  split; [done|]. split; [|split; [|done]]; apply (bool_decide_unpack _); by vm_compute.
Defined.

(** ** Patterns *)

Definition special (x : Z) : bool := (x =? STAR) || (x =? QUESTION) || (x =? LBRACKET) || (x =? BACKSLASH).

Definition plain (l : list Z) : Prop := Forall (fun x => special x = false) l.

Lemma impl_plain lits rest n s skip nesting :
  plain lits -> (length (lits ++ rest) <= n)%nat ->
  (stringmatchlen_impl false n (lits ++ rest) s skip nesting).1 = true ->
  exists s2, s = lits ++ s2 /\ (rest = [] -> s2 = []).
Proof.
  intros Hpl. revert n s. induction Hpl as [|x lits Hx Hpl IH]; intros n s Hn Hm; cbn [app length] in *.
  - exists s. split; [done|]. intros ->. destruct n, s; try done; cbn in Hm; by destruct (1000 <? nesting).
  - destruct n as [|n]; [lia|]. destruct s as [|c s1].
    { cbn in Hm. by destruct (1000 <? nesting). }
    destruct (Z.ltb_spec 1000 nesting) as [Hnest|Hnest].
    { cbn [stringmatchlen_impl] in Hm. destruct (Z.ltb_spec 1000 nesting); [done|lia]. }
    unfold special in Hx. repeat setoid_rewrite orb_false_iff in Hx. destruct Hx as [[[Hs Hq] Hb] Hbs].
    rewrite impl_one in Hm by done. unfold first_token in Hm. rewrite Hq, Hb in Hm.
    assert ((match lits ++ rest with
             | y :: p2 => if x =? BACKSLASH then (char_eq false y, p2) else (char_eq false x, lits ++ rest)
             | [] => (char_eq false x, lits ++ rest) end) = (char_eq false x, lits ++ rest)) as Hft
      by (destruct (lits ++ rest); [done|by rewrite Hbs]).
    rewrite Hft in Hm. unfold char_eq in Hm. destruct (Z.eqb_spec x c) as [->|]; [|done].
    destruct s1 as [|c1 s1].
    + cbn [fst] in Hm. apply bool_decide_eq_true in Hm. exists []. split; [|done].
      destruct Hpl as [|y lits Hy Hpl]; [done|]. cbn [app strip_stars] in Hm. unfold special in Hy.
      destruct (y =? STAR); done.
    + destruct (IH n (c1 :: s1) ltac:(lia) Hm) as (s2 & -> & Hnil). exists s2. by split.
Qed.

Lemma stringmatchlen_plain lits rest s :
  plain lits -> stringmatchlen false (lits ++ rest) s = true -> exists s2, s = lits ++ s2 /\ (rest = [] -> s2 = []).
Proof. intros Hpl Hm. by eapply impl_plain in Hm. Qed.

(** What the loop knows of the part of the pattern it has read. *)
Definition pattern_state (pre : list Z) (s : Z) : Prop :=
  (s = -1 /\ LBRACE ∉ pre) \/
  (exists a t, pre = a ++ (LBRACE :: t) /\ s = Z.of_nat (length a) /\ (LBRACE ∉ a) /\ (RBRACE ∉ t)) \/
  (s = -2 /\ exists a b, pre = a ++ LBRACE :: RBRACE :: b /\ LBRACE ∉ a).

Lemma pattern_state_whole pre s : pattern_state pre s -> keyHashSlot pre = slot_of pre.
Proof.
  intros [[_ ?]|[(a & t & -> & _ & ? & ?)|[_ (a & b & -> & ?)]]].
  - by apply keyHashSlot_no_brace.
  - by apply keyHashSlot_open.
  - by apply keyHashSlot_empty_tag.
Qed.

Lemma pattern_loop_spec rest pre s slot key :
  plain pre -> pattern_state pre s ->
  pattern_loop (pre ++ rest) rest (Z.of_nat (length pre)) s = slot -> slot <> -1 ->
  stringmatchlen false (pre ++ rest) key = true -> keyHashSlot key = slot.
Proof.
  revert pre s. induction rest as [|x rest IH]; intros pre s Hpl Hst Hloop Hslot Hm; cbn [pattern_loop] in Hloop.
  { destruct (stringmatchlen_plain _ _ _ Hpl Hm) as (s2 & -> & Hnil). rewrite Hnil by done.
    rewrite app_nil_r in *. subst slot. by eapply pattern_state_whole. }
  destruct ((x =? STAR) || (x =? QUESTION) || (x =? LBRACKET)) eqn:Hsp1; [done|].
  destruct (x =? BACKSLASH) eqn:Hsp2; [done|].
  assert (plain (pre ++ [x])) as Hpl'.
  { apply Forall_app. split; [done|]. constructor; [|constructor]. unfold special. by rewrite Hsp1, Hsp2. }
  rewrite cons_middle, app_assoc in Hm, Hloop.
  replace (Z.of_nat (length pre) + 1) with (Z.of_nat (length (pre ++ [x]))) in Hloop by (rewrite length_app; cbn; lia).
  assert (forall s', pattern_state (pre ++ [x]) s' ->
    pattern_loop ((pre ++ [x]) ++ rest) rest (Z.of_nat (length (pre ++ [x]))) s' = slot -> keyHashSlot key = slot) as Hgo
    by (intros; by eapply IH).
  destruct Hst as [[-> Hno]|[(a & t & -> & -> & Ha & Ht)|[-> (a & b & -> & Ha)]]].
  - rewrite Z.eqb_refl in Hloop. change (0 <=? -1) with false in Hloop. cbn [andb] in Hloop.
    destruct (Z.eqb_spec x LBRACE) as [->|Hx]; eapply Hgo; try exact Hloop.
    + right. left. exists pre, []. split; [done|]. split; [done|]. split; [done|set_solver].
    + left. split; [done|]. set_solver.
  - destruct (Z.eqb_spec (Z.of_nat (length a)) (-1)); [lia|]. destruct (Z.leb_spec 0 (Z.of_nat (length a))); [|lia].
    cbn [andb] in Hloop. destruct (Z.eqb_spec x RBRACE) as [->|Hx]; cbn [andb] in Hloop; cycle 1.
    { eapply Hgo; [|exact Hloop]. right. left. exists a, (t ++ [x]). rewrite <- app_assoc.
      split; [done|]. split; [done|]. split; [done|set_solver]. }
    rewrite length_app in Hloop. cbn [length] in Hloop.
    destruct (Z.eqb_spec (Z.of_nat (length a + S (length t))) (Z.of_nat (length a) + 1)) as [He|He].
    + assert (t = []) as -> by (destruct t; [done|cbn in He; lia]).
      eapply Hgo; [|exact Hloop]. right. right. split; [done|]. exists a, [].
      by rewrite <- app_assoc.
    + assert (t <> []) as Hne by (intros ->; cbn in He; lia).
      destruct (stringmatchlen_plain _ _ _ Hpl' Hm) as (s2 & -> & _).
      rewrite <- !app_assoc. cbn [app]. rewrite <- ?app_assoc. rewrite keyHashSlot_tag by done. subst slot. unfold slot_of.
      do 2 f_equal. rewrite <- !app_assoc. cbn [app].
      replace (Z.to_nat (Z.of_nat (length a) + 1)) with (length a + 1)%nat by lia. rewrite drop_tag.
      replace (Z.to_nat _) with (length t) by lia. rewrite <- ?app_assoc. by rewrite take_app_length.
  - change (-2 =? -1) with false in Hloop. change (0 <=? -2) with false in Hloop. cbn [andb] in Hloop.
    eapply Hgo; [|exact Hloop]. right. right. split; [done|]. exists a, (b ++ [x]). by rewrite <- app_assoc.
Qed.

(** C23: when a pattern is given a slot, every key it matches is in that
    slot, so SCAN and KEYS may search that slot alone. *)
Theorem patternHashSlot_correct pattern key slot :
  patternHashSlot pattern = slot -> slot <> -1 -> stringmatchlen false pattern key = true ->
  keyHashSlot key = slot.
Proof.
  intros Hp Hslot Hm. apply (pattern_loop_spec pattern [] (-1) slot key); [constructor| |done..].
  left. split; [done|set_solver].
Qed.

(** The pattern x{ab}* and the key x{ab}cd. *)
Lemma patternHashSlot_correct_witness : let slot := patternHashSlot [120; LBRACE; 97; 98; RBRACE; STAR] in
  slot <> -1 /\ keyHashSlot [120; LBRACE; 97; 98; RBRACE; 99; 100] = slot.
Proof.
  split; [by vm_compute|].
  apply (patternHashSlot_correct [120; LBRACE; 97; 98; RBRACE; STAR]); [done|by vm_compute|by vm_compute].
Defined.
