(* ===== verification/Numconv.v ===== *)
(** * Numbers and strings (src/util.c)

    Decimal output and strict decimal input of 64-bit integers, the sizes of
    their representations, and the parsers built on them.  Strings are lists
    of [char] values; an output buffer is the list of its bytes. *)
From S2P Require Import Prelude.
From Stdlib Require Import ZArith Lia.
From stdpp Require Import prelude list.

#[local] Open Scope Z_scope.

Definition ULLONG_MAX : Z := 2 ^ 64 - 1.
Definition LLONG_MAX : Z := 2 ^ 63 - 1.
Definition LLONG_MIN : Z := - 2 ^ 63.
Definition LONG_STR_SIZE : Z := 21.

(** ** Output *)

(** [fuel] bounds the recursion on [v / 10 ^ 12]; two levels reach 24 digits. *)
Fixpoint digits10_rec (fuel : nat) (v : Z) : Z :=
  if v <? 10 then 1
  else if v <? 100 then 2
  else if v <? 1000 then 3
  else if v <? 1000000000000 then
    if v <? 100000000 then
      if v <? 1000000 then
        if v <? 10000 then 4 else 5 + Z.b2z (100000 <=? v)
      else 7 + Z.b2z (10000000 <=? v)
    else if v <? 10000000000 then 9 + Z.b2z (1000000000 <=? v)
    else 11 + Z.b2z (100000000000 <=? v)
  else match fuel with
       | O => 0
       | S fuel => 12 + digits10_rec fuel (v / 1000000000000)
       end.

Definition digits10 (v : Z) : Z := digits10_rec 1 v.

(** The absolute value of a [long long], as an unsigned number. *)
Definition abs_ll (v : Z) : Z := if negb (v =? LLONG_MIN) then wrapu 64 (- v) else wrapu 64 (LLONG_MAX + 1).

Definition sdigits10 (v : Z) : Z := if v <? 0 then digits10 (abs_ll v) + 1 else digits10 v.

Definition digits : list Z := [
  48; 48; 48; 49; 48; 50; 48; 51; 48; 52; 48; 53; 48; 54; 48; 55; 48; 56; 48; 57;
  49; 48; 49; 49; 49; 50; 49; 51; 49; 52; 49; 53; 49; 54; 49; 55; 49; 56; 49; 57;
  50; 48; 50; 49; 50; 50; 50; 51; 50; 52; 50; 53; 50; 54; 50; 55; 50; 56; 50; 57;
  51; 48; 51; 49; 51; 50; 51; 51; 51; 52; 51; 53; 51; 54; 51; 55; 51; 56; 51; 57;
  52; 48; 52; 49; 52; 50; 52; 51; 52; 52; 52; 53; 52; 54; 52; 55; 52; 56; 52; 57;
  53; 48; 53; 49; 53; 50; 53; 51; 53; 52; 53; 53; 53; 54; 53; 55; 53; 56; 53; 57;
  54; 48; 54; 49; 54; 50; 54; 51; 54; 52; 54; 53; 54; 54; 54; 55; 54; 56; 54; 57;
  55; 48; 55; 49; 55; 50; 55; 51; 55; 52; 55; 53; 55; 54; 55; 55; 55; 56; 55; 57;
  56; 48; 56; 49; 56; 50; 56; 51; 56; 52; 56; 53; 56; 54; 56; 55; 56; 56; 56; 57;
  57; 48; 57; 49; 57; 50; 57; 51; 57; 52; 57; 53; 57; 54; 57; 55; 57; 56; 57; 57].

(** The loop that writes two digits at a time, from position [next] down. *)
Fixpoint ull2string_loop (fuel : nat) (dst : list Z) (value next : Z) : option (list Z * Z * Z) :=
  if value <? 100 then Some (dst, value, next)
  else
    match fuel with
    | O => None
    | S fuel =>
        let i := value mod 100 * 2 in
        let value := value / 100 in
        let dst := <[Z.to_nat next := digits !!! Z.to_nat (i + 1)]> dst in
        let dst := <[Z.to_nat (next - 1) := digits !!! Z.to_nat i]> dst in
        ull2string_loop fuel dst value (next - 2)
    end.

(** Both error exits terminate an empty string. *)
Definition err_string (dst : list Z) : Z * list Z := (0, <[0%nat := 0]> dst).

(** The result is the length written, or 0 when the buffer is too small, and
    the buffer.  Ten turns are enough for 64 bits ([ull2string_spec]). *)
Definition ull2string (dst : list Z) (value : Z) : Z * list Z :=
  let len := digits10 value in
  if Z.of_nat (length dst) <=? len then err_string dst
  else
    let next := len - 1 in
    let dst := <[Z.to_nat (next + 1) := 0]> dst in
    match ull2string_loop 10 dst value next with
    | None => (0, dst)
    | Some (dst, value, next) =>
        if value <? 10 then (len, <[Z.to_nat next := 48 + value]> dst)
        else
          let i := value * 2 in
          let dst := <[Z.to_nat next := digits !!! Z.to_nat (i + 1)]> dst in
          (len, <[Z.to_nat (next - 1) := digits !!! Z.to_nat i]> dst)
    end.

Definition ll2string (dst : list Z) (svalue : Z) : Z * list Z :=
  if svalue <? 0 then
    match dst with
    | c :: ((_ :: _) as dst1) =>
        let '(len, dst1) := ull2string dst1 (abs_ll svalue) in
        (if len =? 0 then 0 else len + 1, 45 :: dst1)
    | _ => err_string dst
    end
  else ull2string dst svalue.

(** ** Input *)

Definition is_digit (c : Z) : bool := (48 <=? c) && (c <=? 57).

(** The loop over the digits after the first: [None] on overflow, else the
    value and what is left. *)
Fixpoint string2ll_loop (p : list Z) (v : Z) : option (Z * list Z) :=
  match p with
  | [] => Some (v, [])
  | c :: p1 =>
      if is_digit c then
        if ULLONG_MAX / 10 <? v then None
        else
          let v := wrapu 64 (v * 10) in
          if ULLONG_MAX - (c - 48) <? v then None else string2ll_loop p1 (wrapu 64 (v + (c - 48)))
      else Some (v, p)
  end.

(** The parsed value, or [None] for the result 0. *)
Definition string2ll (s : list Z) : option Z :=
  let slen := Z.of_nat (length s) in
  if (slen =? 0) || (LONG_STR_SIZE <=? slen) then None
  else
    match s with
    | [] => None
    | c0 :: _ =>
        if (slen =? 1) && (c0 =? 48) then Some 0
        else
          let negative := c0 =? 45 in
          match (if negative then tail s else s) with
          | [] => None
          | c :: p =>
              if (49 <=? c) && (c <=? 57) then
                match string2ll_loop p (c - 48) with
                | Some (v, []) =>
                    if negative then
                      if (- (LLONG_MIN + 1)) + 1 <? v then None else Some (wraps 64 (- v))
                    else if LLONG_MAX <? v then None else Some v
                | _ => None
                end
              else None
          end
    end.

Definition string2l (s : list Z) : option Z :=
  match string2ll s with
  | None => None
  | Some v => if (v <? LLONG_MIN) || (LLONG_MAX <? v) then None else Some v
  end.

(** [isspace] of the C locale. *)
Definition is_space (c : Z) : bool := ((9 <=? c) && (c <=? 13)) || (c =? 32).

Fixpoint skip_space (s : list Z) : list Z :=
  match s with
  | c :: s1 => if is_space c then skip_space s1 else s
  | [] => []
  end.

Fixpoint take_digits (s : list Z) (v : Z) : Z * list Z :=
  match s with
  | c :: s1 => if is_digit c then take_digits s1 (v * 10 + (c - 48)) else (v, s)
  | [] => (v, [])
  end.

(** [strtoull(s, &endptr, 10)]: the value, the text from [endptr] on, and
    whether [errno] is ERANGE. *)
Definition strtoull (s : list Z) : Z * list Z * bool :=
  let t := skip_space s in
  let '(negative, t) :=
    match t with c :: t1 => if c =? 45 then (true, t1) else if c =? 43 then (false, t1) else (false, t) | [] => (false, t) end in
  match t with
  | c :: _ =>
      if is_digit c then
        let '(v, rest) := take_digits t 0 in
        if ULLONG_MAX <? v then (ULLONG_MAX, rest, true)
        else (if negative then wrapu 64 (- v) else v, rest, false)
      else (0, s, false)
  | [] => (0, s, false)
  end.

(** The argument has no NUL; [strlen] is its length. *)
Definition string2ull (s : list Z) : option Z :=
  match string2ll s with
  | Some ll => if ll <? 0 then None else Some ll
  | None =>
      let '(value, rest, erange) := strtoull s in
      if erange || negb (bool_decide (s <> []) && bool_decide (rest = [])) then None else Some value
  end.

(** 0, 1 or 2 for decimal, lower-case and upper-case digits, else -1. *)
Definition base_16_char_type (c : Z) : Z :=
  if (48 <=? c) && (c <=? 57) then 0
  else if (97 <=? c) && (c <=? 102) then 1
  else if (65 <=? c) && (c <=? 70) then 2
  else -1.

Definition ascii_to_dec (char_type : Z) : Z :=
  if char_type =? 0 then 48 else if char_type =? 1 then 87 else 55.

(** [None] is the result -1. *)
Fixpoint base16_loop (src : list Z) (result : Z) : option Z :=
  match src with
  | [] => Some result
  | c :: src =>
      let char_type := base_16_char_type c in
      if char_type =? -1 then Some result
      else
        let curr_val := c - ascii_to_dec char_type in
        if (ULLONG_MAX / 16 <? result) || ((ULLONG_MAX - curr_val) / 16 <? result) then None
        else base16_loop src (wrapu 64 (result * 16 + curr_val))
  end.

(** [slen] characters of [src] at most. *)
Definition string2ul_base16_async_signal_safe (src : list Z) (slen : nat) : option Z :=
  base16_loop (take slen src) 0.

Definition lower_ascii (c : Z) : Z := if (65 <=? c) && (c <=? 90) then c + 32 else c.

Definition memtoull_unit (u : list Z) : option Z :=
  let u := lower_ascii <$> u in
  if bool_decide (u = []) || bool_decide (u = [98]) then Some 1
  else if bool_decide (u = [107]) then Some 1000
  else if bool_decide (u = [107; 98]) then Some 1024
  else if bool_decide (u = [109]) then Some (1000 * 1000)
  else if bool_decide (u = [109; 98]) then Some (1024 * 1024)
  else if bool_decide (u = [103]) then Some (1000 * 1000 * 1000)
  else if bool_decide (u = [103; 98]) then Some (1024 * 1024 * 1024)
  else None.

Fixpoint span_digits (p : list Z) : list Z * list Z :=
  match p with
  | c :: p1 => if is_digit c then let '(ds, u) := span_digits p1 in (c :: ds, u) else ([], p)
  | [] => ([], [])
  end.

(** [None] is [*err = 1]. *)
Definition memtoull (p : list Z) : option Z :=
  if bool_decide (head p = Some 45) then None
  else
    let '(ds, u) := span_digits p in
    match memtoull_unit u with
    | None => None
    | Some mul =>
        if 128 <=? Z.of_nat (length ds) then None
        else
          let '(val, rest, _) := strtoull ds in
          if bool_decide (rest <> []) then None else Some (wrapu 64 (val * mul))
    end.
