(* ===== verification/NumconvSpec.v ===== *)
(** * Numbers and strings: the conversions are exact

    The reference is the list of decimal digits by repeated division.  The
    fast printers write exactly it, and the strict parser accepts exactly it,
    so a number that parses prints back to the same text. *)
From S2P Require Import Prelude Numconv.
From Stdlib Require Import ZArith Lia.
From stdpp Require Import prelude list.

#[local] Open Scope Z_scope.

(** ** The reference *)

Fixpoint dec (fuel : nat) (v : Z) : list Z :=
  match fuel with
  | O => [48 + v]
  | S fuel => if v <? 10 then [48 + v] else dec fuel (v / 10) ++ [48 + v mod 10]
  end.

(** Enough for every 64-bit number. *)
Definition decimal (v : Z) : list Z := dec 20 v.

Definition decimal_signed (v : Z) : list Z := if v <? 0 then 45 :: decimal (- v) else decimal v.

Definition value_from (a : Z) (l : list Z) : Z := fold_left (fun a c => a * 10 + (c - 48)) l a.

Definition digit (c : Z) : Prop := 48 <= c <= 57.

Lemma is_digit_spec c : is_digit c = true <-> digit c.
Proof. unfold is_digit, digit. rewrite andb_true_iff, !Z.leb_le. lia. Qed.

Lemma dec_fuel n m v : 0 <= v < 10 ^ Z.of_nat n -> v < 10 ^ Z.of_nat m -> dec n v = dec m v.
Proof.
  revert m v. induction n as [|n IH]; intros m v Hn Hm.
  - destruct m; cbn [dec]; [done|]. destruct (Z.ltb_spec v 10); [done|]. cbn in Hn. lia.
  - cbn [dec]. destruct (Z.ltb_spec v 10) as [Hv|Hv].
    + destruct m; cbn [dec]; [done|]. by destruct (Z.ltb_spec v 10); [|lia].
    + destruct m as [|m]; [cbn in Hm; lia|]. cbn [dec]. destruct (Z.ltb_spec v 10); [lia|]. f_equal.
      rewrite Nat2Z.inj_succ, Z.pow_succ_r in Hn, Hm by lia.
      apply IH; [split; [apply Z.div_pos; lia|]|]; apply Z.div_lt_upper_bound; lia.
Qed.

Lemma decimal_small v : v < 10 -> decimal v = [48 + v].
Proof. intros H. unfold decimal. cbn [dec]. by destruct (Z.ltb_spec v 10); [|lia]. Qed.

Lemma decimal_step v : 10 <= v < 10 ^ 20 -> decimal v = decimal (v / 10) ++ [48 + v mod 10].
Proof.
  intros H. unfold decimal. change (dec 20 v) with (if v <? 10 then [48 + v] else dec 19 (v / 10) ++ [48 + v mod 10]).
  destruct (Z.ltb_spec v 10); [lia|].
  assert (0 <= v / 10 < 10 ^ 19) by (split; [apply Z.div_pos; lia|apply Z.div_lt_upper_bound; lia]).
  rewrite (dec_fuel 19 20 (v / 10)); [reflexivity|exact H1|].
  eapply Z.lt_trans; [apply H1|]. reflexivity.
Qed.

#[global] Opaque decimal.

Lemma u64_pow10 v : fits_u 64 v -> 0 <= v < 10 ^ 20.
Proof. unfold fits_u. lia. Qed.

(** Induction on the digits. *)
Lemma decimal_ind (P : Z -> Prop) :
  (forall v, 0 <= v < 10 -> P v) -> (forall v, 10 <= v < 10 ^ 20 -> P (v / 10) -> P v) ->
  forall v, 0 <= v < 10 ^ 20 -> P v.
Proof.
  intros H0 HS v. induction (Z.lt_wf 0 v) as [v _ IH]. intros Hv.
  destruct (Z.lt_ge_cases v 10); [apply H0; lia|]. apply HS; [lia|].
  pose proof (Z.div_pos v 10 ltac:(lia) ltac:(lia)). pose proof (Z.div_lt v 10 ltac:(lia) ltac:(lia)).
  apply IH; lia.
Qed.

Lemma decimal_digits v : 0 <= v < 10 ^ 20 -> Forall digit (decimal v).
Proof.
  revert v. apply decimal_ind; intros v Hv.
  - rewrite decimal_small by lia. repeat constructor; lia.
  - intros IH. rewrite decimal_step by lia. apply Forall_app. split; [done|].
    pose proof (Z.mod_pos_bound v 10). repeat constructor; lia.
Qed.

Lemma value_from_app a l1 l2 : value_from a (l1 ++ l2) = value_from (value_from a l1) l2.
Proof. apply fold_left_app. Qed.

Lemma decimal_value v : 0 <= v < 10 ^ 20 -> value_from 0 (decimal v) = v.
Proof.
  revert v. apply decimal_ind; intros v Hv.
  - rewrite decimal_small by lia. cbn. lia.
  - intros IH. rewrite decimal_step, value_from_app, IH by lia. cbn.
    pose proof (Z.div_mod v 10). lia.
Qed.

Lemma decimal_not_nil v : 0 <= v < 10 ^ 20 -> decimal v <> [].
Proof.
  destruct (Z.lt_ge_cases v 10); intros Hv; [by rewrite decimal_small|].
  rewrite decimal_step by lia. by destruct (decimal (v / 10)).
Qed.

Lemma decimal_length_bounds v :
  0 <= v < 10 ^ 20 ->
  v < 10 ^ Z.of_nat (length (decimal v)) /\ (10 <= v -> 10 ^ (Z.of_nat (length (decimal v)) - 1) <= v).
Proof.
  revert v. apply decimal_ind; intros v Hv.
  - rewrite decimal_small by lia. cbn. lia.
  - intros [IH1 IH2]. rewrite decimal_step by lia. rewrite length_app, Nat2Z.inj_add.
    pose proof (decimal_not_nil (v / 10)). set (k := Z.of_nat (length (decimal (v / 10)))) in *.
    assert (1 <= k).
    { assert (decimal (v / 10) <> []) by (apply decimal_not_nil; split; [apply Z.div_pos; lia|apply Z.div_lt_upper_bound; lia]).
      unfold k. destruct (decimal (v / 10)); [done|cbn; lia]. }
    cbn [length]. change (Z.of_nat 1) with 1. pose proof (Z.div_mod v 10 ltac:(lia)). pose proof (Z.mod_pos_bound v 10 ltac:(lia)).
    rewrite Z.pow_add_r by lia. split; [lia|]. intros _. replace (k + 1 - 1) with (k - 1 + 1) by lia.
    rewrite Z.pow_add_r by lia. change (10 ^ 1) with 10.
    destruct (Z.lt_ge_cases (v / 10) 10) as [Hs|Hs]; [|specialize (IH2 Hs); lia].
    replace (k - 1) with 0; [cbn; lia|]. unfold k. rewrite decimal_small by lia. done.
Qed.

Lemma value_from_snoc a l d : value_from a (l ++ [d]) = value_from a l * 10 + (d - 48).
Proof. by rewrite value_from_app. Qed.

Lemma value_from_ge l a : Forall digit l -> 0 <= a -> a <= value_from a l.
Proof.
  intros Hl. revert a. induction Hl as [|x l Hx Hl IH]; intros a Ha; [done|]. unfold digit in Hx.
  change (value_from a (x :: l)) with (value_from (a * 10 + (x - 48)) l).
  specialize (IH (a * 10 + (x - 48))). lia.
Qed.

Lemma value_from_cons c l : value_from 0 (c :: l) = value_from (c - 48) l.
Proof. done. Qed.

(** Texts without leading zeros are what the reference writes. *)
Lemma decimal_value_from c l :
  Forall digit (c :: l) -> 49 <= c -> value_from 0 (c :: l) < 10 ^ 20 -> decimal (value_from 0 (c :: l)) = c :: l.
Proof.
  induction l as [|d l IH] using rev_ind; intros Hd Hc Hv.
  - apply Forall_cons in Hd as [Hd _]. cbn in *. unfold digit in Hd. rewrite decimal_small by lia. f_equal. lia.
  - rewrite app_comm_cons in *. apply Forall_app in Hd as [Hd1 Hd2].
    assert (digit d) as Hd by by apply Forall_singleton.
    rewrite value_from_snoc in *. pose proof Hd1 as [_ Hd3]%Forall_cons.
    assert (1 <= value_from 0 (c :: l)) as H1
      by (rewrite value_from_cons; pose proof (value_from_ge l (c - 48) Hd3); lia).
    unfold digit in Hd. specialize (IH Hd1 Hc). revert IH H1 Hv. generalize (value_from 0 (c :: l)). intros w IH H1 Hv.
    rewrite decimal_step by lia. assert ((w * 10 + (d - 48)) / 10 = w) as -> by (symmetry; apply (Z.div_unique _ _ _ (d - 48)); lia).
    assert ((w * 10 + (d - 48)) mod 10 = d - 48) as -> by (symmetry; apply (Z.mod_unique _ _ w); lia).
    rewrite IH by lia. by replace (48 + (d - 48)) with d by lia.
Qed.

(** ** Output *)

Lemma digits10_bounds v :
  0 <= v < 10 ^ 24 -> v < 10 ^ digits10 v /\ (10 <= v -> 10 ^ (digits10 v - 1) <= v) /\ 1 <= digits10 v.
Proof.
  intros Hv. unfold digits10.
  assert (forall fuel v, 0 <= v < 10 ^ 12 -> let d := digits10_rec fuel v in
    v < 10 ^ d /\ (10 <= v -> 10 ^ (d - 1) <= v) /\ 1 <= d) as Hsmall.
  { clear. intros fuel v Hv. destruct fuel; cbn [digits10_rec];
      repeat match goal with |- context [if ?a <? ?b then _ else _] => destruct (Z.ltb_spec a b) end; try lia;
      try match goal with |- context [?a <=? ?b] => destruct (Z.leb_spec a b) end; cbn; lia. }
  destruct (Z.lt_ge_cases v (10 ^ 12)) as [Hlt|Hge]; [apply Hsmall; lia|].
  assert (digits10_rec 1 v = 12 + digits10_rec 0 (v / 10 ^ 12)) as ->.
  { cbn [digits10_rec]. repeat match goal with |- context [if ?a <? ?b then _ else _] => destruct (Z.ltb_spec a b); [lia|] end.
    done. }
  destruct (Hsmall 0%nat (v / 10 ^ 12)) as (H1 & H2 & H3).
  { split; [apply Z.div_pos; lia|apply Z.div_lt_upper_bound; lia]. }
  pose proof (Z.div_mod v (10 ^ 12) ltac:(lia)). pose proof (Z.mod_pos_bound v (10 ^ 12) ltac:(lia)).
  assert (1 <= v / 10 ^ 12) by (apply Z.div_le_lower_bound; lia).
  set (w := v / 10 ^ 12) in *. set (d := digits10_rec 0 w) in *.
  rewrite Z.pow_add_r by lia. split; [lia|]. split; [|lia]. intros _.
  replace (12 + d - 1) with (12 + (d - 1)) by lia. rewrite Z.pow_add_r by lia.
  destruct (Z.lt_ge_cases w 10) as [Hw|Hw]; [|specialize (H2 Hw); lia].
  assert (d = 1) as -> by (unfold d; cbn [digits10_rec]; destruct (Z.ltb_spec w 10); lia). cbn. lia.
Qed.

Lemma digits10_spec v : fits_u 64 v -> digits10 v = Z.of_nat (length (decimal v)).
Proof.
  intros Hv. pose proof (u64_pow10 v Hv) as Hv'. destruct (digits10_bounds v) as (H1 & H2 & H3); [lia|].
  destruct (decimal_length_bounds v Hv') as [H4 H5]. pose proof (decimal_not_nil v Hv').
  set (k := Z.of_nat (length (decimal v))) in *. assert (1 <= k) by (unfold k; destruct (decimal v); [done|cbn; lia]).
  destruct (Z.lt_ge_cases v 10) as [Hs|Hs].
  { assert (k = 1) as -> by (unfold k; by rewrite decimal_small by lia).
    unfold digits10. cbn [digits10_rec]. by destruct (Z.ltb_spec v 10); [|lia]. }
  specialize (H2 Hs). specialize (H5 Hs).
  assert (digits10 v - 1 < k) by (apply (Z.pow_lt_mono_r_iff 10); lia).
  assert (k - 1 < digits10 v) by (apply (Z.pow_lt_mono_r_iff 10); lia). lia.
Qed.

Lemma digits_table : forall n, 0 <= n < 100 ->
  digits !!! Z.to_nat (n * 2) = 48 + n / 10 /\ digits !!! Z.to_nat (n * 2 + 1) = 48 + n mod 10.
Proof.
  assert (Forall (fun n => digits !!! Z.to_nat (n * 2) = 48 + n / 10 /\ digits !!! Z.to_nat (n * 2 + 1) = 48 + n mod 10)
    (Z.of_nat <$> seq 0 100)) as H by (apply (bool_decide_unpack _); by vm_compute).
  intros n Hn. rewrite Forall_forall in H. apply H. apply list_elem_of_fmap. exists (Z.to_nat n).
  rewrite elem_of_seq. lia.
Qed.

Lemma decimal_two v : 100 <= v < 10 ^ 20 ->
  decimal v = decimal (v / 100) ++ [48 + v mod 100 / 10; 48 + v mod 100 mod 10].
Proof.
  intros Hv. assert (10 <= v / 10 < 10 ^ 20) by (split; [apply Z.div_le_lower_bound|apply Z.div_lt_upper_bound]; lia).
  rewrite decimal_step, (decimal_step (v / 10)), <- app_assoc by lia.
  rewrite Z.div_div by lia. change (10 * 10) with 100. cbn [app].
  assert ((v / 10) mod 10 = v mod 100 / 10) as ->.
  { pose proof (Z.div_mod v 100 ltac:(lia)). rewrite (Z.mod_eq v 100) by lia.
    replace (v - 100 * (v / 100)) with (v + (- (10 * (v / 100))) * 10) by lia.
    rewrite Z.div_add by lia. rewrite Z.mod_eq, Z.div_div by lia. change (10 * 10) with 100. lia. }
  assert (v mod 10 = v mod 100 mod 10) as ->; [|done].
  change 100 with (10 * 10). rewrite Z.rem_mul_r by lia. rewrite Z.mul_comm, Z.mod_add by lia. by rewrite Z.mod_mod.
Qed.

(** Two writes below a suffix. *)
Lemma write_two (junk suf : list Z) (a b x y : Z) :
  <[Z.to_nat (Z.of_nat (length (junk ++ [a; b])) - 1 - 1) := x]>
    (<[Z.to_nat (Z.of_nat (length (junk ++ [a; b])) - 1) := y]> ((junk ++ [a; b]) ++ suf)) = junk ++ [x; y] ++ suf.
Proof.
  rewrite length_app. cbn [length]. rewrite <- app_assoc.
  replace (Z.to_nat (Z.of_nat (length junk + 2) - 1)) with (length junk + 1)%nat by lia.
  replace (Z.to_nat (Z.of_nat (length junk + 2) - 1 - 1)) with (length junk + 0)%nat by lia.
  rewrite !insert_app_r. done.
Qed.

Lemma write_at (n : nat) (junk rest : list Z) x y :
  length junk = n -> <[n := y]> (junk ++ x :: rest) = junk ++ y :: rest.
Proof. intros <-. replace (length junk) with (length junk + 0)%nat by lia. by rewrite insert_app_r. Qed.

Lemma split_last_two (l : list Z) : (2 <= length l)%nat -> exists l' a b, l = l' ++ [a; b].
Proof.
  intros H. destruct l as [|b l _] using rev_ind; [cbn in H; lia|].
  destruct l as [|a l _] using rev_ind; [cbn in H; lia|]. exists l, a, b. by rewrite <- app_assoc.
Qed.

Lemma ull2string_loop_spec fuel junk suf v :
  0 <= v < 10 ^ 20 -> v < 100 * 100 ^ Z.of_nat fuel -> length junk = length (decimal v) ->
  exists junk' suf' v', ull2string_loop fuel (junk ++ suf) v (Z.of_nat (length junk) - 1) =
      Some (junk' ++ suf', v', Z.of_nat (length junk') - 1) /\
    0 <= v' < 100 /\ length junk' = length (decimal v') /\ decimal v' ++ suf' = decimal v ++ suf.
Proof.
  revert junk suf v. induction fuel as [|fuel IH]; intros junk suf v Hv Hf Hlen; cbn [ull2string_loop];
    (destruct (Z.ltb_spec v 100) as [Hs|Hs]; [exists junk, suf, v; split_and!; done || lia|]).
  { cbn in Hf. lia. }
  rewrite decimal_two in Hlen by lia. rewrite length_app in Hlen. cbn [length] in Hlen.
  destruct (split_last_two junk) as (junk1 & a & b & ->); [lia|]. rewrite length_app in Hlen. cbn [length] in Hlen.
  destruct (digits_table (v mod 100)) as [-> ->]; [by apply Z.mod_pos_bound|]. rewrite write_two.
  replace (Z.of_nat (length (junk1 ++ [a; b])) - 1 - 2) with (Z.of_nat (length junk1) - 1) by (rewrite length_app; cbn; lia).
  rewrite (Nat2Z.inj_succ fuel), Z.pow_succ_r in Hf by lia.
  destruct (IH junk1 ([48 + v mod 100 / 10; 48 + v mod 100 mod 10] ++ suf) (v / 100)) as (junk' & suf' & v' & -> & ? & ? & Heq).
  - split; [apply Z.div_pos; lia|apply Z.div_lt_upper_bound; lia].
  - apply Z.div_lt_upper_bound; lia.
  - lia.
  - exists junk', suf', v'. split; [done|]. split; [done|]. split; [done|].
    rewrite Heq, (decimal_two v) by lia. by rewrite <- app_assoc.
Qed.

Lemma ull2string_spec dst v :
  fits_u 64 v -> digits10 v < Z.of_nat (length dst) ->
  ull2string dst v = (digits10 v, decimal v ++ 0 :: drop (Z.to_nat (digits10 v) + 1) dst).
Proof.
  intros Hv Hlen. pose proof (u64_pow10 v Hv) as Hv'. unfold ull2string. rewrite digits10_spec in * by done.
  set (n := length (decimal v)) in *. assert (n <> 0)%nat by (pose proof (decimal_not_nil v Hv'); unfold n; by destruct (decimal v)).
  destruct (Z.leb_spec (Z.of_nat (length dst)) (Z.of_nat n)); [lia|].
  replace (Z.of_nat n - 1 + 1) with (Z.of_nat n) by lia. rewrite !Nat2Z.id.
  rewrite <- (take_drop n dst) at 1. assert (length (take n dst) = n) as Hjunk by solve_len.
  destruct (drop n dst) as [|x rest] eqn:Ed; [apply (f_equal length) in Ed; rewrite length_drop in Ed; cbn in Ed; lia|].
  rewrite (write_at n) by done.
  assert (drop (n + 1) dst = rest) as -> by (rewrite <- drop_drop, Ed; done).
  replace (Z.of_nat n - 1) with (Z.of_nat (length (take n dst)) - 1) by lia.
  destruct (ull2string_loop_spec 10 (take n dst) (0 :: rest) v) as (junk' & suf' & v' & -> & Hv2 & Hl & Heq); [done| |done|].
  { unfold fits_u in Hv. lia. }
  destruct (Z.ltb_spec v' 10) as [Hs|Hs].
  - rewrite decimal_small in Hl, Heq by lia. destruct junk' as [|j [|]]; try done. cbn in Hl |- *.
    f_equal. by rewrite <- Heq.
  - assert (decimal v' = [48 + v' / 10; 48 + v' mod 10]) as Hd.
    { rewrite decimal_step by lia. assert (v' / 10 < 10) by (apply Z.div_lt_upper_bound; lia). by rewrite decimal_small. }
    rewrite Hd in Hl, Heq. destruct junk' as [|j1 [|j2 [|]]]; try done.
    destruct (digits_table v' Hv2) as [-> ->]. f_equal. rewrite <- Heq. done.
Qed.

Lemma abs_ll_spec v : fits_s 64 v -> v < 0 -> abs_ll v = - v /\ fits_u 64 (- v).
Proof.
  unfold fits_s, fits_u, abs_ll, LLONG_MIN, LLONG_MAX. intros Hv Hneg.
  destruct (Z.eqb_spec v (- 2 ^ 63)) as [->|]; [done|]. cbn [negb]. rewrite wrapu_id; unfold fits_u; lia.
Qed.

Lemma fits_s_u v : fits_s 64 v -> 0 <= v -> fits_u 64 v.
Proof. unfold fits_s, fits_u. lia. Qed.

Lemma ll2string_spec dst v :
  fits_s 64 v -> (length (decimal_signed v) < length dst)%nat ->
  ll2string dst v = (Z.of_nat (length (decimal_signed v)),
                     decimal_signed v ++ 0 :: drop (length (decimal_signed v) + 1) dst).
Proof.
  intros Hv Hlen. unfold ll2string, decimal_signed in *. destruct (Z.ltb_spec v 0) as [Hneg|Hpos].
  - destruct (abs_ll_spec v Hv Hneg) as [-> Hu]. cbn [length] in *.
    destruct dst as [|x [|y dst]]; [cbn in Hlen; lia|cbn in Hlen; lia|].
    pose proof (decimal_not_nil (- v) (u64_pow10 _ Hu)).
    rewrite ull2string_spec by (done || rewrite digits10_spec by done; cbn [length] in *; lia).
    rewrite digits10_spec by done. rewrite Nat2Z.id.
    destruct (Z.eqb_spec (Z.of_nat (length (decimal (- v)))) 0); [by destruct (decimal (- v))|].
    f_equal. lia.
  - pose proof (fits_s_u v Hv Hpos). rewrite ull2string_spec by (done || rewrite digits10_spec by done; lia).
    by rewrite digits10_spec, Nat2Z.id.
Qed.

Lemma ull2string_small dst v :
  fits_u 64 v -> (length dst <= length (decimal v))%nat -> ull2string dst v = (0, <[0%nat := 0]> dst).
Proof.
  intros Hv Hlen. unfold ull2string. rewrite digits10_spec by done.
  by destruct (Z.leb_spec (Z.of_nat (length dst)) (Z.of_nat (length (decimal v)))); [|lia].
Qed.

(** C30: [ll2string] writes exactly the decimal text of every [long long] and
    a NUL, leaves the rest of the buffer alone and returns the length; when
    text and NUL do not fit it returns 0. *)
Theorem ll2string_correct dst v :
  fits_s 64 v ->
  if decide (length (decimal_signed v) < length dst)%nat then
    ll2string dst v = (Z.of_nat (length (decimal_signed v)),
                       decimal_signed v ++ 0 :: drop (length (decimal_signed v) + 1) dst)
  else (ll2string dst v).1 = 0.
Proof.
  intros Hv. destruct (decide _) as [Hlen|Hlen]; [by apply ll2string_spec|].
  unfold ll2string, decimal_signed in *. destruct (Z.ltb_spec v 0) as [Hneg|Hpos].
  - destruct (abs_ll_spec v Hv Hneg) as [-> Hu]. cbn [length] in *. destruct dst as [|x [|y dst]]; [done|done|].
    by rewrite ull2string_small by (done || cbn [length] in *; lia).
  - rewrite ull2string_small; [done|by apply fits_s_u|lia].
Qed.

Lemma ll2string_correct_witness :
  ll2string (replicate 24 1) (- 2 ^ 63) =
    (20, [45; 57; 50; 50; 51; 51; 55; 50; 48; 51; 54; 56; 53; 52; 55; 55; 53; 56; 48; 56; 0; 1; 1; 1]) /\
  (ll2string (replicate 4 1) (-1234)).1 = 0.
Proof.
  split.
  - pose proof (ll2string_correct (replicate 24 1) (- 2 ^ 63) ltac:(by split)) as H. vm_compute in H |- *. exact H.
  - pose proof (ll2string_correct (replicate 4 1) (-1234) ltac:(by split)) as H. vm_compute in H |- *. exact H.
Defined.

(** ** Input *)

Lemma string2ll_loop_digits p v :
  Forall digit p -> 0 <= v <= ULLONG_MAX ->
  string2ll_loop p v = if value_from v p <=? ULLONG_MAX then Some (value_from v p, []) else None.
Proof.
  intros Hp. revert v. induction Hp as [|c p Hc Hp IH]; intros v Hv; cbn [string2ll_loop].
  { cbn. by destruct (Z.leb_spec v ULLONG_MAX); [|lia]. }
  rewrite (proj2 (is_digit_spec c)) by done. unfold digit in Hc.
  change (value_from v (c :: p)) with (value_from (v * 10 + (c - 48)) p).
  pose proof (value_from_ge p (v * 10 + (c - 48)) Hp ltac:(lia)) as Hge.
  assert (ULLONG_MAX / 10 = 1844674407370955161) as Hq by done. unfold ULLONG_MAX in *.
  destruct (Z.ltb_spec ((2 ^ 64 - 1) / 10) v).
  { destruct (Z.leb_spec (value_from (v * 10 + (c - 48)) p) (2 ^ 64 - 1)); [lia|done]. }
  rewrite (wrapu_id 64 (v * 10)) by (unfold fits_u; lia).
  destruct (Z.ltb_spec (2 ^ 64 - 1 - (c - 48)) (v * 10)).
  { destruct (Z.leb_spec (value_from (v * 10 + (c - 48)) p) (2 ^ 64 - 1)); [lia|done]. }
  rewrite wrapu_id by (unfold fits_u; lia). apply IH. lia.
Qed.

Lemma string2ll_loop_inv p v w : string2ll_loop p v = Some (w, []) -> Forall digit p.
Proof.
  revert v. induction p as [|c p IH]; intros v; cbn [string2ll_loop]; [constructor|].
  destruct (is_digit c) eqn:Hc; [|done]. destruct (_ <? v); [done|]. destruct (_ <? _); [done|].
  intros H. constructor; [by apply is_digit_spec|]. by eapply IH.
Qed.

Lemma decimal_head v : 1 <= v < 10 ^ 20 -> exists c l, decimal v = c :: l /\ 49 <= c <= 57.
Proof.
  intros Hv. assert (0 <= v < 10 ^ 20) as Hv' by lia. revert v Hv' Hv.
  apply (decimal_ind (fun v => 1 <= v < 10 ^ 20 -> exists c l, decimal v = c :: l /\ 49 <= c <= 57)).
  - intros v Hv Hv'. rewrite decimal_small by lia. exists (48 + v), []. split; [done|lia].
  - intros v Hv IH _. destruct IH as (c & l & Hd & Hc).
    { split; [apply Z.div_le_lower_bound; lia|apply Z.div_lt_upper_bound; lia]. }
    rewrite decimal_step, Hd by lia. exists c, (l ++ [48 + v mod 10]). by split.
Qed.

(** The part after the sign. *)
Definition parse_abs (p : list Z) : option Z :=
  match p with
  | c :: p1 =>
      if (49 <=? c) && (c <=? 57) then
        match string2ll_loop p1 (c - 48) with Some (v, []) => Some v | _ => None end
      else None
  | [] => None
  end.

Lemma parse_abs_spec p v :
  parse_abs p = Some v <-> 1 <= v <= ULLONG_MAX /\ p = decimal v.
Proof.
  split.
  - unfold parse_abs. destruct p as [|c p1]; [done|].
    destruct (Z.leb_spec 49 c); [|done]. destruct (Z.leb_spec c 57); [|done]. cbn [andb].
    destruct (string2ll_loop p1 (c - 48)) as [[w [|]]|] eqn:E; [|done..]. intros [= <-].
    pose proof (string2ll_loop_inv _ _ _ E) as Hd.
    rewrite string2ll_loop_digits in E by (done || unfold ULLONG_MAX; lia).
    destruct (Z.leb_spec (value_from (c - 48) p1) ULLONG_MAX); [|done]. injection E as <-.
    pose proof (value_from_ge p1 (c - 48) Hd ltac:(lia)). split; [lia|].
    rewrite <- (value_from_cons c p1). symmetry. apply decimal_value_from; [|done|].
    + constructor; [unfold digit; lia|done].
    + rewrite value_from_cons. unfold ULLONG_MAX in *. lia.
  - intros [Hv ->]. unfold ULLONG_MAX in Hv. destruct (decimal_head v) as (c & l & Hd & Hc); [lia|]. rewrite Hd. unfold parse_abs.
    destruct (Z.leb_spec 49 c); [|lia]. destruct (Z.leb_spec c 57); [|lia]. cbn [andb].
    pose proof (decimal_digits v ltac:(lia)) as Hds. rewrite Hd in Hds. apply Forall_cons in Hds as [_ Hds].
    rewrite string2ll_loop_digits by (done || unfold ULLONG_MAX; lia).
    rewrite <- value_from_cons, <- Hd, decimal_value by lia. unfold ULLONG_MAX.
    by destruct (Z.leb_spec v (2 ^ 64 - 1)); [|lia].
Qed.

Lemma string2ll_unfold s :
  string2ll s =
    if bool_decide (s = []) || (LONG_STR_SIZE <=? Z.of_nat (length s)) then None
    else if bool_decide (s = [48]) then Some 0
    else if bool_decide (head s = Some 45) then
      v ← parse_abs (tail s); if 2 ^ 63 <? v then None else Some (wraps 64 (- v))
    else v ← parse_abs s; if LLONG_MAX <? v then None else Some v.
Proof.
  unfold string2ll, parse_abs. destruct s as [|c0 s]; [done|]. rewrite (bool_decide_false (c0 :: s = [])) by done.
  destruct (Z.eqb_spec (Z.of_nat (length (c0 :: s))) 0); [cbn in *; lia|]. cbn [orb].
  destruct (_ <=? _); [done|].
  destruct (decide (c0 :: s = [48])) as [[= -> ->]|Hne]; [done|]. rewrite (bool_decide_false (c0 :: s = [48])) by done.
  destruct ((Z.of_nat (length (c0 :: s)) =? 1) && (c0 =? 48)) eqn:E.
  { apply andb_prop in E as [E1%Z.eqb_eq ->%Z.eqb_eq]. destruct s; [done|cbn in E1; lia]. }
  cbn [head tail]. destruct (Z.eqb_spec c0 45) as [->|Hn].
  - rewrite bool_decide_true by done. destruct s as [|c p]; [done|].
    destruct ((49 <=? c) && (c <=? 57)); [|done].
    by destruct (string2ll_loop p (c - 48)) as [[v [|]]|].
  - rewrite bool_decide_false by congruence. destruct ((49 <=? c0) && (c0 <=? 57)); [|done].
    by destruct (string2ll_loop s (c0 - 48)) as [[v [|]]|].
Qed.

Lemma decimal_length_le v : 0 <= v <= 2 ^ 63 -> (length (decimal v) <= 19)%nat.
Proof.
  intros Hv. destruct (decimal_length_bounds v) as [_ H]; [lia|]. destruct (Z.lt_ge_cases v 10) as [Hs|Hs].
  { rewrite decimal_small by lia. cbn. lia. }
  specialize (H Hs). assert (Z.of_nat (length (decimal v)) - 1 < 19); [|lia].
  apply (Z.pow_lt_mono_r_iff 10); lia.
Qed.

Lemma decimal_signed_length v : fits_s 64 v -> Z.of_nat (length (decimal_signed v)) < LONG_STR_SIZE.
Proof.
  unfold fits_s, decimal_signed, LONG_STR_SIZE. intros Hv. destruct (Z.ltb_spec v 0).
  - pose proof (decimal_length_le (- v) ltac:(lia)). cbn [length]. lia.
  - pose proof (decimal_length_le v ltac:(lia)). lia.
Qed.

Lemma string2ll_spec s v : string2ll s = Some v <-> fits_s 64 v /\ s = decimal_signed v.
Proof.
  rewrite string2ll_unfold. split.
  - destruct (_ || _); [done|]. destruct (decide (s = [48])) as [->|Hne].
    { intros [= <-]. split; [by split|]. unfold decimal_signed. by rewrite decimal_small. }
    rewrite (bool_decide_false (s = [48])) by done. unfold fits_s, decimal_signed, LLONG_MAX.
    destruct s as [|c s]; [by rewrite bool_decide_false|]. cbn [head tail].
    destruct (decide (c = 45)) as [->|Hc].
    + rewrite bool_decide_true by done. destruct (parse_abs s) as [w|] eqn:E; [|done]. mstep.
      apply parse_abs_spec in E as [Hw ->]. destruct (Z.ltb_spec (2 ^ 63) w); [done|]. intros [= <-].
      rewrite wraps_id by (unfold fits_s; lia). split; [lia|]. destruct (Z.ltb_spec (- w) 0); [|lia].
      by rewrite Z.opp_involutive.
    + rewrite bool_decide_false by congruence. destruct (parse_abs (c :: s)) as [w|] eqn:E; [|done]. mstep.
      apply parse_abs_spec in E as [Hw Heq]. destruct (Z.ltb_spec (2 ^ 63 - 1) w); [done|]. intros [= <-].
      split; [lia|]. by destruct (Z.ltb_spec w 0); [lia|].
  - intros [Hv ->]. pose proof (decimal_signed_length v Hv). destruct (Z.leb_spec LONG_STR_SIZE (Z.of_nat (length (decimal_signed v)))); [lia|].
    unfold fits_s, decimal_signed, LLONG_MAX in *. destruct (Z.ltb_spec v 0) as [Hneg|Hpos].
    + rewrite !bool_decide_false by done. cbn [orb head tail]. rewrite bool_decide_true by done.
      rewrite (proj2 (parse_abs_spec (decimal (- v)) (- v))) by (unfold ULLONG_MAX; split; [lia|done]).
      mstep. destruct (Z.ltb_spec (2 ^ 63) (- v)); [lia|]. rewrite Z.opp_involutive, wraps_id by (unfold fits_s; lia). done.
    + pose proof (decimal_not_nil v ltac:(lia)). rewrite (bool_decide_false (decimal v = [])) by done. cbn [orb].
      destruct (decide (v = 0)) as [->|Hnz]; [by rewrite decimal_small|].
      destruct (decimal_head v) as (c & l & Hd & Hc); [lia|].
      rewrite (bool_decide_false (decimal v = [48])) by (rewrite Hd; intros [= -> ->]; lia).
      rewrite (bool_decide_false (head _ = _)) by (rewrite Hd; intros [= ->]; lia).
      rewrite (proj2 (parse_abs_spec (decimal v) v)) by (unfold ULLONG_MAX; split; [lia|done]).
      mstep. by destruct (Z.ltb_spec (2 ^ 63 - 1) v); [lia|].
Qed.

(** [string2ll] accepts exactly the canonical decimal texts of the
    [long long] values, and yields their value: no other text parses, so the
    text can be recovered from the number. *)
Theorem string2ll_exact s v : string2ll s = Some v <-> fits_s 64 v /\ s = decimal_signed v.
Proof. apply string2ll_spec. Qed.

(** Printing a [long long] and parsing the text gives the number back. *)
Theorem ll2string_string2ll dst v :
  fits_s 64 v -> (20 < length dst)%nat ->
  let '(len, dst) := ll2string dst v in string2ll (take (Z.to_nat len) dst) = Some v.
Proof.
  intros Hv Hlen. pose proof (decimal_signed_length v Hv) as Hl. unfold LONG_STR_SIZE in Hl.
  rewrite ll2string_spec by (done || lia). rewrite Nat2Z.id, take_app_length. by apply string2ll_spec.
Qed.

Lemma ll2string_string2ll_witness :
  let '(len, dst) := ll2string (replicate 21 7) (-42) in string2ll (take (Z.to_nat len) dst) = Some (-42).
Proof. apply (ll2string_string2ll (replicate 21 7) (-42)); [by split|cbn; lia]. Defined.

(** ** Unsigned input *)

(** Negative numbers are rejected when they are canonical, but the
    fallback accepts them with a leading zero and wraps them around. *)
Theorem string2ull_negative_accepted :
  string2ull [45; 49] = None /\ string2ull [45; 48; 49] = Some ULLONG_MAX.
Proof. by vm_compute. Qed.

Lemma skip_space_decimal v : 0 <= v < 10 ^ 20 -> skip_space (decimal v) = decimal v.
Proof.
  intros Hv. pose proof (decimal_digits v Hv) as Hd. destruct (decimal v) as [|c l]; [done|].
  apply Forall_cons in Hd as [Hc _]. unfold digit in Hc. cbn. unfold is_space.
  destruct (Z.leb_spec 9 c), (Z.leb_spec c 13), (Z.eqb_spec c 32); lia || done.
Qed.

Lemma take_digits_all l v : Forall digit l -> take_digits l v = (value_from v l, []).
Proof.
  intros Hl. revert v. induction Hl as [|c l Hc Hl IH]; intros v; [done|]. cbn [take_digits].
  by rewrite (proj2 (is_digit_spec c)), IH.
Qed.

Lemma strtoull_digits l :
  Forall digit l -> strtoull l = if ULLONG_MAX <? value_from 0 l then (ULLONG_MAX, [], true) else (value_from 0 l, [], false).
Proof.
  intros Hl. destruct l as [|c l]; [done|]. pose proof Hl as [Hc _]%Forall_cons. unfold digit in Hc. unfold strtoull.
  cbn [skip_space]. unfold is_space. destruct (Z.leb_spec c 13); [lia|]. destruct (Z.eqb_spec c 32); [lia|].
  rewrite andb_false_r. cbn [orb]. destruct (Z.eqb_spec c 45); [lia|]. destruct (Z.eqb_spec c 43); [lia|].
  rewrite (proj2 (is_digit_spec c)) by done. rewrite take_digits_all by done. by destruct (ULLONG_MAX <? _).
Qed.

(** Every unsigned 64-bit number is read back from its decimal text,
    also the ones above the range of [long long], which take the fallback. *)
Theorem string2ull_decimal v : fits_u 64 v -> string2ull (decimal v) = Some v.
Proof.
  intros Hv. pose proof (u64_pow10 v Hv) as Hv'. unfold string2ull.
  destruct (string2ll (decimal v)) as [ll|] eqn:E.
  - apply string2ll_spec in E as [Hll Heq]. unfold decimal_signed in Heq. pose proof (decimal_digits v Hv') as Hd.
    destruct (Z.ltb_spec ll 0).
    + rewrite Heq in Hd. apply Forall_cons in Hd as [Hd _]. unfold digit in Hd. lia.
    + f_equal. rewrite <- (decimal_value v), Heq, decimal_value; [done| |done]. unfold fits_s in Hll. lia.
  - rewrite strtoull_digits, decimal_value by (done || by apply decimal_digits). unfold ULLONG_MAX, fits_u in *.
    destruct (Z.ltb_spec (2 ^ 64 - 1) v); [lia|]. cbn [orb].
    rewrite (bool_decide_true (decimal v <> [])) by by apply decimal_not_nil. done.
Qed.

Lemma string2ull_decimal_witness : string2ull (decimal (2 ^ 64 - 1)) = Some (2 ^ 64 - 1).
Proof. apply string2ull_decimal. by split. Defined.

(** ** Memory sizes *)

Lemma span_digits_app ds u :
  Forall digit ds -> (forall c u', u = c :: u' -> is_digit c = false) -> span_digits (ds ++ u) = (ds, u).
Proof.
  intros Hds Hu. induction Hds as [|c ds Hc Hds IH]; cbn [app span_digits].
  - destruct u as [|c u]; [done|]. cbn [span_digits]. by rewrite (Hu c u).
  - by rewrite (proj2 (is_digit_spec c)), IH.
Qed.

(** Digits followed by a unit parse to the number times the unit, without
    overflow when the product has 64 bits. *)
Theorem memtoull_correct ds u mul :
  Forall digit ds -> (length ds < 128)%nat -> memtoull_unit u = Some mul ->
  (forall c u', u = c :: u' -> is_digit c = false) -> head (ds ++ u) <> Some 45 ->
  fits_u 64 (value_from 0 ds) -> fits_u 64 (value_from 0 ds * mul) ->
  memtoull (ds ++ u) = Some (value_from 0 ds * mul).
Proof.
  intros Hds Hlen Hunit Hu Hhead Hv Hp. unfold memtoull. rewrite bool_decide_false by done.
  rewrite span_digits_app by done. rewrite Hunit. destruct (Z.leb_spec 128 (Z.of_nat (length ds))); [lia|].
  rewrite strtoull_digits by done. unfold ULLONG_MAX, fits_u in *. destruct (Z.ltb_spec (2 ^ 64 - 1) (value_from 0 ds)); [lia|].
  rewrite bool_decide_false by tauto. by rewrite wrapu_id.
Qed.

(** 100mb *)
Lemma memtoull_correct_witness : memtoull ([49; 48; 48] ++ [109; 98]) = Some (100 * (1024 * 1024)).
Proof.
  apply (memtoull_correct [49; 48; 48] [109; 98] (1024 * 1024)).
  - repeat constructor; lia.
  - cbn. lia.
  - by vm_compute.
  - by intros c u' [= <- <-].
  - done.
  - by split.
  - by split.
Defined.

(** A size without digits is accepted as 0: the test for EINVAL does not
    detect it. *)
Theorem memtoull_no_digits : memtoull [] = Some 0 /\ memtoull [103; 98] = Some 0.
Proof. by vm_compute. Qed.
