(* ===== verification/Sds.v ===== *)
(** * Quoting and splitting of strings (src/sds.c)

    [sdscatrepr], [sdsneedsrepr] and [sdssplitargs] on lists of bytes, with the
    character classes of the C locale.  The byte at the end of a string is NUL,
    and a NUL inside it ends it for [sdssplitargs]. *)
From S2P Require Import Prelude Numconv.
From Stdlib Require Import ZArith Lia.
From stdpp Require Import prelude list.

#[local] Open Scope Z_scope.

Definition isprint (c : Z) : bool := (32 <=? c) && (c <=? 126).

(** The byte at [p + i]. *)
Definition char_at (p : list Z) (i : nat) : Z := default 0 (p !! i).

(** ** Writing *)

(** The digits of ["%02x"]. *)
Definition hex_digit (v : Z) : Z := if v <? 10 then 48 + v else 87 + v.

Definition repr_char (c : Z) : list Z :=
  if (c =? 92) || (c =? 34) then [92; c]
  else if c =? 10 then [92; 110]
  else if c =? 13 then [92; 114]
  else if c =? 9 then [92; 116]
  else if c =? 7 then [92; 97]
  else if c =? 8 then [92; 98]
  else if isprint c then [c]
  else [92; 120; hex_digit (c / 16); hex_digit (c mod 16)].

Definition sdscatrepr (s p : list Z) : list Z := s ++ [34] ++ concat (repr_char <$> p) ++ [34].

Definition sdsneedsrepr (s : list Z) : bool :=
  existsb (fun c => (c =? 92) || (c =? 34) || (c =? 10) || (c =? 13) || (c =? 9) || (c =? 7) || (c =? 8) || negb (isprint c) || is_space c) s.

(** ** Splitting *)

Definition is_hex_digit (c : Z) : bool :=
  ((48 <=? c) && (c <=? 57)) || ((97 <=? c) && (c <=? 102)) || ((65 <=? c) && (c <=? 70)).

Definition hex_digit_to_int (c : Z) : Z :=
  if (48 <=? c) && (c <=? 57) then c - 48
  else if (97 <=? c) && (c <=? 102) then c - 87
  else if (65 <=? c) && (c <=? 70) then c - 55
  else 0.

(** The escapes of a quoted string. *)
Definition unescape (c : Z) : Z :=
  if c =? 110 then 10 else if c =? 114 then 13 else if c =? 116 then 9 else if c =? 98 then 8 else if c =? 97 then 7 else c.

Fixpoint skip_blanks (p : list Z) : list Z :=
  match p with
  | c :: p' => if negb (c =? 0) && is_space c then skip_blanks p' else p
  | [] => []
  end.

(** Outside quotes, in double quotes, in single quotes. *)
Inductive quotes := Unquoted | Inq | Insq.

(** The loop over the characters of a token: its text and what follows; [inl]
    is the error. *)
Fixpoint get_token (fuel : nat) (q : quotes) (current p : list Z) : option (unit + list Z * list Z) :=
  match fuel with
  | O => None
  | S fuel =>
      let c := char_at p 0 in
      let next (k : nat) := drop k p in
      match q with
      | Inq =>
          if (c =? 92) && (char_at p 1 =? 120) && is_hex_digit (char_at p 2) && is_hex_digit (char_at p 3) then
            get_token fuel Inq (current ++ [hex_digit_to_int (char_at p 2) * 16 + hex_digit_to_int (char_at p 3)]) (next 4%nat)
          else if (c =? 92) && negb (char_at p 1 =? 0) then get_token fuel Inq (current ++ [unescape (char_at p 1)]) (next 2%nat)
          else if c =? 34 then
            if negb (char_at p 1 =? 0) && negb (is_space (char_at p 1)) then Some (inl tt) else Some (inr (current, next 1%nat))
          else if c =? 0 then Some (inl tt)
          else get_token fuel Inq (current ++ [c]) (next 1%nat)
      | Insq =>
          if (c =? 92) && (char_at p 1 =? 39) then get_token fuel Insq (current ++ [39]) (next 2%nat)
          else if c =? 39 then
            if negb (char_at p 1 =? 0) && negb (is_space (char_at p 1)) then Some (inl tt) else Some (inr (current, next 1%nat))
          else if c =? 0 then Some (inl tt)
          else get_token fuel Insq (current ++ [c]) (next 1%nat)
      | Unquoted =>
          if (c =? 32) || (c =? 10) || (c =? 13) || (c =? 9) then Some (inr (current, next 1%nat))
          else if c =? 0 then Some (inr (current, p))
          else if c =? 34 then get_token fuel Inq current (next 1%nat)
          else if c =? 39 then get_token fuel Insq current (next 1%nat)
          else get_token fuel Unquoted (current ++ [c]) (next 1%nat)
      end
  end.

Fixpoint split_loop (fuel : nat) (p : list Z) (vector : list (list Z)) : option (unit + list (list Z)) :=
  match fuel with
  | O => None
  | S fuel =>
      let p := skip_blanks p in
      if char_at p 0 =? 0 then Some (inr vector)
      else
        t ← get_token (S (length p)) Unquoted [] p;
        match t with
        | inl _ => Some (inl tt)
        | inr (current, p) => split_loop fuel p (vector ++ [current])
        end
  end.

(** The arguments, or [inl] for NULL. *)
Definition sdssplitargs (line : list Z) : option (unit + list (list Z)) := split_loop (S (length line)) line [].

(** [strchr(cset, c)] for the bytes [cset] of a C string: the terminator is found too. *)
Definition strchr (cset : list Z) (c : Z) : bool := (c =? 0) || existsb (Z.eqb c) cset.

Fixpoint trim_left (cset s : list Z) : list Z :=
  match s with
  | c :: s' => if strchr cset c then trim_left cset s' else s
  | [] => []
  end.

(** The second loop stops at [sp], whose byte the first one left, or did not run. *)
Definition sdstrim (s cset : list Z) : list Z := reverse (trim_left cset (reverse (trim_left cset s))).
