(* ===== verification/SdsSpec.v ===== *)
(** * [sdssplitargs] terminates and undoes [sdscatrepr]

    Fuel of one more than the length is enough for every line, and a line of
    arguments, each quoted by [sdscatrepr] or plain, splits into the arguments. *)
From S2P Require Import Prelude Numconv Sds.
From Stdlib Require Import ZArith Lia.
From stdpp Require Import prelude list.

#[local] Open Scope Z_scope.

(** ** Termination *)

Lemma char_at_cons c p : char_at (c :: p) 0 = c.
Proof. done. Qed.

Lemma char_at_S c p i : char_at (c :: p) (S i) = char_at p i.
Proof. done. Qed.

Lemma char_at_length p i : char_at p i <> 0 -> (i < length p)%nat.
Proof. unfold char_at. intros H. apply lookup_lt_is_Some. destruct (p !! i); [eauto|done]. Qed.

Lemma get_token_total fuel q current p : (length p < fuel)%nat ->
  get_token fuel q current p = Some (inl tt) \/
  exists t rest, get_token fuel q current p = Some (inr (t, rest)) /\ (length rest <= length p)%nat /\
    (char_at p 0 <> 0 -> (length rest < length p)%nat).
Proof.
  revert q current p. induction fuel as [|fuel IH]; [lia|]. intros q current p Hf.
  assert (Hgo : forall q' current' k, (0 < k <= length p)%nat ->
    get_token fuel q' current' (drop k p) = Some (inl tt) \/
    exists t rest, get_token fuel q' current' (drop k p) = Some (inr (t, rest)) /\ (length rest <= length p)%nat /\
      (char_at p 0 <> 0 -> (length rest < length p)%nat)).
  { intros q' current' k Hk. destruct (IH q' current' (drop k p)) as [?|(t & rest & ? & ? & _)]; [rewrite length_drop; lia|auto|].
    right. exists t, rest. rewrite length_drop in H0. repeat split; [done|lia|lia]. }
  assert (Hend : forall t : list Z, char_at p 0 <> 0 -> exists t' rest, Some (inr (t, drop 1 p)) = Some (inr (t', rest) : unit + list Z * list Z) /\
    (length rest <= length p)%nat /\ (char_at p 0 <> 0 -> (length rest < length p)%nat)).
  { intros t H. exists t, (drop 1 p). apply char_at_length in H. rewrite length_drop. repeat split; lia. }
  pose proof (char_at_length p 0) as H0. pose proof (char_at_length p 1) as H1. pose proof (char_at_length p 3) as H3.
  cbn [get_token]; destruct q; repeat case_match; auto; try (apply Hgo); try (right; apply Hend);
    repeat match goal with H : _ && _ = true |- _ => apply andb_true_iff in H as [? ?] end;
    try (right; exists current, p; repeat split; lia);
    try match goal with H : is_hex_digit (char_at p 3) = true |- _ => unfold is_hex_digit in H end; lia.
Qed.

Lemma skip_blanks_length p : (length (skip_blanks p) <= length p)%nat.
Proof. induction p as [|c p IH]; simpl; [done|]. case_match; simpl; lia. Qed.

Lemma split_loop_total fuel p vector : (length p < fuel)%nat -> is_Some (split_loop fuel p vector).
Proof.
  revert p vector. induction fuel as [|fuel IH]; [lia|]. intros p vector Hf. cbn [split_loop].
  pose proof (skip_blanks_length p). case_match eqn:E; [eauto|]. apply Z.eqb_neq in E.
  destruct (get_token_total (S (length (skip_blanks p))) Unquoted [] (skip_blanks p)) as [->|(t & rest & -> & _ & Hlt)];
    [lia|simpl; eauto|]. simpl. apply IH. specialize (Hlt E). lia.
Qed.

Lemma sdssplitargs_total line : is_Some (sdssplitargs line).
Proof. apply split_loop_total. lia. Qed.

Lemma split_loop_mono fuel fuel' p vector r : (fuel <= fuel')%nat ->
  split_loop fuel p vector = Some r -> split_loop fuel' p vector = Some r.
Proof.
  revert fuel' p vector. induction fuel as [|fuel IH]; [done|]. intros [|fuel'] p vector Hle; [lia|]. cbn [split_loop].
  case_match; [done|]. destruct (get_token _ _ _ _) as [[[]|[t rest]]|]; simpl; [done| |done]. apply IH. lia.
Qed.

(** ** Quoted tokens *)

Lemma hex_digit_ok v : 0 <= v < 16 -> is_hex_digit (hex_digit v) = true /\ hex_digit_to_int (hex_digit v) = v.
Proof. unfold is_hex_digit, hex_digit_to_int, hex_digit. intros. repeat case_match; lia. Qed.

Lemma get_token_repr_char fuel current c rest : is_byte c ->
  get_token (S fuel) Inq current (repr_char c ++ rest) = get_token fuel Inq (current ++ [c]) rest.
Proof.
  unfold is_byte. intros Hc.
  destruct (hex_digit_ok (c / 16)) as [Hh1 Hv1]; [Z.div_mod_to_equations; lia|].
  destruct (hex_digit_ok (c mod 16)) as [Hh2 Hv2]; [apply Z.mod_pos_bound; lia|].
  unfold repr_char, isprint. repeat (case_match; [by (repeat match goal with H : (_ =? _) = true |- _ => apply Z.eqb_eq in H; subst end;
    try (match goal with H : _ || _ = true |- _ => apply orb_true_iff in H as [H|H]; apply Z.eqb_eq in H; subst end))|]).
  - case_match.
    + cbn [get_token app]. rewrite !char_at_cons.
      replace (c =? 92) with false by lia. replace (c =? 34) with false by lia. replace (c =? 0) with false by lia. done.
    + cbn [get_token app]. rewrite !char_at_S, !char_at_cons. simpl. rewrite Hh1, Hh2, Hv1, Hv2. simpl. rewrite drop_0.
      do 3 f_equal. pose proof (Z.div_mod c 16); lia.
Qed.

(** What ends a quoted token: nothing, or a space. *)
Definition ends_token (rest : list Z) : Prop := rest = [] \/ exists r, rest = 32 :: r.

Lemma get_token_repr fuel current t rest : Forall is_byte t -> ends_token rest -> (length t < fuel)%nat ->
  get_token fuel Inq current (concat (repr_char <$> t) ++ 34 :: rest) = Some (inr (current ++ t, rest)).
Proof.
  intros Ht Hrest. revert fuel current. induction Ht as [|c t Hc Ht IH]; intros [|fuel] current Hf; simpl in Hf; try lia.
  - rewrite app_nil_r. destruct Hrest as [->|[r ->]]; done.
  - rewrite fmap_cons, concat_cons, <- app_assoc, get_token_repr_char by done. rewrite IH by lia. by rewrite <- app_assoc.
Qed.

(** A character that stands for itself outside quotes. *)
Definition plain_char (c : Z) : Prop := 33 <= c <= 126 /\ c <> 34 /\ c <> 39.

Lemma get_token_plain fuel current t rest : Forall plain_char t -> ends_token rest -> (length t < fuel)%nat ->
  exists r, get_token fuel Unquoted current (t ++ rest) = Some (inr (current ++ t, r)) /\ skip_blanks r = skip_blanks rest.
Proof.
  intros Ht Hrest. revert fuel current. induction Ht as [|c t Hc Ht IH]; intros [|fuel] current Hf; simpl in Hf; try lia.
  - rewrite app_nil_r. destruct Hrest as [->|[r ->]]; eexists; split; reflexivity.
  - destruct (IH fuel (current ++ [c])) as (r & Hr & Hb); [lia|]. exists r. split; [|done].
    rewrite <- app_assoc in Hr. cbn [app] in Hr. destruct Hc as (Hc & ? & ?). cbn [app]. rewrite <- Hr. cbn [get_token]. rewrite char_at_cons.
    replace ((c =? 32) || (c =? 10) || (c =? 13) || (c =? 9)) with false by lia.
    replace (c =? 0) with false by lia. replace (c =? 34) with false by lia. by replace (c =? 39) with false by lia.
Qed.

(** The ways the server writes an argument: quoted, or as it is when nothing in it needs quotes. *)
Inductive spelled (t : list Z) : list Z -> Prop :=
  | spelled_repr : Forall is_byte t -> spelled t (sdscatrepr [] t)
  | spelled_plain : t <> [] -> Forall plain_char t -> spelled t t.

Lemma repr_length t : (length t <= length (concat (repr_char <$> t)))%nat.
Proof.
  induction t as [|c t IH]; [done|]. rewrite fmap_cons, concat_cons, length_app. cbn [length].
  assert (1 <= length (repr_char c))%nat by (unfold repr_char; repeat case_match; simpl; lia). lia.
Qed.

Lemma get_token_spelled t s rest : spelled t s -> ends_token rest ->
  exists r, get_token (S (length (s ++ rest))) Unquoted [] (s ++ rest) = Some (inr (t, r)) /\ skip_blanks r = skip_blanks rest.
Proof.
  intros [Hb|Hne Hp] Hrest.
  - exists rest. split; [|done]. unfold sdscatrepr. cbn [app]. rewrite <- app_assoc. cbn [app get_token].
    rewrite char_at_cons. simpl (_ || _). cbv iota. simpl (34 =? _). cbv iota. simpl drop. rewrite drop_0.
    rewrite get_token_repr; [done|done|done|]. simpl. rewrite length_app. simpl. pose proof (repr_length t). lia.
  - destruct (get_token_plain (S (length (t ++ rest))) [] t rest Hp Hrest) as (r & ? & ?); [rewrite length_app; lia|]. eauto.
Qed.

Lemma spelled_head t s rest : spelled t s -> skip_blanks (s ++ rest) = s ++ rest /\ char_at (s ++ rest) 0 <> 0.
Proof.
  intros [Hb|Hne Hp]; [done|]. destruct Hp as [|c t Hc Hp]; [done|]. destruct Hc as (? & ? & ?). simpl.
  unfold is_space. rewrite char_at_cons. split; [|lia]. case_match; [lia|done].
Qed.

(** Arguments, each preceded by a space. *)
Definition spaced (ss : list (list Z)) : list Z := concat (cons 32 <$> ss).

Lemma spaced_ends ss : ends_token (spaced ss).
Proof. destruct ss; [by left|right]. eexists. reflexivity. Qed.

Lemma split_loop_spaced ts ss : Forall2 spelled ts ss -> forall fuel p vector,
  (length ss < fuel)%nat -> skip_blanks p = skip_blanks (spaced ss) ->
  split_loop fuel p vector = Some (inr (vector ++ ts)).
Proof.
  induction 1 as [|t s ts ss Hs Hss IH]; intros [|fuel] p vector Hf Hp; simpl in Hf; try lia; cbn [split_loop]; rewrite Hp.
  - by rewrite app_nil_r.
  - unfold spaced. rewrite fmap_cons, concat_cons. cbn [app]. fold (spaced ss).
    destruct (spelled_head t s (spaced ss) Hs) as [Hb Hc].
    change (skip_blanks (32 :: s ++ spaced ss)) with (skip_blanks (s ++ spaced ss)). rewrite Hb.
    rewrite (proj2 (Z.eqb_neq _ _) Hc). destruct (get_token_spelled t s (spaced ss) Hs (spaced_ends ss)) as (r & -> & Hr).
    simpl. rewrite (IH fuel r (vector ++ [t])) by (try done; lia). by rewrite <- app_assoc.
Qed.

(** The line of the arguments [t :: ts] spelled [s :: ss] splits into them. *)
Lemma sdssplitargs_spelled t s ts ss : spelled t s -> Forall2 spelled ts ss ->
  sdssplitargs (s ++ spaced ss) = Some (inr (t :: ts)).
Proof.
  intros Hs Hss. unfold sdssplitargs.
  apply (split_loop_spaced (t :: ts) (s :: ss)); [by constructor| |done].
  rewrite length_app. simpl. assert (length ss <= length (spaced ss))%nat.
  { clear. unfold spaced. induction ss as [|s ss IH]; [done|]. rewrite fmap_cons, concat_cons, length_app. simpl. lia. }
  assert (1 <= length s)%nat; [|lia]. destruct Hs as [|Hne _]; [simpl; lia|]. destruct t; [done|simpl; lia].
Qed.

(** What [sdsneedsrepr] lets through is plain unless it has a single quote. *)
Lemma sdsneedsrepr_plain t : sdsneedsrepr t = false -> Forall (fun c => c <> 39) t -> Forall plain_char t.
Proof.
  unfold sdsneedsrepr. induction t as [|c t IH]; intros Hn Hq; constructor; apply Forall_cons in Hq as [Hq Hqs];
    simpl in Hn; apply orb_false_iff in Hn as [Hc Hn]; [|by apply IH].
  unfold isprint, is_space in Hc. unfold plain_char. lia.
Qed.
