(* ===== verification/Resp.v ===== *)
(** * Reading requests (src/networking.c)

    The query buffer of a client, the parsers of inline and of multi bulk
    requests, and the loop that executes what they find, for a client that sends
    commands and for the link to a primary, whose bytes are passed on to replicas.

    A command is executed by [processCommand], which is not modelled: what it
    changes of the client (authentication, MULTI, closing the connection) is a
    function of the commands executed so far, the record [env].  It does not block
    the client. *)
From S2P Require Import Prelude Numconv Sds.
From Stdlib Require Import ZArith Lia.
From stdpp Require Import prelude list.

#[local] Open Scope Z_scope.

Definition PROTO_IOBUF_LEN : Z := 1024 * 16.
Definition PROTO_INLINE_MAX_SIZE : Z := 1024 * 64.
Definition PROTO_MBULK_BIG_ARG : Z := 1024 * 32.
Definition INT_MAX : Z := 2 ^ 31 - 1.

Inductive request := ReqNone | ReqInline | ReqMultibulk.

Definition command : Type := list (list Z).

(** [shared_cap] is the capacity of the shared buffer, [room q] what can be read into a
    buffer of the client's own that holds [q]; the functions are of the commands
    executed by the client. *)
Record env := Env {
  primary : bool;
  proto_max_bulk_len : Z;
  client_max_querybuf_len : Z;
  shared_cap : Z;
  room : list Z -> Z;
  auth_required : list command -> bool;
  multi_argv_len_sums : list command -> Z;
  multi : list command -> bool;
  closes : list command -> bool }.

(** The request that is being read. *)
Record parser := Parser {
  reqtype : request;
  multibulklen : Z;
  bulklen : Z;
  argv : command;
  argv_len : Z;
  argv_len_sum : Z;
  net_input_bytes_curr_cmd : Z }.

(** [querybuf] is NULL, or its bytes and whether it is the buffer the clients share. *)
Record client := Client {
  querybuf : option (bool * list Z);
  qb_pos : nat;
  prs : parser;
  close_after_reply : bool;
  close_asap : bool;
  reploff : Z;
  read_reploff : Z;
  repl_applied : Z;
  executed : list command;
  counted : list Z;
  fed : list Z }.

Definition argc (p : parser) : Z := Z.of_nat (length (argv p)).

Definition reset_parser : parser := Parser ReqNone 0 (-1) [] 0 0 0.

Definition resetClient (c : client) : client :=
  Client (querybuf c) (qb_pos c) reset_parser (close_after_reply c) (close_asap c) (reploff c) (read_reploff c) (repl_applied c)
    (executed c) (counted c) (fed c).

(** ** Parsing *)

Inductive parse_error :=
  | BigInlineRequest | BigMultibulk | InvalidMultibulkLen | UnauthMultibulkLen | UnauthBulkLen | BigBulkCount
  | UnexpectedCharacter | InvalidBulkLen | UnexpectedInline | UnbalancedQuotes.

(** What the parsers leave in [read_flags]; without a flag more bytes are needed. *)
Inductive parsed := NeedMore | Completed | ZeroQueryLen | NegativeMbulkLen | ParseError (e : parse_error).

(** [strchr] in a C string. *)
Fixpoint find_char (c : Z) (p : list Z) : option nat :=
  match p with
  | [] => None
  | x :: p => if x =? c then Some O else if x =? 0 then None else S <$> find_char c p
  end.

(** The result, the position after it and the parser. *)
Definition processInlineBuffer (is_primary : bool) (q : list Z) (pos : nat) (p : parser) : option (parsed * nat * parser) :=
  let rest := drop pos q in
  match find_char 10 rest with
  | None => Some (if PROTO_INLINE_MAX_SIZE <? Z.of_nat (length rest) then ParseError BigInlineRequest else NeedMore, pos, p)
  | Some nl =>
      let '(querylen, linefeed_chars) :=
        match nl with
        | S k => if char_at rest k =? 13 then (k, 2%nat) else (nl, 1%nat)
        | O => (O, 1%nat)
        end in
      args ← sdssplitargs (take querylen rest);
      match args with
      | inl _ => Some (ParseError UnbalancedQuotes, pos, p)
      | inr args =>
          if negb (bool_decide (querylen = O)) && is_primary then Some (ParseError UnexpectedInline, pos, p)
          else
            let n := Z.of_nat (length args) in
            let '(len, sum) := match args with [] => (argv_len p, argv_len_sum p) | _ => (n, 0) end in
            let sum := sum + Z.of_nat (length (concat args)) in
            Some (if bool_decide (querylen = O) then ZeroQueryLen else Completed, (pos + querylen + linefeed_chars)%nat,
                  Parser (reqtype p) (multibulklen p) (bulklen p) args len sum (sum + (n - 1) + 2))
      end
  end.

(** The buffer while a multi bulk request is read: shared or not, bytes, position. *)
Record qbuf := Qbuf { shared : bool; bytes : list Z; pos : nat }.

Definition rest (b : qbuf) : list Z := drop (pos b) (bytes b).

(** The header of an argument.  A big argument that is not there yet is moved to the start of a buffer of the client's own. *)
Definition bulk_header (is_primary auth : bool) (max : Z) (b : qbuf) (p : parser) : parsed + qbuf * parser :=
  match find_char 13 (rest b) with
  | None => inl (if PROTO_INLINE_MAX_SIZE <? Z.of_nat (length (rest b)) then ParseError BigBulkCount else NeedMore)
  | Some nl =>
      if Z.of_nat (length (rest b)) - 2 <? Z.of_nat nl then inl NeedMore
      else if negb (char_at (rest b) 0 =? 36) then inl (ParseError UnexpectedCharacter)
      else
        let digits := drop 1 (take nl (rest b)) in
        match string2ll digits with
        | None => inl (ParseError InvalidBulkLen)
        | Some ll =>
            if (ll <? 0) || (negb is_primary && (max <? ll)) then inl (ParseError InvalidBulkLen)
            else if (16384 <? ll) && auth then inl (ParseError UnauthBulkLen)
            else
              let b := Qbuf (shared b) (bytes b) (pos b + nl + 2) in
              let b :=
                if negb is_primary && (PROTO_MBULK_BIG_ARG <=? ll) && (Z.of_nat (length (rest b)) <=? ll + 2) then Qbuf false (rest b) 0 else b in
              inr (b, Parser (reqtype p) (multibulklen p) ll (argv p) (argv_len p) (argv_len_sum p)
                        (net_input_bytes_curr_cmd p + Z.of_nat (length digits)))
        end
  end.

(** The argument itself, when it is all there: the bytes at [pos], or the buffer without its last two bytes. *)
Definition bulk_arg (is_primary : bool) (b : qbuf) (p : parser) : option (qbuf * parser) :=
  let n := Z.to_nat (bulklen p) in
  let len :=
    if argv_len p <=? argc p then Z.min (if argv_len p <? INT_MAX / 2 then argv_len p * 2 else INT_MAX) (argc p + multibulklen p) else argv_len p in
  guard (argc p < len);;
  let p' := fun arg => Parser (reqtype p) (multibulklen p - 1) (-1) (argv p ++ [arg]) len (argv_len_sum p + bulklen p) (net_input_bytes_curr_cmd p) in
  if negb is_primary && bool_decide (pos b = O) && (PROTO_MBULK_BIG_ARG <=? bulklen p) && (Z.of_nat (length (bytes b)) =? bulklen p + 2) then
    guard (shared b = false);; Some (Qbuf false [] 0, p' (take n (bytes b)))
  else Some (Qbuf (shared b) (bytes b) (pos b + n + 2), p' (take n (rest b))).

Fixpoint bulk_loop (fuel : nat) (is_primary auth : bool) (max : Z) (b : qbuf) (p : parser) : option (parsed * qbuf * parser) :=
  match fuel with
  | O => None
  | S fuel =>
      if multibulklen p =? 0 then
        Some (Completed, b, Parser (reqtype p) (multibulklen p) (bulklen p) (argv p) (argv_len p) (argv_len_sum p)
                              (net_input_bytes_curr_cmd p + (argv_len_sum p + (argc p * 5 + 2))))
      else
        match (if bulklen p =? -1 then bulk_header is_primary auth max b p else inr (b, p)) with
        | inl flag => Some (flag, b, p)
        | inr (b, p) =>
            if Z.of_nat (length (rest b)) <? bulklen p + 2 then Some (NeedMore, b, p)
            else r ← bulk_arg is_primary b p; bulk_loop fuel is_primary auth max r.1 r.2
        end
  end.

Definition processMultibulkBuffer (is_primary auth : bool) (max : Z) (b : qbuf) (p : parser) : option (parsed * qbuf * parser) :=
  let loop b p := guard (0 < multibulklen p);; bulk_loop (S (length (rest b))) is_primary auth max b p in
  if multibulklen p =? 0 then
    guard (argc p = 0);;
    match find_char 13 (rest b) with
    | None => Some (if PROTO_INLINE_MAX_SIZE <? Z.of_nat (length (rest b)) then ParseError BigMultibulk else NeedMore, b, p)
    | Some nl =>
        if Z.of_nat (length (rest b)) - 2 <? Z.of_nat nl then Some (NeedMore, b, p)
        else
          guard (char_at (rest b) 0 = 42);;
          let digits := drop 1 (take nl (rest b)) in
          match string2ll digits with
          | None => Some (ParseError InvalidMultibulkLen, b, p)
          | Some ll =>
              if INT_MAX <? ll then Some (ParseError InvalidMultibulkLen, b, p)
              else if (10 <? ll) && auth then Some (ParseError UnauthMultibulkLen, b, p)
              else
                let b := Qbuf (shared b) (bytes b) (pos b + nl + 2) in
                if ll <=? 0 then Some (NegativeMbulkLen, b, p)
                else
                  loop b (Parser (reqtype p) ll (bulklen p) (argv p) (Z.min ll 1024) 0
                            (net_input_bytes_curr_cmd p + (Z.of_nat (length digits) + 1)))
          end
    end
  else loop b p.

(** ** The query buffer of a client *)

Definition qb_len (c : client) : nat := match querybuf c with Some (_, q) => length q | None => O end.

Definition set_buf (c : client) (q : option (bool * list Z)) (pos : nat) : client :=
  Client q pos (prs c) (close_after_reply c) (close_asap c) (reploff c) (read_reploff c) (repl_applied c) (executed c) (counted c) (fed c).
Definition set_parser (c : client) (p : parser) : client :=
  Client (querybuf c) (qb_pos c) p (close_after_reply c) (close_asap c) (reploff c) (read_reploff c) (repl_applied c) (executed c) (counted c) (fed c).
Definition set_repl (c : client) (off applied : Z) (f : list Z) : client :=
  Client (querybuf c) (qb_pos c) (prs c) (close_after_reply c) (close_asap c) off (read_reploff c) applied (executed c) (counted c) f.
Definition set_close (c : client) (after asap : bool) : client :=
  Client (querybuf c) (qb_pos c) (prs c) after asap (reploff c) (read_reploff c) (repl_applied c) (executed c) (counted c) (fed c).

(** Only for a client on the shared buffer: it keeps what is left in it, or gives it back. *)
Definition resetSharedQueryBuf (c : client) : option client :=
  match querybuf c with
  | Some (true, q) =>
      guard (qb_pos c <= length q)%nat;;
      Some (if bool_decide (qb_pos c < length q)%nat then set_buf c (Some (false, q)) (qb_pos c) else set_buf c None 0)
  | _ => None
  end.

Definition on_shared (c : client) : bool := match querybuf c with Some (s, _) => s | None => false end.

Definition trimClientQueryBuffer (c : client) : option client :=
  c ← (if on_shared c then resetSharedQueryBuf c else Some c);
  match querybuf c with
  | None => Some c
  | Some (s, q) => guard (qb_pos c <= length q)%nat;; Some (set_buf c (Some (s, drop (qb_pos c) q)) 0)
  end.

(** ** Executing *)

Section Env.
Context (e : env).

Definition parseCommand (c : client) : option (parsed * client) :=
  match querybuf c with
  | None => None
  | Some (s, q) =>
      first ← q !! qb_pos c;
      let p := prs c in
      let type := match reqtype p with ReqNone => if first =? 42 then ReqMultibulk else ReqInline | t => t end in
      let p := Parser type (multibulklen p) (bulklen p) (argv p) (argv_len p) (argv_len_sum p) (net_input_bytes_curr_cmd p) in
      match type with
      | ReqInline => '(flag, pos, p) ← processInlineBuffer (primary e) q (qb_pos c) p; Some (flag, set_parser (set_buf c (Some (s, q)) pos) p)
      | _ =>
          '(flag, b, p) ← processMultibulkBuffer (primary e) (auth_required e (executed c)) (proto_max_bulk_len e) (Qbuf s q (qb_pos c)) p;
          Some (flag, set_parser (set_buf c (Some (shared b, bytes b)) (pos b)) p)
      end
  end.

(** The client, and whether the loop goes on. *)
Definition handleParseResults (flag : parsed) (c : client) : client * bool :=
  match flag with
  | ParseError _ => (set_close c true (close_asap c), false)
  | ZeroQueryLen | NegativeMbulkLen => (resetClient c, true)
  | Completed => (c, true)
  | NeedMore => (c, false)
  end.

(** The client is not blocked. *)
Definition commandProcessed (c : client) : option client :=
  let c := resetClient c in
  if primary e then
    let prev_offset := reploff c in
    let off := if negb (multi e (executed c)) then read_reploff c - Z.of_nat (qb_len c) + Z.of_nat (qb_pos c) else prev_offset in
    let applied := off - prev_offset in
    if applied =? 0 then Some (set_repl c off (repl_applied c) (fed c))
    else
      match querybuf c with
      | Some (_, q) =>
          guard (0 <= repl_applied c /\ 0 <= applied /\ repl_applied c + applied <= Z.of_nat (length q));;
          Some (set_repl c off (repl_applied c + applied)
                  (fed c ++ take (Z.to_nat applied) (drop (Z.to_nat (repl_applied c)) q)))
      | None => None
      end
  else Some c.

(** The command and the bytes counted for it are what [processCommand] sees. *)
Definition processCommand (c : client) : client :=
  let log := executed c ++ [argv (prs c)] in
  Client (querybuf c) (qb_pos c) (prs c) (close_after_reply c || closes e log) (close_asap c) (reploff c) (read_reploff c) (repl_applied c)
    log (counted c ++ [net_input_bytes_curr_cmd (prs c)]) (fed c).

Definition processCommandAndResetClient (c : client) : option client := commandProcessed (processCommand c).

Definition canParseCommand (c : client) : bool := negb (close_after_reply c || close_asap c).

Fixpoint input_loop (fuel : nat) (c : client) : option client :=
  match fuel with
  | O => None
  | S fuel =>
      if (qb_len c <=? qb_pos c)%nat || negb (canParseCommand c) then Some c
      else
        '(flag, c) ← parseCommand c;
        let '(c, ok) := handleParseResults flag c in
        if negb ok then Some c
        else if argc (prs c) =? 0 then input_loop fuel c
        else
          c ← (if on_shared c then resetSharedQueryBuf c else Some c);
          c ← processCommandAndResetClient c;
          input_loop fuel c
  end.

(** Every turn of the loop that goes on moves the position. *)
Definition processInputBuffer (c : client) : option client := input_loop (S (qb_len c - qb_pos c)) c.

(** ** Reading *)

Definition big_arg (c : client) : bool :=
  match reqtype (prs c) with ReqMultibulk => true | _ => false end && negb (multibulklen (prs c) =? 0) && negb (bulklen (prs c) =? -1) &&
  (PROTO_MBULK_BIG_ARG <=? bulklen (prs c)).

(** How much [readToQueryBuf] asks for. *)
Definition readlen (c : client) : Z :=
  match querybuf c with
  | None => if big_arg c then bulklen (prs c) + 2 else shared_cap e
  | Some (_, q) =>
      if big_arg c && negb (primary e) then
        let remaining := bulklen (prs c) + 2 - (Z.of_nat (length q) - Z.of_nat (qb_pos c)) in
        if 0 <? remaining then remaining else PROTO_IOBUF_LEN
      else room e q
  end.

(** [chunk] is what [connRead] returns, not more than [readlen]. *)
Definition readToQueryBuf (chunk : list Z) (c : client) : client * bool :=
  let '(s, q) := match querybuf c with None => (negb (big_arg c), []) | Some b => b end in
  let c := set_buf c (Some (s, q ++ chunk)) (qb_pos c) in
  let memory := Z.of_nat (qb_len c) + multi_argv_len_sums e (executed c) in
  (c, negb (primary e) && ((client_max_querybuf_len e <? memory) || ((1024 * 1024 <? memory) && auth_required e (executed c)))).

(** Whether the buffer can be processed. *)
Definition handleReadResult (chunk : list Z) (limit : bool) (c : client) : client * bool :=
  let c := if primary e then Client (querybuf c) (qb_pos c) (prs c) (close_after_reply c) (close_asap c) (reploff c)
                               (read_reploff c + Z.of_nat (length chunk)) (repl_applied c) (executed c) (counted c) (fed c) else c in
  if limit then (set_close c (close_after_reply c) true, false) else (c, true).

Definition beforeNextClient (c : client) : option client :=
  if primary e then
    match querybuf c with
    | Some (s, q) =>
        if repl_applied c =? 0 then Some c
        else
          guard (0 <= repl_applied c <= Z.of_nat (qb_pos c));;
          Some (set_repl (set_buf c (Some (s, drop (Z.to_nat (repl_applied c)) q)) (qb_pos c - Z.to_nat (repl_applied c))) (reploff c) 0 (fed c))
    | None => None
    end
  else trimClientQueryBuffer c.

(** A client that is to be closed is not read again. *)
Definition readQueryFromClient (chunk : list Z) (c : client) : option client :=
  if close_asap c then Some c
  else
    let '(c, limit) := readToQueryBuf chunk c in
    let '(c, ok) := handleReadResult chunk limit c in
    c ← (if ok : bool then processInputBuffer c else Some c);
    beforeNextClient c.

(** Reads of a stream: the socket has [S n] bytes more each time, or what is left. *)
Fixpoint read_stream (sizes : list nat) (stream : list Z) (c : client) : option (client * list Z) :=
  match sizes with
  | [] => Some (c, stream)
  | n :: sizes =>
      match stream with
      | [] => Some (c, [])
      | _ =>
          let k := Nat.min (S n) (Z.to_nat (readlen c)) in
          c ← readQueryFromClient (take k stream) c;
          read_stream sizes (drop k stream) c
      end
  end.
End Env.

(** A client after [createClient], and one for the primary with a buffer of its own. *)
Definition new_client : client := Client None 0 reset_parser false false 0 0 0 [] [] [].
Definition new_primary (offset : Z) : client := Client (Some (false, [])) 0 reset_parser false false offset offset 0 [] [] [].
