(* ===== verification/RespSpec.v ===== *)
(** * Multi bulk requests and the bytes that spell them

    A request is its arguments; [encode] spells it.  Reading one from a buffer
    that holds any part of it either completes it or stops at a point from which
    the bytes that follow complete it ([pending]). *)
From S2P Require Import Prelude Numconv NumconvSpec Sds Resp.
From Stdlib Require Import ZArith Lia.
From stdpp Require Import prelude list.

#[local] Open Scope Z_scope.

Definition crlf : list Z := [13; 10].

Definition zlen (l : list Z) : Z := Z.of_nat (length l).

Definition bulk (a : list Z) : list Z := 36 :: decimal_signed (zlen a) ++ crlf ++ a ++ crlf.
Definition bulks (l : command) : list Z := concat (bulk <$> l).
Definition encode (cmd : command) : list Z := 42 :: decimal_signed (Z.of_nat (length cmd)) ++ crlf ++ bulks cmd.

Lemma bulks_cons a l : bulks (a :: l) = bulk a ++ bulks l.
Proof. done. Qed.

(** Decide a comparison that is the outermost test. *)
Ltac settle := symmetry; first [apply Z.ltb_lt; lia | apply Z.ltb_ge; lia | apply Z.leb_le; lia | apply Z.leb_gt; lia | apply Z.eqb_eq; lia | apply Z.eqb_neq; lia | lia].
Ltac branch v :=
  lazymatch goal with
  | |- (if ?c then _ else _) = _ => replace c with v by settle
  | |- ?f (if ?c then _ else _) = _ => replace c with v by settle
  | |- context [if ?c then _ else _] => replace c with v by settle
  end; cbv iota.

(** ** Headers *)

(** A header: a character, digits and the end of line. *)
Definition word (w : list Z) : Prop := Forall (fun c => c <> 13 /\ c <> 0) w.

Lemma find_char_word w r todo tail : word w -> r ++ todo = w ++ crlf ++ tail -> find_char 13 r = if decide (length w < length r)%nat then Some (length w) else None.
Proof.
  intros Hw. revert r. induction Hw as [|c w [Hc H0] _ IH]; intros r Heq.
  - destruct r as [|x r]; [done|]. injection Heq as -> _. done.
  - destruct r as [|x r]; [done|]. injection Heq as -> Heq. cbn [find_char length]. rewrite (proj2 (Z.eqb_neq _ _) Hc), (proj2 (Z.eqb_neq _ _) H0), (IH r Heq).
    repeat case_decide; try done; lia.
Qed.

Lemma split_header w r todo tail : r ++ todo = w ++ crlf ++ tail -> (length w + 2 <= length r)%nat ->
  exists r', r = w ++ crlf ++ r' /\ r' ++ todo = tail.
Proof.
  intros Heq Hlen. rewrite app_assoc in Heq. destruct (app_eq_inv _ _ _ _ Heq) as [(k & Hk & Ht)|(k & Hk & Ht)].
  - exists k. rewrite <- app_assoc in Hk. done.
  - apply (f_equal length) in Hk. rewrite !length_app in Hk. simpl in Hk. destruct k as [|x k]; [|simpl in Hk; lia].
    exists []. rewrite app_nil_r in *. simpl in Hk, Ht. subst.
    split; [|done]. apply (f_equal (take (length r))) in Heq. rewrite take_app_length in Heq.
    rewrite take_app_le in Heq by (rewrite length_app; simpl; lia). rewrite take_ge in Heq by (rewrite length_app; simpl; lia). done.
Qed.

Lemma decimal_word v : 0 <= v < 2 ^ 63 -> word (decimal_signed v) /\ (length (decimal_signed v) <= 19)%nat /\ string2ll (decimal_signed v) = Some v.
Proof.
  intros Hv. split_and!.
  - unfold decimal_signed. replace (v <? 0) with false by lia. eapply Forall_impl; [apply decimal_digits; lia|]. intros c Hc. unfold digit in Hc. lia.
  - unfold decimal_signed. replace (v <? 0) with false by lia. apply decimal_length_le. lia.
  - apply string2ll_spec. split; [unfold fits_s; lia|done].
Qed.

(** ** Buffers *)

(** The shared buffer is too small for a big argument. *)
Definition buf_ok (b : qbuf) : Prop := (pos b <= length (bytes b))%nat /\ (shared b = true -> zlen (bytes b) < PROTO_MBULK_BIG_ARG).

Lemma rest_length b : buf_ok b -> (length (rest b) = length (bytes b) - pos b)%nat.
Proof. intros _. unfold rest. by rewrite length_drop. Qed.

Lemma rest_advance b k : drop k (rest b) = rest (Qbuf (shared b) (bytes b) (pos b + k)).
Proof. unfold rest. cbn [bytes pos]. by rewrite drop_drop. Qed.

Lemma advance_ok b k : buf_ok b -> (k <= length (rest b))%nat -> buf_ok (Qbuf (shared b) (bytes b) (pos b + k)).
Proof. intros Hb Hk. rewrite (rest_length b Hb) in Hk. destruct Hb as [H1 H2]. split; cbn [pos bytes shared]; [lia|done]. Qed.

Section Header.
Context (is_primary : bool) (max : Z).

Definition set_bulklen (p : parser) (n net : Z) : parser :=
  Parser (reqtype p) (multibulklen p) n (argv p) (argv_len p) (argv_len_sum p) net.

Definition arg_ok (a : list Z) : Prop := zlen a < 2 ^ 63 /\ (is_primary = false -> zlen a <= max).

Lemma bulk_header_partial b p a todo tail : arg_ok a -> rest b ++ todo = bulk a ++ tail ->
  (length (rest b) < length (decimal_signed (zlen a)) + 3)%nat -> bulk_header is_primary false max b p = inl NeedMore.
Proof.
  intros [Ha _] Heq Hlen. destruct (decimal_word (zlen a)) as (Hw & Hl & _); [unfold zlen in *; lia|].
  unfold bulk in Heq. rewrite <- app_comm_cons, <- !app_assoc in Heq. unfold bulk_header.
  rewrite (find_char_word (36 :: decimal_signed (zlen a)) (rest b) todo (a ++ crlf ++ tail)) by (try done; by constructor).
  case_decide as Hd.
  - cbn [length] in Hd |- *. by branch true.
  - unfold PROTO_INLINE_MAX_SIZE. by branch false.
Qed.

Lemma bulk_header_full b p a todo tail : buf_ok b -> arg_ok a -> rest b ++ todo = bulk a ++ tail ->
  (length (decimal_signed (zlen a)) + 3 <= length (rest b))%nat ->
  exists b', bulk_header is_primary false max b p = inr (b', set_bulklen p (zlen a) (net_input_bytes_curr_cmd p + Z.of_nat (length (decimal_signed (zlen a))))) /\
    buf_ok b' /\ rest b' ++ todo = a ++ crlf ++ tail /\ (length (rest b') < length (rest b))%nat.
Proof.
  intros Hb [Ha Hmax] Heq Hlen. destruct (decimal_word (zlen a)) as (Hw & Hl & Hll); [unfold zlen in *; lia|].
  set (ds := decimal_signed (zlen a)) in *. unfold bulk in Heq. fold ds in Heq. rewrite <- app_comm_cons, <- !app_assoc in Heq.
  assert (Hw' : word (36 :: ds)) by (by constructor).
  destruct (split_header (36 :: ds) (rest b) todo (a ++ crlf ++ tail) Heq) as (r' & Hr & Hr'); [cbn [length]; lia|].
  unfold bulk_header. rewrite (find_char_word (36 :: ds) (rest b) todo (a ++ crlf ++ tail)) by done.
  assert (Hn : length (36 :: ds) = S (length ds)) by done. rewrite decide_True by lia. branch false.
  assert (Hdig : drop 1 (take (length (36 :: ds)) (rest b)) = ds) by (rewrite Hr; by rewrite take_app_length).
  assert (Hfst : char_at (rest b) 0 = 36) by (by rewrite Hr). rewrite Hfst, Hdig, Hll. cbn [negb Z.eqb Pos.eqb].
  replace ((zlen a <? 0) || (negb is_primary && (max <? zlen a))) with false by (destruct is_primary; unfold zlen in *; simpl; lia).
  rewrite andb_false_r. set (b1 := Qbuf (shared b) (bytes b) (pos b + length (36 :: ds) + 2)).
  assert (Hb1 : rest b1 = r').
  { unfold b1. rewrite <- Nat.add_assoc, <- rest_advance, Hr, app_assoc. apply drop_app_length'. rewrite length_app. done. }
  assert (Hok1 : buf_ok b1). { unfold b1. rewrite <- Nat.add_assoc. apply advance_ok; [done|]. cbn [length]. lia. }
  assert (Hshort : (length r' < length (rest b))%nat) by (rewrite Hr; rewrite !length_app; simpl; lia).
  match goal with |- context [if ?c then Qbuf false (rest b1) 0 else b1] => destruct c end; eexists; (split; [reflexivity|]); rewrite ?Hb1.
  - split_and!; [split; [cbn; lia|done]|done|done].
  - by split_and!.
Qed.
End Header.

(** ** A request that is being read *)

Definition headers (l : command) : list Z := concat ((fun a => decimal_signed (zlen a)) <$> l).

Lemma headers_app l l' : headers (l ++ l') = headers l ++ headers l'.
Proof. unfold headers. by rewrite fmap_app, concat_app. Qed.

(** What is still to come: the arguments [l], the first without its header when that has been read. *)
Definition needed (p : parser) (l : command) : list Z :=
  match l with
  | [] => []
  | a :: l' => if bulklen p =? -1 then bulks l else a ++ crlf ++ bulks l'
  end.

Record reading (cmd : command) (p : parser) (l : command) : Prop := {
  rd_type : reqtype p = ReqMultibulk;
  rd_cmd : cmd = argv p ++ l;
  rd_count : multibulklen p = Z.of_nat (length l);
  rd_bulk : bulklen p = -1 \/ exists a l', l = a :: l' /\ bulklen p = zlen a;
  rd_room : 1 <= argv_len p /\ argc p <= argv_len p;
  rd_sum : argv_len_sum p = zlen (concat (argv p));
  rd_net : net_input_bytes_curr_cmd p =
    1 + zlen (decimal_signed (Z.of_nat (length cmd))) + zlen (headers (argv p ++ (if bulklen p =? -1 then [] else take 1 l))) }.

Lemma bulks_length l : zlen (bulks l) = zlen (headers l) + zlen (concat l) + 5 * Z.of_nat (length l).
Proof.
  induction l as [|a l IH]; [done|]. rewrite bulks_cons. unfold bulk, headers, zlen in *. cbn [fmap list_fmap concat].
  rewrite !length_app. cbn [length]. rewrite !length_app. cbn [length crlf]. unfold headers in IH. lia.
Qed.

Lemma encode_length cmd : zlen (encode cmd) =
  1 + zlen (decimal_signed (Z.of_nat (length cmd))) + zlen (headers cmd) + (zlen (concat cmd) + (Z.of_nat (length cmd) * 5 + 2)).
Proof. unfold encode. pose proof (bulks_length cmd) as Hb. unfold zlen in *. cbn [length]. rewrite !length_app. cbn [length crlf]. lia. Qed.

Section Loop.
Context (is_primary : bool) (max : Z) (cmd : command) (todo tail : list Z).
Context (Hargs : Forall (arg_ok is_primary max) cmd) (Hcount : Z.of_nat (length cmd) <= INT_MAX).

Lemma bulk_arg_ok b p a l : buf_ok b -> reading cmd p (a :: l) -> bulklen p = zlen a -> rest b ++ todo = (a ++ crlf) ++ bulks l ++ tail ->
  (length a + 2 <= length (rest b))%nat ->
  exists b' p', bulk_arg is_primary b p = Some (b', p') /\ buf_ok b' /\ reading cmd p' l /\ bulklen p' = -1 /\
    rest b' ++ todo = bulks l ++ tail /\ (length (rest b') < length (rest b))%nat.
Proof.
  intros Hb Hp Hbl Heq Hlen. destruct Hp as [Ht Hcmd Hc _ [Hr1 Hr2] Hs Hn]. unfold bulk_arg. rewrite Hbl.
  replace (Z.to_nat (zlen a)) with (length a) by (unfold zlen; lia).
  assert (Htot : argc p + multibulklen p <= INT_MAX). { unfold argc. rewrite Hc, Hcmd, length_app in *. lia. }
  assert (Hpos : 1 <= multibulklen p) by (rewrite Hc; cbn [length]; lia).
  match goal with |- context [guard (argc p < ?n)] => set (len := n) end.
  assert (Hlt : argc p < len).
  { unfold len. destruct (Z.leb_spec (argv_len p) (argc p)); [|lia]. destruct (Z.ltb_spec (argv_len p) (INT_MAX / 2)); lia. }
  rewrite (option_guard_True _ _ Hlt). assert (Hne : (zlen a =? -1) = false) by (apply Z.eqb_neq; unfold zlen; lia).
  assert (Hrd : forall arg, arg = a -> reading cmd
    (Parser (reqtype p) (multibulklen p - 1) (-1) (argv p ++ [arg]) len (argv_len_sum p + zlen a) (net_input_bytes_curr_cmd p)) l).
  { intros arg ->. split; cbn [reqtype multibulklen bulklen argv argv_len argv_len_sum net_input_bytes_curr_cmd].
    - done. - by rewrite Hcmd, <- app_assoc. - rewrite Hc. cbn [length]. lia. - by left.
    - unfold argc in *. cbn [argv]. rewrite length_app. cbn [length]. lia.
    - rewrite Hs, concat_app. unfold zlen. rewrite length_app. cbn [concat]. rewrite app_nil_r. lia.
    - rewrite Hn, Hbl, Hne. cbn [take]. by rewrite Z.eqb_refl, app_nil_r. }
  assert (Htake : take (length a) (rest b) = a).
  { rewrite <- (take_app_le _ todo) by lia. rewrite Heq, <- app_assoc. apply take_app_length. }
  match goal with |- context [if ?c then _ else _] => destruct c eqn:Hc' end.
  - repeat (apply andb_prop in Hc' as [Hc' ?]). apply bool_decide_eq_true in H1. apply Z.eqb_eq in H. apply Z.leb_le in H0.
    rewrite option_guard_True by (destruct Hb as [_ Hb]; destruct (shared b); [specialize (Hb eq_refl); unfold zlen in *; lia|done]).
    assert (Hwhole : rest b = bytes b) by (unfold rest; by rewrite H1).
    eexists _, _. split; [reflexivity|]. split_and!; [by split|apply Hrd; by rewrite <- Hwhole|done| |rewrite Hwhole; unfold rest, zlen in *; cbn; lia].
    unfold rest at 1. cbn. apply (f_equal (drop (length (rest b)))) in Heq. rewrite drop_app_length in Heq.
    rewrite Heq. apply drop_app_length'. rewrite length_app, Hwhole. unfold zlen in *. cbn [length crlf]. lia.
  - eexists _, _. split; [reflexivity|]. rewrite <- Nat.add_assoc. split_and!; [by apply advance_ok|by apply Hrd|done| |].
    + rewrite <- rest_advance, <- (drop_app_le _ todo) by lia. rewrite Heq. apply drop_app_length'. rewrite length_app. done.
    + rewrite <- rest_advance, length_drop. lia.
Qed.

Lemma needed_full p a l : bulklen p = zlen a -> needed p (a :: l) = (a ++ crlf) ++ bulks l.
Proof. intros H. unfold needed. rewrite H, (proj2 (Z.eqb_neq _ _)) by (unfold zlen; lia). by rewrite app_assoc. Qed.

Lemma reading_arg p a l : reading cmd p (a :: l) -> arg_ok is_primary max a.
Proof. intros Hp. rewrite (rd_cmd _ _ _ Hp) in Hargs. apply Forall_app in Hargs as [_ H]. by apply Forall_cons in H as [? _]. Qed.

Lemma header_ok b p a l : buf_ok b -> reading cmd p (a :: l) -> bulklen p = -1 -> rest b ++ todo = needed p (a :: l) ++ tail ->
  (bulk_header is_primary false max b p = inl NeedMore /\ (length (rest b) < length (needed p (a :: l)))%nat) \/
  exists b' p', bulk_header is_primary false max b p = inr (b', p') /\ buf_ok b' /\ reading cmd p' (a :: l) /\ bulklen p' = zlen a /\
    rest b' ++ todo = needed p' (a :: l) ++ tail /\ (length (rest b') < length (rest b))%nat.
Proof.
  intros Hb Hp Hbl Heq. pose proof (reading_arg _ _ _ Hp) as Ha.
  assert (Hnd : needed p (a :: l) = bulk a ++ bulks l) by (unfold needed; by rewrite Hbl). rewrite Hnd, <- app_assoc in Heq.
  destruct (Nat.ltb_spec (length (rest b)) (length (decimal_signed (zlen a)) + 3)) as [Hlt|Hge].
  - left. split; [by eapply bulk_header_partial|]. rewrite Hnd, length_app. unfold bulk. cbn [length]. rewrite !length_app. cbn [length crlf]. lia.
  - right. destruct (bulk_header_full is_primary max b p a todo (bulks l ++ tail)) as (b' & Hh & Hb' & Hr & Hl); [done..|].
    eexists b', _. split; [done|]. split_and!; [done| |done| |done].
    + destruct Hp as [Ht Hcmd Hc _ Hroom Hs Hn].
      split; cbn [set_bulklen reqtype multibulklen bulklen argv argv_len argv_len_sum net_input_bytes_curr_cmd]; try done; [by eauto|].
      rewrite Hn, Hbl, (proj2 (Z.eqb_neq (zlen a) (-1))) by (unfold zlen; lia). cbn [Z.eqb Pos.eqb take]. rewrite app_nil_r, headers_app.
      replace (headers (a :: take 0 l)) with (decimal_signed (zlen a)) by (unfold headers; cbn; by rewrite app_nil_r). unfold zlen. rewrite length_app. lia.
    + rewrite needed_full by done. rewrite Hr. by rewrite <- !app_assoc.
Qed.

Definition finished (flag : parsed) (b : qbuf) (p : parser) : Prop :=
  flag = Completed /\ argv p = cmd /\ net_input_bytes_curr_cmd p = zlen (encode cmd) /\ rest b ++ todo = tail.
Definition stopped (flag : parsed) (b : qbuf) (p : parser) : Prop :=
  flag = NeedMore /\ exists l, reading cmd p l /\ rest b ++ todo = needed p l ++ tail /\ (length (rest b) < length (needed p l))%nat.

(** The loop ends, with the request or with what is needed to go on. *)
Lemma bulk_loop_ok fuel b p l : buf_ok b -> reading cmd p l -> rest b ++ todo = needed p l ++ tail -> (length (rest b) < fuel)%nat ->
  exists flag b' p', bulk_loop fuel is_primary false max b p = Some (flag, b', p') /\ buf_ok b' /\ (length (rest b') <= length (rest b))%nat /\
    (finished flag b' p' \/ stopped flag b' p').
Proof.
  revert b p l. induction fuel as [|fuel IH]; intros b p l Hb Hp Heq Hf; [lia|]. cbn [bulk_loop]. destruct l as [|a l].
  - destruct Hp as [_ Hcmd Hc Hbl _ Hs Hn]. rewrite Hc. cbn [length Z.of_nat Z.eqb]. eexists _, _, _. split; [reflexivity|].
    split_and!; [done|lia|left]. rewrite app_nil_r in Hcmd. destruct Hbl as [Hbl|(? & ? & ? & _)]; [|done].
    split_and!; cbn [argv net_input_bytes_curr_cmd]; [done..| |done]. unfold argc. rewrite encode_length, Hn, Hs, Hbl, Hcmd. cbn. rewrite app_nil_r. lia.
  - rewrite (proj2 (Z.eqb_neq (multibulklen p) 0)) by (rewrite (rd_count _ _ _ Hp); cbn [length]; lia).
    assert (Harg : forall b p, buf_ok b -> reading cmd p (a :: l) -> bulklen p = zlen a -> rest b ++ todo = needed p (a :: l) ++ tail ->
      (length (rest b) < S fuel)%nat -> exists flag b' p', (if Z.of_nat (length (rest b)) <? bulklen p + 2 then Some (NeedMore, b, p)
        else r ← bulk_arg is_primary b p; bulk_loop fuel is_primary false max r.1 r.2) = Some (flag, b', p') /\
        buf_ok b' /\ (length (rest b') <= length (rest b))%nat /\ (finished flag b' p' \/ stopped flag b' p')).
    { clear b p Hb Hp Heq Hf. intros b p Hb Hp Hbl Heq Hf. pose proof (needed_full p a l Hbl) as Hnd. rewrite Hbl. unfold zlen.
      destruct (Z.ltb_spec (Z.of_nat (length (rest b))) (Z.of_nat (length a) + 2)).
      - eexists _, _, _. split; [reflexivity|]. split_and!; [done|lia|right]. split; [done|]. exists (a :: l). split_and!; [done..|].
        rewrite Hnd, !length_app. cbn [length crlf]. lia.
      - rewrite Hnd, <- app_assoc in Heq. destruct (bulk_arg_ok b p a l) as (b1 & p1 & -> & Hb1 & Hp1 & Hm & Hr1 & Hl1); [done..|lia|].
        cbn [mbind option_bind fst snd]. destruct (IH b1 p1 l) as (flag & b2 & p2 & Hrun & Hb2 & Hl2 & Hend); [done..| |lia|].
        { rewrite Hr1. unfold needed. rewrite Hm. by destruct l. }
        eexists _, _, _. split; [done|]. split_and!; [done|lia|done]. }
    destruct (rd_bulk _ _ _ Hp) as [Hbl|(a' & l' & [= <- <-] & Hbl)].
    + rewrite Hbl, Z.eqb_refl. destruct (header_ok b p a l) as [[-> Hlt]|(b1 & p1 & -> & Hb1 & Hp1 & Hbl1 & Hr1 & Hl1)]; [done..| |].
      * eexists _, _, _. split; [reflexivity|]. split_and!; [done|lia|right]. split; [done|]. by exists (a :: l).
      * destruct (Harg b1 p1) as (flag & b2 & p2 & Hrun & Hb2 & Hl2 & Hend); [done..|lia|]. eexists _, _, _. split; [done|]. split_and!; [done|lia|done].
    + rewrite (proj2 (Z.eqb_neq (bulklen p) (-1))) by (unfold zlen in *; lia). by apply Harg.
Qed.

(** The parser after the first byte of a request. *)
Definition starting : parser := Parser ReqMultibulk 0 (-1) [] 0 0 0.

(** [need] is what completes the request. *)
Inductive pending (p : parser) (need : list Z) : Prop :=
  | pending_start : p = reset_parser \/ p = starting -> need = encode cmd -> pending p need
  | pending_args l : reading cmd p l -> l <> [] -> need = needed p l -> pending p need.

Definition waiting (flag : parsed) (b : qbuf) (p : parser) : Prop :=
  flag = NeedMore /\ exists need, pending p need /\ rest b ++ todo = need ++ tail /\ (length (rest b) < length need)%nat.

Lemma stopped_waiting flag b p : stopped flag b p -> waiting flag b p.
Proof.
  intros (-> & l & Hp & Heq & Hl). split; [done|]. exists (needed p l). split_and!; [|done..].
  apply (pending_args _ _ l); [done| |done]. intros ->. simpl in Hl. lia.
Qed.

Lemma needed_le p l : reading cmd p l -> (length (needed p l) <= length (bulks l))%nat.
Proof. intros _. destruct l as [|a l]; [done|]. unfold needed. case_match; [done|]. rewrite bulks_cons. unfold bulk. rewrite !length_app. cbn [length]. rewrite !length_app. lia. Qed.

Lemma pending_le p need : pending p need -> (length need <= length (encode cmd))%nat.
Proof.
  intros [_ ->|l Hp _ ->]; [done|]. etransitivity; [by eapply needed_le|]. unfold encode. rewrite (rd_cmd _ _ _ Hp). unfold bulks.
  rewrite fmap_app, concat_app. cbn [length]. rewrite !length_app. lia.
Qed.

Lemma pending_nonempty p need : pending p need -> need <> [].
Proof. intros [_ ->|l Hp Hl ->]; [done|]. destruct l as [|a l]; [done|]. unfold needed. case_match; [done|]. by destruct a. Qed.

Context (Hsome : cmd <> []).

Lemma multibulk_start b : buf_ok b -> rest b ++ todo = encode cmd ++ tail ->
  exists flag b' p', processMultibulkBuffer is_primary false max b starting = Some (flag, b', p') /\ buf_ok b' /\ (length (rest b') <= length (rest b))%nat /\
    (finished flag b' p' \/ waiting flag b' p').
Proof.
  intros Hb Heq. pose proof Heq as Henc. set (n := Z.of_nat (length cmd)) in *. assert (Hn : 1 <= n) by (unfold n; destruct cmd; simpl; [done|lia]).
  destruct (decimal_word n) as (Hw & Hl & Hll); [unfold INT_MAX in *; lia|]. set (ds := decimal_signed n) in *.
  assert (Hw' : word (42 :: ds)) by (by constructor). assert (Hds : length (42 :: ds) = S (length ds)) by done.
  unfold encode in Heq. fold n ds in Heq. rewrite <- app_comm_cons, <- !app_assoc in Heq. unfold processMultibulkBuffer.
  cbn [starting multibulklen Z.eqb]. rewrite (option_guard_True _ _ (eq_refl : argc starting = 0)), (find_char_word (42 :: ds) (rest b) todo (bulks cmd ++ tail)) by done.
  assert (Hwait : (length (rest b) < length ds + 3)%nat -> buf_ok b /\ (length (rest b) <= length (rest b))%nat /\ (finished NeedMore b starting \/ waiting NeedMore b starting)).
  { intros Hlt. split_and!; [done|done|right]. split; [done|]. exists (encode cmd). split_and!; [by apply pending_start; [right|]|done|].
    unfold encode. fold n ds. cbn [length]. rewrite !length_app. cbn [length crlf]. lia. }
  case_decide as Hd; [|eexists _, _, _; split; [|apply Hwait; lia]; unfold PROTO_INLINE_MAX_SIZE; by replace (_ <? _) with false by settle].
  destruct (Nat.ltb_spec (length (rest b)) (length ds + 3)) as [Hlt|Hge]; [eexists _, _, _; split; [|by apply Hwait]; by branch true|]. branch false.
  destruct (split_header (42 :: ds) (rest b) todo (bulks cmd ++ tail) Heq) as (r' & Hr & Hr'); [lia|].
  rewrite option_guard_True by (by rewrite Hr). assert (Hdig : drop 1 (take (length (42 :: ds)) (rest b)) = ds) by (rewrite Hr; by rewrite take_app_length).
  rewrite Hdig, Hll, andb_false_r. replace (INT_MAX <? n) with false by settle. replace (n <=? 0) with false by settle.
  rewrite option_guard_True by (cbn; lia). set (b1 := Qbuf (shared b) (bytes b) (pos b + length (42 :: ds) + 2)).
  assert (Hb1 : rest b1 = r').
  { unfold b1. rewrite <- Nat.add_assoc, <- rest_advance, Hr, app_assoc. apply drop_app_length'. rewrite length_app. done. }
  match goal with |- context [bulk_loop _ _ _ _ b1 ?p] => set (p1 := p) end.
  destruct (bulk_loop_ok (S (length (rest b1))) b1 p1 cmd) as (flag & b' & p' & Hrun & Hb' & Hl' & Hend).
  - unfold b1. rewrite <- Nat.add_assoc. apply advance_ok; [done|]. lia.
  - split; cbn; [done..|by left|unfold argc; cbn; lia|done|]. unfold zlen. fold n ds. cbn [length]. lia.
  - rewrite Hb1, Hr'. unfold needed. cbn. by destruct cmd.
  - lia.
  - exists flag, b', p'. split; [done|]. split_and!; [done| |destruct Hend; [by left|right; by apply stopped_waiting]].
    rewrite Hb1 in Hl'. rewrite Hr, !length_app. lia.
Qed.

(** From any point of a request. *)
Lemma multibulk_ok b p need : buf_ok b -> pending p need -> reqtype p = ReqMultibulk -> rest b ++ todo = need ++ tail ->
  exists flag b' p', processMultibulkBuffer is_primary false max b p = Some (flag, b', p') /\ buf_ok b' /\ (length (rest b') <= length (rest b))%nat /\
    (finished flag b' p' \/ waiting flag b' p').
Proof.
  intros Hb Hp Ht Heq. destruct Hp as [[->| ->] ->|l Hp Hl ->]; [done|by apply multibulk_start|].
  assert (Hm : 0 < multibulklen p) by (rewrite (rd_count _ _ _ Hp); destruct l; simpl; [done|lia]).
  unfold processMultibulkBuffer. rewrite (proj2 (Z.eqb_neq _ _)) by lia. rewrite option_guard_True by done.
  destruct (bulk_loop_ok (S (length (rest b))) b p l) as (flag & b' & p' & Hrun & Hb' & Hl' & Hend); [done..|lia|].
  exists flag, b', p'. split_and!; [done..|]. destruct Hend; [by left|right; by apply stopped_waiting].
Qed.
End Loop.
