(* ===== verification/RespRun.v ===== *)
(** * Serving a pipeline of requests

    A client that sends requests one after the other, its stream cut into reads of
    any sizes: the commands executed are those whose bytes have all arrived, each
    once and in order. *)
From S2P Require Import Prelude Numconv NumconvSpec Sds SdsSpec Resp RespSpec.
From Stdlib Require Import ZArith Lia.
From stdpp Require Import prelude list.

#[local] Open Scope Z_scope.

Definition stream (cmds : list command) : list Z := concat (encode <$> cmds).

Lemma stream_app l l' : stream (l ++ l') = stream l ++ stream l'.
Proof. unfold stream. by rewrite fmap_app, concat_app. Qed.

(** ** The buffer of a client *)

Definition crest (c : client) : list Z := match querybuf c with Some (_, q) => drop (qb_pos c) q | None => [] end.

Definition cbuf_ok (c : client) : Prop :=
  match querybuf c with Some (s, q) => buf_ok (Qbuf s q (qb_pos c)) | None => qb_pos c = O end.

Lemma crest_length c : (length (crest c) = qb_len c - qb_pos c)%nat.
Proof. unfold crest, qb_len. destruct (querybuf c) as [[s q]|]; [by rewrite length_drop|done]. Qed.

(** Only the buffer differs. *)
Definition same_but_buf (c c' : client) : Prop := c' = set_buf c (querybuf c') (qb_pos c').

Lemma unshare c : cbuf_ok c -> exists c', (if on_shared c then resetSharedQueryBuf c else Some c) = Some c' /\
  same_but_buf c c' /\ crest c' = crest c /\ cbuf_ok c' /\ on_shared c' = false.
Proof.
  intros Hc. unfold cbuf_ok in Hc. destruct (querybuf c) as [[[] q]|] eqn:Hq; unfold on_shared at 1, resetSharedQueryBuf; rewrite Hq.
  - destruct Hc as [Hp _]. cbn [pos bytes] in Hp. rewrite option_guard_True by done. eexists. split; [reflexivity|].
    case_bool_decide as Hlt; unfold same_but_buf, crest, cbuf_ok; rewrite Hq; cbn; split_and!; try done.
    by rewrite drop_ge by lia.
  - exists c. unfold cbuf_ok, same_but_buf, on_shared. rewrite Hq. split_and!; try done. rewrite <- Hq. by destruct c.
  - exists c. unfold cbuf_ok, same_but_buf, on_shared. rewrite Hq. split_and!; try done. rewrite <- Hq. by destruct c.
Qed.

Lemma trim_ok c : cbuf_ok c -> exists c', trimClientQueryBuffer c = Some c' /\ same_but_buf c c' /\ crest c' = crest c /\ cbuf_ok c' /\
  on_shared c' = false /\ qb_pos c' = O.
Proof.
  intros Hc. unfold trimClientQueryBuffer. destruct (unshare c Hc) as (c1 & -> & Hs & Hr & Hb & Hsh). cbn [mbind option_bind].
  unfold cbuf_ok in Hb. destruct (querybuf c1) as [[s q]|] eqn:Hq; [|exists c1; unfold cbuf_ok; by rewrite Hq].
  destruct Hb as [Hp Hcap]. cbn [pos bytes shared] in Hp, Hcap. rewrite option_guard_True by done. eexists. split; [reflexivity|].
  rewrite Hs. unfold same_but_buf, crest, cbuf_ok, on_shared in *. rewrite Hq in *. cbn. rewrite Hsh in *. rewrite <- Hr. split_and!; try done. split; cbn; [lia|done].
Qed.

(** ** Serving *)

(** A client with the access rights for what it sends, that no command disconnects; [n] bounds the bytes it sends. *)
Record serves (e : env) (n : nat) : Prop := {
  sv_client : primary e = false;
  sv_auth : forall log, auth_required e log = false;
  sv_stays : forall log, closes e log = false;
  sv_shared : 1 <= shared_cap e < PROTO_MBULK_BIG_ARG;
  sv_room : forall q, 1 <= room e q;
  sv_limit : forall log, Z.of_nat n + multi_argv_len_sums e log <= client_max_querybuf_len e }.

Definition request_ok (e : env) (cmd : command) : Prop :=
  cmd <> [] /\ Z.of_nat (length cmd) <= INT_MAX /\ Forall (fun a => zlen a < 2 ^ 63 /\ zlen a <= proto_max_bulk_len e) cmd.

Section Serving.
Context (e : env) (cmds : list command).
Context (He : serves e (length (stream cmds))) (Hcmds : Forall (request_ok e) cmds).

(** After [k] requests, with [todo] still to arrive. *)
Record serving (k : nat) (todo : list Z) (c : client) : Prop := {
  sg_open : close_after_reply c = false /\ close_asap c = false;
  sg_buf : cbuf_ok c;
  sg_count : (k <= length cmds)%nat;
  sg_log : executed c = take k cmds;
  sg_bytes : counted c = (fun cmd => zlen (encode cmd)) <$> take k cmds;
  sg_next : match drop k cmds with
            | [] => prs c = reset_parser /\ crest c ++ todo = []
            | cmd :: l => exists need, pending cmd (prs c) need /\ crest c ++ todo = need ++ stream l
            end }.

(** The next request is not all there. *)
Definition settled (k : nat) (todo : list Z) : Prop := (k < length cmds)%nat -> (length (stream (drop (S k) cmds)) < length todo)%nat.

Lemma request_args cmd : request_ok e cmd -> Forall (arg_ok (primary e) (proto_max_bulk_len e)) cmd.
Proof. intros (_ & _ & H). eapply Forall_impl; [exact H|]. intros a [H1 H2]. by split. Qed.

(** The parser once the type of the request is known. *)
Definition typed (x : Z) (p p' : parser) : Prop := (reqtype p = ReqMultibulk /\ p' = p) \/ (p = reset_parser /\ x = 42 /\ p' = starting).

Lemma parseCommand_multibulk c s q x p : querybuf c = Some (s, q) -> q !! qb_pos c = Some x -> typed x (prs c) p ->
  parseCommand e c =
  ('(flag, b, p) ← processMultibulkBuffer (primary e) (auth_required e (executed c)) (proto_max_bulk_len e) (Qbuf s q (qb_pos c)) p;
   Some (flag, set_parser (set_buf c (Some (shared b, bytes b)) (pos b)) p)).
Proof.
  intros Hq Hx Hp. unfold parseCommand. rewrite Hq, Hx. cbn [mbind option_bind]. destruct Hp as [[Ht ->]|(-> & -> & ->)]; [|done].
  destruct (prs c). cbn in Ht |- *. by subst.
Qed.

Lemma pending_typed cmd p need x r todo tail : pending cmd p need -> (x :: r) ++ todo = need ++ tail ->
  exists p', typed x p p' /\ pending cmd p' need /\ reqtype p' = ReqMultibulk.
Proof.
  intros [[->| ->] ->|l Hp Hl ->] Heq.
  - injection Heq as -> _. exists starting. split_and!; [by right|apply pending_start; [by right|done]|done].
  - exists starting. split_and!; [by left|apply pending_start; [by right|done]|done].
  - exists p. pose proof (rd_type _ _ _ Hp) as Ht. split_and!; [by left|by apply (pending_args _ _ _ l)|done].
Qed.

(** One request from the buffer. *)
Lemma parse_ok k todo c cmd l : serving k todo c -> drop k cmds = cmd :: l -> crest c <> [] ->
  exists flag c', parseCommand e c = Some (flag, c') /\ cbuf_ok c' /\ (length (crest c') <= length (crest c))%nat /\
    executed c' = executed c /\ counted c' = counted c /\ close_after_reply c' = false /\ close_asap c' = false /\
    ((flag = Completed /\ argv (prs c') = cmd /\ net_input_bytes_curr_cmd (prs c') = zlen (encode cmd) /\ crest c' ++ todo = stream l) \/
     (flag = NeedMore /\ serving k todo c' /\ settled k todo)).
Proof.
  intros [[Ho1 Ho2] Hb Hk Hlog Hcnt Hnext] Hd Hne. rewrite Hd in Hnext. destruct Hnext as (need & Hp & Heq).
  assert (Hl : l = drop (S k) cmds) by (rewrite <- Nat.add_1_r, <- drop_drop, Hd; done).
  assert (Hcmd : request_ok e cmd). { rewrite Forall_forall in Hcmds. apply Hcmds. apply (list_elem_of_lookup_2 _ k). by rewrite <- (Nat.add_0_r k), <- lookup_drop, Hd. }
  pose proof (request_args cmd Hcmd) as Hargs. destruct Hcmd as (Hsome & Hcount & _).
  unfold crest, cbuf_ok in *. destruct (querybuf c) as [[s q]|] eqn:Hq; [|done].
  set (b := Qbuf s q (qb_pos c)) in *. change (drop (qb_pos c) q) with (rest b) in *.
  assert (Hx : exists x r, q !! qb_pos c = Some x /\ rest b = x :: r).
  { destruct (rest b) as [|x r] eqn:Hr; [done|]. exists x, r. split; [|done]. unfold rest in Hr. cbn [pos bytes b] in Hr.
    by rewrite <- (Nat.add_0_r (qb_pos c)), <- lookup_drop, Hr. }
  destruct Hx as (x & r & Hx & Hr). destruct (pending_typed cmd (prs c) need x r todo (stream l)) as (p & Ht & Hp' & Hty); [done|by rewrite <- Hr|].
  rewrite (parseCommand_multibulk c s q x p), (sv_auth _ _ He) by done. fold b.
  destruct (multibulk_ok (primary e) (proto_max_bulk_len e) cmd todo (stream l) Hargs Hcount Hsome b p need) as (flag & b' & p' & -> & Hb' & Hlen & Hend); [done..|].
  cbn [mbind option_bind]. eexists _, _. split; [reflexivity|]. cbn. fold (rest b'). split_and!; try done.
  destruct Hend as [(-> & Hargv & Hnet & Hrest)|(-> & need' & Hp'' & Hrest & Hlt)]; [by left|right].
  split_and!; [done| |].
  - split; try done. rewrite Hd. exists need'. done.
  - intros _. rewrite <- Hl. apply (f_equal length) in Hrest. rewrite !length_app in Hrest. lia.
Qed.

(** A complete request is executed. *)
Lemma execute_ok k todo c cmd l : cbuf_ok c -> drop k cmds = cmd :: l -> executed c = take k cmds ->
  counted c = (fun cmd => zlen (encode cmd)) <$> take k cmds -> close_after_reply c = false -> close_asap c = false ->
  argv (prs c) = cmd -> net_input_bytes_curr_cmd (prs c) = zlen (encode cmd) -> crest c ++ todo = stream l ->
  exists c', (c ← (if on_shared c then resetSharedQueryBuf c else Some c); processCommandAndResetClient e c) = Some c' /\
    serving (S k) todo c' /\ crest c' = crest c.
Proof.
  intros Hb Hd Hlog Hcnt Hc1 Hc2 Hargv Hnet Heq. destruct (unshare c Hb) as (c1 & -> & Hs & Hr & Hb1 & _). cbn [mbind option_bind].
  assert (Hk : cmds !! k = Some cmd) by (by rewrite <- (Nat.add_0_r k), <- lookup_drop, Hd).
  assert (Hl : l = drop (S k) cmds) by (rewrite <- Nat.add_1_r, <- drop_drop, Hd; done).
  unfold processCommandAndResetClient, commandProcessed. rewrite (sv_client _ _ He). eexists. split; [reflexivity|].
  assert (Hfields : prs c1 = prs c /\ executed c1 = executed c /\ counted c1 = counted c /\ close_after_reply c1 = close_after_reply c /\ close_asap c1 = close_asap c)
    by (rewrite Hs; done).
  destruct Hfields as (F1 & F2 & F3 & F4 & F5). split; [|done]. split; cbn.
  - rewrite F4, F5, Hc1, (sv_stays _ _ He). done.
  - done.
  - apply lookup_lt_Some in Hk. lia.
  - by rewrite F1, F2, Hargv, Hlog, (take_S_r _ _ _ Hk).
  - by rewrite F1, F3, Hnet, Hcnt, (take_S_r _ _ _ Hk), fmap_app.
  - rewrite <- Hl. change (crest (resetClient (processCommand e c1))) with (crest c1). destruct l as [|cmd' l].
    + split; [done|]. by rewrite Hr.
    + exists (encode cmd'). split; [apply pending_start; [by left|done]|]. by rewrite Hr.
Qed.

(** The loop executes what is there and ends. *)
Lemma input_loop_ok todo fuel k c : serving k todo c -> (length (crest c) < fuel)%nat ->
  exists k' c', input_loop e fuel c = Some c' /\ serving k' todo c' /\ settled k' todo.
Proof.
  revert k c. induction fuel as [|fuel IH]; intros k c Hc Hf; [lia|]. cbn [input_loop].
  unfold canParseCommand at 1. destruct (sg_open _ _ _ Hc) as [-> ->]. cbn [orb negb]. rewrite orb_false_r.
  destruct (Nat.leb_spec (qb_len c) (qb_pos c)) as [Hle|Hlt].
  - exists k, c. split_and!; [done..|]. intros Hk. pose proof (sg_next _ _ _ Hc) as Hn. destruct (drop k cmds) as [|cmd l] eqn:Hd.
    { apply (f_equal length) in Hd. rewrite length_drop in Hd. simpl in Hd. lia. }
    destruct Hn as (need & Hp & Heq). assert (Hl : l = drop (S k) cmds) by (rewrite <- Nat.add_1_r, <- drop_drop, Hd; done).
    pose proof (pending_nonempty cmd _ _ Hp) as Hne. pose proof (crest_length c). rewrite <- Hl. apply (f_equal length) in Heq. rewrite !length_app in Heq.
    destruct need; [done|]. cbn [length] in Heq. lia.
  - pose proof (sg_next _ _ _ Hc) as Hn. pose proof (crest_length c) as Hlen. destruct (drop k cmds) as [|cmd l] eqn:Hd.
    { destruct Hn as [_ Hn]. apply app_eq_nil in Hn as [Hn _]. rewrite Hn in Hlen. simpl in Hlen. lia. }
    destruct (parse_ok k todo c cmd l) as (flag & c1 & -> & Hb1 & Hl1 & He1 & Hn1 & Ho1 & Ho2 & Hend); [done..| |].
    { intros Hr. rewrite Hr in Hlen. simpl in Hlen. lia. }
    cbn [mbind option_bind]. destruct Hend as [(-> & Hargv & Hnet & Hrest)|(-> & Hs & Hset)]; [|by exists k, c1].
    cbn [handleParseResults negb].
    assert (Hsome : (argc (prs c1) =? 0) = false).
    { unfold argc. rewrite Hargv. apply Z.eqb_neq. rewrite Forall_forall in Hcmds. destruct (Hcmds cmd) as [Hsome _]; [|destruct cmd; simpl; [done|lia]].
      apply (list_elem_of_lookup_2 _ k). by rewrite <- (Nat.add_0_r k), <- lookup_drop, Hd. }
    rewrite Hsome. destruct (execute_ok k todo c1 cmd l) as (c2 & Hx & Hs2 & Hr2); try done; [by rewrite He1, (sg_log _ _ _ Hc)|by rewrite Hn1, (sg_bytes _ _ _ Hc)|].
    destruct (if on_shared c1 then resetSharedQueryBuf c1 else Some c1) as [c'|]; [|done]. cbn [mbind option_bind] in Hx |- *. rewrite Hx. cbn [mbind option_bind].
    apply (IH (S k)); [done|]. rewrite Hr2. destruct Hn as (need & Hp & Heq). pose proof (pending_nonempty cmd _ _ Hp) as Hne.
    apply (f_equal length) in Heq, Hrest. rewrite !length_app in Heq. rewrite length_app in Hrest. destruct need; [done|]. cbn [length] in Heq. lia.
Qed.

Lemma drop_stream k cmd l : drop k cmds = cmd :: l -> length (stream cmds) = (length (stream (take k cmds)) + length (encode cmd) + length (stream l))%nat.
Proof. intros Hd. rewrite <- (take_drop k cmds) at 1. rewrite Hd, stream_app, length_app. unfold stream. cbn [fmap list_fmap concat]. rewrite length_app. lia. Qed.

Lemma serving_size k todo c : serving k todo c -> (length (stream (take k cmds)) + length (crest c) + length todo <= length (stream cmds))%nat.
Proof.
  intros Hc. pose proof (sg_next _ _ _ Hc) as Hn. destruct (drop k cmds) as [|cmd l] eqn:Hd.
  - destruct Hn as [_ Hn]. apply (f_equal length) in Hn. rewrite length_app in Hn. cbn [length] in Hn.
    rewrite <- (take_drop k cmds) at 2. rewrite Hd, app_nil_r. lia.
  - destruct Hn as (need & Hp & Heq). apply pending_le in Hp. rewrite (drop_stream k cmd l Hd). apply (f_equal length) in Heq. rewrite !length_app in Heq. lia.
Qed.

Lemma readlen_pos c : cbuf_ok c -> 1 <= readlen e c.
Proof.
  intros Hc. destruct He. unfold readlen, PROTO_IOBUF_LEN. unfold big_arg, PROTO_MBULK_BIG_ARG. destruct (querybuf c) as [[s q]|].
  - case_match; [|done]. destruct (Z.ltb_spec 0 (bulklen (prs c) + 2 - (Z.of_nat (length q) - Z.of_nat (qb_pos c)))); lia.
  - case_match eqn:Hb; [|lia]. apply andb_prop in Hb as [_ Hb]. lia.
Qed.

(** What is between two reads. *)
Definition between (k : nat) (todo : list Z) (c : client) : Prop := serving k todo c /\ settled k todo /\ on_shared c = false /\ qb_pos c = O.

(** The bytes of a read follow those in the buffer. *)
Lemma readToQueryBuf_ok k chunk todo c : between k (chunk ++ todo) c -> Z.of_nat (length chunk) <= readlen e c ->
  exists c', readToQueryBuf e chunk c = (c', false) /\ serving k todo c'.
Proof.
  intros ([Ho Hb Hk Hlog Hcnt Hnext] & _ & Hsh & Hpos) Hlen.
  assert (Hsize : (length (crest c) + length (chunk ++ todo) <= length (stream cmds))%nat). { pose proof (serving_size k (chunk ++ todo) c). destruct H; [by split|lia..]. }
  unfold readToQueryBuf. unfold crest, cbuf_ok, on_shared, readlen in *. rewrite Hpos in *. rewrite length_app in Hsize.
  destruct (match querybuf c with None => (negb (big_arg c), []) | Some b => b end) as [s q] eqn:Hq. cbn zeta.
  assert (Hq' : q = match querybuf c with Some (_, q) => drop 0 q | None => [] end) by (destruct (querybuf c) as [[s' q']|]; by simplify_eq).
  assert (Hsz : (length q + length chunk <= length (stream cmds))%nat) by (rewrite Hq'; lia).
  eexists. split.
  - rewrite (sv_client _ _ He), (sv_auth _ _ He), andb_false_r, orb_false_r. cbn [negb andb]. f_equal. unfold qb_len, set_buf. cbn [querybuf executed].
    rewrite length_app. apply Z.ltb_ge. pose proof (sv_limit _ _ He (executed c)). lia.
  - split; try done.
    + unfold cbuf_ok. cbn. split; cbn; [lia|]. intros ->. destruct (querybuf c) as [[s' q']|] eqn:Hqb; [by simplify_eq|].
      injection Hq as Hbig <-. apply (f_equal negb) in Hbig. rewrite negb_involutive in Hbig. rewrite Hbig in Hlen. unfold zlen. cbn. destruct (sv_shared _ _ He). cbn in *. lia.
    + unfold crest. cbn. rewrite drop_0. replace ((q ++ chunk) ++ todo) with (q ++ chunk ++ todo) by (by rewrite app_assoc). by rewrite Hq'.
Qed.

Lemma read_ok k chunk todo c : between k (chunk ++ todo) c -> Z.of_nat (length chunk) <= readlen e c ->
  exists k' c', readQueryFromClient e chunk c = Some c' /\ between k' todo c'.
Proof.
  intros Hc Hlen. unfold readQueryFromClient. destruct (sg_open _ _ _ (proj1 Hc)) as [_ ->].
  destruct (readToQueryBuf_ok k chunk todo c Hc Hlen) as (c1 & -> & Hc1). unfold handleReadResult, beforeNextClient. rewrite (sv_client _ _ He).
  unfold processInputBuffer. destruct (input_loop_ok todo (S (qb_len c1 - qb_pos c1)) k c1 Hc1) as (k' & c2 & -> & Hc2 & Hset); [rewrite crest_length; lia|].
  cbn [mbind option_bind]. destruct (trim_ok c2 (sg_buf _ _ _ Hc2)) as (c3 & -> & Hs & Hr & Hb & Hsh & Hpos).
  exists k', c3. split; [done|]. split_and!; [|done..]. destruct Hc2 as [Ho _ Hk Hlog Hcnt Hnext].
  split; try done; [by rewrite Hs..|]. rewrite Hr. by rewrite Hs.
Qed.

Lemma read_stream_ok sizes k todo c : between k todo c ->
  exists k' c' todo', read_stream e sizes todo c = Some (c', todo') /\ between k' todo' c' /\ todo' `suffix_of` todo /\
    (length todo' <= length todo - length sizes)%nat.
Proof.
  revert k todo c. induction sizes as [|n sizes IH]; intros k todo c Hc; cbn [read_stream length].
  { exists k, c, todo. split_and!; [done..|lia]. }
  destruct todo as [|x todo]; [exists k, c, []; split_and!; [done..|simpl; lia]|].
  pose proof (readlen_pos c (sg_buf _ _ _ (proj1 Hc))) as Hpos. set (m := Nat.min (S n) (Z.to_nat (readlen e c))). set (all := x :: todo) in *.
  destruct (read_ok k (take m all) (drop m all) c) as (k1 & c1 & -> & Hc1); [by rewrite take_drop|rewrite length_take; lia|].
  cbn [mbind option_bind]. destruct (IH k1 (drop m all) c1 Hc1) as (k2 & c2 & todo2 & Hrun & Hc2 & Hsuf & Hlen).
  exists k2, c2, todo2. split_and!; [done|done|by etransitivity; [|apply suffix_drop]|]. rewrite length_drop in Hlen. lia.
Qed.

Lemma new_client_between : between 0 (stream cmds) new_client.
Proof.
  split_and!; [|intros Hk|done..].
  - split; try done; [lia|]. cbn. destruct cmds as [|cmd l]; [done|]. exists (encode cmd). split; [|done]. apply pending_start; [by left|done].
  - destruct (drop 0 cmds) as [|cmd l] eqn:Hd; [rewrite drop_0 in Hd; subst; simpl in Hk; lia|]. rewrite (drop_stream 0 cmd l) by done.
    rewrite <- (Nat.add_0_l 1), <- drop_drop, Hd. change (drop 1 (cmd :: l)) with l. unfold encode. cbn [length]. lia.
Qed.
End Serving.

