(* ===== verification/RespSafe.v ===== *)
(** * Any bytes from any client

    Whatever the bytes and however they are cut into reads, reading and executing
    them faults nowhere; what is passed on of the stream of a primary is exactly
    the stream up to the offset it is said to be at. *)
From S2P Require Import Prelude Numconv Sds SdsSpec Resp RespSpec RespRun.
From Stdlib Require Import ZArith Lia.
From stdpp Require Import prelude list.

#[local] Open Scope Z_scope.

Lemma find_char_lt c r n : find_char c r = Some n -> (n < length r)%nat.
Proof.
  revert n. induction r as [|x r IH]; intros n; cbn [find_char length]; [done|]. repeat case_match; try done; [by intros [= <-]; lia|].
  destruct (find_char c r) as [m|]; [|done]. intros [= <-]. specialize (IH m eq_refl). lia.
Qed.

(** ** The parsers *)

(** Arguments are being read. *)
Record in_args (p : parser) : Prop := {
  ia_type : reqtype p = ReqMultibulk;
  ia_count : 0 <= multibulklen p;
  ia_room : 1 <= argv_len p /\ argc p <= argv_len p;
  ia_total : argc p + multibulklen p <= INT_MAX;
  ia_bulk : bulklen p = -1 \/ 0 <= bulklen p }.

(** [r] is what follows in the buffer. *)
Definition parser_ok (p : parser) (r : list Z) : Prop :=
  (in_args p /\ 0 < multibulklen p) \/
  (multibulklen p = 0 /\ bulklen p = -1 /\ argv p = [] /\ (reqtype p = ReqMultibulk -> exists r', r = 42 :: r')).

(** How parsing moves in the buffer; that of a primary is not rewritten. *)
Definition moved (is_primary : bool) (b b' : qbuf) : Prop :=
  buf_ok b' /\ (length (rest b') <= length (rest b))%nat /\
  (is_primary = true -> shared b' = shared b /\ bytes b' = bytes b /\ (pos b <= pos b')%nat).

Lemma moved_trans is_primary b1 b2 b3 : moved is_primary b1 b2 -> moved is_primary b2 b3 -> moved is_primary b1 b3.
Proof. intros (_ & H1 & H2) (Hb & H3 & H4). split_and!; [done|lia|]. intros Hp. specialize (H2 Hp). specialize (H4 Hp). intuition (try congruence; lia). Qed.

Lemma moved_refl is_primary b : buf_ok b -> moved is_primary b b.
Proof. intros Hb. by split_and!. Qed.

Lemma moved_advance is_primary b k : buf_ok b -> (k <= length (rest b))%nat -> moved is_primary b (Qbuf (shared b) (bytes b) (pos b + k)).
Proof. intros Hb Hk. split_and!; [by apply advance_ok|rewrite <- rest_advance, length_drop; lia|]. intros _. cbn. split_and!; [done..|lia]. Qed.

Section Parsers.
Context (is_primary auth : bool) (max : Z).

Lemma bulk_header_safe b p : buf_ok b -> in_args p -> bulklen p = -1 ->
  (exists flag, bulk_header is_primary auth max b p = inl flag /\ (flag = NeedMore \/ exists err, flag = ParseError err)) \/
  exists b' p', bulk_header is_primary auth max b p = inr (b', p') /\ moved is_primary b b' /\ in_args p' /\ 0 <= bulklen p' /\ multibulklen p' = multibulklen p /\ argc p' = argc p.
Proof.
  intros Hb Hp Hbl. unfold bulk_header. destruct (find_char 13 (rest b)) as [nl|] eqn:Hnl; [|left; eexists; split; [done|]; case_match; eauto].
  destruct (Z.ltb_spec (Z.of_nat (length (rest b)) - 2) (Z.of_nat nl)); [left; eauto|]. case_match; [left; eauto|].
  destruct (string2ll (drop 1 (take nl (rest b)))) as [ll|]; [|left; eauto]. destruct ((ll <? 0) || _) eqn:Hll; [left; eauto|]. case_match; [left; eauto|right].
  eexists _, _. split; [reflexivity|]. apply orb_false_iff in Hll as [Hll _]. apply Z.ltb_ge in Hll.
  assert (Hadv : moved is_primary b (Qbuf (shared b) (bytes b) (pos b + nl + 2))) by (rewrite <- Nat.add_assoc; apply moved_advance; [done|lia]).
  split_and!; [| |done..].
  - case_match eqn:Hcase; [|done]. apply (moved_trans _ _ _ _ Hadv). split_and!; [by split; cbn; [lia|]|done|]. intros ->. done.
  - destruct Hp as [Q1 Q2 Q3 Q4 Q5]. split; cbn; try done; by right.
Qed.

Lemma bulk_arg_safe b p : buf_ok b -> in_args p -> 0 < multibulklen p -> 0 <= bulklen p -> bulklen p + 2 <= Z.of_nat (length (rest b)) ->
  exists b' p', bulk_arg is_primary b p = Some (b', p') /\ moved is_primary b b' /\ in_args p' /\ (length (rest b') < length (rest b))%nat /\ argc p < argc p'.
Proof.
  intros Hb [Ht Hc [Hr1 Hr2] Htot _] Hm Hbl Hlen. unfold bulk_arg.
  match goal with |- context [guard (argc p < ?n)] => set (len := n) end.
  assert (Hlt : argc p < len).
  { unfold len. destruct (Z.leb_spec (argv_len p) (argc p)); [|lia]. destruct (Z.ltb_spec (argv_len p) (INT_MAX / 2)); lia. }
  rewrite (option_guard_True _ _ Hlt).
  assert (Hrd : forall arg, in_args (Parser (reqtype p) (multibulklen p - 1) (-1) (argv p ++ [arg]) len (argv_len_sum p + bulklen p) (net_input_bytes_curr_cmd p))).
  { intros arg. unfold argc in *. split; unfold argc; cbn [reqtype multibulklen bulklen argv argv_len argv_len_sum net_input_bytes_curr_cmd]; rewrite ?length_app; cbn [length]; [done|lia..|by left]. }
  assert (Hac : forall arg, argc p < argc (Parser (reqtype p) (multibulklen p - 1) (-1) (argv p ++ [arg]) len (argv_len_sum p + bulklen p) (net_input_bytes_curr_cmd p)))
    by (intros arg; unfold argc; cbn [argv]; rewrite length_app; cbn [length]; lia).
  match goal with |- context [if ?c then _ else _] => destruct c eqn:Hcase end.
  - repeat (apply andb_prop in Hcase as [Hcase ?]). apply bool_decide_eq_true in H1. apply Z.eqb_eq in H. apply Z.leb_le in H0.
    rewrite option_guard_True by (destruct Hb as [_ Hb]; destruct (shared b); [specialize (Hb eq_refl); unfold zlen in *; lia|done]).
    eexists _, _. split; [reflexivity|]. assert (length (rest (Qbuf false [] 0)) = 0)%nat by done.
    split_and!; [split_and!; [by split|lia|]|apply Hrd|lia|apply Hac]. intros ->. done.
  - eexists _, _. split; [reflexivity|]. rewrite <- Nat.add_assoc. split_and!; [apply moved_advance; [done|lia]|apply Hrd| |apply Hac].
    rewrite <- rest_advance, length_drop. lia.
Qed.

Definition loop_end (p : parser) (b b' : qbuf) (flag : parsed) (p' : parser) : Prop :=
  (flag = Completed /\ argc p <= argc p' /\ (0 < multibulklen p -> (length (rest b') < length (rest b))%nat /\ argc p < argc p')) \/
  (flag = NeedMore /\ in_args p' /\ 0 < multibulklen p') \/ exists err, flag = ParseError err.

Lemma bulk_loop_safe fuel b p : buf_ok b -> in_args p -> (length (rest b) < fuel)%nat ->
  exists flag b' p', bulk_loop fuel is_primary auth max b p = Some (flag, b', p') /\ moved is_primary b b' /\ loop_end p b b' flag p'.
Proof.
  revert b p. induction fuel as [|fuel IH]; intros b p Hb Hp Hf; [lia|]. cbn [bulk_loop].
  destruct (Z.eqb_spec (multibulklen p) 0) as [Hz|Hz]. { eexists _, _, _. split; [reflexivity|]. split; [by apply moved_refl|]. left. split_and!; [done|done|lia]. }
  assert (Hm : 0 < multibulklen p) by (pose proof (ia_count _ Hp); lia).
  assert (Harg : forall b0 p0, moved is_primary b b0 -> in_args p0 -> 0 <= bulklen p0 -> multibulklen p0 = multibulklen p -> argc p0 = argc p ->
    exists flag b' p', (if Z.of_nat (length (rest b0)) <? bulklen p0 + 2 then Some (NeedMore, b0, p0)
      else r ← bulk_arg is_primary b0 p0; bulk_loop fuel is_primary auth max r.1 r.2) = Some (flag, b', p') /\ moved is_primary b b' /\ loop_end p b b' flag p').
  { intros b0 p0 Hb0 Hp0 Hbl0 Hm0 Ha0. destruct (Z.ltb_spec (Z.of_nat (length (rest b0))) (bulklen p0 + 2)).
    - eexists _, _, _. split; [reflexivity|]. split; [done|]. right; left. split_and!; [done..|lia].
    - pose proof Hb0 as (Hok & Hle & _). destruct (bulk_arg_safe b0 p0) as (b1 & p1 & -> & Hb1 & Hp1 & Hl1 & Ha1); [done|done|lia|done|lia|].
      cbn [mbind option_bind fst snd]. destruct (IH b1 p1) as (flag & b2 & p2 & Hrun & Hb2 & Hend); [by apply Hb1|done|lia|].
      pose proof Hb2 as (_ & Hle2 & _). eexists _, _, _. split; [done|]. split; [by eapply moved_trans; [|eapply moved_trans]|].
      destruct Hend as [(-> & Ha2 & _)|Hend]; [left; split_and!; [done|lia|lia]|by right]. }
  destruct (Z.eqb_spec (bulklen p) (-1)) as [Hbl|Hbl]; [|apply Harg; [by apply moved_refl|done|destruct (ia_bulk _ Hp); [done|lia]|done..]].
  destruct (bulk_header_safe b p Hb Hp Hbl) as [(flag & -> & Hflag)|(b1 & p1 & -> & Hb1 & Hp1 & Hbl1 & Hm1 & Ha1)]; [|by apply Harg].
  eexists _, _, _. split; [reflexivity|]. split; [by apply moved_refl|]. right. destruct Hflag as [->|Hflag]; [left|by right]. done.
Qed.

(** What a parser leaves: [r] before, [r'] after. *)
Definition outcome_ok (flag : parsed) (r r' : list Z) (p' : parser) : Prop :=
  match flag with
  | NeedMore => parser_ok p' r'
  | Completed => (length r' < length r)%nat /\ (argc p' = 0 -> parser_ok p' r')
  | ZeroQueryLen | NegativeMbulkLen => (length r' < length r)%nat
  | ParseError _ => True
  end.

Lemma loop_end_outcome p b b' flag p' : 0 < multibulklen p -> loop_end p b b' flag p' -> outcome_ok flag (rest b) (rest b') p'.
Proof.
  intros Hm [(-> & Ha & Hd)|[(-> & Hp & Hm')|[err ->]]]; [|by left|done]. destruct (Hd Hm) as [Hl Hlt]. split; [done|]. intros Hz. unfold argc in *. lia.
Qed.

Lemma multibulk_safe b p : buf_ok b -> parser_ok p (rest b) -> reqtype p = ReqMultibulk ->
  exists flag b' p', processMultibulkBuffer is_primary auth max b p = Some (flag, b', p') /\ moved is_primary b b' /\ outcome_ok flag (rest b) (rest b') p'.
Proof.
  intros Hb Hp Ht. unfold processMultibulkBuffer. destruct Hp as [[Hp Hm]|(Hz & Hbl & Hargv & Hfirst)].
  - rewrite (proj2 (Z.eqb_neq (multibulklen p) 0)), option_guard_True by lia.
    destruct (bulk_loop_safe (S (length (rest b))) b p) as (flag & b' & p' & Hrun & Hb' & Hend); [done..|lia|].
    exists flag, b', p'. split_and!; [done..|]. by eapply loop_end_outcome.
  - assert (Hac : argc p = 0) by (unfold argc; by rewrite Hargv). destruct (Hfirst Ht) as (r' & Hr).
    assert (Hstay : parser_ok p (rest b)) by (right; eauto). rewrite Hz, Z.eqb_refl, option_guard_True by done.
    destruct (find_char 13 (rest b)) as [nl|] eqn:Hnl; [|eexists _, _, _; split; [reflexivity|]; split; [by apply moved_refl|]; by case_match].
    destruct (Z.ltb_spec (Z.of_nat (length (rest b)) - 2) (Z.of_nat nl)); [eexists _, _, _; split; [reflexivity|]; split; [by apply moved_refl|done]|].
    rewrite option_guard_True by (by rewrite Hr). destruct (string2ll _) as [ll|]; [|eexists _, _, _; split; [reflexivity|]; split; [by apply moved_refl|done]].
    destruct (Z.ltb_spec INT_MAX ll); [eexists _, _, _; split; [reflexivity|]; split; [by apply moved_refl|done]|].
    case_match; [eexists _, _, _; split; [reflexivity|]; split; [by apply moved_refl|done]|]. set (b1 := Qbuf (shared b) (bytes b) (pos b + nl + 2)).
    assert (Hb1 : moved is_primary b b1) by (unfold b1; rewrite <- Nat.add_assoc; apply moved_advance; [done|lia]).
    assert (Hl1 : (length (rest b1) < length (rest b))%nat) by (unfold b1; rewrite <- Nat.add_assoc, <- rest_advance, length_drop; lia).
    destruct (Z.leb_spec ll 0); [by eexists _, _, _|]. match goal with |- context [bulk_loop _ _ _ _ b1 ?p] => set (p1 := p) end.
    rewrite option_guard_True by (cbn; lia). destruct (bulk_loop_safe (S (length (rest b1))) b1 p1) as (flag & b' & p' & Hrun & Hb' & Hend); [by apply Hb1| |lia|].
    { unfold argc in *. split; cbn; [done|lia| | |by left]; unfold argc; cbn; rewrite Hargv; cbn; lia. }
    exists flag, b', p'. split_and!; [done|by eapply moved_trans|]. apply (loop_end_outcome p1) in Hend; [|cbn; lia].
    destruct flag; simpl in Hend |- *; try done; [split; [lia|by apply Hend]|lia..].
Qed.

Lemma inline_safe q n p : (n <= length q)%nat -> multibulklen p = 0 -> bulklen p = -1 -> argv p = [] -> reqtype p = ReqInline ->
  exists flag n' p', processInlineBuffer is_primary q n p = Some (flag, n', p') /\ (n <= n' <= length q)%nat /\ outcome_ok flag (drop n q) (drop n' q) p'.
Proof.
  intros Hn Hm Hbl Hargv Ht. unfold processInlineBuffer. set (r := drop n q). assert (Hr : length r = (length q - n)%nat) by (unfold r; apply length_drop).
  assert (Hstay : forall r, parser_ok p r) by (intros r0; right; split_and!; [done..|]; by rewrite Ht).
  destruct (find_char 10 r) as [nl|] eqn:Hnl; [|eexists _, _, _; split; [reflexivity|]; split; [lia|]; case_match; [done|apply Hstay]].
  apply find_char_lt in Hnl.
  assert (Hlf : exists ql lf, match nl with S k => if char_at r k =? 13 then (k, 2%nat) else (nl, 1%nat) | O => (O, 1%nat) end = (ql, lf) /\ (ql + lf = S nl)%nat).
  { destruct nl; [by exists O, 1%nat|]. case_match; eexists _, _; (split; [reflexivity|lia]). }
  destruct Hlf as (ql & lf & -> & Hsum). destruct (sdssplitargs_total (take ql r)) as [args ->]. cbn [mbind option_bind].
  destruct args as [|args]; [eexists _, _, _; split; [reflexivity|]; split; [lia|done]|].
  destruct (negb (bool_decide (ql = O)) && is_primary); [eexists _, _, _; split; [reflexivity|]; split; [lia|done]|].
  destruct (match args with [] => _ | _ => _ end) as [len sum]. eexists _, _, _. split; [reflexivity|]. split; [lia|].
  assert (Hl : (length (drop (n + ql + lf) q) < length r)%nat) by (rewrite length_drop; lia). case_bool_decide; [done|]. split; [done|].
  intros Hac. right. cbn. unfold argc in Hac. cbn in Hac. destruct args; [|simpl in Hac; lia]. split_and!; [done..|]. by rewrite Ht.
Qed.
End Parsers.

(** ** Clients *)

(** A parser that waits does not mind more bytes. *)
Lemma parser_ok_app p r chunk : parser_ok p r -> parser_ok p (r ++ chunk).
Proof. intros [H|(H1 & H2 & H3 & H4)]; [by left|right]. split_and!; [done..|]. intros Ht. destruct (H4 Ht) as [r' ->]. by exists (r' ++ chunk). Qed.

Lemma reset_parser_ok r : parser_ok reset_parser r.
Proof. right. by split_and!. Qed.

Section Clients.
Context (e : env) (Hcap : shared_cap e < PROTO_MBULK_BIG_ARG).

(** Only the buffer and the parser differ; the buffer of a primary is only moved in. *)
Definition parsed_to (c c' : client) : Prop :=
  c' = set_parser (set_buf c (querybuf c') (qb_pos c')) (prs c') /\ cbuf_ok c' /\ (length (crest c') <= length (crest c))%nat /\
  (primary e = true -> querybuf c' = querybuf c /\ (qb_pos c <= qb_pos c')%nat).

Lemma parse_safe c : cbuf_ok c -> crest c <> [] -> parser_ok (prs c) (crest c) ->
  exists flag c', parseCommand e c = Some (flag, c') /\ parsed_to c c' /\ outcome_ok flag (crest c) (crest c') (prs c').
Proof.
  intros Hb Hne Hp. unfold parseCommand. unfold crest, cbuf_ok in Hb, Hne, Hp. destruct (querybuf c) as [[s q]|] eqn:Hq; [|done].
  assert (Hx : exists x r, q !! qb_pos c = Some x /\ drop (qb_pos c) q = x :: r).
  { destruct (drop (qb_pos c) q) as [|x r] eqn:Hr; [done|]. exists x, r. split; [|done]. by rewrite <- (Nat.add_0_r (qb_pos c)), <- lookup_drop, Hr. }
  destruct Hx as (x & r & -> & Hr). cbn [mbind option_bind].
  match goal with |- context [Parser ?t _ _ _ _ _ _] => set (type := t) end.
  set (p1 := Parser type (multibulklen (prs c)) (bulklen (prs c)) (argv (prs c)) (argv_len (prs c)) (argv_len_sum (prs c)) (net_input_bytes_curr_cmd (prs c))).
  assert (Hp1 : parser_ok p1 (drop (qb_pos c) q) /\ type <> ReqNone).
  { rewrite Hr in *. unfold type. destruct Hp as [[[Ht H1 H2 H3 H4] Hm]|(Hm & Hbl & Ha & Hf)].
    - rewrite Ht. split; [|done]. left. split; [|done]. split; cbn; try done. unfold type. by rewrite Ht.
    - split; [|repeat case_match; done]. right. cbn. split_and!; [done..|]. unfold type. destruct (reqtype (prs c)); [|done|intros _; by apply Hf].
      destruct (Z.eqb_spec x 42); [|done]. intros _. subst. eauto. }
  destruct Hp1 as [Hp1 Htype]. change (crest c) with (match querybuf c with Some (_, q) => drop (qb_pos c) q | None => [] end). rewrite Hq.
  assert (Hcr : (length (crest c) = length q - qb_pos c)%nat) by (unfold crest; rewrite Hq; apply length_drop).
  destruct type eqn:Hty; [done| |].
  - destruct Hp1 as [[Hp1 _]|(H1 & H2 & H3 & _)]; [by apply ia_type in Hp1; cbn in Hp1|]. destruct Hb as [Hpos Hsh]. cbn in Hpos, Hsh.
    destruct (inline_safe (primary e) q (qb_pos c) p1) as (flag & n' & p' & -> & Hn' & Ho); [done..|]. cbn [mbind option_bind].
    eexists _, _. split; [reflexivity|]. split; [|done]. split_and!; [done|split; cbn; [lia|done]|rewrite Hcr; unfold crest; cbn; rewrite length_drop; lia|].
    intros _. cbn. split; [done|lia].
  - destruct (multibulk_safe (primary e) (auth_required e (executed c)) (proto_max_bulk_len e) (Qbuf s q (qb_pos c)) p1) as (flag & b' & p' & -> & Hb' & Ho); [done..|].
    cbn [mbind option_bind]. eexists _, _. split; [reflexivity|]. split; [|done]. destruct Hb' as (Hok & Hle & Hpr).
    split_and!; [done|by destruct b'|rewrite Hcr; unfold rest in Hle; cbn in Hle; rewrite !length_drop in Hle; unfold crest; cbn; rewrite length_drop; lia|].
    intros He. destruct (Hpr He) as (E1 & E2 & E3). cbn in *. by rewrite E1, E2.
Qed.

(** The link to the primary: [gone] has been passed on and dropped; of the buffer, the first [repl_applied] bytes have been passed on. *)
Definition linked (off : Z) (arrived : list Z) (c : client) : Prop :=
  exists gone q, querybuf c = Some (false, q) /\ arrived = gone ++ q /\ read_reploff c = off + zlen arrived /\
    reploff c = off + zlen gone + repl_applied c /\ 0 <= repl_applied c <= Z.of_nat (qb_pos c) /\
    fed c = gone ++ take (Z.to_nat (repl_applied c)) q /\ close_asap c = false.

Record safe (off : Z) (arrived : list Z) (c : client) : Prop := {
  sf_buf : cbuf_ok c;
  sf_parser : canParseCommand c = true -> parser_ok (prs c) (crest c);
  sf_link : primary e = true -> linked off arrived c }.

Lemma parsed_linked off arrived c c' : parsed_to c c' -> linked off arrived c -> primary e = true -> linked off arrived c'.
Proof.
  intros (Hs & _ & _ & Hp) (gone & q & Hq & Ha & Hr & Ho & Hap & Hf & Hasap) He. destruct (Hp He) as [Hq' Hpos]. exists gone, q. rewrite Hs. cbn. rewrite Hq'.
  split_and!; try done; lia.
Qed.

(** A command from the primary is passed on with what precedes it. *)
Lemma commandProcessed_safe off arrived c : cbuf_ok c -> (primary e = true -> linked off arrived c) ->
  exists c', commandProcessed e c = Some c' /\ safe off arrived c' /\ crest c' = crest c.
Proof.
  intros Hb Hl. unfold commandProcessed. destruct (primary e) eqn:He.
  2: { eexists. split; [reflexivity|]. split; [|done]. split; [done|intros _; apply reset_parser_ok|by rewrite He]. }
  destruct (Hl eq_refl) as (gone & q & Hq & Ha & Hr & Ho & Hap & Hf & Hasap). unfold cbuf_ok in Hb. rewrite Hq in Hb. destruct Hb as [Hpos Hsh]. cbn in Hpos, Hsh. cbn zeta.
  change (qb_len (resetClient c)) with (qb_len c). cbn [resetClient reploff read_reploff repl_applied executed qb_pos fed querybuf].
  assert (Hlen : qb_len c = length q) by (unfold qb_len; by rewrite Hq). rewrite Hlen.
  assert (Hoff : read_reploff c - Z.of_nat (length q) + Z.of_nat (qb_pos c) = off + zlen gone + Z.of_nat (qb_pos c)) by (rewrite Hr, Ha; unfold zlen; rewrite length_app; lia).
  rewrite Hoff. set (o := if negb (multi e (executed c)) then _ else _).
  assert (Hor : o = reploff c \/ o = off + zlen gone + Z.of_nat (qb_pos c)) by (unfold o; case_match; auto).
  destruct (Z.eqb_spec (o - reploff c) 0) as [Hz|Hz].
  - eexists. split; [reflexivity|]. split; [|done]. split; [unfold cbuf_ok; cbn; by rewrite Hq|intros _; apply reset_parser_ok|]. intros _.
    exists gone, q. cbn. split_and!; try done; lia.
  - destruct Hor as [Hor|Hor]; [lia|]. rewrite Hq, option_guard_True by lia. eexists. split; [reflexivity|]. split; [|done].
    split; [unfold cbuf_ok; cbn; by rewrite Hq|intros _; apply reset_parser_ok|]. intros _. exists gone, q. cbn. split_and!; try done; try lia.
    rewrite Hf, <- app_assoc. f_equal. rewrite Z2Nat.inj_add by lia. by rewrite take_take_drop.
Qed.

Lemma linked_fields off arrived c c' : linked off arrived c -> querybuf c' = querybuf c -> qb_pos c' = qb_pos c -> read_reploff c' = read_reploff c ->
  reploff c' = reploff c -> repl_applied c' = repl_applied c -> fed c' = fed c -> close_asap c' = close_asap c -> linked off arrived c'.
Proof. intros (gone & q & H) E1 E2 E3 E4 E5 E6 E7. exists gone, q. by rewrite E1, E2, E3, E4, E5, E6, E7. Qed.

(** The buffer shared by the clients is never that of a primary. *)
Lemma unshare_linked off arrived c c' : (if on_shared c then resetSharedQueryBuf c else Some c) = Some c' -> linked off arrived c -> c' = c.
Proof. intros Hu (gone & q & Hq & _). unfold on_shared in Hu. rewrite Hq in Hu. by injection Hu. Qed.

Lemma input_loop_safe off arrived fuel c : safe off arrived c -> (length (crest c) < fuel)%nat ->
  exists c', input_loop e fuel c = Some c' /\ safe off arrived c'.
Proof.
  revert c. induction fuel as [|fuel IH]; intros c [Hb Hp Hl] Hf; [lia|]. cbn [input_loop]. destruct (orb _ _) eqn:Hgo; [by exists c|].
  apply orb_false_iff in Hgo as [Hlen Hcan]. apply Nat.leb_gt in Hlen. apply negb_false_iff in Hcan. pose proof (crest_length c) as Hcl.
  destruct (parse_safe c) as (flag & c1 & -> & Hto & Ho); [done|intros Hr; rewrite Hr in Hcl; simpl in Hcl; lia|by apply Hp|]. cbn [mbind option_bind].
  pose proof Hto as (Hs & Hb1 & Hle & _). assert (Hl1 : primary e = true -> linked off arrived c1) by (intros He; eapply parsed_linked; eauto).
  assert (Hreset : safe off arrived (resetClient c1)).
  { split; [done|intros _; apply reset_parser_ok|]. intros He. by eapply linked_fields; [apply Hl1|..]. }
  destruct flag; cbn [handleParseResults negb].
  - exists c1. split; [done|]. by split.
  - destruct Ho as [Hlt Hz]. destruct (Z.eqb_spec (argc (prs c1)) 0) as [Hac|Hac]; [apply IH; [|lia]; split; [done|intros _; by apply Hz|done]|].
    destruct (unshare c1 Hb1) as (c2 & Hu & Hs2 & Hr2 & Hb2 & _). rewrite Hu. cbn [mbind option_bind]. unfold processCommandAndResetClient.
    destruct (commandProcessed_safe off arrived (processCommand e c2)) as (c3 & -> & Hs3 & Hr3); [done| |].
    { intros He. specialize (Hl1 He). rewrite (unshare_linked off arrived c1 c2 Hu Hl1). by eapply linked_fields; [exact Hl1|..]. }
    cbn [mbind option_bind]. apply IH; [done|]. rewrite Hr3. change (crest (processCommand e c2)) with (crest c2). rewrite Hr2. lia.
  - cbn. apply IH; [done|]. change (crest (resetClient c1)) with (crest c1). simpl in Ho. lia.
  - cbn. apply IH; [done|]. change (crest (resetClient c1)) with (crest c1). simpl in Ho. lia.
  - eexists. split; [reflexivity|]. split; [done| |]; [done|]. intros He. by eapply linked_fields; [apply Hl1|..].
Qed.

(** ** Reads *)

Definition safe_between (off : Z) (arrived : list Z) (c : client) : Prop := safe off arrived c /\ on_shared c = false.

Lemma read_result_safe off arrived chunk c : safe_between off arrived c -> Z.of_nat (length chunk) <= Z.max 0 (readlen e c) ->
  exists c' ok, (let '(c, limit) := readToQueryBuf e chunk c in handleReadResult e chunk limit c) = (c', ok) /\ safe off (arrived ++ chunk) c'.
Proof.
  intros [[Hb Hp Hl] Hsh] Hlen. unfold readToQueryBuf. destruct (match querybuf c with None => (negb (big_arg c), []) | Some b => b end) as [s q] eqn:Hq.
  cbn zeta. unfold handleReadResult. match goal with |- context [if primary e then ?x else ?y] => set (c1 := if primary e then x else y) end.
  assert (Hbuf : querybuf c1 = Some (s, q ++ chunk) /\ qb_pos c1 = qb_pos c /\ prs c1 = prs c /\ close_after_reply c1 = close_after_reply c /\ close_asap c1 = close_asap c) by (unfold c1; by destruct (primary e)).
  destruct Hbuf as (B1 & B2 & B3 & B4 & B5). unfold cbuf_ok, crest, on_shared, readlen in *.
  assert (Hok : (qb_pos c <= length q)%nat /\ (canParseCommand c = true -> parser_ok (prs c) (drop (qb_pos c) q)) /\ (s = true -> q = [] /\ Z.of_nat (length chunk) < PROTO_MBULK_BIG_ARG)).
  { destruct (querybuf c) as [[s' q']|] eqn:Hqb; [injection Hq as -> ->; destruct Hb as [Hb _]; cbn in Hb; by rewrite Hsh|]. injection Hq as <- <-. rewrite Hb. split_and!; [done..|].
    intros Hbig. apply negb_true_iff in Hbig. rewrite Hbig in Hlen. unfold PROTO_MBULK_BIG_ARG in *. split; [done|lia]. }
  destruct Hok as (O1 & O2 & O3).
  assert (Hsafe : safe off (arrived ++ chunk) c1).
  { split.
    - unfold cbuf_ok. rewrite B1, B2. split; cbn; [rewrite length_app; lia|]. intros Hs. destruct (O3 Hs) as [-> ?]. done.
    - unfold crest, canParseCommand. rewrite B1, B2, B3, B4, B5. intros Hc. rewrite drop_app_le by done. by apply parser_ok_app, O2.
    - intros He. destruct (Hl He) as (gone & q' & Hq' & Ha & Hr & Ho & Hap & Hf & Hasap). rewrite Hq' in Hq. injection Hq as <- <-. exists gone, (q' ++ chunk).
      rewrite B1, B2. unfold c1. rewrite He. cbn. rewrite Ha. unfold zlen in *. rewrite <- app_assoc. split_and!; try done; [rewrite Hr, Ha, !length_app; lia|lia|lia|].
      rewrite Hf, take_app_le by lia. done. }
  match goal with |- context [if ?l then (set_close _ _ _, false) else _] => destruct l eqn:Hlim end; eexists _, _; (split; [reflexivity|]); [|done]. destruct Hsafe as [S1 S2 S3].
  split; [done|unfold canParseCommand; cbn; by rewrite orb_true_r|]. intros He. by rewrite He in Hlim.
Qed.

Lemma beforeNextClient_safe off arrived c : safe off arrived c -> exists c', beforeNextClient e c = Some c' /\ safe_between off arrived c'.
Proof.
  intros [Hb Hp Hl]. unfold beforeNextClient. destruct (primary e) eqn:He.
  - destruct (Hl eq_refl) as (gone & q & Hq & Ha & Hr & Ho & Hap & Hf & Hasap). rewrite Hq. unfold cbuf_ok in Hb. rewrite Hq in Hb. destruct Hb as [Hb Hsh]. cbn in Hb.
    assert (Hon : on_shared c = false) by (unfold on_shared; by rewrite Hq).
    destruct (Z.eqb_spec (repl_applied c) 0); [exists c; split; [done|]; split; [split; [unfold cbuf_ok; by rewrite Hq|done|by rewrite He]|done]|].
    rewrite option_guard_True by done. eexists. split; [reflexivity|]. set (k := Z.to_nat (repl_applied c)). split; [|done]. split.
    + split; cbn; [rewrite length_drop; lia|done].
    + intros Hc. unfold crest. cbn. rewrite drop_drop. replace (k + (qb_pos c - k))%nat with (qb_pos c) by lia. unfold crest in Hp. rewrite Hq in Hp. by apply Hp.
    + intros _. exists (gone ++ take k q), (drop k q). cbn. rewrite <- app_assoc, take_drop, app_nil_r. unfold zlen in *. split_and!; try done; try lia.
      rewrite Ho, length_app, length_take. lia.
  - destruct (trim_ok c Hb) as (c' & -> & Hs & Hr & Hb' & Hsh & _). exists c'. split; [done|]. split; [|done].
    split; [done| |by rewrite He]. intros Hc. rewrite Hr. rewrite Hs in Hc |- *. by apply Hp.
Qed.

Lemma read_safe off arrived chunk c : safe_between off arrived c -> close_asap c = false -> Z.of_nat (length chunk) <= Z.max 0 (readlen e c) ->
  exists c', readQueryFromClient e chunk c = Some c' /\ safe_between off (arrived ++ chunk) c'.
Proof.
  intros Hc Hopen Hlen. unfold readQueryFromClient. rewrite Hopen. destruct (read_result_safe off arrived chunk c Hc Hlen) as (c1 & ok & Hr & Hs).
  destruct (readToQueryBuf e chunk c) as [c0 limit]. rewrite Hr.
  assert (Hrun : exists c2, (if ok : bool then processInputBuffer e c1 else Some c1) = Some c2 /\ safe off (arrived ++ chunk) c2).
  { destruct ok; [|by exists c1]. apply input_loop_safe; [done|]. rewrite crest_length. lia. }
  destruct Hrun as (c2 & -> & Hs2). cbn [mbind option_bind]. by apply beforeNextClient_safe.
Qed.

Lemma closed_safe off arrived arrived' c : safe_between off arrived c -> close_asap c = true -> safe_between off arrived' c.
Proof.
  intros [[Hb Hp Hl] Hsh] Hasap. split; [|done]. split; [done..|]. intros He. destruct (Hl He) as (? & ? & _ & _ & _ & _ & _ & _ & Hopen). congruence.
Qed.

Lemma read_stream_safe off sizes arrived todo c : safe_between off arrived c ->
  exists c' read todo', read_stream e sizes todo c = Some (c', todo') /\ todo = read ++ todo' /\ safe_between off (arrived ++ read) c'.
Proof.
  revert arrived todo c. induction sizes as [|n sizes IH]; intros arrived todo c Hc; cbn [read_stream].
  { exists c, [], todo. by rewrite (app_nil_r arrived). }
  destruct todo as [|x todo]; [exists c, [], []; by rewrite (app_nil_r arrived)|]. set (m := Nat.min (S n) (Z.to_nat (readlen e c))). set (all := x :: todo) in *.
  assert (Hread : exists c1, readQueryFromClient e (take m all) c = Some c1 /\ safe_between off (arrived ++ take m all) c1).
  { destruct (close_asap c) eqn:Hasap; [|apply read_safe; [done..|rewrite length_take; lia]].
    exists c. unfold readQueryFromClient. rewrite Hasap. split; [done|]. by eapply closed_safe. }
  destruct Hread as (c1 & -> & Hc1). cbn [mbind option_bind]. destruct (IH (arrived ++ take m all) (drop m all) c1 Hc1) as (c2 & read & todo2 & Hrun & Heq & Hc2).
  exists c2, (take m all ++ read), todo2. rewrite <- app_assoc, <- Heq, take_drop, app_assoc. done.
Qed.

Lemma new_client_safe : primary e = false -> safe_between 0 [] new_client.
Proof. intros He. split; [|done]. split; [done|intros _; apply reset_parser_ok|]. by rewrite He. Qed.

Lemma new_primary_safe off : safe_between off [] (new_primary off).
Proof.
  split; [|done]. split; [split; [done|done]|intros _; apply reset_parser_ok|]. intros _. exists [], []. unfold zlen. cbn [length new_primary querybuf read_reploff reploff repl_applied qb_pos fed close_asap]. split_and!; try done; lia.
Qed.
End Clients.

(** C15: no bytes a client sends, however cut into reads, make the server fault while it reads and parses
    them: every access to the query buffer is in bounds, every assertion of the parsers, of the buffer
    handling and of the handing over of the shared buffer holds, the loops end, argv is always grown
    before it is filled, and the client is never left on the shared buffer.  Authentication, limits and
    what the executed commands do are arbitrary. *)
Theorem any_input_safe e sizes input : shared_cap e < PROTO_MBULK_BIG_ARG -> primary e = false ->
  exists c todo, read_stream e sizes input new_client = Some (c, todo) /\ on_shared c = false.
Proof.
  intros Hcap He. destruct (read_stream_safe e Hcap 0 sizes [] input new_client) as (c & _ & todo & Hrun & _ & _ & Hsh); [by apply new_client_safe|by exists c, todo].
Qed.

(** C5: of the bytes that arrive from the primary, whatever they are and however they are cut into
    reads, what is passed on to the replicas is exactly the stream from the initial offset up to the
    offset the replica reports as applied: no byte is lost, repeated or reordered by the trimming of the
    buffer, by transactions that hold the offset back, or by empty lines between commands; the offset never
    passes what has been read and all accesses are in bounds. *)
Theorem primary_stream_fed e sizes input off : shared_cap e < PROTO_MBULK_BIG_ARG -> primary e = true ->
  exists c arrived todo, read_stream e sizes input (new_primary off) = Some (c, todo) /\ input = arrived ++ todo /\
    read_reploff c = off + zlen arrived /\ off <= reploff c <= read_reploff c /\ fed c = take (Z.to_nat (reploff c - off)) arrived.
Proof.
  intros Hcap He. destruct (read_stream_safe e Hcap off sizes [] input (new_primary off)) as (c & arrived & todo & Hrun & Heq & Hs & _); [by apply new_primary_safe|].
  exists c, arrived, todo. destruct Hs as [Hb _ Hl]. destruct (Hl He) as (gone & q & Hq & Ha & Hr & Ho & Hap & Hf & _). cbn [app] in Ha. unfold cbuf_ok in Hb. rewrite Hq in Hb.
  destruct Hb as [Hb _]. cbn in Hb. split_and!; [done|done|by rewrite Hr|unfold zlen in *; lia| |].
  - rewrite Hr, Ho, Ha. unfold zlen. cbn. rewrite length_app. lia.
  - rewrite Hf, Ha. replace (Z.to_nat (reploff c - off)) with (length gone + Z.to_nat (repl_applied c))%nat by (unfold zlen in *; lia).
    rewrite take_app_ge by lia. do 2 f_equal. lia.
Qed.
