(* ===== verification/Aof.v ===== *)
(** * The manifest of the append only file (src/aof.c)

    [aofInfo] and [aofManifest] of src/server.h, the operations that change a
    manifest, the text of the manifest file and the function that loads it. *)
From S2P Require Import Prelude Numconv NumconvSpec Sds.
From Stdlib Require Import ZArith Lia Ascii String.
From stdpp Require Import prelude list.

#[local] Open Scope Z_scope.

(** The bytes of a string literal. *)
Definition text (s : string) : list Z := (fun c => Z.of_N (N_of_ascii c)) <$> list_ascii_of_string s.

(** A buffer read as a C string. *)
Fixpoint cstr (s : list Z) : list Z :=
  match s with
  | c :: s' => if c =? 0 then [] else c :: cstr s'
  | [] => []
  end.

Definition AOF_FILE_TYPE_BASE : Z := 98.
Definition AOF_FILE_TYPE_HIST : Z := 104.
Definition AOF_FILE_TYPE_INCR : Z := 105.

Record aofInfo := AofInfo { file_name : list Z; file_seq : Z; file_type : Z }.

(** [dirty] is 0 or 1. *)
Record aofManifest := AofManifest {
  base_aof_info : option aofInfo;
  incr_aof_list : list aofInfo;
  history_aof_list : list aofInfo;
  curr_base_file_seq : Z;
  curr_incr_file_seq : Z;
  dirty : bool }.

Definition aofManifestCreate : aofManifest := AofManifest None [] [] 0 0 false.

Definition set_dirty (am : aofManifest) (d : bool) : aofManifest :=
  AofManifest (base_aof_info am) (incr_aof_list am) (history_aof_list am) (curr_base_file_seq am) (curr_incr_file_seq am) d.

(** The name of the file for the time of a first rewrite, for the configured [server.aof_filename]. *)
Definition getTempIncrAofName (aof_filename : list Z) : list Z := text "temp-" ++ aof_filename ++ text ".incr".

(** ** Operations *)

Definition as_hist (ai : aofInfo) : aofInfo := AofInfo (file_name ai) (file_seq ai) AOF_FILE_TYPE_HIST.

Definition getNewBaseFileNameAndMarkPreAsHistory (aof_filename : list Z) (am : aofManifest) (aof_use_rdb_preamble : bool) :
    option (list Z * aofManifest) :=
  history ← match base_aof_info am with
            | Some b => guard (file_type b = AOF_FILE_TYPE_BASE);; Some (as_hist b :: history_aof_list am)
            | None => Some (history_aof_list am)
            end;
  let seq := curr_base_file_seq am + 1 in
  let name := aof_filename ++ text "." ++ decimal_signed seq ++ text ".base" ++ (if aof_use_rdb_preamble then text ".rdb" else text ".aof") in
  Some (name, AofManifest (Some (AofInfo name seq AOF_FILE_TYPE_BASE)) (incr_aof_list am) history seq (curr_incr_file_seq am) true).

Definition getNewIncrAofName (aof_filename : list Z) (am : aofManifest) : list Z * aofManifest :=
  let seq := curr_incr_file_seq am + 1 in
  let name := aof_filename ++ text "." ++ decimal_signed seq ++ text ".incr" ++ text ".aof" in
  (name, AofManifest (base_aof_info am) (incr_aof_list am ++ [AofInfo name seq AOF_FILE_TYPE_INCR]) (history_aof_list am)
           (curr_base_file_seq am) seq true).

Definition getLastIncrAofName (aof_filename : list Z) (am : aofManifest) : list Z * aofManifest :=
  match last (incr_aof_list am) with
  | None => getNewIncrAofName aof_filename am
  | Some ai => (file_name ai, am)
  end.

(** The loop from the tail: [incr] is what it has still to visit, reversed. *)
Fixpoint mark_loop (incr history : list aofInfo) : option (list aofInfo) :=
  match incr with
  | [] => Some history
  | ai :: incr => guard (file_type ai = AOF_FILE_TYPE_INCR);; mark_loop incr (as_hist ai :: history)
  end.

(** [aof_open] is [server.aof_fd != -1]. *)
Definition markRewrittenIncrAofAsHistory (aof_open : bool) (am : aofManifest) : option aofManifest :=
  match reverse (incr_aof_list am) with
  | [] => Some am
  | lastnode :: rest =>
      let '(kept, moved) := if aof_open then ([lastnode], rest) else ([], lastnode :: rest) in
      history ← mark_loop moved (history_aof_list am);
      Some (AofManifest (base_aof_info am) kept history (curr_base_file_seq am) (curr_incr_file_seq am) true)
  end.

(** ** The text *)

Definition aofInfoFormat (buf : list Z) (ai : aofInfo) : list Z :=
  let name := if sdsneedsrepr (file_name ai) then sdscatrepr [] (file_name ai) else file_name ai in
  buf ++ text "file" ++ [32] ++ cstr name ++ [32] ++ text "seq" ++ [32] ++ decimal_signed (file_seq ai) ++ [32] ++ text "type" ++
    [32; file_type ai; 10].

Definition getAofManifestAsString (am : aofManifest) : list Z :=
  let buf := match base_aof_info am with Some ai => aofInfoFormat [] ai | None => [] end in
  let buf := fold_left aofInfoFormat (history_aof_list am) buf in
  fold_left aofInfoFormat (incr_aof_list am) buf.

(** ** Loading *)

Definition MANIFEST_MAX_LINE : nat := 1024.

(** [fgets] of at most [n] bytes: the bytes up to a newline and the rest of the stream. *)
Fixpoint fgets_loop (n : nat) (p : list Z) : list Z * list Z :=
  match n, p with
  | S n, c :: p => if c =? 10 then ([c], p) else let '(l, r) := fgets_loop n p in (c :: l, r)
  | _, _ => ([], p)
  end.

Definition fgets (n : nat) (p : list Z) : option (list Z * list Z) :=
  match p with [] => None | _ => Some (fgets_loop n p) end.

(** Equality of C strings up to the case of ASCII letters. *)
Definition strcasecmp_eq (a b : list Z) : bool := bool_decide (lower_ascii <$> cstr a = lower_ascii <$> cstr b).

(** [strtoll] in base 10 without [endptr]; out of range values are clamped. *)
Definition atoll (s : list Z) : Z :=
  let t := skip_space s in
  let '(negative, t) :=
    match t with c :: t1 => if c =? 45 then (true, t1) else if c =? 43 then (false, t1) else (false, t) | [] => (false, t) end in
  let v := fst (take_digits t 0) in
  let v := if negative : bool then - v else v in
  Z.max LLONG_MIN (Z.min LLONG_MAX v).

Definition pathIsBaseName (path : list Z) : bool := negb (existsb (Z.eqb 47) (cstr path)) && negb (existsb (Z.eqb 92) (cstr path)).

Inductive load_error :=
  | EmptyManifest | TooLongLine | InvalidFormat | FileIsPath | DuplicateBase | NonMonotonic | UnknownType.

(** The loop over the pairs of a line: name (NULL at first), sequence number, type. *)
Fixpoint pairs_loop (argv : list (list Z)) (ai : option (list Z) * Z * Z) : load_error + option (list Z) * Z * Z :=
  match argv with
  | key :: val :: argv =>
      let '(name, seq, type) := ai in
      if strcasecmp_eq key (text "file") then
        if pathIsBaseName (cstr val) then pairs_loop argv (Some (cstr val), seq, type) else inl FileIsPath
      else if strcasecmp_eq key (text "seq") then pairs_loop argv (name, atoll val, type)
      else if strcasecmp_eq key (text "type") then pairs_loop argv (name, seq, char_at val 0)
      else pairs_loop argv ai
  | _ => inr ai
  end.

(** The [aofInfo] of a line that is not a comment. *)
Definition parse_line (buf : list Z) : option (load_error + aofInfo) :=
  if negb (existsb (Z.eqb 10) (cstr buf)) then Some (inl TooLongLine)
  else
    let line := sdstrim (cstr buf) [32; 9; 13; 10] in
    if bool_decide (line = []) then Some (inl InvalidFormat)
    else
      args ← sdssplitargs line;
      Some match args with
      | inl _ => inl InvalidFormat
      | inr argv =>
          if (Z.of_nat (length argv) <? 6) || (Z.of_nat (length argv) mod 2 =? 1) then inl InvalidFormat
          else
            match pairs_loop argv (None, 0, 0) with
            | inl e => inl e
            | inr (Some name, seq, type) => if (seq =? 0) || (type =? 0) then inl InvalidFormat else inr (AofInfo name seq type)
            | inr (None, _, _) => inl InvalidFormat
            end
      end.

(** Adding it to the manifest; [maxseq] is the last sequence number of an incremental file. *)
Definition add_info (am : aofManifest) (maxseq : Z) (ai : aofInfo) : load_error + aofManifest * Z :=
  if file_type ai =? AOF_FILE_TYPE_BASE then
    match base_aof_info am with
    | Some _ => inl DuplicateBase
    | None => inr (AofManifest (Some ai) (incr_aof_list am) (history_aof_list am) (file_seq ai) (curr_incr_file_seq am) (dirty am), maxseq)
    end
  else if file_type ai =? AOF_FILE_TYPE_HIST then
    inr (AofManifest (base_aof_info am) (incr_aof_list am) (history_aof_list am ++ [ai]) (curr_base_file_seq am) (curr_incr_file_seq am) (dirty am), maxseq)
  else if file_type ai =? AOF_FILE_TYPE_INCR then
    if file_seq ai <=? maxseq then inl NonMonotonic
    else inr (AofManifest (base_aof_info am) (incr_aof_list am ++ [ai]) (history_aof_list am) (curr_base_file_seq am) (file_seq ai) (dirty am), file_seq ai)
  else inl UnknownType.

Fixpoint load_loop (fuel : nat) (fp : list Z) (linenum : Z) (am : aofManifest) (maxseq : Z) : option (load_error + aofManifest) :=
  match fuel with
  | O => None
  | S fuel =>
      match fgets MANIFEST_MAX_LINE fp with
      | None => Some (if linenum =? 0 then inl EmptyManifest else inr am)
      | Some (buf, fp) =>
          if char_at buf 0 =? 35 then load_loop fuel fp (linenum + 1) am maxseq
          else
            r ← parse_line buf;
            match r with
            | inl e => Some (inl e)
            | inr ai =>
                match add_info am maxseq ai with
                | inl e => Some (inl e)
                | inr (am, maxseq) => load_loop fuel fp (linenum + 1) am maxseq
                end
            end
      end
  end.

(** On the bytes of the file; [inl] is the exit of the server. *)
Definition aofLoadManifestFromFile (fp : list Z) : option (load_error + aofManifest) :=
  load_loop (S (length fp)) fp 0 aofManifestCreate 0.
