(* ===== verification/AofSpec.v ===== *)
(** * The manifest file is read back as it was written

    [aofLoadManifestFromFile] terminates on every file, and on the text of
    [getAofManifestAsString] it gives the manifest back, for file names
    that have no single quote outside quotes. *)
From S2P Require Import Prelude Numconv NumconvSpec Sds SdsSpec Aof.
From Stdlib Require Import ZArith Lia Ascii String.
From stdpp Require Import prelude list sorting.

#[local] Open Scope Z_scope.

(** ** Lines *)

Lemma cstr_id s : Forall (fun c => c <> 0) s -> cstr s = s.
Proof. induction 1 as [|c s Hc _ IH]; simpl; [done|]. by rewrite (proj2 (Z.eqb_neq _ _) Hc), IH. Qed.

Lemma cstr_app_0 s c : Forall (fun c => c <> 0) s -> cstr (s ++ [c]) = s ++ cstr [c].
Proof. induction 1 as [|d s Hd _ IH]; [done|]. cbn [app cstr]. by rewrite (proj2 (Z.eqb_neq _ _) Hd), IH. Qed.

Lemma fgets_loop_length n p : (length (fgets_loop n p).2 <= length p)%nat.
Proof.
  revert p. induction n as [|n IH]; intros [|c p]; simpl; try done. case_match; simpl; [lia|].
  specialize (IH p). destruct (fgets_loop n p). simpl in *. lia.
Qed.

Lemma fgets_shorter n p buf rest : fgets (S n) p = Some (buf, rest) -> (length rest < length p)%nat.
Proof.
  destruct p as [|c p]; [done|]. unfold fgets. cbn [fgets_loop].
  pose proof (fgets_loop_length n p) as H. destruct (fgets_loop n p) as [l r]. cbn [snd] in H.
  case_match; intros ?; simplify_eq; cbn [length]; lia.
Qed.

Lemma parse_line_total buf : is_Some (parse_line buf).
Proof.
  unfold parse_line. case_match; [eauto|]. case_match; [eauto|].
  destruct (sdssplitargs_total (sdstrim (cstr buf) [32; 9; 13; 10])) as [r ->]. simpl. eauto.
Qed.

Lemma load_loop_total fuel fp linenum am maxseq : (length fp < fuel)%nat -> is_Some (load_loop fuel fp linenum am maxseq).
Proof.
  revert fp linenum am maxseq. induction fuel as [|fuel IH]; [lia|]. intros fp linenum am maxseq Hf. cbn [load_loop].
  destruct (fgets MANIFEST_MAX_LINE fp) as [[buf rest]|] eqn:E; [|eauto]. apply (fgets_shorter 1023) in E.
  case_match; [apply IH; lia|]. destruct (parse_line_total buf) as [[e|ai] ->]; simpl; [eauto|].
  destruct (add_info _ _ _) as [e|[am' m']]; [eauto|]. apply IH. lia.
Qed.

Lemma fgets_line n l rest : Forall (fun c => c <> 10) l -> (length l < n)%nat ->
  fgets_loop n (l ++ 10 :: rest) = (l ++ [10], rest).
Proof.
  intros Hl. revert n. induction Hl as [|c l Hc _ IH]; intros [|n] Hn; simpl in Hn; try lia; [done|].
  cbn [app fgets_loop]. rewrite (proj2 (Z.eqb_neq _ _) Hc), IH by lia. done.
Qed.

(** ** Trimming *)

Lemma trim_left_keep cset c s : strchr cset c = false -> trim_left cset (c :: s) = c :: s.
Proof. intros H. simpl. by rewrite H. Qed.

Lemma sdstrim_line cset a s z e : strchr cset a = false -> strchr cset z = false -> strchr cset e = true ->
  sdstrim ((a :: s ++ [z]) ++ [e]) cset = a :: s ++ [z].
Proof.
  intros Ha Hz He. unfold sdstrim. cbn [app]. rewrite trim_left_keep by done.
  replace (reverse (a :: (s ++ [z]) ++ [e])) with (e :: z :: reverse (a :: s)).
  - cbn [trim_left]. rewrite He, Hz. by rewrite reverse_cons, reverse_involutive.
  - by rewrite (app_comm_cons (s ++ [z]) [e] a), (app_comm_cons s [z] a), !reverse_app.
Qed.

(** ** Numbers *)

Lemma decimal_plain v : 0 <= v < 2 ^ 63 -> decimal v <> [] /\ Forall plain_char (decimal v).
Proof.
  intros Hv. split; [apply decimal_not_nil; lia|]. eapply Forall_impl; [apply decimal_digits; lia|].
  intros c Hc. unfold digit in Hc. unfold plain_char. lia.
Qed.

Lemma atoll_decimal v : 0 < v < 2 ^ 63 -> atoll (decimal_signed v) = v.
Proof.
  intros Hv. unfold decimal_signed. replace (v <? 0) with false by lia. unfold atoll.
  rewrite skip_space_decimal by lia. destruct (decimal_head v) as (c & l & Hd & Hc); [lia|]. rewrite Hd.
  replace (c =? 45) with false by lia. replace (c =? 43) with false by lia. rewrite <- Hd.
  rewrite take_digits_all by (apply decimal_digits; lia). cbn [fst]. rewrite decimal_value by lia.
  unfold LLONG_MIN, LLONG_MAX. lia.
Qed.

(** ** Entries *)

Definition name_char (c : Z) : Prop := 0 < c < 256 /\ c <> 47 /\ c <> 92.

(** A name the manifest can hold: no NUL and no path separator, and a single
    quote only where something else in the name makes it quoted. *)
Definition good_name (n : list Z) : Prop :=
  n <> [] /\ Forall name_char n /\ (sdsneedsrepr n = false -> Forall (fun c => c <> 39) n).

Record info_ok (type : Z) (ai : aofInfo) : Prop := {
  ok_type : file_type ai = type;
  ok_seq : 0 < file_seq ai < 2 ^ 63;
  ok_name : good_name (file_name ai);
  ok_line : (length (aofInfoFormat [] ai) <= MANIFEST_MAX_LINE)%nat }.

Definition name_repr (n : list Z) : list Z := if sdsneedsrepr n then sdscatrepr [] n else n.

Definition printable (c : Z) : Prop := 32 <= c <= 126.

Lemma repr_char_printable c : is_byte c -> Forall printable (repr_char c).
Proof.
  unfold is_byte. intros Hc. assert (Hh : forall v, 0 <= v < 16 -> 48 <= hex_digit v <= 102).
  { intros v Hv. unfold hex_digit. case_match; lia. }
  assert (0 <= c / 16 < 16 /\ 0 <= c mod 16 < 16) as [H1 H2] by (Z.div_mod_to_equations; lia).
  apply Hh in H1, H2. unfold repr_char, isprint, printable. repeat case_match; repeat constructor; lia.
Qed.

Lemma name_repr_ok n : good_name n -> spelled n (name_repr n) /\ Forall printable (name_repr n).
Proof.
  intros (Hne & Hc & Hq). unfold name_repr. assert (Hb : Forall is_byte n).
  { eapply Forall_impl; [exact Hc|]. unfold name_char, is_byte. intros c ?. simpl in *. lia. }
  destruct (sdsneedsrepr n) eqn:E.
  - split; [by constructor|]. unfold sdscatrepr. cbn [app]. constructor; [unfold printable; lia|].
    apply Forall_app. split; [|repeat constructor; unfold printable; lia].
    apply Forall_concat, Forall_fmap. eapply Forall_impl; [exact Hb|]. apply repr_char_printable.
  - assert (Hp : Forall plain_char n) by (apply sdsneedsrepr_plain; auto). split; [by constructor|].
    eapply Forall_impl; [exact Hp|]. unfold plain_char, printable. intros c ?. simpl in *. lia.
Qed.

(** The line of an entry without its newline, as separated arguments. *)
Definition entry_args (ai : aofInfo) : list (list Z) := [file_name ai; text "seq"; decimal_signed (file_seq ai); text "type"; [file_type ai]].
Definition entry_words (ai : aofInfo) : list (list Z) :=
  [name_repr (file_name ai); text "seq"; decimal_signed (file_seq ai); text "type"; [file_type ai]].

Definition known_type (type : Z) : Prop := type = AOF_FILE_TYPE_BASE \/ type = AOF_FILE_TYPE_HIST \/ type = AOF_FILE_TYPE_INCR.

Lemma known_plain type : known_type type -> plain_char type.
Proof. unfold plain_char. intros [->|[->| ->]]; done. Qed.

Lemma keys_plain : Forall plain_char (text "file") /\ Forall plain_char (text "seq") /\ Forall plain_char (text "type").
Proof. cbv [text fmap list_fmap list_ascii_of_string]. repeat split; repeat (apply Forall_cons_2; [unfold plain_char; simpl; lia|]); apply Forall_nil_2. Qed.

Lemma entry_spelled type ai : known_type type -> info_ok type ai -> Forall2 spelled (entry_args ai) (entry_words ai).
Proof.
  intros Ht [Hty Hs Hn _]. subst type. unfold decimal_signed, entry_args, entry_words.
  destruct (decimal_plain (file_seq ai)) as [Hne Hd]; [lia|]. unfold decimal_signed. replace (file_seq ai <? 0) with false by lia.
  assert (Hw : forall w, Forall plain_char w -> w <> [] -> spelled w w) by (intros; by constructor).
  destruct keys_plain as (_ & Hkseq & Hktype).
  repeat apply Forall2_cons_2; try apply Forall2_nil_2; [by apply name_repr_ok|..]; apply Hw; try done.
  constructor; [by apply known_plain|done].
Qed.

Lemma entry_printable type ai : known_type type -> info_ok type ai -> Forall printable (text "file" ++ spaced (entry_words ai)).
Proof.
  intros Ht Hok. pose proof Hok as [Hty Hs Hn _]. subst type.
  assert (Hp : forall w, Forall plain_char w -> Forall printable w).
  { intros w Hw. eapply Forall_impl; [exact Hw|]. unfold plain_char, printable. intros c ?. simpl in *. lia. }
  destruct keys_plain as (Hkfile & Hkseq & Hktype). apply Forall_app. split; [by apply Hp|]. unfold spaced. apply Forall_concat, Forall_fmap.
  destruct (name_repr_ok _ Hn) as [_ Hnp]. destruct (decimal_plain (file_seq ai)) as [_ Hd]; [lia|].
  unfold entry_words, decimal_signed. replace (file_seq ai <? 0) with false by lia.
  assert (Hsp : forall w, Forall printable w -> Forall printable (32 :: w)) by (intros; constructor; [unfold printable; lia|done]).
  do 4 (apply Forall_cons_2; [apply Hsp; auto|]). apply Forall_cons_2; [apply Hsp, Hp|apply Forall_nil_2].
  constructor; [by apply known_plain|done].
Qed.

Lemma format_line buf type ai : known_type type -> info_ok type ai ->
  aofInfoFormat buf ai = buf ++ (text "file" ++ spaced (entry_words ai)) ++ [10].
Proof.
  intros Ht [Hty Hs Hn _]. destruct (name_repr_ok _ Hn) as [_ Hp]. unfold aofInfoFormat. fold (name_repr (file_name ai)).
  rewrite cstr_id by (eapply Forall_impl; [exact Hp|]; unfold printable; intros c ?; simpl in *; lia).
  unfold spaced, entry_words. rewrite !fmap_cons. cbn [concat fmap list_fmap]. rewrite <- !app_assoc. cbn [app].
  by rewrite <- ?app_assoc.
Qed.

(** ** Reading an entry *)

Lemma pairs_entry type ai : known_type type -> info_ok type ai ->
  pairs_loop (text "file" :: entry_args ai) (None, 0, 0) = inr (Some (file_name ai), file_seq ai, file_type ai).
Proof.
  intros Ht [Hty Hs (Hne & Hc & _) _]. unfold entry_args. cbn [pairs_loop].
  assert (Hcs : cstr (file_name ai) = file_name ai).
  { apply cstr_id. eapply Forall_impl; [exact Hc|]. unfold name_char. intros c ?. simpl in *. lia. }
  assert (Hpath : pathIsBaseName (file_name ai) = true).
  { unfold pathIsBaseName. rewrite Hcs. clear -Hc. induction Hc as [|c n (? & ? & ?) _ IH]; [done|].
    cbn [existsb]. replace (47 =? c) with false by lia. replace (92 =? c) with false by lia. done. }
  change (strcasecmp_eq (text "file") (text "file")) with true. change (strcasecmp_eq (text "seq") (text "file")) with false.
  change (strcasecmp_eq (text "seq") (text "seq")) with true. change (strcasecmp_eq (text "type") (text "file")) with false.
  change (strcasecmp_eq (text "type") (text "seq")) with false. change (strcasecmp_eq (text "type") (text "type")) with true.
  rewrite Hcs, Hpath. cbv iota. by rewrite atoll_decimal.
Qed.

Lemma parse_entry type ai : known_type type -> info_ok type ai ->
  parse_line ((text "file" ++ spaced (entry_words ai)) ++ [10]) = Some (inr ai).
Proof.
  intros Ht Hok. pose proof (entry_printable type ai Ht Hok) as Hp. unfold parse_line.
  rewrite (cstr_app_0 (text "file" ++ spaced (entry_words ai))) by (eapply Forall_impl; [exact Hp|]; unfold printable; intros c ?; simpl in *; lia).
  change (cstr [10]) with [10]. rewrite existsb_app. change (existsb (Z.eqb 10) [10]) with true. rewrite orb_true_r. cbn [negb].
  assert (exists s, text "file" ++ spaced (entry_words ai) = 102 :: s ++ [file_type ai]) as [s Hs].
  { exists (text "ile" ++ spaced (take 4 (entry_words ai)) ++ [32]). unfold entry_words, spaced. cbn [take].
    rewrite !fmap_cons. cbn [concat fmap list_fmap]. rewrite <- !app_assoc. cbn [app]. by rewrite <- ?app_assoc. }
  pose proof Hok as [Hty [Hs0 _] _ _].
  rewrite Hs, sdstrim_line; [|done|destruct Ht as [Ht|[Ht|Ht]]; rewrite Hty, Ht; done|done]. rewrite <- Hs.
  rewrite bool_decide_false by (rewrite Hs; done).
  destruct keys_plain as (Hkfile & _ & _).
  rewrite (sdssplitargs_spelled (text "file") (text "file") (entry_args ai) (entry_words ai));
    [|by constructor|by eapply entry_spelled].
  simpl (_ || _). cbv iota. cbn [mbind option_bind]. rewrite (pairs_entry type) by done.
  replace (file_seq ai =? 0) with false by lia.
  replace (file_type ai =? 0) with false by (destruct Ht as [Ht|[Ht|Ht]]; rewrite Hty, Ht; done). by destruct ai.
Qed.

(** ** Reading the file *)

(** Adding entries one after the other. *)
Fixpoint add_infos (am : aofManifest) (maxseq : Z) (l : list aofInfo) : load_error + aofManifest * Z :=
  match l with
  | [] => inr (am, maxseq)
  | ai :: l => match add_info am maxseq ai with inl e => inl e | inr (am, maxseq) => add_infos am maxseq l end
  end.

Definition entry_ok (ai : aofInfo) : Prop := known_type (file_type ai) /\ info_ok (file_type ai) ai.

Lemma load_infos l : Forall entry_ok l -> forall fuel linenum am maxseq am' maxseq',
  (length l < fuel)%nat -> 0 <= linenum -> 0 < linenum + Z.of_nat (length l) -> add_infos am maxseq l = inr (am', maxseq') ->
  load_loop fuel (concat (aofInfoFormat [] <$> l)) linenum am maxseq = Some (inr am').
Proof.
  induction 1 as [|ai l [Ht Hok] Hl IH]; intros [|fuel] linenum am maxseq am' maxseq' Hf Hn Hpos Hadd; simpl in Hf; try lia.
  - simplify_eq/=. by replace (linenum =? 0) with false by lia.
  - rewrite fmap_cons, concat_cons. pose proof (ok_line _ _ Hok) as Hlen.
    rewrite (format_line [] (file_type ai)) in Hlen |- * by done. cbn [app] in Hlen |- *.
    pose proof (entry_printable _ ai Ht Hok) as Hp. pose proof (parse_entry _ ai Ht Hok) as Hparse.
    set (line := text "file" ++ spaced (entry_words ai)) in *. cbn [load_loop].
    assert (fgets MANIFEST_MAX_LINE ((line ++ [10]) ++ concat (aofInfoFormat [] <$> l)) = Some (line ++ [10], concat (aofInfoFormat [] <$> l))) as ->.
    { unfold fgets. rewrite <- app_assoc. cbn [app]. rewrite fgets_line.
      - by destruct line.
      - eapply Forall_impl; [exact Hp|]. unfold printable. intros c ?. simpl in *. lia.
      - rewrite length_app in Hlen. cbn [length] in Hlen. lia. }
    change (char_at (line ++ [10]) 0) with 102. cbn [Z.eqb Pos.eqb]. rewrite Hparse. cbn [mbind option_bind].
    cbn [add_infos] in Hadd. destruct (add_info am maxseq ai) as [e|[am1 m1]]; [done|].
    apply (IH fuel (linenum + 1) am1 m1 am' maxseq'); [lia|lia|lia|done].
Qed.

(** ** Manifests *)

Definition typed_ok (type : Z) (ai : aofInfo) : Prop := known_type type /\ info_ok type ai.

(** What the server keeps of a manifest: the types of its lists, names and numbers
    that can be written, and incremental files in order. *)
Record manifest_ok (am : aofManifest) : Prop := {
  mo_base : forall b, base_aof_info am = Some b -> typed_ok AOF_FILE_TYPE_BASE b;
  mo_hist : Forall (typed_ok AOF_FILE_TYPE_HIST) (history_aof_list am);
  mo_incr : Forall (typed_ok AOF_FILE_TYPE_INCR) (incr_aof_list am);
  mo_sorted : StronglySorted (fun a b => file_seq a < file_seq b) (incr_aof_list am) }.

Definition base_seq (am : aofManifest) : Z := match base_aof_info am with Some b => file_seq b | None => 0 end.
Definition incr_seq (am : aofManifest) : Z := match last (incr_aof_list am) with Some ai => file_seq ai | None => 0 end.

(** The manifest after a restart: the counters come from the entries. *)
Definition reloaded (am : aofManifest) : aofManifest :=
  AofManifest (base_aof_info am) (incr_aof_list am) (history_aof_list am) (base_seq am) (incr_seq am) false.

Definition entries (am : aofManifest) : list aofInfo := option_list (base_aof_info am) ++ history_aof_list am ++ incr_aof_list am.

Lemma format_fold l buf : fold_left aofInfoFormat l buf = buf ++ concat (aofInfoFormat [] <$> l).
Proof.
  revert buf. induction l as [|ai l IH]; intros buf; [by rewrite app_nil_r|]. cbn [fold_left].
  rewrite IH, fmap_cons, concat_cons, app_assoc. done.
Qed.

Lemma manifest_string am : getAofManifestAsString am = concat (aofInfoFormat [] <$> entries am).
Proof.
  unfold getAofManifestAsString, entries. rewrite !format_fold, !fmap_app, !concat_app, app_assoc. f_equal.
  f_equal. destruct (base_aof_info am); [|done]. simpl. by rewrite app_nil_r.
Qed.

Lemma add_history l : Forall (typed_ok AOF_FILE_TYPE_HIST) l -> forall am maxseq rest,
  add_infos am maxseq (l ++ rest) =
  add_infos (AofManifest (base_aof_info am) (incr_aof_list am) (history_aof_list am ++ l) (curr_base_file_seq am) (curr_incr_file_seq am) (dirty am)) maxseq rest.
Proof.
  induction 1 as [|ai l [_ [Ht _ _ _]] _ IH]; intros am maxseq rest; [rewrite app_nil_r; by destruct am|].
  cbn [app add_infos]. unfold add_info. rewrite Ht. simpl. rewrite IH. simpl. by rewrite <- app_assoc.
Qed.

Lemma add_incr l : Forall (typed_ok AOF_FILE_TYPE_INCR) l -> StronglySorted (fun a b => file_seq a < file_seq b) l ->
  forall am maxseq, Forall (fun ai => maxseq < file_seq ai) l -> exists maxseq',
  add_infos am maxseq l =
  inr (AofManifest (base_aof_info am) (incr_aof_list am ++ l) (history_aof_list am) (curr_base_file_seq am)
         (match last l with Some ai => file_seq ai | None => curr_incr_file_seq am end) (dirty am), maxseq').
Proof.
  intros Hl Hs. induction Hs as [|ai l Hs IH Hlt]; intros am maxseq Hmax.
  - exists maxseq. simpl. rewrite app_nil_r. by destruct am.
  - apply Forall_cons in Hl as [[_ [Ht _ _ _]] Hl]. apply Forall_cons in Hmax as [Hm Hmax]. cbn [add_infos]. unfold add_info.
    rewrite Ht. simpl. replace (file_seq ai <=? maxseq) with false by lia.
    edestruct (IH Hl) as [m' ->]; [exact Hlt|]. exists m'. simpl. rewrite <- app_assoc. cbn [app].
    destruct l as [|x l]; [done|]. rewrite last_cons_cons. destruct (last (x :: l)) eqn:E; [done|].
    by apply last_None in E.
Qed.

Lemma add_entries am : manifest_ok am -> exists maxseq, add_infos aofManifestCreate 0 (entries am) = inr (reloaded am, maxseq).
Proof.
  intros [Hb Hh Hi Hs]. unfold entries, reloaded, base_seq, incr_seq.
  assert (Hpos : Forall (fun ai => 0 < file_seq ai) (incr_aof_list am)).
  { eapply Forall_impl; [exact Hi|]. intros ai [_ [_ H _ _]]. exact (proj1 H). }
  destruct (base_aof_info am) as [b|].
  - change (option_list (Some b) ++ history_aof_list am ++ incr_aof_list am) with (b :: history_aof_list am ++ incr_aof_list am).
    cbn [add_infos]. unfold add_info. destruct (Hb b eq_refl) as [_ [Ht _ _ _]]. rewrite Ht. simpl. rewrite add_history by done.
    edestruct (add_incr (incr_aof_list am) Hi Hs) as [m' Hadd]; [exact Hpos|]. exists m'. rewrite Hadd. by destruct (last _).
  - change (option_list None ++ history_aof_list am ++ incr_aof_list am) with (history_aof_list am ++ incr_aof_list am).
    rewrite add_history by done. edestruct (add_incr (incr_aof_list am) Hi Hs) as [m' Hadd]; [exact Hpos|]. exists m'. rewrite Hadd. by destruct (last _).
Qed.

Lemma entries_ok am : manifest_ok am -> Forall entry_ok (entries am).
Proof.
  intros [Hb Hh Hi _]. assert (Hty : forall type ai, typed_ok type ai -> entry_ok ai).
  { intros type ai [Ht Hok]. pose proof (ok_type _ _ Hok). subst. done. }
  unfold entries. rewrite !Forall_app. split_and!; [|eapply Forall_impl; [eassumption|]; apply Hty..].
  destruct (base_aof_info am) as [b|]; [|constructor]. constructor; [eapply Hty, Hb; done|constructor].
Qed.

Lemma entries_length l : (length l <= length (concat (aofInfoFormat [] <$> l)))%nat.
Proof.
  induction l as [|ai l IH]; [done|]. rewrite fmap_cons, concat_cons, length_app. cbn [length].
  assert (1 <= length (aofInfoFormat [] ai))%nat by (simpl; lia). lia.
Qed.

Lemma load_manifest am : manifest_ok am -> entries am <> [] ->
  aofLoadManifestFromFile (getAofManifestAsString am) = Some (inr (reloaded am)).
Proof.
  intros Hok Hne. rewrite manifest_string. destruct (add_entries am Hok) as [m' Hadd].
  eapply load_infos; [by apply entries_ok| |lia| |exact Hadd].
  - pose proof (entries_length (entries am)). lia.
  - destruct (entries am); [done|]. simpl. lia.
Qed.

(** ** Single quotes *)

(** Inside single quotes every further quote is followed by a character that is not a space. *)
Lemma get_token_insq fuel current p : (length p < fuel)%nat ->
  (forall i, p !! i = Some 39 -> char_at p (S i) <> 0 /\ is_space (char_at p (S i)) = false) ->
  get_token fuel Insq current p = Some (inl tt).
Proof.
  revert current p. induction fuel as [|fuel IH]; [lia|]. intros current p Hf Hq. cbn [get_token].
  assert (Hnext : forall k current', (0 < k)%nat -> (k <= length p)%nat -> get_token fuel Insq current' (drop k p) = Some (inl tt)).
  { intros k current' Hk Hle. apply IH; [rewrite length_drop; lia|]. intros i. unfold char_at. rewrite !lookup_drop.
    replace (k + S i)%nat with (S (k + i)) by lia. apply Hq. }
  case_match eqn:E1; [|case_match eqn:E2; [|case_match eqn:E3; [done|]]].
  - apply Hnext; [lia|]. apply andb_true_iff in E1 as [_ E1]. apply (char_at_length p 1). lia.
  - apply Z.eqb_eq in E2. destruct (Hq 0%nat) as [H1 H2]; [|by rewrite (proj2 (Z.eqb_neq _ _) H1), H2].
    unfold char_at in E2. destruct (p !! 0%nat); simpl in E2; [by subst|done].
  - apply Hnext; [lia|]. apply (char_at_length p 0). lia.
Qed.

Lemma get_token_to_quote pre : Forall plain_char pre -> forall fuel current p, (length pre <= fuel)%nat ->
  get_token (S fuel) Unquoted current (pre ++ 39 :: p) = get_token (fuel - length pre) Insq (current ++ pre) p.
Proof.
  induction 1 as [|c pre (Hc & ? & ?) _ IH]; intros fuel current p Hf.
  - rewrite app_nil_r, Nat.sub_0_r. reflexivity.
  - destruct fuel as [|fuel]; [simpl in Hf; lia|]. cbn [length] in Hf |- *. rewrite Nat.sub_succ. cbn [app].
    transitivity (get_token (S fuel) Unquoted (current ++ [c]) (pre ++ 39 :: p)).
    + cbn [get_token]. rewrite char_at_cons. replace ((c =? 32) || (c =? 10) || (c =? 13) || (c =? 9)) with false by lia.
      replace (c =? 0) with false by lia. replace (c =? 34) with false by lia. by replace (c =? 39) with false by lia.
    + rewrite IH by lia. by rewrite <- app_assoc.
Qed.

Definition unquoted_char (c : Z) : Prop := 33 <= c <= 126 /\ c <> 34 /\ c <> 92.

Lemma sdsneedsrepr_chars t : sdsneedsrepr t = false <-> Forall unquoted_char t.
Proof.
  unfold sdsneedsrepr. induction t as [|c t IH]; [done|]. cbn [existsb]. rewrite orb_false_iff, IH, Forall_cons.
  assert (Hc : ((c =? 92) || (c =? 34) || (c =? 10) || (c =? 13) || (c =? 9) || (c =? 7) || (c =? 8) || negb (isprint c) || is_space c) = false
    <-> unquoted_char c); [unfold isprint, is_space, unquoted_char; lia|]. by rewrite Hc.
Qed.

Lemma split_at_quote f : Forall unquoted_char f -> 39 ∈ f -> exists pre post, f = pre ++ 39 :: post /\ Forall plain_char pre /\ Forall unquoted_char post.
Proof.
  intros Hf Hin. induction Hf as [|c f Hc Hf IH]; [by apply elem_of_nil in Hin|]. destruct (decide (c = 39)) as [->|Hne]; [by exists [], f|].
  destruct IH as (pre & post & -> & Hpre & Hpost); [set_solver|]. exists (c :: pre), post. split_and!; [done|constructor; [|done]|done].
  destruct Hc as (? & ? & ?). done.
Qed.

(** An argument with a quote, the last one of its kind on a line, and more of it behind. *)
Lemma split_quoted f c rest fuel vector : Forall unquoted_char f -> 39 ∈ f -> c <> 0 -> is_space c = false -> 39 ∉ c :: rest ->
  split_loop (S fuel) (32 :: f ++ c :: rest) vector = Some (inl tt).
Proof.
  intros Hf Hin Hc Hsp Hrest. destruct (split_at_quote f Hf Hin) as (pre & post & -> & Hpre & Hpost). clear Hf Hin. cbn [split_loop].
  assert (Hhd : skip_blanks (32 :: (pre ++ 39 :: post) ++ c :: rest) = pre ++ 39 :: post ++ c :: rest /\ char_at (pre ++ 39 :: post ++ c :: rest) 0 <> 0).
  { change (skip_blanks (32 :: ?l)) with (skip_blanks l). rewrite <- app_assoc. cbn [app]. destruct Hpre as [|x pre (Hx & _ & _) _]; [done|].
    cbn [app skip_blanks]. rewrite char_at_cons. split; [|lia]. unfold is_space. case_match; [lia|done]. }
  destruct Hhd as [-> Hnz]. rewrite (proj2 (Z.eqb_neq _ _) Hnz).
  rewrite get_token_to_quote by (try done; rewrite length_app; lia). rewrite get_token_insq; [done|rewrite !length_app; cbn [length]; rewrite ?length_app; cbn [length]; lia|].
  intros i Hi. destruct (decide (i < length post)%nat) as [Hlt|Hge].
  - unfold char_at. destruct (decide (S i < length post)%nat) as [Hlt'|].
    + rewrite lookup_app_l by done. destruct (lookup_lt_is_Some_2 post (S i) Hlt') as [y Hy]. rewrite Hy. simpl.
      destruct (Forall_lookup_1 _ _ _ _ Hpost Hy) as (? & ? & ?). unfold is_space. lia.
    + rewrite lookup_app_r by lia. replace (S i - length post)%nat with 0%nat by lia. done.
  - exfalso. apply Hrest. rewrite lookup_app_r in Hi by lia. by apply list_elem_of_lookup_2 in Hi.
Qed.

Definition base_line (f : list Z) (rdb : bool) : list Z :=
  text "file " ++ f ++ (if rdb then text ".1.base.rdb seq 1 type " else text ".1.base.aof seq 1 type ").

Lemma format_first f (rdb : bool) : Forall unquoted_char f ->
  aofInfoFormat [] (AofInfo (f ++ text "." ++ decimal_signed 1 ++ text ".base" ++ (if rdb then text ".rdb" else text ".aof")) 1 AOF_FILE_TYPE_BASE) =
  (base_line f rdb ++ [98]) ++ [10].
Proof.
  intros Hf. set (suf := text "." ++ decimal_signed 1 ++ text ".base" ++ (if rdb then text ".rdb" else text ".aof")).
  assert (Hn : Forall unquoted_char (f ++ suf)).
  { apply Forall_app. split; [done|]. apply sdsneedsrepr_chars. by destruct rdb. }
  unfold aofInfoFormat. cbn [file_name file_seq file_type]. rewrite (proj2 (sdsneedsrepr_chars _) Hn), cstr_id.
  - unfold base_line. rewrite <- !app_assoc. by destruct rdb.
  - eapply Forall_impl; [exact Hn|]. unfold unquoted_char. intros c ?. simpl in *. lia.
Qed.

Lemma parse_first f (rdb : bool) : Forall unquoted_char f -> 39 ∈ f -> parse_line ((base_line f rdb ++ [98]) ++ [10]) = Some (inl InvalidFormat).
Proof.
  intros Hf Hin. assert (H0 : Forall (fun c => c <> 0) (base_line f rdb ++ [98])).
  { unfold base_line. rewrite !Forall_app. split_and!; [by repeat constructor| |by destruct rdb; repeat constructor|by repeat constructor].
    eapply Forall_impl; [exact Hf|]. unfold unquoted_char. intros c ?. simpl in *. lia. }
  unfold parse_line. rewrite cstr_app_0 by done. change (cstr [10]) with [10]. rewrite existsb_app. change (existsb (Z.eqb 10) [10]) with true.
  rewrite orb_true_r. cbn [negb].
  change (base_line f rdb) with (102 :: text "ile " ++ f ++ (if rdb then text ".1.base.rdb seq 1 type " else text ".1.base.aof seq 1 type ")).
  rewrite <- (app_comm_cons _ [98] 102), sdstrim_line by done. rewrite bool_decide_false by done.
  set (rest := (if rdb then text "1.base.rdb seq 1 type " else text "1.base.aof seq 1 type ") ++ [98]).
  replace (102 :: (text "ile " ++ f ++ (if rdb then text ".1.base.rdb seq 1 type " else text ".1.base.aof seq 1 type ")) ++ [98])
    with (text "file" ++ 32 :: f ++ 46 :: rest) by (subst rest; rewrite <- !app_assoc; by destruct rdb).
  assert (Hsplit : sdssplitargs (text "file" ++ 32 :: f ++ 46 :: rest) = Some (inl tt)); [|by rewrite Hsplit].
  unfold sdssplitargs. cbn [split_loop]. change (skip_blanks (text "file" ++ ?l)) with (text "file" ++ l).
  change (char_at (text "file" ++ ?l) 0 =? 0) with false. cbv iota.
  destruct (get_token_spelled (text "file") (text "file") (32 :: f ++ 46 :: rest)) as (r & Hr & Hb);
    [constructor; [done|apply keys_plain]|right; by eexists|]. rewrite Hr. cbn [mbind option_bind].
  transitivity (split_loop (length (text "file" ++ 32 :: f ++ 46 :: rest)) (32 :: f ++ 46 :: rest) ([] ++ [text "file"])).
  - rewrite length_app. cbn [length Nat.add text fmap list_fmap list_ascii_of_string split_loop]. by rewrite Hb.
  - rewrite length_app. apply split_quoted; [done|done|done|done|]. subst rest. apply not_elem_of_cons. split; [done|].
    destruct rdb; apply (bool_decide_unpack _); vm_compute; exact I.
Qed.

Lemma entries_base am b : base_aof_info am = Some b -> exists l, entries am = b :: l.
Proof. unfold entries. intros ->. by eexists. Qed.

Lemma first_base f (rdb : bool) am1 name : getNewBaseFileNameAndMarkPreAsHistory f aofManifestCreate rdb = Some (name, am1) ->
  base_aof_info am1 = Some (AofInfo (f ++ text "." ++ decimal_signed 1 ++ text ".base" ++ (if rdb then text ".rdb" else text ".aof")) 1 AOF_FILE_TYPE_BASE).
Proof. intros H. injection H as _ <-. done. Qed.

(** C34: a configured append only file name with a single quote and nothing that
    makes [sdscatrepr] quote it is written to the manifest as it is; the manifest of
    the first start is then refused by the loader, which ends the server at every
    later start. *)
Theorem single_quote_refused f rdb am1 name : sdsneedsrepr f = false -> 39 ∈ f -> (length f <= 255)%nat ->
  getNewBaseFileNameAndMarkPreAsHistory f aofManifestCreate rdb = Some (name, am1) ->
  aofLoadManifestFromFile (getAofManifestAsString (getNewIncrAofName f am1).2) = Some (inl InvalidFormat).
Proof.
  intros Hf%sdsneedsrepr_chars Hin Hlen Hb%first_base. rewrite manifest_string.
  edestruct (entries_base (getNewIncrAofName f am1).2) as [l ->]; [exact Hb|]. rewrite fmap_cons, concat_cons.
  rewrite format_first by done. unfold aofLoadManifestFromFile. cbn [load_loop].
  assert (Hg : forall rest, fgets MANIFEST_MAX_LINE (((base_line f rdb ++ [98]) ++ [10]) ++ rest) = Some ((base_line f rdb ++ [98]) ++ [10], rest)).
  { intros rest. unfold fgets. rewrite <- app_assoc. cbn [app]. rewrite fgets_line; [done| |].
    - unfold base_line. rewrite !Forall_app. split_and!; [by repeat constructor| |by destruct rdb; repeat constructor|by repeat constructor].
      eapply Forall_impl; [exact Hf|]. unfold unquoted_char. intros c ?. simpl in *. lia.
    - unfold base_line, MANIFEST_MAX_LINE. rewrite !length_app. destruct rdb; simpl (length (text _)); cbn [length]; lia. }
  rewrite Hg. change (char_at ((base_line f rdb ++ [98]) ++ [10]) 0 =? 35) with false. cbv iota. by rewrite parse_first.
Qed.

Lemma single_quote_refused_witness :
  aofLoadManifestFromFile (getAofManifestAsString (getNewIncrAofName (text "o'brien.aof")
    (AofManifest (Some (AofInfo (text "o'brien.aof.1.base.rdb") 1 AOF_FILE_TYPE_BASE)) [] [] 1 0 true)).2) = Some (inl InvalidFormat).
Proof.
  apply (single_quote_refused (text "o'brien.aof") true _ (text "o'brien.aof.1.base.rdb"));
    [reflexivity|apply (bool_decide_unpack _); vm_compute; exact I|vm_compute; lia|vm_compute; reflexivity].
Defined.


#[global] Instance name_char_dec c : Decision (name_char c).
Proof. unfold name_char. apply _. Defined.

#[global] Instance good_name_dec n : Decision (good_name n).
Proof. unfold good_name. apply _. Defined.

Definition sample : aofManifest :=
  AofManifest (Some (AofInfo (text "my 'log'.2.base.rdb") 2 AOF_FILE_TYPE_BASE))
    [AofInfo (text "a.aof.7.incr.aof") 7 AOF_FILE_TYPE_INCR; AofInfo (text "a.aof.9.incr.aof") 9 AOF_FILE_TYPE_INCR]
    [AofInfo (text "a.aof.1.base.aof") 1 AOF_FILE_TYPE_HIST; AofInfo (text "a.aof.6.incr.aof") 6 AOF_FILE_TYPE_HIST] 2 9 true.

Lemma sample_entry type ai : file_type ai = type -> bool_decide (good_name (file_name ai)) = true -> bool_decide (0 < file_seq ai < 2 ^ 63) = true ->
  Nat.leb (length (aofInfoFormat [] ai)) 1024 = true -> info_ok type ai.
Proof. intros H0 H1%bool_decide_eq_true H2%bool_decide_eq_true H3%Nat.leb_le. by constructor. Qed.

Lemma sample_ok : manifest_ok sample.
Proof.
  constructor.
  - intros b [= <-]. split; [by left|]. apply sample_entry; vm_compute; reflexivity.
  - repeat apply Forall_cons_2; try apply Forall_nil_2; (split; [right; by left|]; apply sample_entry; vm_compute; reflexivity).
  - repeat apply Forall_cons_2; try apply Forall_nil_2; (split; [right; by right|]; apply sample_entry; vm_compute; reflexivity).
  - repeat constructor.
Qed.

