(* ===== verification/AofFs.v ===== *)
(** * The append only files on disk (src/aof.c)

    The functions of src/aof.c that open, write, rename and delete the append only
    files, over a model of the directory.  Every system call takes an event from a
    list that says whether it succeeds, fails, or the process dies before it, so
    a run covers every failure and every crash point between two calls.

    The files hold commands: [Sel] is the SELECT that [feedAppendOnlyFile] adds and
    [Run] a command or a whole transaction.  Executing a command and writing a rewritten file for a
    dataset are operations of the class [AofData].  File names are bytes, and the
    directory maps them to numbered files, so an open file keeps its identity when it is
    renamed or removed. *)
From S2P Require Import Prelude Numconv NumconvSpec Sds Aof.
From Stdlib Require Import ZArith Lia Ascii String.
From stdpp Require Import prelude list gmap.

#[local] Open Scope Z_scope.

#[global] Instance aofInfo_eq_dec : EqDecision aofInfo.
Proof. solve_decision. Defined.

Inductive entry (cmd : Type) := Sel (dictid : Z) | Run (c : cmd).
Arguments Sel {_}.
Arguments Run {_}.

(** [call] executes a command in a database; [rewritten] is what [rewriteAppendOnlyFile] writes. *)
Class AofData (db cmd : Type) := {
  no_data : db;
  call : Z -> cmd -> db -> db;
  rewritten : db -> list (entry cmd) }.

Inductive syscall := SOpen | SWrite | SFsync | SRename | SDirSync | SUnlink | SAppend (force : bool) | SMkdir | SStat | SFork | SRewrite.

(** [Short n] is a [write] of [n + 1] bytes; the other calls take it as [Done]. *)
Inductive event := Done | Short (n : nat) | Fails | Crash.

(** [may_fail] are the calls the environment can make fail. *)
Record config := Config {
  aof_filename : list Z;
  aof_use_rdb_preamble : bool;
  aof_disable_auto_gc : bool;
  aof_fsync_always : bool;
  may_fail : syscall -> bool }.

Inductive aofstate := AOF_OFF | AOF_ON | AOF_WAIT_REWRITE.

Section Aof.
Context {db cmd : Type} `{AofData db cmd} (cfg : config).

(** [aof_dir] is whether the directory exists, [old_aof] a file named
    [server.aof_filename] outside it. *)
Record disk := Disk {
  aof_dir : bool;
  dir : gmap (list Z) nat;
  files : gmap nat (list (entry cmd));
  next_file : nat;
  manifest_file : option (list Z);
  temp_manifest : option (list Z);
  old_aof : option (list (entry cmd)) }.

(** [child] is the dataset of the running rewrite child. *)
Record server := Server {
  aof_state : aofstate;
  aof_manifest : aofManifest;
  aof_fd : option nat;
  aof_buf : list (entry cmd);
  aof_selected_db : Z;
  child : option db;
  aof_rewrite_scheduled : bool;
  data : db }.

Record world := World { srv : server; dsk : disk }.

(** [Halt] is the end of the process, [Abort] a failed [serverAssert]. *)
Inductive outcome (A : Type) := Ret (a : A) (w : world) (o : list event) | Halt (w : world) | Abort.
Arguments Ret {_}.
Arguments Halt {_}.
Arguments Abort {_}.

Definition M (A : Type) : Type := world -> list event -> outcome A.

#[global] Instance M_ret : MRet M := fun A a w o => Ret a w o.
#[global] Instance M_bind : MBind M := fun A B k m w o =>
  match m w o with Ret a w o => k a w o | Halt w => Halt w | Abort => Abort end.

Definition exit {A} : M A := fun w _ => Halt w.
Definition assert (b : bool) : M unit := fun w o => if b then Ret tt w o else Abort.
Definition lift {A} (x : option A) : M A := fun w o => match x with Some a => Ret a w o | None => Abort end.
Definition getw : M world := fun w o => Ret w w o.
Definition modify (f : server -> server) : M unit := fun w o => Ret tt (World (f (srv w)) (dsk w)) o.

(** A system call with its effect when it succeeds and its value when it does not. *)
Definition sys {A} (k : syscall) (eff : disk -> A * disk) (err : A) : M A := fun w o =>
  let run (o : list event) := let '(a, d) := eff (dsk w) in Ret a (World (srv w) d) o in
  match o with
  | Crash :: _ => Halt w
  | Fails :: o => if may_fail cfg k then Ret err w o else run o
  | _ :: o => run o
  | [] => run []
  end.

(** ** The directory *)

Definition set_dir (d : disk) (m : gmap (list Z) nat) : disk :=
  Disk (aof_dir d) m (files d) (next_file d) (manifest_file d) (temp_manifest d) (old_aof d).
Definition set_files (d : disk) (f : gmap nat (list (entry cmd))) : disk :=
  Disk (aof_dir d) (dir d) f (next_file d) (manifest_file d) (temp_manifest d) (old_aof d).
Definition set_manifests (d : disk) (m t : option (list Z)) : disk :=
  Disk (aof_dir d) (dir d) (files d) (next_file d) m t (old_aof d).

(** A new file under [name] with the content [l]; a file of that name loses it. *)
Definition place (name : list Z) (l : list (entry cmd)) (d : disk) : disk :=
  Disk (aof_dir d) (<[name := next_file d]> (dir d)) (<[next_file d := l]> (files d)) (S (next_file d))
    (manifest_file d) (temp_manifest d) (old_aof d).

Definition content (d : disk) (name : list Z) : option (list (entry cmd)) := i ← dir d !! name; files d !! i.

(** [open] for writing with O_CREAT and O_TRUNC, or with O_CREAT and O_APPEND. *)
Definition open_file (trunc : bool) (name : list Z) : M (option nat) :=
  sys SOpen (fun d =>
    match dir d !! name with
    | Some i => (Some i, if trunc then set_files d (<[i := []]> (files d)) else d)
    | None => (Some (next_file d), place name [] d)
    end) None.

Definition bg_unlink (name : list Z) : M unit := sys SUnlink (fun d => (tt, set_dir d (delete name (dir d)))) tt.

Definition rename_file (from to : list Z) : M bool :=
  sys SRename (fun d => match dir d !! from with
                        | Some i => (true, set_dir d (<[to := i]> (delete from (dir d))))
                        | None => (false, d)
                        end) false.

Definition dirCreateIfMissing : M bool :=
  sys SMkdir (fun d => (true, Disk true (dir d) (files d) (next_file d) (manifest_file d) (temp_manifest d) (old_aof d))) false.

(** ** The manifest file *)

(** [rest] is what has still to be written to the temporary file. *)
Fixpoint write_loop (fuel : nat) (rest : list Z) : M bool :=
  match fuel, rest with
  | _, [] => mret true
  | O, _ => fun _ _ => Abort
  | S fuel, _ => fun w o =>
      let n := match o with Short n :: _ => Nat.min (length rest) (S n) | _ => length rest end in
      (ok ← sys SWrite (fun d => (true, set_manifests d (manifest_file d) (Some (default [] (temp_manifest d) ++ take n rest)))) false;
       if ok : bool then write_loop fuel (drop n rest) else mret false) w o
  end.

Definition writeAofManifestFile (buf : list Z) : M bool :=
  fd ← sys SOpen (fun d => (true, set_manifests d (manifest_file d) (Some []))) false;
  if negb fd then mret false
  else
    ok ← write_loop (length buf) buf;
    if negb ok then mret false
    else
      ok ← sys SFsync (fun d => (true, d)) false;
      if negb ok then mret false
      else
        ok ← sys SRename (fun d => (true, set_manifests d (temp_manifest d) None)) false;
        if negb ok then mret false
        else sys SDirSync (fun d => (true, d)) false.

(** The result and the manifest with its [dirty] flag. *)
Definition persistAofManifest (am : aofManifest) : M (bool * aofManifest) :=
  if negb (dirty am) then mret (true, am)
  else
    ret ← writeAofManifestFile (getAofManifestAsString am);
    mret (ret, if ret : bool then set_dirty am false else am).

(** ** Loading *)

Inductive load_status := AOF_OK | AOF_NOT_EXIST | AOF_EMPTY | AOF_OPEN_ERR | AOF_FAILED.

(** The fake client: the database it has selected, and the dataset. *)
Definition run_entry (s : Z * db) (e : entry cmd) : Z * db :=
  match e with Sel n => (n, s.2) | Run c => (s.1, call s.1 c s.2) end.

Definition replay (l : list (entry cmd)) (d : db) : db := (fold_left run_entry l (0, d)).2.

Definition set_data (s : server) (d : db) : server :=
  Server (aof_state s) (aof_manifest s) (aof_fd s) (aof_buf s) (aof_selected_db s) (child s) (aof_rewrite_scheduled s) d.
Definition set_am (s : server) (am : aofManifest) : server :=
  Server (aof_state s) am (aof_fd s) (aof_buf s) (aof_selected_db s) (child s) (aof_rewrite_scheduled s) (data s).
Definition set_fd (s : server) (fd : option nat) : server :=
  Server (aof_state s) (aof_manifest s) fd (aof_buf s) (aof_selected_db s) (child s) (aof_rewrite_scheduled s) (data s).
Definition set_state (s : server) (st : aofstate) : server :=
  Server st (aof_manifest s) (aof_fd s) (aof_buf s) (aof_selected_db s) (child s) (aof_rewrite_scheduled s) (data s).
Definition set_buf (s : server) (buf : list (entry cmd)) : server :=
  Server (aof_state s) (aof_manifest s) (aof_fd s) buf (aof_selected_db s) (child s) (aof_rewrite_scheduled s) (data s).
Definition set_selected (s : server) (n : Z) : server :=
  Server (aof_state s) (aof_manifest s) (aof_fd s) (aof_buf s) n (child s) (aof_rewrite_scheduled s) (data s).
Definition set_child (s : server) (c : option db) : server :=
  Server (aof_state s) (aof_manifest s) (aof_fd s) (aof_buf s) (aof_selected_db s) c (aof_rewrite_scheduled s) (data s).
Definition set_scheduled (s : server) (b : bool) : server :=
  Server (aof_state s) (aof_manifest s) (aof_fd s) (aof_buf s) (aof_selected_db s) (child s) b (data s).

Definition aofLoadManifestFromDisk : M unit :=
  modify (fun s => set_am s aofManifestCreate);;
  w ← getw;
  match (if aof_dir (dsk w) then manifest_file (dsk w) else None) with
  | None => mret tt
  | Some fp =>
      ok ← sys SOpen (fun d => (true, d)) false;
      if negb ok then exit
      else
        r ← lift (aofLoadManifestFromFile fp);
        match r with
        | inl _ => exit
        | inr am => modify (fun s => set_am s am)
        end
  end.

(** The size counts entries. *)
Definition getAppendOnlyFileSize (name : list Z) : M (load_status * nat) :=
  sys SStat (fun d => (match content d name with Some l => (AOF_OK, length l) | None => (AOF_NOT_EXIST, 0%nat) end, d)) (AOF_OPEN_ERR, 0%nat).

Fixpoint files_size (l : list aofInfo) (type : Z) (size : nat) : M (load_status * nat) :=
  match l with
  | [] => mret (AOF_OK, size)
  | ai :: l =>
      assert (file_type ai =? type);;
      r ← getAppendOnlyFileSize (file_name ai);
      match r with
      | (AOF_OK, n) => files_size l type (size + n)
      | (status, _) => mret (status, 0%nat)
      end
  end.

Definition getBaseAndIncrAppendOnlyFilesSize (am : aofManifest) : M (load_status * nat) :=
  r ← files_size (option_list (base_aof_info am)) AOF_FILE_TYPE_BASE 0;
  match r with
  | (AOF_OK, size) => files_size (incr_aof_list am) AOF_FILE_TYPE_INCR size
  | (status, _) => mret (status, 0%nat)
  end.

Definition loadSingleAppendOnlyFile (name : list Z) : M load_status :=
  r ← sys SOpen (fun d => (match content d name with Some l => inr l | None => inl AOF_NOT_EXIST end, d)) (inl AOF_OPEN_ERR);
  match r with
  | inl status => mret status
  | inr [] => mret AOF_EMPTY
  | inr l => modify (fun s => set_data s (replay l (data s)));; mret AOF_OK
  end.

(** The files one after the other, up to one that cannot be loaded. *)
Fixpoint load_files (l : list aofInfo) (type : Z) (ret : load_status) : M load_status :=
  match l with
  | [] => mret ret
  | ai :: l =>
      assert (file_type ai =? type);;
      ret ← loadSingleAppendOnlyFile (file_name ai);
      match ret with
      | AOF_OPEN_ERR | AOF_FAILED => mret ret
      | AOF_EMPTY => load_files l type (if type =? AOF_FILE_TYPE_INCR then AOF_OK else AOF_EMPTY)
      | _ => load_files l type ret
      end
  end.

Definition aofFileExist (name : list Z) (d : disk) : bool := aof_dir d && bool_decide (is_Some (dir d !! name)).

(** The manifest in memory is [server.aof_manifest]. *)
Definition aofUpgradePrepare : M unit :=
  w ← getw;
  assert (negb (aofFileExist (aof_filename cfg) (dsk w)));;
  ok ← dirCreateIfMissing;
  if negb ok then exit
  else
    let am := aof_manifest (srv w) in
    let am := AofManifest (Some (AofInfo (aof_filename cfg) 1 AOF_FILE_TYPE_BASE)) (incr_aof_list am) (history_aof_list am) 1
                (curr_incr_file_seq am) true in
    modify (fun s => set_am s am);;
    r ← persistAofManifest am;
    modify (fun s => set_am s r.2);;
    if negb r.1 then exit
    else
      ok ← sys SRename (fun d =>
             match old_aof d with
             | Some l => let d := place (aof_filename cfg) l d in
                         (true, Disk (aof_dir d) (dir d) (files d) (next_file d) (manifest_file d) (temp_manifest d) None)
             | None => (false, d)
             end) false;
      if negb ok then exit else mret tt.

Definition needs_upgrade (am : aofManifest) (d : disk) : bool :=
  bool_decide (is_Some (old_aof d)) &&
  (negb (aof_dir d) ||
   bool_decide (base_aof_info am = None /\ incr_aof_list am = []) ||
   match base_aof_info am with
   | Some b => bool_decide (incr_aof_list am = []) && bool_decide (cstr (file_name b) = cstr (aof_filename cfg)) &&
               negb (aofFileExist (aof_filename cfg) d)
   | None => false
   end).

Definition loadAppendOnlyFiles : M load_status :=
  w ← getw;
  (if needs_upgrade (aof_manifest (srv w)) (dsk w) then aofUpgradePrepare else mret tt);;
  w ← getw;
  let am := aof_manifest (srv w) in
  if bool_decide (base_aof_info am = None /\ incr_aof_list am = []) then mret AOF_NOT_EXIST
  else
    r ← getBaseAndIncrAppendOnlyFilesSize am;
    match r with
    | (AOF_OK, O) => mret AOF_EMPTY
    | (AOF_OK, _) =>
        ret ← load_files (option_list (base_aof_info am)) AOF_FILE_TYPE_BASE AOF_OK;
        match ret with
        | AOF_OPEN_ERR | AOF_FAILED => mret ret
        | _ => load_files (incr_aof_list am) AOF_FILE_TYPE_INCR ret
        end
    | (AOF_NOT_EXIST, _) => mret AOF_FAILED
    | (status, _) => mret status
    end.

(** With [appendonly yes]; without it the dataset comes from elsewhere. *)
Definition loadDataFromDisk : M unit :=
  ret ← loadAppendOnlyFiles;
  match ret with AOF_FAILED | AOF_OPEN_ERR => exit | _ => mret tt end.

(** ** History files *)

Fixpoint del_history_loop (l : list aofInfo) : M unit :=
  match l with
  | [] => mret tt
  | ai :: l =>
      assert (file_type ai =? AOF_FILE_TYPE_HIST);;
      bg_unlink (file_name ai);;
      modify (fun s => let am := aof_manifest s in
        set_am s (AofManifest (base_aof_info am) (incr_aof_list am) l (curr_base_file_seq am) (curr_incr_file_seq am) (dirty am)));;
      del_history_loop l
  end.

Definition aofDelHistoryFiles : M bool :=
  w ← getw;
  let am := aof_manifest (srv w) in
  if aof_disable_auto_gc cfg || bool_decide (history_aof_list am = []) then mret true
  else
    del_history_loop (history_aof_list am);;
    modify (fun s => set_am s (set_dirty (aof_manifest s) true));;
    w ← getw;
    r ← persistAofManifest (aof_manifest (srv w));
    modify (fun s => set_am s r.2);;
    mret r.1.

Definition aofDelTempIncrAofFile : M unit := bg_unlink (getTempIncrAofName (aof_filename cfg)).

(** ** Start of the server *)

Definition aofOpenIfNeededOnServerStart : M unit :=
  w ← getw;
  match aof_state (srv w) with
  | AOF_ON =>
      assert (bool_decide (aof_fd (srv w) = None));;
      ok ← dirCreateIfMissing;
      if negb ok then exit
      else
        let am := aof_manifest (srv w) in
        am ← (if bool_decide (base_aof_info am = None) && bool_decide (incr_aof_list am = []) then
                r ← lift (getNewBaseFileNameAndMarkPreAsHistory (aof_filename cfg) am (aof_use_rdb_preamble cfg));
                ok ← sys SRewrite (fun d => (true, place r.1 (rewritten (data (srv w))) d)) false;
                if negb ok then exit else mret r.2
              else mret am);
        let '(aof_name, am) := getLastIncrAofName (aof_filename cfg) am in
        fd ← open_file false aof_name;
        match fd with
        | None => exit
        | Some fd =>
            modify (fun s => set_fd (set_am s am) (Some fd));;
            r ← persistAofManifest am;
            modify (fun s => set_am s r.2);;
            if negb r.1 then exit else mret tt
        end
  | _ => mret tt
  end.

(** ** Rewriting *)

Definition openNewIncrAofForAppend : M bool :=
  w ← getw;
  match aof_state (srv w) with
  | AOF_OFF => mret true
  | st =>
      let '(new_aof_name, temp_am) :=
        match st with
        | AOF_WAIT_REWRITE => (getTempIncrAofName (aof_filename cfg), None)
        | _ => let '(name, am) := getNewIncrAofName (aof_filename cfg) (aof_manifest (srv w)) in (name, Some am)
        end in
      newfd ← open_file true new_aof_name;
      match newfd with
      | None => mret false
      | Some newfd =>
          r ← match temp_am with
              | Some am => r ← persistAofManifest am; mret (r.1, Some r.2)
              | None => mret (true, None)
              end;
          if negb r.1 then mret false
          else
            modify (fun s => let s := set_fd s (Some newfd) in match r.2 with Some am => set_am s am | None => s end);;
            mret true
      end
  end.

(** The commands of [aof_buf] in one [write].  A write that fails, or that was short and is
    undone by [ftruncate], leaves the buffer; so does one that is postponed when [force] is not set. *)
Definition flushAppendOnlyFile (force : bool) : M unit :=
  w ← getw;
  match aof_buf (srv w), aof_fd (srv w) with
  | [], _ => mret tt
  | _, None => if aof_fsync_always cfg then exit else mret tt
  | buf, Some fd =>
      ok ← sys (SAppend force) (fun d => (true, set_files d (alter (fun l => l ++ buf) fd (files d)))) false;
      if negb ok then if aof_fsync_always cfg then exit else mret tt
      else
        modify (fun s => set_buf s []);;
        if aof_fsync_always cfg then
          ok ← sys SFsync (fun d => (true, d)) false;
          if negb ok then exit else mret tt
        else mret tt
  end.

(** [dictid] -1 writes no SELECT. *)
Definition feedAppendOnlyFile (dictid : Z) (c : cmd) : M unit :=
  modify (fun s =>
    let select := negb (dictid =? -1) && negb (dictid =? aof_selected_db s) in
    let buf := (if select then [Sel dictid] else []) ++ [Run c] in
    let s := if select then set_selected s dictid else s in
    match aof_state s, child s with
    | AOF_ON, _ | AOF_WAIT_REWRITE, Some _ => set_buf s (aof_buf s ++ buf)
    | _, _ => s
    end).

Definition rewriteAppendOnlyFileBackground : M bool :=
  w ← getw;
  match child (srv w) with
  | Some _ => mret false
  | None =>
      ok ← dirCreateIfMissing;
      if negb ok then mret false
      else
        modify (fun s => set_selected s (-1));;
        flushAppendOnlyFile true;;
        ok ← openNewIncrAofForAppend;
        if negb ok then mret false
        else
          ok ← sys SFork (fun d => (true, d)) false;
          if negb ok then mret false
          else modify (fun s => set_scheduled (set_child s (Some (data s))) false);; mret true
  end.

Definition killAppendOnlyChild : M unit := modify (fun s => set_child s None).

Definition stopAppendOnly : M unit :=
  w ← getw;
  assert (negb match aof_state (srv w) with AOF_OFF => true | _ => false end);;
  (match aof_fd (srv w) with Some _ => flushAppendOnlyFile true;; sys SFsync (fun d => (tt, d)) tt | None => mret tt end);;
  modify (fun s => set_scheduled (set_state (set_selected (set_fd s None) (-1)) AOF_OFF) false);;
  killAppendOnlyChild;;
  modify (fun s => set_buf s []).

(** Outside a transaction; the only child there can be is one that rewrites. *)
Definition startAppendOnly : M bool :=
  w ← getw;
  assert match aof_state (srv w) with AOF_OFF => true | _ => false end;;
  modify (fun s => set_state s AOF_WAIT_REWRITE);;
  (match child (srv w) with Some _ => killAppendOnlyChild | None => mret tt end);;
  ok ← rewriteAppendOnlyFileBackground;
  if negb ok then modify (fun s => set_state s AOF_OFF);; mret false else mret true.

(** The part of [backgroundRewriteDoneHandler] for a child that succeeded; [snapshot] is the
    dataset the child wrote to its temporary file. *)
Definition rewrite_succeeded (snapshot : db) : M unit :=
  w ← getw;
  r ← lift (getNewBaseFileNameAndMarkPreAsHistory (aof_filename cfg) (aof_manifest (srv w)) (aof_use_rdb_preamble cfg));
  let '(new_base, temp_am) := r in
  ok ← sys SRename (fun d => (true, place new_base (rewritten snapshot) d)) false;
  if negb ok then mret tt
  else
    r ← match aof_state (srv w) with
        | AOF_WAIT_REWRITE =>
            let '(new_incr, temp_am) := getNewIncrAofName (aof_filename cfg) temp_am in
            ok ← rename_file (getTempIncrAofName (aof_filename cfg)) new_incr;
            if negb ok then bg_unlink new_base;; mret None else mret (Some (Some new_incr, temp_am))
        | _ => mret (Some (None, temp_am))
        end;
    match r with
    | None => mret tt
    | Some (new_incr, temp_am) =>
        temp_am ← lift (markRewrittenIncrAofAsHistory (bool_decide (is_Some (aof_fd (srv w)))) temp_am);
        r ← persistAofManifest temp_am;
        if negb r.1 then
          bg_unlink new_base;;
          match new_incr with Some name => bg_unlink name | None => mret tt end
        else
          modify (fun s => set_am s r.2);;
          aofDelHistoryFiles;;
          modify (fun s => match aof_state s with AOF_WAIT_REWRITE => set_state s AOF_ON | _ => s end)
    end.

Definition backgroundRewriteDoneHandler (success : bool) : M unit :=
  w ← getw;
  (match success, child (srv w) with true, Some snapshot => rewrite_succeeded snapshot | _, _ => mret tt end);;
  w ← getw;
  match aof_state (srv w) with
  | AOF_WAIT_REWRITE =>
      modify (fun s => set_buf s []);;
      aofDelTempIncrAofFile;;
      modify (fun s => set_scheduled s true)
  | _ => mret tt
  end.

(** ** Running *)

Inductive op := OCommand (dictid : Z) (c : cmd) | OFlush | ORewrite | OChildDone (success : bool) | OStop | OStart.

(** A command that changes the dataset is propagated after it has run; [beforeSleep]
    flushes; BGREWRITEAOF and [serverCron] start a rewrite; [checkChildrenDone] ends one;
    CONFIG SET appendonly stops and starts. *)
Definition step (x : op) : M unit :=
  match x with
  | OCommand dictid c =>
      modify (fun s => set_data s (call dictid c (data s)));;
      w ← getw;
      match aof_state (srv w) with AOF_OFF => mret tt | _ => feedAppendOnlyFile dictid c end
  | OFlush => w ← getw; match aof_state (srv w) with AOF_OFF => mret tt | _ => flushAppendOnlyFile false end
  | ORewrite => rewriteAppendOnlyFileBackground;; mret tt
  | OChildDone success =>
      w ← getw;
      match child (srv w) with
      | Some _ => backgroundRewriteDoneHandler success;; modify (fun s => set_child s None)
      | None => mret tt
      end
  | OStop => w ← getw; match aof_state (srv w) with AOF_OFF => mret tt | _ => stopAppendOnly end
  | OStart => w ← getw; match aof_state (srv w) with AOF_OFF => startAppendOnly;; mret tt | _ => mret tt end
  end.

Fixpoint steps (l : list op) : M unit :=
  match l with [] => mret tt | x :: l => step x;; steps l end.

(** The start of [main], with the dataset loaded from elsewhere when [appendonly] is no. *)
Definition boot_server (appendonly : bool) (other : db) : server :=
  Server (if appendonly then AOF_ON else AOF_OFF) aofManifestCreate None [] (-1) None false (if appendonly then no_data else other).

Definition boot (appendonly : bool) : M unit :=
  aofLoadManifestFromDisk;;
  (if appendonly then loadDataFromDisk else mret tt);;
  aofOpenIfNeededOnServerStart;;
  aofDelHistoryFiles;;
  mret tt.

(** A life of the process: it starts on a disk and runs operations until they end or it dies. *)
Definition session (appendonly : bool) (other : db) (l : list op) (d : disk) (o : list event) : outcome unit :=
  (boot appendonly;; steps l) (World (boot_server appendonly other) d) o.
End Aof.

Arguments Ret {_ _ _}.
Arguments Halt {_ _ _}.
Arguments Abort {_ _ _}.
