(* ===== verification/AofInv.v ===== *)
(** * What the append only files hold while a server runs with [appendonly yes]

    File names are distinct, a manifest of the server can be read back
    ([am_ok]), and a disk determines the dataset a restart finds ([disk_ok]). *)
From S2P Require Import Prelude Numconv NumconvSpec Sds SdsSpec Aof AofSpec AofFs.
From Stdlib Require Import ZArith Lia Ascii String.
From stdpp Require Import prelude list gmap sorting.

#[local] Open Scope Z_scope.

(** ** Names *)

Definition incr_name (f : list Z) (s : Z) : list Z := f ++ text "." ++ decimal_signed s ++ text ".incr" ++ text ".aof".
Definition base_name (f : list Z) (s : Z) (rdb : bool) : list Z :=
  f ++ text "." ++ decimal_signed s ++ text ".base" ++ (if rdb then text ".rdb" else text ".aof").

(** The names of a base file: the server's, or that of a file of an old version. *)
Definition is_base_name (f : list Z) (s : Z) (name : list Z) : Prop := (exists rdb, name = base_name f s rdb) \/ (s = 1 /\ name = f).

Definition seq_ok (s : Z) : Prop := 1 <= s < 2 ^ 63.

Lemma decimal_inj a b : seq_ok a -> seq_ok b -> decimal_signed a = decimal_signed b -> a = b.
Proof.
  unfold seq_ok, decimal_signed. intros Ha Hb. replace (a <? 0) with false by lia. replace (b <? 0) with false by lia.
  intros Heq. rewrite <- (decimal_value a), <- (decimal_value b) by lia. by rewrite Heq.
Qed.

Lemma incr_name_inj f a b : seq_ok a -> seq_ok b -> incr_name f a = incr_name f b -> a = b.
Proof. intros Ha Hb Heq%app_inv_head%app_inv_head%app_inv_tail. by apply decimal_inj. Qed.

Lemma base_name_inj f a b x y : seq_ok a -> seq_ok b -> base_name f a x = base_name f b y -> a = b.
Proof.
  intros Ha Hb Heq%app_inv_head%app_inv_head. apply app_inj_2 in Heq as [Heq _]; [by apply decimal_inj|]. by destruct x, y.
Qed.

Lemma incr_base_name f a b x : incr_name f a <> base_name f b x.
Proof.
  intros Heq%app_inv_head%app_inv_head. apply app_inj_2 in Heq as [_ Heq]; [|by destruct x]. by destruct x.
Qed.

Lemma name_not_prefix (f s : list Z) : s <> [] -> f ++ s <> f.
Proof. intros Hs Heq. apply (f_equal length) in Heq. rewrite length_app in Heq. destruct s; [done|simpl in Heq; lia]. Qed.

Lemma incr_name_not_base f a s name : is_base_name f s name -> incr_name f a <> name.
Proof. intros [[rdb ->]|[_ ->]]; [apply incr_base_name|by apply name_not_prefix]. Qed.

Lemma is_base_name_inj f a b name : seq_ok a -> seq_ok b -> is_base_name f a name -> is_base_name f b name -> a = b.
Proof.
  intros Ha Hb [[x ->]|[-> ->]] [[y Heq]|[Hb1 Heq]]; [by eapply base_name_inj| | |done].
  - exfalso. by eapply name_not_prefix; [|exact Heq].
  - exfalso. by eapply name_not_prefix; [|symmetry; exact Heq].
Qed.

(** ** Names that can be written *)

Definition filename_ok (f : list Z) : Prop := good_name f /\ (length f <= 230)%nat.

Definition suffix_ok (s : list Z) : Prop := Forall unquoted_char s /\ Forall name_char s /\ (39 ∉ s) /\ (length s <= 29)%nat.

Lemma good_name_suffix f s : good_name f -> suffix_ok s -> good_name (f ++ s).
Proof.
  intros (Hne & Hc & Hq) (Hu & Hs & Hn & _). split_and!.
  - by destruct f.
  - by apply Forall_app.
  - intros Hr. apply sdsneedsrepr_chars, Forall_app in Hr as [Hr _]. apply Forall_app. split; [apply Hq; by apply sdsneedsrepr_chars|].
    apply Forall_forall. intros c Hin ->. done.
Qed.

Lemma digits_suffix s : seq_ok s ->
  Forall digit (decimal_signed s) /\ (length (decimal_signed s) <= 19)%nat.
Proof.
  unfold seq_ok, decimal_signed. intros Hs. replace (s <? 0) with false by lia. split; [apply decimal_digits; lia|apply decimal_length_le; lia].
Qed.

Lemma suffix_ok_mid s e : seq_ok s -> Forall unquoted_char e -> Forall name_char e -> 39 ∉ e -> (length e <= 9)%nat ->
  suffix_ok (text "." ++ decimal_signed s ++ e).
Proof.
  intros Hs He1 He2 He3 He4. destruct (digits_suffix s Hs) as [Hd Hl]. unfold suffix_ok. rewrite !Forall_app, !not_elem_of_app, !length_app.
  assert (Hdig : forall P : Z -> Prop, (forall c, digit c -> P c) -> Forall P (decimal_signed s)) by (intros P HP; eapply Forall_impl; eauto).
  split_and!; try done.
  - by apply sdsneedsrepr_chars.
  - apply Hdig. unfold digit, unquoted_char. lia.
  - apply (bool_decide_unpack _). vm_compute. exact I.
  - apply Hdig. unfold digit, name_char. lia.
  - apply (bool_decide_unpack _). vm_compute. exact I.
  - intros Hin. rewrite Forall_forall in Hd. apply Hd in Hin. unfold digit in Hin. lia.
  - simpl (length (text ".")). lia.
Qed.

Lemma incr_suffix s : seq_ok s -> suffix_ok (text "." ++ decimal_signed s ++ text ".incr" ++ text ".aof").
Proof.
  intros Hs. apply suffix_ok_mid; [done|apply sdsneedsrepr_chars; done| | |done]; apply (bool_decide_unpack _); vm_compute; exact I.
Qed.

Lemma base_suffix s (rdb : bool) : seq_ok s -> suffix_ok (text "." ++ decimal_signed s ++ text ".base" ++ (if rdb then text ".rdb" else text ".aof")).
Proof.
  intros Hs. apply suffix_ok_mid; [done|apply sdsneedsrepr_chars; by destruct rdb| | |by destruct rdb];
    destruct rdb; apply (bool_decide_unpack _); vm_compute; exact I.
Qed.

Lemma repr_char_length c : (length (repr_char c) <= 4)%nat.
Proof. unfold repr_char. repeat case_match; simpl; lia. Qed.

Lemma unquoted_repr c : unquoted_char c -> repr_char c = [c].
Proof. unfold unquoted_char, repr_char, isprint. intros Hc. repeat case_match; try done; lia. Qed.

Lemma repr_bound f s : Forall unquoted_char s -> (length (concat (repr_char <$> (f ++ s))) <= 4 * length f + length s)%nat.
Proof.
  intros Hs. rewrite fmap_app, concat_app, length_app. apply Nat.add_le_mono.
  - induction f as [|c f IH]; [done|]. rewrite fmap_cons, concat_cons, length_app. cbn [length]. pose proof (repr_char_length c). lia.
  - induction Hs as [|c s Hc Hs IH]; [done|]. rewrite fmap_cons, concat_cons, length_app, unquoted_repr by done. cbn [length]. lia.
Qed.

Lemma cstr_length s : (length (cstr s) <= length s)%nat.
Proof. induction s as [|c s IH]; [done|]. cbn [cstr]. case_match; cbn [length]; lia. Qed.

Lemma line_bound f s seq type : filename_ok f -> suffix_ok s -> seq_ok seq ->
  (length (aofInfoFormat [] (AofInfo (f ++ s) seq type)) <= MANIFEST_MAX_LINE)%nat.
Proof.
  intros [_ Hf] (Hu & _ & _ & Hl) Hs. destruct (digits_suffix seq Hs) as [_ Hd]. unfold aofInfoFormat. cbn [file_name file_seq file_type app].
  match goal with |- context [cstr ?x] => assert (Hc : (length (cstr x) <= 4 * length f + length s + 2)%nat) end.
  { etransitivity; [apply cstr_length|]. case_match; [|rewrite length_app; lia]. unfold sdscatrepr. cbn [app length]. rewrite length_app.
    cbn [length]. pose proof (repr_bound f s Hu). lia. }
  repeat (rewrite length_app; cbn [length]). unfold MANIFEST_MAX_LINE. simpl (length (text _)). lia.
Qed.

(** ** Manifests *)

Definition base_ok (f : list Z) (s : Z) (b : aofInfo) : Prop := file_type b = AOF_FILE_TYPE_BASE /\ file_seq b = s /\ is_base_name f s (file_name b).

Definition incr_ok (f : list Z) (n : Z) (ai : aofInfo) : Prop :=
  file_type ai = AOF_FILE_TYPE_INCR /\ 1 <= file_seq ai <= n /\ file_name ai = incr_name f (file_seq ai).

(** A history file is older than the base and the incremental files in use. *)
Definition hist_ok (f : list Z) (n base : Z) (incr : list aofInfo) (h : aofInfo) : Prop :=
  file_type h = AOF_FILE_TYPE_HIST /\ 1 <= file_seq h <= n /\
  ((is_base_name f (file_seq h) (file_name h) /\ file_seq h < base) \/
   (file_name h = incr_name f (file_seq h) /\ incr <> [] /\ Forall (fun ai => file_seq h < file_seq ai) incr)).

(** A manifest with a base file whose sequence numbers are at most [n]. *)
Record am_ok (f : list Z) (n : Z) (am : aofManifest) : Prop := {
  am_base : exists b, base_aof_info am = Some b /\ base_ok f (curr_base_file_seq am) b;
  am_base_seq : 1 <= curr_base_file_seq am <= n;
  am_incr : Forall (incr_ok f n) (incr_aof_list am);
  am_sorted : StronglySorted (fun a b => file_seq a < file_seq b) (incr_aof_list am);
  am_curr : curr_incr_file_seq am = incr_seq am;
  am_hist : Forall (hist_ok f n (curr_base_file_seq am) (incr_aof_list am)) (history_aof_list am) }.

Lemma base_name_suffix f s name : seq_ok s -> is_base_name f s name -> exists x, name = f ++ x /\ suffix_ok x.
Proof.
  intros Hs [[rdb ->]|[-> ->]]; [eexists; split; [reflexivity|by apply base_suffix]|].
  exists []. rewrite app_nil_r. split; [done|]. unfold suffix_ok. split_and!; [constructor|constructor|by apply not_elem_of_nil|simpl; lia].
Qed.

Lemma named_ok f type name x s : filename_ok f -> suffix_ok x -> seq_ok s -> name = f ++ x -> info_ok type (AofInfo name s type).
Proof.
  intros Hf Hx Hs ->. constructor; [done|unfold seq_ok in Hs; simpl; lia|apply good_name_suffix; [apply Hf|done]|by apply line_bound].
Qed.

Lemma named_typed f type ai x : known_type type -> filename_ok f -> suffix_ok x -> seq_ok (file_seq ai) -> file_name ai = f ++ x -> file_type ai = type ->
  typed_ok type ai.
Proof. intros Ht Hf Hx Hs Hn Hty. split; [done|]. destruct ai as [name s ty]. simpl in *. subst ty. by eapply named_ok. Qed.

Section Manifest.
Context (f : list Z) (n : Z).

Lemma am_manifest am : filename_ok f -> n < 2 ^ 63 -> am_ok f n am ->
  manifest_ok am /\ entries am <> [] /\ reloaded am = set_dirty am false.
Proof.
  intros Hf Hn [(b & Hb & Hty & Hs & Hname) Hbs Hi Hsort Hc Hh]. split_and!.
  - constructor; [|..|done].
    + rewrite Hb. intros b' [= <-]. destruct (base_name_suffix f (curr_base_file_seq am) (file_name b)) as (x & Hx & Hok); [unfold seq_ok; lia|done|].
      eapply named_typed; eauto; [by left|unfold seq_ok; lia].
    + eapply Forall_impl; [exact Hh|]. intros h (Ht & Hs1 & [[Hn1 _]|[Hn1 _]]).
      * destruct (base_name_suffix f (file_seq h) (file_name h)) as (x & Hx & Hok); [unfold seq_ok; lia|done|].
        eapply named_typed; eauto; [right; by left|unfold seq_ok; lia].
      * eapply named_typed; [right; by left|exact Hf|apply incr_suffix|unfold seq_ok; lia|exact Hn1|done]. unfold seq_ok. lia.
    + eapply Forall_impl; [exact Hi|]. intros ai (Ht & Hs1 & Hn1).
      eapply named_typed; [right; by right|exact Hf|apply incr_suffix|unfold seq_ok; lia|exact Hn1|done]. unfold seq_ok. lia.
  - unfold entries. rewrite Hb. done.
  - unfold reloaded, set_dirty, base_seq. rewrite Hb, Hc, Hs. done.
Qed.

Lemma am_dirty am x : am_ok f n am -> am_ok f n (set_dirty am x).
Proof. intros [? ? ? ? ? ?]. by constructor. Qed.

Lemma am_history am l : am_ok f n am -> (forall h, h ∈ l -> h ∈ history_aof_list am) ->
  am_ok f n (AofManifest (base_aof_info am) (incr_aof_list am) l (curr_base_file_seq am) (curr_incr_file_seq am) (dirty am)).
Proof.
  intros [? ? ? ? ? Hh] Hl. constructor; try done. simpl. rewrite Forall_forall in Hh |- *. intros h Hin. apply Hh, Hl, Hin.
Qed.

Lemma incr_seq_bound am : am_ok f n am -> 0 <= curr_incr_file_seq am <= n /\ Forall (fun ai => file_seq ai <= curr_incr_file_seq am) (incr_aof_list am).
Proof.
  intros [_ Hb Hi Hs -> _]. unfold incr_seq. induction Hs as [|ai l Hs IH Hlt]; [simpl; split; [lia|constructor]|].
  apply Forall_cons in Hi as [Ha Hi]. destruct (IH Hi) as [IH1 IH2]. destruct l as [|x l].
  - simpl. destruct Ha as (_ & ? & _). split; [lia|]. repeat constructor. lia.
  - change (last (ai :: x :: l)) with (last (x :: l)). split; [exact IH1|]. constructor; [|exact IH2].
    apply Forall_cons in Hlt as [Hlt _]. apply Forall_cons in IH2 as [IH2 _]. lia.
Qed.
End Manifest.

Lemma am_mono f n m am : n <= m -> am_ok f n am -> am_ok f m am.
Proof.
  intros Hle [Hb Hbs Hi Hs Hc Hh]. constructor; [done|lia| |done|done|].
  - eapply Forall_impl; [exact Hi|]. intros ai (? & ? & ?). split_and!; [done|lia|lia|done].
  - eapply Forall_impl; [exact Hh|]. intros h (? & ? & ?). split_and!; [done|lia|lia|done].
Qed.

(** ** Operations on manifests *)

Lemma sorted_snoc (l : list aofInfo) x : StronglySorted (fun a b => file_seq a < file_seq b) l -> Forall (fun a => file_seq a < file_seq x) l ->
  StronglySorted (fun a b => file_seq a < file_seq b) (l ++ [x]).
Proof.
  induction 1 as [|a l Hs IH Hlt]; intros Hx; [repeat constructor|]. apply Forall_cons in Hx as [Hax Hx]. cbn [app].
  constructor; [by apply IH|]. apply Forall_app. split; [done|by repeat constructor].
Qed.

Lemma am_new_incr f n am : am_ok f n am -> exists am', getNewIncrAofName f am = (incr_name f (curr_incr_file_seq am + 1), am') /\
  am_ok f (n + 1) am' /\ base_aof_info am' = base_aof_info am /\
  incr_aof_list am' = incr_aof_list am ++ [AofInfo (incr_name f (curr_incr_file_seq am + 1)) (curr_incr_file_seq am + 1) AOF_FILE_TYPE_INCR] /\
  curr_incr_file_seq am' = curr_incr_file_seq am + 1 /\ dirty am' = true.
Proof.
  intros Hok. destruct (incr_seq_bound f n am Hok) as [Hc Hle]. apply (am_mono f n (n + 1)) in Hok; [|lia]. destruct Hok as [Hb Hbs Hi Hs Hcur Hh].
  eexists. split; [reflexivity|]. split; [|done].
  assert (Hlt : Forall (fun a => file_seq a < curr_incr_file_seq am + 1) (incr_aof_list am)).
  { eapply Forall_impl; [exact Hle|]. simpl. intros ? ?. lia. }
  constructor; cbn [base_aof_info incr_aof_list curr_base_file_seq curr_incr_file_seq history_aof_list]; [done|done| | | |].
  - apply Forall_app. split; [done|]. repeat constructor; cbn [file_seq]; lia.
  - by apply sorted_snoc.
  - unfold incr_seq. cbn [incr_aof_list]. by rewrite last_snoc.
  - eapply Forall_impl; [exact Hh|]. intros h (? & ? & [?|(? & Hne & Hh1)]); split_and!; try done; try lia; [by left|right; split_and!; try done].
    + by destruct (incr_aof_list am).
    + apply Forall_app. split; [done|]. repeat constructor. cbn [file_seq]. destruct (incr_aof_list am) as [|x l] eqn:El; [done|].
      apply Forall_cons in Hh1 as [Hx _]. apply Forall_cons in Hlt as [Hxl _]. lia.
Qed.

Lemma am_new_base f n am (rdb : bool) : am_ok f n am -> exists am',
  getNewBaseFileNameAndMarkPreAsHistory f am rdb = Some (base_name f (curr_base_file_seq am + 1) rdb, am') /\ am_ok f (n + 1) am' /\
  base_aof_info am' = Some (AofInfo (base_name f (curr_base_file_seq am + 1) rdb) (curr_base_file_seq am + 1) AOF_FILE_TYPE_BASE) /\
  incr_aof_list am' = incr_aof_list am /\ curr_incr_file_seq am' = curr_incr_file_seq am /\ dirty am' = true.
Proof.
  intros Hok. apply (am_mono f n (n + 1)) in Hok as Hok'; [|lia]. destruct Hok as [(b & Hb & Hty & Hs & Hname) Hbs _ _ _ _].
  destruct Hok' as [_ _ Hi Hsort Hcur Hh]. unfold getNewBaseFileNameAndMarkPreAsHistory. rewrite Hb, option_guard_True by done.
  eexists. split; [reflexivity|]. split; [|done].
  constructor; cbn [base_aof_info incr_aof_list curr_base_file_seq curr_incr_file_seq history_aof_list]; [|lia|done|done|done|].
  - eexists. split; [reflexivity|]. split_and!; [done|done|]. left. by exists rdb.
  - constructor.
    + unfold as_hist. split_and!; cbn [file_seq file_name]; [done|lia|lia|]. left. rewrite Hs. split; [done|lia].
    + eapply Forall_impl; [exact Hh|]. intros h (? & ? & [[? ?]|?]); split_and!; try done; try lia; [left; split; [done|lia]|by right].
Qed.

(** The first manifest. *)
Lemma am_first_base f (rdb : bool) : exists am, getNewBaseFileNameAndMarkPreAsHistory f aofManifestCreate rdb = Some (base_name f 1 rdb, am) /\ am_ok f 1 am /\
  base_aof_info am = Some (AofInfo (base_name f 1 rdb) 1 AOF_FILE_TYPE_BASE) /\ incr_aof_list am = [] /\ curr_incr_file_seq am = 0.
Proof.
  eexists. split; [reflexivity|]. split; [|done]. constructor; simpl; try done; try constructor; try lia.
  eexists. split; [reflexivity|]. split_and!; [done|done|]. left. by exists rdb.
Qed.

Lemma mark_loop_ok l history : Forall (fun ai => file_type ai = AOF_FILE_TYPE_INCR) l -> mark_loop l history = Some (reverse (as_hist <$> l) ++ history).
Proof.
  intros Hl. revert history. induction Hl as [|ai l Ht _ IH]; intros history; [done|]. cbn [mark_loop]. rewrite option_guard_True by done.
  rewrite IH, fmap_cons, reverse_cons, <- app_assoc. done.
Qed.

Lemma am_mark f n am : am_ok f n am -> forall pre ai, incr_aof_list am = pre ++ [ai] -> exists am', markRewrittenIncrAofAsHistory true am = Some am' /\
  am_ok f n am' /\ base_aof_info am' = base_aof_info am /\ incr_aof_list am' = [ai] /\ curr_incr_file_seq am' = curr_incr_file_seq am /\ dirty am' = true.
Proof.
  intros [Hb Hbs Hi Hs Hcur Hh] pre ai Hpre. unfold markRewrittenIncrAofAsHistory. rewrite Hpre, reverse_snoc in *.
  apply Forall_app in Hi as [Hip Hia].
  assert (Hlt : Forall (fun a => file_seq a < file_seq ai) pre).
  { clear -Hs. induction pre as [|a pre IH]; [constructor|]. cbn [app] in Hs. inversion Hs as [|? ? Hs' Hf]; subst.
    apply Forall_app in Hf as [_ Hf]. constructor; [by inversion Hf|by apply IH]. }
  rewrite mark_loop_ok by (apply Forall_reverse; eapply Forall_impl; [exact Hip|]; by intros a (? & _)).
  eexists. split; [reflexivity|]. split; [|done].
  constructor; cbn [base_aof_info incr_aof_list curr_base_file_seq curr_incr_file_seq history_aof_list]; [done|done|done|repeat constructor| |].
  - rewrite Hcur. unfold incr_seq. by rewrite Hpre, last_snoc.
  - apply Forall_app. split.
    + apply Forall_reverse, Forall_fmap, Forall_reverse. rewrite Forall_forall in Hip, Hlt |- *. intros a Ha.
      destruct (Hip a Ha) as (? & ? & ?). unfold hist_ok, as_hist. cbn [file_type file_seq file_name compose]. split_and!; [done|lia|lia|].
      right. split_and!; [done|done|]. repeat constructor. by apply Hlt.
    + eapply Forall_impl; [exact Hh|]. intros h (? & ? & [?|(? & _ & Hf)]); split_and!; try done; try lia; [by left|right; split_and!; try done].
      apply Forall_app in Hf as [_ Hf]. done.
Qed.

(** ** Disks *)

Section Disk.
Context {db cmd : Type} `{AofData db cmd}.
Implicit Types (d : disk (cmd := cmd)) (am : aofManifest).

Record disk_wf d : Prop := {
  wf_dir : forall name i, dir d !! name = Some i -> is_Some (files d !! i);
  wf_inj : forall a b i, dir d !! a = Some i -> dir d !! b = Some i -> a = b;
  wf_next : forall i, is_Some (files d !! i) -> (i < next_file d)%nat }.

Lemma wf_fresh d name i : disk_wf d -> dir d !! name = Some i -> i <> next_file d.
Proof. intros Hwf Hi%(wf_dir d Hwf)%(wf_next d Hwf). lia. Qed.

Lemma place_wf name l d : disk_wf d -> disk_wf (place name l d).
Proof.
  intros Hwf. constructor; cbn [place dir files next_file].
  - intros x i. rewrite lookup_insert_Some. intros [[_ <-]|[_ Hi]]; [rewrite lookup_insert_eq; eauto|].
    rewrite lookup_insert_ne by (symmetry; by eapply wf_fresh). by eapply wf_dir.
  - intros a b i. rewrite !lookup_insert_Some. intros [[<- <-]|[Ha Hi]] [[Hb Hj]|[Hb Hj]]; subst; try done.
    + by eapply wf_fresh in Hj.
    + by eapply wf_fresh in Hi.
    + by eapply wf_inj.
  - intros i Hi. destruct (decide (i = next_file d)) as [->|Hne]; [lia|]. rewrite lookup_insert_ne in Hi by done.
    apply (wf_next d Hwf) in Hi. lia.
Qed.

Lemma content_place name l d x : disk_wf d -> content (place name l d) x = if decide (x = name) then Some l else content d x.
Proof.
  intros Hwf. unfold content. cbn [place dir files]. destruct (decide (x = name)) as [->|Hne]; [by rewrite lookup_insert_eq; simpl; rewrite lookup_insert_eq|].
  rewrite lookup_insert_ne by done. destruct (dir d !! x) as [i|] eqn:Hi; [|done]. simpl.
  by rewrite lookup_insert_ne by (symmetry; by eapply wf_fresh).
Qed.

Lemma unlink_wf name d : disk_wf d -> disk_wf (set_dir d (delete name (dir d))).
Proof.
  intros [H1 H2 H3]. constructor; cbn [set_dir dir files next_file]; [| |done].
  - intros x i [_ Hi]%lookup_delete_Some. eauto.
  - intros a b i [_ Ha]%lookup_delete_Some [_ Hb]%lookup_delete_Some. eauto.
Qed.

Lemma content_unlink name d x : x <> name -> content (set_dir d (delete name (dir d))) x = content d x.
Proof. intros Hne. unfold content. cbn [set_dir dir files]. by rewrite lookup_delete_ne. Qed.

Lemma content_unlink_Some name d x l : content (set_dir d (delete name (dir d))) x = Some l -> content d x = Some l.
Proof. unfold content. cbn [set_dir dir files]. destruct (decide (x = name)) as [->|Hne]; [by rewrite lookup_delete_eq|by rewrite lookup_delete_ne]. Qed.

(** Changing the content of the open file [i]. *)
Lemma write_wf i g d : disk_wf d -> disk_wf (set_files d (alter g i (files d))).
Proof.
  intros [H1 H2 H3]. constructor; cbn [set_files dir files next_file]; [|done|].
  - intros x j Hj%H1. by rewrite lookup_alter_is_Some.
  - intros j Hj. apply H3. by rewrite lookup_alter_is_Some in Hj.
Qed.

Lemma content_write name i g d x : disk_wf d -> dir d !! name = Some i ->
  content (set_files d (alter g i (files d))) x = if decide (x = name) then g <$> content d name else content d x.
Proof.
  intros Hwf Hi. unfold content. cbn [set_files dir files]. destruct (decide (x = name)) as [->|Hne]; [rewrite Hi; simpl; by rewrite lookup_alter_eq|].
  destruct (dir d !! x) as [j|] eqn:Hj; [|done]. simpl. rewrite lookup_alter_ne; [done|]. intros ->. by eapply Hne, wf_inj.
Qed.

Lemma insert_alter i d : disk_wf d -> is_Some (files d !! i) -> <[i := []]> (files d) = alter (fun _ => []) i (files d).
Proof.
  intros _ Hi. apply map_eq. intros j. destruct (decide (i = j)) as [->|Hne]; [|by rewrite lookup_insert_ne, lookup_alter_ne].
  rewrite lookup_insert_eq, lookup_alter_eq. by destruct Hi as [l ->].
Qed.

(** [open] with O_CREAT, and what it leaves of the other files. *)
Definition opened (trunc : bool) (name : list Z) d : nat * disk :=
  match dir d !! name with
  | Some i => (i, if trunc then set_files d (<[i := []]> (files d)) else d)
  | None => (next_file d, place name [] d)
  end.

Lemma opened_ok trunc name d : disk_wf d -> (trunc = true \/ forall l, content d name = Some l -> l = []) ->
  disk_wf (opened trunc name d).2 /\ dir (opened trunc name d).2 !! name = Some (opened trunc name d).1 /\
  content (opened trunc name d).2 name = Some [] /\ forall x, x <> name -> content (opened trunc name d).2 x = content d x.
Proof.
  intros Hwf Ht. unfold opened. destruct (dir d !! name) as [i|] eqn:Hi.
  - destruct (wf_dir d Hwf name i Hi) as [l Hl]. destruct trunc.
    + cbn [fst snd]. rewrite insert_alter by eauto. split_and!; [by apply write_wf|done| |].
      * rewrite (content_write name) by done. rewrite decide_True by done. unfold content. rewrite Hi. simpl. by rewrite Hl.
      * intros x Hne. rewrite (content_write name) by done. by rewrite decide_False.
    + cbn [fst snd]. destruct Ht as [|Ht]; [done|]. split_and!; [done|done| |done].
      assert (Hc : content d name = Some l) by (unfold content; rewrite Hi; done). by rewrite Hc, (Ht l Hc).
  - cbn [fst snd]. split_and!; [by apply place_wf|by cbn [place dir]; rewrite lookup_insert_eq| |].
    + rewrite content_place by done. by rewrite decide_True.
    + intros x Hne. rewrite content_place by done. by rewrite decide_False.
Qed.

(** An existing file opened for appending is not changed. *)
Lemma opened_append name d i : dir d !! name = Some i -> opened false name d = (i, d).
Proof. unfold opened. by intros ->. Qed.
End Disk.

(** ** Datasets *)

(** The files a restart loads. *)
Definition live_infos (am : aofManifest) : list aofInfo := option_list (base_aof_info am) ++ incr_aof_list am.

Lemma live_base am b : base_aof_info am = Some b -> live_infos am = b :: incr_aof_list am.
Proof. unfold live_infos. by intros ->. Qed.

Lemma live_cases f n am ai : am_ok f n am -> ai ∈ live_infos am ->
  is_base_name f (curr_base_file_seq am) (file_name ai) \/
  (ai ∈ incr_aof_list am /\ file_name ai = incr_name f (file_seq ai) /\ 1 <= file_seq ai <= n /\ file_seq ai <= curr_incr_file_seq am).
Proof.
  intros Hok Hin. destruct (incr_seq_bound f n am Hok) as [_ Hle]. destruct Hok as [(b & Hb & _ & _ & Hname) _ Hi _ _ _].
  rewrite (live_base am b Hb) in Hin. apply elem_of_cons in Hin as [->|Hin]; [by left|right].
  rewrite Forall_forall in Hi, Hle. destruct (Hi ai Hin) as (? & ? & ?). specialize (Hle ai Hin). simpl in Hle. done.
Qed.

Lemma new_incr_not_live f n am s ai : am_ok f n am -> n < 2 ^ 63 -> seq_ok s -> curr_incr_file_seq am < s -> ai ∈ live_infos am -> file_name ai <> incr_name f s.
Proof.
  intros Hok Hn Hs Hlt Hin Heq. destruct (live_cases f n am ai Hok Hin) as [Hb|(_ & Hname & Hseq & Hle)]; [by eapply incr_name_not_base|].
  rewrite Hname in Heq. apply incr_name_inj in Heq; [lia|unfold seq_ok; lia|done].
Qed.

Lemma new_base_not_live f n am s rdb ai : am_ok f n am -> n < 2 ^ 63 -> seq_ok s -> curr_base_file_seq am < s -> ai ∈ live_infos am -> file_name ai <> base_name f s rdb.
Proof.
  intros Hok Hn Hs Hlt Hin Heq. destruct (live_cases f n am ai Hok Hin) as [Hb|(_ & Hname & Hseq & Hle)].
  - pose proof (am_base_seq _ _ _ Hok). assert (curr_base_file_seq am = s); [|lia].
    eapply is_base_name_inj; [unfold seq_ok; lia|done|exact Hb|]. left. by exists rdb.
  - rewrite Hname in Heq. by apply incr_base_name in Heq.
Qed.

Lemma hist_not_live f n am h ai : am_ok f n am -> n < 2 ^ 63 -> hist_ok f n (curr_base_file_seq am) (incr_aof_list am) h -> ai ∈ live_infos am ->
  file_name ai <> file_name h.
Proof.
  intros Hok Hn (_ & Hs & Hh) Hin Heq. pose proof (am_base_seq _ _ _ Hok).
  destruct Hh as [[Hb Hlt]|(Hname & _ & Hlt)], (live_cases f n am ai Hok Hin) as [Hb'|(Hin' & Hname' & Hseq & Hle)].
  - rewrite Heq in Hb'. assert (file_seq h = curr_base_file_seq am); [|lia]. eapply is_base_name_inj; [..|exact Hb|exact Hb']; unfold seq_ok; lia.
  - rewrite Hname' in Heq. by eapply incr_name_not_base.
  - rewrite Heq, Hname in Hb'. by eapply incr_name_not_base in Hb'.
  - rewrite Hname', Hname in Heq. apply incr_name_inj in Heq; [|unfold seq_ok; lia..]. rewrite Forall_forall in Hlt. specialize (Hlt ai Hin'). simpl in Hlt. lia.
Qed.

Section Recover.
Context {db cmd : Type} `{AofData db cmd} (f : list Z).
Implicit Types (d : disk (cmd := cmd)) (am : aofManifest).

Definition replay_all (ls : list (list (entry cmd))) : db := fold_left (fun x l => replay l x) ls no_data.

Definition live d am (ls : list (list (entry cmd))) : Prop := Forall2 (fun ai l => content d (file_name ai) = Some l) (live_infos am) ls.

(** Incremental files with numbers the manifest has not reached are empty. *)
Definition incr_fresh d (k : Z) : Prop := forall s l, k < s -> seq_ok s -> content d (incr_name f s) = Some l -> l = [].

(** The disk of a manifest whose files hold the dataset [r], or the one of an interrupted
    upgrade, where the old file still has to be moved. *)
Definition disk_files d am (r : db) : Prop :=
  (old_aof d = None /\ exists ls, live d am ls /\ replay_all ls = r) \/
  (exists l, old_aof d = Some l /\ r = replay l no_data /\ incr_aof_list am = [] /\ dir d !! f = None /\
    exists b, base_aof_info am = Some b /\ file_name b = f).

(** A restart of the server on the disk finds the dataset [r]. *)
Definition disk_ok (n : Z) d (r : db) : Prop :=
  disk_wf d /\ 1 <= n /\
  ((manifest_file d = None /\ dir d !! f = None /\ incr_fresh d 0 /\ r = match old_aof d with Some l => replay l no_data | None => no_data end) \/
   (aof_dir d = true /\ exists am, manifest_file d = Some (getAofManifestAsString am) /\ am_ok f n am /\ incr_fresh d (curr_incr_file_seq am) /\ disk_files d am r)).

Lemma live_ext d d' am ls : (forall ai, ai ∈ live_infos am -> content d' (file_name ai) = content d (file_name ai)) -> live d am ls -> live d' am ls.
Proof.
  unfold live. intros Hext Hl. revert Hext. induction Hl as [|ai l infos ls Hc _ IH]; intros Hext; constructor.
  - rewrite Hext by constructor. done.
  - apply IH. intros x Hx. apply Hext. by constructor.
Qed.

Lemma replay_all_snoc ls l : replay_all (ls ++ [l]) = replay l (replay_all ls).
Proof. unfold replay_all. by rewrite fold_left_app. Qed.

Lemma replay_app a b x : replay (a ++ b) x = (fold_left run_entry b (fold_left run_entry a (0, x))).2.
Proof. unfold replay. by rewrite fold_left_app. Qed.

Lemma disk_mono n m d r : n <= m -> disk_ok n d r -> disk_ok m d r.
Proof.
  intros Hle (Hwf & Hn & Hcase). split_and!; [done|lia|]. destruct Hcase as [?|(? & am & ? & ? & ? & ?)]; [by left|right].
  split; [done|]. exists am. split_and!; try done. by eapply am_mono.
Qed.
End Recover.
