(* ===== verification/AofWp.v ===== *)
(** * Reasoning about runs that can fail and die

    [wp m Q C w] holds when every run of [m] from [w] that returns ends in [Q], every
    run that ends the process leaves a world in [C], and no assertion fails.  With
    [bad] false only runs without failures and crashes count. *)
From S2P Require Import Prelude Numconv NumconvSpec Sds SdsSpec Aof AofSpec AofFs AofInv.
From Stdlib Require Import ZArith Lia Ascii String.
From stdpp Require Import prelude list gmap sorting.

#[local] Open Scope Z_scope.

Section Wp.
Context {db cmd : Type} `{AofData db cmd} (cfg : config) (bad : bool).
Abbreviation M := (M (db := db) (cmd := cmd)).
Abbreviation world := (world (db := db) (cmd := cmd)).
Abbreviation disk := (disk (cmd := cmd)).
Implicit Types (w : world) (d : disk).

Definition events_ok (o : list event) : Prop := bad = true \/ o = [].

Definition wp {A} (m : M A) (Q : A -> world -> Prop) (C : world -> Prop) w : Prop :=
  forall o, events_ok o -> match m w o with Ret a w' o' => events_ok o' /\ Q a w' | Halt w' => C w' | Abort => False end.

Lemma wp_ret {A} (a : A) Q C w : Q a w -> wp (mret a) Q C w.
Proof. intros HQ o Ho. by split. Qed.

Lemma wp_bind {A B} (m : M A) (k : A -> M B) Q C w : wp m (fun a w' => wp (k a) Q C w') C w -> wp (m ≫= k) Q C w.
Proof.
  intros Hm o Ho. specialize (Hm o Ho). unfold mbind, M_bind. destruct (m w o) as [a w' o'|w'|]; [|done|done].
  destruct Hm as [Ho' Hk]. by apply Hk.
Qed.

Lemma wp_mono {A} (m : M A) (Q Q' : A -> world -> Prop) (C C' : world -> Prop) w :
  wp m Q C w -> (forall a w', Q a w' -> Q' a w') -> (forall w', C w' -> C' w') -> wp m Q' C' w.
Proof. intros Hm HQ HC o Ho. specialize (Hm o Ho). destruct (m w o) as [a w' o'|w'|]; [|auto|done]. destruct Hm. auto. Qed.

Lemma wp_getw Q C w : Q w w -> wp getw Q C w.
Proof. intros HQ o Ho. by split. Qed.

Lemma wp_modify g Q C w : Q tt (World (g (srv w)) (dsk w)) -> wp (modify g) Q C w.
Proof. intros HQ o Ho. by split. Qed.

Lemma wp_exit {A} (Q : A -> world -> Prop) (C : world -> Prop) w : C w -> wp exit Q C w.
Proof. intros HC o Ho. exact HC. Qed.

Lemma wp_assert (b : bool) Q C w : b = true -> Q tt w -> wp (assert b) Q C w.
Proof. intros -> HQ o Ho. by split. Qed.

Lemma wp_lift {A} (x : option A) a (Q : A -> world -> Prop) C w : x = Some a -> Q a w -> wp (lift x) Q C w.
Proof. intros -> HQ o Ho. by split. Qed.

Lemma wp_sys {A} k (eff : disk -> A * disk) err (Q : A -> world -> Prop) (C : world -> Prop) w :
  (bad = true -> C w) -> Q (eff (dsk w)).1 (World (srv w) (eff (dsk w)).2) -> (bad = true -> may_fail cfg k = true -> Q err w) ->
  wp (sys cfg k eff err) Q C w.
Proof.
  intros HC HQ Herr o Ho. unfold sys. destruct (eff (dsk w)) as [a d]. cbn [fst snd] in HQ. destruct o as [|e o]; [by split|].
  destruct Ho as [Hbad|]; [|done]. assert (Ho : events_ok o) by (by left). destruct e; [by split|by split| |by apply HC].
  destruct (may_fail cfg k) eqn:Hk; split; auto.
Qed.

(** ** The manifest file *)

Definition with_temp d (t : option (list Z)) : disk := set_manifests d (manifest_file d) t.

Lemma with_temp_twice d t u : with_temp (with_temp d t) u = with_temp d u.
Proof. done. Qed.

Lemma wp_write_loop fuel rest s d pre Q (C : world -> Prop) : (length rest <= fuel)%nat ->
  (bad = true -> forall t, C (World s (with_temp d t))) -> Q true (World s (with_temp d (Some (pre ++ rest)))) ->
  (bad = true -> forall t, Q false (World s (with_temp d t))) -> wp (write_loop cfg fuel rest) Q C (World s (with_temp d (Some pre))).
Proof.
  intros Hf HC HQ Herr. revert rest pre Hf HQ. induction fuel as [|fuel IH]; intros rest pre Hf HQ.
  { destruct rest; [|simpl in Hf; lia]. rewrite app_nil_r in HQ. by apply wp_ret. }
  destruct rest as [|c rest]; [rewrite app_nil_r in HQ; by apply wp_ret|].
  intros o Ho. cbn [write_loop]. set (n := match o with Short n :: _ => _ | _ => _ end).
  assert (Hn : (0 < n)%nat). { subst n. destruct o as [|[| | |] ?]; cbn [length]; lia. }
  clearbody n. revert o Ho. apply wp_bind, wp_sys; [intros; by apply HC| |].
  - cbn [fst snd srv dsk with_temp set_manifests temp_manifest manifest_file default].
    apply (IH (drop n (c :: rest)) (pre ++ take n (c :: rest))); [rewrite length_drop; cbn [length] in *; lia|].
    by rewrite <- app_assoc, take_drop.
  - intros Hbad _. apply wp_ret. by apply Herr.
Qed.

Lemma wp_writeAofManifestFile buf s d Q (C : world -> Prop) : may_fail cfg SDirSync = false ->
  (bad = true -> forall t, C (World s (with_temp d t))) -> (bad = true -> C (World s (set_manifests d (Some buf) None))) ->
  Q true (World s (set_manifests d (Some buf) None)) -> (bad = true -> forall t, Q false (World s (with_temp d t))) ->
  wp (writeAofManifestFile cfg buf) Q C (World s d).
Proof.
  intros Hsync HC HC' HQ Herr. assert (Hd : with_temp d (temp_manifest d) = d) by (by destruct d).
  assert (HC0 : bad = true -> C (World s d)) by (intros Hb; rewrite <- Hd; by apply HC).
  assert (HE0 : bad = true -> Q false (World s d)) by (intros Hb; rewrite <- Hd; by apply Herr).
  unfold writeAofManifestFile. apply wp_bind, wp_sys; [done| |intros Hb _; by apply wp_ret, HE0].
  cbn [fst snd negb srv dsk]. change (set_manifests d (manifest_file d) (Some [])) with (with_temp d (Some [])).
  apply wp_bind, wp_write_loop; [lia|done| |intros Hb t; by apply wp_ret, Herr]. cbn [negb app].
  apply wp_bind, wp_sys; [intros Hb; by apply HC| |intros Hb _; by apply wp_ret, Herr]. cbn [fst snd negb srv dsk].
  apply wp_bind, wp_sys; [intros Hb; by apply HC| |intros Hb _; by apply wp_ret, Herr]. cbn [fst snd negb srv dsk].
  apply wp_sys; [done|done|by rewrite Hsync].
Qed.

Lemma wp_persist am s d Q (C : world -> Prop) : may_fail cfg SDirSync = false ->
  (bad = true -> forall t, C (World s (with_temp d t))) ->
  (bad = true -> dirty am = true -> C (World s (set_manifests d (Some (getAofManifestAsString am)) None))) ->
  (dirty am = true -> Q (true, set_dirty am false) (World s (set_manifests d (Some (getAofManifestAsString am)) None))) ->
  (dirty am = false -> Q (true, am) (World s d)) ->
  (bad = true -> forall t, Q (false, am) (World s (with_temp d t))) -> wp (persistAofManifest cfg am) Q C (World s d).
Proof.
  intros Hsync HC HC' HQ HQ' Herr. unfold persistAofManifest. destruct (dirty am); cbn [negb]; [|by apply wp_ret, HQ'].
  apply wp_bind, wp_writeAofManifestFile; [done|done|by auto| |]; [by apply wp_ret, HQ|]. intros Hb t. by apply wp_ret, Herr.
Qed.
End Wp.
