(* ===== verification/AofRun.v ===== *)
(** * Restart after a crash finds the dataset

    A server with [appendonly yes] that is stopped by a crash or an error between
    any two system calls, also while it starts, upgrades an old file, opens a new
    incremental file or installs a rewritten base, leaves files from which the next start
    loads the dataset of the commands written so far. *)
From S2P Require Import Prelude Numconv NumconvSpec Sds SdsSpec Aof AofSpec AofFs AofInv AofWp.
From Stdlib Require Import ZArith Lia Ascii String.
From stdpp Require Import prelude list gmap sorting.

#[local] Open Scope Z_scope.

(** A rewritten file holds the dataset it was written for. *)
Class AofDataOk (db cmd : Type) `{AofData db cmd} : Prop := rewritten_ok : forall d : db, replay (rewritten d) no_data = d.

(** What is assumed of the configuration and the environment: a file name the manifest can
    hold, a forced flush that succeeds and a directory that can be synced. *)
Record config_ok (cfg : config) : Prop := {
  cfg_name : filename_ok (aof_filename cfg);
  cfg_flush : may_fail cfg (SAppend true) = false;
  cfg_sync : may_fail cfg SDirSync = false }.

Section Run.
Context {db cmd : Type} `{AofDataOk db cmd} (cfg : config) (bad : bool) (Hcfg : config_ok cfg).
Abbreviation world := (world (db := db) (cmd := cmd)).
Abbreviation disk := (disk (cmd := cmd)).
Abbreviation f := (aof_filename cfg).
Abbreviation wp := (wp (db := db) (cmd := cmd) bad).
Implicit Types (w : world) (d : disk) (am : aofManifest).

(** ** Commands *)

Definition run_cmds (l : list (Z * cmd)) (x : db) : db := fold_left (fun x c => call c.1 c.2 x) l x.

(** The database selected after a file, and the commands of a piece of one. *)
Definition sel_of (s : Z) (l : list (entry cmd)) : Z := fold_left (fun s e => match e with Sel n => n | Run _ => s end) l s.

Fixpoint cmds_from (s : Z) (l : list (entry cmd)) : list (Z * cmd) :=
  match l with [] => [] | Sel n :: l => cmds_from n l | Run c :: l => (s, c) :: cmds_from s l end.

Lemma run_entries l s x : fold_left run_entry l (s, x) = (sel_of s l, run_cmds (cmds_from s l) x).
Proof. revert s x. induction l as [|[n|c] l IH]; intros s x; [done|..]; cbn [fold_left run_entry fst snd]; by rewrite IH. Qed.

Lemma replay_cmds a b x : replay (a ++ b) x = run_cmds (cmds_from (sel_of 0 a) b) (replay a x).
Proof. rewrite replay_app. unfold replay. by rewrite !run_entries. Qed.

Lemma cmds_from_app s a b : cmds_from s (a ++ b) = cmds_from s a ++ cmds_from (sel_of s a) b.
Proof. revert s. induction a as [|[n|c] a IH]; intros s; [done|..]; simpl; by rewrite IH. Qed.

Lemma sel_of_app s a b : sel_of s (a ++ b) = sel_of (sel_of s a) b.
Proof. unfold sel_of. by rewrite fold_left_app. Qed.

Lemma run_cmds_app a b x : run_cmds (a ++ b) x = run_cmds b (run_cmds a x).
Proof. unfold run_cmds. by rewrite fold_left_app. Qed.

(** ** Running *)

Definition same_live am am' : Prop :=
  base_aof_info am' = base_aof_info am /\ incr_aof_list am' = incr_aof_list am /\ curr_base_file_seq am' = curr_base_file_seq am /\
  curr_incr_file_seq am' = curr_incr_file_seq am.

Lemma same_live_refl am : same_live am am.
Proof. done. Qed.

Lemma same_live_infos am am' : same_live am am' -> live_infos am' = live_infos am.
Proof. intros (Hb & Hi & _). unfold live_infos. by rewrite Hb, Hi. Qed.

Lemma manifest_dirty am x : getAofManifestAsString (set_dirty am x) = getAofManifestAsString am.
Proof. done. Qed.

(** The manifests in memory and on disk name the same files in use. *)
Record manifests (n : Z) am d : Prop := {
  ma_ok : am_ok f n am;
  ma_dir : aof_dir d = true;
  ma_old : old_aof d = None;
  ma_disk : exists am', manifest_file d = Some (getAofManifestAsString am') /\ am_ok f n am' /\ same_live am am';
  ma_fresh : incr_fresh f d (curr_incr_file_seq am) }.

(** A running server: [r] is the dataset of the files, [l] the content of the open file. *)
Record running (n : Z) (r : db) (l : list (entry cmd)) w : Prop := {
  ru_state : aof_state (srv w) = AOF_ON;
  ru_wf : disk_wf (dsk w);
  ru_manifests : manifests n (aof_manifest (srv w)) (dsk w);
  ru_files : exists ls pre ai fd, incr_aof_list (aof_manifest (srv w)) = pre ++ [ai] /\
    live (dsk w) (aof_manifest (srv w)) (ls ++ [l]) /\ replay_all (ls ++ [l]) = r /\
    aof_fd (srv w) = Some fd /\ dir (dsk w) !! file_name ai = Some fd;
  ru_data : data (srv w) = run_cmds (cmds_from (sel_of 0 l) (aof_buf (srv w))) r;
  ru_child : forall x, child (srv w) = Some x -> replay l x = r;
  ru_selected : aof_selected_db (srv w) = -1 \/ aof_selected_db (srv w) = sel_of 0 (l ++ aof_buf (srv w)) }.

Lemma manifests_disk n am d ls r : 1 <= n -> disk_wf d -> manifests n am d -> live d am ls -> replay_all ls = r -> disk_ok f n d r.
Proof.
  intros Hn Hwf [Hok Hdir Hold (am' & Hm & Hok' & Hsame) Hfresh] Hl Hr. split_and!; [done|done|right].
  split; [done|]. exists am'. split_and!; [done|done| |].
  - by destruct Hsame as (_ & _ & _ & ->).
  - left. split; [done|]. exists ls. unfold live in *. by rewrite (same_live_infos am am').
Qed.

Lemma running_disk n r l w : 1 <= n -> running n r l w -> disk_ok f n (dsk w) r.
Proof. intros Hn [_ Hwf Hm (ls & pre & ai & fd & _ & Hl & Hr & _) _ _ _]. by eapply manifests_disk. Qed.

(** What a restart finds when the server is gone: every command but those of the buffer. *)
Definition halted (n : Z) (r0 : db) (executed : list (Z * cmd)) w : Prop :=
  exists flushed s, executed = flushed ++ cmds_from s (aof_buf (srv w)) /\ disk_ok f n (dsk w) (run_cmds flushed r0).

(** A server that has executed commands since it started with the dataset [r0]. *)
Definition inv (n : Z) (r0 : db) (executed : list (Z * cmd)) w : Prop :=
  1 <= n /\ exists flushed l, running n (run_cmds flushed r0) l w /\ executed = flushed ++ cmds_from (sel_of 0 l) (aof_buf (srv w)).

Lemma inv_halted n r0 executed w : inv n r0 executed w -> halted n r0 executed w.
Proof. intros (Hn & flushed & l & Hr & ->). exists flushed, (sel_of 0 l). split; [done|]. by eapply running_disk. Qed.

Lemma inv_data n r0 executed w : inv n r0 executed w -> data (srv w) = run_cmds executed r0.
Proof. intros (Hn & flushed & l & Hr & ->). rewrite run_cmds_app. apply (ru_data _ _ _ _ Hr). Qed.

Lemma halted_mono n m r0 executed w : n <= m -> halted n r0 executed w -> halted m r0 executed w.
Proof. intros Hle (flushed & s & ? & ?). exists flushed, s. split; [done|by eapply disk_mono]. Qed.

(** A change of the disk that keeps the buffer and the recovered dataset. *)
Lemma halted_disk n r0 flushed l w : disk_ok f n (dsk w) (run_cmds flushed r0) ->
  halted n r0 (flushed ++ cmds_from (sel_of 0 l) (aof_buf (srv w))) w.
Proof. intros Hd. by exists flushed, (sel_of 0 l). Qed.

Lemma live_split am pre ai : incr_aof_list am = pre ++ [ai] -> live_infos am = (option_list (base_aof_info am) ++ pre) ++ [ai].
Proof. intros Hi. unfold live_infos. by rewrite Hi, app_assoc. Qed.

Lemma last_name n am pre ai x : n < 2 ^ 63 -> am_ok f n am -> incr_aof_list am = pre ++ [ai] -> x ∈ option_list (base_aof_info am) ++ pre -> file_name x <> file_name ai.
Proof.
  intros Hn [(b & Hb & _ & _ & Hname) _ Hi Hs _ _] Hpre Hx. rewrite Hpre in *. apply Forall_app in Hi as [Hip Hia].
  apply Forall_cons in Hia as [(_ & Hsa & Hna) _]. rewrite Hb in Hx. change (option_list (Some b) ++ pre) with (b :: pre) in Hx.
  apply elem_of_cons in Hx as [->|Hx]; rewrite Hna.
  - intros Heq. by eapply incr_name_not_base.
  - rewrite Forall_forall in Hip. destruct (Hip x Hx) as (_ & Hsx & ->). intros Heq%incr_name_inj; [|unfold seq_ok; lia..].
    apply list_elem_of_split in Hx as (p1 & p2 & ->). rewrite <- app_assoc in Hs. apply StronglySorted_app_1_r in Hs.
    cbn [app] in Hs. inversion Hs as [|? ? _ Hf]; subst. apply Forall_app in Hf as [_ Hf]. inversion Hf; subst. lia.
Qed.

(** ** Flushing *)

Lemma append_live n am d pre ai ls l buf fd : n < 2 ^ 63 -> am_ok f n am -> disk_wf d -> incr_aof_list am = pre ++ [ai] -> live d am (ls ++ [l]) ->
  dir d !! file_name ai = Some fd -> live (set_files d (alter (fun l => l ++ buf) fd (files d))) am (ls ++ [l ++ buf]).
Proof.
  intros Hn Hok Hwf Hpre Hl Hfd. unfold live in *. rewrite (live_split am pre ai Hpre) in *.
  apply Forall2_app_inv_r in Hl as (i1 & i2 & Hl1 & Hl2 & Heq). inversion Hl2 as [|? ? i2' ? Hc Hnil]; subst. inversion Hnil; subst.
  apply app_inj_tail in Heq as [<- <-]. apply Forall2_app.
  - apply Forall2_same_length_lookup_2; [by eapply Forall2_length|]. intros i x y Hx Hy.
    rewrite (content_write (file_name ai)) by done. rewrite decide_False; [exact (Forall2_lookup_lr _ _ _ _ _ _ Hl1 Hx Hy)|].
    eapply last_name; eauto. by eapply list_elem_of_lookup_2.
  - constructor; [|constructor]. rewrite (content_write (file_name ai)) by done. by rewrite decide_True, Hc.
Qed.

Lemma append_fresh n am d pre ai k buf fd : n < 2 ^ 63 -> am_ok f n am -> disk_wf d -> incr_aof_list am = pre ++ [ai] -> dir d !! file_name ai = Some fd ->
  k = curr_incr_file_seq am -> incr_fresh f d k -> incr_fresh f (set_files d (alter (fun l => l ++ buf) fd (files d))) k.
Proof.
  intros Hn Hok Hwf Hpre Hfd -> Hfresh s l Hs Hseq. rewrite (content_write (file_name ai)) by done. case_decide as Heq; [|by apply Hfresh].
  exfalso. eapply (new_incr_not_live f n am s ai); eauto. rewrite (live_split am pre ai Hpre). apply elem_of_app. right. by apply list_elem_of_singleton.
Qed.

Lemma running_flush n r l w fd : n < 2 ^ 63 -> running n r l w -> aof_fd (srv w) = Some fd ->
  running n (data (srv w)) (l ++ aof_buf (srv w))
    (World (set_buf (srv w) []) (set_files (dsk w) (alter (fun x => x ++ aof_buf (srv w)) fd (files (dsk w))))).
Proof.
  intros Hn [Hst Hwf [Hok Hdir Hold Hdisk Hfresh] (ls & pre & ai & fd' & Hpre & Hl & Hr & Hfd & Hdirfd) Hdata Hchild Hsel] Hfd'.
  assert (fd' = fd) as -> by congruence.
  constructor; cbn [srv dsk set_buf aof_state aof_manifest aof_fd aof_buf aof_selected_db child data set_files dir].
  - done.
  - by apply write_wf.
  - constructor; cbn [aof_dir old_aof manifest_file set_files]; try done. by eapply append_fresh.
  - exists ls, pre, ai, fd. split_and!; try done; [by eapply append_live|].
    rewrite replay_all_snoc, replay_cmds, <- replay_all_snoc. by rewrite Hr, Hdata.
  - done.
  - intros x Hx. rewrite replay_cmds, (Hchild x Hx). by rewrite Hdata.
  - by rewrite app_nil_r.
Qed.

(** The parts of the server a flush leaves alone. *)
Definition same_server w w' : Prop :=
  aof_manifest (srv w') = aof_manifest (srv w) /\ child (srv w') = child (srv w) /\ aof_selected_db (srv w') = aof_selected_db (srv w).

Lemma inv_flush n r0 ex w fd : n < 2 ^ 63 -> inv n r0 ex w -> aof_fd (srv w) = Some fd ->
  inv n r0 ex (World (set_buf (srv w) []) (set_files (dsk w) (alter (fun x => x ++ aof_buf (srv w)) fd (files (dsk w))))).
Proof.
  intros Hn Hinv Hfd. pose proof (inv_data n r0 ex w Hinv) as Hdata. destruct Hinv as (Hn1 & flushed & l & Hr & Hex).
  split; [done|]. exists ex, (l ++ aof_buf (srv w)). split; [|by rewrite app_nil_r]. rewrite <- Hdata. by eapply running_flush.
Qed.

Lemma wp_flush force n r0 ex w : n < 2 ^ 63 -> inv n r0 ex w ->
  wp (flushAppendOnlyFile cfg force)
    (fun _ w' => inv n r0 ex w' /\ (force = true -> aof_buf (srv w') = []) /\ same_server w w') (halted n r0 ex) w.
Proof.
  intros Hn Hinv. pose proof (inv_halted _ _ _ _ Hinv) as Hhalt. pose proof Hinv as (Hn1 & flushed & l & Hr & Hex).
  destruct (ru_files _ _ _ _ Hr) as (ls & pre & ai & fd & _ & _ & _ & Hfd & _).
  unfold flushAppendOnlyFile. apply wp_bind, wp_getw. rewrite Hfd. destruct (aof_buf (srv w)) as [|e b] eqn:Eb; [by apply wp_ret|].
  apply wp_bind, wp_sys; [done| |].
  - cbn [fst snd negb srv dsk]. assert (Hinv' : inv n r0 ex (World (set_buf (srv w) []) (set_files (dsk w) (alter (fun x => x ++ e :: b) fd (files (dsk w)))))).
    { rewrite <- Eb. by apply inv_flush. }
    apply wp_bind, wp_modify. cbn [srv dsk]. case_match; [|by apply wp_ret]. pose proof (inv_halted _ _ _ _ Hinv').
    apply wp_bind, wp_sys; [done|by apply wp_ret|intros; by apply wp_exit].
  - intros _ Hfail. cbn [negb]. destruct force; [by rewrite (cfg_flush cfg Hcfg) in Hfail|].
    case_match; [by apply wp_exit|by apply wp_ret].
Qed.

(** ** Commands *)

Lemma running_feed n r l w dictid c : running n r l w -> 0 <= dictid ->
  let sel := negb (dictid =? -1) && negb (dictid =? aof_selected_db (srv w)) in
  let buf := aof_buf (srv w) ++ (if sel then [Sel dictid] else []) ++ [Run c] in
  running n r l (World (set_buf (set_selected (set_data (srv w) (call dictid c (data (srv w)))) dictid) buf) (dsk w)) /\
  cmds_from (sel_of 0 l) buf = cmds_from (sel_of 0 l) (aof_buf (srv w)) ++ [(dictid, c)].
Proof.
  intros [Hst Hwf Hm Hfiles Hdata Hchild Hsel] Hd sel buf.
  assert (Hs : sel_of 0 (l ++ buf) = dictid /\ cmds_from (sel_of 0 l) buf = cmds_from (sel_of 0 l) (aof_buf (srv w)) ++ [(dictid, c)]).
  { subst buf sel. replace (dictid =? -1) with false by lia. cbn [negb andb]. rewrite !cmds_from_app, !sel_of_app.
    destruct (dictid =? aof_selected_db (srv w)) eqn:E; cbn [negb app]; [|done]. apply Z.eqb_eq in E. destruct Hsel as [|Hsel]; [lia|].
    rewrite sel_of_app in Hsel. simpl. rewrite <- Hsel, <- E. done. }
  destruct Hs as [Hs1 Hs2]. split; [|done]. constructor; try done; cbn [srv dsk set_buf set_selected set_data data aof_buf aof_selected_db]; [|by right].
  rewrite Hs2, run_cmds_app, <- Hdata. done.
Qed.

Lemma inv_command n r0 ex w dictid c : inv n r0 ex w -> 0 <= dictid ->
  wp (step cfg (OCommand dictid c)) (fun _ w' => inv n r0 (ex ++ [(dictid, c)]) w') (halted n r0 ex) w.
Proof.
  intros (Hn & flushed & l & Hr & ->) Hd. cbn [step]. apply wp_bind, wp_modify. apply wp_bind, wp_getw. cbn [srv dsk set_data aof_state].
  rewrite (ru_state _ _ _ _ Hr). unfold feedAppendOnlyFile. apply wp_modify. cbn [srv dsk set_data aof_selected_db aof_state child aof_buf].
  destruct (running_feed n _ l w dictid c Hr Hd) as [Hr' Hc]. cbn zeta in Hr', Hc.
  split; [done|]. exists flushed, l. rewrite <- app_assoc, <- Hc.
  destruct (negb (dictid =? -1) && negb (dictid =? aof_selected_db (srv w))) eqn:E.
  - cbn [set_selected aof_state child set_data]. rewrite (ru_state _ _ _ _ Hr). done.
  - cbn [aof_state set_data]. rewrite (ru_state _ _ _ _ Hr). split; [|done].
    assert (Hsame : aof_selected_db (srv w) = dictid). { apply andb_false_iff in E as [E|E]; lia. }
    destruct Hr' as [? ? ? ? ? ? ?]. constructor; try done. cbn in *. right. rewrite Hsame. destruct ru_selected0; [lia|done].
Qed.

(** ** Changes that leave the files in use alone *)

Record unchanged am d d' : Prop := {
  un_wf : disk_wf d';
  un_dir : aof_dir d' = aof_dir d;
  un_old : old_aof d' = old_aof d;
  un_fresh : incr_fresh f d' (curr_incr_file_seq am);
  un_content : forall ai, ai ∈ live_infos am -> content d' (file_name ai) = content d (file_name ai);
  un_name : forall ai, ai ∈ live_infos am -> dir d' !! file_name ai = dir d !! file_name ai }.

Lemma running_unchanged n r l w d' : running n r l w -> unchanged (aof_manifest (srv w)) (dsk w) d' -> manifest_file d' = manifest_file (dsk w) ->
  running n r l (World (srv w) d').
Proof.
  intros [Hst Hwf [Hok Hdir Hold Hdisk Hfresh] (ls & pre & ai & fd & Hpre & Hl & Hr & Hfd & Hdfd) Hdata Hchild Hsel] [Hwf' Hd Ho Hf Hc Hnm] Hm.
  constructor; try done; cbn [srv dsk].
  - constructor; [done|by rewrite Hd|by rewrite Ho| |done]. rewrite Hm. done.
  - exists ls, pre, ai, fd. split_and!; try done; [by eapply live_ext|]. rewrite Hnm; [done|].
    rewrite (live_split _ pre ai Hpre). apply elem_of_app. right. by apply list_elem_of_singleton.
Qed.

Lemma unchanged_temp am d t : disk_wf d -> incr_fresh f d (curr_incr_file_seq am) -> unchanged am d (with_temp d t).
Proof. intros [? ? ?] Hf. by constructor. Qed.

Lemma running_temp n r l s d t : running n r l (World s d) -> running n r l (World s (with_temp d t)).
Proof. intros Hr. apply (running_unchanged n r l (World s d) _ Hr); [|done]. destruct Hr as [_ ? [_ _ _ _ ?] _ _ _ _]. by apply unchanged_temp. Qed.

Lemma disk_ok_temp n d t r : disk_ok f n d r -> disk_ok f n (with_temp d t) r.
Proof. intros ([? ? ?] & Hn & Hcase). split_and!; [by constructor|done|]. exact Hcase. Qed.

Lemma running_mono n m r l w : n <= m -> running n r l w -> running m r l w.
Proof.
  intros Hle [Hst Hwf [Hok Hdir Hold (am' & ? & ? & ?) Hfresh] Hfiles Hdata Hchild Hsel]. constructor; try done.
  constructor; try done; [by eapply am_mono|]. exists am'. split_and!; try done. by eapply am_mono.
Qed.

Lemma opened_dir trunc name d x : x <> name -> dir (opened trunc name d).2 !! x = dir d !! x.
Proof. intros Hne. unfold opened. destruct (dir d !! name); [by destruct trunc|]. cbn [snd place dir]. by rewrite lookup_insert_ne. Qed.

Lemma opened_fields trunc name d : aof_dir (opened trunc name d).2 = aof_dir d /\ old_aof (opened trunc name d).2 = old_aof d /\
  manifest_file (opened trunc name d).2 = manifest_file d.
Proof. unfold opened. destruct (dir d !! name); [by destruct trunc|done]. Qed.

(** Opening the next incremental file. *)
Lemma unchanged_open n am d trunc : n + 1 < 2 ^ 63 -> am_ok f n am -> disk_wf d -> incr_fresh f d (curr_incr_file_seq am) ->
  let name := incr_name f (curr_incr_file_seq am + 1) in
  unchanged am d (opened trunc name d).2 /\ dir (opened trunc name d).2 !! name = Some (opened trunc name d).1 /\
  content (opened trunc name d).2 name = Some [].
Proof.
  intros Hn Hok Hwf Hfresh name. destruct (incr_seq_bound f n am Hok) as [Hc _].
  assert (Hs : seq_ok (curr_incr_file_seq am + 1)) by (unfold seq_ok; lia).
  destruct (opened_ok trunc name d Hwf) as (Hwf' & Hdir & Hnew & Hother); [right; intros l; by apply (Hfresh (curr_incr_file_seq am + 1)); [lia|]|].
  destruct (opened_fields trunc name d) as (Hd & Ho & _).
  assert (Hne : forall ai, ai ∈ live_infos am -> file_name ai <> name) by (intros ai Hin; eapply (new_incr_not_live f n); eauto; lia).
  split_and!; [|done|done]. constructor; try done.
  - intros s l Hlt Hseq Hcont. destruct (decide (incr_name f s = name)) as [Heq|Hneq]; [rewrite Heq in Hcont; congruence|].
    rewrite Hother in Hcont by done. by eapply Hfresh.
  - intros ai Hin. by apply Hother, Hne.
  - intros ai Hin. by apply opened_dir, Hne.
Qed.

Lemma wp_open_file trunc name (Q : option nat -> world -> Prop) (C : world -> Prop) w : (bad = true -> C w) ->
  Q (Some (opened trunc name (dsk w)).1) (World (srv w) (opened trunc name (dsk w)).2) -> (bad = true -> Q None w) -> wp (open_file cfg trunc name) Q C w.
Proof.
  intros HC HQ Herr. unfold open_file. apply wp_sys; [done| |by auto]. unfold opened in HQ. by destruct (dir (dsk w) !! name).
Qed.

(** ** Installing a manifest *)

(** The disk with the manifest [am] in place: the files in use are those of [am]. *)
Lemma installed n am d : am_ok f n am -> aof_dir d = true -> old_aof d = None -> incr_fresh f d (curr_incr_file_seq am) ->
  manifests n (set_dirty am false) (set_manifests d (Some (getAofManifestAsString am)) None).
Proof. intros Hok Hd Ho Hf. constructor; [by apply am_dirty|done|done| |done]. exists am. done. Qed.

Lemma set_manifests_wf d m t : disk_wf d -> disk_wf (set_manifests d m t).
Proof. intros [? ? ?]. by constructor. Qed.

Lemma live_new_incr am am' d ls ai : base_aof_info am' = base_aof_info am -> incr_aof_list am' = incr_aof_list am ++ [ai] ->
  live d am ls -> content d (file_name ai) = Some [] -> live d am' (ls ++ [[]]).
Proof.
  intros Hb Hi Hl Hc. unfold live, live_infos in *. rewrite Hb, Hi, app_assoc. apply Forall2_app; [done|]. by repeat constructor.
Qed.

Lemma wp_openNewIncr n r l w : 1 <= n -> n + 1 < 2 ^ 63 -> running n r l w -> aof_buf (srv w) = [] -> child (srv w) = None -> aof_selected_db (srv w) = -1 ->
  wp (openNewIncrAofForAppend cfg)
    (fun ok w' => aof_buf (srv w') = [] /\ child (srv w') = None /\ data (srv w') = data (srv w) /\ running (n + 1) r (if ok : bool then [] else l) w')
    (fun w' => aof_buf (srv w') = [] /\ disk_ok f (n + 1) (dsk w') r) w.
Proof.
  intros Hn1 Hn Hr Hbuf Hchild Hsel. unfold openNewIncrAofForAppend. apply wp_bind, wp_getw. rewrite (ru_state _ _ _ _ Hr).
  assert (Hold : running (n + 1) r l w) by (eapply running_mono; [|exact Hr]; lia).
  pose proof Hr as [Hst Hwf [Hok Hdir Ho Hdisk Hfresh] (ls & pre & ai & fd & Hpre & Hl & Hrep & _) Hdata _ _].
  destruct (am_new_incr f n (aof_manifest (srv w)) Hok) as (am' & Hnew & Hok' & Hb' & Hi' & Hc' & Hdirty). rewrite Hnew.
  destruct (unchanged_open n _ (dsk w) true Hn Hok Hwf Hfresh) as (Hun & Hname & Hcont).
  set (name := incr_name f (curr_incr_file_seq (aof_manifest (srv w)) + 1)) in *. set (d1 := (opened true name (dsk w)).2) in *.
  assert (Hr1 : running (n + 1) r l (World (srv w) d1)) by (apply running_unchanged; [done|done|apply (opened_fields true)]).
  apply wp_bind, wp_open_file; [intros _; split; [done|]; eapply running_disk; [lia|done]| |intros _; by apply wp_ret].
  set (fd' := (opened true name (dsk w)).1) in *. fold d1.
  assert (Hfresh' : incr_fresh f d1 (curr_incr_file_seq am')).
  { rewrite Hc'. intros s x Hs Hseq. apply (un_fresh _ _ _ Hun); [lia|done]. }
  assert (Hlive' : live d1 am' ((ls ++ [l]) ++ [[]])).
  { eapply live_new_incr; [done|exact Hi'| |done]. eapply live_ext; [|exact Hl]. apply (un_content _ _ _ Hun). }
  assert (Hm' : manifests (n + 1) (set_dirty am' false) (set_manifests d1 (Some (getAofManifestAsString am')) None)).
  { apply installed; [done| | |done]; [by rewrite (un_dir _ _ _ Hun)|by rewrite (un_old _ _ _ Hun)]. }
  assert (Hrep' : replay_all ((ls ++ [l]) ++ [[]]) = r) by (by rewrite replay_all_snoc).
  pose proof (running_disk (n + 1) r l _ ltac:(lia) Hr1) as Hd1. pose proof (un_wf _ _ _ Hun) as Hwf1. apply wp_bind, wp_bind, wp_persist; [apply Hcfg|..].
  - intros _ t. split; [done|]. by apply disk_ok_temp.
  - intros _ _. split; [done|]. eapply manifests_disk; [lia|by apply set_manifests_wf|exact Hm'|exact Hlive'|exact Hrep'].
  - intros _. apply wp_ret. cbn [fst snd negb]. apply wp_bind, wp_modify, wp_ret.
    cbn [srv dsk set_am set_fd aof_buf child data]. split_and!; try done.
    constructor; cbn [srv dsk set_am set_fd aof_state aof_manifest aof_fd aof_buf aof_selected_db child data].
    + done.
    + by apply set_manifests_wf.
    + done.
    + exists (ls ++ [l]), (incr_aof_list (aof_manifest (srv w))), (AofInfo name (curr_incr_file_seq (aof_manifest (srv w)) + 1) AOF_FILE_TYPE_INCR), fd'. done.
    + by rewrite Hdata, Hbuf.
    + by rewrite Hchild.
    + by left.
  - by rewrite Hdirty.
  - intros _ t. apply wp_ret. cbn [fst snd negb]. apply wp_ret. split_and!; try done. by apply running_temp.
Qed.

(** ** Starting a rewrite *)

Lemma set_selected_running n r l w : running n r l w -> running n r l (World (set_selected (srv w) (-1)) (dsk w)).
Proof. intros [? ? ? ? ? ? ?]. constructor; try done. by left. Qed.

Lemma inv_mkdir n r0 ex w : inv n r0 ex w -> wp (dirCreateIfMissing cfg) (fun _ w' => w' = w) (halted n r0 ex) w.
Proof.
  intros Hinv. unfold dirCreateIfMissing. apply wp_sys; [intros _; by apply inv_halted| |done].
  destruct Hinv as (_ & flushed & l & Hr & _). pose proof (ma_dir _ _ _ (ru_manifests _ _ _ _ Hr)) as Hd.
  destruct w as [s d]. cbn [srv dsk fst snd] in *. destruct d. simpl in *. by subst.
Qed.

Lemma wp_rewrite n r0 ex w : n + 1 < 2 ^ 63 -> inv n r0 ex w ->
  wp (step cfg ORewrite) (fun _ w' => inv (n + 1) r0 ex w') (halted (n + 1) r0 ex) w.
Proof.
  intros Hn Hinv. cbn [step]. apply wp_bind. unfold rewriteAppendOnlyFileBackground. apply wp_bind, wp_getw.
  assert (Hmono : forall x, inv n r0 ex x -> inv (n + 1) r0 ex x).
  { intros x (Hn1 & fl & l & Hr & ->). split; [lia|]. exists fl, l. split; [|done]. eapply running_mono; [|exact Hr]. lia. }
  assert (Hhalt : forall x, halted n r0 ex x -> halted (n + 1) r0 ex x) by (intros x; apply halted_mono; lia).
  destruct (child (srv w)) eqn:Ech; [by apply wp_ret, wp_ret, Hmono|].
  apply wp_bind. eapply wp_mono; [by apply inv_mkdir| |done]. intros ok x ->. destruct ok; cbn [negb]; [|by apply wp_ret, wp_ret, Hmono].
  apply wp_bind, wp_modify. assert (Hinv' : inv n r0 ex (World (set_selected (srv w) (-1)) (dsk w))).
  { destruct Hinv as (Hn1 & fl & l & Hr & ->). split; [done|]. exists fl, l. split; [by apply set_selected_running|done]. }
  apply wp_bind. eapply wp_mono; [apply (wp_flush true n r0 ex); [lia|exact Hinv']| |done]. intros [] w1 (Hinv1 & Hbuf & Hsm & Hsc & Hss). specialize (Hbuf eq_refl).
  cbn [srv set_selected child aof_selected_db] in Hsc, Hss. destruct Hinv1 as (Hn1 & fl & l & Hr & Hex). rewrite Hbuf in Hex. cbn [cmds_from] in Hex.
  rewrite app_nil_r in Hex. subst fl.
  apply wp_bind. eapply wp_mono; [apply wp_openNewIncr; [exact Hn1|done|exact Hr|done|by rewrite Hsc|done]| |].
  - intros ok w2 (Hb2 & Hc2 & Hd2 & Hr2).
    assert (Hinv2 : inv (n + 1) r0 ex w2). { split; [lia|]. exists ex, (if ok : bool then [] else l). split; [done|]. by rewrite Hb2, app_nil_r. }
    destruct ok; cbn [negb]; [|by apply wp_ret, wp_ret]. apply wp_bind, wp_sys; [intros _; by apply inv_halted| |intros _ _; by apply wp_ret, wp_ret].
    cbn [fst snd negb srv dsk]. apply wp_bind, wp_modify, wp_ret, wp_ret. split; [lia|]. exists ex, []. split; [|by cbn [srv set_scheduled set_child aof_buf]; rewrite Hb2, app_nil_r].
    pose proof (ru_data _ _ _ _ Hr2) as Hd. rewrite Hb2 in Hd. cbn in Hd. destruct Hr2 as [? ? ? ? ? ? ?]. constructor; try done.
    cbn [srv set_scheduled set_child child]. intros x [= <-]. by rewrite Hd.
  - intros w2 (Hb2 & Hd2). exists ex, 0. by rewrite Hb2, app_nil_r.
Qed.

(** ** Deleting history files *)

Lemma unchanged_unlink am d name : disk_wf d -> incr_fresh f d (curr_incr_file_seq am) -> (forall ai, ai ∈ live_infos am -> file_name ai <> name) ->
  unchanged am d (set_dir d (delete name (dir d))).
Proof.
  intros Hwf Hf Hne. constructor; try done.
  - by apply unlink_wf.
  - intros s l Hs Hseq Hc%content_unlink_Some. by eapply Hf.
  - intros ai Hin. by apply content_unlink, Hne.
  - intros ai Hin. cbn [set_dir dir]. rewrite lookup_delete_ne; [done|]. intros ->. by eapply Hne.
Qed.

Lemma running_am n r l w am : running n r l w -> am_ok f n am -> same_live (aof_manifest (srv w)) am -> running n r l (World (set_am (srv w) am) (dsk w)).
Proof.
  intros [Hst Hwf [Hok Hdir Hold (am' & Hm & Hok' & Hs1 & Hs2 & Hs3 & Hs4) Hfresh] (ls & pre & ai & fd & Hpre & Hl & Hrep) Hdata Hchild Hsel] Ham Hsame.
  pose proof (same_live_infos _ _ Hsame) as Hinfos. destruct Hsame as (Hb & Hi & Hcb & Hci). constructor; try done; cbn [srv dsk set_am aof_manifest].
  - constructor; [done|done|done| |by rewrite Hci]. exists am'. split_and!; try done. split_and!; congruence.
  - exists ls, pre, ai, fd. rewrite Hi. unfold live in *. by rewrite Hinfos.
Qed.

Lemma running_installed n r l s d : running n r l (World s d) ->
  running n r l (World (set_am s (set_dirty (aof_manifest s) false)) (set_manifests d (Some (getAofManifestAsString (aof_manifest s))) None)).
Proof.
  intros [Hst Hwf [Hok Hdir Hold _ Hfresh] Hfiles Hdata Hchild Hsel]. cbn [srv dsk] in *. constructor; try done.
  - by apply set_manifests_wf.
  - by apply installed.
Qed.

(** The server but for its manifest. *)
Definition same_data w w' : Prop := aof_buf (srv w') = aof_buf (srv w) /\ child (srv w') = child (srv w) /\ data (srv w') = data (srv w).

Lemma wp_del_loop n r l hs w : 1 <= n -> n < 2 ^ 63 -> running n r l w -> history_aof_list (aof_manifest (srv w)) = hs ->
  wp (del_history_loop cfg hs) (fun _ w' => running n r l w' /\ same_data w w') (fun w' => bad = true /\ aof_buf (srv w') = aof_buf (srv w) /\ disk_ok f n (dsk w') r) w.
Proof.
  intros Hn1 Hn. revert w. induction hs as [|h hs IH]; intros w Hr Hh; cbn [del_history_loop]; [by apply wp_ret|].
  pose proof Hr as [_ Hwf [Hok _ _ _ Hfresh] _ _ _ _]. pose proof (am_hist _ _ _ Hok) as Hhist. rewrite Hh in Hhist.
  apply Forall_cons in Hhist as [Hho _]. apply wp_bind, wp_assert; [destruct Hho as [-> _]; done|].
  set (d1 := set_dir (dsk w) (delete (file_name h) (dir (dsk w)))).
  set (am1 := AofManifest (base_aof_info (aof_manifest (srv w))) (incr_aof_list (aof_manifest (srv w))) hs (curr_base_file_seq (aof_manifest (srv w)))
    (curr_incr_file_seq (aof_manifest (srv w))) (dirty (aof_manifest (srv w)))).
  assert (Hnext : forall d', (d' = dsk w \/ d' = d1) -> running n r l (World (set_am (srv w) am1) d')).
  { intros d' Hd. apply (running_am n r l (World (srv w) d')); [| |done].
    - destruct Hd as [->| ->]; [by destruct w|]. apply running_unchanged; [done| |done]. apply unchanged_unlink; [done|done|]. intros ai Hin. by eapply hist_not_live.
    - apply am_history; [done|]. rewrite Hh. intros x Hx. by constructor. }
  assert (Hgo : forall d', (d' = dsk w \/ d' = d1) -> wp (modify (fun s => let am := aof_manifest s in
      set_am s (AofManifest (base_aof_info am) (incr_aof_list am) hs (curr_base_file_seq am) (curr_incr_file_seq am) (dirty am)));; del_history_loop cfg hs)
    (fun _ w' => running n r l w' /\ same_data w w') (fun w' => bad = true /\ aof_buf (srv w') = aof_buf (srv w) /\ disk_ok f n (dsk w') r) (World (srv w) d')).
  { intros d' Hd. apply wp_bind, wp_modify. apply (IH (World (set_am (srv w) am1) d')); [by apply Hnext|done]. }
  apply wp_bind. unfold bg_unlink. apply wp_sys.
  - intros ?. split_and!; [done|done|]. by eapply running_disk.
  - apply Hgo. by right.
  - intros _ _. specialize (Hgo (dsk w) (or_introl eq_refl)). by destruct w.
Qed.

Lemma wp_del_history n r l w : 1 <= n -> n < 2 ^ 63 -> running n r l w ->
  wp (aofDelHistoryFiles cfg) (fun _ w' => running n r l w' /\ same_data w w') (fun w' => bad = true /\ aof_buf (srv w') = aof_buf (srv w) /\ disk_ok f n (dsk w') r) w.
Proof.
  intros Hn1 Hn Hr. unfold aofDelHistoryFiles. apply wp_bind, wp_getw. case_match; [by apply wp_ret|].
  apply wp_bind. eapply wp_mono; [by apply wp_del_loop| |done]. intros [] w1 (Hr1 & Hb1 & Hc1 & Hd1). apply wp_bind, wp_modify, wp_bind, wp_getw.
  cbn [srv dsk]. set (s2 := set_am (srv w1) (set_dirty (aof_manifest (srv w1)) true)).
  assert (Hr2 : running n r l (World s2 (dsk w1))).
  { apply (running_am n r l w1); [done| |done]. apply am_dirty. apply (ma_ok _ _ _ (ru_manifests _ _ _ _ Hr1)). }
  pose proof (running_installed n r l _ _ Hr2) as Hr3. pose proof (running_disk n r l _ Hn1 Hr2) as Hdk.
  apply wp_bind, wp_persist; [apply Hcfg|..].
  - intros ? t. split_and!; [done|done|]. by apply disk_ok_temp.
  - intros ? _. split_and!; [done|done|]. by apply (running_disk n r l _ Hn1 Hr3).
  - intros _. apply wp_bind, wp_modify, wp_ret. done.
  - done.
  - intros _ t. apply wp_bind, wp_modify, wp_ret. split; [|done]. apply (running_temp n r l s2), Hr2.
Qed.

(** ** The end of a rewrite *)

Lemma unchanged_base n am d rdb x : n + 1 < 2 ^ 63 -> am_ok f n am -> disk_wf d -> incr_fresh f d (curr_incr_file_seq am) ->
  let name := base_name f (curr_base_file_seq am + 1) rdb in
  unchanged am d (place name x d) /\ content (place name x d) name = Some x /\ (forall ai, ai ∈ live_infos am -> file_name ai <> name).
Proof.
  intros Hn Hok Hwf Hfresh name. pose proof (am_base_seq _ _ _ Hok) as Hb. assert (Hs : seq_ok (curr_base_file_seq am + 1)) by (unfold seq_ok; lia).
  assert (Hne : forall ai, ai ∈ live_infos am -> file_name ai <> name) by (intros ai Hin; eapply (new_base_not_live f n); eauto; lia).
  split_and!; [|by rewrite content_place, decide_True|done]. constructor; try done.
  - by apply place_wf.
  - intros s l Hlt Hseq. rewrite content_place by done. case_decide as Heq; [by apply incr_base_name in Heq|by apply Hfresh].
  - intros ai Hin. rewrite content_place by done. by rewrite decide_False by (by apply Hne).
  - intros ai Hin. cbn [place dir]. rewrite lookup_insert_ne; [done|]. intros Heq. by eapply Hne.
Qed.

Lemma live_last d am am' ls l pre ai b x : live d am (ls ++ [l]) -> incr_aof_list am = pre ++ [ai] -> base_aof_info am' = Some b -> incr_aof_list am' = [ai] ->
  content d (file_name b) = Some x -> live d am' [x; l].
Proof.
  intros Hl Hpre Hb Hi Hx. unfold live in *. rewrite (live_split am pre ai Hpre) in Hl. rewrite (live_base am' b Hb), Hi.
  apply Forall2_app_inv_r in Hl as (i1 & i2 & _ & Hl2 & Heq). inversion Hl2 as [|? ? i2' ? Hc Hnil]; subst. inversion Hnil; subst.
  apply app_inj_tail in Heq as [_ <-]. by repeat constructor.
Qed.

Lemma wp_unlink_base n r l w rdb : 1 <= n -> n + 1 < 2 ^ 63 -> running n r l w -> forall m, n <= m ->
  wp (bg_unlink cfg (base_name f (curr_base_file_seq (aof_manifest (srv w)) + 1) rdb))
    (fun _ w' => running m r l w' /\ same_data w w') (fun w' => aof_buf (srv w') = aof_buf (srv w) /\ disk_ok f m (dsk w') r) w.
Proof.
  intros Hn1 Hn Hr m Hm. pose proof Hr as [_ Hwf [Hok _ _ _ Hfresh] _ _ _ _].
  destruct (unchanged_base n _ (dsk w) rdb [] Hn Hok Hwf Hfresh) as (_ & _ & Hne). apply wp_sys.
  - intros _. split; [done|]. eapply disk_mono; [exact Hm|]. by eapply running_disk.
  - cbn [fst snd]. split; [|done]. eapply running_mono; [exact Hm|]. apply running_unchanged; [done| |done]. by apply unchanged_unlink.
  - intros _ _. split; [|done]. by eapply running_mono.
Qed.

Lemma wp_succeeded n r l w x : 1 <= n -> n + 1 < 2 ^ 63 -> running n r l w -> child (srv w) = Some x ->
  wp (rewrite_succeeded cfg x) (fun _ w' => running (n + 1) r l w' /\ same_data w w')
    (fun w' => aof_buf (srv w') = aof_buf (srv w) /\ disk_ok f (n + 1) (dsk w') r) w.
Proof.
  intros Hn1 Hn Hr Hch. unfold rewrite_succeeded. apply wp_bind, wp_getw.
  pose proof Hr as [Hst Hwf [Hok Hdir Ho Hdisk Hfresh] (ls & pre & ai & fd & Hpre & Hl & Hrep & Hfd & Hdfd) Hdata Hchild Hsel].
  destruct (am_new_base f n _ (aof_use_rdb_preamble cfg) Hok) as (am1 & Hnew & Hok1 & Hb1 & Hi1 & Hc1 & Hdirty1).
  destruct (unchanged_base n _ (dsk w) (aof_use_rdb_preamble cfg) (rewritten x) Hn Hok Hwf Hfresh) as (Hun & Hcont & _).
  apply wp_bind. eapply wp_lift; [exact Hnew|]. set (name := base_name f (curr_base_file_seq (aof_manifest (srv w)) + 1) (aof_use_rdb_preamble cfg)) in *.
  set (d1 := place name (rewritten x) (dsk w)) in *.
  assert (Hr0 : running n r l (World (srv w) d1)) by (by apply running_unchanged).
  assert (Hdk0 : disk_ok f (n + 1) (dsk w) r) by (eapply disk_mono; [|eapply running_disk; [exact Hn1|exact Hr]]; lia).
  apply wp_bind, wp_sys; [by intros _| |intros _ _; apply wp_ret; split; [eapply running_mono; [|exact Hr]; lia|done]].
  cbn [fst snd negb srv dsk]. rewrite Hst. apply wp_bind, wp_ret.
  rewrite <- Hi1 in Hpre. destruct (am_mark f (n + 1) am1 Hok1 pre ai Hpre) as (am2 & Hmark & Hok2 & Hb2 & Hi2 & Hc2 & Hdirty2). rewrite Hi1 in Hpre.
  apply wp_bind. eapply wp_lift; [rewrite Hfd, bool_decide_true by eauto; exact Hmark|].
  assert (Hlive : live d1 am2 [rewritten x; l]).
  { eapply live_last; [eapply live_ext; [apply (un_content _ _ _ Hun)|exact Hl]|exact Hpre|by rewrite Hb2|done|done]. }
  assert (Hrep2 : replay_all [rewritten x; l] = r).
  { unfold replay_all. cbn [fold_left]. rewrite rewritten_ok. by apply Hchild. }
  assert (Hm2 : manifests (n + 1) (set_dirty am2 false) (set_manifests d1 (Some (getAofManifestAsString am2)) None)).
  { apply installed; [done| | |]; [by rewrite (un_dir _ _ _ Hun)|by rewrite (un_old _ _ _ Hun)|]. rewrite Hc2, Hc1. apply (un_fresh _ _ _ Hun). }
  pose proof (un_wf _ _ _ Hun) as Hwf1. pose proof (set_manifests_wf d1 (Some (getAofManifestAsString am2)) None Hwf1) as Hwf2.
  apply wp_bind, wp_persist; [apply Hcfg|..].
  - intros _ t. split; [done|]. apply disk_ok_temp. eapply disk_mono; [|exact (running_disk n r l _ Hn1 Hr0)]. lia.
  - intros _ _. split; [done|]. eapply manifests_disk; [lia|exact Hwf2|exact Hm2|exact Hlive|exact Hrep2].
  - intros _. cbn [fst snd negb]. apply wp_bind, wp_modify.
    assert (Hr2 : running (n + 1) r l (World (set_am (srv w) (set_dirty am2 false)) (set_manifests d1 (Some (getAofManifestAsString am2)) None))).
    { constructor; try done. cbn [srv dsk set_am aof_manifest aof_fd set_manifests dir]. exists [rewritten x], [], ai, fd. split_and!; try done.
      rewrite (un_name _ _ _ Hun); [done|]. rewrite (live_split _ pre ai Hpre). apply elem_of_app. right. by apply list_elem_of_singleton. }
    apply wp_bind. eapply wp_mono; [apply (wp_del_history (n + 1) r l); [lia|done|exact Hr2]| |by intros w' [_ ?]]. intros b w3 (Hr3 & Hsame3). apply wp_modify.
    rewrite (ru_state _ _ _ _ Hr3). destruct w3. done.
  - by rewrite Hdirty2.
  - intros _ t. cbn [fst snd negb]. apply wp_bind. pose proof (running_temp n r l (srv w) d1 t Hr0) as Hrt.
    eapply wp_mono; [apply (wp_unlink_base n r l _ (aof_use_rdb_preamble cfg) Hn1 Hn Hrt (n + 1)); lia| |done]. intros [] w3 Hw3. by apply wp_ret.
Qed.

Lemma wp_child_done success n r0 ex w : n + 1 < 2 ^ 63 -> inv n r0 ex w ->
  wp (step cfg (OChildDone success)) (fun _ w' => inv (n + 1) r0 ex w') (halted (n + 1) r0 ex) w.
Proof.
  intros Hn (Hn1 & fl & l & Hr & ->). cbn [step]. apply wp_bind, wp_getw.
  assert (Hinv : forall w', running (n + 1) (run_cmds fl r0) l w' -> aof_buf (srv w') = aof_buf (srv w) ->
    inv (n + 1) r0 (fl ++ cmds_from (sel_of 0 l) (aof_buf (srv w))) w').
  { intros w' Hr' Hb. split; [lia|]. exists fl, l. by rewrite Hb. }
  assert (Hr1 : running (n + 1) (run_cmds fl r0) l w) by (eapply running_mono; [|exact Hr]; lia).
  destruct (child (srv w)) as [x|] eqn:Hch; [|apply wp_ret; by apply Hinv].
  assert (Hend : forall w', running (n + 1) (run_cmds fl r0) l w' -> same_data w w' ->
    wp (w' ← getw; match aof_state (srv w') with AOF_WAIT_REWRITE => modify (fun s => set_buf s []);; aofDelTempIncrAofFile cfg;; modify (fun s => set_scheduled s true) | _ => mret tt end)
      (fun _ w' => wp (modify (fun s => set_child s None)) (fun _ w' => inv (n + 1) r0 (fl ++ cmds_from (sel_of 0 l) (aof_buf (srv w))) w') (halted (n + 1) r0 (fl ++ cmds_from (sel_of 0 l) (aof_buf (srv w)))) w')
      (halted (n + 1) r0 (fl ++ cmds_from (sel_of 0 l) (aof_buf (srv w)))) w').
  { intros w' Hr' (Hb & _ & _). apply wp_bind, wp_getw. rewrite (ru_state _ _ _ _ Hr'). apply wp_ret, wp_modify. apply Hinv; [|done].
    destruct Hr' as [? ? ? ? ? ? ?]. by constructor. }
  apply wp_bind. unfold backgroundRewriteDoneHandler. apply wp_bind, wp_getw. rewrite Hch. apply wp_bind.
  destruct success; [|apply wp_ret; by apply Hend].
  eapply wp_mono; [by apply (wp_succeeded n (run_cmds fl r0) l)| |].
  - intros [] w' [Hr' Hsame]. by apply Hend.
  - intros w' [Hb Hd]. exists fl, (sel_of 0 l). by rewrite Hb.
Qed.

(** ** Starting: the manifest *)

Definition fresh_server (s : server (db := db) (cmd := cmd)) : Prop :=
  aof_state s = AOF_ON /\ aof_fd s = None /\ aof_buf s = [] /\ aof_selected_db s = -1 /\ child s = None.

(** A start that ends early leaves the dataset it would have found. *)
Definition start_halted (n : Z) (r : db) w : Prop := bad = true /\ aof_buf (srv w) = [] /\ disk_ok f n (dsk w) r.

(** The disk [d] of a manifest [am] in memory, up to its files. *)
Definition manifest_loaded (n : Z) am d : Prop :=
  aof_dir d = true /\ manifest_file d = Some (getAofManifestAsString am) /\ am_ok f n am /\ dirty am = false /\ incr_fresh f d (curr_incr_file_seq am).

Definition no_manifest am d : Prop := manifest_file d = None /\ am = aofManifestCreate /\ dir d !! f = None /\ incr_fresh f d 0.

Definition at_load (n : Z) (r : db) w : Prop :=
  fresh_server (srv w) /\ data (srv w) = no_data /\ disk_wf (dsk w) /\
  ((no_manifest (aof_manifest (srv w)) (dsk w) /\ r = match old_aof (dsk w) with Some l => replay l no_data | None => no_data end) \/
   (manifest_loaded n (aof_manifest (srv w)) (dsk w) /\ disk_files f (dsk w) (aof_manifest (srv w)) r)).

Lemma at_load_disk n r w : 1 <= n -> at_load n r w -> disk_ok f n (dsk w) r.
Proof.
  intros Hn (_ & _ & Hwf & [[(Hm & _ & Hd & Hf) Hr]|[(Hdir & Hm & Hok & _ & Hf) Hfiles]]); split_and!; try done; [by left|right].
  split; [done|]. by exists (aof_manifest (srv w)).
Qed.

Lemma wp_load_manifest n r s d : 1 <= n -> n < 2 ^ 63 -> fresh_server s -> data s = no_data -> disk_ok f n d r ->
  wp (aofLoadManifestFromDisk cfg) (fun _ w => at_load n r w) (start_halted n r) (World s d).
Proof.
  intros Hn1 Hn Hs Hdata Hdk. unfold aofLoadManifestFromDisk. apply wp_bind, wp_modify, wp_bind, wp_getw. cbn [srv dsk].
  pose proof Hdk as (Hwf & _ & [(Hm & Hd & Hf & Hr)|(Hdir & am & Hm & Hok & Hf & Hfiles)]).
  - rewrite Hm. assert (Hnone : (if aof_dir d then None else None) = None :> option (list Z)) by (by destruct (aof_dir d)).
    rewrite Hnone. apply wp_ret. split_and!; try done. by left.
  - rewrite Hdir, Hm. destruct Hs as (? & ? & Hbuf & ? & ?). apply wp_bind, wp_sys; [done| |intros ? _; apply wp_exit; done].
    cbn [fst snd negb srv dsk]. destruct (am_manifest f n am (cfg_name cfg Hcfg) Hn Hok) as (Hmok & Hne & Hre).
    apply wp_bind. eapply wp_lift; [by apply load_manifest|]. rewrite Hre. apply wp_modify.
    split_and!; try done. right. split; [|done]. split_and!; try done. by apply am_dirty.
Qed.

(** ** Starting: the upgrade of an old file *)

Definition upgrade_am am : aofManifest :=
  AofManifest (Some (AofInfo f 1 AOF_FILE_TYPE_BASE)) (incr_aof_list am) (history_aof_list am) 1 (curr_incr_file_seq am) true.

(** The dataset is in the old file. *)
Definition upgrading (n : Z) (r : db) am d : Prop :=
  dir d !! f = None /\ incr_aof_list am = [] /\ am_ok f n (upgrade_am am) /\ incr_fresh f d (curr_incr_file_seq am) /\
  exists l, old_aof d = Some l /\ r = replay l no_data.

Definition upgraded (n : Z) (r : db) w : Prop :=
  fresh_server (srv w) /\ data (srv w) = no_data /\ disk_wf (dsk w) /\ old_aof (dsk w) = None /\
  ((no_manifest (aof_manifest (srv w)) (dsk w) /\ r = no_data) \/
   (manifest_loaded n (aof_manifest (srv w)) (dsk w) /\ exists ls, live (dsk w) (aof_manifest (srv w)) ls /\ replay_all ls = r)).

Lemma upgrade_am_ok n am : am_ok f n am -> incr_aof_list am = [] -> (exists b, base_aof_info am = Some b /\ file_name b = f) -> am_ok f n (upgrade_am am).
Proof.
  intros [(b & Hb & _ & _ & Hname) Hbs Hi Hs Hc Hh] Hnil (b' & Hb' & Hf). rewrite Hb in Hb'. injection Hb' as <-.
  assert (Hone : curr_base_file_seq am = 1). { rewrite Hf in Hname. destruct Hname as [[x Hx]|[? _]]; [|done]. exfalso. by eapply name_not_prefix; [|symmetry; exact Hx]. }
  rewrite Hone in *. constructor; cbn [upgrade_am base_aof_info incr_aof_list history_aof_list curr_base_file_seq curr_incr_file_seq]; try done.
  eexists. split; [reflexivity|]. split_and!; [done|done|]. by right.
Qed.

Lemma upgrade_am_create n : 1 <= n -> am_ok f n (upgrade_am aofManifestCreate).
Proof.
  intros Hn. constructor; simpl; try done; try constructor; try lia. eexists. split; [reflexivity|]. split_and!; [done|done|]. by right.
Qed.

(** The check at the start of [loadAppendOnlyFiles] finds exactly the disks that need it. *)
Lemma upgrade_cases n r w : 1 <= n -> at_load n r w ->
  if needs_upgrade cfg (aof_manifest (srv w)) (dsk w) then upgrading n r (aof_manifest (srv w)) (dsk w) else upgraded n r w.
Proof.
  intros Hn (Hs & Hdata & Hwf & Hcase). unfold needs_upgrade. destruct (old_aof (dsk w)) as [l|] eqn:Ho.
  - rewrite bool_decide_true by eauto. cbn [andb]. destruct Hcase as [[(Hm & Ham & Hd & Hf) Hr]|[(Hdir & Hm & Hok & Hdirty & Hf) Hfiles]].
    + rewrite (bool_decide_true (base_aof_info _ = None /\ _)) by (by rewrite Ham). rewrite orb_true_r. cbn [orb].
      unfold upgrading. rewrite Ham. split_and!; try done; [by apply upgrade_am_create|]. eauto.
    + destruct Hfiles as [[? _]|(l' & Hl' & Hr & Hi & Hnf & b & Hb & Hbf)]; [congruence|]. rewrite Ho in Hl'. injection Hl' as <-.
      match goal with |- context [match base_aof_info ?am with Some b => @?g b | None => false end] =>
        assert (Hthird : match base_aof_info am with Some b => g b | None => false end = true) end.
      { rewrite Hb. cbn beta. rewrite !andb_true_iff, negb_true_iff. split_and!; [by apply bool_decide_eq_true|apply bool_decide_eq_true; by rewrite Hbf|].
        unfold aofFileExist. rewrite Hnf, bool_decide_false by (by intros [? ?]). by rewrite andb_false_r. }
      cbn beta in Hthird. rewrite Hthird, orb_true_r. split_and!; try done; [|eauto]. apply upgrade_am_ok; [done|done|eauto].
  - rewrite (bool_decide_false (is_Some None)) by (by intros [? ?]). cbn [andb]. split_and!; try done.
    destruct Hcase as [[Hm Hr]|[Hm Hfiles]]; [by left|right]. split; [done|].
    destruct Hfiles as [[_ ?]|(l' & Hl' & _)]; [done|congruence].
Qed.

Lemma upgrading_disk n r am d d' : 1 <= n -> disk_wf d -> upgrading n r am d -> d' = set_manifests d (Some (getAofManifestAsString (upgrade_am am))) None ->
  aof_dir d = true -> disk_ok f n d' r.
Proof.
  intros Hn Hwf (Hd & Hi & Hok & Hf & l & Ho & Hr) -> Hdir. split_and!; [by apply set_manifests_wf|done|right]. split; [done|].
  exists (upgrade_am am). split_and!; try done. right. exists l. split_and!; try done. eauto.
Qed.

Lemma wp_upgrade n r w : 1 <= n -> n < 2 ^ 63 -> at_load n r w -> upgrading n r (aof_manifest (srv w)) (dsk w) ->
  wp (aofUpgradePrepare cfg) (fun _ w' => upgraded n r w') (start_halted n r) w.
Proof.
  intros Hn1 Hn Hload Hup. pose proof (at_load_disk n r w Hn1 Hload) as Hdk. destruct Hload as (Hs & Hdata & Hwf & _).
  pose proof Hs as (_ & _ & Hbuf & _ & _). pose proof Hup as (Hnf & Hi & Hok & Hf & l & Ho & Hr).
  unfold aofUpgradePrepare. apply wp_bind, wp_getw, wp_bind, wp_assert.
  { unfold aofFileExist. rewrite Hnf, bool_decide_false by (by intros [? ?]). by rewrite andb_false_r. }
  apply wp_bind, wp_sys; [by intros| |intros; by apply wp_exit]. cbn [fst snd negb].
  set (d0 := Disk true (dir (dsk w)) (files (dsk w)) (next_file (dsk w)) (manifest_file (dsk w)) (temp_manifest (dsk w)) (old_aof (dsk w))).
  assert (Hwf0 : disk_wf d0) by (destruct Hwf; by constructor).
  assert (Hdk0 : disk_ok f n d0 r). { destruct Hdk as (_ & _ & Hcase). split_and!; [done|done|]. destruct Hcase as [?|[_ ?]]; [by left|by right]. }
  apply wp_bind, wp_modify. fold (upgrade_am (aof_manifest (srv w))). set (am1 := upgrade_am (aof_manifest (srv w))) in *. cbn [srv dsk].
  assert (Hdk1 : disk_ok f n (set_manifests d0 (Some (getAofManifestAsString am1)) None) r) by (by eapply (upgrading_disk n r (aof_manifest (srv w)) d0)).
  apply wp_bind, wp_persist; [apply Hcfg|..]; cbn [dirty].
  - intros ? t. split_and!; try done. by apply disk_ok_temp.
  - by intros.
  - intros _. apply wp_bind, wp_modify. cbn [fst snd negb]. apply wp_bind, wp_sys; [by intros| |intros; by apply wp_exit].
    cbn [dsk srv set_manifests old_aof d0]. rewrite Ho. cbn [fst snd negb]. apply wp_ret.
    set (d2 := set_manifests d0 (Some (getAofManifestAsString am1)) None).
    assert (Hwf2 : disk_wf d2) by (by apply set_manifests_wf). pose proof (place_wf f l d2 Hwf2) as Hwf3.
    split_and!; try done; [by destruct Hwf3|]. right. split.
    + split_and!; try done; [by apply am_dirty|]. intros s x Hlt Hseq Hc. change (content (place f l d2) (incr_name f s) = Some x) in Hc.
      rewrite content_place in Hc by done. rewrite decide_False in Hc by (by apply name_not_prefix). by eapply Hf.
    + exists [l]. split; [|done]. unfold live, live_infos. cbn [srv set_am aof_manifest set_dirty base_aof_info incr_aof_list am1 upgrade_am]. rewrite Hi. constructor; [|constructor].
      change (content (place f l d2) f = Some l). rewrite content_place by done. by rewrite decide_True.
  - done.
  - intros ? t. apply wp_bind, wp_modify. cbn [fst snd negb]. apply wp_exit. split_and!; try done. by apply disk_ok_temp.
Qed.

(** ** Starting: the files *)

Definition has_files d (t : Z) (infos : list aofInfo) (ls : list (list (entry cmd))) : Prop :=
  Forall (fun ai => file_type ai = t) infos /\ Forall2 (fun ai l => content d (file_name ai) = Some l) infos ls.

Lemma wp_files_size t infos ls size w (C : world -> Prop) : has_files (dsk w) t infos ls -> (bad = true -> C w) ->
  wp (files_size cfg infos t size)
    (fun res w' => w' = w /\ (res = (AOF_OK, size + length (concat ls))%nat \/ (bad = true /\ res = (AOF_OPEN_ERR, 0%nat)))) C w.
Proof.
  intros [Ht Hc] HC. revert size Ht. induction Hc as [|ai l infos ls Hl Hls IH]; intros size Ht; cbn [files_size].
  - apply wp_ret. split; [done|]. left. by rewrite Nat.add_0_r.
  - apply Forall_cons in Ht as [Hty Ht]. apply wp_bind, wp_assert; [lia|]. apply wp_bind, wp_sys; [done| |].
    + cbn [fst snd]. rewrite Hl. destruct w as [s d]. eapply wp_mono; [by apply IH| |done]. intros res w' [-> Hres]. split; [done|].
      destruct Hres as [->|?]; [left|by right]. rewrite concat_cons, length_app. f_equal. lia.
    + intros Hb _. apply wp_ret. split; [done|]. by right.
Qed.

Definition with_data (s : server (db := db) (cmd := cmd)) d (x : db) : world := World (set_data s x) d.

Definition replay_list (ls : list (list (entry cmd))) (x : db) : db := fold_left (fun x l => replay l x) ls x.

Definition good_status (res : load_status) : Prop := res <> AOF_OPEN_ERR /\ res <> AOF_FAILED.

Lemma wp_load_files t infos ls ret s d x (C : world -> Prop) : has_files d t infos ls -> good_status ret -> (bad = true -> forall y, C (with_data s d y)) ->
  wp (load_files cfg infos t ret)
    (fun res w' => (good_status res /\ w' = with_data s d (replay_list ls x)) \/ (bad = true /\ res = AOF_OPEN_ERR /\ exists y, w' = with_data s d y)) C (with_data s d x).
Proof.
  intros [Ht Hc] Hret HC. revert x ret Hret Ht. induction Hc as [|ai l infos ls Hl Hls IH]; intros x ret Hret Ht; cbn [load_files].
  - apply wp_ret. by left.
  - apply Forall_cons in Ht as [Hty Ht]. apply wp_bind, wp_assert; [lia|]. apply wp_bind. unfold loadSingleAppendOnlyFile. apply wp_bind, wp_sys; [by auto| |].
    + cbn [fst snd]. change (dsk (with_data s d x)) with d. rewrite Hl. change (World (srv (with_data s d x)) d) with (with_data s d x).
      change (replay_list (l :: ls) x) with (replay_list ls (replay l x)). destruct l as [|e l].
      * apply wp_ret. apply IH; [|done]. by case_match.
      * apply wp_bind, wp_modify, wp_ret. by apply (IH (replay (e :: l) x)).
    + intros Hb _. apply wp_ret, wp_ret. right. eauto.
Qed.

(** The dataset is loaded; the rest of the server is as it was before. *)
Definition loaded (n : Z) (r : db) w : Prop := upgraded n r (with_data (srv w) (dsk w) no_data) /\ data (srv w) = r.

Lemma upgraded_disk n r w : 1 <= n -> upgraded n r w -> disk_ok f n (dsk w) r.
Proof.
  intros Hn (_ & _ & Hwf & Ho & [[(Hm & _ & Hd & Hf) Hr]|[(Hdir & Hm & Hok & _ & Hf) (ls & Hl & Hr)]]); split_and!; try done.
  - left. by rewrite Ho.
  - right. split; [done|]. exists (aof_manifest (srv w)). split_and!; try done. left. eauto.
Qed.

Lemma live_types n am d ls : am_ok f n am -> live d am ls -> exists b l ls', base_aof_info am = Some b /\ ls = l :: ls' /\
  has_files d AOF_FILE_TYPE_BASE [b] [l] /\ has_files d AOF_FILE_TYPE_INCR (incr_aof_list am) ls'.
Proof.
  intros [(b & Hb & Hty & _) _ Hi _ _ _] Hl. unfold live in Hl. rewrite (live_base am b Hb) in Hl. inversion Hl as [|? l ? ls' Hc Hrest]; subst.
  exists b, l, ls'. split_and!; [done|done|split; by repeat constructor|]. split; [|done]. eapply Forall_impl; [exact Hi|]. by intros ai [? _].
Qed.

Lemma replay_all_empty ls : concat ls = [] -> replay_all ls = no_data.
Proof.
  intros Hc. unfold replay_all. generalize no_data. induction ls as [|l ls IH]; intros x; [done|]. rewrite concat_cons in Hc.
  apply app_eq_nil in Hc as [-> Hc]. cbn [fold_left]. by apply IH.
Qed.

Lemma wp_load_data n r w : 1 <= n -> n < 2 ^ 63 -> at_load n r w -> wp (loadDataFromDisk cfg) (fun _ w' => loaded n r w') (start_halted n r) w.
Proof.
  intros Hn1 Hn Hload. unfold loadDataFromDisk, loadAppendOnlyFiles. apply wp_bind, wp_bind, wp_getw, wp_bind.
  eapply (wp_mono _ _ (fun _ w' => upgraded n r w')); [| |by intros].
  { pose proof (upgrade_cases n r w Hn1 Hload) as Hcase. case_match; [by apply wp_upgrade|by apply wp_ret]. }
  clear w Hload. intros [] [s d] Hup. apply wp_bind, wp_getw. cbn [srv dsk]. pose proof (upgraded_disk n r _ Hn1 Hup) as Hdk.
  pose proof Hup as (Hs & Hdata & Hwf & Ho & Hcase). cbn [srv dsk] in *. pose proof Hs as (_ & _ & Hbuf & _ & _).
  assert (Hw : forall y, y = no_data -> with_data s d y = World s d) by (intros y ->; unfold with_data; rewrite <- Hdata; by destruct s).
  destruct Hcase as [[Hnm Hr]|[Hm (ls & Hl & Hr)]].
  - destruct Hnm as (_ & -> & _). rewrite bool_decide_true by done. apply wp_ret, wp_ret. split; [|cbn [srv]; by rewrite Hdata, Hr].
    change (upgraded n r (with_data s d no_data)). by rewrite Hw.
  - pose proof Hm as (_ & _ & Hok & _). destruct (live_types n (aof_manifest s) d ls Hok Hl) as (b & l & ls' & Hb & -> & Hfb & Hfi).
    rewrite bool_decide_false by (by rewrite Hb; intros [? _]). unfold getBaseAndIncrAppendOnlyFilesSize. rewrite Hb.
    assert (HC : bad = true -> forall y, start_halted n r (with_data s d y)) by (intros; by split_and!).
    assert (HC0 : bad = true -> start_halted n r (World s d)) by (intros Hbad; by split_and!).
    assert (Hdone : forall y, y = r -> loaded n r (with_data s d y)).
    { intros y ->. split; [|done]. change (upgraded n r (with_data s d no_data)). by rewrite Hw. }
    apply wp_bind, wp_bind. eapply wp_mono; [by apply (wp_files_size AOF_FILE_TYPE_BASE [b] [l])| |done].
    intros res w' [-> [->|[Hbad ->]]]; [|apply wp_ret, wp_ret, wp_exit; by auto].
    eapply wp_mono; [by apply (wp_files_size AOF_FILE_TYPE_INCR (incr_aof_list (aof_manifest s)) ls')| |done].
    intros res w' [-> [->|[Hbad ->]]]; [|apply wp_ret, wp_exit; by auto]. cbn [Nat.add].
    destruct (length (concat [l]) + length (concat ls'))%nat eqn:Elen.
    + apply wp_ret, wp_ret. rewrite <- (Hw no_data eq_refl). apply Hdone. rewrite <- Hr. symmetry. apply replay_all_empty.
      apply length_zero_iff_nil. rewrite concat_cons, length_app. simpl in Elen. rewrite app_nil_r in Elen. lia.
    + rewrite <- (Hw no_data eq_refl). apply wp_bind. eapply wp_mono; [by apply (wp_load_files AOF_FILE_TYPE_BASE [b] [l] AOF_OK s d no_data (start_halted n r))| |done].
      intros res w' [[Hgood ->]|(Hbad & -> & y & ->)]; [|apply wp_ret, wp_exit; by auto].
      assert (Hgo : wp (load_files cfg (incr_aof_list (aof_manifest s)) AOF_FILE_TYPE_INCR res)
        (fun a w' => wp (match a with AOF_FAILED | AOF_OPEN_ERR => exit | _ => mret tt end) (fun _ w' => loaded n r w') (start_halted n r) w') (start_halted n r)
        (with_data s d (replay_list [l] no_data))).
      { eapply wp_mono; [by apply (wp_load_files AOF_FILE_TYPE_INCR _ ls' res s d _ (start_halted n r))| |done].
        intros a w' [[Ha ->]|(Hbad & -> & y & ->)]; [|apply wp_exit; by auto]. destruct Ha. destruct a; try done; apply wp_ret, Hdone, Hr. }
      destruct Hgood. by destruct res.
Qed.

(** ** Starting: the file to append to *)

Definition started (n : Z) (r : db) w : Prop :=
  aof_buf (srv w) = [] /\ child (srv w) = None /\ data (srv w) = r /\ exists l, running n r l w.

(** The end of [aofOpenIfNeededOnServerStart]. *)
Definition open_and_persist (aof_name : list Z) am : M (db := db) (cmd := cmd) unit :=
  fd ← open_file cfg false aof_name;
  match fd with
  | None => exit
  | Some fd =>
      modify (fun s => set_fd (set_am s am) (Some fd));;
      r ← persistAofManifest cfg am;
      modify (fun s => set_am s r.2);;
      if negb r.1 then exit else mret tt
  end.

Lemma wp_open_new n r s d am ls : 1 <= n -> n + 1 < 2 ^ 63 -> fresh_server s -> data s = r -> disk_wf d -> am_ok f n am -> aof_dir d = true -> old_aof d = None ->
  incr_fresh f d (curr_incr_file_seq am) -> live d am ls -> replay_all ls = r ->
  disk_ok f (n + 1) d r -> (forall d', unchanged am d d' -> manifest_file d' = manifest_file d -> dir d' !! f = dir d !! f -> disk_ok f (n + 1) d' r) ->
  wp (let '(aof_name, am) := getNewIncrAofName f am in open_and_persist aof_name am) (fun _ w => started (n + 1) r w) (start_halted (n + 1) r) (World s d).
Proof.
  intros Hn1 Hn (Hst & Hfd & Hbuf & Hsel & Hch) Hdata Hwf Hok Hdir Ho Hfresh Hl Hr Hdk Hun'.
  destruct (am_new_incr f n am Hok) as (am' & -> & Hok' & Hb' & Hi' & Hc' & Hdirty).
  destruct (unchanged_open n am d false Hn Hok Hwf Hfresh) as (Hun & Hname & Hcont).
  set (name := incr_name f (curr_incr_file_seq am + 1)) in *. set (d1 := (opened false name d).2) in *. set (fd' := (opened false name d).1) in *.
  assert (Hdk1 : disk_ok f (n + 1) d1 r). { apply Hun'; [done|apply (opened_fields false)|]. apply opened_dir. intros Heq. by eapply name_not_prefix; [|symmetry; exact Heq]. }
  unfold open_and_persist. apply wp_bind, wp_open_file; [by intros| |intros; by apply wp_exit]. cbn [srv dsk]. fold d1. fold fd'. apply wp_bind, wp_modify. cbn [srv dsk].
  assert (Hlive' : live d1 am' (ls ++ [[]])).
  { eapply live_new_incr; [done|exact Hi'| |done]. eapply live_ext; [|exact Hl]. apply (un_content _ _ _ Hun). }
  assert (Hm' : manifests (n + 1) (set_dirty am' false) (set_manifests d1 (Some (getAofManifestAsString am')) None)).
  { apply installed; [done| | |]; [by rewrite (un_dir _ _ _ Hun)|by rewrite (un_old _ _ _ Hun)|]. rewrite Hc'. intros x y Hs Hseq. apply (un_fresh _ _ _ Hun); [lia|done]. }
  assert (Hrep' : replay_all (ls ++ [[]]) = r) by (by rewrite replay_all_snoc). pose proof (un_wf _ _ _ Hun) as Hwf1.
  pose proof (set_manifests_wf d1 (Some (getAofManifestAsString am')) None Hwf1) as Hwf2.
  apply wp_bind, wp_persist; [apply Hcfg|..].
  - intros ? t. split_and!; try done. by apply disk_ok_temp.
  - intros ? _. split_and!; try done. eapply manifests_disk; [lia|exact Hwf2|exact Hm'|exact Hlive'|exact Hrep'].
  - intros _. apply wp_bind, wp_modify. cbn [fst snd negb]. apply wp_ret. split_and!; try done. exists [].
    constructor; cbn [srv dsk set_am set_fd aof_state aof_manifest aof_fd aof_buf aof_selected_db child data]; try done.
    + exists ls, (incr_aof_list am), (AofInfo name (curr_incr_file_seq am + 1) AOF_FILE_TYPE_INCR), fd'. done.
    + by rewrite Hbuf.
    + by rewrite Hch.
    + by left.
  - by rewrite Hdirty.
  - intros ? t. apply wp_bind, wp_modify. cbn [fst snd negb]. apply wp_exit. split_and!; try done. by apply disk_ok_temp.
Qed.

Lemma wp_open_last n r s d am ls pre ai : 1 <= n -> fresh_server s -> data s = r -> disk_wf d -> manifest_loaded n am d -> old_aof d = None ->
  live d am ls -> replay_all ls = r -> incr_aof_list am = pre ++ [ai] ->
  wp (open_and_persist (file_name ai) am) (fun _ w => started n r w) (start_halted n r) (World s d).
Proof.
  intros Hn1 (Hst & Hfd & Hbuf & Hsel & Hch) Hdata Hwf (Hdir & Hm & Hok & Hdirty & Hfresh) Ho Hl Hr Hpre.
  assert (Hm' : manifests n am d). { constructor; try done. exists am. done. }
  pose proof (manifests_disk n am d ls r Hn1 Hwf Hm' Hl Hr) as Hdk. pose proof Hl as Hl'. unfold live in Hl'. rewrite (live_split am pre ai Hpre) in Hl'.
  apply Forall2_app_inv_l in Hl' as (ls1 & ls2 & _ & Hl2 & ->). inversion Hl2 as [|? l ? ? Hc Hnil]; subst. inversion Hnil; subst.
  destruct (dir d !! file_name ai) as [fd|] eqn:Hfd'; [|unfold content in Hc; by rewrite Hfd' in Hc].
  unfold open_and_persist. apply wp_bind, wp_open_file; [by intros| |intros; by apply wp_exit]. cbn [srv dsk]. rewrite (opened_append _ d fd Hfd').
  cbn [fst snd]. apply wp_bind, wp_modify. cbn [srv dsk]. apply wp_bind, wp_persist; [apply Hcfg|..].
  - intros ? t. split_and!; try done. by apply disk_ok_temp.
  - by rewrite Hdirty.
  - by rewrite Hdirty.
  - intros _. apply wp_bind, wp_modify. cbn [fst snd negb]. apply wp_ret. split_and!; try done. exists l.
    constructor; cbn [srv dsk set_am set_fd aof_state aof_manifest aof_fd aof_buf aof_selected_db child data]; try done.
    + exists ls1, pre, ai, fd. done.
    + by rewrite Hbuf.
    + by rewrite Hch.
    + by left.
  - intros ? t. apply wp_bind, wp_modify. cbn [fst snd negb]. apply wp_exit. split_and!; try done. by apply disk_ok_temp.
Qed.

Lemma start_halted_mono n m r w : n <= m -> start_halted n r w -> start_halted m r w.
Proof. intros Hle (? & ? & ?). split_and!; try done. eapply disk_mono; [exact Hle|done]. Qed.

Lemma started_mono n m r w : n <= m -> started n r w -> started m r w.
Proof. intros Hle (? & ? & ? & l & ?). split_and!; try done. exists l. eapply running_mono; [exact Hle|done]. Qed.

(** A first start: the base file of an empty dataset. *)
Lemma wp_open_first n s d : 1 <= n -> n + 1 < 2 ^ 63 -> fresh_server s -> data s = no_data -> disk_wf d -> aof_dir d = true -> old_aof d = None ->
  no_manifest aofManifestCreate d ->
  wp (am ← (r ← lift (getNewBaseFileNameAndMarkPreAsHistory f aofManifestCreate (aof_use_rdb_preamble cfg));
            ok ← sys cfg SRewrite (fun d => (true, place r.1 (rewritten (data s)) d)) false;
            if negb ok then exit else mret r.2);
      let '(aof_name, am) := getLastIncrAofName f am in open_and_persist aof_name am)
    (fun _ w => started (n + 1) no_data w) (start_halted (n + 1) no_data) (World s d).
Proof.
  intros Hn1 Hn Hs Hdata Hwf Hdir Ho (Hm & _ & Hnf & Hfresh). pose proof Hs as (_ & _ & Hbuf & _ & _).
  assert (Hdk : forall d', disk_wf d' -> manifest_file d' = None -> dir d' !! f = None -> incr_fresh f d' 0 -> old_aof d' = None -> disk_ok f (n + 1) d' no_data).
  { intros d' ? ? ? ? Ho'. split_and!; [done|lia|left]. by rewrite Ho'. }
  destruct (am_first_base f (aof_use_rdb_preamble cfg)) as (am & Hnew & Hok & Hb & Hi & Hc). apply wp_bind, wp_bind. eapply wp_lift; [exact Hnew|].
  apply wp_bind, wp_sys; [intros; by split_and!; [..|apply Hdk]| |intros; apply wp_exit; by split_and!; [..|apply Hdk]].
  cbn [fst snd negb srv dsk]. apply wp_ret. set (name := base_name f 1 (aof_use_rdb_preamble cfg)). set (d1 := place name (rewritten (data s)) d).
  assert (Hnm : name <> f) by (by apply name_not_prefix).
  assert (Hwf1 : disk_wf d1) by (by apply place_wf).
  assert (Hnf1 : dir d1 !! f = None) by (cbn [d1 place dir]; by rewrite lookup_insert_ne).
  assert (Hfresh1 : incr_fresh f d1 0).
  { intros x y Hx Hseq. unfold d1. rewrite content_place by done. case_decide as Heq; [by apply incr_base_name in Heq|by apply Hfresh]. }
  unfold getLastIncrAofName. rewrite Hi. cbn [last]. apply (wp_open_new n no_data s d1 am [rewritten (data s)]); try done.
  - eapply am_mono; [|exact Hok]. lia.
  - by rewrite Hc.
  - unfold live. rewrite (live_base am _ Hb), Hi. constructor; [|constructor]. cbn [file_name]. unfold d1. rewrite content_place by done. by rewrite decide_True.
  - unfold replay_all. cbn [fold_left]. by rewrite rewritten_ok.
  - by apply Hdk.
  - intros d' [Hw _ Hod Hf _ _] Hm' Hd'. apply Hdk; [done|by rewrite Hm'|by rewrite Hd'|by rewrite Hc in Hf|by rewrite Hod].
Qed.

Lemma wp_open_start n r w : 1 <= n -> n + 1 < 2 ^ 63 -> loaded n r w ->
  wp (aofOpenIfNeededOnServerStart cfg) (fun _ w' => started (n + 1) r w') (start_halted (n + 1) r) w.
Proof.
  intros Hn1 Hn [Hup Hdata]. pose proof (upgraded_disk n r _ Hn1 Hup) as Hdk. destruct w as [s d]. destruct Hup as (Hs & _ & Hwf & Ho & Hcase).
  cbn [with_data srv dsk set_data aof_manifest] in *. change (fresh_server s) in Hs. pose proof Hs as (Hst & Hfd & Hbuf & _ & _).
  unfold aofOpenIfNeededOnServerStart. apply wp_bind, wp_getw. cbn [srv dsk]. rewrite Hst, Hfd. apply wp_bind, wp_assert; [by apply bool_decide_eq_true|].
  set (d0 := Disk true (dir d) (files d) (next_file d) (manifest_file d) (temp_manifest d) (old_aof d)).
  assert (Hwf0 : disk_wf d0) by (destruct Hwf; by constructor).
  assert (Hdk' : disk_ok f (n + 1) d r) by (eapply disk_mono; [|exact Hdk]; lia).
  apply wp_bind, wp_sys; [by intros| |intros; by apply wp_exit]. cbn [fst snd negb srv dsk]. fold d0.
  fold (open_and_persist). destruct Hcase as [[Hnm Hr]|[Hm (ls & Hl & Hr)]].
  - pose proof Hnm as (_ & Ham & _). rewrite Ham in Hnm |- *. rewrite !bool_decide_true by done. cbn [andb]. rewrite Hr in Hdata |- *.
    by apply (wp_open_first n s d0).
  - pose proof Hm as (Hdir & Hmf & Hok & Hdirty & Hfresh). destruct (am_base _ _ _ Hok) as (b & Hb & _).
    assert (Hd0 : d0 = d). { unfold d0. rewrite <- Hdir. by destruct d. } clearbody d0. subst d0.
    rewrite (bool_decide_false (base_aof_info _ = None)) by (by rewrite Hb). cbn [andb]. apply wp_bind, wp_ret.
    unfold getLastIncrAofName. destruct (last (incr_aof_list (aof_manifest s))) as [ai|] eqn:El.
    + apply last_Some in El as [pre Hpre]. eapply wp_mono; [eapply (wp_open_last n r s d _ ls pre ai); done| |].
      * intros ? w'. apply started_mono. lia.
      * intros w'. apply start_halted_mono. lia.
    + apply (wp_open_new n r s d _ ls); try done. intros d' [Hw Hdd Hod Hf Hcc _] Hm' _.
      eapply disk_mono; [|eapply (manifests_disk n (aof_manifest s) d' ls); [done|done| |by eapply live_ext|done]]; [lia|].
      constructor; [done|by rewrite Hdd|by rewrite Hod| |done]. exists (aof_manifest s). by rewrite Hm'.
Qed.

(** ** Lives of the server *)

Definition stays_on (x : op (cmd := cmd)) : Prop := match x with OCommand dictid _ => 0 <= dictid | OStop | OStart => False | _ => True end.

Definition op_commands (x : op (cmd := cmd)) : list (Z * cmd) := match x with OCommand dictid c => [(dictid, c)] | _ => [] end.

Definition commands (l : list op) : list (Z * cmd) := concat (op_commands <$> l).

Lemma inv_mono n m r0 ex w : n <= m -> inv n r0 ex w -> inv m r0 ex w.
Proof. intros Hle (? & fl & l & Hr & ?). split; [lia|]. exists fl, l. split; [|done]. eapply running_mono; [exact Hle|done]. Qed.

Lemma wp_step x n r0 ex w : n + 1 < 2 ^ 63 -> stays_on x -> inv n r0 ex w ->
  wp (step cfg x) (fun _ w' => inv (n + 1) r0 (ex ++ op_commands x) w') (halted (n + 1) r0 ex) w.
Proof.
  intros Hn Hx Hinv. destruct x; try done; cbn [op_commands]; rewrite ?app_nil_r.
  - eapply wp_mono; [by apply (inv_command n r0 ex)| |]; [intros ? w'; apply inv_mono; lia|intros w'; apply halted_mono; lia].
  - cbn [step]. apply wp_bind, wp_getw. pose proof Hinv as (_ & fl & l & Hr & _). rewrite (ru_state _ _ _ _ Hr).
    eapply wp_mono; [apply (wp_flush false n r0 ex); [lia|exact Hinv]| |]; [intros ? w' [? _]; eapply inv_mono; [|done]; lia|intros w'; apply halted_mono; lia].
  - by apply wp_rewrite.
  - by apply wp_child_done.
Qed.

(** When the process ends some of the operations have run. *)
Lemma wp_steps l n r0 ex w : n + Z.of_nat (length l) < 2 ^ 63 -> Forall stays_on l -> inv n r0 ex w ->
  wp (steps cfg l) (fun _ w' => inv (n + Z.of_nat (length l)) r0 (ex ++ commands l) w')
    (fun w' => exists k, halted (n + Z.of_nat (length l)) r0 (ex ++ commands (take k l)) w') w.
Proof.
  revert n ex w. induction l as [|x l IH]; intros n ex w Hn Hl Hinv; cbn [steps].
  - apply wp_ret. unfold commands. cbn. by rewrite app_nil_r, Z.add_0_r.
  - apply Forall_cons in Hl as [Hx Hl]. cbn [length] in Hn |- *. replace (n + Z.of_nat (S (length l))) with (n + 1 + Z.of_nat (length l)) in * by lia.
    assert (Hcons : forall y, commands (x :: y) = op_commands x ++ commands y) by done.
    apply wp_bind. eapply wp_mono; [apply (wp_step x n r0 ex); [lia|done|done]| |].
    + intros [] w' Hw'. eapply wp_mono; [by apply (IH (n + 1) (ex ++ op_commands x))| |].
      * intros [] w2. by rewrite Hcons, app_assoc.
      * intros w2 [k Hk]. exists (S k). cbn [take]. by rewrite Hcons, app_assoc.
    + intros w' Hw'. exists 0%nat. cbn [take]. unfold commands at 1. cbn. rewrite app_nil_r. eapply halted_mono; [|exact Hw']. lia.
Qed.

Lemma wp_boot n r s d : 1 <= n -> n + 1 < 2 ^ 63 -> fresh_server s -> data s = no_data -> disk_ok f n d r ->
  wp (boot cfg true) (fun _ w => started (n + 1) r w) (start_halted (n + 1) r) (World s d).
Proof.
  intros Hn1 Hn Hs Hdata Hdk. assert (Hm : forall w, start_halted n r w -> start_halted (n + 1) r w) by (intros w; apply start_halted_mono; lia).
  unfold boot. apply wp_bind. eapply wp_mono; [by apply (wp_load_manifest n r); [|lia|..]| |exact Hm]. intros [] w1 Hw1.
  apply wp_bind. eapply wp_mono; [by apply (wp_load_data n r); [|lia|]| |exact Hm]. intros [] w2 Hw2.
  apply wp_bind. eapply wp_mono; [by apply (wp_open_start n r)| |done]. intros [] w3 (Hb & Hc & Hd & l & Hr).
  apply wp_bind. eapply wp_mono; [apply (wp_del_history (n + 1) r l); [lia|done|done]| |].
  - intros b w4 (Hr4 & Hb4 & Hc4 & Hd4). apply wp_ret. split_and!; [congruence|congruence|congruence|eauto].
  - intros w4 (Hbad & Hb4 & Hdk4). split_and!; [done|congruence|done].
Qed.
End Run.

Section Theorems.
Context {db cmd : Type} `{AofDataOk db cmd} (cfg : config).
Abbreviation world := (world (db := db) (cmd := cmd)).
Abbreviation disk := (disk (cmd := cmd)).

(** A start without failures on the disk comes up with the dataset [r]. *)
Definition restarts (d : disk) (r : db) : Prop :=
  exists w, session cfg true r [] d [] = Ret tt w [] /\ data (srv w) = r.

(** After [executed] commands on the dataset [r0]: all but those of the buffer are on disk. *)
Definition recovers (n : Z) (r0 : db) (executed : list (Z * cmd)) (w : world) : Prop :=
  exists flushed s, executed = flushed ++ cmds_from s (aof_buf (srv w)) /\
    disk_ok (aof_filename cfg) n (dsk w) (run_cmds flushed r0) /\ restarts (dsk w) (run_cmds flushed r0).

Lemma boot_fresh other : fresh_server (boot_server (cmd := cmd) true other) /\ data (boot_server (cmd := cmd) true other) = no_data.
Proof. done. Qed.

Lemma disk_restarts n d r : config_ok cfg -> n + 1 < 2 ^ 63 -> disk_ok (aof_filename cfg) n d r -> restarts d r.
Proof.
  intros Hcfg Hn Hdk. pose proof Hdk as (_ & Hn1 & _). destruct (boot_fresh r) as [Hs Hd].
  pose proof (wp_boot cfg false Hcfg n r _ d Hn1 Hn Hs Hd Hdk [] (or_intror eq_refl)) as Hb. unfold restarts, session, mbind, M_bind.
  destruct (boot cfg true _ []) as [[] w o|w|]; [|by destruct Hb|done]. destruct Hb as [[|Ho] (_ & _ & Hdata & _)]; [done|]. subst o. by exists w.
Qed.

Lemma halted_recovers n r0 ex w : config_ok cfg -> n + 1 < 2 ^ 63 -> halted cfg n r0 ex w -> recovers n r0 ex w.
Proof. intros Hcfg Hn (fl & s & Hex & Hdk). exists fl, s. split_and!; try done. by eapply disk_restarts. Qed.

Lemma session_ok n d r l o other : config_ok cfg -> disk_ok (aof_filename cfg) n d r -> n + Z.of_nat (length l) + 2 < 2 ^ 63 -> Forall stays_on l ->
  match session cfg true other l d o with
  | Ret _ w _ => data (srv w) = run_cmds (commands l) r /\ recovers (n + 1 + Z.of_nat (length l)) r (commands l) w
  | Halt w => exists k, recovers (n + 1 + Z.of_nat (length l)) r (commands (take k l)) w
  | Abort => False
  end.
Proof.
  intros Hcfg Hdk Hn Hl. pose proof Hdk as (_ & Hn1 & _). destruct (boot_fresh other) as [Hs Hd].
  set (N := n + 1 + Z.of_nat (length l)).
  assert (Hwp : wp true (boot cfg true;; steps cfg l) (fun _ w => inv cfg N r (commands l) w) (fun w => exists k, halted cfg N r (commands (take k l)) w)
    (World (boot_server true other) d)).
  { apply wp_bind. eapply wp_mono; [apply (wp_boot cfg true Hcfg n r); [done|lia|done|done|done]| |].
    - intros [] w (Hb & Hc & Hdata & lf & Hr). eapply wp_mono; [apply (wp_steps cfg true Hcfg l (n + 1) r []); [lia|done|]|by intros [] w'|by intros w'].
      split; [lia|]. exists [], lf. split; [done|]. by rewrite Hb.
    - intros w (_ & Hb & Hdw). exists 0%nat, [], 0. rewrite Hb. split; [done|]. eapply disk_mono; [|exact Hdw]. subst N. lia. }
  specialize (Hwp o (or_introl eq_refl)). unfold session. destruct ((boot cfg true;; steps cfg l) _ o) as [[] w o'|w|]; [|destruct Hwp as [k Hk]|done].
  - destruct Hwp as [_ Hinv]. split; [by eapply inv_data|]. apply halted_recovers; [done|subst N; lia|]. by apply inv_halted.
  - exists k. apply halted_recovers; [done|subst N; lia|done].
Qed.


(** ** One life after the other *)

Definition left_disk (x : outcome (db := db) (cmd := cmd) unit) : option disk :=
  match x with Ret _ w _ | Halt w => Some (dsk w) | Abort => None end.

(** Each life starts on the disk the one before left. *)
Fixpoint lives (hs : list (list op * list event)) (d : disk) : option disk :=
  match hs with
  | [] => Some d
  | (l, o) :: hs => d ← left_disk (session cfg true no_data l d o); lives hs d
  end.

(** A disk without append only files, or with the file of an old version. *)
Definition first_disk (old : option (list (entry cmd))) : disk := Disk false ∅ ∅ 0 None None old.
Definition first_data (old : option (list (entry cmd))) : db := match old with Some l => replay l no_data | None => no_data end.

Lemma first_disk_ok old : disk_ok (aof_filename cfg) 1 (first_disk old) (first_data old).
Proof.
  split_and!; [|done|left]. { constructor; try done. intros i [x Hx]. done. }
  split_and!; try done.
Qed.

Lemma commands_take k l : commands (take k l) `prefix_of` commands (cmd := cmd) l.
Proof. exists (commands (drop k l)). unfold commands. by rewrite <- concat_app, <- fmap_app, take_drop. Qed.

Definition ops_count (hs : list (list (op (cmd := cmd)) * list event)) : Z := Z.of_nat (sum_list ((fun h => S (length h.1)) <$> hs)).

Lemma lives_ok hs : config_ok cfg -> Forall (fun h => Forall stays_on h.1) hs -> forall n d r,
  disk_ok (aof_filename cfg) n d r -> n + ops_count hs + 1 < 2 ^ 63 ->
  exists d' kept, lives hs d = Some d' /\ Forall2 (fun h k => k `prefix_of` commands h.1) hs kept /\ restarts d' (run_cmds (concat kept) r).
Proof.
  intros Hcfg. induction 1 as [|[l o] hs Hl Hhs IH]; intros n d r Hdk Hn.
  - exists d, []. split_and!; [done|constructor|]. eapply disk_restarts; [done| |exact Hdk]. unfold ops_count in Hn. simpl in Hn. lia.
  - assert (Hc : ops_count ((l, o) :: hs) = Z.of_nat (length l) + 1 + ops_count hs) by (unfold ops_count; rewrite fmap_cons; cbn [sum_list_with fst]; unfold id; lia). rewrite Hc in Hn.
    assert (0 <= ops_count hs) by (unfold ops_count; lia). cbn [fst] in Hl.
    pose proof (session_ok n d r l o no_data Hcfg Hdk ltac:(lia) Hl) as Hs. cbn [lives].
    assert (Hgo : exists w k, left_disk (session cfg true no_data l d o) = Some (dsk w) /\ recovers (n + 1 + Z.of_nat (length l)) r (commands (take k l)) w).
    { destruct (session cfg true no_data l d o) as [[] w o'|w|]; [|destruct Hs as [k Hk]; by exists w, k|done].
      exists w, (length l). rewrite firstn_all. by destruct Hs. }
    destruct Hgo as (w & k & -> & fl & s & Hex & Hdw & _). cbn [mbind option_bind].
    destruct (IH (n + 1 + Z.of_nat (length l)) (dsk w) (run_cmds fl r) Hdw) as (d' & kept & Hlv & Hkept & Hre); [lia|].
    exists d', (fl :: kept). split_and!; [done| |].
    + constructor; [|done]. cbn [fst]. etransitivity; [|apply (commands_take k)]. rewrite Hex. by eexists.
    + rewrite concat_cons. by rewrite run_cmds_app.
Qed.

End Theorems.
