(* ===== verification/AofBugs.v ===== *)
(** * Where the append only files do not hold

    Runs of the model on a dataset that is one number, to which commands add: the
    theorems of AofRun on concrete runs, and runs that need what they assume.  When
    the directory cannot be synced after the new manifest is in place, when a forced
    flush fails before a rewrite, and when append only files are switched off or on
    while the server runs, a restart does not find the dataset. *)
From S2P Require Import Prelude Numconv NumconvSpec Sds SdsSpec Aof AofSpec AofFs AofInv AofWp AofRun.
From Stdlib Require Import ZArith Lia Ascii String.
From stdpp Require Import prelude list gmap sorting.

#[local] Open Scope Z_scope.

#[global] Instance counter : AofData Z Z := {| no_data := 0; call := fun _ c d => d + c; rewritten := fun d => [Sel 0; Run d] |}.

#[global] Instance counter_ok : AofDataOk Z Z.
Proof. intros d. reflexivity. Qed.

Definition with_failures (may_fail : syscall -> bool) : config := Config (text "appendonly.aof") true false false may_fail.

(** Every call may fail but those the theorems exclude. *)
Definition most_failures : config := with_failures (fun k => match k with SAppend true | SDirSync => false | _ => true end).

Lemma most_failures_ok : config_ok most_failures.
Proof.
  constructor; [|done|done]. split; [apply (bool_decide_unpack _); vm_compute; exact I|vm_compute; lia].
Qed.

Definition some_ops : list (op (cmd := Z)) := [OCommand 0 5; OFlush; ORewrite; OCommand 3 2; OFlush; OChildDone true; OCommand 3 1].

Lemma some_ops_on : Forall stays_on some_ops.
Proof. repeat constructor; simpl; lia. Qed.

(** The rename of the new manifest fails when the rewrite ends. *)
Definition some_events : list event := replicate 22 Done ++ [Fails; Fails; Crash].


Definition some_lives : list (list (op (cmd := Z)) * list event) := [(some_ops, some_events); (some_ops, []); ([], [Crash])].

Lemma some_lives_on : Forall (fun h => Forall stays_on h.1) some_lives.
Proof. do 2 (constructor; [exact some_ops_on|]). repeat constructor. Qed.


(** ** Runs without the assumptions *)

(** The dataset at the end of a life that was not cut short, and the one a start finds; [None] when the server ends. *)
Definition at_end (x : outcome (db := Z) (cmd := Z) unit) : option Z := match x with Ret _ w _ => Some (data (srv w)) | _ => None end.
Definition restart (cfg : config) (x : outcome (db := Z) (cmd := Z) unit) (l : list op) : outcome unit :=
  match left_disk x with Some d => session cfg true 0 l d [] | None => Abort end.

Definition sync_fails : config := with_failures (fun k => match k with SDirSync => true | _ => false end).

Definition sync_run : outcome unit := session sync_fails true 0 [OCommand 0 5; OFlush; ORewrite; OChildDone true] (first_disk None) (replicate 22 Done ++ [Fails]).


Definition flush_fails : config := with_failures (fun k => match k with SAppend true => true | _ => false end).

Definition flush_run : outcome unit := session flush_fails true 0 [OCommand 0 5; ORewrite; OChildDone true; OFlush] (first_disk None) (replicate 9 Done ++ [Fails]).


Definition no_failures : config := with_failures (fun _ => false).

(** Killed after the manifest of a rewrite without append only file is in place, before the history files are deleted. *)
Definition off_run : outcome unit :=
  session no_failures true 0 [OCommand 0 5; OFlush; OStop; ORewrite; OChildDone true] (first_disk None) (replicate 17 Done ++ [Crash]).

(** Killed while append only files are being switched on, after the new incremental file has its name. *)
Definition on_run : outcome unit :=
  session no_failures false 7 [OStart; OCommand 0 5; OFlush; OChildDone true] (first_disk None) (replicate 6 Done ++ [Crash]).

