(* ===== verification/AofFile.v ===== *)
(** * The bytes of an append only file (src/aof.c)

    How commands are spelled when they are fed to the append only file, and how
    a file of them is read back at start, with what happens to a file that ends
    in the middle of something.

    What the loader knows of a command is whether it exists and whether it is MULTI
    or EXEC ([lookupCommand], a parameter); a command that is executed is appended to
    a log, a command inside a transaction is queued until EXEC.  A file that starts
    with an RDB preamble is not modelled, and reads and [truncate] do not fail. *)
From S2P Require Import Prelude Numconv NumconvSpec Sds Aof Resp.
From Stdlib Require Import ZArith Lia Ascii String.
From stdpp Require Import prelude list.

#[local] Open Scope Z_scope.

(** ** Writing *)

(** A line of [buf]: a character, a number and the end of line; [junk] is what is in the rest of [buf]. *)
Definition cat_header (junk : list Z) (c n : Z) : list Z :=
  let '(len, dst) := ll2string junk n in c :: take (Z.to_nat len) dst ++ [13; 10].

Definition catAppendOnlyGenericCommand (junk dst : list Z) (argv : command) : list Z :=
  foldl (fun dst o => dst ++ cat_header junk 36 (Z.of_nat (length o)) ++ o ++ [13; 10])
    (dst ++ cat_header junk 42 (Z.of_nat (length argv))) argv.

(** What decides on annotations and SELECTs. *)
Record feeder := Feeder { aof_timestamp_enabled : bool; aof_cur_timestamp : Z; aof_selected_db : Z }.

(** With [force] 0. *)
Definition genAofTimestampAnnotationIfNeeded (unixtime : Z) (f : feeder) : option (list Z) * feeder :=
  if aof_cur_timestamp f <? unixtime then
    (Some (text "#TS:" ++ decimal_signed unixtime ++ [13; 10]), Feeder (aof_timestamp_enabled f) unixtime (aof_selected_db f))
  else (None, f).

(** The bytes that are appended to [aof_buf]. *)
Definition feed_bytes (junk : list Z) (unixtime dictid : Z) (argv : command) (f : feeder) : list Z * feeder :=
  let '(buf, f) :=
    if aof_timestamp_enabled f then let '(ts, f) := genAofTimestampAnnotationIfNeeded unixtime f in (default [] ts, f) else ([], f) in
  let '(buf, f) :=
    if negb (dictid =? -1) && negb (dictid =? aof_selected_db f) then
      let seldb := decimal_signed dictid in
      (buf ++ text "*2" ++ [13; 10] ++ text "$6" ++ [13; 10] ++ text "SELECT" ++ [13; 10] ++
         text "$" ++ decimal_signed (Z.of_nat (length seldb)) ++ [13; 10] ++ seldb ++ [13; 10],
       Feeder (aof_timestamp_enabled f) (aof_cur_timestamp f) dictid)
    else (buf, f) in
  (catAppendOnlyGenericCommand junk buf argv, f).

(** ** Reading *)

Definition AOF_ANNOTATION_LINE_MAX_LEN : nat := 1024.

(** A stream: what is left of the file, the offset and the end of file indicator. *)
Record FILE := File { unread : list Z; offset : Z; feof : bool }.

(** [fgets (buf, sizeof (buf), fp)]. *)
Definition read_line (fp : FILE) : option (list Z) * FILE :=
  match fgets (AOF_ANNOTATION_LINE_MAX_LEN - 1) (unread fp) with
  | None => (None, File [] (offset fp) true)
  | Some (l, r) =>
      let ended := bool_decide (last l = Some 10) || bool_decide (length l = AOF_ANNOTATION_LINE_MAX_LEN - 1)%nat in
      (Some l, File r (offset fp + Z.of_nat (length l)) (feof fp || (bool_decide (r = []) && negb ended)))
  end.

(** [fread (p, n, 1, fp)] for a positive [n]. *)
Definition fread (n : Z) (fp : FILE) : option (list Z) * FILE :=
  if n <=? Z.of_nat (length (unread fp)) then
    (Some (take (Z.to_nat n) (unread fp)), File (drop (Z.to_nat n) (unread fp)) (offset fp + n) (feof fp))
  else (None, File [] (offset fp + Z.of_nat (length (unread fp))) true).

Inductive stop := ReadErr | FmtErr | UnknownCommand.

Inductive kind := KMulti | KExec | KOther.

(** [alloc] says which sizes [sdsnewlen] can allocate; it aborts on the others. *)
Record load_env := LoadEnv {
  lookupCommand : command -> option kind;
  aof_load_truncated : bool;
  alloc : Z -> bool }.

(** The commands executed, the queue of an open transaction, the offsets of the last
    well-formed command and before MULTI. *)
Record loader := Loader {
  ran : list command;
  queue : option (list command);
  valid_up_to : Z;
  valid_before_multi : Z }.

Inductive load_result := AOF_OK | AOF_TRUNCATED | AOF_FAILED.

Section Load.
Context (e : load_env).

Definition atoi (s : list Z) : Z := wraps 32 (atoll s).

(** [None]: the allocation of an argument aborts. *)
Fixpoint load_args (n : nat) (fp : FILE) (argv : command) : option ((stop + command) * FILE) :=
  match n with
  | O => Some (inr argv, fp)
  | S n =>
      let '(readres, fp) := read_line fp in
      match readres with
      | None => Some (inl ReadErr, fp)
      | Some buf =>
          if negb (char_at buf 0 =? 36) then Some (inl FmtErr, fp)
          else
            let len := wrapu 64 (atoll (drop 1 buf)) in
            guard (alloc e len = true);;
            let '(arg, fp) := if len =? 0 then (Some [], fp) else fread len fp in
            match arg with
            | None => Some (inl ReadErr, fp)
            | Some arg =>
                let '(crlf, fp) := fread 2 fp in
                match crlf with
                | None => Some (inl ReadErr, fp)
                | Some _ => load_args n fp (argv ++ [arg])
                end
            end
      end
  end.

(** The lookup and the execution of a command that has been read. *)
Definition run_command (argv : command) (k : kind) (l : loader) : loader :=
  let before := match k with KMulti => valid_up_to l | _ => valid_before_multi l end in
  match queue l, k with
  | Some q, KExec => Loader (ran l ++ q) None (valid_up_to l) before
  | Some q, _ => Loader (ran l) (Some (q ++ [argv])) (valid_up_to l) before
  | None, KMulti => Loader (ran l) (Some []) (valid_up_to l) before
  | None, KExec => Loader (ran l) None (valid_up_to l) before
  | None, KOther => Loader (ran l ++ [argv]) None (valid_up_to l) before
  end.

(** The loop ends at the end of the file ([None]) or with an error.  An [int] is never above [SIZE_MAX] divided by the size of a pointer. *)
Fixpoint commands_loop (fuel : nat) (fp : FILE) (l : loader) : option (option stop * FILE * loader) :=
  match fuel with
  | O => None
  | S fuel =>
      let '(readres, fp) := read_line fp in
      match readres with
      | None => Some (if feof fp then None else Some ReadErr, fp, l)
      | Some buf =>
          if char_at buf 0 =? 35 then commands_loop fuel fp l
          else if negb (char_at buf 0 =? 42) then Some (Some FmtErr, fp, l)
          else if char_at buf 1 =? 0 then Some (Some ReadErr, fp, l)
          else
            let argc := atoi (drop 1 buf) in
            if argc <? 1 then Some (Some FmtErr, fp, l)
            else
              '(r, fp) ← load_args (Z.to_nat argc) fp [];
              match r with
              | inl s => Some (Some s, fp, l)
              | inr argv =>
                  match lookupCommand e argv with
                  | None => Some (Some UnknownCommand, fp, l)
                  | Some k =>
                      let l := run_command argv k l in
                      let l := if aof_load_truncated e then Loader (ran l) (queue l) (offset fp) (valid_before_multi l) else l in
                      commands_loop fuel fp l
                  end
              end
      end
  end.

(** The result, the commands executed and the file afterwards. *)
Definition load_text (file : list Z) : option (load_result * list command * list Z) :=
  '(s, fp, l) ← commands_loop (S (length file)) (File file 0 false) (Loader [] None 0 0);
  let uxeof valid :=
    if aof_load_truncated e then (AOF_TRUNCATED, ran l, take (Z.to_nat valid) file) else (AOF_FAILED, ran l, file) in
  Some (match s with
        | None => match queue l with Some _ => uxeof (valid_before_multi l) | None => (AOF_OK, ran l, file) end
        | Some ReadErr => if feof fp then uxeof (valid_up_to l) else (AOF_FAILED, ran l, file)
        | Some _ => (AOF_FAILED, ran l, file)
        end).
End Load.
