(* ===== verification/AofFileSpec.v ===== *)
(** * Append only files that end anywhere

    What a file holds is a list of items, annotations and commands.  The loader
    is followed over whole items and over an item that is cut. *)
From S2P Require Import Prelude Numconv NumconvSpec Sds SdsSpec Aof AofSpec Resp RespSpec RespRun AofFile.
From Stdlib Require Import ZArith Lia Ascii String.
From stdpp Require Import prelude list.

#[local] Open Scope Z_scope.

(** ** Writing *)

Lemma cat_header_eq junk c n : length junk = 31%nat -> 0 <= n < 2 ^ 63 -> cat_header junk c n = c :: decimal_signed n ++ crlf.
Proof.
  intros Hj Hn. destruct (decimal_word n Hn) as (_ & Hl & _). unfold cat_header. rewrite ll2string_spec by (unfold fits_s; lia).
  by rewrite Nat2Z.id, take_app_length.
Qed.

Lemma cat_args junk dst l : length junk = 31%nat -> Forall (fun a => zlen a < 2 ^ 63) l ->
  foldl (fun dst o => dst ++ cat_header junk 36 (Z.of_nat (length o)) ++ o ++ [13; 10]) dst l = dst ++ bulks l.
Proof.
  intros Hj Hl. revert dst. induction Hl as [|a l Ha _ IH]; intros dst; cbn [foldl]; [by rewrite app_nil_r|].
  rewrite IH, bulks_cons, cat_header_eq by (unfold zlen in *; lia). unfold bulk, zlen. rewrite <- !app_assoc. cbn [app]. by rewrite <- !app_assoc.
Qed.

(** The file spells a command as a client does. *)
Lemma catAppendOnlyGenericCommand_eq junk dst argv : length junk = 31%nat -> Z.of_nat (length argv) < 2 ^ 63 ->
  Forall (fun a => zlen a < 2 ^ 63) argv -> catAppendOnlyGenericCommand junk dst argv = dst ++ encode argv.
Proof.
  intros Hj Hn Hl. unfold catAppendOnlyGenericCommand. rewrite cat_args, cat_header_eq by (done || lia).
  unfold encode. rewrite <- !app_assoc. cbn [app]. by rewrite <- !app_assoc.
Qed.

(** ** Lines *)

Lemma fgets_loop_line n w tail : Forall (fun c => c <> 10) w -> (length w < n)%nat -> fgets_loop n (w ++ 10 :: tail) = (w ++ [10], tail).
Proof.
  intros Hw. revert n. induction Hw as [|c w Hc _ IH]; intros n Hn; (destruct n as [|n]; [simpl in Hn; lia|]); [done|].
  cbn [app fgets_loop]. rewrite (proj2 (Z.eqb_neq _ _) Hc), IH by (simpl in Hn; lia). done.
Qed.

Lemma fgets_loop_end n w : Forall (fun c => c <> 10) w -> (length w < n)%nat -> fgets_loop n w = (w, []).
Proof.
  intros Hw. revert n. induction Hw as [|c w Hc _ IH]; intros n Hn; (destruct n as [|n]; [simpl in Hn; lia|]); [done|].
  cbn [fgets_loop]. rewrite (proj2 (Z.eqb_neq _ _) Hc), IH by (simpl in Hn; lia). done.
Qed.

Lemma read_line_full w tail o eof : Forall (fun c => c <> 10) w -> (length w < 1022)%nat ->
  read_line (File (w ++ 10 :: tail) o eof) = (Some (w ++ [10]), File tail (o + Z.of_nat (length w) + 1) eof).
Proof.
  intros Hw Hl. unfold read_line, fgets. cbn [unread offset feof]. destruct (w ++ 10 :: tail) eqn:Heq; [by destruct w|]. rewrite <- Heq.
  unfold AOF_ANNOTATION_LINE_MAX_LEN. rewrite fgets_loop_line by (done || lia). rewrite last_snoc, (bool_decide_eq_true_2 (Some 10 = Some 10)), orb_true_l, andb_false_r, orb_false_r by done.
  rewrite length_app. cbn [length]. do 2 f_equal. lia.
Qed.

Lemma read_line_end w o eof : w <> [] -> Forall (fun c => c <> 10) w -> (length w < 1022)%nat ->
  read_line (File w o eof) = (Some w, File [] (o + Z.of_nat (length w)) true).
Proof.
  intros Hne Hw Hl. unfold read_line, fgets. cbn [unread offset feof]. destruct w as [|x w]; [done|]. set (v := x :: w) in *.
  unfold AOF_ANNOTATION_LINE_MAX_LEN. rewrite fgets_loop_end by (done || lia). rewrite (bool_decide_eq_true_2 ([] = [])) by done.
  rewrite !bool_decide_eq_false_2, orb_true_r; [done|lia|]. intros Hlast. apply last_Some_elem_of in Hlast. rewrite Forall_forall in Hw. by apply (Hw 10).
Qed.

Lemma read_line_eof o eof : read_line (File [] o eof) = (None, File [] o true).
Proof. done. Qed.

(** ** Numbers in headers *)

Definition line_end (t : list Z) : Prop := t = [] \/ t = [13] \/ t = crlf.

Lemma take_digits_end d t v : Forall digit d -> line_end t -> (take_digits (d ++ t) v).1 = value_from v d.
Proof.
  intros Hd Ht. revert v. induction Hd as [|c d Hc _ IH]; intros v; cbn [app take_digits].
  - by destruct Ht as [->|[->| ->]].
  - by rewrite (proj2 (is_digit_spec c)), IH.
Qed.

Lemma skip_space_digits d t : d <> [] -> Forall digit d -> skip_space (d ++ t) = d ++ t.
Proof.
  intros Hne Hd. destruct d as [|c d]; [done|]. apply Forall_cons in Hd as [Hc _]. unfold digit in Hc. cbn. unfold is_space.
  destruct (Z.leb_spec 9 c), (Z.leb_spec c 13), (Z.eqb_spec c 32); lia || done.
Qed.

(** The beginning of a number is a number that is not larger. *)
Lemma atoll_prefix d x t v : 0 <= v < 2 ^ 63 -> decimal_signed v = d ++ x -> line_end t ->
  atoll (d ++ t) = value_from 0 d /\ 0 <= value_from 0 d <= v /\ (1 <= v -> d <> [] -> 1 <= value_from 0 d) /\ (x = [] -> value_from 0 d = v).
Proof.
  intros Hv Heq Ht. unfold decimal_signed in Heq. replace (v <? 0) with false in Heq by lia.
  pose proof (decimal_digits v ltac:(lia)) as Hdig. pose proof (decimal_value v ltac:(lia)) as Hval. rewrite Heq in Hdig, Hval. apply Forall_app in Hdig as [Hd Hx].
  assert (Hr : 0 <= value_from 0 d <= v).
  { rewrite value_from_app in Hval. pose proof (value_from_ge d 0 Hd ltac:(lia)). pose proof (value_from_ge x (value_from 0 d) Hx ltac:(lia)). lia. }
  split_and!; [|lia|lia| |].
  - unfold atoll. destruct d as [|c d]; [destruct Ht as [->|[->| ->]]; done|]. rewrite skip_space_digits by done.
    pose proof Hd as [Hc _]%Forall_cons. unfold digit in Hc. cbn [app]. replace (c =? 45) with false by lia. replace (c =? 43) with false by lia.
    change (c :: d ++ t) with ((c :: d) ++ t). rewrite take_digits_end by done. unfold LLONG_MIN, LLONG_MAX. lia.
  - intros Hv1 Hne. destruct d as [|c d]; [done|]. destruct (decimal_head v) as (c' & l & Hdv & Hc'); [lia|]. rewrite Heq in Hdv. injection Hdv as -> _.
    apply Forall_cons in Hd as [_ Hd]. rewrite value_from_cons. pose proof (value_from_ge d (c' - 48) Hd ltac:(lia)). lia.
  - intros ->. by rewrite app_nil_r in Hval.
Qed.

(** A header that is cut. *)
Lemma header_cut h ds r missing tail : r ++ missing = h :: ds ++ crlf ++ tail -> (length r <= length ds + 2)%nat -> r <> [] ->
  exists d x t, r = h :: d ++ t /\ ds = d ++ x /\ (t = [] \/ t = [13]) /\ (length d + length t <= length ds + 1)%nat.
Proof.
  intros Heq Hl Hne. destruct r as [|h' r]; [done|]. injection Heq as -> Heq. cbn [length] in Hl.
  destruct (app_eq_inv _ _ _ _ Heq) as [(k & -> & Hk)|(k & -> & Hk)].
  - rewrite length_app in Hl. exists ds, [], k. rewrite app_nil_r. split_and!; [done..| |rewrite ?length_app; lia].
    destruct k as [|y k]; [by left|]. injection Hk as -> Hk. destruct k; [by right|simpl in Hl; lia].
  - exists r, k, []. rewrite app_nil_r. split_and!; [done..|by left|rewrite length_app; simpl; lia].
Qed.

(** ** Commands *)

Section Load.
Context (e : load_env).

Definition arg_fits (a : list Z) : Prop := zlen a < 2 ^ 63 /\ forall n, 0 <= n <= zlen a -> alloc e n = true.

Lemma fread_short n r o eof : 0 <= n -> Z.of_nat (length r) < n -> exists fp, fread n (File r o eof) = (None, fp) /\ feof fp = true.
Proof. intros Hn Hl. unfold fread. cbn [unread]. rewrite (proj2 (Z.leb_gt _ _)) by done. eauto. Qed.

Lemma fread_full w tail o eof : fread (zlen w) (File (w ++ tail) o eof) = (Some w, File tail (o + zlen w) eof).
Proof.
  unfold fread, zlen. cbn [unread offset feof]. rewrite length_app, (proj2 (Z.leb_le _ _)) by lia. by rewrite Nat2Z.id, take_app_length, drop_app_length.
Qed.

(** Reading an argument after its header. *)
Lemma read_arg a tail o eof : (if zlen a =? 0 then (Some [], File (a ++ tail) o eof) else fread (zlen a) (File (a ++ tail) o eof)) = (Some a, File tail (o + zlen a) eof).
Proof.
  destruct (Z.eqb_spec (zlen a) 0) as [Hz|Hz]; [|apply fread_full]. destruct a; [|unfold zlen in Hz; simpl in Hz; lia]. cbn [app]. do 2 f_equal. lia.
Qed.

Lemma header_line h n : h <> 10 -> 0 <= n < 2 ^ 63 -> Forall (fun c => c <> 10) (h :: decimal_signed n ++ [13]) /\ (length (h :: decimal_signed n ++ [13%Z]) < 1022)%nat.
Proof.
  intros Hh Hn. destruct (decimal_word n Hn) as (_ & Hl & _). split; [|cbn [length]; rewrite length_app; cbn [length]; lia].
  constructor; [done|]. apply Forall_app. split; [|by repeat constructor]. unfold decimal_signed. replace (n <? 0) with false by lia.
  eapply Forall_impl; [apply decimal_digits; lia|]. intros c Hc. unfold digit in Hc. lia.
Qed.

(** A line that is a whole header, and the number in it. *)
Lemma read_header h n tail o eof : h <> 10 -> 0 <= n < 2 ^ 63 ->
  read_line (File (h :: decimal_signed n ++ crlf ++ tail) o eof) =
    (Some (h :: decimal_signed n ++ crlf), File tail (o + zlen (h :: decimal_signed n ++ crlf)) eof) /\ atoll (decimal_signed n ++ crlf) = n.
Proof.
  intros Hh Hn. destruct (header_line h n Hh Hn) as [Hw Hl]. split.
  - replace (h :: decimal_signed n ++ crlf ++ tail) with ((h :: decimal_signed n ++ [13]) ++ 10 :: tail) by (cbn; by rewrite <- app_assoc).
    rewrite read_line_full by done. unfold crlf, zlen. do 2 f_equal; [cbn; by rewrite <- app_assoc|]. cbn [length app]. rewrite !length_app. cbn [length]. lia.
  - destruct (atoll_prefix (decimal_signed n) [] crlf n) as (-> & _ & _ & H); [done|by rewrite app_nil_r|by right; right|by apply H].
Qed.

(** A line that is the beginning of a header. *)
Lemma read_header_cut h n r missing tail o eof : h <> 10 -> 0 <= n < 2 ^ 63 -> r ++ missing = h :: decimal_signed n ++ crlf ++ tail ->
  (length r <= length (decimal_signed n) + 2)%nat -> r <> [] ->
  exists d t o', r = h :: d ++ t /\ read_line (File r o eof) = (Some r, File [] o' true) /\ (t <> [] -> d <> []) /\
    atoll (d ++ t) = value_from 0 d /\ 0 <= value_from 0 d <= n /\ (1 <= n -> d <> [] -> 1 <= value_from 0 d).
Proof.
  intros Hh Hn Heq Hl Hne. destruct (header_cut _ _ _ _ _ Heq Hl Hne) as (d & x & t & -> & Hds & Ht & Hlen).
  destruct (header_line h n Hh Hn) as [Hw Hwl]. destruct (atoll_prefix d x t n) as (H1 & H2 & H3 & _); [done..|by destruct Ht; [left|right; left]|].
  assert (Hdt : t <> [] -> d <> []).
  { intros Htn ->. destruct Ht as [->| ->]; [done|]. injection Heq as Heq. destruct (decimal_word n Hn) as (Hword & _).
    assert (Hd0 : decimal_signed n <> []) by (unfold decimal_signed; replace (n <? 0) with false by lia; apply decimal_not_nil; lia).
    destruct (decimal_signed n) as [|c l]; [done|]. injection Heq as <- _. by apply Forall_cons in Hword as [[? _] _]. }
  exists d, t. eexists. split; [done|]. split; [|split_and!; done || lia]. apply read_line_end; [done| |].
  - apply Forall_cons in Hw as [? Hw]. constructor; [done|]. rewrite Hds in Hw. apply Forall_app in Hw as [Hw _]. apply Forall_app in Hw as [Hw _].
    apply Forall_app. split; [done|]. by destruct Ht as [->| ->]; repeat constructor.
  - cbn [length] in *. rewrite !length_app in *. cbn [length] in Hwl. lia.
Qed.

Lemma zlen_app (a b : list Z) : zlen (a ++ b) = zlen a + zlen b.
Proof. unfold zlen. rewrite length_app. lia. Qed.

(** The header of an argument. *)
Lemma load_args_step n a tail o eof argv : arg_fits a ->
  load_args e (S n) (File (36 :: decimal_signed (zlen a) ++ crlf ++ tail) o eof) argv =
  (let '(arg, fp) := if zlen a =? 0 then (Some [], File tail (o + zlen (36 :: decimal_signed (zlen a) ++ crlf)) eof)
                     else fread (zlen a) (File tail (o + zlen (36 :: decimal_signed (zlen a) ++ crlf)) eof) in
   match arg with
   | None => Some (inl ReadErr, fp)
   | Some arg => let '(crlf, fp) := fread 2 fp in match crlf with None => Some (inl ReadErr, fp) | Some _ => load_args e n fp (argv ++ [arg]) end
   end).
Proof.
  intros [Ha Hal]. assert (Hz : 0 <= zlen a) by (unfold zlen; lia). destruct (read_header 36 (zlen a) tail o eof) as [Hr Hat]; [done|lia|]. cbn [load_args]. rewrite Hr.
  change (char_at (36 :: decimal_signed (zlen a) ++ crlf) 0 =? 36) with true. change (drop 1 (36 :: decimal_signed (zlen a) ++ crlf)) with (decimal_signed (zlen a) ++ crlf).
  rewrite Hat, wrapu_id by (unfold fits_u; lia). cbn [negb]. by rewrite option_guard_True by (apply Hal; lia).
Qed.

Lemma load_args_full l tail o eof argv : Forall arg_fits l ->
  load_args e (length l) (File (bulks l ++ tail) o eof) argv = Some (inr (argv ++ l), File tail (o + zlen (bulks l)) eof).
Proof.
  intros Hl. revert o argv. induction Hl as [|a l Ha _ IH]; intros o argv; cbn [length]; [cbn; by rewrite app_nil_r, Z.add_0_r|].
  assert (Hs : bulks (a :: l) ++ tail = 36 :: decimal_signed (zlen a) ++ crlf ++ a ++ crlf ++ bulks l ++ tail)
    by (rewrite bulks_cons; unfold bulk; cbn [app]; by rewrite <- !app_assoc).
  rewrite Hs, load_args_step, read_arg by done. change 2 with (zlen crlf). rewrite fread_full, IH, <- app_assoc. do 3 f_equal.
  rewrite bulks_cons, zlen_app. unfold bulk, zlen. cbn [length]. rewrite !length_app. cbn [length crlf]. lia.
Qed.

Lemma load_args_cut l r missing o eof argv : Forall arg_fits l -> r ++ missing = bulks l -> missing <> [] ->
  exists fp, load_args e (length l) (File r o eof) argv = Some (inl ReadErr, fp) /\ feof fp = true.
Proof.
  intros Hl. revert r o argv. induction Hl as [|a l Ha _ IH]; intros r o argv Heq Hm; [by apply app_eq_nil in Heq as [_ ?]|].
  rewrite bulks_cons in Heq. unfold bulk in Heq. rewrite <- app_comm_cons, <- !app_assoc in Heq. cbn [length].
  assert (Hz : 0 <= zlen a < 2 ^ 63) by (destruct Ha; unfold zlen in *; lia).
  destruct (decide (r = [])) as [->|Hne]; [by eexists|].
  destruct (Nat.leb_spec (length r) (length (decimal_signed (zlen a)) + 2)) as [Hshort|Hlong].
  - destruct (read_header_cut 36 (zlen a) r missing (a ++ crlf ++ bulks l) o eof) as (d & t & o' & Hr & Hrd & _ & Hat & Hv & _); [done..|].
    cbn [load_args]. rewrite Hrd, Hr. change (char_at (36 :: d ++ t) 0 =? 36) with true. change (drop 1 (36 :: d ++ t)) with (d ++ t). cbn [negb].
    rewrite Hat, wrapu_id by (unfold fits_u; lia). rewrite option_guard_True by (apply Ha; lia). destruct (Z.eqb_spec (value_from 0 d) 0); [by eexists|].
    destruct (fread_short (value_from 0 d) [] o' true) as (fp & -> & Hfp); [lia|simpl; lia|]. by exists fp.
  - destruct (split_header (36 :: decimal_signed (zlen a)) r missing (a ++ crlf ++ bulks l)) as (r1 & -> & Heq1); [done|cbn [length]; lia|].
    rewrite <- app_comm_cons. rewrite load_args_step by done. destruct (Nat.ltb_spec (length r1) (length a)) as [Hs1|Hl1].
    { replace (zlen a =? 0) with false by (symmetry; apply Z.eqb_neq; unfold zlen; lia).
      destruct (fread_short (zlen a) r1 (o + zlen (36 :: decimal_signed (zlen a) ++ crlf)) eof) as (fp & -> & Hfp); [lia|unfold zlen; lia|]. by exists fp. }
    assert (Hr1 : exists r2, r1 = a ++ r2 /\ r2 ++ missing = crlf ++ bulks l).
    { destruct (app_eq_inv _ _ _ _ Heq1) as [(k & -> & Hk)|(k & -> & Hk)]; [by exists k|]. rewrite length_app in Hl1. destruct k; [|simpl in Hl1; lia].
      exists []. rewrite !app_nil_r. by split. }
    destruct Hr1 as (r2 & -> & Heq2). rewrite read_arg. destruct (Nat.ltb_spec (length r2) 2) as [Hs2|Hl2].
    { destruct (fread_short 2 r2 (o + zlen (36 :: decimal_signed (zlen a) ++ crlf) + zlen a) eof) as (fp & -> & Hfp); [lia|lia|]. by exists fp. }
    destruct (split_header [] r2 missing (bulks l)) as (r3 & -> & Heq3); [done|simpl; lia|]. cbn [app]. change (13 :: 10 :: r3) with (crlf ++ r3).
    change 2 with (zlen crlf). rewrite fread_full. by apply IH.
Qed.
End Load.

(** ** Items *)

Inductive item := Note (t : Z) | Cmd (c : command).

Definition spell (i : item) : list Z := match i with Note t => text "#TS:" ++ decimal_signed t ++ crlf | Cmd c => encode c end.
Definition spells (l : list item) : list Z := concat (spell <$> l).
Definition cmds (l : list item) : list command := omap (fun i => match i with Cmd c => Some c | Note _ => None end) l.

Lemma spells_app l l' : spells (l ++ l') = spells l ++ spells l'.
Proof. unfold spells. by rewrite fmap_app, concat_app. Qed.

Lemma cmds_app l l' : cmds (l ++ l') = cmds l ++ cmds l'.
Proof. apply omap_app. Qed.

Section Items.
Context (e : load_env) (Htr : aof_load_truncated e = true).

(** Commands the server knows, with arguments it can allocate. *)
Definition item_ok (i : item) : Prop :=
  match i with
  | Note t => 0 <= t < 2 ^ 63
  | Cmd c => c <> [] /\ Z.of_nat (length c) <= INT_MAX /\ is_Some (lookupCommand e c) /\ Forall (arg_fits e) c
  end.

Definition kind_of (c : command) : kind := default KOther (lookupCommand e c).

(** What the commands mean: those outside transactions and those of transactions that end are executed. *)
Definition commit (s : list command * option (list command)) (c : command) : list command * option (list command) :=
  match s.2, kind_of c with
  | Some q, KExec => (s.1 ++ q, None)
  | Some q, _ => (s.1, Some (q ++ [c]))
  | None, KMulti => (s.1, Some [])
  | None, KExec => s
  | None, KOther => (s.1 ++ [c], None)
  end.
Definition committed (l : list command) : list command * option (list command) := foldl commit ([], None) l.

(** The loader after an item that ends at an offset. *)
Definition replay1 (s : Z * loader) (i : item) : Z * loader :=
  let o := s.1 + zlen (spell i) in
  match i with
  | Note _ => (o, s.2)
  | Cmd c => let l := run_command c (kind_of c) s.2 in (o, Loader (ran l) (queue l) o (valid_before_multi l))
  end.
Definition replay (l : list item) (s : Z * loader) : Z * loader := foldl replay1 s l.

Lemma atoi_small d v : atoll d = v -> 0 <= v <= INT_MAX -> atoi d = v.
Proof. intros Hd Hv. unfold atoi. rewrite Hd. apply wraps_id; unfold fits_s, INT_MAX in *; lia. Qed.

(** The header of a command. *)
Lemma loop_header fuel n tail o eof l : 1 <= n <= INT_MAX ->
  commands_loop e (S fuel) (File (42 :: decimal_signed n ++ crlf ++ tail) o eof) l =
  ('(r, fp) ← load_args e (Z.to_nat n) (File tail (o + zlen (42 :: decimal_signed n ++ crlf)) eof) [];
   match r with
   | inl s => Some (Some s, fp, l)
   | inr argv =>
       match lookupCommand e argv with
       | None => Some (Some UnknownCommand, fp, l)
       | Some k => commands_loop e fuel fp (Loader (ran (run_command argv k l)) (queue (run_command argv k l)) (offset fp) (valid_before_multi (run_command argv k l)))
       end
   end).
Proof.
  intros Hn. destruct (read_header 42 n tail o eof) as [Hr Hat]; [done|unfold INT_MAX in Hn; lia|]. cbn [commands_loop]. rewrite Hr.
  change (char_at (42 :: decimal_signed n ++ crlf) 0) with 42. cbn [Z.eqb Pos.eqb negb].
  assert (Hc1 : (char_at (42 :: decimal_signed n ++ crlf) 1 =? 0) = false).
  { destruct (decimal_head n) as (x & y & Hd & Hx); [unfold INT_MAX in Hn; lia|]. unfold decimal_signed. replace (n <? 0) with false by lia. rewrite Hd. cbn. lia. }
  rewrite Hc1. change (drop 1 (42 :: decimal_signed n ++ crlf)) with (decimal_signed n ++ crlf). rewrite (atoi_small _ n) by (done || lia).
  rewrite (proj2 (Z.ltb_ge _ _)) by lia. by rewrite Htr.
Qed.

Lemma loop_item fuel i tail o eof l : item_ok i ->
  commands_loop e (S fuel) (File (spell i ++ tail) o eof) l = commands_loop e fuel (File tail (replay1 (o, l) i).1 eof) (replay1 (o, l) i).2.
Proof.
  intros Hi. destruct i as [t|c]; unfold replay1; cbn [spell fst snd].
  - destruct (header_line 35 t) as [Hw Hl]; [done..|]. cbn [commands_loop].
    replace ((text "#TS:" ++ decimal_signed t ++ crlf) ++ tail) with ((text "#TS:" ++ decimal_signed t ++ [13]) ++ 10 :: tail) by (rewrite <- !app_assoc; done).
    rewrite read_line_full.
    + cbn [char_at]. change (char_at ((text "#TS:" ++ decimal_signed t ++ [13]) ++ [10]) 0 =? 35) with true. cbv iota. do 2 f_equal.
      unfold zlen. rewrite !length_app. cbn [length crlf]. lia.
    + apply Forall_app. split; [by repeat constructor|]. by apply Forall_cons in Hw as [_ Hw].
    + cbn [length] in Hl. rewrite !length_app in *. cbn [length] in *. change (length (text "#TS:")) with 4%nat. destruct (decimal_word t Hi) as (_ & Hd & _). lia.
  - destruct Hi as (Hne & Hn & [k Hk] & Ha). set (n := Z.of_nat (length c)) in *. assert (Hn1 : 1 <= n) by (unfold n; destruct c; simpl; [done|lia]).
    replace (encode c ++ tail) with (42 :: decimal_signed n ++ crlf ++ bulks c ++ tail) by (unfold encode; fold n; cbn [app]; by rewrite <- !app_assoc).
    rewrite loop_header by done. unfold n. rewrite Nat2Z.id, load_args_full by done. cbn [mbind option_bind app]. unfold kind_of. rewrite Hk. cbn [default offset].
    replace (o + zlen (42 :: decimal_signed (Z.of_nat (length c)) ++ crlf) + zlen (bulks c)) with (o + zlen (encode c)); [done|].
    unfold encode, zlen. cbn [length]. rewrite !length_app. lia.
Qed.

Lemma loop_items items fuel tail o eof l : Forall item_ok items ->
  commands_loop e (length items + fuel) (File (spells items ++ tail) o eof) l =
  commands_loop e fuel (File tail (replay items (o, l)).1 eof) (replay items (o, l)).2.
Proof.
  intros Hi. revert o l. induction Hi as [|i items Hi _ IH]; intros o l; [done|]. cbn [length Nat.add]. unfold spells. cbn [fmap list_fmap concat].
  rewrite <- app_assoc, loop_item by done. fold (spells items). rewrite IH. unfold replay. cbn [foldl]. by rewrite <- surjective_pairing.
Qed.

(** A command that is cut. *)
Lemma loop_cut_command fuel c r missing o eof l : item_ok (Cmd c) -> r ++ missing = encode c -> missing <> [] -> r <> [] ->
  exists fp, commands_loop e (S fuel) (File r o eof) l = Some (Some ReadErr, fp, l) /\ feof fp = true.
Proof.
  intros (Hne & Hn & _ & Ha) Heq Hm Hr. set (n := Z.of_nat (length c)) in *. assert (Hn1 : 1 <= n) by (unfold n; destruct c; simpl; [done|lia]).
  unfold encode in Heq. fold n in Heq. destruct (Nat.leb_spec (length r) (length (decimal_signed n) + 2)) as [Hshort|Hlong].
  - destruct (read_header_cut 42 n r missing (bulks c) o eof) as (d & t & o' & -> & Hrd & Hdt & Hat & Hv & Hv1); [done|unfold INT_MAX in Hn; lia|done..|].
    cbn [commands_loop]. rewrite Hrd. change (char_at (42 :: d ++ t) 0) with 42. cbn [Z.eqb Pos.eqb negb]. destruct (char_at (42 :: d ++ t) 1 =? 0) eqn:Hc1; [by eexists|].
    change (drop 1 (42 :: d ++ t)) with (d ++ t). assert (Hd : d <> []). { intros ->. destruct t; [done|]. by destruct Hdt. }
    rewrite (atoi_small _ (value_from 0 d)) by (done || lia). specialize (Hv1 Hn1 Hd). rewrite (proj2 (Z.ltb_ge _ _)) by lia.
    destruct (Z.to_nat (value_from 0 d)) as [|k] eqn:Hk; [lia|]. cbn [load_args]. rewrite read_line_eof. cbn [mbind option_bind]. by eexists.
  - destruct (split_header (42 :: decimal_signed n) r missing (bulks c)) as (r1 & -> & Heq1); [done|cbn [length]; lia|].
    rewrite <- app_comm_cons, loop_header by done. unfold n. rewrite Nat2Z.id.
    destruct (load_args_cut e c r1 missing (o + zlen (42 :: decimal_signed (Z.of_nat (length c)) ++ crlf)) eof []) as (fp & -> & Hfp); [done..|].
    cbn [mbind option_bind]. by exists fp.
Qed.

Lemma note_part t r missing : 0 <= t < 2 ^ 63 -> r ++ missing = spell (Note t) -> missing <> [] -> r <> [] ->
  Forall (fun c => c <> 10) r /\ (length r <= 24)%nat /\ char_at r 0 = 35.
Proof.
  intros Ht Heq Hm Hr. destruct (header_line 35 t) as [Hw Hl]; [done..|]. destruct (decimal_word t Ht) as (_ & Hd & _).
  assert (Hpre : exists x, text "#TS:" ++ decimal_signed t ++ [13] = r ++ x).
  { destruct missing as [|y m] using rev_ind; [done|]. clear IHm. exists m. cbn [spell] in Heq. unfold crlf in Heq. change [13; 10] with ([13] ++ [10]) in Heq.
    rewrite !app_assoc in Heq. apply app_inj_tail in Heq as [Heq _]. by rewrite app_assoc. }
  destruct Hpre as [x Hx]. apply Forall_cons in Hw as [_ Hw].
  assert (Hall : Forall (fun c => c <> 10) (r ++ x)) by (rewrite <- Hx; apply Forall_app; split; [by repeat constructor|done]). apply Forall_app in Hall as [? _].
  split_and!; [done| |].
  - apply (f_equal length) in Hx. rewrite !length_app in Hx. cbn [length] in Hx. change (length (text "#TS:")) with 4%nat in Hx. lia.
  - destruct r as [|y r]; [done|]. cbn [spell] in Heq. by injection Heq as -> _.
Qed.

(** An annotation that is cut is skipped. *)
Lemma loop_cut_note fuel t r missing o eof l : item_ok (Note t) -> r ++ missing = spell (Note t) -> missing <> [] -> r <> [] ->
  exists fp, commands_loop e (S (S fuel)) (File r o eof) l = Some (None, fp, l).
Proof.
  intros Ht Heq Hm Hr. destruct (note_part t r missing) as (Hw & Hlen & Hh); [done..|]. cbn [commands_loop]. rewrite read_line_end by (done || lia).
  rewrite Hh. cbn [Z.eqb Pos.eqb]. rewrite read_line_eof. by eexists.
Qed.

(** The header of a command that follows it on its line is skipped with it. *)
Lemma loop_swallow fuel t r missing c more o eof l : item_ok (Note t) -> item_ok (Cmd c) -> r ++ missing = spell (Note t) -> missing <> [] -> r <> [] ->
  exists fp, commands_loop e (S (S fuel)) (File (r ++ encode c ++ more) o eof) l = Some (Some FmtErr, fp, l).
Proof.
  intros Ht (Hne & Hn & _ & Ha) Heq Hm Hr. destruct (note_part t r missing) as (Hw & Hlen & Hh); [done..|]. set (n := Z.of_nat (length c)) in *.
  assert (Hn0 : 0 <= n < 2 ^ 63) by (unfold n, INT_MAX in *; lia). destruct (header_line 42 n) as [Hw2 Hl2]; [done..|]. destruct (decimal_word n Hn0) as (_ & Hd & _).
  destruct c as [|a c]; [done|]. apply Forall_cons in Ha as [Ha _]. assert (Hz : 0 <= zlen a < 2 ^ 63) by (destruct Ha; unfold zlen in *; lia).
  replace (r ++ encode (a :: c) ++ more) with ((r ++ 42 :: decimal_signed n ++ [13]) ++ 10 :: 36 :: decimal_signed (zlen a) ++ crlf ++ a ++ crlf ++ bulks c ++ more).
  - cbn [commands_loop]. rewrite read_line_full; [|by apply Forall_app|rewrite length_app; cbn [length]; rewrite length_app; cbn [length]; lia].
    assert (Hh' : char_at ((r ++ 42 :: decimal_signed n ++ [13]) ++ [10]) 0 = 35) by (by destruct r). rewrite Hh'. cbn [Z.eqb Pos.eqb].
    match goal with |- context [read_line (File _ ?o _)] => destruct (read_header 36 (zlen a) (a ++ crlf ++ bulks c ++ more) o eof) as [-> _]; [done..|] end.
    change (char_at (36 :: decimal_signed (zlen a) ++ crlf) 0) with 36. by eexists.
  - unfold encode. fold n. rewrite bulks_cons. unfold bulk. cbn [app]. rewrite <- !app_assoc. cbn [app]. rewrite <- !app_assoc. cbn [app]. done.
Qed.

Lemma spells_length l : (length l <= length (spells l))%nat.
Proof. induction l as [|i l IH]; [done|]. unfold spells in *. cbn [fmap list_fmap concat length]. rewrite length_app. destruct i; cbn; lia. Qed.

Definition start : Z * loader := (0, Loader [] None 0 0).

Lemma load_fuel done_ part : exists fuel, S (length (spells done_ ++ part)) = (length done_ + S (length part + fuel))%nat.
Proof. pose proof (spells_length done_). exists (length (spells done_) - length done_)%nat. rewrite length_app. lia. Qed.

(** A file that ends after whole items or in an annotation. *)
Lemma load_whole done_ part : Forall item_ok done_ -> (part = [] \/ exists t missing, item_ok (Note t) /\ part ++ missing = spell (Note t) /\ missing <> [] /\ part <> []) ->
  let l := (replay done_ start).2 in
  load_text e (spells done_ ++ part) = Some (match queue l with
                                             | Some _ => (AOF_TRUNCATED, ran l, take (Z.to_nat (valid_before_multi l)) (spells done_ ++ part))
                                             | None => (AOF_OK, ran l, spells done_ ++ part)
                                             end).
Proof.
  intros Hd Hp l. unfold load_text. destruct (load_fuel done_ part) as [fuel ->]. rewrite loop_items by done. fold start. fold l.
  assert (Hend : exists fp, commands_loop e (S (length part + fuel)) (File part (replay done_ start).1 false) l = Some (None, fp, l)).
  { destruct Hp as [->|(t & missing & Ht & Heq & Hm & Hne)]; [by eexists|]. destruct part as [|x part]; [done|]. cbn [length Nat.add]. by eapply loop_cut_note. }
  destruct Hend as [fp ->]. cbn [mbind option_bind]. rewrite Htr. by destruct (queue l).
Qed.

(** A file that ends in a command. *)
Lemma load_torn done_ c part missing : Forall item_ok done_ -> item_ok (Cmd c) -> part ++ missing = encode c -> missing <> [] -> part <> [] ->
  let l := (replay done_ start).2 in
  load_text e (spells done_ ++ part) = Some (AOF_TRUNCATED, ran l, take (Z.to_nat (valid_up_to l)) (spells done_ ++ part)).
Proof.
  intros Hd Hc Heq Hm Hne l. unfold load_text. destruct (load_fuel done_ part) as [fuel ->]. rewrite loop_items by done. fold start. fold l.
  destruct (loop_cut_command (length part + fuel) c part missing (replay done_ start).1 false l) as (fp & -> & Hfp); [done..|].
  cbn [mbind option_bind]. by rewrite Hfp, Htr.
Qed.

(** ** What the loader holds after whole items *)

Definition unnested (l : list command) : Prop := forall pre c post, l = pre ++ c :: post -> kind_of c = KMulti -> (committed pre).2 = None.

Lemma committed_snoc l c : committed (l ++ [c]) = commit (committed l) c.
Proof. unfold committed. by rewrite foldl_snoc. Qed.

Lemma replay_snoc l i : replay (l ++ [i]) start = replay1 (replay l start) i.
Proof. unfold replay. by rewrite foldl_snoc. Qed.

Lemma cmds_snoc l i : cmds (l ++ [i]) = match i with Cmd c => cmds l ++ [c] | Note _ => cmds l end.
Proof. rewrite cmds_app. destruct i; [by rewrite app_nil_r|done]. Qed.

Lemma spells_snoc l i : spells (l ++ [i]) = spells l ++ spell i.
Proof. rewrite spells_app. unfold spells at 2. cbn. by rewrite app_nil_r. Qed.

Lemma run_command_committed c l s : (ran l, queue l) = s -> (ran (run_command c (kind_of c) l), queue (run_command c (kind_of c) l)) = commit s c.
Proof. intros <-. unfold run_command, commit. cbn [fst snd]. by destruct (queue l), (kind_of c). Qed.

Lemma replay_offset l : (replay l start).1 = zlen (spells l).
Proof. induction l as [|i l IH] using rev_ind; [done|]. rewrite replay_snoc, spells_snoc, zlen_app, <- IH. by destruct i. Qed.

Lemma replay_committed l : (ran (replay l start).2, queue (replay l start).2) = committed (cmds l).
Proof.
  induction l as [|i l IH] using rev_ind; [done|]. rewrite replay_snoc, cmds_snoc. destruct i as [t|c]; [done|]. rewrite committed_snoc. by apply run_command_committed.
Qed.

(** The end of the last command. *)
Lemma replay_valid l : exists d d', l = d ++ d' /\ cmds d' = [] /\ valid_up_to (replay l start).2 = zlen (spells d).
Proof.
  induction l as [|i l (d & d' & -> & Hd' & Hv)] using rev_ind; [by exists [], []|]. rewrite replay_snoc. destruct i as [t|c].
  - exists d, (d' ++ [Note t]). rewrite app_assoc, cmds_snoc. done.
  - exists ((d ++ d') ++ [Cmd c]), []. rewrite app_nil_r. split_and!; [done..|]. unfold replay1. cbn. by rewrite replay_offset, (spells_snoc (d ++ d')), zlen_app.
Qed.

(** The end of the last command before the transaction that is open. *)
Lemma replay_before l q : unnested (cmds l) -> queue (replay l start).2 = Some q ->
  exists d d', l = d ++ d' /\ valid_before_multi (replay l start).2 = zlen (spells d) /\ committed (cmds d) = (ran (replay l start).2, None).
Proof.
  revert q. induction l as [|i l IH] using rev_ind; intros q Hun; [done|]. rewrite replay_snoc, cmds_snoc in *. destruct i as [t|c].
  - intros Hq. destruct (IH q Hun Hq) as (d & d' & -> & Hv & Hc). exists d, (d' ++ [Note t]). by rewrite app_assoc.
  - assert (Hun' : unnested (cmds l)). { intros pre c' post Heq. apply (Hun pre c' (post ++ [c])). by rewrite Heq, <- app_assoc. }
    pose proof (Hun (cmds l) c [] eq_refl) as Hc. rewrite <- (replay_committed l) in Hc. cbn [snd] in Hc. unfold replay1. cbn [snd queue ran valid_before_multi].
    destruct (queue (replay l start).2) as [q0|] eqn:Hq0; unfold run_command; rewrite Hq0.
    + destruct (kind_of c); [by discriminate Hc|done|]. intros _. destruct (IH q0 Hun' eq_refl) as (d & d' & -> & Hv & Hcm). exists d, (d' ++ [Cmd c]). by rewrite app_assoc.
    + destruct (kind_of c); [|done..]. intros _. destruct (replay_valid l) as (d & d' & Hl & Hd' & Hv). exists d, (d' ++ [Cmd c]). rewrite app_assoc, <- Hl. split_and!; [done..|].
      cbn. rewrite <- Hq0, replay_committed, Hl, cmds_app, Hd', app_nil_r. done.
Qed.

Lemma committed_shift r r0 q l : foldl commit (r ++ r0, q) l = (r ++ (foldl commit (r0, q) l).1, (foldl commit (r0, q) l).2).
Proof.
  revert r0 q. induction l as [|c l IH]; intros r0 q; cbn [foldl]; [done|]. unfold commit at 2 4 6. cbn [fst snd]. destruct q as [q|], (kind_of c); rewrite <- ?app_assoc; apply IH.
Qed.

Lemma committed_app l l' r : committed l = (r, None) -> committed (l ++ l') = (r ++ (committed l').1, (committed l').2).
Proof. intros Hl. unfold committed in *. rewrite foldl_app, Hl. rewrite <- (app_nil_r r) at 1. apply committed_shift. Qed.

Lemma take_spells d d' : take (Z.to_nat (zlen (spells d))) (spells (d ++ d')) = spells d.
Proof. unfold zlen. by rewrite Nat2Z.id, spells_app, take_app_length. Qed.
End Items.
