(* ===== verification/AofTorn.v ===== *)
(** * Writes that are cut short

    A file that ends anywhere is loaded up to the last command it holds whole;
    what is appended to it afterwards is loaded too, unless the end was
    inside a transaction or inside an annotation. *)
From S2P Require Import Prelude Numconv NumconvSpec Sds SdsSpec Aof AofSpec Resp RespSpec RespRun AofFile AofFileSpec.
From Stdlib Require Import ZArith Lia Ascii String.
From stdpp Require Import prelude list.

#[local] Open Scope Z_scope.

(** ** Feeding *)

(** The commands that are written for those executed at a time on a database: a SELECT where the database changes. *)
Fixpoint feed_cmds (fs : list (Z * Z * command)) (db : Z) : list command :=
  match fs with
  | [] => []
  | (_, d, argv) :: fs =>
      if negb (d =? -1) && negb (d =? db) then [text "SELECT"; decimal_signed d] :: argv :: feed_cmds fs d else argv :: feed_cmds fs db
  end.

Fixpoint feed_all (junk : list Z) (fs : list (Z * Z * command)) (f : feeder) : list Z :=
  match fs with
  | [] => []
  | (t, d, argv) :: fs => let '(b, f) := feed_bytes junk t d argv f in b ++ feed_all junk fs f
  end.

Definition feed_ok (e : load_env) (x : Z * Z * command) : Prop :=
  let '(t, d, argv) := x in
  0 <= t < 2 ^ 63 /\ (d = -1 \/ 0 <= d < 2 ^ 31) /\ item_ok e (Cmd argv) /\ (d <> -1 -> item_ok e (Cmd [text "SELECT"; decimal_signed d])).

Lemma encode_select d : encode [text "SELECT"; decimal_signed d] =
  text "*2" ++ [13; 10] ++ text "$6" ++ [13; 10] ++ text "SELECT" ++ [13; 10] ++ text "$" ++ decimal_signed (zlen (decimal_signed d)) ++ [13; 10] ++ decimal_signed d ++ [13; 10].
Proof. unfold encode, bulks, bulk. cbn [fmap list_fmap concat]. by rewrite app_nil_r. Qed.

Lemma feed_bytes_items e junk t d argv f : length junk = 31%nat -> feed_ok e (t, d, argv) ->
  exists items f', feed_bytes junk t d argv f = (spells items, f') /\ Forall (item_ok e) items /\
    cmds items = (if negb (d =? -1) && negb (d =? aof_selected_db f) then [[text "SELECT"; decimal_signed d]; argv] else [argv]) /\
    aof_selected_db f' = (if negb (d =? -1) && negb (d =? aof_selected_db f) then d else aof_selected_db f).
Proof.
  intros Hj (Ht & Hd & Ha & Hs). unfold feed_bytes.
  assert (Hnote : exists notes f1, (if aof_timestamp_enabled f then let '(ts, f) := genAofTimestampAnnotationIfNeeded t f in (default [] ts, f) else ([], f)) = (spells notes, f1) /\
    Forall (item_ok e) notes /\ cmds notes = [] /\ aof_selected_db f1 = aof_selected_db f).
  { unfold genAofTimestampAnnotationIfNeeded. destruct (aof_timestamp_enabled f), (aof_cur_timestamp f <? t);
      try (exists [], f; by split_and!; [..|constructor]). eexists [Note t], _. split; [|split_and!; [by constructor|done|]].
    - unfold spells. cbn [fmap list_fmap concat spell default]. rewrite app_nil_r. reflexivity.
    - done. }
  destruct Hnote as (notes & f1 & -> & Hno & Hnc & Hdb). rewrite Hdb.
  assert (Hcat : forall dst, catAppendOnlyGenericCommand junk dst argv = dst ++ encode argv).
  { intros dst. destruct Ha as (_ & Hn & _ & Hargs). apply catAppendOnlyGenericCommand_eq; [done|unfold INT_MAX in Hn; lia|]. eapply Forall_impl; [exact Hargs|]. by intros a [? _]. }
  destruct (negb (d =? -1) && negb (d =? aof_selected_db f)) eqn:Hsel; rewrite Hcat.
  - apply andb_prop in Hsel as [Hd1 _]. apply negb_true_iff, Z.eqb_neq in Hd1. eexists (notes ++ [Cmd [text "SELECT"; decimal_signed d]; Cmd argv]), _.
    split; [|split_and!; [|by rewrite cmds_app, Hnc|]].
    + rewrite spells_app, <- app_assoc.
      replace (spells [Cmd [text "SELECT"; decimal_signed d]; Cmd argv]) with (encode [text "SELECT"; decimal_signed d] ++ encode argv)
        by (unfold spells; cbn [fmap list_fmap concat spell]; by rewrite app_nil_r).
      rewrite encode_select. reflexivity.
    + apply Forall_app. split; [done|]. apply Forall_cons_2; [by apply Hs|]. by apply Forall_cons_2.
    + done.
  - eexists (notes ++ [Cmd argv]), f1. split_and!; [|apply Forall_app; split; [done|by apply Forall_cons_2]|by rewrite cmds_app, Hnc|done].
    by rewrite spells_snoc.
Qed.

Lemma feed_all_items e junk fs f : length junk = 31%nat -> Forall (feed_ok e) fs ->
  exists items, feed_all junk fs f = spells items /\ Forall (item_ok e) items /\ cmds items = feed_cmds fs (aof_selected_db f).
Proof.
  intros Hj Hfs. revert f. induction Hfs as [|[[t d] argv] fs Hf _ IH]; intros f; [by exists []|]. cbn [feed_all feed_cmds].
  destruct (feed_bytes_items e junk t d argv f Hj Hf) as (items & f' & -> & Hi & Hc & Hdb). destruct (IH f') as (items' & -> & Hi' & Hc').
  exists (items ++ items'). rewrite spells_app, cmds_app, Hc, Hc', Hdb. split_and!; [done|by apply Forall_app|]. by case_match.
Qed.

Section Torn.
Context (e : load_env) (Htr : aof_load_truncated e = true).

Lemma load_items l : Forall (item_ok e) l ->
  exists r file, load_text e (spells l) = Some (r, (committed e (cmds l)).1, file) /\ r <> AOF_FAILED /\ ((committed e (cmds l)).2 = None -> r = AOF_OK /\ file = spells l).
Proof.
  intros Hl. pose proof (load_whole e Htr l [] Hl (or_introl eq_refl)) as Hload. cbn zeta in Hload. rewrite app_nil_r in Hload. rewrite Hload, <- replay_committed. cbn [fst snd].
  destruct (queue _); eexists _, _; by split_and!.
Qed.
End Torn.

(** A transaction that does not end executes nothing. *)
Lemma open_transaction e before multi_ queued : kind_of e multi_ = KMulti -> Forall (fun c => kind_of e c = KOther) (cmds queued) ->
  (committed e (cmds before)).2 = None -> exists q, committed e (cmds (before ++ Cmd multi_ :: queued)) = ((committed e (cmds before)).1, Some q).
Proof.
  intros Hk Hq Hclosed. rewrite cmds_app. destruct (committed e (cmds before)) as [r q0] eqn:Hc. cbn in Hclosed. subst q0.
  rewrite (committed_app e _ _ _ Hc). change (cmds (Cmd multi_ :: queued)) with (multi_ :: cmds queued). unfold committed. cbn [foldl fst].
  assert (Hm : commit e ([], None) multi_ = ([], Some [])) by (unfold commit; cbn; by rewrite Hk). rewrite Hm.
  assert (Hopen : forall q0, exists q, foldl (commit e) ([], Some q0) (cmds queued) = ([], Some q)).
  { induction Hq as [|c l Hk' _ IH]; intros q0; [by exists q0|]. cbn [foldl].
    assert (Hs : commit e ([], Some q0) c = ([], Some (q0 ++ [c]))) by (unfold commit; cbn; by rewrite Hk'). rewrite Hs. apply IH. }
  destruct (Hopen []) as [q ->]. exists q. cbn. by rewrite app_nil_r.
Qed.

Lemma replay_before_multi e before multi_ l : kind_of e multi_ = KMulti -> Forall (fun c => kind_of e c = KOther) (cmds l) ->
  valid_before_multi (replay e (before ++ Cmd multi_ :: l) start).2 = valid_up_to (replay e before start).2.
Proof.
  intros Hk. induction l as [|i l IH] using rev_ind; intros Hl.
  - rewrite replay_snoc. unfold replay1. cbn [snd valid_before_multi]. unfold run_command. rewrite Hk. by destruct (queue _).
  - rewrite app_comm_cons, app_assoc, replay_snoc. rewrite cmds_snoc in Hl. destruct i as [t|c]; [by apply IH|]. apply Forall_app in Hl as [Hl Hc].
    apply Forall_cons in Hc as [Hc _]. rewrite <- (IH Hl). unfold replay1. cbn [snd valid_before_multi]. unfold run_command. rewrite Hc. by destruct (queue _).
Qed.

(** C17: what is fed to an append only file, with its SELECTs, its annotations and its transactions, is what
    loading the file executes, in order; the file is left as it is. *)
Theorem fed_file_loads e junk fs f : aof_load_truncated e = true -> length junk = 31%nat -> Forall (feed_ok e) fs ->
  (committed e (feed_cmds fs (aof_selected_db f))).2 = None ->
  load_text e (feed_all junk fs f) = Some (AOF_OK, (committed e (feed_cmds fs (aof_selected_db f))).1, feed_all junk fs f).
Proof.
  intros Htr Hj Hfs Hclosed. destruct (feed_all_items e junk fs f Hj Hfs) as (items & -> & Hi & Hc). rewrite <- Hc in *.
  destruct (load_items e Htr items Hi) as (r & file & -> & _ & Hok). by destruct (Hok Hclosed) as [-> ->].
Qed.

(** C4: a file that ends anywhere, after a whole item (in an open transaction or not) or in the bytes of a
    command outside a transaction, is loaded: exactly the commands it holds whole are executed, without those of a
    transaction that does not end, the file is cut back to whole items, and whatever is appended to it afterwards
    is executed by the next load after what this load executed. *)
Theorem torn_file_recovers e done_ i part missing : aof_load_truncated e = true -> Forall (item_ok e) done_ -> item_ok e i -> unnested e (cmds done_) ->
  spell i = part ++ missing -> missing <> [] -> (part = [] \/ ((exists c, i = Cmd c) /\ (committed e (cmds done_)).2 = None)) ->
  exists r d, load_text e (spells done_ ++ part) = Some (r, (committed e (cmds done_)).1, spells d) /\ r <> AOF_FAILED /\ d `prefix_of` done_ /\
    forall more, Forall (item_ok e) more -> exists r' file,
      load_text e (spells d ++ spells more) = Some (r', (committed e (cmds done_)).1 ++ (committed e (cmds more)).1, file) /\ r' <> AOF_FAILED.
Proof.
  intros Htr Hd Hi Hun Heq Hm Hcut. pose proof (replay_committed e done_) as Hrep. set (l := (replay e done_ start).2) in *.
  assert (Hload : exists r d d', load_text e (spells done_ ++ part) = Some (r, ran l, spells d) /\ r <> AOF_FAILED /\ done_ = d ++ d' /\ committed e (cmds d) = (ran l, None)).
  { destruct (decide (part = [])) as [->|Hne].
    - rewrite (load_whole e Htr done_ [] Hd (or_introl eq_refl)), app_nil_r. fold l. destruct (queue l) as [q|] eqn:Hq.
      + destruct (replay_before e done_ q Hun Hq) as (d & d' & -> & Hv & Hc). fold l in Hv, Hc. exists AOF_TRUNCATED, d, d'. by rewrite Hv, take_spells.
      + exists AOF_OK, done_, []. by rewrite app_nil_r.
    - destruct Hcut as [|[[c ->] Hclosed]]; [done|]. rewrite (load_torn e Htr done_ c part missing) by done. fold l.
      destruct (replay_valid e done_) as (d & d' & -> & Hd' & Hv). fold l in Hv. exists AOF_TRUNCATED, d, d'. rewrite Hv, spells_app, <- app_assoc. unfold zlen. rewrite Nat2Z.id, take_app_length.
      split_and!; [done..|]. rewrite <- Hrep in Hclosed. cbn in Hclosed. rewrite cmds_app, Hd', app_nil_r in Hrep. by rewrite <- Hrep, Hclosed. }
  destruct Hload as (r & d & d' & Hload & Hr & -> & Hc). assert (Hran : (committed e (cmds (d ++ d'))).1 = ran l) by (by rewrite <- Hrep). rewrite Hran.
  exists r, d. split_and!; [done..|by exists d'|]. intros more Hmore. rewrite <- spells_app.
  destruct (load_items e Htr (d ++ more)) as (r' & file & -> & Hr' & _); [apply Forall_app; split; [by apply Forall_app in Hd as [? _]|done]|].
  exists r', file. rewrite cmds_app, (committed_app e _ _ _ Hc). done.
Qed.

(** C38: a file that ends in the bytes of a command inside a transaction is cut back to the commands of the transaction
    that are whole, not to where it starts: of everything that is appended afterwards outside transactions, the next
    load executes nothing and cuts it off the file, with all of the transaction. *)
Theorem torn_transaction_loses_tail e before multi_ queued c part missing more : aof_load_truncated e = true ->
  Forall (item_ok e) (before ++ Cmd multi_ :: queued ++ Cmd c :: more) -> kind_of e multi_ = KMulti -> Forall (fun c => kind_of e c = KOther) (cmds queued ++ cmds more) ->
  (committed e (cmds before)).2 = None -> encode c = part ++ missing -> missing <> [] -> part <> [] ->
  exists d, load_text e (spells (before ++ Cmd multi_ :: queued) ++ part) = Some (AOF_TRUNCATED, (committed e (cmds before)).1, spells d) /\
    exists d', d' `prefix_of` before /\ load_text e (spells d ++ spells more) = Some (AOF_TRUNCATED, (committed e (cmds before)).1, spells d').
Proof.
  intros Htr Hall Hmulti Hother Hclosed Heq Hm Hne. apply Forall_app in Hall as [Hbefore Hall]. apply Forall_cons in Hall as [Hmok Hall].
  apply Forall_app in Hall as [Hqok Hall]. apply Forall_cons in Hall as [Hc Hmore]. apply Forall_app in Hother as [Hq Hm'].
  set (all := before ++ Cmd multi_ :: queued). assert (Hok : Forall (item_ok e) all) by (apply Forall_app; split; [done|by apply Forall_cons_2]).
  destruct (replay_valid e all) as (d & d' & Hd & Hd' & Hv). rewrite (load_torn e Htr all c part missing) by done.
  assert (Hran : ran (replay e all start).2 = (committed e (cmds before)).1).
  { pose proof (open_transaction e before multi_ queued Hmulti Hq Hclosed) as (q & Hcm). fold all in Hcm. by rewrite <- replay_committed in Hcm; simplify_eq. }
  rewrite Hran, Hv. exists d. split; [rewrite Hd, spells_app, <- app_assoc; unfold zlen; by rewrite Nat2Z.id, take_app_length|].
  assert (Hcut : exists queued', d = before ++ Cmd multi_ :: queued' /\ queued = queued' ++ d').
  { unfold all in Hd. destruct (app_eq_inv _ _ _ _ Hd) as [(k & -> & Hk)|(k & -> & Hk)]; [rewrite Hk, cmds_app in Hd'; by apply app_eq_nil in Hd' as [_ ?]|].
    destruct k as [|x k]; [simpl in Hk; by subst d'|]. injection Hk as <- ->. by exists k. }
  destruct Hcut as (queued' & -> & ->). rewrite <- spells_app, <- app_assoc, <- app_comm_cons. set (l := queued' ++ more).
  assert (Hl : Forall (fun c => kind_of e c = KOther) (cmds l)) by (unfold l; rewrite cmds_app in *; apply Forall_app; split; [by apply Forall_app in Hq as [? _]|done]).
  destruct (open_transaction e before multi_ l Hmulti Hl Hclosed) as (q & Hcm). rewrite <- replay_committed in Hcm. injection Hcm as Hr Hqq.
  pose proof (load_whole e Htr (before ++ Cmd multi_ :: l) []) as Hload. cbn zeta in Hload. rewrite app_nil_r, Hqq, Hr, replay_before_multi in Hload by done. rewrite Hload.
  - destruct (replay_valid e before) as (d0 & d1 & -> & _ & ->). exists d0. split; [by exists d1|]. by rewrite <- app_assoc, take_spells.
  - apply Forall_app in Hqok as [Hqok _]. apply Forall_app. split; [done|]. apply Forall_cons_2; [done|]. by apply Forall_app.
  - by left.
Qed.

(** C39: a file that ends inside an annotation outside transactions is taken as complete and left as it is, so that a
    command that is appended without an annotation of its own (aof-timestamp-enabled switched off) continues the line
    of the annotation, which swallows its header, and the file can no longer be loaded. *)
Theorem torn_annotation_unloadable e done_ t part missing c more : aof_load_truncated e = true -> Forall (item_ok e) done_ -> (committed e (cmds done_)).2 = None ->
  item_ok e (Note t) -> item_ok e (Cmd c) -> spell (Note t) = part ++ missing -> missing <> [] -> part <> [] ->
  load_text e (spells done_ ++ part) = Some (AOF_OK, (committed e (cmds done_)).1, spells done_ ++ part) /\
  exists file, load_text e ((spells done_ ++ part) ++ encode c ++ more) = Some (AOF_FAILED, (committed e (cmds done_)).1, file).
Proof.
  intros Htr Hd Hclosed Ht Hc Heq Hm Hne. pose proof (replay_committed e done_) as Hrep. set (l := (replay e done_ start).2) in *. rewrite <- Hrep in Hclosed |- *. cbn [fst snd] in *. split.
  - rewrite (load_whole e Htr done_ part Hd) by (right; exists t, missing; by rewrite Heq). fold l. by rewrite Hclosed.
  - unfold load_text. rewrite <- app_assoc. destruct (load_fuel done_ (part ++ encode c ++ more)) as [fuel ->]. rewrite loop_items by done. fold start. fold l.
    destruct part as [|x part]; [done|]. cbn [app length Nat.add]. rewrite app_comm_cons.
    destruct (loop_swallow e (length (part ++ encode c ++ more) + fuel) t (x :: part) missing c more (replay e done_ start).1 false l) as [fp ->]; [done..|].
    cbn [mbind option_bind]. by eexists.
Qed.

(** ** Examples *)

Definition demo_lookup (c : command) : option kind :=
  match c with
  | [] => None
  | a :: _ => Some (if bool_decide (a = text "MULTI") then KMulti else if bool_decide (a = text "EXEC") then KExec else KOther)
  end.

Definition demo_env : load_env := LoadEnv demo_lookup true (fun n => n <=? 1024).

Lemma demo_ok c : bool_decide (c <> [] /\ (length c <= 10)%nat /\ Forall (fun a => (length a <= 1024)%nat) c) = true -> item_ok demo_env (Cmd c).
Proof.
  intros (Hne & Hl & Ha)%bool_decide_eq_true. split_and!; [done|unfold INT_MAX; lia|destruct c; [done|by eexists]|].
  eapply Forall_impl; [exact Ha|]. intros a Hla. cbn beta in Hla. unfold arg_fits, zlen. split; [lia|]. intros n Hn. apply Z.leb_le. lia.
Qed.

Definition set_ (k : string) : command := [text "SET"; text k; text "v"].
Definition demo_feeds : list (Z * Z * command) := [(5, 0, set_ "a"); (5, 1, [text "MULTI"]); (6, 1, set_ "b"); (6, -1, [text "EXEC"])].

Lemma demo_feeds_ok : Forall (feed_ok demo_env) demo_feeds.
Proof. repeat apply Forall_cons_2; try apply Forall_nil_2; (split_and!; [lia|lia|lia| |intros _]); apply demo_ok; vm_compute; reflexivity. Qed.

Lemma fed_file_loads_witness :
  load_text demo_env (feed_all (replicate 31 0) demo_feeds (Feeder true 0 (-1))) =
  Some (AOF_OK, [[text "SELECT"; text "0"]; set_ "a"; [text "SELECT"; text "1"]; set_ "b"], feed_all (replicate 31 0) demo_feeds (Feeder true 0 (-1))).
Proof. exact (fed_file_loads demo_env (replicate 31 0) demo_feeds (Feeder true 0 (-1)) eq_refl eq_refl demo_feeds_ok eq_refl). Defined.

Lemma torn_file_recovers_witness :
  exists r d, load_text demo_env (spells [Note 5; Cmd (set_ "a")] ++ take 9 (encode (set_ "b"))) = Some (r, [set_ "a"], spells d) /\ r <> AOF_FAILED /\ d `prefix_of` [Note 5; Cmd (set_ "a")] /\
    forall more, Forall (item_ok demo_env) more -> exists r' file,
      load_text demo_env (spells d ++ spells more) = Some (r', [set_ "a"] ++ (committed demo_env (cmds more)).1, file) /\ r' <> AOF_FAILED.
Proof.
  apply (torn_file_recovers demo_env [Note 5; Cmd (set_ "a")] (Cmd (set_ "b")) (take 9 (encode (set_ "b"))) (drop 9 (encode (set_ "b")))).
  - reflexivity.
  - apply Forall_cons_2; [split; lia|]. apply Forall_cons_2; [apply demo_ok; vm_compute; reflexivity|apply Forall_nil_2].
  - apply demo_ok. vm_compute. reflexivity.
  - intros pre c post Heq Hk. destruct pre as [|x pre]; [injection Heq as <- _; discriminate Hk|]. injection Heq as _ Heq. by destruct pre.
  - symmetry. apply take_drop.
  - discriminate.
  - right. split; [by eexists|reflexivity].
Defined.

Lemma torn_transaction_loses_tail_witness :
  exists d, load_text demo_env (spells [Cmd (set_ "a"); Cmd [text "MULTI"]; Cmd (set_ "b")] ++ take 9 (encode (set_ "c"))) = Some (AOF_TRUNCATED, [set_ "a"], spells d) /\
    exists d', d' `prefix_of` [Cmd (set_ "a")] /\ load_text demo_env (spells d ++ spells [Cmd (set_ "d"); Cmd (set_ "e")]) = Some (AOF_TRUNCATED, [set_ "a"], spells d').
Proof.
  apply (torn_transaction_loses_tail demo_env [Cmd (set_ "a")] [text "MULTI"] [Cmd (set_ "b")] (set_ "c") (take 9 (encode (set_ "c"))) (drop 9 (encode (set_ "c"))) [Cmd (set_ "d"); Cmd (set_ "e")]);
    try reflexivity; try discriminate.
  - repeat apply Forall_cons_2; try apply Forall_nil_2; apply demo_ok; vm_compute; reflexivity.
  - repeat apply Forall_cons_2; try apply Forall_nil_2; reflexivity.
Defined.

Lemma torn_annotation_unloadable_witness :
  load_text demo_env (spells [Cmd (set_ "a")] ++ text "#TS:1") = Some (AOF_OK, [set_ "a"], spells [Cmd (set_ "a")] ++ text "#TS:1") /\
  exists file, load_text demo_env ((spells [Cmd (set_ "a")] ++ text "#TS:1") ++ encode (set_ "b") ++ []) = Some (AOF_FAILED, [set_ "a"], file).
Proof.
  apply (torn_annotation_unloadable demo_env [Cmd (set_ "a")] 1700000000 (text "#TS:1") (text "700000000" ++ crlf) (set_ "b") []); try reflexivity; try discriminate.
  - apply Forall_cons_2; [apply demo_ok; vm_compute; reflexivity|apply Forall_nil_2].
  - split; lia.
  - apply demo_ok. vm_compute. reflexivity.
Defined.
