(* ===== verification/Lzf.v ===== *)
(** * LZF compression (src/lzf_c.c, src/lzf_d.c)

    The compressor with its hash table of pointers, which starts with
    whatever the stack held, and the decompressor.  Buffers are lists of
    bytes; a read or write outside a buffer is the fault [None].  The input
    lies at the address [in_data], and table entries are addresses. *)
From S2P Require Import Prelude.
From Stdlib Require Import ZArith Lia.
From stdpp Require Import prelude gmap list.

#[local] Open Scope Z_scope.

Definition HLOG : Z := 16.
Definition HSIZE : Z := Z.shiftl 1 HLOG.
Definition MAX_LIT : Z := Z.shiftl 1 5.
Definition MAX_OFF : Z := Z.shiftl 1 13.
Definition MAX_REF : Z := Z.shiftl 1 8 + Z.shiftl 1 3.

(** ** The compressor *)

Section compress.
Context (in_data : Z) (garbage : Z -> Z) (inp : list Z).

Definition in_end : Z := Z.of_nat (length inp).

(** The table entries written so far, over the initial contents. *)
Definition hslot (htab : gmap Z Z) (i : Z) : Z := default (garbage i) (htab !! i).

Definition FRST (ip : Z) : option Z :=
  p0 ← load inp ip; p1 ← load inp (ip + 1); Some (Z.lor (Z.shiftl p0 8) p1).

Definition NEXT (v ip : Z) : option Z :=
  p2 ← load inp (ip + 2); Some (Z.lor (wrapu 32 (Z.shiftl v 8)) p2).

Definition IDX (h : Z) : Z := Z.land (wrapu 32 (Z.shiftr h (3 * 8 - HLOG) - h * 5)) (HSIZE - 1).

(** The test for a match at [ref], an address; the result is [off] when there
    is one. *)
Definition match_at (ref ip : Z) : option (option Z) :=
  let off := wrapu 64 (in_data + ip - ref - 1) in
  if negb (off <? MAX_OFF) || negb (in_data <? ref) then Some None
  else
    let r := ref - in_data in
    r2 ← load inp (r + 2); i2 ← load inp (ip + 2);
    if negb (r2 =? i2) then Some None
    else
      r1 ← load inp (r + 1); r0 ← load inp r; i1 ← load inp (ip + 1); i0 ← load inp ip;
      if Z.lor (Z.shiftl r1 8) r0 =? Z.lor (Z.shiftl i1 8) i0 then Some (Some off) else Some None.

(** The unrolled comparisons: the length, and whether one failed. *)
Fixpoint unrolled (n : nat) (r ip len : Z) : option (Z * bool) :=
  match n with
  | O => Some (len, false)
  | S n =>
      let len := len + 1 in
      a ← load inp (r + len); b ← load inp (ip + len);
      if negb (a =? b) then Some (len, true) else unrolled n r ip len
  end.

Fixpoint extend (fuel : nat) (r ip maxlen len : Z) : option Z :=
  let len := len + 1 in
  if len <? maxlen then
    match fuel with
    | O => None
    | S fuel =>
        a ← load inp (r + len); b ← load inp (ip + len);
        if a =? b then extend fuel r ip maxlen len else Some len
    end
  else Some len.

(** The length of the match, by the [for] loop.  [MAX_REF] bounds the turns. *)
Definition match_len (r ip : Z) : option Z :=
  let len := 2 in
  let maxlen := Z.min MAX_REF (in_end - ip - len) in
  if 16 <? maxlen then
    x ← unrolled 16 r ip len;
    let '(len, stop) := x in
    if (stop : bool) then Some len else extend 264 r ip maxlen len
  else extend 264 r ip maxlen len.

Record cstate := CState { st_ip : Z; st_op : Z; st_lit : Z; st_hval : Z; st_htab : gmap Z Z; st_out : list Z }.

(** Close a full run of literals and start the next. *)
Definition full_run (lit op : Z) (out : list Z) : option (Z * Z * list Z) :=
  if lit =? MAX_LIT then out ← store out (op - lit - 1) (lit - 1); Some (0, op + 1, out)
  else Some (lit, op, out).

Inductive turn :=
  | Continue (st : cstate)
  | Break (st : cstate)
  | Return0 (out : list Z).

Definition literal (ip op lit hval : Z) (htab : gmap Z Z) (out : list Z) : option turn :=
  if Z.of_nat (length out) <=? op then Some (Return0 out)
  else
    b ← load inp ip; out ← store out op b;
    x ← full_run (lit + 1) (op + 1) out;
    let '(lit, op, out) := x in Some (Continue (CState (ip + 1) op lit hval htab out)).

Definition not_lit (lit : Z) : Z := if lit =? 0 then 1 else 0.

Definition back_reference (off ref ip op lit : Z) (htab : gmap Z Z) (out : list Z) : option turn :=
  if (Z.of_nat (length out) <=? op + 3 + 1) && (Z.of_nat (length out) <=? op - not_lit lit + 3 + 1)
  then Some (Return0 out)
  else
    out ← store out (op - lit - 1) (wrapu 8 (lit - 1));
    let op := op - not_lit lit in
    len ← match_len (ref - in_data) ip;
    let len := len - 2 in
    let ip := ip + 1 in
    x ← (if len <? 7 then
           out ← store out op (wrapu 8 (Z.shiftr off 8 + Z.shiftl len 5)); Some (op + 1, out)
         else
           out ← store out op (wrapu 8 (Z.shiftr off 8 + Z.shiftl 7 5));
           out ← store out (op + 1) (wrapu 8 (len - 7)); Some (op + 2, out));
    let '(op, out) := x in
    out ← store out op (wrapu 8 off);
    let op := op + 1 in
    let op := op + 1 in
    let ip := ip + (len + 1) in
    if in_end - 2 <=? ip then Some (Break (CState ip op 0 0 htab out))
    else
      let ip := ip - 2 in
      hval ← FRST ip; hval ← NEXT hval ip;
      let htab := <[IDX hval := in_data + ip]> htab in
      let ip := ip + 1 in
      hval ← NEXT hval ip;
      let htab := <[IDX hval := in_data + ip]> htab in
      Some (Continue (CState (ip + 1) op 0 hval htab out)).

Definition one_turn (st : cstate) : option turn :=
  let '(CState ip op lit hval htab out) := st in
  hval ← NEXT hval ip;
  let ref := hslot htab (IDX hval) in
  let htab := <[IDX hval := in_data + ip]> htab in
  m ← match_at ref ip;
  match m with
  | Some off => back_reference off ref ip op lit htab out
  | None => literal ip op lit hval htab out
  end.

(** [inr] is the early return of 0. Each turn moves [ip] forward, so the
    length of the input bounds the turns. *)
Fixpoint main_loop (fuel : nat) (st : cstate) : option (cstate + list Z) :=
  if st_ip st <? in_end - 2 then
    match fuel with
    | O => None
    | S fuel =>
        t ← one_turn st;
        match t with
        | Continue st => main_loop fuel st
        | Break st => Some (inl st)
        | Return0 out => Some (inr out)
        end
    end
  else Some (inl st).

Fixpoint tail_loop (fuel : nat) (ip op lit : Z) (out : list Z) : option (Z * Z * list Z) :=
  if ip <? in_end then
    match fuel with
    | O => None
    | S fuel =>
        b ← load inp ip; out ← store out op b;
        x ← full_run (lit + 1) (op + 1) out;
        let '(lit, op, out) := x in tail_loop fuel (ip + 1) op lit out
    end
  else Some (op, lit, out).

(** The number of bytes written, 0 when they do not fit, and the buffer. *)
Definition lzf_compress (out : list Z) : option (Z * list Z) :=
  if (in_end =? 0) || (Z.of_nat (length out) =? 0) then Some (0, out)
  else
    hval ← FRST 0;
    r ← main_loop (length inp) (CState 0 1 0 hval ∅ out);
    match r with
    | inr out => Some (0, out)
    | inl (CState ip op lit _ _ out) =>
        if Z.of_nat (length out) <? op + 3 then Some (0, out)
        else
          x ← tail_loop 3 ip op lit out;
          let '(op, lit, out) := x in
          out ← store out (op - lit - 1) (wrapu 8 (lit - 1));
          Some (op - not_lit lit, out)
    end.
End compress.

(** ** The decompressor *)

(** [n] bytes copied one by one from [ref] to the end of what was written. *)
Fixpoint copy_bytes (n : nat) (ref : Z) (out : list Z) : option (list Z) :=
  match n with
  | O => Some out
  | S n => b ← load out ref; copy_bytes n (ref + 1) (out ++ [b])
  end.

(** The copy of a back reference: [memcpy] where a long reference does not
    overlap its copy, byte by byte otherwise. *)
Definition copy_ref (len ref : Z) (out : list Z) : option (list Z) :=
  if (10 <=? len) && (ref + (len + 2) <=? Z.of_nat (length out)) then
    Some (out ++ take (Z.to_nat (len + 2)) (drop (Z.to_nat ref) out))
  else copy_bytes (Z.to_nat (len + 2)) ref out.

Inductive lzf_errno := E2BIG | EINVAL.

(** [out] is what was written so far, so [op] is its length.  [inl] is the
    result 0 with [errno] set.  Each turn consumes input. *)
Fixpoint decompress_loop (fuel : nat) (ip out : list Z) (out_len : Z) : option (lzf_errno + list Z) :=
  match ip with
  | [] => Some (inr out)
  | ctrl :: ip =>
      match fuel with
      | O => None
      | S fuel =>
          let op := Z.of_nat (length out) in
          if ctrl <? Z.shiftl 1 5 then
            let ctrl := ctrl + 1 in
            if out_len <? op + ctrl then Some (inl E2BIG)
            else if Z.of_nat (length ip) <? ctrl then Some (inl EINVAL)
            else decompress_loop fuel (drop (Z.to_nat ctrl) ip) (out ++ take (Z.to_nat ctrl) ip) out_len
          else
            let len := Z.shiftr ctrl 5 in
            let ref := op - Z.shiftl (Z.land ctrl 0x1f) 8 - 1 in
            match ip with
            | [] => Some (inl EINVAL)
            | b :: ip1 =>
                let '(len, ip) := if len =? 7 then (len + b, ip1) else (len, ip) in
                match ip with
                | [] => Some (inl EINVAL)
                | b :: ip =>
                    let ref := ref - b in
                    if out_len <? op + len + 2 then Some (inl E2BIG)
                    else if ref <? 0 then Some (inl EINVAL)
                    else
                      out ← copy_ref len ref out;
                      decompress_loop fuel ip out out_len
                end
            end
      end
  end.

Definition lzf_decompress (inp : list Z) (out_len : Z) : option (lzf_errno + list Z) :=
  decompress_loop (length inp) inp [] out_len.
