(* ===== verification/LzfSpec.v ===== *)
(** * Correctness of LZF

    [stream enc data] says that the bytes [enc] are runs and references that
    expand to [data].  The decompressor expands every stream, and the
    compressor writes one for its input whatever its table held at first. *)
From S2P Require Import Prelude Lzf.
From Stdlib Require Import ZArith Lia.
From stdpp Require Import prelude gmap list.

#[local] Open Scope Z_scope.

(** ** Buffers *)

(** The bytes [bs] stand at the offset [pos]. *)
Definition stands (out : list Z) (pos : nat) (bs : list Z) : Prop :=
  forall k b, bs !! k = Some b -> out !! (pos + k)%nat = Some b.

Lemma stands_nil out pos : stands out pos [].
Proof. intros k b. by rewrite lookup_nil. Qed.

Lemma stands_app out pos bs cs :
  stands out pos bs -> stands out (pos + length bs) cs -> stands out pos (bs ++ cs).
Proof.
  intros Hb Hc k b [H|[Hk H]]%lookup_app_Some; [by apply Hb|].
  apply Hc in H. rewrite <- H. f_equal. lia.
Qed.

Lemma stands_bound out pos bs : bs <> [] -> stands out pos bs -> (pos + length bs <= length out)%nat.
Proof.
  intros Hne Hs. destruct (lookup_lt_is_Some_2 bs (length bs - 1)) as [b Hb].
  { destruct bs; [done|]. simpl. lia. }
  apply Hs, lookup_lt_Some in Hb. lia.
Qed.

Lemma stands_insert_ne out pos bs i v :
  (i < pos \/ pos + length bs <= i)%nat -> stands out pos bs -> stands (<[i := v]> out) pos bs.
Proof.
  intros Hi Hs k b Hb. pose proof (lookup_lt_Some _ _ _ Hb).
  rewrite list_lookup_insert_ne by lia. by apply Hs.
Qed.

Lemma stands_insert_eq out i v : (i < length out)%nat -> stands (<[i := v]> out) i [v].
Proof.
  intros Hi [|k] b; [intros [= <-]|by rewrite lookup_cons_ne_0].
  rewrite Nat.add_0_r. by apply list_lookup_insert_eq.
Qed.

Lemma stands_take out bs : stands out 0 bs -> take (length bs) out = bs.
Proof.
  intros Hs. apply list_eq. intros i. destruct (decide (i < length bs)%nat).
  - rewrite lookup_take_lt by done. destruct (lookup_lt_is_Some_2 bs i) as [b Hb]; [done|].
    rewrite Hb. by apply (Hs i).
  - rewrite lookup_take_ge, (lookup_ge_None_2 bs) by lia. done.
Qed.

(** Writing at the end of what stands. *)
Lemma store_append out enc b :
  stands out 0 enc -> (length enc < length out)%nat ->
  exists out', store out (Z.of_nat (length enc)) b = Some out' /\
    stands out' 0 (enc ++ [b]) /\ length out' = length out.
Proof.
  intros Hs Hl. eexists. split; [apply store_some; lia|]. rewrite Nat2Z.id, length_insert.
  split; [|done]. apply stands_app; [apply stands_insert_ne; [lia|done]|by apply stands_insert_eq].
Qed.

(** ** Streams *)

Definition ref_bytes (off len : Z) : list Z :=
  if len <? 7 then [off / 256 + len * 32; off mod 256] else [off / 256 + 7 * 32; len - 7; off mod 256].

Inductive stream : list Z -> list Z -> Prop :=
  | stream_nil : stream [] []
  | stream_lit enc data bs :
      stream enc data -> (1 <= length bs <= 32)%nat ->
      stream (enc ++ Z.of_nat (length bs) - 1 :: bs) (data ++ bs)
  | stream_ref enc data data' off len :
      stream enc data -> 0 <= off < 8192 -> off < Z.of_nat (length data) -> 1 <= len <= 262 ->
      copy_bytes (Z.to_nat (len + 2)) (Z.of_nat (length data) - 1 - off) data = Some data' ->
      stream (enc ++ ref_bytes off len) data'.

Lemma ctrl_fields off len :
  0 <= off < 8192 -> 1 <= len <= 7 ->
  (off / 256 + len * 32 <? Z.shiftl 1 5) = false /\
  Z.shiftr (off / 256 + len * 32) 5 = len /\ Z.shiftl (Z.land (off / 256 + len * 32) 0x1f) 8 = off / 256 * 256.
Proof.
  intros Ho Hl. pose proof (Z.div_lt_upper_bound off 256 32 ltac:(lia) ltac:(lia)).
  pose proof (Z.div_pos off 256 ltac:(lia) ltac:(lia)).
  change (Z.shiftl 1 5) with 32. rewrite Z.shiftr_div_pow2, Z.shiftl_mul_pow2 by lia. change 0x1f with (Z.ones 5).
  rewrite Z.land_ones by lia. change (2 ^ 5) with 32. rewrite Z.div_add, Z.mod_add by lia.
  rewrite (Z.div_small (off / 256)), Z.mod_small by lia.
  split; [apply Z.ltb_ge|]; lia.
Qed.

Lemma copy_bytes_app n ref out out' :
  copy_bytes n ref out = Some out' -> exists bs, out' = out ++ bs /\ length bs = n.
Proof.
  revert ref out. induction n as [|n IH]; intros ref out; cbn [copy_bytes].
  - intros [= <-]. exists []. by rewrite app_nil_r.
  - destruct (load out ref) as [b|]; [|done]. intros (bs & -> & <-)%IH.
    exists (b :: bs). by rewrite <- app_assoc.
Qed.

Lemma copy_bytes_total n ref out :
  0 <= ref < Z.of_nat (length out) -> exists out', copy_bytes n ref out = Some out'.
Proof.
  revert ref out. induction n as [|n IH]; intros ref out Hr; cbn [copy_bytes]; [eauto|].
  destruct (load_some out ref Hr) as [b ->]. mstep.
  apply IH. rewrite length_app. simpl. lia.
Qed.

(** The first bytes copied, when the source does not reach them. *)
Lemma copy_bytes_disjoint n (ref : nat) out :
  (ref + n <= length out)%nat -> copy_bytes n (Z.of_nat ref) out = Some (out ++ take n (drop ref out)).
Proof.
  revert ref out. induction n as [|n IH]; intros ref out Hr; cbn [copy_bytes].
  - by rewrite take_0, app_nil_r.
  - rewrite load_nat. destruct (lookup_lt_is_Some_2 out ref) as [b Hb]; [lia|]. rewrite Hb.
    mstep. replace (Z.of_nat ref + 1) with (Z.of_nat (S ref)) by lia.
    rewrite IH by solve_len. rewrite (drop_S out b ref Hb). cbn [firstn].
    rewrite drop_app_le, take_app_le, <- app_assoc by (rewrite ?length_drop; lia). done.
Qed.

Lemma copy_ref_bytes len ref out :
  0 <= ref -> 0 <= len -> copy_ref len ref out = copy_bytes (Z.to_nat (len + 2)) ref out.
Proof.
  intros Hr Hl. unfold copy_ref.
  destruct (Z.leb_spec 10 len); [|done]. destruct (Z.leb_spec (ref + (len + 2)) (Z.of_nat (length out))); [|done].
  cbn [andb]. replace ref with (Z.of_nat (Z.to_nat ref)) at 2 by lia.
  by rewrite copy_bytes_disjoint by lia.
Qed.

(** ** The decompressor *)

Lemma decompress_lit fuel bs rest out out_len :
  (1 <= length bs <= 32)%nat -> Z.of_nat (length out + length bs) <= out_len ->
  decompress_loop (S fuel) ((Z.of_nat (length bs) - 1 :: bs) ++ rest) out out_len
  = decompress_loop fuel rest (out ++ bs) out_len.
Proof.
  intros Hb Ho. cbn [decompress_loop app]. change (Z.shiftl 1 5) with 32.
  destruct (Z.ltb_spec (Z.of_nat (length bs) - 1) 32); [|lia].
  replace (Z.of_nat (length bs) - 1 + 1) with (Z.of_nat (length bs)) by lia.
  destruct (Z.ltb_spec out_len (Z.of_nat (length out) + Z.of_nat (length bs))); [lia|].
  rewrite length_app. destruct (Z.ltb_spec (Z.of_nat (length bs + length rest)) (Z.of_nat (length bs))); [lia|].
  by rewrite Nat2Z.id, take_app_length, drop_app_length.
Qed.

Lemma decompress_ref fuel off len rest out out' out_len :
  0 <= off < 8192 -> off < Z.of_nat (length out) -> 1 <= len <= 262 ->
  copy_bytes (Z.to_nat (len + 2)) (Z.of_nat (length out) - 1 - off) out = Some out' ->
  Z.of_nat (length out') <= out_len ->
  decompress_loop (S fuel) (ref_bytes off len ++ rest) out out_len = decompress_loop fuel rest out' out_len.
Proof.
  intros Ho Hd Hl Hc Hlen. pose proof Hc as (bs & -> & Hbs)%copy_bytes_app. rewrite length_app in Hlen.
  pose proof (Z.div_mod off 256 ltac:(lia)) as Hdm.
  assert (Hgo : Z.of_nat (length out) - off / 256 * 256 - 1 - off mod 256 = Z.of_nat (length out) - 1 - off) by lia.
  assert (Htail : (if out_len <? Z.of_nat (length out) + len + 2 then Some (inl E2BIG)
     else if Z.of_nat (length out) - 1 - off <? 0 then Some (inl EINVAL)
     else out ← copy_ref len (Z.of_nat (length out) - 1 - off) out; decompress_loop fuel rest out out_len)
     = decompress_loop fuel rest (out ++ bs) out_len).
  { destruct (Z.ltb_spec out_len (Z.of_nat (length out) + len + 2)); [lia|].
    destruct (Z.ltb_spec (Z.of_nat (length out) - 1 - off) 0); [lia|].
    by rewrite copy_ref_bytes, Hc by lia. }
  unfold ref_bytes. destruct (Z.ltb_spec len 7) as [H7|H7]; cbn [decompress_loop app].
  - destruct (ctrl_fields off len) as (-> & -> & ->); [lia..|].
    destruct (Z.eqb_spec len 7); [lia|]. by rewrite Hgo.
  - destruct (ctrl_fields off 7) as (-> & -> & ->); [lia..|].
    change (7 =? 7) with true. replace (7 + (len - 7)) with len by lia. by rewrite Hgo.
Qed.

Lemma ref_bytes_length off len : (2 <= length (ref_bytes off len) <= 3)%nat.
Proof. unfold ref_bytes. destruct (len <? 7); simpl; lia. Qed.

(** The decompressor expands a stream, whatever follows it. *)
Lemma stream_decompress enc data out_len :
  stream enc data -> Z.of_nat (length data) <= out_len ->
  forall rest fuel, (length enc + length rest <= fuel)%nat ->
  exists fuel', (length rest <= fuel')%nat /\
    decompress_loop fuel (enc ++ rest) [] out_len = decompress_loop fuel' rest data out_len.
Proof.
  intros Hs. induction Hs as [|enc data bs Hs IH Hb|enc data data' off len Hs IH Ho Hd Hl Hc];
    intros Hlen rest fuel Hf.
  - by exists fuel.
  - rewrite length_app in Hlen, Hf. simpl in Hf.
    destruct (IH ltac:(lia) ((Z.of_nat (length bs) - 1 :: bs) ++ rest) fuel) as (f & Hf' & He).
    { rewrite length_app. simpl. lia. }
    rewrite <- app_assoc, He. rewrite length_app in Hf'. simpl in Hf'.
    destruct f as [|f]; [lia|]. exists f. split; [lia|]. apply decompress_lit; [done|lia].
  - pose proof (ref_bytes_length off len). rewrite length_app in Hf.
    pose proof Hc as (bs & Heq & _)%copy_bytes_app.
    assert (Z.of_nat (length data) <= out_len) by (subst data'; rewrite length_app in Hlen; lia).
    destruct (IH ltac:(lia) (ref_bytes off len ++ rest) fuel) as (f & Hf' & He).
    { rewrite length_app. lia. }
    rewrite <- app_assoc, He. rewrite length_app in Hf'.
    destruct f as [|f]; [lia|]. exists f. split; [lia|]. by apply decompress_ref.
Qed.

Lemma decompress_nil fuel out out_len : decompress_loop fuel [] out out_len = Some (inr out).
Proof. by destruct fuel. Qed.

Lemma stream_lzf_decompress enc data out_len :
  stream enc data -> Z.of_nat (length data) <= out_len -> lzf_decompress enc out_len = Some (inr data).
Proof.
  intros Hs Hl. unfold lzf_decompress.
  destruct (stream_decompress enc data out_len Hs Hl [] (length enc)) as (f & _ & He); [simpl; lia|].
  rewrite app_nil_r in He. by rewrite He, decompress_nil.
Qed.

(** ** The compressor *)

Section compress_ok.
Context (in_data : Z) (garbage : Z -> Z) (inp : list Z).

Abbreviation in_end := (in_end inp).

(** [n] bytes from [r] are those from [ip]. *)
Definition same (r ip n : Z) : Prop := forall k, 0 <= k < n -> load inp (r + k) = load inp (ip + k).

Lemma same_snoc r ip n b :
  same r ip n -> load inp (r + n) = Some b -> load inp (ip + n) = Some b -> same r ip (n + 1).
Proof.
  intros Hs Hr Hi k Hk. destruct (decide (k = n)) as [->|]; [congruence|]. apply Hs. lia.
Qed.

Lemma load_ip ip k : 0 <= ip -> 0 <= k -> ip + k < in_end -> exists b, load inp (ip + k) = Some b.
Proof. intros. apply load_some. unfold Lzf.in_end in *. lia. Qed.

Lemma unrolled_ok n r ip len :
  0 <= r < ip -> 0 <= len -> ip + len + Z.of_nat n < in_end -> same r ip (len + 1) ->
  exists len' stop, unrolled inp n r ip len = Some (len', stop) /\
    len <= len' <= len + Z.of_nat n /\ (len = len' -> n = O) /\
    if (stop : bool) then same r ip len' /\ len < len' else same r ip (len' + 1) /\ len' = len + Z.of_nat n.
Proof.
  revert len. induction n as [|n IH]; intros len Hr Hl Hi Hs; cbn [unrolled].
  - exists len, false. split_and!; try done; lia.
  - destruct (load_ip r (len + 1)) as [a Ha]; [lia..|]. destruct (load_ip ip (len + 1)) as [b Hb]; [lia..|].
    rewrite Ha, Hb. mstep. destruct (Z.eqb_spec a b) as [->|]; cbn [negb].
    + destruct (IH (len + 1)) as (len' & stop & -> & Hb1 & _ & Hpost); [lia..|by eapply same_snoc|].
      exists len', stop. split_and!; try done; try lia. destruct stop; destruct Hpost; split; try done; lia.
    + exists (len + 1), true. split_and!; try done; lia.
Qed.

Lemma extend_ok fuel r ip maxlen len :
  0 <= r < ip -> 0 <= len -> ip + len < in_end -> ip + maxlen <= in_end -> maxlen - len <= Z.of_nat fuel ->
  same r ip (len + 1) ->
  exists len', extend inp fuel r ip maxlen len = Some len' /\
    len < len' <= Z.max maxlen (len + 1) /\ same r ip len'.
Proof.
  revert len. induction fuel as [|fuel IH]; intros len Hr Hl Hi Hm Hf Hs; cbn [extend];
    (destruct (Z.ltb_spec (len + 1) maxlen); [|exists (len + 1); split_and!; [done|lia..|done]]); [lia|].
  destruct (load_ip r (len + 1)) as [a Ha]; [lia..|]. destruct (load_ip ip (len + 1)) as [b Hb]; [lia..|].
  rewrite Ha, Hb. mstep. destruct (Z.eqb_spec a b) as [->|].
  - destruct (IH (len + 1)) as (len' & -> & Hb1 & Hs1); [lia..|by eapply same_snoc|].
    exists len'. split_and!; [done|lia..|done].
  - exists (len + 1). split_and!; [done|lia..|done].
Qed.

(** The length found is that of a match, inside the input. *)
Lemma match_len_ok r ip :
  0 <= r < ip -> ip + 2 < in_end -> same r ip 3 ->
  exists len, match_len inp r ip = Some len /\ 3 <= len <= 264 /\ ip + len <= in_end /\ same r ip len.
Proof.
  intros Hr Hi Hs. unfold match_len, MAX_REF. change (Z.shiftl 1 8 + Z.shiftl 1 3) with 264.
  set (maxlen := Z.min 264 (in_end - ip - 2)).
  destruct (Z.ltb_spec 16 maxlen) as [H16|H16].
  - destruct (unrolled_ok 16 r ip 2) as (len & stop & -> & Hb & Hne & Hpost); [lia..|done|].
    mstep. destruct stop, Hpost as [Hp Hq].
    + exists len. split_and!; [done|lia..|done].
    + destruct (extend_ok 264 r ip maxlen len) as (len' & -> & Hb' & Hs'); [lia..|done|].
      exists len'. split_and!; [done|lia..|done].
  - destruct (extend_ok 264 r ip maxlen 2) as (len' & -> & Hb' & Hs'); [lia..|done|].
    exists len'. split_and!; [done|lia..|done].
Qed.

(** Copying a match extends what was decompressed by it. *)
Lemma copy_match n (r ip : nat) :
  (r < ip)%nat -> (ip + n <= length inp)%nat -> same (Z.of_nat r) (Z.of_nat ip) (Z.of_nat n) ->
  copy_bytes n (Z.of_nat r) (take ip inp) = Some (take (ip + n) inp).
Proof.
  revert r ip. induction n as [|n IH]; intros r ip Hr Hi Hs; cbn [copy_bytes].
  - by rewrite Nat.add_0_r.
  - destruct (lookup_lt_is_Some_2 inp ip) as [b Hb]; [lia|].
    rewrite load_nat, lookup_take_lt by lia. specialize (Hs 0 ltac:(lia)) as H0.
    rewrite !Z.add_0_r, !load_nat in H0. rewrite H0, Hb. mstep.
    rewrite <- take_S_r by done. replace (Z.of_nat r + 1) with (Z.of_nat (S r)) by lia.
    rewrite (IH (S r) (S ip)); [do 2 f_equal; lia|lia..|].
    intros k Hk. specialize (Hs (k + 1) ltac:(lia)). rewrite !Nat2Z.inj_succ.
    replace (Z.succ (Z.of_nat r) + k) with (Z.of_nat r + (k + 1)) by lia. rewrite Hs. f_equal. lia.
Qed.

(** Where the input lies: not in the first pages of the address space, and
    addresses do not wrap. *)
Context (Hbytes : Forall is_byte inp) (Hbase : MAX_OFF <= in_data) (Hspace : in_data + in_end < 2 ^ 64).

Lemma load_byte i b : load inp i = Some b -> is_byte b.
Proof. intros [_ Hb]%load_inv. by eapply Forall_lookup_1. Qed.

Lemma pair_inj a b c d :
  is_byte b -> is_byte d -> Z.lor (Z.shiftl a 8) b = Z.lor (Z.shiftl c 8) d -> a = c /\ b = d.
Proof.
  unfold is_byte. intros Hb Hd. rewrite !Z.shiftl_mul_pow2 by lia.
  rewrite !lor_disjoint by (unfold fits_u; lia). change (2 ^ 8) with 256. lia.
Qed.

(** A match is behind [ip], whatever address the table held. *)
Lemma match_at_ok ref ip :
  0 <= ip -> ip + 2 < in_end -> fits_u 64 ref ->
  exists m, match_at in_data inp ref ip = Some m /\
    forall off, m = Some off ->
      ref - in_data = ip - 1 - off /\ 0 <= off < 8192 /\ 0 < ip - 1 - off /\ same (ip - 1 - off) ip 3.
Proof.
  intros Hip Hi Hr. unfold match_at, MAX_OFF in *. change (Z.shiftl 1 13) with 8192 in *.
  set (off := wrapu 64 (in_data + ip - ref - 1)).
  destruct (Z.ltb_spec off 8192) as [Ho|]; [|by exists None]. destruct (Z.ltb_spec in_data ref); [|by exists None].
  assert (off = in_data + ip - ref - 1 /\ 0 <= off) as [Heq Hpos].
  { unfold off, wrapu, fits_u in *. destruct (decide (ref <= in_data + ip - 1)).
    - rewrite Z.mod_small in * by lia. lia.
    - rewrite <- (Z.mod_add _ 1), Z.mod_small in Ho by lia. lia. }
  clearbody off. cbn [negb orb]. replace (ref - in_data) with (ip - 1 - off) by lia.
  set (r := ip - 1 - off). assert (Hrr : 0 < r < ip) by lia.
  destruct (load_ip r 2) as [r2 Hr2]; [lia..|]. destruct (load_ip ip 2) as [i2 Hi2]; [lia..|].
  rewrite Hr2, Hi2. mstep. destruct (Z.eqb_spec r2 i2) as [->|]; [|by exists None].
  destruct (load_ip r 1) as [r1 Hr1]; [lia..|]. destruct (load_ip r 0) as [r0 Hr0]; [lia..|].
  destruct (load_ip ip 1) as [i1 Hi1]; [lia..|]. destruct (load_ip ip 0) as [i0 Hi0]; [lia..|].
  rewrite Z.add_0_r in Hr0, Hi0. rewrite Hr1, Hr0, Hi1, Hi0. cbn [mbind option_bind negb].
  destruct (Z.eqb_spec (Z.lor (Z.shiftl r1 8) r0) (Z.lor (Z.shiftl i1 8) i0)) as [Hp|]; [|by exists None].
  apply pair_inj in Hp as [-> ->]; [|by eapply load_byte..].
  exists (Some off). split; [done|]. intros ? [= <-]. split_and!; try done; try lia.
  intros k Hk. fold r. assert (k = 0 \/ k = 1 \/ k = 2) as [-> | [-> | ->]] by lia; rewrite ?Z.add_0_r; congruence.
Qed.

(** ** Runs of literals *)

(** The [op] bytes written are a stream for the first [ip] bytes of input. *)
Definition closed (ip op : Z) (out : list Z) : Prop :=
  0 <= ip <= in_end /\
  exists enc, stream enc (take (Z.to_nat ip) inp) /\ stands out 0 enc /\ op = Z.of_nat (length enc).

(** The same with a run of [lit] literals open. *)
Definition in_run (ip op lit : Z) (out : list Z) : Prop :=
  0 <= lit <= ip /\ ip <= in_end /\
  exists enc, stream enc (take (Z.to_nat (ip - lit)) inp) /\ stands out 0 enc /\
    op = Z.of_nat (length enc) + 1 + lit /\
    stands out (S (length enc)) (take (Z.to_nat lit) (drop (Z.to_nat (ip - lit)) inp)).

Lemma open_run ip op out : closed ip op out -> in_run ip (op + 1) 0 out.
Proof.
  intros (Hip & enc & Hs & Ho & ->). split; [lia|]. split; [lia|]. exists enc.
  rewrite Z.sub_0_r. split_and!; [done..|lia|]. apply stands_nil.
Qed.

Lemma closed_length ip op out : closed ip op out -> 0 <= op.
Proof. intros (_ & enc & _ & _ & ->). lia. Qed.

Lemma in_run_op ip op lit out : in_run ip op lit out -> lit + 1 <= op.
Proof. intros (_ & _ & enc & _ & _ & -> & _). lia. Qed.

(** Storing the length of the run closes it; an empty run is undone. *)
Lemma close_run ip op lit out :
  in_run ip op lit out -> lit <= 32 -> op - lit - 1 < Z.of_nat (length out) ->
  exists out', store out (op - lit - 1) (wrapu 8 (lit - 1)) = Some out' /\
    closed ip (op - not_lit lit) out' /\ length out' = length out.
Proof.
  intros (Hlit & Hip & enc & Hs & Ho & -> & Hl) H32 Hp.
  replace (Z.of_nat (length enc) + 1 + lit - lit - 1) with (Z.of_nat (length enc)) in * by lia.
  destruct (store_append out enc (wrapu 8 (lit - 1)) Ho) as (out' & Hput & Hst & Hlen); [lia|].
  exists out'. split_and!; [done| |done]. split; [lia|]. unfold not_lit.
  destruct (Z.eqb_spec lit 0) as [->|].
  - exists enc. rewrite Z.sub_0_r in Hs. split_and!; [done| |lia].
    intros k b Hb. apply Hst. by rewrite lookup_app_l by (by eapply lookup_lt_Some).
  - set (bs := take (Z.to_nat lit) (drop (Z.to_nat (ip - lit)) inp)) in *.
    assert (Hbs : length bs = Z.to_nat lit).
    { unfold bs. rewrite length_take, length_drop. unfold Lzf.in_end in *. lia. }
    exists (enc ++ Z.of_nat (length bs) - 1 :: bs). split_and!.
    + replace (Z.to_nat ip) with (Z.to_nat (ip - lit) + Z.to_nat lit)%nat by lia.
      rewrite <- take_take_drop. fold bs. apply stream_lit; [done|lia].
    + rewrite cons_middle, app_assoc. apply stands_app.
      * replace (Z.of_nat (length bs) - 1) with (wrapu 8 (lit - 1)); [done|].
        rewrite wrapu_id; [lia|]. unfold fits_u. lia.
      * rewrite store_some in Hput by lia. injection Hput as <-. rewrite Nat2Z.id, length_app.
        rewrite Nat.add_1_r. apply stands_insert_ne; [lia|done].
    + rewrite length_app. simpl. lia.
Qed.

Lemma add_literal ip op lit out :
  in_run ip op lit out -> ip < in_end -> op < Z.of_nat (length out) ->
  exists b out', load inp ip = Some b /\ store out op b = Some out' /\
    in_run (ip + 1) (op + 1) (lit + 1) out' /\ length out' = length out.
Proof.
  intros (Hlit & Hip & enc & Hs & Ho & -> & Hl) Hi Hop. unfold Lzf.in_end in *.
  destruct (load_some inp ip) as [b Hb]; [lia|]. exists b. eexists.
  split; [done|]. split; [apply store_some; lia|]. rewrite length_insert. split; [|done].
  split; [lia|]. split; [unfold Lzf.in_end; lia|]. exists enc.
  replace (ip + 1 - (lit + 1)) with (ip - lit) by lia.
  split_and!; [done|apply stands_insert_ne; [simpl; lia|done]|lia|].
  replace (Z.to_nat (lit + 1)) with (S (Z.to_nat lit)) by lia.
  rewrite (take_S_r _ _ b).
  2:{ rewrite lookup_drop, <- Hb, load_lookup by lia. f_equal. lia. }
  apply stands_app.
  - apply stands_insert_ne; [|done]. rewrite length_take, length_drop. lia.
  - rewrite length_take, length_drop.
    replace (S (length enc) + Z.to_nat lit `min` (length inp - Z.to_nat (ip - lit)))%nat
      with (Z.to_nat (Z.of_nat (length enc) + 1 + lit)) by lia.
    apply stands_insert_eq. lia.
Qed.

Lemma full_run_ok ip op lit out :
  in_run ip op lit out -> 1 <= lit <= 32 -> op <= Z.of_nat (length out) ->
  exists lit' op' out', full_run lit op out = Some (lit', op', out') /\ in_run ip op' lit' out' /\
    0 <= lit' < 32 /\ op <= op' <= op + 1 /\ (lit < 32 -> op' = op) /\ length out' = length out.
Proof.
  intros Hr Hl Hop. pose proof (in_run_op _ _ _ _ Hr). unfold full_run, MAX_LIT. change (Z.shiftl 1 5) with 32.
  destruct (Z.eqb_spec lit 32) as [->|].
  - destruct (close_run _ _ _ _ Hr) as (out' & Hput & Hc & Hlen); [lia..|].
    change (wrapu 8 (32 - 1)) with (32 - 1) in Hput. rewrite Hput. mstep.
    exists 0, (op + 1), out'. split_and!; try done; try lia. apply open_run.
    change (not_lit 32) with 0 in Hc. by rewrite Z.sub_0_r in Hc.
  - exists lit, op, out. split_and!; try done; lia.
Qed.

Context (Hgarbage : forall i, fits_u 64 (garbage i)).

Definition table_ok (htab : gmap Z Z) : Prop := map_Forall (fun _ r => fits_u 64 r) htab.

Lemma table_insert htab i ip :
  table_ok htab -> 0 <= ip < in_end -> table_ok (<[i := in_data + ip]> htab).
Proof.
  intros Ht Hi. apply map_Forall_insert_2; [|done]. unfold fits_u, MAX_OFF in *.
  change (Z.shiftl 1 13) with 8192 in *. lia.
Qed.

Lemma hslot_ok htab i : table_ok htab -> fits_u 64 (hslot garbage htab i).
Proof. intros Ht. unfold hslot. destruct (htab !! i) eqn:E; [by apply (Ht i)|apply Hgarbage]. Qed.

Definition st_ok (n : nat) (st : cstate) : Prop :=
  in_run (st_ip st) (st_op st) (st_lit st) (st_out st) /\ st_lit st < 32 /\
  length (st_out st) = n /\ table_ok (st_htab st).

Definition turn_ok (n : nat) (ip : Z) (t : turn) : Prop :=
  match t with
  | Continue st => st_ok n st /\ ip < st_ip st
  | Break st => st_ok n st /\ in_end - 2 <= st_ip st
  | Return0 out => length out = n
  end.

Lemma literal_ok ip op lit hval htab out :
  in_run ip op lit out -> lit < 32 -> table_ok htab -> ip < in_end ->
  exists t, literal inp ip op lit hval htab out = Some t /\ turn_ok (length out) ip t.
Proof.
  intros Hr Hl Ht Hi. unfold literal. destruct (Z.leb_spec (Z.of_nat (length out)) op); [by eexists|].
  destruct (add_literal _ _ _ _ Hr Hi) as (b & out1 & -> & Hput & Hr1 & Hlen1); [lia|].
  mstep. rewrite Hput. mstep. pose proof (proj1 Hr).
  destruct (full_run_ok _ _ _ _ Hr1) as (lit2 & op2 & out2 & -> & Hr2 & Hl2 & _ & _ & Hlen2); [lia..|].
  eexists. split; [done|]. split; [|simpl; lia]. split_and!; simpl; [done|lia|congruence|done].
Qed.

(** ** Back references *)

(** The bytes of a reference, as the compressor writes them. *)
Lemma write_ref off len op out enc :
  stands out 0 enc -> op = Z.of_nat (length enc) -> op + 3 <= Z.of_nat (length out) ->
  0 <= off < 8192 -> 1 <= len <= 262 ->
  exists op1 out1 out2,
    (if len <? 7 then
       out ← store out op (wrapu 8 (Z.shiftr off 8 + Z.shiftl len 5)); Some (op + 1, out)
     else
       out ← store out op (wrapu 8 (Z.shiftr off 8 + Z.shiftl 7 5));
       out ← store out (op + 1) (wrapu 8 (len - 7)); Some (op + 2, out)) = Some (op1, out1) /\
    store out1 op1 (wrapu 8 off) = Some out2 /\ stands out2 0 (enc ++ ref_bytes off len) /\
    op1 + 1 = Z.of_nat (length (enc ++ ref_bytes off len)) /\ length out2 = length out.
Proof.
  intros Hs -> Hop Ho Hl. pose proof (Z.div_lt_upper_bound off 256 32 ltac:(lia) ltac:(lia)).
  pose proof (Z.div_pos off 256 ltac:(lia) ltac:(lia)).
  change (wrapu 8 off) with (off mod 256). rewrite Z.shiftr_div_pow2, !Z.shiftl_mul_pow2 by lia.
  change (2 ^ 8) with 256. change (2 ^ 5) with 32. unfold ref_bytes. destruct (Z.ltb_spec len 7).
  - rewrite wrapu_id by (unfold fits_u; lia).
    destruct (store_append out enc (off / 256 + len * 32) Hs) as (o1 & -> & Hs1 & Hl1); [lia|].
    destruct (store_append o1 _ (off mod 256) Hs1) as (o2 & Hp & Hs2 & Hl2); [rewrite length_app; simpl; lia|].
    rewrite length_app, Nat2Z.inj_add in Hp. rewrite <- app_assoc in Hs2.
    do 3 eexists. split_and!; [done|exact Hp|done|rewrite length_app; simpl; lia|congruence].
  - rewrite !wrapu_id by (unfold fits_u; lia).
    destruct (store_append out enc (off / 256 + 7 * 32) Hs) as (o1 & -> & Hs1 & Hl1); [lia|].
    destruct (store_append o1 _ (len - 7) Hs1) as (o2 & Hp2 & Hs2 & Hl2); [rewrite length_app; simpl; lia|].
    destruct (store_append o2 _ (off mod 256) Hs2) as (o3 & Hp3 & Hs3 & Hl3); [rewrite !length_app; simpl; lia|].
    rewrite length_app, Nat2Z.inj_add in Hp2. mstep. change (Z.of_nat (length [_])) with 1 in Hp2.
    rewrite Hp2. rewrite <- !app_assoc in Hs3. do 3 eexists.
    split_and!; [done| |exact Hs3|rewrite length_app; simpl; lia|congruence].
    rewrite <- Hp3. f_equal. rewrite !length_app. simpl. lia.
Qed.

Lemma FRST_some ip : 0 <= ip -> ip + 1 < in_end -> exists v, FRST inp ip = Some v.
Proof.
  intros Hip Hi. unfold FRST. destruct (load_ip ip 0) as [a Ha]; [lia..|]. rewrite Z.add_0_r in Ha.
  destruct (load_ip ip 1) as [b Hb]; [lia..|]. rewrite Ha, Hb. by eexists.
Qed.

Lemma NEXT_some v ip : 0 <= ip -> ip + 2 < in_end -> exists w, NEXT inp v ip = Some w.
Proof. intros Hip Hi. unfold NEXT. destruct (load_ip ip 2) as [a ->]; [lia..|]. by eexists. Qed.

(** A closed stream extended by the reference to a match. *)
Lemma closed_ref ip op off len out :
  closed ip op out -> 0 <= off < 8192 -> 0 < ip - 1 - off -> 3 <= len <= 264 -> ip + len <= in_end ->
  same (ip - 1 - off) ip len -> op + 3 <= Z.of_nat (length out) ->
  exists op1 out1 out2,
    (if len - 2 <? 7 then
       out ← store out op (wrapu 8 (Z.shiftr off 8 + Z.shiftl (len - 2) 5)); Some (op + 1, out)
     else
       out ← store out op (wrapu 8 (Z.shiftr off 8 + Z.shiftl 7 5));
       out ← store out (op + 1) (wrapu 8 (len - 2 - 7)); Some (op + 2, out)) = Some (op1, out1) /\
    store out1 op1 (wrapu 8 off) = Some out2 /\ closed (ip + len) (op1 + 1) out2 /\ length out2 = length out.
Proof.
  intros (Hip & enc & Hs & Hst & Hop) Ho Hr Hl Hi Hsame Hroom.
  destruct (write_ref off (len - 2) op out enc) as (op1 & out1 & out2 & H1 & H2 & Hst2 & Hop1 & Hlen);
    [done|done|lia..|].
  exists op1, out1, out2. split_and!; [done..| |done]. split; [lia|].
  exists (enc ++ ref_bytes off (len - 2)). split_and!; [|done..]. unfold Lzf.in_end in *.
  assert (Htl : length (take (Z.to_nat ip) inp) = Z.to_nat ip) by solve_len.
  eapply stream_ref; [done|done|lia..|]. rewrite Htl.
  replace (Z.to_nat (len - 2 + 2)) with (Z.to_nat len) by lia.
  replace (Z.of_nat (Z.to_nat ip) - 1 - off) with (Z.of_nat (Z.to_nat (ip - 1 - off))) by lia.
  rewrite copy_match; [do 2 f_equal; lia|lia..|]. by rewrite !Z2Nat.id by lia.
Qed.

Lemma back_reference_ok off ref ip op lit htab out :
  in_run ip op lit out -> lit < 32 -> table_ok htab -> ip + 2 < in_end ->
  ref - in_data = ip - 1 - off -> 0 <= off < 8192 -> 0 < ip - 1 - off -> same (ip - 1 - off) ip 3 ->
  exists t, back_reference in_data inp off ref ip op lit htab out = Some t /\ turn_ok (length out) ip t.
Proof.
  intros Hr Hl Ht Hi Href Ho Hpos Hsame. unfold back_reference. rewrite Href.
  pose proof (in_run_op _ _ _ _ Hr). destruct (proj1 Hr) as [Hlit Hlip].
  assert (0 <= not_lit lit <= 1) by (unfold not_lit; destruct (lit =? 0); lia).
  destruct (Z.leb_spec (Z.of_nat (length out)) (op - not_lit lit + 3 + 1)) as [Hfull|Hroom].
  { destruct (Z.leb_spec (Z.of_nat (length out)) (op + 3 + 1)); [|lia]. by eexists. }
  rewrite andb_false_r.
  destruct (close_run _ _ _ _ Hr) as (out1 & -> & Hc & Hlen1); [lia..|]. mstep.
  destruct (match_len_ok (ip - 1 - off) ip) as (len & -> & Hlb & Hli & Hs3); [lia..|done|]. mstep.
  destruct (closed_ref ip (op - not_lit lit) off len out1) as (op2 & out2 & out3 & -> & Hp3 & Hc3 & Hlen3);
    [done..|lia|]. mstep. rewrite Hp3. mstep.
  replace (ip + 1 + (len - 2 + 1)) with (ip + len) by lia. apply open_run in Hc3.
  destruct (Z.leb_spec (in_end - 2) (ip + len)).
  { eexists. split; [done|]. split; [|simpl; lia]. split_and!; simpl; [done|lia|congruence|done]. }
  destruct (FRST_some (ip + len - 2)) as [h1 ->]; [lia..|]. mstep.
  destruct (NEXT_some h1 (ip + len - 2)) as [h2 ->]; [lia..|]. mstep.
  destruct (NEXT_some h2 (ip + len - 2 + 1)) as [h3 ->]; [lia..|]. mstep.
  eexists. split; [done|]. split; [|simpl; lia].
  split_and!; simpl; [|lia|congruence|by do 2 (apply table_insert; [|lia])].
  by replace (ip + len - 2 + 1 + 1) with (ip + len) by lia.
Qed.

Lemma one_turn_ok n st :
  st_ok n st -> st_ip st < in_end - 2 ->
  exists t, one_turn in_data garbage inp st = Some t /\ turn_ok n (st_ip st) t.
Proof.
  destruct st as [ip op lit hval htab out]. intros (Hr & Hl & <- & Ht) Hi. cbn [st_ip st_op st_lit st_out st_htab] in *.
  cbn [one_turn]. destruct (proj1 Hr). destruct (NEXT_some hval ip) as [h ->]; [lia..|]. mstep.
  destruct (match_at_ok (hslot garbage htab (IDX h)) ip) as (m & -> & Hm); [lia..|by apply hslot_ok|].
  mstep. destruct m as [off|].
  - destruct (Hm off eq_refl) as (Href & Ho & Hpos & Hs).
    apply back_reference_ok; try done; [|lia]. apply table_insert; [done|lia].
  - apply literal_ok; try done; [|lia]. apply table_insert; [done|lia].
Qed.

Lemma main_loop_ok n fuel st :
  st_ok n st -> in_end - st_ip st <= Z.of_nat fuel ->
  exists r, main_loop in_data garbage inp fuel st = Some r /\
    match r with
    | inl st' => st_ok n st' /\ in_end - 2 <= st_ip st'
    | inr out => length out = n
    end.
Proof.
  revert st. induction fuel as [|fuel IH]; intros st Hst Hf; cbn [main_loop];
    (destruct (Z.ltb_spec (st_ip st) (in_end - 2)); [|by exists (inl st)]); [lia|].
  destruct (one_turn_ok n st Hst) as (t & -> & Ht); [lia|]. mstep.
  destruct t as [st'|st'|out]; [destruct Ht; apply IH; [done|lia]|by exists (inl st')|by exists (inr out)].
Qed.

(** ** The last literals *)

(** A run was restarted at most once. *)
Lemma tail_loop_ok fuel ip op lit out :
  in_run ip op lit out -> lit < 32 -> in_end - ip <= Z.of_nat fuel -> in_end - ip <= 2 ->
  op + (in_end - ip) + (if 32 <=? lit + (in_end - ip) then 1 else 0) <= Z.of_nat (length out) ->
  exists op' lit' out', tail_loop inp fuel ip op lit out = Some (op', lit', out') /\
    in_run in_end op' lit' out' /\ lit' < 32 /\ op' <= Z.of_nat (length out') /\ length out' = length out.
Proof.
  revert ip op lit out. induction fuel as [|fuel IH]; intros ip op lit out Hr Hl Hf H2 Hroom; cbn [tail_loop];
    (destruct (Z.ltb_spec ip in_end);
     [|assert (ip = in_end) as -> by (pose proof (proj1 (proj2 Hr)); lia); exists op, lit, out;
       rewrite Z.sub_diag in Hroom; split_and!; try done; destruct (32 <=? _); lia]); [lia|].
  destruct (proj1 Hr).
  destruct (add_literal _ _ _ _ Hr) as (b & out1 & -> & Hput & Hr1 & Hlen1); [lia|destruct (32 <=? _); lia|].
  mstep. rewrite Hput. mstep.
  destruct (full_run_ok _ _ _ _ Hr1) as (lit2 & op2 & out2 & Hfr & Hr2 & Hl2 & Hop2 & Hsame & Hlen2);
    [lia|destruct (32 <=? _); lia|].
  rewrite Hfr. mstep.
  destruct (IH (ip + 1) op2 lit2 out2) as (op' & lit' & out' & -> & Hr' & Hl' & Ho' & Hlen'); [done|lia..| |].
  2:{ exists op', lit', out'. split_and!; try done. congruence. }
  rewrite Hlen2, Hlen1. revert Hroom. unfold full_run, MAX_LIT in Hfr. change (Z.shiftl 1 5) with 32 in Hfr.
  destruct (Z.eqb_spec (lit + 1) 32).
  - destruct (store out1 _ _); [|done]. mstep in Hfr. injection Hfr as <- <- <-.
    destruct (Z.leb_spec 32 (lit + (in_end - ip))); [|lia]. destruct (Z.leb_spec 32 (0 + (in_end - (ip + 1)))); lia.
  - injection Hfr as <- <- <-. replace (lit + 1 + (in_end - (ip + 1))) with (lit + (in_end - ip)) by lia.
    destruct (Z.leb_spec 32 (lit + (in_end - ip))); lia.
Qed.

(** What the compressor returns. *)
Lemma lzf_compress_stream out :
  2 <= in_end ->
  exists n out', lzf_compress in_data garbage inp out = Some (n, out') /\
    length out' = length out /\ 0 <= n <= Z.of_nat (length out) /\
    (n <> 0 -> exists enc, take (Z.to_nat n) out' = enc /\ stream enc inp).
Proof.
  intros H2. unfold lzf_compress. destruct (Z.eqb_spec in_end 0); [lia|].
  destruct (Z.eqb_spec (Z.of_nat (length out)) 0); [exists 0, out; split_and!; try done; lia|]. cbn [orb].
  destruct (FRST_some 0) as [h ->]; [lia..|]. mstep.
  assert (Hini : closed 0 0 out).
  { split; [lia|]. exists []. split_and!; [apply stream_nil|apply stands_nil|done]. }
  destruct (main_loop_ok (length out) (length inp) (CState 0 1 0 h ∅ out)) as (r & -> & Hr).
  { split_and!; cbn; [by apply (open_run 0 0)|lia|done|apply map_Forall_empty]. }
  { unfold Lzf.in_end. cbn. lia. }
  mstep. destruct r as [[ip op lit hv htab out1]|out1].
  2:{ exists 0, out1. split_and!; try done; lia. }
  destruct Hr as [(Hrun & Hl & Hlen & _) Hip]. cbn in Hrun, Hl, Hlen, Hip.
  destruct (Z.ltb_spec (Z.of_nat (length out1)) (op + 3)); [exists 0, out1; split_and!; try done; lia|].
  pose proof (proj1 (proj2 Hrun)).
  destruct (tail_loop_ok 3 ip op lit out1) as (op2 & lit2 & out2 & -> & Hr2 & Hl2 & Ho2 & Hlen2);
    [done|lia..|destruct (32 <=? _); lia|]. mstep.
  pose proof (in_run_op _ _ _ _ Hr2). pose proof (proj1 Hr2).
  destruct (close_run _ _ _ _ Hr2) as (out3 & -> & Hc & Hlen3); [lia..|]. mstep.
  assert (0 <= not_lit lit2 <= 1) by (unfold not_lit; destruct (lit2 =? 0); lia).
  exists (op2 - not_lit lit2), out3. pose proof (closed_length _ _ _ Hc).
  split_and!; [done|congruence|lia..|]. intros _. destruct Hc as (_ & enc & Hs & Hst & ->).
  exists enc. rewrite Nat2Z.id. split; [by apply stands_take|].
  unfold Lzf.in_end in Hs. by rewrite Nat2Z.id, firstn_all in Hs.
Qed.
End compress_ok.

(** ** Theorems *)

Lemma copy_bytes_byte n ref out out' :
  Forall is_byte out -> copy_bytes n ref out = Some out' -> Forall is_byte out'.
Proof.
  revert ref out. induction n as [|n IH]; intros ref out Ho; cbn [copy_bytes]; [by intros [= <-]|].
  destruct (load out ref) as [b|] eqn:Hb; [|done]. apply IH. apply Forall_app. split; [done|].
  apply load_inv in Hb as [_ Hb]. constructor; [by eapply Forall_lookup_1|done].
Qed.

(** What the decompressor leaves. *)
Definition safe_result (out_len : Z) (out : list Z) (o : option (lzf_errno + list Z)) : Prop :=
  exists r, o = Some r /\
    forall res, r = inr res -> out `prefix_of` res /\ Forall is_byte res /\ Z.of_nat (length res) <= out_len.

Lemma copy_step out_len len ref out k :
  Forall is_byte out -> 0 <= len -> ref < Z.of_nat (length out) ->
  (forall out', Forall is_byte out' -> Z.of_nat (length out') <= out_len -> safe_result out_len out' (k out')) ->
  safe_result out_len out
    (if out_len <? Z.of_nat (length out) + len + 2 then Some (inl E2BIG)
     else if ref <? 0 then Some (inl EINVAL) else out' ← copy_ref len ref out; k out').
Proof.
  intros Ho Hl Hr Hk. destruct (Z.ltb_spec out_len (Z.of_nat (length out) + len + 2)); [by eexists|].
  destruct (Z.ltb_spec ref 0); [by eexists|]. rewrite copy_ref_bytes by lia.
  destruct (copy_bytes_total (Z.to_nat (len + 2)) ref out) as [out' Hc]; [lia|]. rewrite Hc. mstep.
  pose proof (copy_bytes_app _ _ _ _ Hc) as (bs & Heq & Hbs).
  destruct (Hk out') as (r & -> & Hres); [by eapply copy_bytes_byte|subst; rewrite length_app; lia|].
  eexists. split; [done|]. intros res (Hp & ? & ?)%Hres. split_and!; [|done..]. etrans; [|exact Hp].
  rewrite Heq. by eexists.
Qed.

Lemma decompress_loop_safe out_len fuel ip out :
  Forall is_byte ip -> Forall is_byte out -> (length ip <= fuel)%nat -> Z.of_nat (length out) <= out_len ->
  safe_result out_len out (decompress_loop fuel ip out out_len).
Proof.
  revert ip out. induction fuel as [|fuel IH]; intros [|ctrl ip] out Hip Hout Hf Hl; cbn [decompress_loop];
    try (exists (inr out); split; [done|by intros ? [= <-]]); [simpl in Hf; lia|].
  inversion Hip as [|? ? Hc Hip']; subst. simpl in Hf. unfold is_byte in Hc. change (Z.shiftl 1 5) with 32.
  destruct (Z.ltb_spec ctrl 32).
  - destruct (Z.ltb_spec out_len (Z.of_nat (length out) + (ctrl + 1))); [by eexists|].
    destruct (Z.ltb_spec (Z.of_nat (length ip)) (ctrl + 1)); [by eexists|].
    destruct (IH (drop (Z.to_nat (ctrl + 1)) ip) (out ++ take (Z.to_nat (ctrl + 1)) ip)) as (r & -> & Hr);
      [by apply Forall_drop|apply Forall_app; split; [done|by apply Forall_take]|rewrite length_drop; lia
      |rewrite length_app, length_take; lia|].
    eexists. split; [done|]. intros res (Hp & ? & ?)%Hr. split_and!; [|done..]. etrans; [|exact Hp]. by eexists.
  - set (ref := Z.of_nat (length out) - Z.shiftl (Z.land ctrl 0x1f) 8 - 1).
    assert (Href : ref < Z.of_nat (length out)).
    { unfold ref. assert (0 <= Z.shiftl (Z.land ctrl 0x1f) 8); [|lia].
      apply Z.shiftl_nonneg, Z.land_nonneg. lia. }
    assert (Hlen : 0 <= Z.shiftr ctrl 5) by (apply Z.shiftr_nonneg; lia).
    destruct ip as [|b ip]; [by eexists|]. inversion Hip' as [|? ? Hb Hip'']; subst. unfold is_byte in Hb.
    destruct (Z.shiftr ctrl 5 =? 7); [destruct ip as [|b' ip]; [by eexists|]|];
      [inversion Hip'' as [|? ? Hb' Hip3]; subst; unfold is_byte in Hb'; simpl in Hf
      |pose proof Hip'' as Hip3; simpl in Hf];
      apply copy_step; try done; try lia; intros out' Ho' Hl'; apply IH; (done || lia).
Qed.





(** The first two bytes are read before the length is looked at: an input of
    one byte is read past its end. *)
Theorem lzf_compress_one_byte in_data garbage b out :
  out <> [] -> lzf_compress in_data garbage [b] out = None.
Proof. by destruct out. Qed.
