(* ===== verification/Listpack.v ===== *)
(** * Listpacks (src/listpack.c)

    A listpack is one block of memory: 32-bit total size, 16-bit number of
    elements, the entries, and the byte 0xFF.  A block is a list of bytes as
    long as what the allocator granted, a pointer into it an offset, NULL is
    [None]; the outer [None] is an access outside the block or a failed
    [assert]. *)
From S2P Require Import Prelude Numconv.
From Stdlib Require Import ZArith Lia.
From stdpp Require Import prelude list.

#[local] Open Scope Z_scope.

Definition LP_HDR_SIZE : Z := 6.
Definition LP_HDR_NUMELE_UNKNOWN : Z := 65535.
Definition LP_EOF : Z := 0xFF.
Definition UINT32_MAX : Z := 2 ^ 32 - 1.
Definition UINT64_MAX : Z := 2 ^ 64 - 1.

(** ** Encodings *)

Definition LP_ENCODING_IS_7BIT_UINT (b : Z) : bool := Z.land b 0x80 =? 0.
Definition LP_ENCODING_IS_6BIT_STR (b : Z) : bool := Z.land b 0xC0 =? 0x80.
Definition LP_ENCODING_IS_13BIT_INT (b : Z) : bool := Z.land b 0xE0 =? 0xC0.
Definition LP_ENCODING_IS_12BIT_STR (b : Z) : bool := Z.land b 0xF0 =? 0xE0.
Definition LP_ENCODING_IS_16BIT_INT (b : Z) : bool := Z.land b 0xFF =? 0xF1.
Definition LP_ENCODING_IS_24BIT_INT (b : Z) : bool := Z.land b 0xFF =? 0xF2.
Definition LP_ENCODING_IS_32BIT_INT (b : Z) : bool := Z.land b 0xFF =? 0xF3.
Definition LP_ENCODING_IS_64BIT_INT (b : Z) : bool := Z.land b 0xFF =? 0xF4.
Definition LP_ENCODING_IS_32BIT_STR (b : Z) : bool := Z.land b 0xFF =? 0xF0.

(** Little-endian fields, byte by byte as the macros build them. *)
Definition load_le (m : list Z) (p : Z) (n : nat) : option Z :=
  bs ← load_bytes m p (Z.of_nat n); Some (le_decode bs).

Definition lpGetTotalBytes (m : list Z) : option Z := load_le m 0 4.
Definition lpGetNumElements (m : list Z) : option Z := load_le m 4 2.
Definition lpSetTotalBytes (m : list Z) (v : Z) : option (list Z) := store_bytes m 0 (le_encode 4 v).
Definition lpSetNumElements (m : list Z) (v : Z) : option (list Z) := store_bytes m 4 (le_encode 2 v).

Definition lpBytes (m : list Z) : option Z := lpGetTotalBytes m.

(** [None] is a NULL listpack. *)
Definition lpSafeToAdd (lp : option (list Z)) (add : Z) : option bool :=
  len ← match lp with Some m => lpGetTotalBytes m | None => Some 0 end;
  Some (negb (Z.shiftl 1 30 <? wrapu 64 (len + add))).

(** The same code as [string2ll] of util.c. *)
Fixpoint int64_loop (p : list Z) (v : Z) : option (Z * list Z) :=
  match p with
  | [] => Some (v, [])
  | c :: p1 =>
      if (48 <=? c) && (c <=? 57) then
        if UINT64_MAX / 10 <? v then None
        else
          let v := wrapu 64 (v * 10) in
          if UINT64_MAX - (c - 48) <? v then None else int64_loop p1 (wrapu 64 (v + (c - 48)))
      else Some (v, p)
  end.

Definition lpStringToInt64 (s : list Z) : option Z :=
  let slen := Z.of_nat (length s) in
  if (slen =? 0) || (LONG_STR_SIZE <=? slen) then None
  else
    match s with
    | [] => None
    | c0 :: _ =>
        if (slen =? 1) && (c0 =? 48) then Some 0
        else
          let negative := c0 =? 45 in
          match (if negative then tail s else s) with
          | [] => None
          | c :: p =>
              if (49 <=? c) && (c <=? 57) then
                match int64_loop p (c - 48) with
                | Some (v, []) =>
                    if negative then
                      if (- (- 2 ^ 63 + 1)) + 1 <? v then None else Some (wraps 64 (- v))
                    else if 2 ^ 63 - 1 <? v then None else Some v
                | _ => None
                end
              else None
          end
    end.

(** The bytes stored in [intenc]; [enclen] is their number. *)
Definition lpEncodeIntegerGetType (v : Z) : list Z :=
  if (0 <=? v) && (v <=? 127) then [v]
  else if (-4096 <=? v) && (v <=? 4095) then
    let v := if v <? 0 then Z.shiftl 1 13 + v else v in
    [Z.lor (Z.shiftr v 8) 0xC0; Z.land v 0xff]
  else if (-32768 <=? v) && (v <=? 32767) then
    let v := if v <? 0 then Z.shiftl 1 16 + v else v in 0xF1 :: le_encode 2 v
  else if (-8388608 <=? v) && (v <=? 8388607) then
    let v := if v <? 0 then Z.shiftl 1 24 + v else v in 0xF2 :: le_encode 3 v
  else if (-2147483648 <=? v) && (v <=? 2147483647) then
    let v := if v <? 0 then Z.shiftl 1 32 + v else v in 0xF3 :: le_encode 4 v
  else 0xF4 :: le_encode 8 (wrapu 64 v).

(** [inl] is LP_ENCODING_INT with the encoded integer, [inr] is
    LP_ENCODING_STRING with [enclen]. *)
Definition lpEncodeGetType (ele : list Z) : list Z + Z :=
  match lpStringToInt64 ele with
  | Some v => inl (lpEncodeIntegerGetType v)
  | None =>
      let size := Z.of_nat (length ele) in
      inr (if size <? 64 then 1 + size else if size <? 4096 then 2 + size else 5 + size)
  end.

(** The bytes stored in [buf]; the result is their number. *)
Definition lpEncodeBacklen (l : Z) : list Z :=
  let hi k := wrapu 8 (Z.shiftr l k) in
  let lo k := Z.lor (Z.land (Z.shiftr l k) 127) 128 in
  if l <=? 127 then [l]
  else if l <? 16383 then [hi 7; lo 0]
  else if l <? 2097151 then [hi 14; lo 7; lo 0]
  else if l <? 268435455 then [hi 21; lo 14; lo 7; lo 0]
  else [hi 28; lo 21; lo 14; lo 7; lo 0].

Definition backlen_size (l : Z) : Z := Z.of_nat (length (lpEncodeBacklen l)).

(** Five turns are enough: the sixth would have [shift > 28]. *)
Fixpoint decode_backlen (fuel : nat) (m : list Z) (p val shift : Z) : option Z :=
  match fuel with
  | O => None
  | S fuel =>
      b ← load m p;
      let val := Z.lor val (Z.shiftl (Z.land b 127) shift) in
      if Z.land b 128 =? 0 then Some val
      else
        let shift := shift + 7 in
        if 28 <? shift then Some UINT64_MAX else decode_backlen fuel m (p - 1) val shift
  end.

Definition lpDecodeBacklen (m : list Z) (p : Z) : option Z := decode_backlen 5 m p 0 0.

(** The bytes written to [buf]. *)
Definition lpEncodeString (s : list Z) : list Z :=
  let len := Z.of_nat (length s) in
  if len <? 64 then Z.lor len 0x80 :: s
  else if len <? 4096 then [Z.lor (Z.shiftr len 8) 0xE0; Z.land len 0xff] ++ s
  else 0xF0 :: le_encode 4 len ++ s.

Definition str12_len (m : list Z) (p b : Z) : option Z :=
  b1 ← load m (p + 1); Some (Z.lor (Z.shiftl (Z.land b 0xF) 8) b1).

Definition lpCurrentEncodedSizeUnsafe (m : list Z) (p : Z) : option Z :=
  b ← load m p;
  if LP_ENCODING_IS_7BIT_UINT b then Some 1
  else if LP_ENCODING_IS_6BIT_STR b then Some (1 + Z.land b 0x3F)
  else if LP_ENCODING_IS_13BIT_INT b then Some 2
  else if LP_ENCODING_IS_16BIT_INT b then Some 3
  else if LP_ENCODING_IS_24BIT_INT b then Some 4
  else if LP_ENCODING_IS_32BIT_INT b then Some 5
  else if LP_ENCODING_IS_64BIT_INT b then Some 9
  else if LP_ENCODING_IS_12BIT_STR b then n ← str12_len m p b; Some (2 + n)
  else if LP_ENCODING_IS_32BIT_STR b then n ← load_le m (p + 1) 4; Some (wrapu 32 (5 + n))
  else if b =? LP_EOF then Some 1
  else Some 0.

Definition lpCurrentEncodedSizeBytes (m : list Z) (p : Z) : option Z :=
  b ← load m p;
  if LP_ENCODING_IS_7BIT_UINT b then Some 1
  else if LP_ENCODING_IS_6BIT_STR b then Some 1
  else if LP_ENCODING_IS_13BIT_INT b then Some 1
  else if LP_ENCODING_IS_16BIT_INT b then Some 1
  else if LP_ENCODING_IS_24BIT_INT b then Some 1
  else if LP_ENCODING_IS_32BIT_INT b then Some 1
  else if LP_ENCODING_IS_64BIT_INT b then Some 1
  else if LP_ENCODING_IS_12BIT_STR b then Some 2
  else if LP_ENCODING_IS_32BIT_STR b then Some 5
  else if b =? LP_EOF then Some 1
  else Some 0.

(** ** Traversal *)

Definition lpSkip (m : list Z) (p : Z) : option Z :=
  entrylen ← lpCurrentEncodedSizeUnsafe m p; Some (p + (entrylen + backlen_size entrylen)).

Definition lpValidateFirst (m : list Z) : option (option Z) :=
  b ← load m LP_HDR_SIZE; Some (if b =? LP_EOF then None else Some LP_HDR_SIZE).

Definition OUT_OF_RANGE (lpbytes p : Z) : bool := (p <? LP_HDR_SIZE) || (lpbytes - 1 <? p).

(** [Some None] is the result 0; otherwise the new value of [*pp]. *)
Definition lpValidateNext (m : list Z) (pp : option Z) (lpbytes : Z) : option (option (option Z)) :=
  match pp with
  | None => Some None
  | Some p =>
      if OUT_OF_RANGE lpbytes p then Some None
      else
        b ← load m p;
        if b =? LP_EOF then Some (Some None)
        else
          lenbytes ← lpCurrentEncodedSizeBytes m p;
          if lenbytes =? 0 then Some None
          else if OUT_OF_RANGE lpbytes (p + lenbytes) then Some None
          else
            entrylen ← lpCurrentEncodedSizeUnsafe m p;
            let encodedBacklen := backlen_size entrylen in
            let entrylen := entrylen + encodedBacklen in
            if OUT_OF_RANGE lpbytes (p + entrylen) then Some None
            else
              let p := p + entrylen in
              prevlen ← lpDecodeBacklen m (p - 1);
              if negb (wrapu 64 (prevlen + encodedBacklen) =? entrylen) then Some None else Some (Some (Some p))
  end.

Definition lpAssertValidEntry (m : list Z) (lpbytes p : Z) : option unit :=
  r ← lpValidateNext m (Some p) lpbytes; match r with Some _ => Some tt | None => None end.

Definition lpNext (m : list Z) (p : Z) : option (option Z) :=
  p ← lpSkip m p;
  b ← load m p;
  if b =? LP_EOF then Some None
  else bytes ← lpBytes m; _ ← lpAssertValidEntry m bytes p; Some (Some p).

Definition lpPrev (m : list Z) (p : Z) : option (option Z) :=
  if p =? LP_HDR_SIZE then Some None
  else
    let p := p - 1 in
    prevlen ← lpDecodeBacklen m p;
    let prevlen := wrapu 64 (prevlen + backlen_size prevlen) in
    let p := p - (prevlen - 1) in
    bytes ← lpBytes m; _ ← lpAssertValidEntry m bytes p; Some (Some p).

Definition lpFirst (m : list Z) : option (option Z) :=
  b ← load m LP_HDR_SIZE;
  if b =? LP_EOF then Some None
  else bytes ← lpBytes m; _ ← lpAssertValidEntry m bytes LP_HDR_SIZE; Some (Some LP_HDR_SIZE).

Definition lpLast (m : list Z) : option (option Z) :=
  bytes ← lpGetTotalBytes m; lpPrev m (bytes - 1).

(** Every entry takes a byte, so the length of the block bounds the turns. *)
Fixpoint length_loop (fuel : nat) (m : list Z) (p : option Z) (count : Z) : option Z :=
  match p with
  | None => Some count
  | Some p =>
      match fuel with
      | O => None
      | S fuel => p ← lpNext m p; length_loop fuel m p (wrapu 32 (count + 1))
      end
  end.

(** The number of elements, and the block, whose header may be updated. *)
Definition lpLength (m : list Z) : option (Z * list Z) :=
  numele ← lpGetNumElements m;
  if negb (numele =? LP_HDR_NUMELE_UNKNOWN) then Some (numele, m)
  else
    p ← lpFirst m;
    count ← length_loop (length m) m p 0;
    m ← (if count <? LP_HDR_NUMELE_UNKNOWN then lpSetNumElements m count else Some m);
    Some (count, m).

(** [lpSeek]: the loops to the right and to the left. *)
Fixpoint seek_forward (fuel : nat) (m : list Z) (index : Z) (ele : option Z) : option (option Z) :=
  match ele with
  | Some p =>
      if 0 <? index then
        match fuel with
        | O => None
        | S fuel => ele ← lpNext m p; seek_forward fuel m (index - 1) ele
        end
      else Some ele
  | None => Some None
  end.

Fixpoint seek_backward (fuel : nat) (m : list Z) (index : Z) (ele : option Z) : option (option Z) :=
  match ele with
  | Some p =>
      if index <? -1 then
        match fuel with
        | O => None
        | S fuel => ele ← lpPrev m p; seek_backward fuel m (index + 1) ele
        end
      else Some ele
  | None => Some None
  end.

Definition seek_from (m : list Z) (forward : bool) (index : Z) : option (option Z) :=
  if forward then ele ← lpFirst m; seek_forward (length m) m index ele
  else ele ← lpLast m; seek_backward (length m) m index ele.

Definition lpSeek (m : list Z) (index : Z) : option (option Z) :=
  numele ← lpGetNumElements m;
  if negb (numele =? LP_HDR_NUMELE_UNKNOWN) then
    let index := if index <? 0 then numele + index else index in
    if index <? 0 then Some None
    else if numele <=? index then Some None
    else if numele / 2 <? index then seek_from m false (index - numele)
    else seek_from m true index
  else seek_from m (negb (index <? 0)) index.

(** ** Reading elements *)

(** A string inside the block, or an integer. *)
Inductive lp_value :=
  | LStr (ptr len : Z)
  | LInt (val : Z).

(** Two's complement, in the three steps of the code. *)
Definition to_signed (uval negstart negmax : Z) : Z :=
  if negstart <=? uval then - wraps 64 (wrapu 64 (negmax - uval)) - 1 else wraps 64 uval.

(** The value and [entry_size], which an unknown encoding leaves unset. *)
Definition lpGetWithSize (m : list Z) (p : Z) : option (lp_value * option Z) :=
  b ← load m p;
  if LP_ENCODING_IS_7BIT_UINT b then
    Some (LInt (to_signed (Z.land b 0x7f) UINT64_MAX 0), Some 2)
  else if LP_ENCODING_IS_6BIT_STR b then
    let count := Z.land b 0x3F in
    Some (LStr (p + 1) count, Some (1 + count + backlen_size (count + 1)))
  else if LP_ENCODING_IS_13BIT_INT b then
    b1 ← load m (p + 1);
    let uval := Z.lor (Z.shiftl (Z.land b 0x1f) 8) b1 in
    Some (LInt (to_signed uval (Z.shiftl 1 12) 8191), Some 3)
  else if LP_ENCODING_IS_16BIT_INT b then
    uval ← load_le m (p + 1) 2; Some (LInt (to_signed uval (Z.shiftl 1 15) 65535), Some 4)
  else if LP_ENCODING_IS_24BIT_INT b then
    uval ← load_le m (p + 1) 3; Some (LInt (to_signed uval (Z.shiftl 1 23) (Z.shiftr UINT32_MAX 8)), Some 5)
  else if LP_ENCODING_IS_32BIT_INT b then
    uval ← load_le m (p + 1) 4; Some (LInt (to_signed uval (Z.shiftl 1 31) UINT32_MAX), Some 6)
  else if LP_ENCODING_IS_64BIT_INT b then
    uval ← load_le m (p + 1) 8; Some (LInt (to_signed uval (Z.shiftl 1 63) UINT64_MAX), Some 10)
  else if LP_ENCODING_IS_12BIT_STR b then
    count ← str12_len m p b;
    Some (LStr (p + 2) count, Some (2 + count + backlen_size (count + 2)))
  else if LP_ENCODING_IS_32BIT_STR b then
    count ← load_le m (p + 1) 4;
    Some (LStr (p + 5) count, Some (5 + count + backlen_size (count + 5)))
  else Some (LInt (to_signed (12345678900000000 + b) UINT64_MAX 0), None).

(** Without [intbuf]. *)
Definition lpGet (m : list Z) (p : Z) : option lp_value := r ← lpGetWithSize m p; Some r.1.

Definition LP_INTBUF_SIZE : nat := 21.

(** With [intbuf], here the bytes the result points to. *)
Definition lpGet_intbuf (m intbuf : list Z) (p : Z) : option (list Z) :=
  v ← lpGet m p;
  match v with
  | LStr ptr len => load_bytes m ptr len
  | LInt val => let '(count, intbuf) := ll2string intbuf val in Some (take (Z.to_nat count) intbuf)
  end.

Definition lpGetValue (m : list Z) (p : Z) : option lp_value :=
  v ← lpGet m p;
  Some (match v with LStr ptr len => LStr ptr (wrapu 32 len) | LInt val => LInt val end).

(** [memcmp] of a string of the block with [s], of the same length. *)
Definition same_bytes (m : list Z) (ptr : Z) (s : list Z) : option bool :=
  bs ← load_bytes m ptr (Z.of_nat (length s)); Some (bool_decide (bs = s)).

Definition lpCompare (m : list Z) (p : Z) (s : list Z) : option bool :=
  b ← load m p;
  if b =? LP_EOF then Some false
  else
    v ← lpGet m p;
    match v with
    | LStr ptr sz => if Z.of_nat (length s) =? sz then same_bytes m ptr s else Some false
    | LInt sz => Some (match lpStringToInt64 s with Some sval => sz =? sval | None => false end)
    end.

(** [vencoding] and [vll]: not yet known, not an integer, or the integer. *)
Inductive vencoding := V_unknown | V_no | V_int (vll : Z).

Definition vencode (v : vencoding) (s : list Z) : vencoding :=
  match v with
  | V_unknown =>
      let slen := Z.of_nat (length s) in
      if (32 <=? slen) || (slen =? 0) then V_no
      else match lpStringToInt64 s with Some vll => V_int vll | None => V_no end
  | _ => v
  end.

(** The test of one entry: found or not, [vencoding] and [entry_size]. *)
Definition find_entry (m : list Z) (lp_bytes p : Z) (s : list Z) (v : vencoding) (entry_size : Z) :
    option (bool * vencoding * Z) :=
  r ← lpGetWithSize m p;
  let '(value, size) := r in
  let entry_size := default entry_size size in
  match value with
  | LStr ptr ll =>
      if negb ((LP_HDR_SIZE <=? p) && (p + entry_size <? lp_bytes)) then None
      else
        found ← (if Z.of_nat (length s) =? ll then same_bytes m ptr s else Some false);
        Some (found, v, entry_size)
  | LInt ll =>
      let v := vencode v s in
      Some (match v with V_int vll => ll =? vll | _ => false end, v, entry_size)
  end.

Fixpoint find_loop (fuel : nat) (m : list Z) (lp_bytes p : Z) (s : list Z) (skip skipcnt : Z)
    (v : vencoding) (entry_size : Z) : option (option Z) :=
  match fuel with
  | O => None
  | S fuel =>
      r ← (if skipcnt =? 0 then
             r ← find_entry m lp_bytes p s v entry_size;
             let '(found, v, entry_size) := r in
             Some (found, p + entry_size, skip, v, entry_size)
           else p ← lpSkip m p; Some (false, p, skipcnt - 1, v, entry_size));
      let '(found, p1, skipcnt, v, entry_size) := (r : bool * Z * Z * vencoding * Z) in
      if found then Some (Some p)
      else
        _ ← (if lp_bytes <=? p1 + 8 then lpAssertValidEntry m lp_bytes p1
             else if (LP_HDR_SIZE <=? p1) && (p1 <? lp_bytes) then Some tt else None);
        b ← load m p1;
        if b =? LP_EOF then Some None else find_loop fuel m lp_bytes p1 s skip skipcnt v entry_size
  end.

Definition lpFind (m : list Z) (p : Z) (s : list Z) (skip : Z) : option (option Z) :=
  lp_bytes ← lpBytes m;
  find_loop (S (length m)) m lp_bytes p s skip 0 V_unknown 123456789.

(** ** Integrity *)

(** [entry_cb], when it is given, gets the entry and the number of elements. *)
Fixpoint validate_loop (fuel : nat) (m : list Z) (bytes numele : Z) (entry_cb : option (Z -> Z -> bool))
    (p : option Z) (count : Z) : option (option (option Z * Z)) :=
  match p with
  | None => Some (Some (None, count))
  | Some q =>
      b ← load m q;
      if b =? LP_EOF then Some (Some (p, count))
      else
        match fuel with
        | O => None
        | S fuel =>
            r ← lpValidateNext m p bytes;
            match r with
            | None => Some None
            | Some p =>
                if match entry_cb with Some cb => negb (cb q numele) | None => false end then Some None
                else validate_loop fuel m bytes numele entry_cb p (wrapu 32 (count + 1))
            end
        end
  end.

Definition lpValidateIntegrity (m : list Z) (size : Z) (deep : bool) (entry_cb : option (Z -> Z -> bool)) :
    option bool :=
  if size <? LP_HDR_SIZE + 1 then Some false
  else
    bytes ← lpGetTotalBytes m;
    if negb (bytes =? size) then Some false
    else
      last ← load m (size - 1);
      if negb (last =? LP_EOF) then Some false
      else if negb deep then Some true
      else
        numele ← lpGetNumElements m;
        r ← validate_loop (length m) m bytes numele entry_cb (Some LP_HDR_SIZE) 0;
        match r with
        | None => Some false
        | Some (p, count) =>
            if negb (bool_decide (p = Some (size - 1))) then Some false
            else if negb (numele =? LP_HDR_NUMELE_UNKNOWN) && negb (numele =? count) then Some false
            else Some true
        end.

(** ** Memory and updates

    The allocator grants [usable n] bytes for a request of [n]; fresh bytes
    hold [junk].  It does not return NULL: it ends the server instead. *)

Section alloc.
Context (usable : Z -> Z) (junk : Z).

Definition lp_malloc (n : Z) : list Z := replicate (Z.to_nat (usable n)) junk.
Definition lp_realloc (m : list Z) (n : Z) : list Z := realloc junk (Z.to_nat (usable n)) m.
Definition lp_malloc_size (m : list Z) : Z := Z.of_nat (length m).

Definition lpNew (capacity : Z) : option (list Z) :=
  let m := lp_malloc (if LP_HDR_SIZE + 1 <? capacity then capacity else LP_HDR_SIZE + 1) in
  m ← lpSetTotalBytes m (LP_HDR_SIZE + 1);
  m ← lpSetNumElements m 0;
  store m LP_HDR_SIZE LP_EOF.

Definition lpShrinkToFit (m : list Z) : option (list Z) :=
  size ← lpGetTotalBytes m;
  Some (if size <? lp_malloc_size m then lp_realloc m size else m).

Definition lpDup (m : list Z) : option (list Z) :=
  bytes ← lpBytes m; bs ← load_bytes m 0 bytes; store_bytes (lp_malloc bytes) 0 bs.

(** What [lpInsert] is given: [elestr], [eleint], or neither. *)
Inductive lp_ele :=
  | EStr (elestr : list Z)
  | EInt (eleint : list Z)
  | EDel.

Inductive lp_where := LP_BEFORE | LP_AFTER | LP_REPLACE.

Definition is_replace (where_ : lp_where) : bool := match where_ with LP_REPLACE => true | _ => false end.
Definition del_ele (ele : lp_ele) : bool := match ele with EDel => true | _ => false end.

(** [LP_AFTER] becomes [LP_BEFORE] the next entry; deletion is [LP_REPLACE]. *)
Definition insert_position (m : list Z) (ele : lp_ele) (p : Z) (where_ : lp_where) : option (Z * lp_where) :=
  match (if del_ele ele then LP_REPLACE else where_) with
  | LP_AFTER =>
      p ← lpSkip m p;
      total ← lpGetTotalBytes m;
      if (LP_HDR_SIZE <=? p) && (p <? total) then Some (p, LP_BEFORE) else None
  | w => Some (p, w)
  end.

(** The bytes of the element and [enclen]. *)
Definition insert_encoding (ele : lp_ele) : list Z * Z :=
  match ele with
  | EStr s =>
      match lpEncodeGetType s with
      | inl intenc => (intenc, Z.of_nat (length intenc))
      | inr enclen => (lpEncodeString s, enclen)
      end
  | EInt eleint => (eleint, Z.of_nat (length eleint))
  | EDel => ([], 0)
  end.

Definition replaced_length (m : list Z) (p : Z) (where_ : lp_where) : option Z :=
  if is_replace where_ then
    n ← lpCurrentEncodedSizeUnsafe m p;
    let n := wrapu 32 (n + backlen_size n) in
    total ← lpGetTotalBytes m;
    if (LP_HDR_SIZE <=? p) && (p + n <? total) then Some n else None
  else Some 0.

(** The header after the update. *)
Definition insert_header (m : list Z) (ele : lp_ele) (where_ : lp_where) (new_bytes : Z) : option (list Z) :=
  m ← (if negb (is_replace where_) || del_ele ele then
         num_elements ← lpGetNumElements m;
         if negb (num_elements =? LP_HDR_NUMELE_UNKNOWN) then
           lpSetNumElements m (if del_ele ele then num_elements - 1 else num_elements + 1)
         else Some m
       else Some m);
  lpSetTotalBytes m new_bytes.

(** [Some None] is the result NULL; otherwise the block and [*newp]. *)
Definition lpInsert (m : list Z) (ele : lp_ele) (p : Z) (where_ : lp_where) :
    option (option (list Z * option Z)) :=
  pw ← insert_position m ele p where_;
  let '(poff, where_) := pw in
  let '(bytes, enclen) := insert_encoding ele in
  let backlen := if del_ele ele then [] else lpEncodeBacklen enclen in
  let room := enclen + Z.of_nat (length backlen) in
  old_bytes ← lpGetTotalBytes m;
  replaced_len ← replaced_length m poff where_;
  let new_bytes := wrapu 64 (old_bytes + room - replaced_len) in
  if UINT32_MAX <? new_bytes then Some None
  else
    let m := if (old_bytes <? new_bytes) && (lp_malloc_size m <? new_bytes) then lp_realloc m new_bytes else m in
    m ← (if is_replace where_
         then move_bytes m (poff + room) (poff + replaced_len) (old_bytes - poff - replaced_len)
         else move_bytes m (poff + room) poff (old_bytes - poff));
    let m := if new_bytes <? old_bytes then lp_realloc m new_bytes else m in
    newp ← (if del_ele ele then b ← load m poff; Some (if b =? LP_EOF then None else Some poff)
            else Some (Some poff));
    m ← (if del_ele ele then Some m
         else m ← store_bytes m poff bytes; store_bytes m (poff + enclen) backlen);
    m ← insert_header m ele where_ new_bytes;
    Some (Some (m, newp)).

Definition lpInsertString (m s : list Z) (p : Z) (where_ : lp_where) := lpInsert m (EStr s) p where_.

Definition lpInsertInteger (m : list Z) (lval p : Z) (where_ : lp_where) :=
  lpInsert m (EInt (lpEncodeIntegerGetType lval)) p where_.

Definition lpAppend (m ele : list Z) :=
  bytes ← lpGetTotalBytes m; lpInsert m (EStr ele) (bytes - 1) LP_BEFORE.

Definition lpAppendInteger (m : list Z) (lval : Z) :=
  bytes ← lpGetTotalBytes m; lpInsertInteger m lval (bytes - 1) LP_BEFORE.

Definition lpPrepend (m s : list Z) :=
  p ← lpFirst m;
  match p with
  | None => lpAppend m s
  | Some p => lpInsert m (EStr s) p LP_BEFORE
  end.

Definition lpPrependInteger (m : list Z) (lval : Z) :=
  p ← lpFirst m;
  match p with
  | None => lpAppendInteger m lval
  | Some p => lpInsertInteger m lval p LP_BEFORE
  end.

Definition lpReplace (m : list Z) (p : Z) (s : list Z) := lpInsert m (EStr s) p LP_REPLACE.
Definition lpReplaceInteger (m : list Z) (p lval : Z) := lpInsertInteger m lval p LP_REPLACE.
Definition lpDelete (m : list Z) (p : Z) := lpInsert m EDel p LP_REPLACE.

(** Skipping up to [num] entries: the end reached and how many. *)
Fixpoint range_loop (fuel : nat) (m : list Z) (bytes num tail deleted : Z) : option (Z * Z) :=
  if num =? 0 then Some (tail, deleted)
  else
    match fuel with
    | O => None
    | S fuel =>
        tail ← lpSkip m tail;
        b ← load m tail;
        if b =? LP_EOF then Some (tail, deleted + 1)
        else _ ← lpAssertValidEntry m bytes tail; range_loop fuel m bytes (num - 1) tail (deleted + 1)
    end.

Definition lpDeleteRangeWithEntry (m : list Z) (p num : Z) : option (list Z * option Z) :=
  bytes ← lpBytes m;
  if num =? 0 then Some (m, Some p)
  else
    let eofptr := bytes - 1 in
    r ← range_loop (length m) m bytes num p 0;
    let '(tail, deleted) := r in
    m ← move_bytes m p tail (eofptr - tail + 1);
    m ← lpSetTotalBytes m (bytes - (tail - p));
    numele ← lpGetNumElements m;
    m ← (if negb (numele =? LP_HDR_NUMELE_UNKNOWN) then lpSetNumElements m (numele - deleted) else Some m);
    m ← lpShrinkToFit m;
    b ← load m p;
    Some (m, if b =? LP_EOF then None else Some p).

Definition lpDeleteRange (m : list Z) (index num : Z) : option (list Z) :=
  numele ← lpGetNumElements m;
  if num =? 0 then Some m
  else
    p ← lpSeek m index;
    match p with
    | None => Some m
    | Some p =>
        let known := negb (numele =? LP_HDR_NUMELE_UNKNOWN) in
        let index := if known && (index <? 0) then numele + index else index in
        if known && (wrapu 64 (numele - index) <=? num) then
          m ← store m p LP_EOF;
          m ← lpSetTotalBytes m (p + 1);
          m ← lpSetNumElements m index;
          lpShrinkToFit m
        else r ← lpDeleteRangeWithEntry m p num; Some r.1
    end.

(** The loop of [lpBatchDelete]: the block and [dst]. *)
Fixpoint batch_loop (m : list Z) (lp_end dst : Z) (ps : list Z) : option (list Z * Z) :=
  match ps with
  | [] => Some (m, dst)
  | skip :: ps =>
      b ← load m skip;
      if b =? LP_EOF then None
      else
        keep_start ← lpSkip m skip;
        let keep_end := match ps with [] => lp_end | next :: _ => next end in
        if negb (bool_decide (ps = [])) && (keep_start =? keep_end) then batch_loop m lp_end dst ps
        else if keep_end <=? keep_start then None
        else
          m ← move_bytes m dst keep_start (keep_end - keep_start);
          batch_loop m lp_end (dst + (keep_end - keep_start)) ps
  end.

Definition lpBatchDelete (m : list Z) (ps : list Z) : option (list Z) :=
  match ps with
  | [] => Some m
  | dst :: _ =>
      lp_end ← lpGetTotalBytes m;
      b ← load m (lp_end - 1);
      if negb (b =? LP_EOF) then None
      else
        r ← batch_loop m lp_end dst ps;
        let '(m, dst) := r in
        let total_bytes := lp_end - (lp_end - dst) in
        b ← load m (total_bytes - 1);
        if negb (b =? LP_EOF) then None
        else
          m ← lpSetTotalBytes m total_bytes;
          numele ← lpGetNumElements m;
          m ← (if negb (numele =? LP_HDR_NUMELE_UNKNOWN) then lpSetNumElements m (numele - Z.of_nat (length ps))
               else Some m);
          lpShrinkToFit m
  end.

(** The merge of two listpacks that are distinct and not NULL, and whether
    it replaces the first or the second. *)
Definition lpMerge (first second : list Z) : option (list Z * bool) :=
  first_bytes ← lpBytes first;
  r ← lpLength first;
  let '(first_len, first) := r in
  second_bytes ← lpBytes second;
  r ← lpLength second;
  let '(second_len, second) := r in
  let append := second_bytes <=? first_bytes in
  let '(target, target_bytes, source, source_bytes) :=
    if append then (first, first_bytes, second, second_bytes) else (second, second_bytes, first, first_bytes) in
  let lpbytes := first_bytes + second_bytes - LP_HDR_SIZE - 1 in
  if negb (lpbytes <? UINT32_MAX) then None
  else
    let lplength := first_len + second_len in
    let lplength := if lplength <? 65535 then lplength else 65535 in
    let target := lp_realloc target lpbytes in
    target ←
      (if append then
         bs ← load_bytes source LP_HDR_SIZE (source_bytes - LP_HDR_SIZE); store_bytes target (target_bytes - 1) bs
       else
         target ← move_bytes target (source_bytes - 1) LP_HDR_SIZE (target_bytes - LP_HDR_SIZE);
         bs ← load_bytes source 0 (source_bytes - 1); store_bytes target 0 bs);
    target ← lpSetNumElements target lplength;
    target ← lpSetTotalBytes target lpbytes;
    Some (target, append).

Definition lpEstimateBytesRepeatedInteger (lval rep : Z) : Z :=
  let enclen := Z.of_nat (length (lpEncodeIntegerGetType lval)) in
  wrapu 64 (LP_HDR_SIZE + (enclen + backlen_size enclen) * rep + 1).
End alloc.
