(* ===== verification/ListpackSpec.v ===== *)
(** * Listpacks: encodings and the list a block holds

    The elements are integers and strings; [rep m vs] says that the block [m]
    holds the elements [vs].  The lemmas of this file are about one entry and
    about moving between entries. *)
From S2P Require Import Prelude Numconv NumconvSpec Listpack.
From Stdlib Require Import ZArith Lia.
From stdpp Require Import prelude list.

#[local] Open Scope Z_scope.

Inductive lpv :=
  | VI (v : Z)
  | VS (s : list Z).

Definition wf_lpv (v : lpv) : Prop :=
  match v with
  | VI v => fits_s 64 v
  | VS s => Forall is_byte s /\ Z.of_nat (length s) < 2 ^ 32 - 16
  end.

Definition enc (v : lpv) : list Z :=
  match v with
  | VI v => lpEncodeIntegerGetType v
  | VS s => lpEncodeString s
  end.

Abbreviation zlen l := (Z.of_nat (length l)).

Definition entry (v : lpv) : list Z := enc v ++ lpEncodeBacklen (zlen (enc v)).

(** ** First bytes *)

(** The cases of the macros, in the order the code tests them. *)
Definition classes (b : Z) : list bool :=
  [LP_ENCODING_IS_7BIT_UINT b; LP_ENCODING_IS_6BIT_STR b; LP_ENCODING_IS_13BIT_INT b;
   LP_ENCODING_IS_16BIT_INT b; LP_ENCODING_IS_24BIT_INT b; LP_ENCODING_IS_32BIT_INT b;
   LP_ENCODING_IS_64BIT_INT b; LP_ENCODING_IS_12BIT_STR b].

Lemma classes_7bit b : 0 <= b < 128 -> LP_ENCODING_IS_7BIT_UINT b = true /\ Z.land b 0x7f = b.
Proof.
  intros Hb. pose proof (all_between_spec 0 128 (fun b => LP_ENCODING_IS_7BIT_UINT b && (Z.land b 0x7f =? b)) b) as H.
  apply andb_true_iff in H as [? ?%Z.eqb_eq]; [done|by vm_compute|done].
Qed.

Lemma classes_6bit b :
  128 <= b < 192 -> LP_ENCODING_IS_7BIT_UINT b = false /\ LP_ENCODING_IS_6BIT_STR b = true /\ Z.land b 0x3f = b - 128.
Proof.
  intros Hb. pose proof (all_between_spec 128 192
    (fun b => negb (LP_ENCODING_IS_7BIT_UINT b) && LP_ENCODING_IS_6BIT_STR b && (Z.land b 0x3f =? b - 128)) b) as H.
  apply andb_true_iff in H as [[?%negb_true_iff ?]%andb_true_iff ?%Z.eqb_eq]; [done|by vm_compute|done].
Qed.

Lemma classes_13bit b :
  192 <= b < 224 -> LP_ENCODING_IS_7BIT_UINT b = false /\ LP_ENCODING_IS_6BIT_STR b = false /\
    LP_ENCODING_IS_13BIT_INT b = true /\ Z.land b 0x1f = b - 192.
Proof.
  intros Hb. pose proof (all_between_spec 192 224
    (fun b => negb (LP_ENCODING_IS_7BIT_UINT b) && negb (LP_ENCODING_IS_6BIT_STR b) && LP_ENCODING_IS_13BIT_INT b
       && (Z.land b 0x1f =? b - 192)) b) as H.
  apply andb_true_iff in H as [[[?%negb_true_iff ?%negb_true_iff]%andb_true_iff ?]%andb_true_iff ?%Z.eqb_eq];
    [done|by vm_compute|done].
Qed.

Lemma classes_12bit b :
  224 <= b < 240 -> classes b = [false; false; false; false; false; false; false; true] /\ Z.land b 0xf = b - 224.
Proof.
  intros Hb. pose proof (all_between_spec 224 240
    (fun b => bool_decide (classes b = [false; false; false; false; false; false; false; true])
       && (Z.land b 0xf =? b - 224)) b) as H.
  apply andb_true_iff in H as [?%bool_decide_eq_true ?%Z.eqb_eq]; [done|by vm_compute|done].
Qed.

Lemma lor_add hi lo b : 0 <= b -> 0 <= lo < 2 ^ b -> Z.lor lo (hi * 2 ^ b) = hi * 2 ^ b + lo.
Proof. intros Hb Hlo. rewrite Z.lor_comm. by apply lor_disjoint. Qed.

(** ** The shape of an encoding *)

(** What the code reads of an encoding, one constructor per format. *)
Inductive shape : lpv -> list Z -> Prop :=
  | shape_7bit v : 0 <= v < 128 -> shape (VI v) [v]
  | shape_13bit v : fits_s 13 v -> shape (VI v) [192 + v mod 8192 / 256; v mod 8192 mod 256]
  | shape_16bit v : fits_s 16 v -> shape (VI v) (0xF1 :: le_encode 2 v)
  | shape_24bit v : fits_s 24 v -> shape (VI v) (0xF2 :: le_encode 3 v)
  | shape_32bit v : fits_s 32 v -> shape (VI v) (0xF3 :: le_encode 4 v)
  | shape_64bit v : fits_s 64 v -> shape (VI v) (0xF4 :: le_encode 8 v)
  | shape_6bit_str s : (length s < 64)%nat -> shape (VS s) (128 + zlen s :: s)
  | shape_12bit_str s : (length s < 4096)%nat -> shape (VS s) (224 + zlen s / 256 :: zlen s mod 256 :: s)
  | shape_32bit_str s : zlen s < 2 ^ 32 - 16 -> shape (VS s) (0xF0 :: le_encode 4 (zlen s) ++ s).

Lemma signed_mod w v : 1 <= w -> fits_s w v -> (if v <? 0 then 2 ^ w + v else v) = v mod 2 ^ w.
Proof.
  intros Hw Hv. unfold fits_s in Hv. pose proof (pow2_double w Hw).
  destruct (Z.ltb_spec v 0).
  - rewrite <- (Z.mod_add _ 1), Z.mod_small by lia. lia.
  - rewrite Z.mod_small; lia.
Qed.

Lemma le_encode_signed n v :
  (1 <= n)%nat -> fits_s (8 * Z.of_nat n) v ->
  le_encode n (if v <? 0 then Z.shiftl 1 (8 * Z.of_nat n) + v else v) = le_encode n v.
Proof.
  intros Hn Hv. rewrite Z.shiftl_mul_pow2, Z.mul_1_l, signed_mod by (lia || done).
  apply le_encode_mod. rewrite Z.mod_mod; [done|]. apply Z.pow_nonzero; lia.
Qed.

Lemma enc_shape_int v : fits_s 64 v -> shape (VI v) (lpEncodeIntegerGetType v).
Proof.
  intros Hv. unfold lpEncodeIntegerGetType.
  destruct (Z.leb_spec 0 v), (Z.leb_spec v 127); cbn [andb]; try (apply shape_7bit; lia).
  all: destruct (Z.leb_spec (-4096) v), (Z.leb_spec v 4095); cbn [andb]; try lia.
  all: try (replace (if v <? 0 then Z.shiftl 1 13 + v else v) with (v mod 8192)
      by (symmetry; apply (signed_mod 13); [lia|unfold fits_s; lia]);
    pose proof (Z.mod_pos_bound v 8192 ltac:(lia));
    pose proof (Z.div_pos (v mod 8192) 256 ltac:(lia) ltac:(lia));
    pose proof (Z.div_lt_upper_bound (v mod 8192) 256 32 ltac:(lia) ltac:(lia));
    rewrite Z.shiftr_div_pow2, (Z.land_ones _ 8) by lia;
    change 0xC0 with (6 * 2 ^ 5); change (2 ^ 8) with 256; rewrite lor_add by lia; apply shape_13bit; unfold fits_s; lia).
  all: destruct (Z.leb_spec (-32768) v), (Z.leb_spec v 32767); cbn [andb]; try lia.
  all: try (rewrite (le_encode_signed 2) by (lia || unfold fits_s; lia); apply shape_16bit; unfold fits_s; lia).
  all: destruct (Z.leb_spec (-8388608) v), (Z.leb_spec v 8388607); cbn [andb]; try lia.
  all: try (rewrite (le_encode_signed 3) by (lia || unfold fits_s; lia); apply shape_24bit; unfold fits_s; lia).
  all: destruct (Z.leb_spec (-2147483648) v), (Z.leb_spec v 2147483647); cbn [andb]; try lia.
  all: try (rewrite (le_encode_signed 4) by (lia || unfold fits_s; lia); apply shape_32bit; unfold fits_s; lia).
  all: rewrite (le_encode_mod 8 (wrapu 64 v) v) by (unfold wrapu; by rewrite Z.mod_mod); by apply shape_64bit.
Qed.

Lemma enc_shape v : wf_lpv v -> shape v (enc v).
Proof.
  destruct v as [v|s]; [apply enc_shape_int|]. intros [_ Hs]. cbn [enc]. unfold lpEncodeString.
  destruct (Z.ltb_spec (zlen s) 64).
  - change 0x80 with (2 * 2 ^ 6). rewrite lor_add by lia. apply shape_6bit_str. lia.
  - destruct (Z.ltb_spec (zlen s) 4096); [|by apply shape_32bit_str].
    rewrite Z.shiftr_div_pow2, (Z.land_ones _ 8) by lia. change 0xE0 with (14 * 2 ^ 4).
    pose proof (Z.div_pos (zlen s) 256 ltac:(lia) ltac:(lia)).
    pose proof (Z.div_lt_upper_bound (zlen s) 256 16 ltac:(lia) ltac:(lia)).
    change (2 ^ 8) with 256. rewrite lor_add by lia. apply shape_12bit_str. lia.
Qed.

(** ** Reading an entry *)

Lemma load_le_app pre n x rest :
  load_le (pre ++ le_encode n x ++ rest) (zlen pre) n = Some (x mod 2 ^ (8 * Z.of_nat n)).
Proof.
  unfold load_le. rewrite load_bytes_app by (by rewrite length_le_encode). mstep.
  by rewrite le_decode_encode.
Qed.

Lemma zlen_snoc (pre : list Z) b : zlen pre + 1 = zlen (pre ++ [b]).
Proof. rewrite length_app. simpl. lia. Qed.

Lemma load_le_next pre b n x rest :
  load_le (pre ++ b :: le_encode n x ++ rest) (zlen pre + 1) n = Some (x mod 2 ^ (8 * Z.of_nat n)).
Proof. rewrite (zlen_snoc pre b), cons_middle, app_assoc. apply load_le_app. Qed.

Lemma load_next pre b c rest : load (pre ++ b :: c :: rest) (zlen pre + 1) = Some c.
Proof. rewrite (zlen_snoc pre b), cons_middle, app_assoc. apply load_head. Qed.

(** A string after [n] bytes of header. *)
Lemma load_str pre hd s rest p :
  p = zlen pre + zlen hd -> load_bytes (pre ++ (hd ++ s) ++ rest) p (zlen s) = Some s.
Proof.
  intros ->. rewrite <- Nat2Z.inj_add, <- length_app, <- app_assoc, app_assoc. by apply load_bytes_app.
Qed.

Lemma str12_len_app pre n rest :
  0 <= n < 4096 -> str12_len (pre ++ (224 + n / 256 :: n mod 256 :: rest)) (zlen pre) (224 + n / 256) = Some n.
Proof.
  intros Hn. unfold str12_len. rewrite load_next. mstep. f_equal.
  pose proof (Z.div_pos n 256 ltac:(lia) ltac:(lia)).
  pose proof (Z.div_lt_upper_bound n 256 16 ltac:(lia) ltac:(lia)).
  destruct (classes_12bit (224 + n / 256)) as [_ ->]; [lia|].
  pose proof (Z.mod_pos_bound n 256 ltac:(lia)). rewrite Z.shiftl_mul_pow2, lor_disjoint by (unfold fits_u; lia).
  pose proof (Z.div_mod n 256 ltac:(lia)). lia.
Qed.

Lemma to_signed_mod w v :
  1 <= w <= 64 -> fits_s w v -> to_signed (v mod 2 ^ w) (2 ^ (w - 1)) (2 ^ w - 1) = v.
Proof.
  intros Hw Hv. unfold to_signed, fits_s in *. pose proof (pow2_double w ltac:(lia)).
  pose proof (Z.pow_le_mono_r 2 w 64 ltac:(lia) ltac:(lia)).
  pose proof (Z.pow_le_mono_r 2 (w - 1) 63 ltac:(lia) ltac:(lia)).
  rewrite <- signed_mod by (lia || done). destruct (Z.ltb_spec v 0).
  - destruct (Z.leb_spec (2 ^ (w - 1)) (2 ^ w + v)); [|lia].
    rewrite wrapu_id by (unfold fits_u; lia). rewrite wraps_id by (unfold fits_s; lia). lia.
  - destruct (Z.leb_spec (2 ^ (w - 1)) v); [lia|]. rewrite wraps_id by (unfold fits_s; lia). done.
Qed.

(** The three readers of an encoding, for each shape. *)
Ltac by_shape H :=
  destruct H as [v Hv|v Hv|v Hv|v Hv|v Hv|v Hv|s Hs|s Hs|s Hs].

(** Decides the tests on the first byte. *)
Ltac first_byte :=
  rewrite load_head; mstep;
  repeat match goal with
  | |- context [LP_ENCODING_IS_7BIT_UINT ?b] =>
      first [ let H := fresh in destruct (classes_7bit b) as [-> H]; [lia|]; try rewrite H
            | let H := fresh in destruct (classes_6bit b) as (-> & -> & H); [lia|]; try rewrite H
            | let H := fresh in destruct (classes_13bit b) as (-> & -> & -> & H); [lia|]; try rewrite H
            | let H := fresh in
              destruct (classes_12bit b) as [H _]; [lia|]; unfold classes in H;
              injection H as -> -> -> -> -> -> -> ->
            | change (LP_ENCODING_IS_7BIT_UINT b) with false; change (LP_ENCODING_IS_6BIT_STR b) with false;
              change (LP_ENCODING_IS_13BIT_INT b) with false ]
  end; mstep.

Lemma div_bound n d k : 0 <= n < d * k -> 0 < d -> 0 <= n / d < k.
Proof. intros Hn Hd. split; [apply Z.div_pos; lia|apply Z.div_lt_upper_bound; lia]. Qed.

Lemma size_unsafe v e pre rest :
  shape v e -> lpCurrentEncodedSizeUnsafe (pre ++ e ++ rest) (zlen pre) = Some (zlen e).
Proof.
  intros H. unfold lpCurrentEncodedSizeUnsafe. by_shape H; cbn [app].
  - first_byte. done.
  - pose proof (Z.mod_pos_bound v 8192 ltac:(lia)). pose proof (div_bound (v mod 8192) 256 32 ltac:(lia) ltac:(lia)).
    first_byte. done.
  - first_byte. done.
  - first_byte. done.
  - first_byte. done.
  - first_byte. done.
  - first_byte. f_equal. simpl. lia.
  - pose proof (div_bound (zlen s) 256 16 ltac:(lia) ltac:(lia)).
    first_byte. rewrite str12_len_app by lia. mstep. f_equal. simpl. lia.
  - first_byte. rewrite <- app_assoc, load_le_next. mstep. cbn -[Z.pow].
    rewrite Z.mod_small by lia. rewrite length_app, length_le_encode, wrapu_id by (unfold fits_u; lia). f_equal. lia.
Qed.

Lemma shape_length v e : shape v e -> (1 <= length e)%nat.
Proof. intros H. by_shape H; simpl; lia. Qed.

Lemma shape_not_eof v e pre rest :
  shape v e -> exists b, load (pre ++ e ++ rest) (zlen pre) = Some b /\ (b =? LP_EOF) = false.
Proof.
  unfold LP_EOF. intros H. by_shape H; cbn [app]; rewrite load_head; eexists; split; try done; apply Z.eqb_neq; try lia.
  - pose proof (Z.mod_pos_bound v 8192 ltac:(lia)). pose proof (div_bound (v mod 8192) 256 32 ltac:(lia) ltac:(lia)). lia.
  - pose proof (div_bound (zlen s) 256 16 ltac:(lia) ltac:(lia)). lia.
Qed.

Lemma size_bytes v e pre rest :
  shape v e ->
  exists n, lpCurrentEncodedSizeBytes (pre ++ e ++ rest) (zlen pre) = Some n /\ 1 <= n <= zlen e.
Proof.
  intros H. unfold lpCurrentEncodedSizeBytes. by_shape H; cbn [app].
  - first_byte. eexists. split; [done|simpl; lia].
  - pose proof (Z.mod_pos_bound v 8192 ltac:(lia)). pose proof (div_bound (v mod 8192) 256 32 ltac:(lia) ltac:(lia)).
    first_byte. eexists. split; [done|simpl; lia].
  - first_byte. eexists. split; [done|simpl; lia].
  - first_byte. eexists. split; [done|simpl; lia].
  - first_byte. eexists. split; [done|simpl; lia].
  - first_byte. eexists. split; [done|simpl; lia].
  - first_byte. eexists. split; [done|simpl; lia].
  - pose proof (div_bound (zlen s) 256 16 ltac:(lia) ltac:(lia)).
    first_byte. eexists. split; [done|simpl; lia].
  - first_byte. eexists. split; [done|]. cbn [length]. rewrite length_app, length_le_encode. lia.
Qed.

(** What [lpGetWithSize] returns for [v] at [p]. *)
Definition value_at (m : list Z) (v : lpv) (r : lp_value) : Prop :=
  match v, r with
  | VI v, LInt v' => v' = v
  | VS s, LStr ptr len => len = zlen s /\ load_bytes m ptr len = Some s
  | _, _ => False
  end.

Lemma get_with_size v e pre rest :
  shape v e ->
  exists r, lpGetWithSize (pre ++ e ++ rest) (zlen pre) = Some (r, Some (zlen e + backlen_size (zlen e))) /\
    value_at (pre ++ e ++ rest) v r.
Proof.
  intros H. unfold lpGetWithSize. by_shape H; cbn [app].
  - first_byte. eexists. split; [done|]. unfold to_signed, UINT64_MAX. cbn [value_at].
    destruct (Z.leb_spec (2 ^ 64 - 1) v); [lia|]. apply wraps_id; [lia|unfold fits_s; lia].
  - pose proof (Z.mod_pos_bound v 8192 ltac:(lia)) as Hm.
    pose proof (div_bound (v mod 8192) 256 32 ltac:(lia) ltac:(lia)).
    first_byte. rewrite load_next. mstep. eexists. split; [done|]. cbn [value_at].
    replace (192 + v mod 8192 / 256 - 192) with (v mod 8192 / 256) by lia.
    pose proof (Z.mod_pos_bound (v mod 8192) 256 ltac:(lia)).
    rewrite Z.shiftl_mul_pow2, lor_disjoint by (unfold fits_u; lia). change (2 ^ 8) with 256.
    replace (v mod 8192 / 256 * 256 + v mod 8192 mod 256) with (v mod 2 ^ 13)
      by (change (2 ^ 13) with 8192; pose proof (Z.div_mod (v mod 8192) 256 ltac:(lia)); lia).
    apply (to_signed_mod 13); [lia|done].
  - first_byte. rewrite load_le_next. mstep. eexists. split; [done|]. by apply (to_signed_mod 16).
  - first_byte. rewrite load_le_next. mstep. eexists. split; [done|]. by apply (to_signed_mod 24).
  - first_byte. rewrite load_le_next. mstep. eexists. split; [done|]. by apply (to_signed_mod 32).
  - first_byte. rewrite load_le_next. mstep. eexists. split; [done|]. by apply (to_signed_mod 64).
  - first_byte. replace (128 + zlen s - 128) with (zlen s) by lia. eexists. split.
    { do 3 f_equal. simpl. replace (Z.of_nat (S (length s))) with (zlen s + 1) by lia. lia. }
    split; [done|]. apply (load_str pre [_]). simpl. lia.
  - pose proof (div_bound (zlen s) 256 16 ltac:(lia) ltac:(lia)).
    first_byte. rewrite str12_len_app by lia. mstep. eexists. split.
    { do 3 f_equal. cbn [length]. replace (Z.of_nat (S (S (length s)))) with (zlen s + 2) by lia. lia. }
    split; [done|]. apply (load_str pre [_; _]). simpl. lia.
  - first_byte. rewrite <- app_assoc, load_le_next. mstep.
    change (8 * Z.of_nat 4) with 32. rewrite Z.mod_small by lia. eexists. split.
    { do 3 f_equal. cbn [length]. rewrite length_app, length_le_encode.
      replace (Z.of_nat (S (4 + length s))) with (zlen s + 5) by lia. lia. }
    split; [done|]. rewrite app_assoc. apply (load_str pre (0xF0 :: le_encode 4 (zlen s))).
    cbn [length]. rewrite length_le_encode. lia.
Qed.

(** ** The length of the entry before *)

Lemma backlen_size_bounds l : 1 <= backlen_size l <= 5.
Proof.
  unfold backlen_size, lpEncodeBacklen. destruct (l <=? 127); [simpl; lia|]. destruct (l <? 16383); [simpl; lia|].
  destruct (l <? 2097151); [simpl; lia|]. destruct (l <? 268435455); simpl; lia.
Qed.

Lemma decode_more fuel m p val shift d :
  load m p = Some (128 + d) -> 0 <= d < 128 -> 0 <= shift <= 21 -> fits_u shift val ->
  decode_backlen (S fuel) m p val shift = decode_backlen fuel m (p - 1) (val + d * 2 ^ shift) (shift + 7).
Proof.
  intros Hl Hd Hs Hv. cbn [decode_backlen]. rewrite Hl. mstep.
  pose proof (all_between_spec 0 128 (fun d => (Z.land (128 + d) 127 =? d) && (Z.land (128 + d) 128 =? 128)) d) as H.
  apply andb_true_iff in H as [->%Z.eqb_eq ->%Z.eqb_eq]; [|by vm_compute|done].
  rewrite Z.shiftl_mul_pow2, lor_add by (done || lia). change (128 =? 0) with false. cbn iota.
  destruct (Z.ltb_spec 28 (shift + 7)); [lia|]. f_equal. lia.
Qed.

Lemma decode_last fuel m p val shift d :
  load m p = Some d -> 0 <= d < 128 -> 0 <= shift -> fits_u shift val ->
  decode_backlen (S fuel) m p val shift = Some (val + d * 2 ^ shift).
Proof.
  intros Hl Hd Hs Hv. cbn [decode_backlen]. rewrite Hl. mstep.
  pose proof (all_between_spec 0 128 (fun d => (Z.land d 127 =? d) && (Z.land d 128 =? 0)) d) as H.
  apply andb_true_iff in H as [->%Z.eqb_eq ->%Z.eqb_eq]; [|by vm_compute|done].
  rewrite Z.shiftl_mul_pow2, lor_add by (done || lia). change (0 =? 0) with true. cbn iota. f_equal. lia.
Qed.

Lemma load_nth pre bs rest (j : nat) p b :
  bs !! j = Some b -> p = zlen pre + Z.of_nat j -> load (pre ++ bs ++ rest) p = Some b.
Proof.
  intros Hb ->. rewrite load_app, load_nat by lia. by apply lookup_app_l_Some.
Qed.

Lemma backlen_lo l k : Z.lor (Z.land (Z.shiftr l k) 127) 128 = 128 + Z.shiftr l k mod 128.
Proof.
  rewrite (Z.land_ones _ 7) by lia. change 128 with (1 * 2 ^ 7) at 1.
  pose proof (Z.mod_pos_bound (Z.shiftr l k) (2 ^ 7) ltac:(lia)). rewrite lor_add by lia. done.
Qed.

(** The digits of [l] in base 128. *)
Lemma digits_128 l k : 0 <= k -> Z.shiftr l k = Z.shiftr l (k + 7) * 128 + Z.shiftr l k mod 128.
Proof.
  intros. rewrite !Z.shiftr_div_pow2, Z.pow_add_r by lia. rewrite <- Z.div_div by lia.
  change (2 ^ 7) with 128. pose proof (Z.div_mod (l / 2 ^ k) 128 ltac:(lia)). lia.
Qed.

(** One turn of the decoder, on the byte [j] of the encoding. *)
Ltac backlen_byte H j :=
  erewrite H; [|eapply (load_nth _ _ _ j); [done|lia]|unfold fits_u; lia..].

Lemma decode_encode_backlen l pre rest p :
  0 <= l < 2 ^ 32 -> p = zlen pre + backlen_size l - 1 ->
  lpDecodeBacklen (pre ++ lpEncodeBacklen l ++ rest) p = Some l.
Proof.
  intros Hl ->. unfold lpDecodeBacklen, backlen_size, lpEncodeBacklen. rewrite !backlen_lo.
  pose proof (digits_128 l 0 ltac:(lia)) as H0. pose proof (digits_128 l 7 ltac:(lia)) as H7.
  pose proof (digits_128 l 14 ltac:(lia)) as H14. pose proof (digits_128 l 21 ltac:(lia)) as H21.
  pose proof (Z.mod_pos_bound (Z.shiftr l 0) 128 ltac:(lia)). pose proof (Z.mod_pos_bound (Z.shiftr l 7) 128 ltac:(lia)).
  pose proof (Z.mod_pos_bound (Z.shiftr l 14) 128 ltac:(lia)). pose proof (Z.mod_pos_bound (Z.shiftr l 21) 128 ltac:(lia)).
  cbn [Z.add] in *. rewrite Z.shiftr_0_r in *. set (d0 := l mod 128) in *. set (d1 := Z.shiftr l 7 mod 128) in *.
  set (d2 := Z.shiftr l 14 mod 128) in *. set (d3 := Z.shiftr l 21 mod 128) in *.
  change (0 + 7) with 7 in *. change (7 + 7) with 14 in *. change (14 + 7) with 21 in *. change (21 + 7) with 28 in *.
  destruct (Z.leb_spec l 127); [|destruct (Z.ltb_spec l 16383); [|destruct (Z.ltb_spec l 2097151);
    [|destruct (Z.ltb_spec l 268435455)]]]; cbn [length]; rewrite ?(wrapu_id 8) by (unfold fits_u; lia).
  - backlen_byte decode_last 0%nat. f_equal. lia.
  - backlen_byte decode_more 1%nat.
    backlen_byte decode_last 0%nat. f_equal. lia.
  - backlen_byte decode_more 2%nat.
    backlen_byte decode_more 1%nat.
    backlen_byte decode_last 0%nat. f_equal. lia.
  - backlen_byte decode_more 3%nat.
    backlen_byte decode_more 2%nat.
    backlen_byte decode_more 1%nat.
    backlen_byte decode_last 0%nat. f_equal. lia.
  - backlen_byte decode_more 4%nat.
    backlen_byte decode_more 3%nat.
    backlen_byte decode_more 2%nat.
    backlen_byte decode_more 1%nat.
    backlen_byte decode_last 0%nat. f_equal. lia.
Qed.

(** ** One entry *)

Lemma entry_length v : zlen (entry v) = zlen (enc v) + backlen_size (zlen (enc v)).
Proof. unfold entry, backlen_size. rewrite length_app. lia. Qed.

Lemma enc_length v : wf_lpv v -> 1 <= zlen (enc v).
Proof. intros H%enc_shape%shape_length. lia. Qed.

Lemma entry_app pre v rest : pre ++ entry v ++ rest = pre ++ enc v ++ lpEncodeBacklen (zlen (enc v)) ++ rest.
Proof. unfold entry. by rewrite <- app_assoc. Qed.

Lemma entry_size v pre rest :
  wf_lpv v -> lpCurrentEncodedSizeUnsafe (pre ++ entry v ++ rest) (zlen pre) = Some (zlen (enc v)).
Proof. intros Hv%enc_shape. rewrite entry_app. by eapply size_unsafe. Qed.

Lemma entry_skip v pre rest :
  wf_lpv v -> lpSkip (pre ++ entry v ++ rest) (zlen pre) = Some (zlen pre + zlen (entry v)).
Proof. intros Hv. unfold lpSkip. rewrite entry_size by done. mstep. by rewrite entry_length. Qed.

Lemma entry_not_eof v pre rest :
  wf_lpv v -> exists b, load (pre ++ entry v ++ rest) (zlen pre) = Some b /\ (b =? LP_EOF) = false.
Proof. intros Hv%enc_shape. rewrite entry_app. by eapply shape_not_eof. Qed.

Lemma entry_backlen v pre rest p :
  zlen (enc v) < 2 ^ 32 -> p = zlen pre + zlen (entry v) - 1 ->
  lpDecodeBacklen (pre ++ entry v ++ rest) p = Some (zlen (enc v)).
Proof.
  intros Hv ->. rewrite entry_app, app_assoc. apply decode_encode_backlen; [lia|].
  rewrite entry_length, length_app. lia.
Qed.

Lemma OUT_OF_RANGE_false bytes p : 6 <= p <= bytes - 1 -> OUT_OF_RANGE bytes p = false.
Proof. intros. unfold OUT_OF_RANGE, LP_HDR_SIZE. apply orb_false_iff. rewrite !Z.ltb_ge. lia. Qed.

Lemma entry_valid v pre rest bytes :
  wf_lpv v -> 6 <= zlen pre -> zlen pre + zlen (entry v) <= bytes - 1 -> bytes <= 2 ^ 32 ->
  lpValidateNext (pre ++ entry v ++ rest) (Some (zlen pre)) bytes
  = Some (Some (Some (zlen pre + zlen (entry v)))).
Proof.
  intros Hv Hp Hb Hs. cbn [lpValidateNext]. pose proof (enc_length v Hv). pose proof (backlen_size_bounds (zlen (enc v))).
  pose proof (entry_length v) as Hl. rewrite OUT_OF_RANGE_false by lia.
  destruct (entry_not_eof v pre rest Hv) as (b & -> & Hne). mstep. rewrite Hne.
  pose proof (size_bytes v (enc v) pre (lpEncodeBacklen (zlen (enc v)) ++ rest) (enc_shape v Hv)) as (n & Hn & Hnb).
  rewrite <- entry_app in Hn. rewrite Hn. mstep.
  destruct (Z.eqb_spec n 0); [lia|]. rewrite OUT_OF_RANGE_false by lia.
  rewrite entry_size by done. mstep. rewrite <- Hl. rewrite OUT_OF_RANGE_false by lia.
  rewrite entry_backlen by lia. mstep. rewrite wrapu_id by (unfold fits_u; lia).
  rewrite <- Hl, Z.eqb_refl. done.
Qed.

Lemma entry_assert v pre rest bytes :
  wf_lpv v -> 6 <= zlen pre -> zlen pre + zlen (entry v) <= bytes - 1 -> bytes <= 2 ^ 32 ->
  lpAssertValidEntry (pre ++ entry v ++ rest) bytes (zlen pre) = Some tt.
Proof. intros. unfold lpAssertValidEntry. by rewrite entry_valid. Qed.

(** ** Blocks *)

Definition body (vs : list lpv) : list Z := concat (entry <$> vs).

Definition hdr (total num : Z) : list Z := le_encode 4 total ++ le_encode 2 num.

Definition lp_total (vs : list lpv) : Z := 7 + zlen (body vs).

(** Where the entry after [vs] starts. *)
Definition off (vs : list lpv) : Z := 6 + zlen (body vs).

Definition lp_block (num : Z) (vs : list lpv) (slack : list Z) : list Z :=
  hdr (lp_total vs) num ++ body vs ++ LP_EOF :: slack.

(** The count in the header, unless it is marked unknown. *)
Definition count_ok (num : Z) (vs : list lpv) : Prop :=
  num = LP_HDR_NUMELE_UNKNOWN \/ num = zlen vs /\ num < LP_HDR_NUMELE_UNKNOWN.

Definition rep (m : list Z) (vs : list lpv) : Prop :=
  Forall wf_lpv vs /\ lp_total vs < 2 ^ 32 /\ exists num slack, count_ok num vs /\ m = lp_block num vs slack.

Lemma body_app a b : body (a ++ b) = body a ++ body b.
Proof. unfold body. by rewrite fmap_app, concat_app. Qed.

Lemma body_cons v b : body (v :: b) = entry v ++ body b.
Proof. done. Qed.

Lemma length_hdr t n : length (hdr t n) = 6%nat.
Proof. unfold hdr. by rewrite length_app, !length_le_encode. Qed.

Lemma off_pre t n vs : off vs = zlen (hdr t n ++ body vs).
Proof. unfold off. rewrite length_app, length_hdr. lia. Qed.

Lemma off_snoc a v : off (a ++ [v]) = off a + zlen (entry v).
Proof. unfold off. rewrite body_app, body_cons, !length_app. unfold body at 2. simpl. lia. Qed.

(** A block seen from one of its entries, and from its end. *)
Lemma block_at num a v b slack :
  lp_block num (a ++ v :: b) slack =
  (hdr (lp_total (a ++ v :: b)) num ++ body a) ++ entry v ++ body b ++ LP_EOF :: slack.
Proof. unfold lp_block. rewrite body_app, body_cons, <- !app_assoc. done. Qed.

Lemma block_end num vs slack :
  lp_block num vs slack = (hdr (lp_total vs) num ++ body vs) ++ LP_EOF :: slack.
Proof. unfold lp_block. by rewrite <- app_assoc. Qed.

Lemma lp_total_at a v b : lp_total (a ++ v :: b) = off a + zlen (entry v) + zlen (body b) + 1.
Proof. unfold lp_total, off. rewrite body_app, body_cons, !length_app. lia. Qed.

Lemma block_total num vs slack : lp_total vs < 2 ^ 32 -> lpGetTotalBytes (lp_block num vs slack) = Some (lp_total vs).
Proof.
  intros Ht. unfold lpGetTotalBytes, lp_block, hdr. rewrite <- app_assoc. etrans; [apply (load_le_app [])|].
  f_equal. apply Z.mod_small. unfold lp_total in *. cbn -[Z.pow]. lia.
Qed.

Lemma block_num num vs slack : 0 <= num < 65536 -> lpGetNumElements (lp_block num vs slack) = Some num.
Proof.
  intros Hn. unfold lpGetNumElements, lp_block, hdr. rewrite <- app_assoc.
  replace 4 with (zlen (le_encode 4 (lp_total vs))) by (by rewrite length_le_encode).
  rewrite load_le_app. f_equal. apply Z.mod_small. cbn -[Z.pow]. lia.
Qed.

Lemma count_ok_bound num vs : count_ok num vs -> 0 <= num < 65536.
Proof. unfold count_ok, LP_HDR_NUMELE_UNKNOWN. lia. Qed.
