(* ===== verification/ListpackNav.v ===== *)
(** * Listpacks: moving between entries

    The functions that walk over a block, on a block that holds a list. *)
From S2P Require Import Prelude Numconv NumconvSpec Listpack ListpackSpec.
From Stdlib Require Import ZArith Lia.
From stdpp Require Import prelude list.

#[local] Open Scope Z_scope.

(** The pointer to what follows [a]: NULL when nothing does. *)
Definition ptr_at (a b : list lpv) : option Z :=
  match b with [] => None | _ => Some (off a) end.

Section nav.
Context (num : Z) (vs : list lpv) (slack : list Z).
Context (Hwf : Forall wf_lpv vs) (Htotal : lp_total vs < 2 ^ 32) (Hnum : count_ok num vs).

Abbreviation m := (lp_block num vs slack).

Lemma wf_at a v b : vs = a ++ v :: b -> wf_lpv v.
Proof. intros E. pose proof Hwf as H. rewrite E in H. apply Forall_app in H as [_ Hb]. by inversion Hb. Qed.

Lemma off_ge a : 6 <= off a.
Proof. unfold off. lia. Qed.

Lemma total_off a b : vs = a ++ b -> lp_total vs = off a + zlen (body b) + 1.
Proof. intros E. rewrite E. unfold lp_total, off. rewrite body_app, length_app. lia. Qed.

(** The entry after [a], or the end. *)
Lemma load_entry a v b : vs = a ++ v :: b -> exists x, load m (off a) = Some x /\ (x =? LP_EOF) = false.
Proof.
  intros E. pose proof (wf_at a v b E) as Hv. rewrite E, block_at, (off_pre (lp_total (a ++ v :: b)) num a).
  by apply entry_not_eof.
Qed.

Lemma load_end a : vs = a -> load m (off a) = Some LP_EOF.
Proof. intros E. rewrite <- E, block_end, (off_pre (lp_total vs) num vs). apply load_head. Qed.

Lemma assert_entry a v b : vs = a ++ v :: b -> lpAssertValidEntry m (lp_total vs) (off a) = Some tt.
Proof.
  intros E. pose proof (wf_at a v b E) as Hv. pose proof (lp_total_at a v b) as Ht. rewrite <- E in Ht.
  pose proof (off_ge a). rewrite E, block_at. rewrite <- E. rewrite (off_pre (lp_total vs) num a) in *.
  apply entry_assert; [done|lia..].
Qed.

Lemma skip_entry a v b : vs = a ++ v :: b -> lpSkip m (off a) = Some (off (a ++ [v])).
Proof.
  intros E. rewrite off_snoc, E, block_at, (off_pre (lp_total (a ++ v :: b)) num a).
  apply entry_skip. by eapply wf_at.
Qed.

(** What [lpFirst] and [lpNext] do with the place they reach. *)
Lemma arrive a b :
  vs = a ++ b ->
  (x ← load m (off a);
   if x =? LP_EOF then Some None
   else bytes ← lpBytes m; _ ← lpAssertValidEntry m bytes (off a); Some (Some (off a))) = Some (ptr_at a b).
Proof.
  intros E. destruct b as [|v b].
  - rewrite app_nil_r in E. by rewrite load_end.
  - destruct (load_entry a v b E) as (x & -> & Hx). mstep. rewrite Hx.
    unfold lpBytes. rewrite block_total by done. mstep. by rewrite (assert_entry a v b).
Qed.

Lemma lpFirst_at : lpFirst m = Some (ptr_at [] vs).
Proof. by apply (arrive []). Qed.

Lemma lpNext_at a v b : vs = a ++ v :: b -> lpNext m (off a) = Some (ptr_at (a ++ [v]) b).
Proof.
  intros E. unfold lpNext. rewrite (skip_entry a v b) by done. mstep.
  apply arrive. by rewrite <- app_assoc.
Qed.

Lemma lpPrev_at a v b : vs = a ++ v :: b -> lpPrev m (off (a ++ [v])) = Some (Some (off a)).
Proof.
  intros E. pose proof (wf_at a v b E) as Hv. pose proof (enc_length v Hv).
  pose proof (entry_length v) as Hl. pose proof (backlen_size_bounds (zlen (enc v))).
  pose proof (lp_total_at a v b) as Ht. rewrite <- E in Ht. pose proof (off_ge a).
  unfold lpPrev. rewrite off_snoc. unfold LP_HDR_SIZE. destruct (Z.eqb_spec (off a + zlen (entry v)) 6); [lia|].
  assert (Hdec : lpDecodeBacklen m (off a + zlen (entry v) - 1) = Some (zlen (enc v))).
  { rewrite E, block_at. apply entry_backlen; [lia|]. by rewrite <- off_pre. }
  rewrite Hdec. mstep. rewrite wrapu_id by (unfold fits_u; lia).
  unfold lpBytes. rewrite block_total by done. mstep. rewrite <- Hl.
  replace (off a + zlen (entry v) - 1 - (zlen (entry v) - 1)) with (off a) by lia.
  by rewrite (assert_entry a v b).
Qed.

Lemma lpPrev_first : lpPrev m (off []) = Some None.
Proof. done. Qed.

Lemma lpLast_nil : vs = [] -> lpLast m = Some None.
Proof. intros E. unfold lpLast. rewrite block_total by done. mstep. by rewrite E. Qed.

Lemma lpLast_at a v : vs = a ++ [v] -> lpLast m = Some (Some (off a)).
Proof.
  intros E. unfold lpLast. rewrite block_total by done. mstep.
  replace (lp_total vs - 1) with (off (a ++ [v])) by (rewrite <- E; unfold lp_total, off; lia).
  by apply (lpPrev_at a v []).
Qed.

(** ** Lengths *)

Lemma body_count b : Forall wf_lpv b -> zlen b <= zlen (body b).
Proof.
  induction 1 as [|v b Hv _ IH]; [done|]. rewrite body_cons, length_app, Nat2Z.inj_add, entry_length. cbn [length].
  pose proof (enc_length v Hv). pose proof (backlen_size_bounds (zlen (enc v))). lia.
Qed.

Lemma count_fuel : (length vs <= length m)%nat.
Proof. pose proof (body_count vs Hwf). unfold lp_block. rewrite !length_app. simpl. lia. Qed.

Lemma length_loop_at a b fuel :
  vs = a ++ b -> (length b <= fuel)%nat ->
  length_loop fuel m (ptr_at a b) (zlen a) = Some (zlen vs).
Proof.
  revert a fuel. induction b as [|v b IH]; intros a fuel E Hf.
  - rewrite app_nil_r in E. subst a. by destruct fuel.
  - destruct fuel as [|fuel]; [simpl in Hf; lia|]. cbn [ptr_at length_loop].
    rewrite (lpNext_at a v b) by done. mstep.
    pose proof (body_count vs Hwf) as Hc. assert (zlen vs = zlen a + zlen b + 1) by (rewrite E, length_app; simpl; lia).
    rewrite wrapu_id by (unfold fits_u, lp_total in *; lia).
    replace (zlen a + 1) with (zlen (a ++ [v])) by solve_len.
    apply IH; [by rewrite <- app_assoc|simpl in Hf; lia].
Qed.

(** Rewriting the fields of the header. *)
Lemma set_num n : lpSetNumElements m n = Some (lp_block (n mod 65536) vs slack).
Proof.
  unfold lpSetNumElements, lp_block, hdr. rewrite <- !app_assoc.
  replace 4 with (zlen (le_encode 4 (lp_total vs))) by (by rewrite length_le_encode).
  rewrite store_bytes_app by (by rewrite !length_le_encode). do 3 f_equal.
  apply le_encode_mod. change (2 ^ (8 * Z.of_nat 2)) with 65536. by rewrite Z.mod_mod.
Qed.

Lemma lpLength_at :
  exists num', lpLength m = Some (zlen vs, lp_block num' vs slack) /\ count_ok num' vs.
Proof.
  pose proof (count_ok_bound _ _ Hnum) as Hb. unfold lpLength. rewrite block_num by done. mstep.
  destruct Hnum as [Hu|[Hn Hlt]]; cycle 1.
  { exists num. destruct (Z.eqb_spec num LP_HDR_NUMELE_UNKNOWN); [lia|]. cbn [negb]. rewrite <- Hn.
    split; [done|right; done]. }
  rewrite (proj2 (Z.eqb_eq num _) Hu). cbn [negb]. rewrite lpFirst_at. mstep.
  rewrite (length_loop_at []) by (done || apply count_fuel). mstep.
  destruct (Z.ltb_spec (zlen vs) LP_HDR_NUMELE_UNKNOWN) as [Hlt|].
  - rewrite set_num. mstep. unfold LP_HDR_NUMELE_UNKNOWN in *.
    rewrite Z.mod_small by lia. eexists. split; [done|]. right. unfold LP_HDR_NUMELE_UNKNOWN. lia.
  - mstep. eexists. split; [done|]. by left.
Qed.

(** ** Seeking *)

Lemma seek_forward_at a b fuel (i : nat) :
  vs = a ++ b -> (length b <= fuel)%nat ->
  seek_forward fuel m (Z.of_nat i) (ptr_at a b) = Some (ptr_at (a ++ take i b) (drop i b)).
Proof.
  revert a i fuel. induction b as [|v b IH]; intros a i fuel E Hf.
  - rewrite take_nil, drop_nil. by destruct fuel.
  - destruct fuel as [|fuel]; [simpl in Hf; lia|]. cbn [ptr_at seek_forward].
    destruct i as [|i].
    + cbn [take drop]. by rewrite app_nil_r.
    + destruct (Z.ltb_spec 0 (Z.of_nat (S i))); [|lia]. rewrite (lpNext_at a v b) by done. mstep.
      replace (Z.of_nat (S i) - 1) with (Z.of_nat i) by lia.
      rewrite IH; [|by rewrite <- app_assoc|simpl in Hf; lia]. cbn [take drop]. by rewrite <- app_assoc.
Qed.

(** [i] steps to the left of the entry after [a]. *)
Lemma seek_backward_at a v b fuel (i : nat) :
  vs = a ++ v :: b -> (length a < fuel)%nat ->
  seek_backward fuel m (-1 - Z.of_nat i) (Some (off a)) =
  Some (if (i <=? length a)%nat then Some (off (take (length a - i) a)) else None).
Proof.
  revert v b i fuel. induction a as [|w a IH] using rev_ind; intros v b i fuel E Hf;
    (destruct fuel as [|fuel]; [lia|]); cbn [seek_backward].
  - destruct i as [|i]; [done|]. destruct (Z.ltb_spec (-1 - Z.of_nat (S i)) (-1)); [|lia].
    rewrite lpPrev_first. mstep. by destruct fuel.
  - destruct i as [|i].
    { rewrite Nat.sub_0_r, firstn_all. by destruct (Z.ltb_spec (-1 - Z.of_nat 0) (-1)); [lia|]. }
    destruct (Z.ltb_spec (-1 - Z.of_nat (S i)) (-1)); [|lia]. rewrite <- app_assoc in E.
    rewrite (lpPrev_at a w (v :: b)) by done. mstep.
    replace (-1 - Z.of_nat (S i) + 1) with (-1 - Z.of_nat i) by lia.
    rewrite length_app in *. simpl in Hf. rewrite (IH w (v :: b)) by (done || lia). cbn [length].
    replace (length a + 1 - S i)%nat with (length a - i)%nat by lia.
    rewrite take_app_le by lia. replace (S i <=? length a + 1)%nat with (i <=? length a)%nat; [done|].
    apply eq_true_iff_eq. rewrite !Nat.leb_le. lia.
Qed.

(** The position of an index: from the left, or from the right when it is
    negative; NULL when it is out of range. *)
Definition seek_result (index : Z) : option Z :=
  let i := if index <? 0 then zlen vs + index else index in
  if (0 <=? i) && (i <? zlen vs) then Some (off (take (Z.to_nat i) vs)) else None.

Lemma seek_from_left i :
  0 <= i -> seek_from m true i = Some (if i <? zlen vs then Some (off (take (Z.to_nat i) vs)) else None).
Proof.
  intros Hi. unfold seek_from. rewrite lpFirst_at. mstep.
  rewrite <- (Z2Nat.id i) at 1 by done. rewrite seek_forward_at by (done || apply count_fuel). f_equal. cbn [app].
  destruct (Z.ltb_spec i (zlen vs)).
  - destruct (drop (Z.to_nat i) vs) eqn:Ed; [|done]. apply (f_equal length) in Ed. rewrite length_drop in Ed. simpl in Ed. lia.
  - by rewrite drop_ge by lia.
Qed.

Lemma seek_from_right i :
  i < 0 -> seek_from m false i = Some (if 0 <=? zlen vs + i then Some (off (take (Z.to_nat (zlen vs + i)) vs)) else None).
Proof.
  intros Hi. unfold seek_from. pose proof count_fuel as Hfuel. set (a0 := vs) in Hfuel.
  destruct (list_eq_nil_dec vs) as [E|(a & v & E)%exists_last].
  - rewrite lpLast_nil by done. mstep. rewrite E. cbn [length] in *.
    destruct (Z.leb_spec 0 (Z.of_nat 0 + i)); [lia|]. by destruct (length _).
  - rewrite (lpLast_at a v E). mstep. assert (Hl : zlen vs = zlen a + 1) by (rewrite E, length_app; simpl; lia).
    replace i with (-1 - Z.of_nat (Z.to_nat (-1 - i))) at 1 by lia.
    rewrite (seek_backward_at a v []) by (done || unfold a0 in Hfuel; lia). f_equal.
    destruct (Nat.leb_spec (Z.to_nat (-1 - i)) (length a)).
    + destruct (Z.leb_spec 0 (zlen vs + i)); [|lia]. rewrite E at 2.
      rewrite take_app_le by lia. do 3 f_equal. lia.
    + destruct (Z.leb_spec 0 (zlen vs + i)); [lia|done].
Qed.

Lemma lpSeek_at index : lpSeek m index = Some (seek_result index).
Proof.
  pose proof (count_ok_bound _ _ Hnum) as Hb. unfold lpSeek, seek_result. rewrite block_num by done. mstep.
  destruct Hnum as [Hu|[Hn Hlt]].
  - rewrite (proj2 (Z.eqb_eq num _) Hu). cbn [negb]. destruct (Z.ltb_spec index 0); cbn [negb].
    + rewrite seek_from_right by done. destruct (Z.leb_spec 0 (zlen vs + index)); [|done].
      by destruct (Z.ltb_spec (zlen vs + index) (zlen vs)); [|lia].
    + rewrite seek_from_left by done. by destruct (Z.leb_spec 0 index); [|lia].
  - destruct (Z.eqb_spec num LP_HDR_NUMELE_UNKNOWN); [lia|]. cbn [negb]. rewrite <- Hn.
    set (i := if index <? 0 then num + index else index).
    destruct (Z.ltb_spec i 0); [by destruct (Z.leb_spec 0 i); [lia|]|]. destruct (Z.leb_spec 0 i); [|lia].
    destruct (Z.leb_spec num i), (Z.ltb_spec i num); try lia; [done|]. cbn [andb]. destruct (num / 2 <? i).
    + rewrite seek_from_right by lia. replace (zlen vs + (i - num)) with i by lia. by destruct (Z.leb_spec 0 i); [|lia].
    + rewrite seek_from_left by lia. by destruct (Z.ltb_spec i (zlen vs)); [|lia].
Qed.

(** ** Reading *)

Lemma get_at a v b :
  vs = a ++ v :: b ->
  exists r, lpGetWithSize m (off a) = Some (r, Some (zlen (entry v))) /\ value_at m v r.
Proof.
  intros E. pose proof (wf_at a v b E) as Hv. rewrite E, block_at, (off_pre (lp_total (a ++ v :: b)) num a), entry_length.
  rewrite entry_app. apply get_with_size, enc_shape, Hv.
Qed.
End nav.

(** The text of an element. *)
Definition text (v : lpv) : list Z :=
  match v with
  | VI v => decimal_signed v
  | VS s => s
  end.

Lemma lpGet_intbuf_at num vs slack a v b intbuf :
  Forall wf_lpv vs -> vs = a ++ v :: b -> (LP_INTBUF_SIZE <= length intbuf)%nat ->
  lpGet_intbuf (lp_block num vs slack) intbuf (off a) = Some (text v).
Proof.
  intros Hwf E Hb. destruct (get_at num vs slack Hwf a v b E) as (r & Hg & Hr). unfold lpGet_intbuf, lpGet.
  rewrite Hg. cbn [mbind option_bind fst]. pose proof (wf_at vs Hwf a v b E) as Hv.
  destruct v as [v|s], r as [ptr len|val]; try done; cbn [value_at] in Hr.
  - subst val. unfold LP_INTBUF_SIZE in Hb. pose proof (decimal_signed_length v Hv) as Hl. unfold LONG_STR_SIZE in Hl.
    rewrite ll2string_spec by (done || lia). by rewrite Nat2Z.id, take_app_length.
  - destruct Hr as [-> ->]. done.
Qed.
