(* ===== verification/ListpackFind.v ===== *)
(** * Listpacks: comparing, finding and validating entries *)
From S2P Require Import Prelude Numconv NumconvSpec Listpack ListpackSpec ListpackNav.
From Stdlib Require Import ZArith Lia.
From stdpp Require Import prelude list.

#[local] Open Scope Z_scope.

(** The copy of [string2ll] in listpack.c is the same function. *)
Lemma int64_loop_string2ll p v : int64_loop p v = string2ll_loop p v.
Proof. revert v. induction p as [|c p IH]; intros v; [done|]. cbn [int64_loop string2ll_loop]. by rewrite IH. Qed.

Lemma lpStringToInt64_string2ll s : lpStringToInt64 s = string2ll s.
Proof.
  unfold lpStringToInt64, string2ll. destruct s as [|c0 s]; [done|].
  destruct (if c0 =? 45 then tail (c0 :: s) else c0 :: s); [done|]. by rewrite int64_loop_string2ll.
Qed.

Lemma lpStringToInt64_spec s v : lpStringToInt64 s = Some v <-> fits_s 64 v /\ s = decimal_signed v.
Proof. rewrite lpStringToInt64_string2ll. apply string2ll_spec. Qed.

(** Comparing an integer element with a text. *)
Lemma int_text v s :
  fits_s 64 v -> match lpStringToInt64 s with Some sval => v =? sval | None => false end = bool_decide (decimal_signed v = s).
Proof.
  intros Hv. destruct (lpStringToInt64 s) as [w|] eqn:Hw.
  - apply lpStringToInt64_spec in Hw as [Hw ->]. destruct (Z.eqb_spec v w) as [->|Hne].
    + by rewrite bool_decide_true.
    + rewrite bool_decide_false; [done|]. intros Heq.
      assert (string2ll (decimal_signed v) = Some v) as H1 by (by apply string2ll_spec).
      assert (string2ll (decimal_signed w) = Some w) as H2 by (by apply string2ll_spec). congruence.
  - rewrite bool_decide_false; [done|]. intros <-.
    rewrite (proj2 (lpStringToInt64_spec _ v)) in Hw; done.
Qed.

Lemma vencode_int s v :
  fits_s 64 v -> match vencode V_unknown s with V_int vll => v =? vll | _ => false end = bool_decide (decimal_signed v = s).
Proof.
  intros Hv. rewrite <- int_text by done. cbn [vencode].
  destruct (Z.leb_spec 32 (zlen s)); cbn [orb].
  { unfold lpStringToInt64, LONG_STR_SIZE. destruct (Z.leb_spec 21 (zlen s)); [|lia]. by rewrite orb_true_r. }
  destruct (Z.eqb_spec (zlen s) 0) as [H0|]; [|by destruct (lpStringToInt64 s)].
  destruct s; [done|simpl in H0; lia].
Qed.

Section find.
Context (num : Z) (vs : list lpv) (slack : list Z).
Context (Hwf : Forall wf_lpv vs) (Htotal : lp_total vs < 2 ^ 32).

Abbreviation m := (lp_block num vs slack).

Lemma same_bytes_at t r s ptr :
  r = LStr ptr (zlen t) -> load_bytes m ptr (zlen t) = Some t ->
  (if zlen s =? zlen t then same_bytes m ptr s else Some false) = Some (bool_decide (t = s)).
Proof.
  intros _ Ht. destruct (Z.eqb_spec (zlen s) (zlen t)) as [He|Hne].
  - unfold same_bytes. rewrite He, Ht. done.
  - rewrite bool_decide_false; [done|]. intros ->. done.
Qed.

Lemma lpCompare_at a v b s :
  vs = a ++ v :: b -> lpCompare m (off a) s = Some (bool_decide (text v = s)).
Proof.
  intros E. unfold lpCompare, lpGet. destruct (load_entry num vs slack Hwf a v b E) as (x & -> & Hx). mstep.
  rewrite Hx. destruct (get_at num vs slack Hwf a v b E) as (r & -> & Hr). cbn [mbind option_bind fst].
  pose proof (wf_at vs Hwf a v b E) as Hv. destruct v as [v|t], r as [ptr len|val]; try done; cbn [value_at] in Hr.
  - subst val. by rewrite int_text.
  - destruct Hr as [-> Ht]. by eapply same_bytes_at.
Qed.

Definition venc_ok (s : list Z) (v : vencoding) : Prop := v = V_unknown \/ v = vencode V_unknown s.

Lemma venc_ok_step s v : venc_ok s v -> vencode v s = vencode V_unknown s.
Proof. intros [->| ->]; [done|]. destruct (vencode V_unknown s) eqn:E; [exact E|done|done]. Qed.

Lemma find_entry_at a v b s ve es :
  vs = a ++ v :: b -> venc_ok s ve ->
  exists ve', find_entry m (lp_total vs) (off a) s ve es = Some (bool_decide (text v = s), ve', zlen (entry v)) /\
    venc_ok s ve'.
Proof.
  intros E Hve. unfold find_entry. destruct (get_at num vs slack Hwf a v b E) as (r & -> & Hr). cbn [mbind option_bind default from_option id].
  pose proof (wf_at vs Hwf a v b E) as Hv. pose proof (lp_total_at a v b) as Ht. rewrite <- E in Ht. pose proof (off_ge a).
  destruct v as [v|t], r as [ptr len|val]; try done; cbn [value_at] in Hr.
  - subst val. rewrite venc_ok_step by done. rewrite vencode_int by done. eexists. split; [done|]. by right.
  - destruct Hr as [-> Hl]. unfold LP_HDR_SIZE. destruct (Z.leb_spec 6 (off a)); [|lia].
    destruct (Z.ltb_spec (off a + zlen (entry (VS t))) (lp_total vs)); [|lia]. cbn [andb negb].
    rewrite (same_bytes_at t (LStr ptr (zlen t)) s ptr) by done. mstep. exists ve. split; [reflexivity|exact Hve].
Qed.

(** The first entry with the text [s], looking at one in [skip + 1]. *)
Fixpoint find_ref (s : list Z) (skip skipcnt : nat) (a b : list lpv) : option Z :=
  match b with
  | [] => None
  | v :: b =>
      match skipcnt with
      | O => if bool_decide (text v = s) then Some (off a) else find_ref s skip skip (a ++ [v]) b
      | S k => find_ref s skip k (a ++ [v]) b
      end
  end.

(** The check after a step, which also accepts the end. *)
Lemma find_check a b :
  vs = a ++ b ->
  (if lp_total vs <=? off a + 8 then lpAssertValidEntry m (lp_total vs) (off a)
   else if (LP_HDR_SIZE <=? off a) && (off a <? lp_total vs) then Some tt else None) = Some tt.
Proof.
  intros E. pose proof (total_off vs a b E) as Ht. pose proof (off_ge a). unfold LP_HDR_SIZE.
  destruct (Z.leb_spec (lp_total vs) (off a + 8)).
  - destruct b as [|v b]; [|by apply (assert_entry num vs slack Hwf Htotal a v b)].
    rewrite app_nil_r in E. unfold lpAssertValidEntry. cbn [lpValidateNext].
    rewrite OUT_OF_RANGE_false by lia. rewrite load_end by done. done.
  - destruct (Z.leb_spec 6 (off a)); [|lia]. by destruct (Z.ltb_spec (off a) (lp_total vs)); [|lia].
Qed.

Lemma find_loop_at s skip b : forall a v skipcnt fuel ve es,
  vs = a ++ v :: b -> (length b < fuel)%nat -> venc_ok s ve ->
  find_loop fuel m (lp_total vs) (off a) s (Z.of_nat skip) (Z.of_nat skipcnt) ve es
  = Some (find_ref s skip skipcnt a (v :: b)).
Proof.
  induction b as [|w b IH]; intros a v skipcnt fuel ve es E Hf Hve; (destruct fuel as [|fuel]; [lia|]);
    cbn [find_loop find_ref].
  all: destruct skipcnt as [|k].
  all: try (destruct (Z.eqb_spec (Z.of_nat (S k)) 0); [lia|];
    rewrite (skip_entry num vs slack Hwf a v _ E); mstep).
  all: try (change (Z.of_nat 0 =? 0) with true; cbn iota;
    destruct (find_entry_at a v _ s ve es E Hve) as (ve' & -> & Hve'); mstep;
    destruct (bool_decide (text v = s)); [done|]; rewrite <- off_snoc).
  all: rewrite (find_check (a ++ [v]) _) by (by rewrite E, <- app_assoc); mstep.
  1,2: rewrite load_end by (by rewrite E); done.
  all: assert (E2 : vs = (a ++ [v]) ++ w :: b) by (by rewrite <- app_assoc);
    destruct (load_entry num vs slack Hwf (a ++ [v]) w b E2) as (x & -> & Hx); mstep; rewrite Hx.
  - apply IH; [done|simpl in Hf; lia|done].
  - replace (Z.of_nat (S k) - 1) with (Z.of_nat k) by lia. apply IH; [done|simpl in Hf; lia|done].
Qed.

(** ** Validation *)

Lemma validate_loop_at a b fuel :
  vs = a ++ b -> (length b <= fuel)%nat ->
  validate_loop fuel m (lp_total vs) num None (Some (off a)) (zlen a) = Some (Some (Some (off vs), zlen vs)).
Proof.
  revert a fuel. induction b as [|v b IH]; intros a fuel E Hf.
  - rewrite app_nil_r in E. subst a. assert (load m (off vs) = Some LP_EOF) as Hl by (by apply load_end).
    destruct fuel; cbn [validate_loop]; rewrite Hl; done.
  - destruct fuel as [|fuel]; [simpl in Hf; lia|]. cbn [validate_loop].
    destruct (load_entry num vs slack Hwf a v b E) as (x & -> & Hx). mstep. rewrite Hx.
    pose proof (wf_at vs Hwf a v b E) as Hv. pose proof (lp_total_at a v b) as Ht. rewrite <- E in Ht.
    assert (Hval : lpValidateNext m (Some (off a)) (lp_total vs) = Some (Some (Some (off (a ++ [v]))))).
    { pose proof (off_ge a). rewrite off_snoc, E, block_at. rewrite <- E. rewrite (off_pre (lp_total vs) num a) in *.
      apply entry_valid; [done|lia..]. }
    rewrite Hval. mstep. pose proof (body_count vs Hwf).
    assert (zlen vs = zlen a + zlen b + 1) by (rewrite E, length_app; simpl; lia).
    rewrite wrapu_id by (unfold fits_u, lp_total in *; lia).
    replace (zlen a + 1) with (zlen (a ++ [v])) by solve_len.
    apply IH; [by rewrite <- app_assoc|simpl in Hf; lia].
Qed.

Lemma lpValidateIntegrity_at deep :
  count_ok num vs -> lpValidateIntegrity m (lp_total vs) deep None = Some true.
Proof.
  intros Hnum. unfold lpValidateIntegrity, LP_HDR_SIZE. destruct (Z.ltb_spec (lp_total vs) (6 + 1)).
  { unfold lp_total in *. lia. }
  rewrite block_total by done. mstep. rewrite Z.eqb_refl. cbn [negb].
  replace (lp_total vs - 1) with (off vs) by (unfold lp_total, off; lia).
  rewrite load_end by done. mstep. destruct deep; [|done]. cbn [negb Z.eqb].
  rewrite block_num by (by eapply count_ok_bound). mstep.
  rewrite (validate_loop_at [] vs) by (done || by apply count_fuel). mstep.
  rewrite bool_decide_true by done. cbn [negb].
  destruct Hnum as [->|[<- _]]; [done|]. rewrite !Z.eqb_refl. by destruct (negb (num =? LP_HDR_NUMELE_UNKNOWN)).
Qed.
End find.

(** The indices [find_ref] looks at. *)
Definition looked (skip k j : nat) : Prop := exists n, j = (k + n * S skip)%nat.

Lemma find_ref_spec s skip b : forall a k,
  match find_ref s skip k a b with
  | Some q =>
      exists j v, looked skip k j /\ b !! j = Some v /\ text v = s /\ q = off (a ++ take j b) /\
        forall i w, (i < j)%nat -> looked skip k i -> b !! i = Some w -> text w <> s
  | None => forall i w, looked skip k i -> b !! i = Some w -> text w <> s
  end.
Proof.
  induction b as [|v b IH]; intros a k; cbn [find_ref]; [done|].
  assert (Hstep : forall k', (k = 0 /\ k' = skip \/ k = S k')%nat -> (k = 0%nat -> text v <> s) ->
    match find_ref s skip k' (a ++ [v]) b with
    | Some q => exists j w, looked skip k j /\ (v :: b) !! j = Some w /\ text w = s /\ q = off (a ++ take j (v :: b)) /\
        forall i w, (i < j)%nat -> looked skip k i -> (v :: b) !! i = Some w -> text w <> s
    | None => forall i w, looked skip k i -> (v :: b) !! i = Some w -> text w <> s
    end).
  { intros k' Hk Hv. specialize (IH (a ++ [v]) k').
    assert (Hup : forall j, looked skip k' j -> looked skip k (S j)).
    { intros j [n ->]. destruct Hk as [[-> ->]| ->]; [exists (S n)|exists n]; lia. }
    assert (Hdown : forall j, looked skip k (S j) -> looked skip k' j).
    { intros j [n Hj]. destruct Hk as [[-> ->]| ->]; [destruct n as [|n]; [lia|]|]; exists n; lia. }
    assert (H0 : looked skip k 0 -> k = 0%nat) by (intros [n Hn]; lia).
    destruct (find_ref s skip k' (a ++ [v]) b) as [q|].
    - destruct IH as (j & w & Hj & Hw & Ht & -> & Hfirst). exists (S j), w.
      split_and!; [by apply Hup|done|done|by rewrite <- app_assoc|].
      intros [|i] w' Hi Hl; cbn; [intros [= <-]; by apply Hv, H0|]. apply Hfirst; [lia|by apply Hdown].
    - intros [|i] w' Hl; cbn; [intros [= <-]; by apply Hv, H0|]. apply IH. by apply Hdown. }
  destruct k as [|k]; [|apply Hstep; [by right|done]].
  destruct (bool_decide_reflect (text v = s)) as [Ht|Ht].
  - exists 0%nat, v. split_and!; [by exists 0%nat|done|done|by rewrite app_nil_r|lia].
  - apply Hstep; [by left|done].
Qed.
