(* ===== verification/ListpackOps.v ===== *)
(** * Listpacks: updates

    Insertion, replacement and deletion rewrite the block in place; each
    leaves a block that holds the updated list. *)
From S2P Require Import Prelude Numconv NumconvSpec Listpack ListpackSpec ListpackNav ListpackFind.
From Stdlib Require Import ZArith Lia.
From stdpp Require Import prelude list.

#[local] Open Scope Z_scope.

(** ** The header *)

Lemma hdr_num t num rest : 0 <= num < 65536 -> lpGetNumElements (hdr t num ++ rest) = Some num.
Proof.
  intros Hn. unfold lpGetNumElements, hdr. rewrite <- app_assoc.
  replace 4 with (zlen (le_encode 4 t)) by (by rewrite length_le_encode).
  rewrite load_le_app. f_equal. by apply Z.mod_small.
Qed.

Lemma hdr_total t num rest : 0 <= t < 2 ^ 32 -> lpGetTotalBytes (hdr t num ++ rest) = Some t.
Proof.
  intros Ht. unfold lpGetTotalBytes, hdr. rewrite <- app_assoc. etrans; [apply (load_le_app [])|].
  f_equal. by apply Z.mod_small.
Qed.

Lemma hdr_set_num t num n rest : lpSetNumElements (hdr t num ++ rest) n = Some (hdr t n ++ rest).
Proof.
  unfold lpSetNumElements, hdr. rewrite <- !app_assoc.
  replace 4 with (zlen (le_encode 4 t)) by (by rewrite length_le_encode).
  by rewrite store_bytes_app by (by rewrite !length_le_encode).
Qed.

Lemma hdr_set_total t num t' rest : lpSetTotalBytes (hdr t num ++ rest) t' = Some (hdr t' num ++ rest).
Proof.
  unfold lpSetTotalBytes, hdr. rewrite <- !app_assoc.
  apply (store_bytes_app []). by rewrite !length_le_encode.
Qed.

Lemma insert_header_at t num rest ele w t' :
  0 <= num < 65536 ->
  insert_header (hdr t num ++ rest) ele w t' =
  Some (hdr t' (if (negb (is_replace w) || del_ele ele) && negb (num =? LP_HDR_NUMELE_UNKNOWN)
                then if del_ele ele then num - 1 else num + 1 else num) ++ rest).
Proof.
  intros Hn. unfold insert_header. destruct (negb (is_replace w) || del_ele ele); cbn [andb].
  - rewrite hdr_num by done. mstep. destruct (negb (num =? LP_HDR_NUMELE_UNKNOWN)).
    + rewrite hdr_set_num. mstep. apply hdr_set_total.
    + apply hdr_set_total.
  - apply hdr_set_total.
Qed.

(** ** Moving the tail *)

Section ops.
Context (usable : Z -> Z) (junk : Z) (Husable : forall n, n <= usable n).

Lemma lp_realloc_prefix Q S n :
  zlen Q <= n -> exists S', lp_realloc usable junk (Q ++ S) n = Q ++ S' /\ usable n = zlen (Q ++ S').
Proof.
  intros Hn. pose proof (Husable n). unfold lp_realloc, realloc. rewrite take_app_ge by lia. rewrite <- app_assoc.
  eexists. split; [done|]. rewrite !length_app, length_take, length_replicate. lia.
Qed.

Lemma move_tail P R B S n :
  0 <= n -> zlen P + n + zlen B <= zlen (P ++ R ++ B ++ S) ->
  exists X S', move_bytes (P ++ R ++ B ++ S) (zlen P + n) (zlen P + zlen R) (zlen B) = Some (P ++ X ++ B ++ S') /\
    zlen X = n.
Proof.
  intros Hn Hlen. unfold move_bytes.
  rewrite <- Nat2Z.inj_add, <- length_app, (app_assoc P R), load_bytes_app by done.
  mstep. rewrite <- app_assoc in *. unfold store_bytes. rewrite inside_true by lia.
  unfold mem_write. replace (Z.to_nat (zlen P + n)) with (length P + Z.to_nat n)%nat by lia.
  rewrite take_app_add, <- app_assoc. do 2 eexists. split; [done|]. rewrite length_take. rewrite length_app in Hlen. lia.
Qed.

(** Making room for [n] bytes in place of [R], with the reallocations. *)
Lemma make_room P R B S n :
  0 <= n ->
  let old := zlen P + zlen R + zlen B in
  let new := zlen P + n + zlen B in
  let m := P ++ R ++ B ++ S in
  exists X S' X' S'',
    move_bytes (if (old <? new) && (lp_malloc_size m <? new) then lp_realloc usable junk m new else m)
      (zlen P + n) (zlen P + zlen R) (zlen B) = Some (P ++ X ++ B ++ S') /\
    (if new <? old then lp_realloc usable junk (P ++ X ++ B ++ S') new else P ++ X ++ B ++ S') = P ++ X' ++ B ++ S'' /\
    zlen X' = n.
Proof.
  intros Hn old new m.
  assert (exists S1, (if (old <? new) && (lp_malloc_size m <? new) then lp_realloc usable junk m new else m)
      = P ++ R ++ B ++ S1 /\ new <= zlen (P ++ R ++ B ++ S1)) as (S1 & -> & Hlen).
  { subst m. destruct (Z.ltb_spec old new) as [Hlt|]; cbn [andb]; cycle 1.
    { exists S. split; [done|]. rewrite !length_app. lia. }
    unfold lp_malloc_size. destruct (Z.ltb_spec (zlen (P ++ R ++ B ++ S)) new); [|by exists S].
    destruct (lp_realloc_prefix (P ++ R ++ B) S new) as (S1 & H1 & H2); [rewrite !length_app; lia|].
    rewrite <- !app_assoc in *. exists S1. pose proof (Husable new). rewrite H1. split; [done|lia]. }
  destruct (move_tail P R B S1 n Hn Hlen) as (X & S' & Hmove & HX). exists X, S'.
  destruct (new <? old).
  - destruct (lp_realloc_prefix (P ++ X ++ B) S' new) as (S2 & H1 & _); [rewrite !length_app; lia|].
    rewrite <- !app_assoc in H1. exists X, S2. rewrite H1. done.
  - by exists X, S'.
Qed.

(** ** Elements *)

Definition value_of (s : list Z) : lpv :=
  match lpStringToInt64 s with Some v => VI v | None => VS s end.

Lemma text_value_of s : text (value_of s) = s.
Proof.
  unfold value_of. destruct (lpStringToInt64 s) as [v|] eqn:Hv; [|done]. by apply lpStringToInt64_spec in Hv as [_ ->].
Qed.

(** What the argument of [lpInsert] stands for. *)
Inductive ele_is : lp_ele -> list lpv -> Prop :=
  | ele_str s : Forall is_byte s -> zlen s < 2 ^ 32 -> ele_is (EStr s) [value_of s]
  | ele_int v : fits_s 64 v -> ele_is (EInt (lpEncodeIntegerGetType v)) [VI v]
  | ele_del : ele_is EDel [].

Lemma lpEncodeString_length s :
  zlen (lpEncodeString s) = if zlen s <? 64 then 1 + zlen s else if zlen s <? 4096 then 2 + zlen s else 5 + zlen s.
Proof.
  unfold lpEncodeString. destruct (zlen s <? 64); [simpl; lia|]. destruct (zlen s <? 4096); [simpl; lia|].
  cbn [length]. rewrite length_app, length_le_encode. lia.
Qed.

Lemma insert_encoding_is ele nl :
  ele_is ele nl ->
  match nl with
  | v :: _ => insert_encoding ele = (enc v, zlen (enc v)) /\ del_ele ele = false /\ nl = [v]
  | [] => insert_encoding ele = ([], 0) /\ del_ele ele = true
  end.
Proof.
  destruct 1 as [s Hs Hl|v Hv|]; [|done|done]. split; [|done]. cbn [insert_encoding]. unfold lpEncodeGetType, value_of.
  destruct (lpStringToInt64 s); [done|]. cbn [enc]. by rewrite <- lpEncodeString_length.
Qed.

Lemma int_enc_length v : 1 <= zlen (lpEncodeIntegerGetType v) <= 9.
Proof.
  unfold lpEncodeIntegerGetType. repeat case_match; cbn [length]; rewrite ?length_le_encode; lia.
Qed.

Lemma ele_small ele nl :
  ele_is ele nl -> zlen (body nl) <= 2 ^ 32 + 10 /\ (zlen (body nl) + 7 < 2 ^ 32 -> Forall wf_lpv nl).
Proof.
  intros H. destruct H as [s Hs Hl|v Hv|]; [| |split; [simpl; lia|done]].
  - rewrite body_cons, length_app, Nat2Z.inj_add, entry_length. cbn [body fmap list_fmap concat length].
    pose proof (backlen_size_bounds (zlen (enc (value_of s)))) as Hb. unfold value_of in *.
    destruct (lpStringToInt64 s) as [v|] eqn:Hv; cbn [enc] in *.
    + pose proof (int_enc_length v). split; [lia|]. intros _. constructor; [|done]. by apply lpStringToInt64_spec in Hv as [? _].
    + pose proof (lpEncodeString_length s) as He.
      split; [destruct (zlen s <? 64), (zlen s <? 4096); lia|]. intros Hsz. constructor; [|done]. split; [done|].
      destruct (Z.ltb_spec (zlen s) 64), (Z.ltb_spec (zlen s) 4096); try lia.
      assert (5 <= backlen_size (zlen (lpEncodeString s)) \/ zlen (lpEncodeString s) < 268435455) as [?|?]; try lia.
      unfold backlen_size, lpEncodeBacklen. destruct (Z.leb_spec (zlen (lpEncodeString s)) 127); [lia|].
      destruct (Z.ltb_spec (zlen (lpEncodeString s)) 16383); [lia|].
      destruct (Z.ltb_spec (zlen (lpEncodeString s)) 2097151); [lia|].
      destruct (Z.ltb_spec (zlen (lpEncodeString s)) 268435455); [lia|]. simpl. lia.
  - rewrite body_cons, length_app, Nat2Z.inj_add, entry_length. cbn [body fmap list_fmap concat length enc].
    pose proof (backlen_size_bounds (zlen (lpEncodeIntegerGetType v))). pose proof (int_enc_length v).
    split; [lia|]. intros _. by constructor.
Qed.

(** ** Insertion *)

(** The count after [rl] became [nl]. *)
Lemma count_ok_insert num a rl nl b ele w :
  count_ok num (a ++ rl ++ b) -> ele_is ele nl ->
  (length rl = if is_replace w then 1 else 0)%nat -> (del_ele ele = true -> is_replace w = true) ->
  count_ok (if (negb (is_replace w) || del_ele ele) && negb (num =? LP_HDR_NUMELE_UNKNOWN)
            then if del_ele ele then num - 1 else num + 1 else num) (a ++ nl ++ b).
Proof.
  intros Hc He Hrl Hdel. pose proof (insert_encoding_is _ _ He) as Hi. unfold count_ok, LP_HDR_NUMELE_UNKNOWN in *.
  rewrite !length_app in *. destruct (Z.eqb_spec num 65535); [rewrite andb_false_r; by left|].
  destruct nl as [|v nl].
  - destruct Hi as [_ Hd]. rewrite Hd in *. rewrite (Hdel eq_refl) in *. cbn in *. lia.
  - destruct Hi as (_ & -> & [= ->]). destruct (is_replace w); cbn in *; lia.
Qed.

(** The bytes written are those of the new entry. *)
Lemma insert_bytes_is ele nl :
  ele_is ele nl ->
  exists bytes enclen, insert_encoding ele = (bytes, enclen) /\
    bytes ++ (if del_ele ele then [] else lpEncodeBacklen enclen) = body nl /\ enclen = zlen bytes.
Proof.
  intros Hi%insert_encoding_is. destruct nl as [|v nl].
  - destruct Hi as [-> ->]. by exists [], 0.
  - destruct Hi as (-> & -> & [= ->]). do 2 eexists. split; [done|]. rewrite body_cons. cbn. by rewrite app_nil_r.
Qed.

(** [*newp], read after the tail was moved. *)
Lemma insert_newp ele nl a b P X S :
  ele_is ele nl -> Forall wf_lpv b -> off a = zlen P -> zlen X = zlen (body nl) ->
  (if del_ele ele
   then x ← load (P ++ X ++ (body b ++ [LP_EOF]) ++ S) (off a); Some (if x =? LP_EOF then None else Some (off a))
   else Some (Some (off a))) = Some (if del_ele ele then ptr_at a b else Some (off a)).
Proof.
  intros Hi%insert_encoding_is Hwb HP HX. destruct (del_ele ele) eqn:Hd; [|done].
  destruct nl as [|v nl]; [|destruct Hi as (_ & Hd' & _); congruence].
  destruct X as [|]; [|simpl in HX; lia]. rewrite HP. cbn [app]. destruct b as [|v b].
  - cbn. by rewrite load_head.
  - rewrite body_cons, <- !app_assoc. destruct (entry_not_eof v P (body b ++ [LP_EOF] ++ S)) as (x & -> & Hx).
    { by inversion Hwb. }
    mstep. by rewrite Hx, <- HP.
Qed.

Lemma insert_store ele nl bytes enclen P X S :
  ele_is ele nl -> insert_encoding ele = (bytes, enclen) -> enclen = zlen bytes ->
  bytes ++ (if del_ele ele then [] else lpEncodeBacklen enclen) = body nl -> zlen X = zlen (body nl) ->
  (if del_ele ele then Some (P ++ X ++ S)
   else m ← store_bytes (P ++ X ++ S) (zlen P) bytes;
     store_bytes m (zlen P + enclen) (if del_ele ele then [] else lpEncodeBacklen enclen)) = Some (P ++ body nl ++ S).
Proof.
  intros Hi%insert_encoding_is _ -> Hbody HX. pose proof (f_equal length Hbody) as Hlen. rewrite length_app in Hlen.
  destruct (del_ele ele) eqn:Hd.
  - destruct nl as [|v nl]; [|destruct Hi as (_ & Hd' & _); congruence]. by destruct X; [|simpl in HX; lia].
  - rewrite <- (take_drop (length bytes) X), <- app_assoc.
    rewrite store_bytes_app by solve_len. mstep.
    rewrite <- Nat2Z.inj_add, <- length_app, app_assoc, store_bytes_app by solve_len.
    by rewrite <- Hbody, <- !app_assoc.
Qed.

Lemma lpInsert_core num a rl nl b slack ele p where_ w :
  let vs := a ++ rl ++ b in
  let m := lp_block num vs slack in
  Forall wf_lpv vs -> lp_total vs < 2 ^ 32 -> count_ok num vs -> ele_is ele nl ->
  insert_position m ele p where_ = Some (off a, w) ->
  replaced_length m (off a) w = Some (zlen (body rl)) ->
  (length rl = if is_replace w then 1 else 0)%nat -> (del_ele ele = true -> is_replace w = true) ->
  if UINT32_MAX <? lp_total (a ++ nl ++ b) then lpInsert usable junk m ele p where_ = Some None
  else exists m', lpInsert usable junk m ele p where_ = Some (Some (m', if del_ele ele then ptr_at a b else Some (off a))) /\
    rep m' (a ++ nl ++ b).
Proof.
  intros vs m Hwf Ht Hc He Hpos Hrep Hrl Hdel. unfold lpInsert. rewrite Hpos. mstep.
  destruct (ele_small _ _ He) as [Hbig Hnl]. pose proof (count_ok_bound _ _ Hc) as Hnum.
  destruct (insert_bytes_is _ _ He) as (bytes & enclen & Henc & Hbody & Hel). rewrite Henc.
  set (backlen := if del_ele ele then [] else lpEncodeBacklen enclen) in *.
  assert (Hroom : enclen + zlen backlen = zlen (body nl)) by (rewrite <- Hbody, length_app; lia). rewrite Hroom.
  unfold m. rewrite block_total by done. mstep. fold m. rewrite Hrep. mstep.
  assert (Hold : lp_total vs = off a + zlen (body rl) + zlen (body b) + 1).
  { unfold lp_total, off, vs. rewrite !body_app, !length_app. lia. }
  assert (Hnew : lp_total (a ++ nl ++ b) = off a + zlen (body nl) + zlen (body b) + 1).
  { unfold lp_total, off. rewrite !body_app, !length_app. lia. }
  pose proof (off_ge a) as Hoff.
  replace (wrapu 64 (lp_total vs + zlen (body nl) - zlen (body rl))) with (lp_total (a ++ nl ++ b))
    by (rewrite wrapu_id; [lia|unfold fits_u; lia]).
  destruct (Z.ltb_spec UINT32_MAX (lp_total (a ++ nl ++ b))) as [|Hfit]; [done|]. unfold UINT32_MAX in Hfit.
  set (P := hdr (lp_total vs) num ++ body a). set (B := body b ++ [LP_EOF]).
  assert (Hm : m = P ++ body rl ++ B ++ slack).
  { unfold m, lp_block, P, B, vs. rewrite !body_app, <- !app_assoc. done. }
  assert (HP : off a = zlen P) by apply off_pre.
  assert (HB : zlen B = zlen (body b) + 1) by (unfold B; rewrite length_app; simpl; lia).
  destruct (make_room P (body rl) B slack (zlen (body nl)) ltac:(lia)) as (X & S1 & X' & S2 & Hmv & Hre & HX).
  rewrite <- Hm in Hmv.
  replace (zlen P + zlen (body rl) + zlen B) with (lp_total vs) in * by lia.
  replace (zlen P + zlen (body nl) + zlen B) with (lp_total (a ++ nl ++ b)) in * by lia.
  assert (Hmove : (if is_replace w
      then move_bytes (if (lp_total vs <? lp_total (a ++ nl ++ b)) && (lp_malloc_size m <? lp_total (a ++ nl ++ b))
                       then lp_realloc usable junk m (lp_total (a ++ nl ++ b)) else m)
             (off a + zlen (body nl)) (off a + zlen (body rl)) (lp_total vs - off a - zlen (body rl))
      else move_bytes (if (lp_total vs <? lp_total (a ++ nl ++ b)) && (lp_malloc_size m <? lp_total (a ++ nl ++ b))
                       then lp_realloc usable junk m (lp_total (a ++ nl ++ b)) else m)
             (off a + zlen (body nl)) (off a) (lp_total vs - off a)) = Some (P ++ X ++ B ++ S1)).
  { rewrite <- Hmv, <- HP. destruct (is_replace w).
    - f_equal. lia.
    - assert (Hz : zlen (body rl) = 0) by (by destruct rl). rewrite Hz in *. f_equal; lia. }
  rewrite Hmove. mstep. rewrite Hre. clear Hmove Hmv Hre.
  assert (Hwb : Forall wf_lpv b) by (unfold vs in Hwf; rewrite !Forall_app in Hwf; apply Hwf).
  pose proof (insert_newp ele nl a b P X' S2 He Hwb HP HX) as Hnewp. fold B in Hnewp.
  rewrite Hnewp. mstep.
  rewrite HP. unfold backlen. rewrite (insert_store ele nl bytes enclen) by done. mstep.
  rewrite <- HP. unfold P. rewrite <- app_assoc.
  rewrite insert_header_at by done. mstep. eexists. split; [done|]. split_and!.
  - unfold vs in Hwf. rewrite !Forall_app in *. destruct Hwf as (Hwa & _ & _). split_and!; [done| |done].
    apply Hnl. lia.
  - lia.
  - eexists _, S2. split; [by eapply count_ok_insert|]. unfold lp_block, B. by rewrite !body_app, <- !app_assoc.
Qed.

(** ** The operations on lists *)

(** The result of an update that makes the list [vs']: NULL when it is too
    large for the header, otherwise the new block and the pointer. *)
Definition updated (r : option (option (list Z * option Z))) (vs' : list lpv) (newp : option Z) : Prop :=
  if UINT32_MAX <? lp_total vs' then r = Some None
  else exists m', r = Some (Some (m', newp)) /\ rep m' vs'.

Lemma insert_before m a v b ele :
  rep m (a ++ b) -> ele_is ele [v] ->
  updated (lpInsert usable junk m ele (off a) LP_BEFORE) (a ++ v :: b) (Some (off a)).
Proof.
  intros (Hwf & Ht & num & slack & Hc & ->) He. destruct (insert_encoding_is _ _ He) as (_ & Hd & _).
  pose proof (lpInsert_core num a [] [v] b slack ele (off a) LP_BEFORE LP_BEFORE) as H. rewrite Hd in H.
  apply H; try done. unfold insert_position. by rewrite Hd.
Qed.

Lemma insert_after m a x v b ele :
  rep m (a ++ x :: b) -> ele_is ele [v] ->
  updated (lpInsert usable junk m ele (off a) LP_AFTER) (a ++ x :: v :: b) (Some (off (a ++ [x]))).
Proof.
  intros (Hwf & Ht & num & slack & Hc & ->) He. destruct (insert_encoding_is _ _ He) as (_ & Hd & _).
  assert (Hpos : insert_position (lp_block num (a ++ x :: b) slack) ele (off a) LP_AFTER
    = Some (off (a ++ [x]), LP_BEFORE)).
  { unfold insert_position. rewrite Hd. rewrite (skip_entry num _ slack Hwf a x b eq_refl). mstep.
    rewrite block_total by done. mstep. pose proof (off_ge (a ++ [x])).
    pose proof (total_off (a ++ x :: b) (a ++ [x]) b ltac:(by rewrite <- app_assoc)). unfold LP_HDR_SIZE.
    destruct (Z.leb_spec 6 (off (a ++ [x]))); [|lia].
    by destruct (Z.ltb_spec (off (a ++ [x])) (lp_total (a ++ x :: b))); [|lia]. }
  pose proof (lpInsert_core num (a ++ [x]) [] [v] b slack ele (off a) LP_AFTER LP_BEFORE) as H. rewrite Hd in H.
  rewrite <- !app_assoc in H. by apply H.
Qed.

Lemma replaced_length_at num a x b slack :
  Forall wf_lpv (a ++ x :: b) -> lp_total (a ++ x :: b) < 2 ^ 32 ->
  replaced_length (lp_block num (a ++ x :: b) slack) (off a) LP_REPLACE = Some (zlen (body [x])).
Proof.
  intros Hwf Ht. unfold replaced_length. cbn [is_replace].
  assert (lpCurrentEncodedSizeUnsafe (lp_block num (a ++ x :: b) slack) (off a) = Some (zlen (enc x))) as ->.
  { rewrite block_at, (off_pre (lp_total (a ++ x :: b)) num a). apply entry_size. by eapply wf_at. }
  mstep. rewrite block_total by done. mstep.
  pose proof (lp_total_at a x b) as Hta. pose proof (off_ge a). pose proof (entry_length x) as Hl.
  rewrite <- Hl. rewrite wrapu_id by (unfold fits_u; lia). unfold LP_HDR_SIZE.
  destruct (Z.leb_spec 6 (off a)); [|lia].
  destruct (Z.ltb_spec (off a + zlen (entry x)) (lp_total (a ++ x :: b))); [|lia].
  rewrite body_cons, length_app. cbn. by rewrite Nat.add_0_r.
Qed.

Lemma replace_at m a x b ele nl :
  rep m (a ++ x :: b) -> ele_is ele nl ->
  updated (lpInsert usable junk m ele (off a) LP_REPLACE) (a ++ nl ++ b)
    (if del_ele ele then ptr_at a b else Some (off a)).
Proof.
  intros (Hwf & Ht & num & slack & Hc & ->) He.
  apply (lpInsert_core num a [x] nl b slack ele (off a) LP_REPLACE LP_REPLACE); try done.
  - unfold insert_position. by destruct (del_ele ele).
  - by apply replaced_length_at.
Qed.

Lemma insert_end m vs v ele :
  rep m vs -> ele_is ele [v] ->
  updated (lpInsert usable junk m ele (lp_total vs - 1) LP_BEFORE) (vs ++ [v]) (Some (off vs)).
Proof.
  intros Hr He. replace (lp_total vs - 1) with (off vs) by (unfold lp_total, off; lia).
  apply insert_before; [by rewrite app_nil_r|done].
Qed.

Lemma rep_total m vs : rep m vs -> lpGetTotalBytes m = Some (lp_total vs).
Proof. intros (_ & Ht & num & slack & _ & ->). by apply block_total. Qed.

Lemma rep_first m vs : rep m vs -> lpFirst m = Some (ptr_at [] vs).
Proof. intros (Hwf & Ht & num & slack & Hc & ->). by apply lpFirst_at. Qed.

Lemma rep_seek m vs index : rep m vs -> lpSeek m index = Some (seek_result vs index).
Proof. intros (Hwf & Ht & num & slack & Hc & ->). by apply lpSeek_at. Qed.

Lemma insert_front m vs v ele :
  rep m vs -> ele_is ele [v] ->
  updated (p ← lpFirst m;
           match p with
           | None => bytes ← lpGetTotalBytes m; lpInsert usable junk m ele (bytes - 1) LP_BEFORE
           | Some p => lpInsert usable junk m ele p LP_BEFORE
           end) (v :: vs) (Some (off [])).
Proof.
  intros Hr He. rewrite (rep_first _ _ Hr). mstep. destruct vs as [|x vs].
  - rewrite (rep_total _ _ Hr). cbn [mbind option_bind ptr_at]. by apply (insert_end m [] v).
  - by apply (insert_before m [] v (x :: vs)).
Qed.

Lemma lpNew_rep capacity : exists m, lpNew usable junk capacity = Some m /\ rep m [].
Proof.
  unfold lpNew, LP_HDR_SIZE. set (n := if 6 + 1 <? capacity then capacity else 6 + 1).
  assert (7 <= usable n) as Hu.
  { pose proof (Husable n). subst n. destruct (Z.ltb_spec (6 + 1) capacity); lia. }
  unfold lp_malloc. replace (Z.to_nat (usable n)) with (4 + (2 + (1 + (Z.to_nat (usable n) - 7))))%nat by lia.
  rewrite !replicate_add. set (slack := replicate (Z.to_nat (usable n) - 7) junk).
  unfold lpSetTotalBytes. set (rest := replicate 2 junk ++ _).
  assert (store_bytes (replicate 4 junk ++ rest) 0 (le_encode 4 (6 + 1)) = Some (le_encode 4 (6 + 1) ++ rest)) as ->
    by (by apply (store_bytes_app [])).
  subst rest. mstep.
  unfold lpSetNumElements. replace 4 with (zlen (le_encode 4 (6 + 1))) at 2 by (by rewrite length_le_encode).
  rewrite store_bytes_app by done. mstep. rewrite app_assoc. fold (hdr (6 + 1) 0).
  eexists. split.
  - rewrite store_some by (rewrite length_app, length_hdr, length_app, length_replicate; lia). done.
  - change (Z.to_nat 6) with (length (hdr (6 + 1) 0) + 0)%nat. rewrite insert_app_r. cbn [replicate app insert list_insert].
    split_and!; [done|done|]. exists 0, slack. split; [by right|done].
Qed.
End ops.
