(* ===== verification/ListpackRange.v ===== *)
(** * Listpacks: deleting several entries, merging, copying *)
From S2P Require Import Prelude Numconv NumconvSpec Listpack ListpackSpec ListpackNav ListpackFind ListpackOps.
From Stdlib Require Import ZArith Lia.
From stdpp Require Import prelude list.

#[local] Open Scope Z_scope.

Section range.
Context (usable : Z -> Z) (junk : Z) (Husable : forall n, n <= usable n).

Lemma shrink_block num vs slack :
  lp_total vs < 2 ^ 32 ->
  exists slack', lpShrinkToFit usable junk (lp_block num vs slack) = Some (lp_block num vs slack').
Proof.
  intros Ht. unfold lpShrinkToFit. rewrite block_total by done. mstep. unfold lp_malloc_size.
  destruct (lp_total vs <? _); [|by eexists]. unfold lp_block. rewrite cons_middle, !app_assoc.
  edestruct (lp_realloc_prefix usable junk Husable) as (S' & -> & _); [|exists S'; by rewrite <- !app_assoc].
  rewrite !length_app, length_hdr. unfold lp_total. simpl. lia.
Qed.

Lemma option_bind_bind_eq {A B C} (o : option A) (f : A -> option B) (g : B -> option C) :
  (x ← o; y ← f x; g y) = (y ← (x ← o; f x); g y).
Proof. by destruct o. Qed.

(** ** A range *)

Lemma range_loop_at num vs slack n a b fuel d :
  Forall wf_lpv vs -> lp_total vs < 2 ^ 32 -> vs = a ++ b -> (length b <= fuel)%nat -> (n = 0%nat \/ b <> []) ->
  range_loop fuel (lp_block num vs slack) (lp_total vs) (Z.of_nat n) (off a) d
  = Some (off (a ++ take n b), d + Z.of_nat (n `min` length b)).
Proof.
  intros Hwf Ht. revert n a fuel d. induction b as [|v b IH]; intros n a fuel d E Hf Hn.
  { destruct Hn as [->|?]; [|done]. rewrite app_nil_r. by destruct fuel; cbn; rewrite Z.add_0_r. }
  destruct n as [|n]; [by destruct fuel; cbn; rewrite app_nil_r, Z.add_0_r|].
  destruct fuel as [|fuel]; [simpl in Hf; lia|]. cbn [range_loop].
  destruct (Z.eqb_spec (Z.of_nat (S n)) 0); [lia|].
  rewrite (skip_entry num vs slack Hwf a v b E). mstep. destruct b as [|w b].
  - rewrite load_end by (by rewrite E). mstep. change (LP_EOF =? LP_EOF) with true. cbn iota.
    cbn [take length]. rewrite take_nil, Nat.min_comm. done.
  - assert (E2 : vs = (a ++ [v]) ++ w :: b) by (by rewrite <- app_assoc).
    destruct (load_entry num vs slack Hwf _ w b E2) as (x & -> & Hx). mstep. rewrite Hx.
    rewrite (assert_entry num vs slack Hwf Ht _ w b E2). mstep.
    replace (Z.of_nat (S n) - 1) with (Z.of_nat n) by lia.
    rewrite IH; [|done|simpl in *; lia|by right]. cbn [take]. rewrite <- app_assoc.
    f_equal. f_equal. rewrite <- Z.add_assoc. f_equal. cbn [length Nat.min]. lia.
Qed.

(** The block after the entries [r] between [a] and [b] went, given what the
    code stores in the header. *)
Lemma close_gap num a r b slack :
  exists slack', move_bytes (lp_block num (a ++ r ++ b) slack) (off a) (off (a ++ r)) (zlen (body b) + 1)
    = Some (hdr (lp_total (a ++ r ++ b)) num ++ body a ++ body b ++ LP_EOF :: slack').
Proof.
  set (P := hdr (lp_total (a ++ r ++ b)) num ++ body a).
  assert (E : lp_block num (a ++ r ++ b) slack = P ++ body r ++ (body b ++ [LP_EOF]) ++ slack).
  { unfold lp_block, P. rewrite !body_app, <- !app_assoc. done. }
  destruct (move_tail P (body r) (body b ++ [LP_EOF]) slack 0) as (X & S' & Hm & HX);
    [lia|rewrite !length_app; lia|].
  exists S'. rewrite E. replace (off (a ++ r)) with (zlen P + zlen (body r)).
  2:{ unfold P, off. rewrite body_app, !length_app, length_hdr. lia. }
  rewrite (off_pre (lp_total (a ++ r ++ b)) num a). fold P. rewrite Z.add_0_r in Hm.
  replace (zlen (body b) + 1) with (zlen (body b ++ [LP_EOF])) by solve_len.
  rewrite Hm. destruct X; [|simpl in HX; lia]. unfold P. by rewrite <- !app_assoc.
Qed.

(** The count after [k] entries went. *)
Lemma lower_count t n k rest vs vs' :
  count_ok n vs -> zlen vs = zlen vs' + k -> 0 <= k ->
  exists n', (numele ← lpGetNumElements (hdr t n ++ rest);
    if negb (numele =? LP_HDR_NUMELE_UNKNOWN) then lpSetNumElements (hdr t n ++ rest) (numele - k)
    else Some (hdr t n ++ rest)) = Some (hdr t n' ++ rest) /\ count_ok n' vs'.
Proof.
  intros Hc Hlen Hk. rewrite hdr_num by (by eapply count_ok_bound). mstep.
  unfold count_ok, LP_HDR_NUMELE_UNKNOWN in *.
  destruct (Z.eqb_spec n 65535); cbn [negb]; [exists n; split; [done|by left]|].
  rewrite hdr_set_num. eexists. split; [done|]. right. lia.
Qed.

Lemma deleteRangeWithEntry_rep m a b num :
  rep m (a ++ b) -> b <> [] -> 0 < num ->
  exists m', lpDeleteRangeWithEntry usable junk m (off a) num = Some (m', ptr_at a (drop (Z.to_nat num) b)) /\
    rep m' (a ++ drop (Z.to_nat num) b).
Proof.
  intros (Hwf & Ht & n & slack & Hc & ->) Hb Hnum. pose proof (count_ok_bound _ _ Hc) as Hn.
  unfold lpDeleteRangeWithEntry, lpBytes. rewrite block_total by done. mstep.
  destruct (Z.eqb_spec num 0); [lia|]. set (k := Z.to_nat num). replace num with (Z.of_nat k) by lia.
  rewrite (range_loop_at n _ slack k a b) by
    (done || (by right) || (pose proof (count_fuel n _ slack Hwf) as H; rewrite length_app in H; lia)).
  mstep. set (r := take k b). set (b' := drop k b).
  assert (Eb : a ++ b = a ++ r ++ b') by (unfold r, b'; by rewrite take_drop).
  assert (Htail : lp_total (a ++ b) - 1 - off (a ++ r) + 1 = zlen (body b') + 1).
  { rewrite Eb. unfold lp_total, off. rewrite !body_app, !length_app. lia. }
  assert (Hnew : lp_total (a ++ b) - (off (a ++ r) - off a) = lp_total (a ++ b')).
  { rewrite Eb. unfold lp_total, off. rewrite !body_app, !length_app. lia. }
  rewrite Htail, Hnew, Eb. destruct (close_gap n a r b' slack) as (S1 & ->). mstep.
  rewrite hdr_set_total. mstep.
  assert (Hlen : zlen (a ++ b) = zlen (a ++ b') + Z.of_nat (k `min` length b)).
  { unfold b'. rewrite !length_app, length_drop. lia. }
  destruct (lower_count (lp_total (a ++ b')) n (Z.of_nat (k `min` length b)) (body a ++ body b' ++ LP_EOF :: S1)
    (a ++ b) (a ++ b') Hc Hlen ltac:(lia)) as (n' & Hset & Hc').
  rewrite Z.add_0_l, option_bind_bind_eq, Hset. mstep.
  assert (Eblk : hdr (lp_total (a ++ b')) n' ++ body a ++ body b' ++ LP_EOF :: S1 = lp_block n' (a ++ b') S1)
    by (unfold lp_block; by rewrite body_app, <- app_assoc).
  rewrite Eblk.
  assert (Hwf' : Forall wf_lpv (a ++ b')) by (rewrite Forall_app in *; split; [|apply Forall_drop]; apply Hwf).
  assert (Ht' : lp_total (a ++ b') < 2 ^ 32) by (rewrite <- Hnew; unfold off; rewrite body_app, length_app; lia).
  destruct (shrink_block n' (a ++ b') S1 Ht') as (S2 & ->). mstep.
  exists (lp_block n' (a ++ b') S2). split; [|split_and!; [done|done|by exists n', S2]].
  destruct b' as [|w b'']; cbn [ptr_at].
  - by rewrite load_end by (by rewrite app_nil_r).
  - destruct (load_entry n' _ S2 Hwf' a w b'' eq_refl) as (x & -> & Hx). mstep. by rewrite Hx.
Qed.

(** The list without [num] entries from an index on. *)
Definition range_result (vs : list lpv) (index num : Z) : list lpv :=
  let i := if index <? 0 then zlen vs + index else index in
  if (num =? 0) || negb ((0 <=? i) && (i <? zlen vs)) then vs
  else take (Z.to_nat i) vs ++ drop (Z.to_nat num) (drop (Z.to_nat i) vs).

(** Moving the end marker to the entry after [a]. *)
Lemma cut_block num a v b slack n :
  lp_total (a ++ v :: b) < 2 ^ 32 ->
  exists slack', (m ← store (lp_block num (a ++ v :: b) slack) (off a) LP_EOF;
                  m ← lpSetTotalBytes m (off a + 1);
                  lpSetNumElements m n) = Some (lp_block n a slack').
Proof.
  intros Ht. rewrite block_at. set (P := hdr (lp_total (a ++ v :: b)) num ++ body a).
  assert (Hoff : off a = zlen P) by apply off_pre. set (T := body b ++ LP_EOF :: slack).
  assert (exists S, <[Z.to_nat (zlen P) := LP_EOF]> (P ++ entry v ++ T) = P ++ LP_EOF :: S) as (S & HS).
  { replace (Z.to_nat (zlen P)) with (length P + 0)%nat by lia. rewrite insert_app_r.
    destruct (entry v ++ T) as [|x l] eqn:El; [|by exists l]. unfold T in El. apply (f_equal length) in El.
    rewrite !length_app in El. simpl in El. lia. }
  rewrite Hoff, store_some by (split; [lia|unfold T; rewrite !length_app; simpl; lia]).
  rewrite HS. mstep. unfold P. rewrite <- app_assoc, hdr_set_total. mstep.
  rewrite hdr_set_num. exists S. unfold lp_block. do 3 f_equal. unfold lp_total. rewrite length_app, length_hdr. lia.
Qed.

Lemma lpDeleteRange_rep m vs index num :
  rep m vs -> 0 <= num < 2 ^ 64 ->
  exists m', lpDeleteRange usable junk m index num = Some m' /\ rep m' (range_result vs index num).
Proof.
  intros Hr Hnum. pose proof Hr as (Hwf & Ht & n & slack & Hc & ->). pose proof (count_ok_bound _ _ Hc) as Hn.
  unfold lpDeleteRange, range_result. rewrite block_num by done. mstep.
  destruct (Z.eqb_spec num 0); [by eexists|]. rewrite (rep_seek _ _ _ Hr). cbn [mbind option_bind orb].
  unfold seek_result. set (i := if index <? 0 then zlen vs + index else index).
  destruct (Z.leb_spec 0 i) as [Hi0|]; [|by eexists]. destruct (Z.ltb_spec i (zlen vs)) as [Hi1|]; [|by eexists].
  cbn [andb negb]. set (a := take (Z.to_nat i) vs). set (b := drop (Z.to_nat i) vs).
  assert (E : vs = a ++ b) by (symmetry; apply take_drop).
  assert (Hb : length b = (length vs - Z.to_nat i)%nat) by apply length_drop.
  destruct b as [|v b'] eqn:Eb; [simpl in Hb; lia|].
  match goal with |- context [if ?c then _ else _] => destruct c eqn:Hcond end.
  - apply andb_true_iff in Hcond as [Hk%negb_true_iff%Z.eqb_neq Hle%Z.leb_le]. rewrite (proj2 (Z.eqb_neq _ _) Hk) in Hle |- *.
    destruct Hc as [Hu|[Hcn Hlt]]; [congruence|]. unfold LP_HDR_NUMELE_UNKNOWN in *.
    replace (if negb false && (index <? 0) then n + index else index) with i in * by (cbn; rewrite Hcn; done).
    rewrite wrapu_id in Hle by (unfold fits_u; lia).
    rewrite E. destruct (cut_block n a v b' slack i) as (S' & Hcut); [by rewrite <- E|].
    assert (Hta : lp_total a < 2 ^ 32) by (rewrite E in Ht; unfold lp_total in *; rewrite body_app, length_app in Ht; lia).
    destruct (shrink_block i a S' Hta) as (S2 & Hsh). exists (lp_block i a S2). split.
    { revert Hcut. destruct (store _ _ _) as [m1|]; [|done]. mstep.
      destruct (lpSetTotalBytes m1 _) as [m2|]; [|done]. mstep. intros ->. exact Hsh. }
    rewrite drop_ge, app_nil_r by (rewrite Hb; lia). split_and!; [|done|].
    + rewrite E, Forall_app in Hwf. apply Hwf.
    + exists i, S2. split; [|done]. right. unfold a. rewrite length_take. unfold LP_HDR_NUMELE_UNKNOWN. lia.
  - rewrite E in Hr |- *. destruct (deleteRangeWithEntry_rep _ _ _ num Hr) as (m' & -> & Hm'); [done|lia|].
    mstep. by eexists.
Qed.

(** ** Several entries

    [segs] splits the list after its first part [k0]: each segment is an
    entry to delete and the entries kept after it. *)

Definition seg_list (segs : list (lpv * list lpv)) : list lpv := concat ((fun s => s.1 :: s.2) <$> segs).
Definition seg_kept (segs : list (lpv * list lpv)) : list lpv := concat (snd <$> segs).

(** The pointers to the entries to delete. *)
Fixpoint seg_ptrs (p : Z) (segs : list (lpv * list lpv)) : list Z :=
  match segs with
  | [] => []
  | (d, k) :: segs => p :: seg_ptrs (p + zlen (entry d) + zlen (body k)) segs
  end.

Lemma seg_ptrs_nil p segs : seg_ptrs p segs = [] -> segs = [].
Proof. by destruct segs as [|[d k] segs]. Qed.

(** Moving bytes to the left leaves what follows them. *)
Lemma move_left P R B S :
  exists Y, move_bytes (P ++ R ++ B ++ S) (zlen P) (zlen P + zlen R) (zlen B) = Some (P ++ B ++ Y ++ S) /\
    zlen Y = zlen R.
Proof.
  unfold move_bytes. rewrite <- Nat2Z.inj_add, <- length_app, (app_assoc P R), load_bytes_app by done.
  mstep. exists (drop (length B) (R ++ B)).
  assert (E : (P ++ R) ++ B ++ S = P ++ take (length B) (R ++ B) ++ drop (length B) (R ++ B) ++ S).
  { rewrite <- app_assoc. f_equal. rewrite !app_assoc. by rewrite take_drop. }
  rewrite E, store_bytes_app by (rewrite length_take, length_app; lia).
  rewrite length_drop, length_app. split; [done|lia].
Qed.

(** One turn: the bytes [K] after the deleted entry [d] are moved to [dst],
    and what follows them stays. *)
Lemma batch_step P X d K rest ps lp_end :
  wf_lpv d -> zlen P + zlen X + zlen (entry d) + zlen K = match ps with [] => lp_end | next :: _ => next end ->
  (ps = [] -> K <> []) ->
  exists X', batch_loop (P ++ X ++ entry d ++ K ++ rest) lp_end (zlen P) (zlen P + zlen X :: ps)
    = batch_loop (P ++ K ++ X' ++ rest) lp_end (zlen P + zlen K) ps /\ zlen X' = zlen X + zlen (entry d).
Proof.
  intros Hd Hnext HK. cbn [batch_loop]. rewrite <- Hnext.
  replace (zlen P + zlen X) with (zlen (P ++ X)) by solve_len. rewrite (app_assoc P X).
  destruct (entry_not_eof d (P ++ X) (K ++ rest) Hd) as (x & -> & Hx). mstep.
  rewrite Hx, entry_skip by done. mstep. rewrite <- app_assoc, (app_assoc X).
  assert (Hlen : zlen (P ++ X) + zlen (entry d) = zlen P + zlen (X ++ entry d)) by solve_len.
  rewrite Hlen. destruct (Z.eqb_spec (zlen P + zlen (X ++ entry d)) (zlen P + zlen (X ++ entry d) + zlen K)) as [He|Hne].
  - assert (K = []) as -> by (destruct K; [done|simpl in He; lia]).
    rewrite (bool_decide_false (ps = [])) by (intros ?; by apply HK). cbn [negb andb length].
    exists (X ++ entry d). rewrite Z.add_0_r. split; [done|]. rewrite length_app. lia.
  - rewrite andb_false_r. destruct (Z.leb_spec (zlen P + zlen (X ++ entry d) + zlen K) (zlen P + zlen (X ++ entry d))); [lia|].
    replace (zlen P + zlen (X ++ entry d) + zlen K - (zlen P + zlen (X ++ entry d))) with (zlen K) by lia.
    destruct (move_left P (X ++ entry d) K rest) as (Y & -> & HY). mstep.
    exists Y. split; [done|]. rewrite HY, length_app. lia.
Qed.

Lemma seg_list_cons d k segs : seg_list ((d, k) :: segs) = d :: k ++ seg_list segs.
Proof. done. Qed.

Lemma seg_kept_cons d k segs : seg_kept ((d, k) :: segs) = k ++ seg_kept segs.
Proof. done. Qed.

(** The part up to [dst] is done, [X] is what moved bytes left, and the
    entries from the next one to delete on are where they were. *)
Lemma batch_loop_at segs : forall P X slack d k lp_end,
  Forall wf_lpv (seg_list ((d, k) :: segs)) ->
  lp_end = zlen P + zlen X + zlen (body (seg_list ((d, k) :: segs))) + 1 ->
  exists slack',
    batch_loop (P ++ X ++ body (seg_list ((d, k) :: segs)) ++ LP_EOF :: slack) lp_end (zlen P)
      (seg_ptrs (zlen P + zlen X) ((d, k) :: segs))
    = Some (P ++ body (seg_kept ((d, k) :: segs)) ++ LP_EOF :: slack',
            zlen P + zlen (body (seg_kept ((d, k) :: segs))) + 1).
Proof.
  induction segs as [|[d' k'] segs IH]; intros P X slack d k lp_end Hwf Hend;
    rewrite seg_list_cons, seg_kept_cons, body_cons, !body_app in *; apply Forall_cons in Hwf as [Hd Hwf'];
    rewrite !length_app in *; cbn [seg_ptrs].
  - unfold seg_list, seg_kept. cbn [fmap list_fmap concat]. cbn [body fmap list_fmap concat].
    destruct (batch_step P X d (body k ++ [LP_EOF]) slack [] lp_end) as (X' & Hb & HX').
    { done. }
    { rewrite Hend, !length_app. simpl. lia. }
    { by destruct (body k). }
    rewrite <- !app_assoc in *. cbn [app] in *. rewrite Hb. cbn [batch_loop].
    exists (X' ++ slack). do 2 f_equal; [by rewrite app_nil_r|]. rewrite length_app. simpl. lia.
  - rewrite Forall_app in Hwf'. destruct Hwf' as [Hk Hwf'].
    set (L := seg_list ((d', k') :: segs)) in *.
    destruct (batch_step P X d (body k) (body L ++ LP_EOF :: slack)
      (seg_ptrs (zlen P + zlen X + zlen (entry d) + zlen (body k)) ((d', k') :: segs)) lp_end Hd eq_refl) as (X' & Hb & HX').
    { done. }
    rewrite <- !app_assoc. cbn [seg_ptrs] in Hb. rewrite Hb.
    destruct (IH (P ++ body k) X' slack d' k' lp_end Hwf') as (S' & HS').
    { fold L. rewrite length_app. lia. }
    exists S'. fold L in HS'. rewrite !length_app in HS'. rewrite <- !app_assoc in HS'.
    cbn [seg_ptrs] in HS'. rewrite Nat2Z.inj_add in HS'.
    replace (zlen P + zlen (body k) + zlen X') with (zlen P + zlen X + zlen (entry d) + zlen (body k)) in HS' by lia.
    rewrite HS'. f_equal. f_equal; [by rewrite <- app_assoc|lia].
Qed.

Lemma seg_kept_list segs : length (seg_list segs) = (length (seg_kept segs) + length segs)%nat.
Proof.
  induction segs as [|[d k] segs IH]; [done|]. rewrite seg_list_cons, seg_kept_cons. cbn [length].
  rewrite !length_app. lia.
Qed.

Lemma seg_kept_body segs : zlen (body (seg_kept segs)) <= zlen (body (seg_list segs)).
Proof.
  induction segs as [|[d k] segs IH]; [done|]. rewrite seg_list_cons, seg_kept_cons, body_cons, !body_app, !length_app. lia.
Qed.

Lemma seg_kept_wf segs : Forall wf_lpv (seg_list segs) -> Forall wf_lpv (seg_kept segs).
Proof.
  induction segs as [|[d k] segs IH]; [done|]. rewrite seg_list_cons, seg_kept_cons.
  intros [_ [Hk Hs]%Forall_app]%Forall_cons. apply Forall_app. auto.
Qed.

Lemma seg_ptrs_length segs p : length (seg_ptrs p segs) = length segs.
Proof. revert p. induction segs as [|[d k] segs IH]; intros p; [done|]. cbn [seg_ptrs length]. by rewrite IH. Qed.

Lemma lpBatchDelete_rep m k0 segs :
  rep m (k0 ++ seg_list segs) ->
  exists m', lpBatchDelete usable junk m (seg_ptrs (off k0) segs) = Some m' /\ rep m' (k0 ++ seg_kept segs).
Proof.
  intros Hr. destruct segs as [|[d k] segs]; [by exists m|]. pose proof Hr as (Hwf & Ht & n & slack & Hc & ->).
  pose proof (count_ok_bound _ _ Hc) as Hn. set (vs := k0 ++ seg_list ((d, k) :: segs)) in *.
  set (ps := seg_ptrs (off k0) ((d, k) :: segs)).
  assert (Hps : zlen ps = 1 + zlen segs).
  { unfold ps. rewrite seg_ptrs_length. simpl. lia. }
  unfold lpBatchDelete. destruct ps as [|dst ps'] eqn:Eps; [done|]. assert (dst = off k0) as -> by (by injection Eps).
  rewrite <- Eps in *. rewrite block_total by done. mstep.
  replace (lp_total vs - 1) with (off vs) by (unfold lp_total, off; lia). rewrite load_end by done. cbn [mbind option_bind negb].
  change (negb (LP_EOF =? LP_EOF)) with false. cbn iota.
  set (P := hdr (lp_total vs) n ++ body k0). assert (HP : off k0 = zlen P) by apply off_pre.
  set (vs' := k0 ++ seg_kept ((d, k) :: segs)).
  assert (Hloop : exists S', batch_loop (lp_block n vs slack) (lp_total vs) (off k0) ps
    = Some (P ++ body (seg_kept ((d, k) :: segs)) ++ LP_EOF :: S', lp_total vs')).
  { destruct (batch_loop_at segs P [] slack d k (lp_total vs)) as (S' & HS').
    - unfold vs in Hwf. rewrite Forall_app in Hwf. apply Hwf.
    - rewrite <- HP. unfold lp_total, off, vs. rewrite body_app, length_app. simpl. lia.
    - exists S'. unfold ps. rewrite HP. cbn [length app] in HS'. rewrite Z.add_0_r in HS'. unfold lp_block, vs.
      rewrite body_app, <- app_assoc, app_assoc. fold vs. fold P. rewrite HS'. do 2 f_equal.
      rewrite <- HP. unfold lp_total, off, vs'. rewrite body_app, length_app. lia. }
  destruct Hloop as (S' & ->). mstep.
  replace (lp_total vs - (lp_total vs - lp_total vs')) with (lp_total vs') by lia.
  assert (Hload : load (P ++ body (seg_kept ((d, k) :: segs)) ++ LP_EOF :: S') (lp_total vs' - 1) = Some LP_EOF).
  { rewrite app_assoc. replace (lp_total vs' - 1) with (zlen (P ++ body (seg_kept ((d, k) :: segs)))).
    - apply load_head.
    - rewrite length_app, Nat2Z.inj_add, <- HP. unfold lp_total, off, vs'. rewrite body_app, length_app. lia. }
  rewrite Hload. mstep. change (negb (LP_EOF =? LP_EOF)) with false. cbn iota.
  unfold P. rewrite <- app_assoc, hdr_set_total. mstep.
  set (rest := body k0 ++ body (seg_kept ((d, k) :: segs)) ++ LP_EOF :: S').
  destruct (lower_count (lp_total vs') n (zlen ps) rest vs vs' Hc) as (n' & Hset & Hc'); [|lia|].
  { rewrite Hps. unfold vs, vs'. rewrite !length_app, seg_kept_list. simpl. lia. }
  rewrite option_bind_bind_eq, Hset. mstep.
  assert (hdr (lp_total vs') n' ++ rest = lp_block n' vs' S') as ->
    by (unfold lp_block, rest, vs'; by rewrite body_app, <- app_assoc).
  assert (Ht' : lp_total vs' < 2 ^ 32).
  { pose proof (seg_kept_body ((d, k) :: segs)). unfold lp_total, vs, vs' in *. rewrite body_app, length_app in *. lia. }
  destruct (shrink_block n' vs' S' Ht') as (S2 & ->). eexists. split; [done|]. split_and!; [|done|by exists n', S2].
  unfold vs, vs' in *. rewrite Forall_app in *. destruct Hwf as [? Hw]. split; [done|]. by apply seg_kept_wf.
Qed.

(** ** Merging and copying *)

Lemma rep_length m vs : rep m vs -> exists m', lpLength m = Some (zlen vs, m') /\ rep m' vs.
Proof.
  intros (Hwf & Ht & n & slack & Hc & ->). destruct (lpLength_at n vs slack Hwf Ht Hc) as (n' & -> & Hc').
  eexists. split; [done|]. split_and!; [done|done|by exists n', slack].
Qed.

(** Storing over the bytes after [P]. *)
Lemma store_over P T bs :
  zlen bs <= zlen T -> exists T', store_bytes (P ++ T) (zlen P) bs = Some (P ++ bs ++ T').
Proof.
  intros Hl. exists (drop (length bs) T). rewrite <- (take_drop (length bs) T) at 1.
  apply store_bytes_app. rewrite length_take. lia.
Qed.

(** The two ways to merge make the same block. *)
Lemma merge_append a b na nb sa sb :
  lp_total a + lp_total b - 7 < 2 ^ 32 ->
  exists T, (bs ← load_bytes (lp_block nb b sb) LP_HDR_SIZE (lp_total b - LP_HDR_SIZE);
     store_bytes (lp_realloc usable junk (lp_block na a sa) (lp_total a + lp_total b - 7)) (lp_total a - 1) bs)
   = Some (hdr (lp_total a) na ++ body a ++ body b ++ LP_EOF :: T).
Proof.
  intros Ht. set (P := hdr (lp_total a) na ++ body a). set (bs := body b ++ [LP_EOF]).
  assert (Hbs : zlen bs = lp_total b - 6) by (unfold bs, lp_total; rewrite length_app; simpl; lia).
  assert (Hload : load_bytes (lp_block nb b sb) LP_HDR_SIZE (lp_total b - LP_HDR_SIZE) = Some bs).
  { unfold lp_block, LP_HDR_SIZE. rewrite cons_middle, (app_assoc (body b)). fold bs.
    replace 6 with (zlen (hdr (lp_total b) nb)) at 1 by (by rewrite length_hdr). by apply load_bytes_app. }
  rewrite Hload. mstep. rewrite block_end. fold P.
  assert (HP : lp_total a - 1 = zlen P) by (unfold P, lp_total; rewrite length_app, length_hdr; lia).
  destruct (lp_realloc_prefix usable junk Husable P (LP_EOF :: sa) (lp_total a + lp_total b - 7)) as (S & -> & Hlen).
  { unfold lp_total in *. lia. }
  rewrite HP. destruct (store_over P S bs) as (T & ->).
  { rewrite length_app in Hlen. pose proof (Husable (lp_total a + lp_total b - 7)). lia. }
  exists T. unfold P, bs. by rewrite <- !app_assoc.
Qed.

Lemma merge_prepend a b na nb sa sb :
  lp_total a + lp_total b - 7 < 2 ^ 32 ->
  exists T, (target ← move_bytes (lp_realloc usable junk (lp_block nb b sb) (lp_total a + lp_total b - 7))
       (lp_total a - 1) LP_HDR_SIZE (lp_total b - LP_HDR_SIZE);
     bs ← load_bytes (lp_block na a sa) 0 (lp_total a - 1); store_bytes target 0 bs)
   = Some (hdr (lp_total a) na ++ body a ++ body b ++ LP_EOF :: T).
Proof.
  intros Ht. set (H := hdr (lp_total b) nb). set (B := body b ++ [LP_EOF]).
  assert (HB : zlen B = lp_total b - 6) by (unfold B, lp_total; rewrite length_app; simpl; lia).
  assert (HH : zlen H = 6) by (unfold H; by rewrite length_hdr).
  assert (E : lp_block nb b sb = (H ++ B) ++ sb) by (unfold lp_block, H, B; by rewrite <- !app_assoc).
  rewrite E. destruct (lp_realloc_prefix usable junk Husable (H ++ B) sb (lp_total a + lp_total b - 7)) as (S & -> & Hlen).
  { rewrite length_app. unfold lp_total in *. lia. }
  pose proof (Husable (lp_total a + lp_total b - 7)). rewrite <- app_assoc in *.
  destruct (move_tail H [] B S (zlen (body a))) as (X & S' & Hmv & HX); [lia| |].
  { cbn [app]. unfold lp_total in *. lia. }
  cbn [app length] in Hmv. rewrite Z.add_0_r, HH, HB in Hmv. unfold LP_HDR_SIZE.
  replace (6 + zlen (body a)) with (lp_total a - 1) in Hmv by (unfold lp_total; lia). rewrite Hmv. mstep.
  set (P := hdr (lp_total a) na ++ body a).
  assert (Hload : load_bytes (lp_block na a sa) 0 (lp_total a - 1) = Some P).
  { rewrite block_end. apply (load_bytes_app [] P). unfold P, lp_total. rewrite length_app, length_hdr. lia. }
  rewrite Hload. mstep. exists S'.
  transitivity (Some (P ++ B ++ S')); [|unfold P, B; by rewrite <- !app_assoc].
  rewrite (app_assoc H X). apply (store_bytes_app [] (H ++ X) P). unfold P. rewrite !length_app, length_hdr. lia.
Qed.

(** [lpMerge] asserts that the size fits. *)
Lemma lpMerge_rep m1 m2 a b :
  rep m1 a -> rep m2 b -> lp_total a + lp_total b - 7 < UINT32_MAX ->
  exists m', lpMerge usable junk m1 m2 = Some (m', lp_total b <=? lp_total a) /\ rep m' (a ++ b).
Proof.
  intros Ha Hb Ht. unfold lpMerge, lpBytes. rewrite (rep_total _ _ Ha). mstep.
  destruct (rep_length _ _ Ha) as (m1' & -> & Hwa & Hta & na & sa & Hca & ->). mstep.
  rewrite (rep_total _ _ Hb). mstep.
  destruct (rep_length _ _ Hb) as (m2' & -> & Hwb & Htb & nb & sb & Hcb & ->). mstep.
  replace (lp_total a + lp_total b - LP_HDR_SIZE - 1) with (lp_total a + lp_total b - 7) by (unfold LP_HDR_SIZE; lia).
  set (n := if zlen a + zlen b <? 65535 then zlen a + zlen b else 65535).
  assert (Hab : lp_total (a ++ b) = lp_total a + lp_total b - 7).
  { unfold lp_total. rewrite body_app, length_app. lia. }
  assert (Hfin : forall T, exists m', (target ← lpSetNumElements (hdr (lp_total a) na ++ body a ++ body b ++ LP_EOF :: T) n;
     target ← lpSetTotalBytes target (lp_total a + lp_total b - 7);
     Some (target, lp_total b <=? lp_total a)) = Some (m', lp_total b <=? lp_total a) /\ rep m' (a ++ b)).
  { intros T. rewrite hdr_set_num. mstep. rewrite hdr_set_total. mstep.
    eexists. split; [done|]. split_and!; [by apply Forall_app|unfold UINT32_MAX in *; lia|]. exists n, T. split.
    - unfold count_ok, LP_HDR_NUMELE_UNKNOWN, n. rewrite length_app. destruct (Z.ltb_spec (zlen a + zlen b) 65535); lia.
    - unfold lp_block. by rewrite Hab, body_app, <- app_assoc. }
  unfold UINT32_MAX in *. destruct (Z.leb_spec (lp_total b) (lp_total a)) as [Hle|Hgt];
    (destruct (Z.ltb_spec (lp_total a + lp_total b - 7) (2 ^ 32 - 1)); [|lia]); cbn [negb].
  - destruct (merge_append a b na nb sa sb) as (T & ->); [lia|]. mstep. apply Hfin.
  - destruct (merge_prepend a b na nb sa sb) as (T & HT); [lia|]. rewrite HT. mstep. apply Hfin.
Qed.

Lemma lpDup_rep m vs : rep m vs -> exists m', lpDup usable junk m = Some m' /\ rep m' vs.
Proof.
  intros Hr. unfold lpDup, lpBytes. rewrite (rep_total _ _ Hr). mstep.
  destruct Hr as (Hwf & Ht & n & slack & Hc & ->). set (Q := hdr (lp_total vs) n ++ body vs ++ [LP_EOF]).
  assert (HQ : lp_total vs = zlen Q) by (unfold Q, lp_total; rewrite !length_app, length_hdr; simpl; lia).
  assert (E : lp_block n vs slack = Q ++ slack) by (unfold lp_block, Q; by rewrite <- !app_assoc).
  assert (load_bytes (Q ++ slack) 0 (lp_total vs) = Some Q) as Hl by (by apply (load_bytes_app [] Q)).
  rewrite E, Hl. mstep.
  destruct (store_over [] (lp_malloc usable junk (lp_total vs)) Q) as (T & HT).
  { unfold lp_malloc. rewrite length_replicate. pose proof (Husable (lp_total vs)). lia. }
  eexists. split; [exact HT|]. split_and!; [done|done|]. exists n, T. split; [done|].
  unfold lp_block, Q. cbn [app]. by rewrite <- !app_assoc.
Qed.
End range.
