(* ===== verification/ListpackRun.v ===== *)
(** * Listpacks: sequences of operations

    Any sequence of updates of a new listpack holds the list that the same
    updates make of the empty list, and every element can be read back. *)
From S2P Require Import Prelude Numconv NumconvSpec Listpack ListpackSpec ListpackNav ListpackFind ListpackOps ListpackRange.
From Stdlib Require Import ZArith Lia.
From stdpp Require Import prelude list.

#[local] Open Scope Z_scope.

(** A string or an integer to store. *)
Inductive lp_arg :=
  | AStr (s : list Z)
  | AInt (v : Z).

Inductive lp_op :=
  | OAppend (x : lp_arg)
  | OPrepend (x : lp_arg)
  | OInsert (index : Z) (x : lp_arg) (after : bool)
  | OReplace (index : Z) (x : lp_arg)
  | ODelete (index : Z)
  | ODeleteRange (index num : Z)
  | OLength
  | OShrink
  | ODup.

Definition arg_ok (x : lp_arg) : Prop :=
  match x with
  | AStr s => Forall is_byte s /\ zlen s < 2 ^ 32
  | AInt v => fits_s 64 v
  end.

Definition op_ok (op : lp_op) : Prop :=
  match op with
  | OAppend x | OPrepend x | OInsert _ x _ | OReplace _ x => arg_ok x
  | ODeleteRange _ num => 0 <= num < 2 ^ 64
  | ODelete _ | OLength | OShrink | ODup => True
  end.

(** ** On blocks *)

Section exec.
Context (usable : Z -> Z) (junk : Z).

(** The block after an update; the caller keeps the old one on NULL. *)
Definition keep (m : list Z) (r : option (option (list Z * option Z))) : option (list Z) :=
  x ← r; Some (match x with Some (m', _) => m' | None => m end).

(** An update of the entry at an index, when there is one. *)
Definition at_index (m : list Z) (index : Z) (f : Z -> option (option (list Z * option Z))) : option (list Z) :=
  p ← lpSeek m index;
  match p with
  | None => Some m
  | Some p => keep m (f p)
  end.

Definition exec (m : list Z) (op : lp_op) : option (list Z) :=
  match op with
  | OAppend (AStr s) => keep m (lpAppend usable junk m s)
  | OAppend (AInt v) => keep m (lpAppendInteger usable junk m v)
  | OPrepend (AStr s) => keep m (lpPrepend usable junk m s)
  | OPrepend (AInt v) => keep m (lpPrependInteger usable junk m v)
  | OInsert index x after =>
      let where_ := if after then LP_AFTER else LP_BEFORE in
      at_index m index (fun p =>
        match x with
        | AStr s => lpInsertString usable junk m s p where_
        | AInt v => lpInsertInteger usable junk m v p where_
        end)
  | OReplace index x =>
      at_index m index (fun p =>
        match x with
        | AStr s => lpReplace usable junk m p s
        | AInt v => lpReplaceInteger usable junk m p v
        end)
  | ODelete index => at_index m index (lpDelete usable junk m)
  | ODeleteRange index num => lpDeleteRange usable junk m index num
  | OLength => r ← lpLength m; Some r.2
  | OShrink => lpShrinkToFit usable junk m
  | ODup => lpDup usable junk m
  end.

Fixpoint exec_all (m : list Z) (ops : list lp_op) : option (list Z) :=
  match ops with
  | [] => Some m
  | op :: ops => m ← exec m op; exec_all m ops
  end.
End exec.

(** The text of the element at an index, if there is one. *)
Definition read (m intbuf : list Z) (index : Z) : option (option (list Z)) :=
  p ← lpSeek m index;
  match p with
  | None => Some None
  | Some p => t ← lpGet_intbuf m intbuf p; Some (Some t)
  end.

(** ** On lists *)

Definition arg_value (x : lp_arg) : lpv :=
  match x with AStr s => value_of s | AInt v => VI v end.

Definition arg_text (x : lp_arg) : list Z :=
  match x with AStr s => s | AInt v => decimal_signed v end.

Definition resolve (vs : list lpv) (index : Z) : option nat :=
  let i := if index <? 0 then zlen vs + index else index in
  if (0 <=? i) && (i <? zlen vs) then Some (Z.to_nat i) else None.

(** An update is dropped when the total size does not fit 32 bits. *)
Definition fit (vs vs' : list lpv) : list lpv := if UINT32_MAX <? lp_total vs' then vs else vs'.

Definition abs_exec (vs : list lpv) (op : lp_op) : list lpv :=
  match op with
  | OAppend x => fit vs (vs ++ [arg_value x])
  | OPrepend x => fit vs (arg_value x :: vs)
  | OInsert index x after =>
      match resolve vs index with
      | None => vs
      | Some i => let i := if after then S i else i in fit vs (take i vs ++ arg_value x :: drop i vs)
      end
  | OReplace index x =>
      match resolve vs index with
      | None => vs
      | Some i => fit vs (take i vs ++ arg_value x :: drop (S i) vs)
      end
  | ODelete index =>
      match resolve vs index with
      | None => vs
      | Some i => take i vs ++ drop (S i) vs
      end
  | ODeleteRange index num => range_result vs index num
  | OLength | OShrink | ODup => vs
  end.

Definition abs_all (vs : list lpv) (ops : list lp_op) : list lpv := fold_left abs_exec ops vs.

Lemma arg_text_value x : text (arg_value x) = arg_text x.
Proof. destruct x; [apply text_value_of|done]. Qed.

(** ** Each operation *)

Section refine.
Context (usable : Z -> Z) (junk : Z) (Husable : forall n, n <= usable n).

Lemma keep_updated m vs r vs' newp :
  rep m vs -> updated r vs' newp -> exists m', keep m r = Some m' /\ rep m' (fit vs vs').
Proof.
  intros Hr Hu. unfold updated, fit in *. destruct (UINT32_MAX <? lp_total vs').
  - rewrite Hu. by exists m.
  - destruct Hu as (m' & -> & Hm'). by exists m'.
Qed.

(** A resolved index splits the list, and [lpSeek] finds the place. *)
Lemma seek_resolve m vs index :
  rep m vs ->
  match resolve vs index with
  | None => lpSeek m index = Some None
  | Some i => exists v, vs = take i vs ++ v :: drop (S i) vs /\ vs !! i = Some v /\ lpSeek m index = Some (Some (off (take i vs)))
  end.
Proof.
  intros Hr. rewrite (rep_seek _ _ _ Hr). unfold seek_result, resolve.
  set (i := if index <? 0 then zlen vs + index else index). destruct (Z.leb_spec 0 i); [|done].
  destruct (Z.ltb_spec i (zlen vs)); [|done]. cbn [andb].
  destruct (lookup_lt_is_Some_2 vs (Z.to_nat i)) as [v Hv]; [lia|]. exists v.
  split_and!; [by rewrite take_drop_middle|done|done].
Qed.

Lemma arg_ele x :
  arg_ok x -> ele_is (match x with AStr s => EStr s | AInt v => EInt (lpEncodeIntegerGetType v) end) [arg_value x].
Proof. destruct x; [intros [? ?]; by apply ele_str|by apply ele_int]. Qed.

Lemma exec_append m vs x :
  rep m vs -> arg_ok x -> exists m', exec usable junk m (OAppend x) = Some m' /\ rep m' (abs_exec vs (OAppend x)).
Proof.
  intros Hr Hx%arg_ele. pose proof (insert_end usable junk Husable m vs _ _ Hr Hx) as Hu.
  destruct x as [s|v]; cbn [exec]; (eapply keep_updated; [done|]);
    unfold lpAppend, lpAppendInteger, lpInsertInteger; rewrite (rep_total _ _ Hr); exact Hu.
Qed.

Lemma exec_prepend m vs x :
  rep m vs -> arg_ok x -> exists m', exec usable junk m (OPrepend x) = Some m' /\ rep m' (abs_exec vs (OPrepend x)).
Proof.
  intros Hr Hx%arg_ele. pose proof (insert_front usable junk Husable m vs _ _ Hr Hx) as Hu.
  destruct x as [s|v]; cbn [exec]; (eapply keep_updated; [done|]); exact Hu.
Qed.

Lemma exec_insert m vs index x after :
  rep m vs -> arg_ok x ->
  exists m', exec usable junk m (OInsert index x after) = Some m' /\ rep m' (abs_exec vs (OInsert index x after)).
Proof.
  intros Hr Hx%arg_ele. cbn [exec abs_exec]. unfold at_index. pose proof (seek_resolve m vs index Hr) as Hs.
  destruct (resolve vs index) as [i|]; [|rewrite Hs; by exists m]. destruct Hs as (v & E & Hv & ->). mstep.
  pose proof (lookup_lt_Some _ _ _ Hv). set (a := take i vs) in *. set (b := drop (S i) vs) in *.
  rewrite E in Hr. destruct after.
  - pose proof (insert_after usable junk Husable m a v _ b _ Hr Hx) as Hu.
    destruct (keep_updated m _ _ _ _ Hr Hu) as (m' & Hk & Hm'). exists m'. split; [destruct x; exact Hk|].
    rewrite <- E in Hm'. by rewrite (take_S_r _ _ v Hv), <- app_assoc.
  - pose proof (insert_before usable junk Husable m a _ (v :: b) _ Hr Hx) as Hu.
    destruct (keep_updated m _ _ _ _ Hr Hu) as (m' & Hk & Hm'). exists m'. split; [destruct x; exact Hk|].
    rewrite <- E in Hm'. by rewrite (drop_S vs v i Hv).
Qed.

Lemma exec_replace m vs index x :
  rep m vs -> arg_ok x ->
  exists m', exec usable junk m (OReplace index x) = Some m' /\ rep m' (abs_exec vs (OReplace index x)).
Proof.
  intros Hr Hx%arg_ele. cbn [exec abs_exec]. unfold at_index. pose proof (seek_resolve m vs index Hr) as Hs.
  destruct (resolve vs index) as [i|]; [|rewrite Hs; by exists m]. destruct Hs as (v & E & Hv & ->). mstep.
  rewrite E in Hr. pose proof (replace_at usable junk Husable m _ v _ _ _ Hr Hx) as Hu.
  destruct (keep_updated m _ _ _ _ Hr Hu) as (m' & Hk & Hm'). exists m'. rewrite <- E in Hm'. split; [destruct x; exact Hk|done].
Qed.

(** A shorter list always fits. *)
Lemma exec_delete m vs index :
  rep m vs -> exists m', exec usable junk m (ODelete index) = Some m' /\ rep m' (abs_exec vs (ODelete index)).
Proof.
  intros Hr. cbn [exec abs_exec]. unfold at_index. pose proof (seek_resolve m vs index Hr) as Hs.
  destruct (resolve vs index) as [i|]; [|rewrite Hs; by exists m]. destruct Hs as (v & E & Hv & ->). mstep.
  rewrite E in Hr. pose proof (replace_at usable junk Husable m _ v _ _ _ Hr ele_del) as Hu.
  destruct (keep_updated m _ _ _ _ Hr Hu) as (m' & Hk & Hm'). exists m'. split; [exact Hk|]. unfold fit in Hm'.
  destruct Hr as (_ & Ht & _). rewrite lp_total_at in Ht.
  destruct (Z.ltb_spec UINT32_MAX (lp_total (take i vs ++ [] ++ drop (S i) vs))) as [Hbig|]; [|done].
  unfold UINT32_MAX, lp_total, off in *. cbn [app] in Hbig. rewrite body_app, length_app in Hbig. lia.
Qed.

Lemma exec_refines m vs op :
  rep m vs -> op_ok op -> exists m', exec usable junk m op = Some m' /\ rep m' (abs_exec vs op).
Proof.
  intros Hr Ho. destruct op as [x|x|index x after|index x|index|index num| | |]; cbn [op_ok] in Ho.
  - by apply exec_append.
  - by apply exec_prepend.
  - by apply exec_insert.
  - by apply exec_replace.
  - by apply exec_delete.
  - by apply lpDeleteRange_rep.
  - destruct (rep_length m vs Hr) as (m' & Hl & Hm'). exists m'. cbn [exec]. by rewrite Hl.
  - destruct Hr as (Hwf & Ht & n & slack & Hc & ->). destruct (shrink_block usable junk Husable n vs slack Ht) as (S' & HS).
    eexists. split; [exact HS|]. split_and!; [done|done|by exists n, S'].
  - by apply lpDup_rep.
Qed.

Lemma exec_all_refines ops : forall m vs,
  rep m vs -> Forall op_ok ops -> exists m', exec_all usable junk m ops = Some m' /\ rep m' (abs_all vs ops).
Proof.
  induction ops as [|op ops IH]; intros m vs Hr Hops; [by exists m|].
  apply Forall_cons in Hops as [Hop Hops]. destruct (exec_refines m vs op Hr Hop) as (m1 & He & Hr1).
  cbn [exec_all]. rewrite He. mstep. by apply IH.
Qed.
End refine.

Lemma read_rep m vs intbuf index :
  rep m vs -> (LP_INTBUF_SIZE <= length intbuf)%nat ->
  read m intbuf index = Some (i ← resolve vs index; v ← vs !! i; Some (text v)).
Proof.
  intros Hr Hb. unfold read. pose proof (seek_resolve m vs index Hr) as Hs.
  destruct (resolve vs index) as [i|]; [|by rewrite Hs]. destruct Hs as (v & E & Hv & ->). mstep.
  rewrite Hv. mstep. destruct Hr as (Hwf & _ & n & slack & _ & ->).
  by rewrite (lpGet_intbuf_at n vs slack _ v _ intbuf Hwf E Hb).
Qed.

(** ** Theorems *)

(** C9: listpacks refine lists.  After any sequence of insertions,
    replacements and deletions on a new listpack, with the reallocations the
    code makes, no access has left the block, the block passes the deep
    integrity check, [lpLength] is the length of the list that the same
    updates make of the empty list, and for every index [lpSeek] and [lpGet]
    return the text of the element of that list. *)
Theorem listpack_run_refines usable junk capacity ops intbuf :
  (forall n, n <= usable n) -> Forall op_ok ops -> (LP_INTBUF_SIZE <= length intbuf)%nat ->
  let vs := abs_all [] ops in
  exists m, (m0 ← lpNew usable junk capacity; exec_all usable junk m0 ops) = Some m /\
    lpValidateIntegrity m (lp_total vs) true None = Some true /\
    (fst <$> lpLength m) = Some (zlen vs) /\
    forall index, read m intbuf index = Some (i ← resolve vs index; v ← vs !! i; Some (text v)).
Proof.
  intros Hu Hops Hb vs. destruct (lpNew_rep usable junk Hu capacity) as (m0 & -> & H0). mstep.
  destruct (exec_all_refines usable junk Hu ops m0 [] H0 Hops) as (m & -> & Hm). exists m. split; [done|].
  destruct (rep_length _ _ Hm) as (m' & Hl & _). split_and!.
  - destruct Hm as (Hwf & Ht & n & slack & Hc & ->). by apply lpValidateIntegrity_at.
  - by rewrite Hl.
  - intros index. by apply read_rep.
Qed.

Definition demo_ops : list lp_op :=
  [OAppend (AStr [104; 105]); OPrepend (AStr [45; 49; 50]); OAppend (AInt 70000);
   OInsert (-1) (AStr [49; 50; 51]) false; OReplace 1 (AStr [48; 48]); ODelete 0; OInsert 0 (AInt (-1)) true].

Lemma listpack_run_refines_witness :
  text <$> abs_all [] demo_ops = [[48; 48]; [45; 49]; [49; 50; 51]; [55; 48; 48; 48; 48]] /\
  exists m, (m0 ← lpNew (fun n => n + 3) 170 0; exec_all (fun n => n + 3) 170 m0 demo_ops) = Some m /\
    lpValidateIntegrity m (lp_total (abs_all [] demo_ops)) true None = Some true /\
    (fst <$> lpLength m) = Some (zlen (abs_all [] demo_ops)) /\
    forall index, read m (replicate 21 0) index
      = Some (i ← resolve (abs_all [] demo_ops) index; v ← abs_all [] demo_ops !! i; Some (text v)).
Proof.
  split; [vm_compute; reflexivity|]. apply (listpack_run_refines (fun n => n + 3) 170 0 demo_ops (replicate 21 0)).
  - intros n. lia.
  - repeat constructor; unfold is_byte, fits_s; try lia.
  - apply Nat.leb_le. reflexivity.
Defined.

(** [lpFind] from the entry [i] returns the first entry among [i],
    [i + skip + 1], [i + 2 (skip + 1)] and so on whose text is the one looked
    for, and NULL when there is none. *)
Theorem lpFind_correct m vs i s skip :
  rep m vs -> (i < length vs)%nat ->
  exists r, lpFind m (off (take i vs)) s (Z.of_nat skip) = Some r /\
    match r with
    | Some p =>
        exists j v, (i <= j)%nat /\ looked skip i j /\ vs !! j = Some v /\ text v = s /\ p = off (take j vs) /\
          forall k w, (i <= k < j)%nat -> looked skip i k -> vs !! k = Some w -> text w <> s
    | None => forall k w, looked skip i k -> vs !! k = Some w -> text w <> s
    end.
Proof.
  intros (Hwf & Ht & n & slack & Hc & ->) Hi. destruct (lookup_lt_is_Some_2 vs i Hi) as [v Hv].
  pose proof (take_drop_middle vs i v Hv) as E. unfold lpFind, lpBytes. rewrite block_total by done. mstep.
  pose proof (count_fuel n vs slack Hwf) as Hfuel.
  rewrite (find_loop_at n vs slack Hwf Ht s skip (drop (S i) vs) (take i vs) v 0) by
    (done || (by left) || (rewrite length_drop; lia)).
  eexists. split; [done|]. pose proof (find_ref_spec s skip (v :: drop (S i) vs) (take i vs) 0) as Hspec.
  rewrite <- (drop_S vs v i Hv) in *.
  assert (Hup : forall j, looked skip 0 j -> looked skip i (i + j)) by (intros j [c ->]; exists c; lia).
  assert (Hdown : forall k, looked skip i k -> exists j, k = (i + j)%nat /\ looked skip 0 j)
    by (intros k [c ->]; exists (c * S skip)%nat; split; [lia|by exists c]).
  destruct (find_ref s skip 0 (take i vs) (drop i vs)) as [p|].
  - destruct Hspec as (j & w & Hj & Hw & Htx & -> & Hfirst). rewrite lookup_drop in Hw. exists (i + j)%nat, w.
    split_and!; [lia|by apply Hup|done|done|by rewrite take_take_drop|].
    intros k u Hk (j' & -> & Hj')%Hdown Hu. apply (Hfirst j'); [lia|done|by rewrite lookup_drop].
  - intros k u (j' & -> & Hj')%Hdown Hu. apply (Hspec j'); [done|by rewrite lookup_drop].
Qed.

Definition demo_vs : list lpv := [VS [107]; VI 1; VS [120]; VI 300].

Lemma demo_rep : rep (lp_block 4 demo_vs [7; 7]) demo_vs.
Proof.
  split_and!; [|by vm_compute|].
  - repeat constructor; unfold is_byte, fits_s; simpl; lia.
  - exists 4, [7; 7]. split; [by right|done].
Qed.

Lemma lpFind_correct_witness :
  lpFind (lp_block 4 demo_vs [7; 7]) (off (take 1 demo_vs)) [51; 48; 48] (Z.of_nat 1) = Some (Some 14) /\
  exists r, lpFind (lp_block 4 demo_vs [7; 7]) (off (take 1 demo_vs)) [51; 48; 48] (Z.of_nat 1) = Some r /\
    match r with
    | Some p =>
        exists j v, (1 <= j)%nat /\ looked 1 1 j /\ demo_vs !! j = Some v /\ text v = [51; 48; 48] /\ p = off (take j demo_vs) /\
          forall k w, (1 <= k < j)%nat -> looked 1 1 k -> demo_vs !! k = Some w -> text w <> [51; 48; 48]
    | None => forall k w, looked 1 1 k -> demo_vs !! k = Some w -> text w <> [51; 48; 48]
    end.
Proof.
  split; [vm_compute; reflexivity|]. apply lpFind_correct; [exact demo_rep|apply Nat.ltb_lt; reflexivity].
Defined.

(** [lpBatchDelete] with the pointers of some entries, in order, leaves
    exactly the other entries, in order, and moves bytes only inside the block. *)
Theorem lpBatchDelete_correct usable junk m k0 segs :
  (forall n, n <= usable n) -> rep m (k0 ++ seg_list segs) ->
  exists m', lpBatchDelete usable junk m (seg_ptrs (off k0) segs) = Some m' /\ rep m' (k0 ++ seg_kept segs).
Proof. intros Hu Hr. by apply lpBatchDelete_rep. Qed.

Definition demo_segs : list (lpv * list lpv) := [(VI 1, []); (VS [120], [VI 300])].

Lemma lpBatchDelete_correct_witness :
  seg_ptrs (off [VS [107]]) demo_segs = [9; 11] /\
  exists m', lpBatchDelete (fun n => n) 0 (lp_block 4 demo_vs [7; 7]) (seg_ptrs (off [VS [107]]) demo_segs) = Some m' /\
    rep m' ([VS [107]] ++ seg_kept demo_segs).
Proof.
  split; [vm_compute; reflexivity|]. apply lpBatchDelete_correct; [intros n; lia|exact demo_rep].
Defined.

(** [lpMerge] of two listpacks holds the elements of the first and then
    those of the second, whichever of the two blocks it reuses. *)
Theorem lpMerge_correct usable junk m1 m2 a b :
  (forall n, n <= usable n) -> rep m1 a -> rep m2 b -> lp_total a + lp_total b - 7 < UINT32_MAX ->
  exists m', lpMerge usable junk m1 m2 = Some (m', lp_total b <=? lp_total a) /\ rep m' (a ++ b).
Proof. intros Hu Ha Hb Ht. by apply lpMerge_rep. Qed.

Lemma lpMerge_correct_witness :
  exists m', lpMerge (fun n => n) 0 (lp_block 4 demo_vs [7; 7]) (lp_block 4 demo_vs [7; 7])
    = Some (m', lp_total demo_vs <=? lp_total demo_vs) /\ rep m' (demo_vs ++ demo_vs).
Proof. apply lpMerge_correct; [intros n; lia|exact demo_rep|exact demo_rep|vm_compute; reflexivity]. Defined.
