(* ===== verification/Bitops.v ===== *)
(** * Bit operations on strings (src/bitops.c)

    Counting and finding bits, integers of any width at any bit offset, and
    the commands built on them.  A string value is its list of bytes and the
    address they are at; bit 0 is the most significant bit of the first byte.
    The commands are functions of the value of the key and of their parsed
    arguments; [None] is an access outside a buffer. *)
From S2P Require Import Prelude Numconv.
From Stdlib Require Import ZArith Lia.
From stdpp Require Import prelude list.

#[local] Open Scope Z_scope.

(** ** Counting *)

Definition bitsinbyte : list Z :=
  [0; 1; 1; 2; 1; 2; 2; 3; 1; 2; 2; 3; 2; 3; 3; 4; 1; 2; 2; 3; 2; 3; 3; 4; 2; 3; 3; 4; 3; 4; 4; 5;
   1; 2; 2; 3; 2; 3; 3; 4; 2; 3; 3; 4; 3; 4; 4; 5; 2; 3; 3; 4; 3; 4; 4; 5; 3; 4; 4; 5; 4; 5; 5; 6;
   1; 2; 2; 3; 2; 3; 3; 4; 2; 3; 3; 4; 3; 4; 4; 5; 2; 3; 3; 4; 3; 4; 4; 5; 3; 4; 4; 5; 4; 5; 5; 6;
   2; 3; 3; 4; 3; 4; 4; 5; 3; 4; 4; 5; 4; 5; 5; 6; 3; 4; 4; 5; 4; 5; 5; 6; 4; 5; 5; 6; 5; 6; 6; 7;
   1; 2; 2; 3; 2; 3; 3; 4; 2; 3; 3; 4; 3; 4; 4; 5; 2; 3; 3; 4; 3; 4; 4; 5; 3; 4; 4; 5; 4; 5; 5; 6;
   2; 3; 3; 4; 3; 4; 4; 5; 3; 4; 4; 5; 4; 5; 5; 6; 3; 4; 4; 5; 4; 5; 5; 6; 4; 5; 5; 6; 5; 6; 6; 7;
   2; 3; 3; 4; 3; 4; 4; 5; 3; 4; 4; 5; 4; 5; 5; 6; 3; 4; 4; 5; 4; 5; 5; 6; 4; 5; 5; 6; 5; 6; 6; 7;
   3; 4; 4; 5; 4; 5; 5; 6; 4; 5; 5; 6; 5; 6; 6; 7; 4; 5; 5; 6; 5; 6; 6; 7; 5; 6; 6; 7; 6; 7; 7; 8].

(** The bytes before an aligned address, one by one; the rest. *)
Fixpoint popcount_head (addr : Z) (p : list Z) (bits : Z) : option (Z * list Z) :=
  match p with
  | b :: p1 =>
      if negb (Z.land addr 3 =? 0) then
        n ← load bitsinbyte b; popcount_head (addr + 1) p1 (bits + n)
      else Some (bits, p)
  | [] => Some (bits, [])
  end.

Definition pop_aux (aux : Z) : Z :=
  let aux := wrapu 32 (aux - Z.land (Z.shiftr aux 1) 0x55555555) in
  wrapu 32 (Z.land aux 0x33333333 + Z.land (Z.shiftr aux 2) 0x33333333).

Definition pop_nibbles (aux : Z) : Z := Z.land (wrapu 32 (aux + Z.shiftr aux 4)) 0x0F0F0F0F.

(** The word number [k] of the buffer. *)
Definition word4 (p : list Z) (k : nat) : Z := le_decode (mem_read (4 * k) 4 p).

(** 28 bytes at a time; each turn consumes input. *)
Fixpoint popcount_words (fuel : nat) (p : list Z) (bits : Z) : Z * list Z :=
  match fuel with
  | O => (bits, p)
  | S fuel =>
      if (28 <=? length p)%nat then
        let aux k := pop_nibbles (pop_aux (word4 p k)) in
        let sum := wrapu 32 (aux 0%nat + aux 1%nat + aux 2%nat + aux 3%nat + aux 4%nat + aux 5%nat + aux 6%nat) in
        popcount_words fuel (drop 28 p) (bits + Z.shiftr (wrapu 32 (sum * 0x01010101)) 24)
      else (bits, p)
  end.

Fixpoint popcount_tail (p : list Z) (bits : Z) : option Z :=
  match p with
  | [] => Some bits
  | b :: p => n ← load bitsinbyte b; popcount_tail p (bits + n)
  end.

Definition serverPopcount (addr : Z) (s : list Z) : option Z :=
  r ← popcount_head addr s 0;
  let '(bits, p) := r in
  let '(bits, p) := popcount_words (length p) p bits in
  popcount_tail p bits.

(** ** Finding *)

Definition ULONG_MAX : Z := 2 ^ 64 - 1.

(** The bytes before an aligned address: [found], [pos] and the rest. *)
Fixpoint bitpos_head (addr skipval : Z) (c : list Z) (pos : Z) : bool * Z * list Z :=
  match c with
  | b :: c1 =>
      if negb (Z.land addr 7 =? 0) then
        if negb (b =? skipval) then (true, pos, c) else bitpos_head (addr + 1) skipval c1 (pos + 8)
      else (false, pos, c)
  | [] => (false, pos, [])
  end.

Fixpoint bitpos_words (fuel : nat) (skipval : Z) (c : list Z) (pos : Z) : Z * list Z :=
  match fuel with
  | O => (pos, c)
  | S fuel =>
      if (8 <=? length c)%nat then
        if negb (le_decode (take 8 c) =? skipval) then (pos, c)
        else bitpos_words fuel skipval (drop 8 c) (pos + 64)
      else (pos, c)
  end.

(** The next bytes, the first as the most significant, padded by zeros. *)
Fixpoint bitpos_load (n : nat) (word : Z) (c : list Z) : Z :=
  match n with
  | O => word
  | S n =>
      let word := wrapu 64 (Z.shiftl word 8) in
      match c with
      | b :: c => bitpos_load n (Z.lor word b) c
      | [] => bitpos_load n word []
      end
  end.

(** [one] goes through the 64 bits; [None] is the panic at the end. *)
Fixpoint bitpos_scan (n : nat) (one word : Z) (bit : bool) (pos : Z) : option Z :=
  if one =? 0 then None
  else
    match n with
    | O => None
    | S n =>
        if eqb (negb (Z.land one word =? 0)) bit then Some pos
        else bitpos_scan n (Z.shiftr one 1) word bit (pos + 1)
    end.

Definition serverBitpos (addr : Z) (s : list Z) (bit : bool) : option Z :=
  let '(found, pos, c) := bitpos_head addr (if bit then 0 else 255) s 0 in
  let '(pos, c) :=
    if (found : bool) then (pos, c) else bitpos_words (length c) (if bit then 0 else ULONG_MAX) c pos in
  let word := bitpos_load 8 0 c in
  if bit && (word =? 0) then Some (-1)
  else
    let one := wrapu 64 (Z.lnot (Z.shiftr ULONG_MAX 1)) in
    bitpos_scan 64 one word bit pos.

(** ** Integers at bit offsets *)

(** [n] is the number of bits left, so [n - 1] is [bits - 1 - j]. *)
Fixpoint setUnsigned_loop (n : nat) (p : list Z) (offset value : Z) : option (list Z) :=
  match n with
  | O => Some p
  | S n =>
      let bitval := if Z.land value (Z.shiftl 1 (Z.of_nat n)) =? 0 then 0 else 1 in
      let byte := Z.shiftr offset 3 in
      let bit := 7 - Z.land offset 0x7 in
      byteval ← load p byte;
      let byteval := Z.land byteval (wrapu 64 (Z.lnot (Z.shiftl 1 bit))) in
      let byteval := Z.lor byteval (Z.shiftl bitval bit) in
      p ← store p byte (Z.land byteval 0xff);
      setUnsigned_loop n p (offset + 1) value
  end.

Definition setUnsignedBitfield (p : list Z) (offset bits value : Z) : option (list Z) :=
  setUnsigned_loop (Z.to_nat bits) p offset value.

Definition setSignedBitfield (p : list Z) (offset bits value : Z) : option (list Z) :=
  setUnsignedBitfield p offset bits (wrapu 64 value).

Fixpoint getUnsigned_loop (n : nat) (p : list Z) (offset value : Z) : option Z :=
  match n with
  | O => Some value
  | S n =>
      let byte := Z.shiftr offset 3 in
      let bit := 7 - Z.land offset 0x7 in
      byteval ← load p byte;
      let bitval := Z.land (Z.shiftr byteval bit) 1 in
      getUnsigned_loop n p (offset + 1) (Z.lor (wrapu 64 (Z.shiftl value 1)) bitval)
  end.

Definition getUnsignedBitfield (p : list Z) (offset bits : Z) : option Z :=
  getUnsigned_loop (Z.to_nat bits) p offset 0.

Definition getSignedBitfield (p : list Z) (offset bits : Z) : option Z :=
  value ← getUnsignedBitfield p offset bits;
  Some (wraps 64 (if (bits <? 64) && negb (Z.land value (Z.shiftl 1 (bits - 1)) =? 0)
                  then Z.lor value (wrapu 64 (Z.shiftl ULONG_MAX bits)) else value)).

Inductive bfoverflow := BFOVERFLOW_WRAP | BFOVERFLOW_SAT | BFOVERFLOW_FAIL.

(** The result and [*limit], when it is set. *)
Definition unsigned_wrap (value incr bits : Z) : Z * option Z :=
  let mask := wrapu 64 (Z.shiftl ULONG_MAX bits) in
  let res := wrapu 64 (value + incr) in
  (1, Some (Z.land res (wrapu 64 (Z.lnot mask)))).

Definition checkUnsignedBitfieldOverflow (value incr bits : Z) (owtype : bfoverflow) : Z * option Z :=
  let max := if bits =? 64 then ULONG_MAX else Z.shiftl 1 bits - 1 in
  let maxincr := wraps 64 (max - value) in
  let minincr := wraps 64 (- value) in
  if (max <? value) || ((0 <? incr) && (maxincr <? incr)) then
    match owtype with
    | BFOVERFLOW_WRAP => unsigned_wrap value incr bits
    | BFOVERFLOW_SAT => (1, Some max)
    | BFOVERFLOW_FAIL => (1, None)
    end
  else if (incr <? 0) && (incr <? minincr) then
    match owtype with
    | BFOVERFLOW_WRAP => unsigned_wrap value incr bits
    | BFOVERFLOW_SAT => (-1, Some 0)
    | BFOVERFLOW_FAIL => (-1, None)
    end
  else (0, None).

Definition signed_wrap (value incr bits : Z) : Z * option Z :=
  let msb := Z.shiftl 1 (bits - 1) in
  let c := wrapu 64 (value + incr) in
  let mask := wrapu 64 (Z.shiftl ULONG_MAX bits) in
  let c :=
    if bits <? 64 then
      if negb (Z.land c msb =? 0) then Z.lor c mask else Z.land c (wrapu 64 (Z.lnot mask))
    else c in
  (1, Some (wraps 64 c)).

(** [minincr] is computed in [int64_t]; where it overflows it wraps, as on
    the machine. *)
Definition checkSignedBitfieldOverflow (value incr bits : Z) (owtype : bfoverflow) : Z * option Z :=
  let max := if bits =? 64 then 2 ^ 63 - 1 else Z.shiftl 1 (bits - 1) - 1 in
  let min := - max - 1 in
  let maxincr := wraps 64 (max - value) in
  let minincr := wraps 64 (min - value) in
  if (max <? value) || (negb (bits =? 64) && (maxincr <? incr))
     || ((0 <=? value) && (0 <? incr) && (maxincr <? incr)) then
    match owtype with
    | BFOVERFLOW_WRAP => signed_wrap value incr bits
    | BFOVERFLOW_SAT => (1, Some max)
    | BFOVERFLOW_FAIL => (1, None)
    end
  else if (value <? min) || (negb (bits =? 64) && (incr <? minincr))
     || ((value <? 0) && (incr <? 0) && (incr <? minincr)) then
    match owtype with
    | BFOVERFLOW_WRAP => signed_wrap value incr bits
    | BFOVERFLOW_SAT => (-1, Some min)
    | BFOVERFLOW_FAIL => (-1, None)
    end
  else (0, None).

(** ** Arguments *)

(** A C string ends at its first NUL. *)
Fixpoint cstring (p : list Z) : list Z :=
  match p with
  | [] => []
  | c :: p => if c =? 0 then [] else c :: cstring p
  end.

(** ASCII lower case, for [strcasecmp]. *)
Definition lower (c : Z) : Z := if (65 <=? c) && (c <=? 90) then c + 32 else c.
Definition strcaseeq (a b : list Z) : bool := bool_decide (lower <$> cstring a = b).

(** The error replies. *)
Inductive bit_error :=
  | Err_bit_offset | Err_bit | Err_integer | Err_syntax | Err_not_arity
  | Err_type | Err_overflow_type | Err_readonly.

(** [None] is C_ERR.  [obey] is [mustObeyClient]; the product is computed in
    [long long], where it wraps on the machine. *)
Definition getBitOffsetFromArgument (obey : bool) (proto_max_bulk_len : Z) (p : list Z) (hash : bool) (bits : Z) :
    option Z :=
  let usehash := bool_decide (head p = Some 35) && hash && (0 <? bits) in
  loffset ← string2ll (if usehash then tail p else p);
  let loffset := if usehash then wraps 64 (loffset * bits) else loffset in
  if (loffset <? 0) || (negb obey && (proto_max_bulk_len <=? Z.shiftr loffset 3)) then None
  else Some loffset.

(** The sign and the width. *)
Definition getBitfieldTypeFromArgument (p : list Z) : option (bool * Z) :=
  match p with
  | c :: p1 =>
      sign ← (if c =? 105 then Some true else if c =? 117 then Some false else None);
      llbits ← string2ll (cstring p1);
      if (llbits <? 1) || (sign && (64 <? llbits)) || (negb sign && (63 <? llbits)) then None
      else Some (sign, llbits)
  | [] => None
  end.

(** ** String values *)

Inductive string_object :=
  | Raw (ptr : list Z)
  | IntEncoded (v : Z).

(** The bytes of a value; an integer is printed to a buffer of
    [LONG_STR_SIZE] bytes. *)
Definition getObjectReadOnlyString (o : option string_object) : option (list Z) :=
  match o with
  | Some (IntEncoded v) =>
      let '(len, buf) := ll2string (replicate (Z.to_nat LONG_STR_SIZE) 0) v in Some (take (Z.to_nat len) buf)
  | Some (Raw p) => Some p
  | None => None
  end.

(** The bytes of the object decoded; an integer is printed to [buf]. *)
Definition getDecodedObject (o : string_object) : list Z :=
  match o with
  | Raw p => p
  | IntEncoded v => cstring (snd (ll2string (replicate 32 0) v))
  end.

(** Whether the object is copied or not, the caller gets these bytes. *)
Definition dbUnshareStringValue (o : string_object) : list Z := getDecodedObject o.

Definition sdsgrowzero (s : list Z) (len : nat) : list Z := s ++ replicate (len - length s) 0.

(** The bytes to write to, and [*dirty]. *)
Definition lookupStringForBitCommand (o : option string_object) (maxbit : Z) : list Z * bool :=
  let byte := Z.shiftr maxbit 3 in
  match o with
  | None => (replicate (Z.to_nat (byte + 1)) 0, true)
  | Some o =>
      let p := dbUnshareStringValue o in
      let oldlen := length p in
      let p := sdsgrowzero p (Z.to_nat (byte + 1)) in
      (p, negb (length p =? oldlen)%nat)
  end.

(** ** SETBIT and GETBIT *)

(** The reply, the new bytes, and whether the key counts as modified. *)
Definition setbitCommand (obey : bool) (maxlen : Z) (o : option string_object) (arg_offset arg_on : list Z) :
    option (bit_error + bool * list Z * bool) :=
  match getBitOffsetFromArgument obey maxlen arg_offset false 0, string2ll arg_on with
  | None, _ => Some (inl Err_bit_offset)
  | _, None => Some (inl Err_bit)
  | Some bitoffset, Some on =>
      if negb (Z.land on (Z.lnot 1) =? 0) then Some (inl Err_bit)
      else
        let '(p, dirty) := lookupStringForBitCommand o bitoffset in
        let byte := Z.shiftr bitoffset 3 in
        byteval ← load p byte;
        let bit := 7 - Z.land bitoffset 0x7 in
        let bitval := negb (Z.land byteval (Z.shiftl 1 bit) =? 0) in
        if dirty || negb (Z.b2z bitval =? on) then
          let byteval := Z.land byteval (Z.lnot (Z.shiftl 1 bit)) in
          let byteval := Z.lor byteval (Z.shiftl (Z.land on 0x1) bit) in
          p ← store p byte (wrapu 8 byteval);
          Some (inr (bitval, p, true))
        else Some (inr (bitval, p, false))
  end.

Definition getbitCommand (obey : bool) (maxlen : Z) (o : option string_object) (arg_offset : list Z) :
    option (bit_error + bool) :=
  match getBitOffsetFromArgument obey maxlen arg_offset false 0, o with
  | None, _ => Some (inl Err_bit_offset)
  | _, None => Some (inr false)
  | Some bitoffset, Some o =>
      let byte := Z.shiftr bitoffset 3 in
      let bit := 7 - Z.land bitoffset 0x7 in
      let '(len, p) :=
        match o with
        | Raw p => (Z.of_nat (length p), p)
        | IntEncoded v => ll2string (replicate 32 0) v
        end in
      if byte <? len then
        byteval ← load p byte; Some (inr (negb (Z.land byteval (Z.shiftl 1 bit) =? 0)))
      else Some (inr false)
  end.

(** ** BITOP *)

Inductive bitop := BITOP_AND | BITOP_OR | BITOP_XOR | BITOP_NOT.

(** [maxlen] and [minlen] after the lookups; a missing key has no bytes. *)
Fixpoint bitop_lengths (srcs : list (option (list Z))) (j : nat) (maxlen minlen : nat) : nat * nat :=
  match srcs with
  | [] => (maxlen, minlen)
  | None :: srcs => bitop_lengths srcs (S j) maxlen 0
  | Some p :: srcs =>
      let maxlen := if (maxlen <? length p)%nat then length p else maxlen in
      let minlen := if (j =? 0)%nat || (length p <? minlen)%nat then length p else minlen in
      bitop_lengths srcs (S j) maxlen minlen
  end.

Definition op_word (op : bitop) (a b : Z) : Z :=
  match op with
  | BITOP_AND => Z.land a b
  | BITOP_OR => Z.lor a b
  | BITOP_XOR => Z.lxor a b
  | BITOP_NOT => a
  end.

(** The four words at [lres] with those of another source. *)
Definition op_block (op : bitop) (lres lp : list Z) : list Z :=
  let w k := le_encode 8 (op_word op (le_decode (mem_read (8 * k) 8 lres)) (le_decode (mem_read (8 * k) 8 lp))) in
  w 0%nat ++ w 1%nat ++ w 2%nat ++ w 3%nat.

Definition not_block (lres : list Z) : list Z :=
  let w k := le_encode 8 (wrapu 64 (Z.lnot (le_decode (mem_read (8 * k) 8 lres)))) in
  w 0%nat ++ w 1%nat ++ w 2%nat ++ w 3%nat.

(** One turn of the fast path, on 32 bytes of each source. *)
Definition fast_block (op : bitop) (j : nat) (srcs : list (list Z)) : list Z :=
  match srcs with
  | [] => []
  | src0 :: others =>
      match op with
      | BITOP_NOT => not_block (mem_read j 32 src0)
      | _ => fold_left (fun lres lp => op_block op lres (mem_read j 32 lp)) others (mem_read j 32 src0)
      end
  end.

(** The bytes computed and [j].  The loop takes 32 bytes a turn. *)
Fixpoint fast_path (fuel : nat) (op : bitop) (srcs : list (list Z)) (j minlen : nat) (res : list Z) : list Z * nat :=
  match fuel with
  | O => (res, j)
  | S fuel =>
      if (32 <=? minlen)%nat then fast_path fuel op srcs (j + 32) (minlen - 32) (res ++ fast_block op j srcs)
      else (res, j)
  end.

(** The loop over the other sources for one byte, with its early exit. *)
Fixpoint slow_byte (op : bitop) (j : nat) (others : list (list Z)) (output : Z) : Z :=
  match others with
  | [] => output
  | src :: others =>
      let byte := default 0 (src !! j) in
      let output := op_word op output byte in
      let skip :=
        match op with
        | BITOP_AND => output =? 0
        | BITOP_OR => output =? 0xff
        | _ => false
        end in
      if skip then output else slow_byte op j others output
  end.

Definition slow_output (op : bitop) (srcs : list (list Z)) (j : nat) : Z :=
  match srcs with
  | [] => 0
  | src0 :: others =>
      let output := default 0 (src0 !! j) in
      let output := match op with BITOP_NOT => wrapu 8 (Z.lnot output) | _ => output end in
      slow_byte op j others output
  end.

Definition s_and : list Z := [97; 110; 100].
Definition s_or : list Z := [111; 114].
Definition s_xor : list Z := [120; 111; 114].
Definition s_not : list Z := [110; 111; 116].

Definition bitop_name (opname : list Z) : option bitop :=
  let first c := match opname with o :: _ => (o =? c) || (o =? c - 32) | [] => false end in
  if first 97 && strcaseeq opname s_and then Some BITOP_AND
  else if first 111 && strcaseeq opname s_or then Some BITOP_OR
  else if first 120 && strcaseeq opname s_xor then Some BITOP_XOR
  else if first 110 && strcaseeq opname s_not then Some BITOP_NOT
  else None.

(** The string computed, of [maxlen] bytes. *)
Definition bitop_compute (op : bitop) (srcs : list (option (list Z))) : list Z :=
  let '(maxlen, minlen) := bitop_lengths srcs 0 0 0 in
  let strs := default [] <$> srcs in
  let '(res, j) :=
    if (32 <=? minlen)%nat && (length srcs <=? 16)%nat then fast_path minlen op strs 0 minlen [] else ([], 0%nat) in
  res ++ (slow_output op strs <$> seq j (maxlen - j)).

(** The string for the target key, which is deleted when it is empty; the
    reply is its length. *)
Definition bitopCommand (opname : list Z) (srcs : list (option string_object)) : bit_error + list Z :=
  match bitop_name opname with
  | None => inl Err_syntax
  | Some op =>
      if match op with BITOP_NOT => negb (length srcs =? 1)%nat | _ => false end then inl Err_not_arity
      else inr (bitop_compute op (map (option_map getDecodedObject) srcs))
  end.

(** ** BITCOUNT and BITPOS *)

(** The range arguments: none, a start, or a start and an end. *)
Inductive bit_range :=
  | Whole
  | From (start : Z)
  | FromTo (start end_ : Z) (isbit : bool).

Definition s_bit : list Z := [98; 105; 116].
Definition s_byte : list Z := [98; 121; 116; 101].

Definition parse_range (args : list (list Z)) : bit_error + bit_range :=
  let unit_ u := if strcaseeq u s_bit then Some true else if strcaseeq u s_byte then Some false else None in
  match args with
  | [] => inr Whole
  | [s] => match string2ll s with None => inl Err_integer | Some s => inr (From s) end
  | [s; e] =>
      match string2ll s, string2ll e with
      | Some s, Some e => inr (FromTo s e false)
      | _, _ => inl Err_integer
      end
  | [s; e; u] =>
      match string2ll s, unit_ u, string2ll e with
      | None, _, _ => inl Err_integer
      | _, None, _ => inl Err_syntax
      | _, _, None => inl Err_integer
      | Some s, Some isbit, Some e => inr (FromTo s e isbit)
      end
  | _ => inl Err_syntax
  end.

(** The assertion that the length in bits does not overflow. *)
Definition range_assert (strlen : Z) (r : bit_range) : bool :=
  match r with Whole => true | _ => strlen <=? Z.shiftr (2 ^ 63 - 1) 3 end.

(** Start, end and the masks of the first and last byte. *)
Definition convert_range (strlen : Z) (r : bit_range) : Z * Z * Z * Z :=
  match r with
  | Whole => (0, strlen - 1, 0, 0)
  | _ =>
      let '(start, end_, isbit) :=
        match r with FromTo s e b => (s, e, b) | From s => (s, strlen - 1, false) | Whole => (0, strlen - 1, false) end in
      let totlen := if (isbit : bool) then Z.shiftl strlen 3 else strlen in
      let start := if start <? 0 then totlen + start else start in
      let end_ := if end_ <? 0 then totlen + end_ else end_ in
      let start := if start <? 0 then 0 else start in
      let end_ := if end_ <? 0 then 0 else end_ in
      let end_ := if totlen <=? end_ then totlen - 1 else end_ in
      if isbit && (start <=? end_) then
        let first_byte_neg_mask := Z.land (Z.lnot (Z.shiftl 1 (8 - Z.land start 7) - 1)) 0xFF in
        let last_byte_neg_mask := Z.shiftl 1 (7 - Z.land end_ 7) - 1 in
        (Z.shiftr start 3, Z.shiftr end_ 3, first_byte_neg_mask, last_byte_neg_mask)
      else (start, end_, 0, 0)
  end.

(** [addr] is where the bytes of the value are, [addr2] the local buffer. *)
Definition bitcount_range (addr addr2 : Z) (o : option string_object) (r : bit_range) : option Z :=
  let p := default [] (getObjectReadOnlyString o) in
  if negb (range_assert (Z.of_nat (length p)) r) then None else
  let early :=
    match r with
    | FromTo start end_ _ => (start <? 0) && (end_ <? 0) && (end_ <? start)
    | From start => (start <? 0) && (Z.of_nat (length p) - 1 <? 0) && (Z.of_nat (length p) - 1 <? start)
    | Whole => false
    end in
  if early then Some 0
  else
    let '(start, end_, first_byte_neg_mask, last_byte_neg_mask) := convert_range (Z.of_nat (length p)) r in
    match o with
    | None => Some 0
    | Some _ =>
        if end_ <? start then Some 0
        else
          bs ← load_bytes p start (end_ - start + 1);
          count ← serverPopcount (addr + start) bs;
          if negb (first_byte_neg_mask =? 0) || negb (last_byte_neg_mask =? 0) then
            first ← load p start;
            last ← load p end_;
            let f0 := if negb (first_byte_neg_mask =? 0) then Z.land first first_byte_neg_mask else 0 in
            let f1 := if negb (last_byte_neg_mask =? 0) then Z.land last last_byte_neg_mask else 0 in
            excluded ← serverPopcount addr2 [f0; f1];
            Some (count - excluded)
          else Some count
    end.

Definition bitcountCommand (addr addr2 : Z) (o : option string_object) (args : list (list Z)) :
    option (bit_error + Z) :=
  match parse_range args with
  | inl e => Some (inl e)
  | inr r => n ← bitcount_range addr addr2 o r; Some (inr n)
  end.

(** The byte at an edge of the range, without the bits outside. *)
Definition edge_byte (bit : bool) (b mask : Z) : Z :=
  if bit then Z.land b (Z.lnot mask) else Z.lor b mask.

(** The position found, with [start] and [bytes] at the label [result]. *)
Definition bitpos_search (addr addr2 : Z) (p : list Z) (bit : bool) (start end_ m1 m2 : Z) : option (Z * Z * Z) :=
  let bytes := end_ - start + 1 in
  r ← (if negb (m1 =? 0) then
         b ← load p start;
         let tmpchar := edge_byte bit b m1 in
         let tmpchar := if negb (m2 =? 0) && (bytes =? 1) then edge_byte bit tmpchar m2 else tmpchar in
         pos ← serverBitpos addr2 [tmpchar] bit;
         if (bytes =? 1) || (negb (pos =? -1) && negb (pos =? 8)) then Some (inl (pos, start, bytes))
         else Some (inr (start + 1, bytes - 1))
       else Some (inr (start, bytes)));
  match r with
  | inl res => Some res
  | inr (start, bytes) =>
      let curbytes := bytes - (if m2 =? 0 then 0 else 1) in
      r ← (if 0 <? curbytes then
             bs ← load_bytes p start curbytes;
             pos ← serverBitpos (addr + start) bs bit;
             if (bytes =? curbytes) || (negb (pos =? -1) && negb (pos =? Z.shiftl curbytes 3))
             then Some (inl (pos, start, bytes))
             else Some (inr (start + curbytes, bytes - curbytes))
           else Some (inr (start, bytes)));
      match r with
      | inl res => Some res
      | inr (start, bytes) =>
          b ← load p end_;
          pos ← serverBitpos addr2 [edge_byte bit b m2] bit;
          Some (pos, start, bytes)
      end
  end.

Definition bitpos_range (addr addr2 : Z) (o : option string_object) (bit : bool) (r : bit_range) : option Z :=
  let p := default [] (getObjectReadOnlyString o) in
  if negb (range_assert (Z.of_nat (length p)) r) then None else
  let '(start, end_, m1, m2) := convert_range (Z.of_nat (length p)) r in
  match o with
  | None => Some (if bit then -1 else 0)
  | Some _ =>
      if end_ <? start then Some (-1)
      else
        x ← bitpos_search addr addr2 p bit start end_ m1 m2;
        let '(pos, start, bytes) := x in
        let end_given := match r with FromTo _ _ _ => true | _ => false end in
        if end_given && negb bit && (pos =? Z.shiftl bytes 3) then Some (-1)
        else Some (if negb (pos =? -1) then pos + Z.shiftl start 3 else pos)
  end.

Definition bitposCommand (addr addr2 : Z) (o : option string_object) (arg_bit : list Z) (args : list (list Z)) :
    option (bit_error + Z) :=
  match string2ll arg_bit with
  | None => Some (inl Err_integer)
  | Some bit =>
      if negb (bit =? 0) && negb (bit =? 1) then Some (inl Err_bit)
      else
        match parse_range args with
        | inl e => Some (inl e)
        | inr r => n ← bitpos_range addr addr2 o (bit =? 1) r; Some (inr n)
        end
  end.

(** ** BITFIELD *)

Inductive bitfield_opcode := BITFIELDOP_GET | BITFIELDOP_SET | BITFIELDOP_INCRBY.

#[export] Instance bitfield_opcode_eq_dec : EqDecision bitfield_opcode.
Proof. solve_decision. Defined.

Record bitfieldOp := BitfieldOp {
  bf_offset : Z;
  bf_i64 : Z;
  bf_opcode : bitfield_opcode;
  bf_owtype : bfoverflow;
  bf_bits : Z;
  bf_sign : bool }.

Definition s_get : list Z := [103; 101; 116].
Definition s_set : list Z := [115; 101; 116].
Definition s_incrby : list Z := [105; 110; 99; 114; 98; 121].
Definition s_overflow : list Z := [111; 118; 101; 114; 102; 108; 111; 119].
Definition s_wrap : list Z := [119; 114; 97; 112].
Definition s_sat : list Z := [115; 97; 116].
Definition s_fail : list Z := [102; 97; 105; 108].

(** The loop over the arguments: the operations, the highest bit written and
    [readonly].  Each turn consumes an argument. *)
Fixpoint parse_ops (obey : bool) (maxlen : Z) (fuel : nat) (argv : list (list Z)) (owtype : bfoverflow)
    (ops : list bitfieldOp) (highest : Z) (readonly : bool) : bit_error + list bitfieldOp * Z * bool :=
  match fuel, argv with
  | S fuel, subcmd :: args =>
      let op code value :=
        match args with
        | ty :: off :: rest =>
            match getBitfieldTypeFromArgument ty with
            | None => inl Err_type
            | Some (sign, bits) =>
                match getBitOffsetFromArgument obey maxlen off true bits with
                | None => inl Err_bit_offset
                | Some bitoffset =>
                    match code with
                    | BITFIELDOP_GET =>
                        parse_ops obey maxlen fuel rest owtype
                          (ops ++ [BitfieldOp bitoffset 0 code owtype bits sign]) highest readonly
                    | _ =>
                        let highest := if highest <? bitoffset + bits - 1 then bitoffset + bits - 1 else highest in
                        match value rest with
                        | None => inl Err_integer
                        | Some i64 =>
                            parse_ops obey maxlen fuel (tail rest) owtype
                              (ops ++ [BitfieldOp bitoffset i64 code owtype bits sign]) highest false
                        end
                    end
                end
            end
        | _ => inl Err_syntax
        end in
      let value rest := match rest with v :: _ => string2ll v | [] => None end in
      if strcaseeq subcmd s_get && (2 <=? length args)%nat then op BITFIELDOP_GET value
      else if strcaseeq subcmd s_set && (3 <=? length args)%nat then op BITFIELDOP_SET value
      else if strcaseeq subcmd s_incrby && (3 <=? length args)%nat then op BITFIELDOP_INCRBY value
      else if strcaseeq subcmd s_overflow && (1 <=? length args)%nat then
        let name := default [] (head args) in
        if strcaseeq name s_wrap then parse_ops obey maxlen fuel (tail args) BFOVERFLOW_WRAP ops highest readonly
        else if strcaseeq name s_sat then parse_ops obey maxlen fuel (tail args) BFOVERFLOW_SAT ops highest readonly
        else if strcaseeq name s_fail then parse_ops obey maxlen fuel (tail args) BFOVERFLOW_FAIL ops highest readonly
        else inl Err_overflow_type
      else inl Err_syntax
  | _, _ => inr (ops, highest, readonly)
  end.

(** The result of a check as the caller uses it: [None] inside is an overflow
    under BFOVERFLOW_FAIL, where nothing is written; the outer [None] is a read
    of a [wrapped] the check did not set. *)
Definition checked (r : Z * option Z) (owtype : bfoverflow) (newval : Z) : option (option Z) :=
  let '(overflow, wrapped) := r in
  if overflow =? 0 then Some (Some newval)
  else match owtype with
       | BFOVERFLOW_FAIL => Some None
       | _ => wrapped ← wrapped; Some (Some wrapped)
       end.

(** The new value of a SET or an INCRBY. *)
Definition signed_update (op : bitfieldOp) (oldval : Z) : option (option Z) :=
  match bf_opcode op with
  | BITFIELDOP_INCRBY =>
      checked (checkSignedBitfieldOverflow oldval (bf_i64 op) (bf_bits op) (bf_owtype op)) (bf_owtype op)
        (wraps 64 (oldval + bf_i64 op))
  | _ => checked (checkSignedBitfieldOverflow (bf_i64 op) 0 (bf_bits op) (bf_owtype op)) (bf_owtype op) (bf_i64 op)
  end.

Definition unsigned_update (op : bitfieldOp) (oldval : Z) : option (option Z) :=
  match bf_opcode op with
  | BITFIELDOP_INCRBY =>
      checked (checkUnsignedBitfieldOverflow oldval (bf_i64 op) (bf_bits op) (bf_owtype op)) (bf_owtype op)
        (wrapu 64 (oldval + bf_i64 op))
  | _ =>
      let newval := wrapu 64 (bf_i64 op) in
      checked (checkUnsignedBitfieldOverflow newval 0 (bf_bits op) (bf_owtype op)) (bf_owtype op) newval
  end.

(** The value a SET or an INCRBY replies. *)
Definition update_reply (op : bitfieldOp) (oldval newval : Z) : Z :=
  match bf_opcode op with BITFIELDOP_INCRBY => newval | _ => oldval end.

(** GET copies up to nine bytes to a local buffer, padded by zeros. *)
Definition get_buffer (src : list Z) (byte : Z) : list Z :=
  let bs := take 9 (drop (Z.to_nat byte) src) in bs ++ replicate (9 - length bs) 0.

(** One operation: the bytes, the reply ([None] is a null) and whether it
    counts as a change.  [addReplyLongLong] takes a [long long], to which an
    unsigned value is converted. *)
Definition exec_op (p : list Z) (dirty : bool) (op : bitfieldOp) : option (list Z * option Z * bool) :=
  match bf_opcode op with
  | BITFIELDOP_GET =>
      let byte := Z.shiftr (bf_offset op) 3 in
      let buf := get_buffer p byte in
      let offset := bf_offset op - byte * 8 in
      if bf_sign op then
        val ← getSignedBitfield buf offset (bf_bits op);
        Some (p, Some val, false)
      else
        val ← getUnsignedBitfield buf offset (bf_bits op);
        Some (p, Some (wraps 64 val), false)
  | _ =>
      if bf_sign op then
        oldval ← getSignedBitfield p (bf_offset op) (bf_bits op);
        newval ← signed_update op oldval;
        match newval with
        | Some newval =>
            p ← setSignedBitfield p (bf_offset op) (bf_bits op) newval;
            Some (p, Some (update_reply op oldval newval), dirty || negb (oldval =? newval))
        | None => Some (p, None, false)
        end
      else
        oldval ← getUnsignedBitfield p (bf_offset op) (bf_bits op);
        newval ← unsigned_update op oldval;
        match newval with
        | Some newval =>
            p ← setUnsignedBitfield p (bf_offset op) (bf_bits op) newval;
            Some (p, Some (wraps 64 (update_reply op oldval newval)), dirty || negb (oldval =? newval))
        | None => Some (p, None, false)
        end
  end.

Fixpoint exec_ops (p : list Z) (dirty : bool) (ops : list bitfieldOp) (replies : list (option Z)) (changes : nat) :
    option (list Z * list (option Z) * nat) :=
  match ops with
  | [] => Some (p, replies, changes)
  | op :: ops =>
      r ← exec_op p dirty op;
      let '(p, reply, changed) := r in
      exec_ops p dirty ops (replies ++ [reply]) (if changed : bool then S changes else changes)
  end.

(** The replies, the new bytes when the key is written, and the changes. *)
Definition bitfieldGeneric (obey : bool) (maxlen : Z) (flag_readonly : bool) (o : option string_object)
    (argv : list (list Z)) : option (bit_error + list (option Z) * option (list Z) * nat) :=
  match parse_ops obey maxlen (length argv) argv BFOVERFLOW_WRAP [] 0 true with
  | inl e => Some (inl e)
  | inr (ops, highest, readonly) =>
      if (readonly : bool) then
        r ← exec_ops (default [] (getObjectReadOnlyString o)) false ops [] 0;
        let '(_, replies, changes) := r in Some (inr (replies, None, changes))
      else if flag_readonly then Some (inl Err_readonly)
      else
        let '(p, dirty) := lookupStringForBitCommand o highest in
        r ← exec_ops p dirty ops [] 0;
        let '(p, replies, changes) := r in Some (inr (replies, Some p, changes))
  end.

Definition bitfieldCommand (obey : bool) (maxlen : Z) := bitfieldGeneric obey maxlen false.
Definition bitfieldroCommand (obey : bool) (maxlen : Z) := bitfieldGeneric obey maxlen true.
