(* ===== verification/BitopsCount.v ===== *)
(** * Counting and finding bits

    The bits of a string as a function of their position, and the proofs that
    [serverPopcount] counts them and [serverBitpos] finds the first, for every
    alignment of the buffer. *)
From S2P Require Import Prelude Bitops.
From Stdlib Require Import ZArith Lia.
From stdpp Require Import prelude list.

#[local] Open Scope Z_scope.

(** Bit [k] of a string, the most significant bit of a byte first; the bits
    past the end are zero. *)
Definition bit_at (p : list Z) (k : Z) : bool := Z.testbit (nth (Z.to_nat (k / 8)) p 0) (7 - k mod 8).

(** How many of the [n] bits from [lo] are set. *)
Fixpoint ones (f : Z -> bool) (lo : Z) (n : nat) : Z :=
  match n with
  | O => 0
  | S n => Z.b2z (f lo) + ones f (lo + 1) n
  end.

Definition byte_ones (b : Z) : Z := ones (fun k => Z.testbit b (7 - k)) 0 8.
Definition all_ones (s : list Z) : Z := foldr (fun b n => byte_ones b + n) 0 s.

Lemma ones_ext f g lo n : (forall k, lo <= k < lo + Z.of_nat n -> f k = g k) -> ones f lo n = ones g lo n.
Proof.
  revert lo. induction n as [|n IH]; intros lo H; [done|]. cbn [ones].
  rewrite (H lo), (IH (lo + 1)) by (lia || (intros; apply H; lia)). done.
Qed.

Lemma ones_app f lo n m : ones f lo (n + m) = ones f lo n + ones f (lo + Z.of_nat n) m.
Proof.
  revert lo. induction n as [|n IH]; intros lo; cbn [ones Nat.add]; [by rewrite Z.add_0_r|].
  rewrite IH. replace (lo + 1 + Z.of_nat n) with (lo + Z.of_nat (S n)) by lia. lia.
Qed.

Lemma ones_shift f lo d n : ones f (lo + d) n = ones (fun k => f (k + d)) lo n.
Proof.
  revert lo. induction n as [|n IH]; intros lo; [done|]. cbn [ones].
  by replace (lo + d + 1) with (lo + 1 + d) by lia; rewrite IH.
Qed.

Lemma bit_at_head b p k : 0 <= k < 8 -> bit_at (b :: p) k = Z.testbit b (7 - k).
Proof. intros Hk. unfold bit_at. by rewrite Z.div_small, Z.mod_small by lia. Qed.

Lemma bit_at_app s p k : 0 <= k -> bit_at (s ++ p) (k + 8 * Z.of_nat (length s)) = bit_at p k.
Proof.
  intros Hk. unfold bit_at. rewrite (Z.mul_comm 8), Z.div_add, Z.mod_add by lia.
  pose proof (Z.div_pos k 8 Hk ltac:(lia)).
  rewrite app_nth2 by lia. do 2 f_equal. lia.
Qed.

Lemma bit_at_cons b p k : 0 <= k -> bit_at (b :: p) (k + 8) = bit_at p k.
Proof. intros Hk. by apply (bit_at_app [b]). Qed.

Lemma bit_at_out p k : 8 * Z.of_nat (length p) <= k -> bit_at p k = false.
Proof.
  intros Hk. unfold bit_at. rewrite nth_overflow; [apply Z.testbit_0_l|].
  pose proof (Z.div_le_lower_bound k 8 (Z.of_nat (length p)) ltac:(lia) Hk). lia.
Qed.

Lemma all_ones_spec s : all_ones s = ones (bit_at s) 0 (8 * length s).
Proof.
  induction s as [|b s IH]; [done|]. cbn [all_ones foldr length].
  replace (8 * S (length s))%nat with (8 + 8 * length s)%nat by lia.
  rewrite ones_app. fold (all_ones s). rewrite IH. apply (f_equal2 Z.add).
  - apply ones_ext. intros k Hk. by rewrite bit_at_head by lia.
  - change (0 + Z.of_nat 8) with (0 + 8). rewrite ones_shift. apply ones_ext. intros k Hk. by rewrite bit_at_cons by lia.
Qed.

Lemma all_ones_app s t : all_ones (s ++ t) = all_ones s + all_ones t.
Proof. induction s as [|b s IH]; [done|]. cbn [all_ones foldr app]. fold (all_ones (s ++ t)) (all_ones s). lia. Qed.

Lemma decode_cons b bs : le_decode (b :: bs) = b + 256 * le_decode bs.
Proof. done. Qed.

(** ** The table and the lanes *)

Lemma bitsinbyte_spec b : is_byte b -> load bitsinbyte b = Some (byte_ones b).
Proof.
  intros Hb.
  pose proof (all_between_spec 0 256
    (fun b => match load bitsinbyte b with Some n => n =? byte_ones b | None => false end) b ltac:(by vm_compute) Hb) as H.
  cbv beta in H. destruct (load bitsinbyte b); [by apply Z.eqb_eq in H as ->|done].
Qed.

Lemma lane_split lo hi s m M :
  is_byte lo -> 0 <= hi -> 0 <= s <= 8 -> fits_u (8 - s) m -> 0 <= M ->
  Z.land (Z.shiftr (lo + 256 * hi) s) (m + 256 * M) = Z.land (Z.shiftr lo s) m + 256 * Z.land (Z.shiftr hi s) M.
Proof.
  intros Hlo Hhi Hs Hm HM.
  assert (forall a c, fits_u 8 a -> a + 256 * c = Z.lor (c * 2 ^ 8) a) as Hor by (intros; rewrite lor_disjoint by (lia || done); lia).
  assert (fits_u 8 m) as Hm8 by (unfold fits_u in *; pose proof (Z.pow_le_mono_r 2 (8 - s) 8); lia).
  assert (0 <= Z.land (Z.shiftr lo s) m < 256) as Hl.
  { rewrite Z.land_comm. apply (land_fits 8); [lia|done]. }
  rewrite !Hor by done. apply Z.bits_inj'. intros i Hi.
  rewrite Z.land_spec, Z.shiftr_spec, !Z.lor_spec, Z.land_spec, Z.shiftr_spec by done.
  destruct (Z.ltb_spec i 8) as [H8|H8].
  - rewrite !(Z.mul_pow2_bits_low _ 8 i) by lia. cbn [orb].
    destruct (Z.ltb_spec i (8 - s)).
    + rewrite (Z.mul_pow2_bits_low _ 8 (i + s)) by lia. done.
    + by rewrite (testbit_high (8 - s) m i), !andb_false_r by (done || lia).
  - rewrite !Z.mul_pow2_bits, Z.land_spec, Z.shiftr_spec by lia.
    rewrite (testbit_high 8 lo), (testbit_high 8 m) by (done || lia).
    rewrite !orb_false_r. by replace (i - 8 + s) with (i + s - 8) by lia.
Qed.

Lemma lanes_land s m bs :
  Forall is_byte bs -> 0 <= s <= 8 -> fits_u (8 - s) m ->
  Z.land (Z.shiftr (le_decode bs) s) (le_decode (replicate (length bs) m)) =
    le_decode ((fun b => Z.land (Z.shiftr b s) m) <$> bs).
Proof.
  intros Hbs Hs Hm. induction Hbs as [|b bs Hb Hbs IH]; [by rewrite Z.land_0_r|].
  assert (is_byte m) by (unfold is_byte, fits_u in *; pose proof (Z.pow_le_mono_r 2 (8 - s) 8); lia).
  pose proof (le_decode_bound bs Hbs). 
  pose proof (le_decode_bound (replicate (length bs) m) ltac:(by apply Forall_replicate)).
  cbn [length replicate]. rewrite fmap_cons, !decode_cons, lane_split by (done || lia). by rewrite IH.
Qed.

(** The steps of the 28-byte loop, on one byte. *)
Definition lane2 (b : Z) : Z := b - Z.land (Z.shiftr b 1) 0x55.
Definition lane4 (b : Z) : Z := Z.land (Z.shiftr (lane2 b) 0) 0x33 + Z.land (Z.shiftr (lane2 b) 2) 0x33.
Definition lane8 (a : Z) : Z := Z.land (a + Z.shiftr a 4) 0x0F.

Lemma lane_facts b : is_byte b ->
  is_byte (lane2 b) /\ is_byte (lane4 b) /\ lane4 b mod 16 <= 4 /\ lane4 b / 16 <= 4 /\ lane8 (lane4 b) = byte_ones b /\
  0 <= byte_ones b <= 8.
Proof.
  intros Hb. unfold is_byte.
  pose proof (all_between_spec 0 256 (fun b => (0 <=? lane2 b) && (lane2 b <? 256) && (0 <=? lane4 b) && (lane4 b <? 256)
    && (lane4 b mod 16 <=? 4) && (lane4 b / 16 <=? 4) && (lane8 (lane4 b) =? byte_ones b) && (0 <=? byte_ones b)
    && (byte_ones b <=? 8)) b ltac:(by vm_compute) Hb) as H. cbv beta in H.
  repeat apply andb_true_iff in H as [H ?]. lia.
Qed.

Lemma le_decode_map2 (f g h : Z -> Z) (bs : list Z) :
  (forall b, h b = f b + g b) -> le_decode (f <$> bs) + le_decode (g <$> bs) = le_decode (h <$> bs).
Proof.
  intros H. induction bs as [|b bs IH]; [done|]. rewrite !fmap_cons, !decode_cons, H.
  lia.
Qed.

Lemma le_decode_fits4 bs : Forall is_byte bs -> length bs = 4%nat -> fits_u 32 (le_decode bs).
Proof. intros H Hl. pose proof (le_decode_bound bs H) as Hb. rewrite Hl in Hb. exact Hb. Qed.

Lemma pop_aux_lanes bs :
  Forall is_byte bs -> length bs = 4%nat -> pop_aux (le_decode bs) = le_decode (lane4 <$> bs).
Proof.
  intros Hbs Hl. unfold pop_aux.
  assert (Forall is_byte (lane2 <$> bs)) as H2.
  { apply Forall_fmap. eapply Forall_impl; [done|]. intros b Hb. by apply lane_facts. }
  assert (Forall is_byte (lane4 <$> bs)) as H4.
  { apply Forall_fmap. eapply Forall_impl; [done|]. intros b Hb. by apply lane_facts. }
  pose proof (lanes_land 1 0x55 bs Hbs ltac:(lia) ltac:(done)) as E1. rewrite Hl in E1.
  change (le_decode (replicate 4 0x55)) with 0x55555555 in E1. rewrite E1.
  pose proof (le_decode_map2 lane2 (fun b => Z.land (Z.shiftr b 1) 0x55) id bs ltac:(intros; unfold lane2, id; lia)) as E2.
  rewrite list_fmap_id in E2.
  replace (le_decode bs - _) with (le_decode (lane2 <$> bs)) by lia.
  rewrite (wrapu_id 32 (le_decode (lane2 <$> bs))) by (apply le_decode_fits4; [done|by rewrite length_fmap]).
  pose proof (lanes_land 0 0x33 _ H2 ltac:(lia) ltac:(done)) as E3.
  pose proof (lanes_land 2 0x33 _ H2 ltac:(lia) ltac:(done)) as E4.
  rewrite length_fmap, Hl in E3, E4. change (le_decode (replicate 4 0x33)) with 0x33333333 in E3, E4.
  rewrite Z.shiftr_0_r in E3. rewrite E3, E4, <- !list_fmap_compose.
  rewrite (le_decode_map2 _ _ lane4) by done. apply wrapu_id, le_decode_fits4; [done|by rewrite length_fmap].
Qed.

(** Nibbles of at most 4: the addition of [pop_nibbles] does not carry out of a
    byte. *)
Definition small_nibbles (a : Z) : Prop := is_byte a /\ a mod 16 <= 4 /\ a / 16 <= 4.

Lemma add_nibble_land a hi M :
  small_nibbles a -> 0 <= hi -> hi mod 16 <= 4 -> 0 <= M ->
  Z.land (a + 256 * hi + Z.shiftr (a + 256 * hi) 4) (0x0F + 256 * M) = lane8 a + 256 * Z.land (hi + Z.shiftr hi 4) M.
Proof.
  intros (Ha & Ha1 & Ha2) Hhi H4 HM. unfold lane8, is_byte in *. rewrite !Z.shiftr_div_pow2 by lia. change (2 ^ 4) with 16.
  set (x := a + a / 16 + 16 * (hi mod 16)).
  assert ((a + 256 * hi) / 16 = a / 16 + 16 * hi) as -> by (rewrite (Z.mul_comm 256), <- (Z.div_add a (16 * hi) 16) by lia; f_equal; lia).
  assert (is_byte x) as Hx by (unfold x, is_byte; pose proof (Z.mod_pos_bound hi 16); pose proof (Z.div_mod a 16); lia).
  replace (a + 256 * hi + (a / 16 + 16 * hi)) with (x + 256 * (hi + hi / 16))
    by (unfold x; pose proof (Z.div_mod hi 16); lia).
  pose proof (Z.div_pos hi 16 Hhi ltac:(lia)).
  pose proof (lane_split x (hi + hi / 16) 0 0x0F M Hx ltac:(lia) ltac:(lia) ltac:(done) HM) as E.
  rewrite !Z.shiftr_0_r in E. rewrite E. f_equal.
  change 0x0F with (Z.ones 4). rewrite !Z.land_ones by lia. unfold x. change (2 ^ 4) with 16.
  by rewrite (Z.mul_comm 16 (hi mod 16)), Z.mod_add by lia.
Qed.

Lemma lanes_nibbles bs :
  Forall small_nibbles bs ->
  Z.land (le_decode bs + Z.shiftr (le_decode bs) 4) (le_decode (replicate (length bs) 0x0F)) = le_decode (lane8 <$> bs).
Proof.
  induction 1 as [|a bs Ha Hbs IH]; [done|].
  assert (0 <= le_decode bs) by (apply le_decode_bound; eapply Forall_impl; [done|]; by intros ? []).
  assert (0 <= le_decode (replicate (length bs) 0x0F)) by (apply le_decode_bound, Forall_replicate; done).
  assert (le_decode bs mod 16 <= 4).
  { destruct Hbs as [|c cs (_ & Hc & _) _]; [done|]. rewrite decode_cons.
    replace (c + 256 * le_decode cs) with (c + (16 * le_decode cs) * 16) by lia. by rewrite Z.mod_add by lia. }
  cbn [length replicate]. rewrite fmap_cons, !decode_cons, add_nibble_land by done. by rewrite IH.
Qed.

Lemma word_lanes bs :
  Forall is_byte bs -> length bs = 4%nat -> pop_nibbles (pop_aux (le_decode bs)) = le_decode (byte_ones <$> bs).
Proof.
  intros Hbs Hl. rewrite pop_aux_lanes by done. unfold pop_nibbles.
  assert (Forall small_nibbles (lane4 <$> bs)) as Hn.
  { apply Forall_fmap. eapply Forall_impl; [done|]. intros b Hb. unfold small_nibbles, compose. by pose proof (lane_facts b Hb) as (?&?&?&?&?). }
  assert (E : lane8 <$> (lane4 <$> bs) = byte_ones <$> bs).
  { rewrite <- list_fmap_compose. apply list_fmap_ext. intros i b Hb. apply lane_facts. by eapply Forall_lookup_1 in Hb. }
  rewrite <- E, <- lanes_nibbles by done. rewrite length_fmap, Hl. change (le_decode (replicate 4 0x0F)) with 0x0F0F0F0F.
  rewrite wrapu_id; [done|]. unfold fits_u.
  assert (le_decode (lane4 <$> bs) <= 0x44444444 /\ 0 <= le_decode (lane4 <$> bs)) as [Hu H0].
  { destruct bs as [|b0 [|b1 [|b2 [|b3 [|]]]]]; try done. rewrite !fmap_cons, fmap_nil in *. rewrite !decode_cons.
    change (le_decode []) with 0.
    repeat match goal with H : Forall _ (_ :: _) |- _ => apply Forall_cons in H as [(?&?&?) ?] end.
    unfold is_byte in *. pose proof (Z.div_mod (lane4 b0) 16). pose proof (Z.div_mod (lane4 b1) 16).
    pose proof (Z.div_mod (lane4 b2) 16). pose proof (Z.div_mod (lane4 b3) 16). lia. }
  rewrite Z.shiftr_div_pow2 by lia. pose proof (Z.div_pos (le_decode (lane4 <$> bs)) (2 ^ 4) H0 ltac:(lia)).
  pose proof (Z.div_le_mono (le_decode (lane4 <$> bs)) 0x44444444 (2 ^ 4) ltac:(lia) Hu).
  change (0x44444444 / 2 ^ 4) with 0x4444444 in *. lia.
Qed.

(** The multiplication adds the four lanes into the top byte. *)
Lemma lanes_sum c0 c1 c2 c3 :
  0 <= c0 <= 56 -> 0 <= c1 <= 56 -> 0 <= c2 <= 56 -> 0 <= c3 <= 56 ->
  Z.shiftr (wrapu 32 (wrapu 32 (c0 + 256 * (c1 + 256 * (c2 + 256 * c3))) * 0x01010101)) 24 = c0 + c1 + c2 + c3.
Proof.
  intros H0 H1 H2 H3. rewrite (wrapu_id 32 (_ + _)) by (unfold fits_u; lia).
  unfold wrapu. set (low := c0 + 256 * (c0 + c1) + 65536 * (c0 + c1 + c2)).
  replace ((c0 + 256 * (c1 + 256 * (c2 + 256 * c3))) * 0x01010101)
    with ((low + (c0 + c1 + c2 + c3) * 2 ^ 24) + (c1 + c2 + c3 + 256 * (c2 + c3) + 65536 * c3) * 2 ^ 32) by (unfold low; lia).
  rewrite Z.mod_add, Z.mod_small by (unfold low; lia).
  rewrite Z.shiftr_div_pow2, Z.div_add, Z.div_small by (unfold low; lia). lia.
Qed.

Lemma word4_lanes p k :
  Forall is_byte p -> (4 * k + 4 <= length p)%nat ->
  exists b0 b1 b2 b3, mem_read (4 * k) 4 p = [b0; b1; b2; b3] /\ Forall is_byte [b0; b1; b2; b3] /\
    pop_nibbles (pop_aux (word4 p k)) =
      byte_ones b0 + 256 * (byte_ones b1 + 256 * (byte_ones b2 + 256 * byte_ones b3)).
Proof.
  intros Hp Hl. assert (length (mem_read (4 * k) 4 p) = 4%nat) as Hr by (rewrite length_mem_read; lia).
  assert (Forall is_byte (mem_read (4 * k) 4 p)) as Hb by (by apply Forall_take, Forall_drop).
  unfold word4. rewrite word_lanes by done.
  destruct (mem_read (4 * k) 4 p) as [|b0 [|b1 [|b2 [|b3 [|]]]]]; try done.
  exists b0, b1, b2, b3. split; [done|]. split; [done|]. rewrite !fmap_cons, fmap_nil, !decode_cons.
  change (le_decode []) with 0. lia.
Qed.

Lemma take28 (p : list Z) :
  take 28 p = mem_read (4 * 0) 4 p ++ mem_read (4 * 1) 4 p ++ mem_read (4 * 2) 4 p ++ mem_read (4 * 3) 4 p ++
              mem_read (4 * 4) 4 p ++ mem_read (4 * 5) 4 p ++ mem_read (4 * 6) 4 p.
Proof. change (take 28 p) with (mem_read 0 28 p). by rewrite <- !mem_read_split. Qed.

Lemma popcount_block p :
  Forall is_byte p -> (28 <= length p)%nat ->
  let aux k := pop_nibbles (pop_aux (word4 p k)) in
  Z.shiftr (wrapu 32 (wrapu 32 (aux 0%nat + aux 1%nat + aux 2%nat + aux 3%nat + aux 4%nat + aux 5%nat + aux 6%nat)
    * 0x01010101)) 24 = all_ones (take 28 p).
Proof.
  intros Hp Hl aux. unfold aux. rewrite take28, !all_ones_app.
  destruct (word4_lanes p 0 Hp ltac:(lia)) as (a0 & a1 & a2 & a3 & -> & Ha & ->).
  destruct (word4_lanes p 1 Hp ltac:(lia)) as (b0 & b1 & b2 & b3 & -> & Hb & ->).
  destruct (word4_lanes p 2 Hp ltac:(lia)) as (c0 & c1 & c2 & c3 & -> & Hc & ->).
  destruct (word4_lanes p 3 Hp ltac:(lia)) as (d0 & d1 & d2 & d3 & -> & Hd & ->).
  destruct (word4_lanes p 4 Hp ltac:(lia)) as (e0 & e1 & e2 & e3 & -> & He & ->).
  destruct (word4_lanes p 5 Hp ltac:(lia)) as (f0 & f1 & f2 & f3 & -> & Hf & ->).
  destruct (word4_lanes p 6 Hp ltac:(lia)) as (g0 & g1 & g2 & g3 & -> & Hg & ->).
  repeat match goal with
  | H : Forall is_byte (_ :: _) |- _ => apply Forall_cons in H as [?%lane_facts H]
  end.
  cbn [all_ones foldr].
  pose proof (lanes_sum
    (byte_ones a0 + byte_ones b0 + byte_ones c0 + byte_ones d0 + byte_ones e0 + byte_ones f0 + byte_ones g0)
    (byte_ones a1 + byte_ones b1 + byte_ones c1 + byte_ones d1 + byte_ones e1 + byte_ones f1 + byte_ones g1)
    (byte_ones a2 + byte_ones b2 + byte_ones c2 + byte_ones d2 + byte_ones e2 + byte_ones f2 + byte_ones g2)
    (byte_ones a3 + byte_ones b3 + byte_ones c3 + byte_ones d3 + byte_ones e3 + byte_ones f3 + byte_ones g3)
    ltac:(lia) ltac:(lia) ltac:(lia) ltac:(lia)) as E.
  match type of E with Z.shiftr (wrapu 32 (wrapu 32 ?y * _)) _ = _ =>
    match goal with |- Z.shiftr (wrapu 32 (wrapu 32 ?x * _)) _ = _ => replace x with y by lia end end.
  rewrite E. lia.
Qed.

Lemma popcount_words_spec fuel p bits :
  Forall is_byte p -> exists q, (popcount_words fuel p bits).2 = q /\ Forall is_byte q /\
    (popcount_words fuel p bits).1 + all_ones q = bits + all_ones p.
Proof.
  revert p bits. induction fuel as [|fuel IH]; intros p bits Hp; cbn [popcount_words]; [by exists p|].
  destruct (Nat.leb_spec 28 (length p)); [|by exists p].
  rewrite (popcount_block p Hp) by done.
  destruct (IH (drop 28 p) (bits + all_ones (take 28 p)) ltac:(by apply Forall_drop)) as (q & Hq & Hqb & E).
  exists q. split; [done|]. split; [done|]. rewrite E. rewrite <- (take_drop 28 p) at 3. rewrite all_ones_app. lia.
Qed.

Lemma popcount_tail_spec p bits : Forall is_byte p -> popcount_tail p bits = Some (bits + all_ones p).
Proof.
  intros Hp. revert bits. induction Hp as [|b p Hb Hp IH]; intros bits; cbn [popcount_tail]; [by rewrite Z.add_0_r|].
  rewrite bitsinbyte_spec by done. mstep. rewrite IH. cbn [all_ones foldr]. fold (all_ones p). f_equal. lia.
Qed.

Lemma popcount_head_spec addr p bits :
  Forall is_byte p ->
  exists n q, popcount_head addr p bits = Some (n, q) /\ Forall is_byte q /\ n + all_ones q = bits + all_ones p.
Proof.
  intros Hp. revert addr bits. induction Hp as [|b p Hb Hp IH]; intros addr bits; cbn [popcount_head]; [by exists bits, []|].
  destruct (negb _); [|exists bits, (b :: p); split_and!; [done|by constructor|done]].
  rewrite bitsinbyte_spec by done. mstep. destruct (IH (addr + 1) (bits + byte_ones b)) as (n & q & -> & Hq & E).
  exists n, q. split_and!; [done|done|]. rewrite E. cbn [all_ones foldr]. fold (all_ones p). lia.
Qed.

(** The count, at any address. *)
Lemma serverPopcount_spec addr s : Forall is_byte s -> serverPopcount addr s = Some (ones (bit_at s) 0 (8 * length s)).
Proof.
  intros Hs. unfold serverPopcount. destruct (popcount_head_spec addr s 0 Hs) as (n & p & -> & Hp & E). mstep.
  destruct (popcount_words_spec (length p) p n Hp) as (q & Hq & Hqb & E2).
  destruct (popcount_words (length p) p n) as [m q']. cbn in Hq, E2. subst q'.
  rewrite popcount_tail_spec, <- all_ones_spec by done. f_equal. lia.
Qed.

(** ** Finding *)

(** [k] is the first position from [lo] whose bit is [bit]. *)
Definition first_at (f : Z -> bool) (lo : Z) (bit : bool) (k : Z) : Prop :=
  lo <= k /\ f k = bit /\ forall j, lo <= j < k -> f j = negb bit.

(** The byte that is skipped when looking for [bit]. *)
Definition skip_byte (bit : bool) : Z := if bit then 0 else 255.

Lemma bit_at_byte p k : Forall is_byte p -> is_byte (nth k p 0).
Proof.
  intros Hp. destruct (decide (k < length p)%nat) as [Hk|Hk]; [|by rewrite nth_overflow by lia].
  eapply Forall_forall; [done|]. apply list_elem_of_In, nth_In. lia.
Qed.

Lemma load_testbit n word c j :
  Forall is_byte c -> fits_u 64 word -> 0 <= j < 64 -> (n <= 8)%nat ->
  Z.testbit (bitpos_load n word c) j =
    if j <? 8 * Z.of_nat n then bit_at c (8 * Z.of_nat n - 1 - j) else Z.testbit word (j - 8 * Z.of_nat n).
Proof.
  intros Hc Hw Hj. revert word c Hc Hw. induction n as [|n IH]; intros word c Hc Hw Hn.
  { cbn [bitpos_load]. destruct (Z.ltb_spec j (8 * Z.of_nat 0)); [lia|]. f_equal. lia. }
  set (b := hd 0 c).
  assert (is_byte b) as Hb by (unfold b; destruct Hc; done).
  assert (bitpos_load (S n) word c = bitpos_load n (Z.lor (wrapu 64 (Z.shiftl word 8)) b) (tail c)) as ->.
  { unfold b. destruct c; cbn [bitpos_load hd tail]; [by rewrite Z.lor_0_r|done]. }
  assert (fits_u 64 b) by (unfold fits_u, is_byte in *; lia).
  rewrite IH; [|by destruct Hc|auto with word|lia].
  rewrite Nat2Z.inj_succ. destruct (Z.ltb_spec j (8 * Z.of_nat n)).
  - destruct (Z.ltb_spec j (8 * Z.succ (Z.of_nat n))); [|lia].
    destruct c as [|b' c]; [by rewrite !bit_at_out by (cbn; lia)|].
    replace (8 * Z.succ (Z.of_nat n) - 1 - j) with (8 * Z.of_nat n - 1 - j + 8) by lia. by rewrite bit_at_cons by lia.
  - rewrite Z.lor_spec, wrapu_testbit, Z.shiftl_spec by lia.
    destruct (Z.ltb_spec j (8 * Z.succ (Z.of_nat n))).
    + rewrite (Z.testbit_neg_r word), andb_false_r by lia. cbn [orb].
      destruct c as [|b' c]; [rewrite bit_at_out by (cbn; lia); apply Z.testbit_0_l|].
      rewrite bit_at_head by lia. unfold b. cbn [hd]. f_equal. lia.
    + rewrite (testbit_high 8 b), orb_false_r by (done || lia).
      destruct (Z.ltb_spec (j - 8 * Z.of_nat n) 64); [|lia]. cbn [andb]. f_equal. lia.
Qed.

Lemma load_word_bit c i : Forall is_byte c -> 0 <= i < 64 -> Z.testbit (bitpos_load 8 0 c) (63 - i) = bit_at c i.
Proof.
  intros Hc Hi. rewrite load_testbit by (done || lia). destruct (Z.ltb_spec (63 - i) (8 * Z.of_nat 8)); [|lia]. f_equal. lia.
Qed.

Lemma load_high n word c j : Forall is_byte c -> fits_u 64 word -> 64 <= j -> Z.testbit (bitpos_load n word c) j = false.
Proof.
  intros Hc Hw Hj. revert word c Hc Hw. induction n as [|n IH]; intros word c Hc Hw; cbn [bitpos_load].
  { by apply (testbit_high 64). }
  destruct Hc as [|b c Hb Hc]; apply IH; [done|auto with word|done|].
  apply lor_fits; [lia|auto with word|]. unfold fits_u, is_byte in *. lia.
Qed.

Lemma land_pow2 m x : 0 <= m -> negb (Z.land (2 ^ m) x =? 0) = Z.testbit x m.
Proof.
  intros Hm. destruct (Z.testbit x m) eqn:E; destruct (Z.eqb_spec (Z.land (2 ^ m) x) 0) as [H|H]; try done; exfalso.
  - assert (Z.testbit (Z.land (2 ^ m) x) m = true) as T by (by rewrite Z.land_spec, Z.pow2_bits_true, E by done).
    by rewrite H, Z.testbit_0_l in T.
  - apply H, Z.bits_inj'. intros i Hi. rewrite Z.land_spec, Z.testbit_0_l.
    destruct (decide (m = i)) as [<-|]; [by rewrite E, andb_false_r|by rewrite Z.pow2_bits_false].
Qed.

Lemma scan_spec n word bit pos :
  (exists i, 0 <= i < Z.of_nat n /\ Z.testbit word (Z.of_nat n - 1 - i) = bit) ->
  exists i, bitpos_scan n (2 ^ Z.of_nat n / 2) word bit pos = Some (pos + i) /\ i < Z.of_nat n /\
    first_at (fun i => Z.testbit word (Z.of_nat n - 1 - i)) 0 bit i.
Proof.
  revert pos. induction n as [|n IH]; intros pos (i & Hi & E); [lia|].
  assert (2 ^ Z.of_nat (S n) / 2 = 2 ^ Z.of_nat n) as ->
    by (rewrite Nat2Z.inj_succ, Z.pow_succ_r, Z.mul_comm, Z.div_mul by lia; done).
  cbn [bitpos_scan]. destruct (Z.eqb_spec (2 ^ Z.of_nat n) 0); [pose proof (Z.pow_pos_nonneg 2 (Z.of_nat n)); lia|].
  rewrite land_pow2 by lia. destruct (eqb (Z.testbit word (Z.of_nat n)) bit) eqn:Eb.
  - apply eqb_prop in Eb. exists 0. rewrite Z.add_0_r. split; [done|]. split; [lia|]. split; [lia|].
    split; [rewrite <- Eb; f_equal; lia|lia].
  - apply eqb_false_iff in Eb. rewrite Z.shiftr_div_pow2 by lia. change (2 ^ 1) with 2.
    assert (i <> 0) by (intros ->; apply Eb; rewrite <- E; f_equal; lia).
    destruct (IH (pos + 1)) as (k & -> & Hk & Hk0 & Hkb & Hkj); [exists (i - 1); split; [lia|rewrite <- E; f_equal; lia]|].
    exists (k + 1). split; [f_equal; lia|]. split; [lia|]. split; [lia|]. split; [rewrite <- Hkb; f_equal; lia|].
    intros j Hj. destruct (decide (j = 0)) as [->|].
    + replace (Z.of_nat (S n) - 1 - 0) with (Z.of_nat n) by lia. by destruct (Z.testbit word (Z.of_nat n)), bit.
    + rewrite <- (Hkj (j - 1)) by lia. f_equal. lia.
Qed.

Definition skips (bit : bool) (pre : list Z) : Prop := Forall (fun b => b = skip_byte bit) pre.

Lemma skips_bits bit pre c k :
  skips bit pre -> 0 <= k < 8 * Z.of_nat (length pre) -> bit_at (pre ++ c) k = negb bit.
Proof.
  intros Hpre Hk. unfold bit_at. pose proof (Z.div_pos k 8 ltac:(lia) ltac:(lia)).
  pose proof (Z.mod_pos_bound k 8 ltac:(lia)). assert (k / 8 < Z.of_nat (length pre)) by (apply Z.div_lt_upper_bound; lia).
  rewrite app_nth1 by lia.
  assert (nth (Z.to_nat (k / 8)) pre 0 = skip_byte bit) as ->.
  { eapply (proj1 (Forall_forall _ _) Hpre). apply list_elem_of_In, nth_In. lia. }
  destruct bit; cbn [skip_byte negb]; [apply Z.testbit_0_l|]. change 255 with (Z.ones 8). by apply Z.ones_spec_low; lia.
Qed.

Lemma not_skip_bit bit b : is_byte b -> b <> skip_byte bit -> exists i, 0 <= i < 8 /\ Z.testbit b (7 - i) = bit.
Proof.
  intros Hb Hne.
  pose proof (all_between_spec 0 256 (fun b => (b =? skip_byte bit) || existsb (fun i => eqb (Z.testbit b (7 - i)) bit) (seqZ 0 8)) b
    ltac:(by destruct bit; vm_compute) Hb) as H. cbv beta in H.
  apply orb_true_iff in H as [?%Z.eqb_eq|H]; [done|].
  apply existsb_exists in H as (i & Hi%list_elem_of_In%elem_of_seqZ & E%eqb_prop). exists i. split; [lia|done].
Qed.

Lemma head_spec bit addr c pos found pos' c' :
  bitpos_head addr (skip_byte bit) c pos = (found, pos', c') ->
  exists pre, c = pre ++ c' /\ skips bit pre /\ pos' = pos + 8 * Z.of_nat (length pre) /\
    (found = true -> exists b t, c' = b :: t /\ b <> skip_byte bit).
Proof.
  revert addr pos. induction c as [|b c IH]; intros addr pos; cbn [bitpos_head].
  { intros [= <- <- <-]. exists []. split_and!; [done|constructor|cbn; lia|done]. }
  destruct (negb (Z.land addr 7 =? 0)).
  - destruct (Z.eqb_spec b (skip_byte bit)) as [->|Hne]; cbn [negb].
    + intros (pre & -> & Hpre & -> & Hf)%IH. exists (skip_byte bit :: pre).
      split_and!; [done|by constructor|cbn [length]; lia|done].
    + intros [= <- <- <-]. exists []. split_and!; [done|constructor|cbn; lia|intros; by exists b, c].
  - intros [= <- <- <-]. exists []. split_and!; [done|constructor|cbn; lia|done].
Qed.

Lemma skip_word (bit : bool) c :
  Forall is_byte c -> length c = 8%nat -> le_decode c = (if bit then 0 else ULONG_MAX) <-> c = replicate 8 (skip_byte bit).
Proof.
  intros Hc Hl. split.
  - intros E. rewrite <- (le_encode_decode c Hc), Hl, E. by destruct bit.
  - intros ->. by destruct bit.
Qed.

Lemma words_spec (bit : bool) fuel c pos pos' c' :
  Forall is_byte c -> (length c <= fuel)%nat ->
  bitpos_words fuel (if bit then 0 else ULONG_MAX) c pos = (pos', c') ->
  exists pre, c = pre ++ c' /\ skips bit pre /\ pos' = pos + 8 * Z.of_nat (length pre) /\
    ((length c' < 8)%nat \/ take 8 c' <> replicate 8 (skip_byte bit)).
Proof.
  revert c pos. induction fuel as [|fuel IH]; intros c pos Hc Hf; cbn [bitpos_words].
  { intros [= <- <-]. exists []. split_and!; [done|constructor|cbn; lia|left; lia]. }
  destruct (Nat.leb_spec 8 (length c)) as [H8|H8].
  2: { intros [= <- <-]. exists []. split_and!; [done|constructor|cbn; lia|by left]. }
  assert (length (take 8 c) = 8%nat) as Ht by (rewrite length_take; lia).
  pose proof (skip_word bit (take 8 c) ltac:(by apply Forall_take) Ht) as Hsw.
  destruct (Z.eqb_spec (le_decode (take 8 c)) (if bit then 0 else ULONG_MAX)) as [E|E]; cbn [negb].
  - intros (pre & Hpre & Hs & -> & Hq)%IH; [|by apply Forall_drop|rewrite length_drop; lia].
    exists (take 8 c ++ pre). split_and!.
    + by rewrite <- app_assoc, <- Hpre, take_drop.
    + apply Forall_app. split; [|done]. rewrite (proj1 Hsw E). by apply Forall_replicate.
    + rewrite length_app, Ht. lia.
    + done.
  - intros [= <- <-]. exists []. split_and!; [done|constructor|cbn; lia|right; tauto].
Qed.

Lemma take8_bit bit c :
  Forall is_byte c -> (8 <= length c)%nat -> take 8 c <> replicate 8 (skip_byte bit) -> exists i, 0 <= i < 64 /\ bit_at c i = bit.
Proof.
  intros Hc Hl Hne.
  destruct (decide (Forall (fun b => b = skip_byte bit) (take 8 c))) as [H|H].
  { exfalso. apply Hne. symmetry. apply replicate_as_Forall_2; [rewrite length_take; lia|].
    eapply Forall_impl; [done|]. by intros ? ->. }
  apply (not_Forall_Exists _), Exists_exists in H as (b & Hin & Hb).
  apply list_elem_of_lookup in Hin as [m Hm]. pose proof (lookup_lt_Some _ _ _ Hm). 
  apply lookup_take_Some in Hm as [Hm ?].
  destruct (not_skip_bit bit b) as (i & Hi & E); [by eapply Forall_lookup_1|done|].
  exists (i + 8 * Z.of_nat m). split; [lia|]. rewrite <- (take_drop m c).
  assert (length (take m c) = m) as Ht by (apply lookup_lt_Some in Hm; solve_len).
  rewrite <- Ht at 3. rewrite bit_at_app by lia. erewrite drop_S by done. by rewrite bit_at_head.
Qed.

(** Where the skipping stops: the bit is in the next word, or less than a word
    is left. *)
Lemma skip_spec addr s bit :
  Forall is_byte s ->
  exists pre c, s = pre ++ c /\ skips bit pre /\
    ((length c < 8)%nat \/ exists i, 0 <= i < 64 /\ bit_at c i = bit) /\
    serverBitpos addr s bit =
      let word := bitpos_load 8 0 c in
      if bit && (word =? 0) then Some (-1) else bitpos_scan 64 (2 ^ 64 / 2) word bit (8 * Z.of_nat (length pre)).
Proof.
  intros Hs. unfold serverBitpos. change (if bit then 0 else 255) with (skip_byte bit).
  change (wrapu 64 (Z.lnot (Z.shiftr ULONG_MAX 1))) with (2 ^ 64 / 2).
  destruct (bitpos_head addr (skip_byte bit) s 0) as [[found pos] c] eqn:Eh.
  apply head_spec in Eh as (pre & -> & Hpre & -> & Hf). apply Forall_app in Hs as [_ Hc]. rewrite Z.add_0_l.
  destruct found.
  - destruct (Hf eq_refl) as (b & t & -> & Hb). exists pre, (b :: t). split; [done|]. split; [done|]. split; [|done].
    right. apply Forall_cons in Hc as [Hb' _]. destruct (not_skip_bit bit b Hb' Hb) as (i & Hi & E).
    exists i. split; [lia|]. by rewrite bit_at_head.
  - destruct (bitpos_words (length c) (if bit then 0 else ULONG_MAX) c (8 * Z.of_nat (length pre))) as [pos c'] eqn:Ew.
    apply words_spec in Ew as (pre' & -> & Hpre' & -> & Hstop); [|done|done]. apply Forall_app in Hc as [_ Hc].
    exists (pre ++ pre'), c'. split; [by rewrite app_assoc|]. split; [by apply Forall_app|]. split.
    + destruct (decide (length c' < 8)%nat); [by left|right]. destruct Hstop; [done|]. apply take8_bit; [done|lia|done].
    + by replace (8 * Z.of_nat (length (pre ++ pre'))) with (8 * Z.of_nat (length pre) + 8 * Z.of_nat (length pre'))
        by (rewrite length_app; lia).
Qed.

Lemma first_at_app bit pre c i :
  skips bit pre -> 0 <= i -> first_at (bit_at c) 0 bit i -> first_at (bit_at (pre ++ c)) 0 bit (8 * Z.of_nat (length pre) + i).
Proof.
  intros Hpre Hi (_ & Hb & Hlt). split; [lia|]. split; [by rewrite Z.add_comm, bit_at_app|].
  intros j Hj. destruct (decide (j < 8 * Z.of_nat (length pre))); [by apply skips_bits; [|lia]|].
  replace j with (j - 8 * Z.of_nat (length pre) + 8 * Z.of_nat (length pre)) by lia. rewrite bit_at_app by lia. apply Hlt. lia.
Qed.

(** The first position, the string padded by zeros; -1 when no bit is set. *)
Lemma serverBitpos_spec addr s bit :
  Forall is_byte s ->
  (exists k, serverBitpos addr s bit = Some k /\ first_at (bit_at s) 0 bit k) \/
  (bit = true /\ serverBitpos addr s bit = Some (-1) /\ forall k, 0 <= k -> bit_at s k = false).
Proof.
  intros Hs. destruct (skip_spec addr s bit Hs) as (pre & c & -> & Hpre & Hstop & ->). apply Forall_app in Hs as [_ Hc].
  cbv zeta. destruct (bit && (bitpos_load 8 0 c =? 0)) eqn:E0.
  - apply andb_true_iff in E0 as [-> E0%Z.eqb_eq]. right. split; [done|]. split; [done|].
    assert (forall i, 0 <= i < 64 -> bit_at c i = false) as H0.
    { intros i Hi. by rewrite <- load_word_bit, E0, Z.testbit_0_l by done. }
    destruct Hstop as [Hl|(i & Hi & E)]; [|by rewrite H0 in E].
    intros k Hk. destruct (decide (k < 8 * Z.of_nat (length pre))); [by apply (skips_bits true); [|lia]|].
    replace k with (k - 8 * Z.of_nat (length pre) + 8 * Z.of_nat (length pre)) by lia. rewrite bit_at_app by lia.
    destruct (decide (k - 8 * Z.of_nat (length pre) < 64)); [apply H0; lia|apply bit_at_out; lia].
  - assert (exists i, 0 <= i < 64 /\ bit_at c i = bit) as (i & Hi & E).
    { destruct Hstop as [Hl|?]; [|done]. destruct bit; cbn [andb] in E0.
      - apply Z.eqb_neq in E0. destruct (decide (Exists (fun i => bit_at c i = true) (seqZ 0 64))) as [H|H].
        + apply Exists_exists in H as (i & Hi%elem_of_seqZ & E). exists i. split; [lia|done].
        + exfalso. apply E0, Z.bits_inj'. intros j Hj. rewrite Z.testbit_0_l.
          destruct (decide (j < 64)); [|apply load_high; [done|done|lia]].
          replace j with (63 - (63 - j)) by lia. rewrite load_word_bit by (done || lia).
          apply not_true_iff_false. intros Hb. apply H, Exists_exists. exists (63 - j). split; [apply elem_of_seqZ; lia|done].
      - exists (8 * Z.of_nat (length c)). split; [lia|by apply bit_at_out]. }
    left. destruct (scan_spec 64 (bitpos_load 8 0 c) bit (8 * Z.of_nat (length pre))) as (k & Ek & Hk & Hk0 & Hkb & Hkj).
    { exists i. split; [done|]. by rewrite <- E, <- load_word_bit by done. }
    exists (8 * Z.of_nat (length pre) + k). split; [done|]. apply first_at_app; [done|done|].
    split; [done|]. split; [by rewrite <- load_word_bit by (done || lia)|].
    intros j Hj. rewrite <- load_word_bit by (done || lia). by apply Hkj.
Qed.
