(* ===== verification/BitopsField.v ===== *)
(** * Integers at bit offsets and BITFIELD

    The value read at an offset is the number its bits write, a write changes
    those bits only, and the overflow checks decide the range of the field.
    BITFIELD is then compared with its operations on mathematical integers. *)
From S2P Require Import Prelude Numconv NumconvSpec Bitops BitopsCount.
From Stdlib Require Import ZArith Lia.
From stdpp Require Import prelude list.

#[local] Open Scope Z_scope.

(** The number written by [n] bits from [off], the first the most significant. *)
Fixpoint field (f : Z -> bool) (off : Z) (n : nat) : Z :=
  match n with
  | O => 0
  | S n => Z.b2z (f off) * 2 ^ Z.of_nat n + field f (off + 1) n
  end.

Lemma field_bound f off n : fits_u (Z.of_nat n) (field f off n).
Proof.
  revert off. induction n as [|n IH]; intros off; cbn [field]; [done|]. unfold fits_u in *.
  specialize (IH (off + 1)). rewrite Nat2Z.inj_succ, Z.pow_succ_r by lia. destruct (f off); cbn [Z.b2z]; lia.
Qed.

Lemma field_ext f g off n : (forall k, off <= k < off + Z.of_nat n -> f k = g k) -> field f off n = field g off n.
Proof.
  revert off. induction n as [|n IH]; intros off H; [done|]. cbn [field].
  rewrite (H off), (IH (off + 1)) by (lia || (intros; apply H; lia)). done.
Qed.

(** A field whose bits are those of [v] is [v]. *)
Lemma field_testbit f off n v :
  (forall k, off <= k < off + Z.of_nat n -> f k = Z.testbit v (Z.of_nat n - 1 - (k - off))) ->
  field f off n = v mod 2 ^ Z.of_nat n.
Proof.
  revert off. induction n as [|n IH]; intros off H; cbn [field]; [by rewrite Z.mod_1_r|].
  rewrite (H off), (IH (off + 1)) by (lia || (intros k Hk; rewrite H by lia; f_equal; lia)).
  replace (Z.of_nat (S n) - 1 - (off - off)) with (Z.of_nat n) by lia.
  rewrite Nat2Z.inj_succ, Z.pow_succ_r, (Z.mul_comm 2), Z.rem_mul_r by lia.
  rewrite Z.testbit_spec' by lia. lia.
Qed.

Lemma bit_byte k : Z.shiftr k 3 = k / 8 /\ 7 - Z.land k 0x7 = 7 - k mod 8.
Proof. split; [by rewrite Z.shiftr_div_pow2|]. change 0x7 with (Z.ones 3). by rewrite Z.land_ones. Qed.

Lemma bit_load p k :
  Forall is_byte p -> 0 <= k < 8 * Z.of_nat (length p) ->
  exists b, load p (k / 8) = Some b /\ is_byte b /\ nth (Z.to_nat (k / 8)) p 0 = b.
Proof.
  intros Hp Hk. assert (0 <= k / 8 < Z.of_nat (length p)) as H by (split; [apply Z.div_pos|apply Z.div_lt_upper_bound]; lia).
  destruct (load_some p (k / 8) H) as [b Hb]. exists b. split; [done|].
  apply load_inv in Hb as [_ Hb]. split; [by eapply Forall_lookup_1|by apply nth_lookup_Some].
Qed.

Lemma get_loop_spec n p off value :
  Forall is_byte p -> 0 <= off -> off + Z.of_nat n <= 8 * Z.of_nat (length p) -> (n <= 64)%nat ->
  fits_u (64 - Z.of_nat n) value ->
  getUnsigned_loop n p off value = Some (value * 2 ^ Z.of_nat n + field (bit_at p) off n).
Proof.
  intros Hp. revert off value. induction n as [|n IH]; intros off value Ho Hl Hn Hv.
  { cbn. f_equal. lia. }
  cbn [getUnsigned_loop field]. destruct (bit_byte off) as [-> ->].
  destruct (bit_load p off Hp ltac:(lia)) as (b & -> & Hb & Hn'). mstep.
  pose proof (Z.mod_pos_bound off 8 ltac:(lia)).
  assert (Z.land (Z.shiftr b (7 - off mod 8)) 1 = Z.b2z (bit_at p off)) as ->.
  { unfold bit_at. rewrite Hn'. change 1 with (Z.ones 1). rewrite Z.land_ones, Z.shiftr_div_pow2 by lia. 
    by rewrite Z.testbit_spec' by lia. }
  unfold fits_u in Hv. pose proof (pow2_double (64 - Z.of_nat n) ltac:(lia)) as E2.
  replace (64 - Z.of_nat n - 1) with (64 - Z.of_nat (S n)) in E2 by lia.
  pose proof (Z.pow_le_mono_r 2 (64 - Z.of_nat n) 64 ltac:(lia) ltac:(lia)).
  rewrite Z.shiftl_mul_pow2, wrapu_id by (unfold fits_u; lia).
  rewrite lor_disjoint by (lia || (destruct (bit_at p off); done)).
  rewrite IH; [|lia|lia|lia|unfold fits_u; destruct (bit_at p off); cbn [Z.b2z]; lia].
  f_equal. rewrite Nat2Z.inj_succ, Z.pow_succ_r by lia. lia.
Qed.

Lemma getUnsigned_spec p off bits :
  Forall is_byte p -> 0 <= off -> off + bits <= 8 * Z.of_nat (length p) -> 0 <= bits <= 64 ->
  getUnsignedBitfield p off bits = Some (field (bit_at p) off (Z.to_nat bits)).
Proof.
  intros Hp Ho Hl Hb. unfold getUnsignedBitfield.
  rewrite get_loop_spec; [f_equal; lia|done|lia|lia|lia|]. split; [done|]. apply Z.pow_pos_nonneg; lia.
Qed.

(** Setting the high bits of a word whose sign bit is set is the two's
    complement. *)
Lemma sign_extend bits v :
  1 <= bits < 64 -> fits_u bits v ->
  wraps 64 (if Z.testbit v (bits - 1) then Z.lor v (wrapu 64 (Z.shiftl ULONG_MAX bits)) else v) = wraps bits v.
Proof.
  intros Hb Hf. unfold fits_u in Hf.
  pose proof (pow2_double bits ltac:(lia)) as E2. pose proof (pow2_double 64 ltac:(lia)) as E3.
  pose proof (Z.pow_le_mono_r 2 bits (64 - 1) ltac:(lia) ltac:(lia)).
  assert (2 ^ 64 = 2 ^ (64 - bits) * 2 ^ bits) as E64 by (rewrite <- Z.pow_add_r by lia; f_equal; lia).
  assert (Z.testbit v (bits - 1) = (2 ^ (bits - 1) <=? v)) as ->.
  { rewrite Z.testbit_eqb by lia. destruct (Z.leb_spec (2 ^ (bits - 1)) v) as [Hge|Hlt].
    - replace (v / 2 ^ (bits - 1)) with 1; [done|]. apply Z.div_unique with (v - 2 ^ (bits - 1)); lia.
    - by rewrite Z.div_small by lia. }
  destruct (Z.leb_spec (2 ^ (bits - 1)) v) as [Hge|Hlt].
  - rewrite Z.lor_comm. assert (wrapu 64 (Z.shiftl ULONG_MAX bits) = (2 ^ (64 - bits) - 1) * 2 ^ bits) as ->.
    { unfold wrapu, ULONG_MAX. rewrite Z.shiftl_mul_pow2 by lia.
      symmetry. apply Z.mod_unique with (2 ^ bits - 1); [left|]; nia. }
    rewrite lor_disjoint by (lia || done).
    unfold wraps. rewrite <- (Z.mod_unique _ (2 ^ 64) 1 (v - 2 ^ bits + 2 ^ (64 - 1))) by lia.
    rewrite <- (Z.mod_unique _ (2 ^ bits) 1 (v - 2 ^ (bits - 1))) by lia. lia.
  - rewrite !wraps_id by (lia || (unfold fits_s; lia)). done.
Qed.

(** The bits of a signed field are its two's complement. *)
Lemma getSigned_spec p off bits :
  Forall is_byte p -> 0 <= off -> off + bits <= 8 * Z.of_nat (length p) -> 1 <= bits <= 64 ->
  getSignedBitfield p off bits = Some (wraps bits (field (bit_at p) off (Z.to_nat bits))).
Proof.
  intros Hp Ho Hl Hb. unfold getSignedBitfield. rewrite getUnsigned_spec by (done || lia). mstep. f_equal.
  pose proof (field_bound (bit_at p) off (Z.to_nat bits)) as Hf. rewrite Z2Nat.id in Hf by lia.
  destruct (Z.ltb_spec bits 64) as [H64|H64]; cbn [andb]; [|by replace bits with 64 by lia].
  rewrite Z.land_comm, Z.shiftl_1_l, land_pow2 by lia. apply sign_extend; [lia|done].
Qed.

(** ** Writing *)

Lemma length_store p i v p' : store p i v = Some p' -> length p' = length p.
Proof. unfold store. case_match; [done|]. intros [= <-]. apply length_insert. Qed.

(** One turn of the loop sets one bit. *)
Lemma set_bit p off (b : Z) (bv : bool) :
  Forall is_byte p -> 0 <= off < 8 * Z.of_nat (length p) -> nth (Z.to_nat (off / 8)) p 0 = b ->
  let v := Z.land (Z.lor (Z.land b (wrapu 64 (Z.lnot (Z.shiftl 1 (7 - off mod 8))))) (Z.shiftl (Z.b2z bv) (7 - off mod 8))) 0xff in
  let p' := <[Z.to_nat (off / 8) := v]> p in
  Forall is_byte p' /\ length p' = length p /\ forall k, 0 <= k -> bit_at p' k = if k =? off then bv else bit_at p k.
Proof.
  intros Hp Ho Hb v p'. pose proof (Z.mod_pos_bound off 8 ltac:(lia)) as Hm.
  assert (is_byte v) as Hv.
  { unfold v. change 0xff with (Z.ones 8). rewrite Z.land_ones by lia. apply Z.mod_pos_bound. lia. }
  split; [by apply Forall_insert|]. split; [apply length_insert|]. intros k Hk.
  assert (0 <= off / 8 < Z.of_nat (length p)) by (split; [apply Z.div_pos|apply Z.div_lt_upper_bound]; lia).
  pose proof (Z.div_pos k 8 Hk ltac:(lia)). pose proof (Z.mod_pos_bound k 8 ltac:(lia)) as Hkm.
  unfold bit_at, p'. destruct (decide (k / 8 = off / 8)) as [E|E].
  - rewrite E, nth_lookup, list_lookup_insert_eq by lia. cbn [default]. unfold v, id.
    change 0xff with (Z.ones 8). rewrite Z.land_spec, Z.ones_spec_low, andb_true_r by lia.
    rewrite Z.lor_spec, Z.land_spec, wrapu_testbit, Z.lnot_spec, Z.shiftl_1_l, Z.shiftl_spec by lia.
    destruct (Z.ltb_spec (7 - k mod 8) 64); [|lia]. cbn [andb].
    destruct (Z.eqb_spec k off) as [->|Hne].
    + rewrite Z.pow2_bits_true, Z.sub_diag by lia. cbn [negb]. rewrite andb_false_r. by destruct bv.
    + assert (k mod 8 <> off mod 8) by (pose proof (Z.div_mod k 8); pose proof (Z.div_mod off 8); lia).
      rewrite Z.pow2_bits_false by lia. cbn [negb]. rewrite andb_true_r, nth_lookup in *. rewrite Hb.
      destruct (decide (7 - k mod 8 - (7 - off mod 8) < 0)); [by rewrite (Z.testbit_neg_r (Z.b2z bv)), orb_false_r by lia|].
      destruct bv; cbn [Z.b2z]; [|by rewrite Z.testbit_0_l, orb_false_r].
      by rewrite (testbit_high 1 1), orb_false_r by (done || lia).
  - destruct (Z.eqb_spec k off) as [->|_]; [done|]. by rewrite !nth_lookup, list_lookup_insert_ne by lia.
Qed.

Lemma set_loop_spec n p off value :
  Forall is_byte p -> 0 <= off -> off + Z.of_nat n <= 8 * Z.of_nat (length p) ->
  exists p', setUnsigned_loop n p off value = Some p' /\ Forall is_byte p' /\ length p' = length p /\
    forall k, 0 <= k -> bit_at p' k =
      if (off <=? k) && (k <? off + Z.of_nat n) then Z.testbit value (Z.of_nat n - 1 - (k - off)) else bit_at p k.
Proof.
  revert p off. induction n as [|n IH]; intros p off Hp Ho Hl; cbn [setUnsigned_loop].
  { exists p. split_and!; [done..|]. intros k Hk. by destruct (Z.leb_spec off k), (Z.ltb_spec k (off + Z.of_nat 0)); try lia. }
  destruct (bit_byte off) as [-> ->]. destruct (bit_load p off Hp ltac:(lia)) as (b & -> & Hb & Hnth). mstep.
  rewrite store_some by (split; [apply Z.div_pos|apply Z.div_lt_upper_bound]; lia). mstep.
  assert ((if Z.land value (Z.shiftl 1 (Z.of_nat n)) =? 0 then 0 else 1) = Z.b2z (Z.testbit value (Z.of_nat n))) as ->.
  { rewrite Z.land_comm, Z.shiftl_1_l, <- land_pow2 by lia. by destruct (_ =? 0). }
  destruct (set_bit p off b (Z.testbit value (Z.of_nat n)) Hp ltac:(lia) Hnth) as (Hp' & Hlen & Hbits).
  destruct (IH _ (off + 1) Hp' ltac:(lia) ltac:(rewrite Hlen; lia)) as (q & -> & Hq & Hql & Hqb).
  exists q. split_and!; [done|done|congruence|]. intros k Hk. rewrite Hqb, Hbits by done.
  destruct (Z.leb_spec (off + 1) k), (Z.ltb_spec k (off + 1 + Z.of_nat n)), (Z.leb_spec off k),
    (Z.ltb_spec k (off + Z.of_nat (S n))), (Z.eqb_spec k off); cbn [andb]; try lia; try done; f_equal; lia.
Qed.

(** ** The range of a field *)

Definition field_max (sign : bool) (bits : Z) : Z := if sign then 2 ^ (bits - 1) - 1 else 2 ^ bits - 1.
Definition field_min (sign : bool) (bits : Z) : Z := if sign then - 2 ^ (bits - 1) else 0.
Definition field_wrap (sign : bool) (bits v : Z) : Z := if sign then wraps bits v else wrapu bits v.

(** What a write of the integer [v] stores: [v] when it is in range, else the
    value its overflow type gives. *)
Definition stored (sign : bool) (bits : Z) (owtype : bfoverflow) (v : Z) : option Z :=
  if (field_min sign bits <=? v) && (v <=? field_max sign bits) then Some v
  else match owtype with
       | BFOVERFLOW_WRAP => Some (field_wrap sign bits v)
       | BFOVERFLOW_SAT => Some (if field_max sign bits <? v then field_max sign bits else field_min sign bits)
       | BFOVERFLOW_FAIL => None
       end.

(** The values a signed SET with saturation stores on the wrong side. *)
Definition sat_inverted (bits v : Z) : Prop := bits < 64 /\ v <= field_max true bits - 2 ^ 63.

Lemma wrap_add_u bits value incr :
  0 <= bits <= 64 -> unsigned_wrap value incr bits = (1, Some (wrapu bits (value + incr))).
Proof.
  intros Hb. unfold unsigned_wrap. do 2 f_equal. apply (word_bits_inj 64); [auto with word| |].
  { pose proof (wrapu_bound bits (value + incr) ltac:(lia)). unfold fits_u in *.
    pose proof (Z.pow_le_mono_r 2 bits 64). lia. }
  intros i Hi. rewrite Z.land_spec, !wrapu_testbit, Z.lnot_spec, wrapu_testbit, Z.shiftl_spec by lia.
  destruct (Z.ltb_spec i 64); [|lia]. cbn [andb]. change ULONG_MAX with (Z.ones 64).
  destruct (Z.ltb_spec i bits); cbn [andb].
  - by rewrite (Z.testbit_neg_r _ (i - bits)), andb_true_r by lia.
  - by rewrite Z.ones_spec_low, andb_false_r by lia.
Qed.

Lemma wrap_add_s bits value incr :
  1 <= bits <= 64 -> signed_wrap value incr bits = (1, Some (wraps bits (value + incr))).
Proof.
  intros Hb. unfold signed_wrap. do 2 f_equal. set (x := value + incr).
  destruct (Z.ltb_spec bits 64) as [H64|H64].
  2: { replace bits with 64 by lia. unfold wrapu. by apply wraps_mod. }
  assert (wrapu bits (wrapu 64 x) = wrapu bits x) as Hx.
  { apply Z.bits_inj'. intros i Hi. rewrite !wrapu_testbit by lia.
    destruct (Z.ltb_spec i bits), (Z.ltb_spec i 64); try lia; done. }
  rewrite <- (wraps_mod bits x) by lia. fold (wrapu bits x). rewrite <- Hx.
  pose proof (wrapu_bound 64 x ltac:(lia)) as Hc. set (c := wrapu 64 x) in *. clearbody c. clear Hx.
  rewrite Z.land_comm, Z.shiftl_1_l, land_pow2 by lia.
  pose proof (wrapu_bound bits c ltac:(lia)) as Hl. set (l := wrapu bits c) in *.
  assert (Z.testbit c (bits - 1) = Z.testbit l (bits - 1)) as ->.
  { unfold l. rewrite wrapu_testbit by lia. by destruct (Z.ltb_spec (bits - 1) bits); [|lia]. }
  (* the two results are the sign extension and the low bits of [l] *)
  assert (Z.lor c (wrapu 64 (Z.shiftl ULONG_MAX bits)) = Z.lor l (wrapu 64 (Z.shiftl ULONG_MAX bits))) as ->.
  { apply Z.bits_inj'. intros i Hi. unfold l. rewrite !Z.lor_spec, !wrapu_testbit, Z.shiftl_spec by lia.
    change ULONG_MAX with (Z.ones 64). destruct (Z.ltb_spec i bits), (Z.ltb_spec i 64); cbn [andb]; try lia; [done| |].
    - rewrite Z.ones_spec_low by lia. by rewrite !orb_true_r.
    - by rewrite (testbit_high 64 c) by (done || lia). }
  pose proof (wrap_add_u bits c 0 ltac:(lia)) as Eu. unfold unsigned_wrap in Eu. rewrite Z.add_0_r in Eu.
  rewrite (wrapu_id 64 c) in Eu by done. injection Eu as Eu. rewrite Eu. fold l. clearbody l. clear Eu.
  symmetry. etransitivity; [symmetry; apply (sign_extend bits l); [lia|done]|].
  by destruct (Z.testbit l (bits - 1)).
Qed.

Lemma wraps64_cases x :
  (fits_s 64 x -> wraps 64 x = x) /\ (2 ^ 63 <= x < 2 ^ 64 -> wraps 64 x = x - 2 ^ 64) /\
  (- 2 ^ 64 <= x < - 2 ^ 63 -> wraps 64 x = x + 2 ^ 64).
Proof.
  split; [by apply wraps_id|]. unfold wraps. change (64 - 1) with 63. split; intros Hx.
  - rewrite <- (Z.mod_unique _ (2 ^ 64) 1 (x + 2 ^ 63 - 2 ^ 64)) by lia. lia.
  - rewrite <- (Z.mod_unique _ (2 ^ 64) (-1) (x + 2 ^ 63 + 2 ^ 64)) by lia. lia.
Qed.

Lemma signed_limits bits :
  1 <= bits <= 64 ->
  (if bits =? 64 then 2 ^ 63 - 1 else Z.shiftl 1 (bits - 1) - 1) = field_max true bits /\
  1 <= 2 ^ (bits - 1) <= 2 ^ 63 /\ (bits <> 64 -> 2 ^ (bits - 1) <= 2 ^ 62).
Proof.
  intros Hb. unfold field_max. rewrite Z.shiftl_1_l. split; [by destruct (Z.eqb_spec bits 64) as [->|]|].
  pose proof (Z.pow_le_mono_r 2 (bits - 1) 63). pose proof (Z.pow_pos_nonneg 2 (bits - 1)).
  split; [lia|]. intros. pose proof (Z.pow_le_mono_r 2 (bits - 1) 62). lia.
Qed.

(** A guard of the code as an inequality. *)
Ltac solve_guard :=
  apply eq_true_iff_eq;
  rewrite ?orb_true_iff, ?andb_true_iff, ?negb_true_iff, ?Z.ltb_lt, ?Z.leb_le, ?Z.eqb_neq; lia.

(** The three cases of a check, from what its guards decide. *)
Lemma checked_cases sign bits ow x (over under : bool) newval :
  field_min sign bits <= field_max sign bits ->
  over = (field_max sign bits <? x) -> (x <= field_max sign bits -> under = (x <? field_min sign bits)) ->
  (field_min sign bits <= x <= field_max sign bits -> newval = x) ->
  let limit r m := match ow with BFOVERFLOW_WRAP => (1, Some (field_wrap sign bits x))
                   | BFOVERFLOW_SAT => (r, Some m) | BFOVERFLOW_FAIL => (r, None) end in
  checked (if over then limit 1 (field_max sign bits) else if under then limit (-1) (field_min sign bits) else (0, None))
    ow newval = Some (stored sign bits ow x).
Proof.
  intros Hmm -> Hu Hnew limit. unfold stored, limit. destruct (Z.ltb_spec (field_max sign bits) x) as [Hx|Hx].
  - destruct (Z.leb_spec x (field_max sign bits)); [lia|]. rewrite andb_false_r. by destruct ow.
  - rewrite Hu by done. destruct (Z.leb_spec x (field_max sign bits)); [|lia]. rewrite andb_true_r.
    destruct (Z.ltb_spec x (field_min sign bits)), (Z.leb_spec (field_min sign bits) x); try lia; [by destruct ow|].
    cbn. by rewrite Hnew.
Qed.

(** Either the value is in the range of the field, as the field's own is, or
    nothing is added to it. *)
Lemma checkSigned_spec v d bits ow :
  1 <= bits <= 64 -> fits_s 64 v -> fits_s 64 d -> fits_s bits v \/ d = 0 ->
  (ow = BFOVERFLOW_SAT -> ~ sat_inverted bits v) ->
  checked (checkSignedBitfieldOverflow v d bits ow) ow (wraps 64 (v + d)) = Some (stored true bits ow (v + d)).
Proof.
  intros Hb Hv Hd Hvd Hsat. unfold checkSignedBitfieldOverflow. rewrite wrap_add_s by done.
  destruct (signed_limits bits Hb) as (-> & HM & HM62). unfold sat_inverted in Hsat.
  assert (- field_max true bits - 1 = field_min true bits) as -> by (unfold field_max, field_min; lia).
  assert (bits = 64 -> 2 ^ (bits - 1) = 2 ^ 63) as H64 by (by intros ->).
  destruct (wraps64_cases (field_max true bits - v)) as (A1 & A2 & _).
  destruct (wraps64_cases (field_min true bits - v)) as (B1 & _ & _).
  destruct (wraps64_cases (v + d)) as (C1 & _ & _).
  destruct (decide (bits < 64 /\ v <= field_max true bits - 2 ^ 63)) as [Hinv|Hinv].
  - assert (d = 0 /\ wraps 64 (field_max true bits - v) < 0) as [-> Hneg]
      by (unfold field_max, fits_s in *; change (64 - 1) with 63 in *; lia).
    replace ((field_max true bits <? v) || _ || _) with true
      by (destruct (Z.eqb_spec bits 64), (Z.ltb_spec (wraps 64 (field_max true bits - v)) 0); try lia; by rewrite orb_true_r).
    unfold stored. destruct (Z.leb_spec (field_min true bits) (v + 0)); [unfold field_max, field_min in *; lia|].
    cbn [andb]. destruct ow; [done|by destruct Hsat|done].
  - unfold fits_s, field_max, field_min in *. change (64 - 1) with 63 in *.
    set (M := 2 ^ (bits - 1)) in *. set (mi := wraps 64 (M - 1 - v)) in *. set (ni := wraps 64 (- M - v)) in *.
    change M with (2 ^ (bits - 1)). apply (checked_cases true); unfold field_max, field_min; fold M; clearbody M mi ni.
    + lia.
    + solve_guard.
    + intros Hx. solve_guard.
    + intros Hx. apply C1. lia.
Qed.

Lemma checkUnsigned_spec v d bits ow :
  1 <= bits <= 63 -> fits_u 64 v -> fits_s 64 d -> fits_u bits v \/ d = 0 ->
  checked (checkUnsignedBitfieldOverflow v d bits ow) ow (wrapu 64 (v + d)) = Some (stored false bits ow (v + d)).
Proof.
  intros Hb Hv Hd Hvd. unfold checkUnsignedBitfieldOverflow. rewrite wrap_add_u by lia.
  destruct (Z.eqb_spec bits 64); [lia|]. rewrite Z.shiftl_1_l.
  destruct (wraps64_cases (2 ^ bits - 1 - v)) as (A1 & _ & _). destruct (wraps64_cases (- v)) as (B1 & _ & _).
  pose proof (wrapu_id 64 (v + d)) as C1. pose proof (Z.pow_le_mono_r 2 bits 63 ltac:(lia) ltac:(lia)).
  pose proof (Z.pow_pos_nonneg 2 bits ltac:(lia) ltac:(lia)).
  unfold fits_u, fits_s in *. change (64 - 1) with 63 in *. set (M := 2 ^ bits) in *.
  set (mi := wraps 64 (M - 1 - v)) in *. set (ni := wraps 64 (- v)) in *.
  change M with (2 ^ bits). apply (checked_cases false); unfold field_max, field_min; fold M; clearbody M mi ni.
  - lia.
  - solve_guard.
  - intros Hx. solve_guard.
  - intros Hx. apply C1. lia.
Qed.

(** ** Operations *)

(** The operations the parser builds. *)
Definition op_ok (op : bitfieldOp) : Prop :=
  1 <= bf_bits op <= (if bf_sign op then 64 else 63) /\ 0 <= bf_offset op /\ fits_s 64 (bf_i64 op).

(** No signed SET with saturation of a value that is stored inverted. *)
Definition op_sat_ok (op : bitfieldOp) : Prop :=
  bf_opcode op = BITFIELDOP_SET -> bf_sign op = true -> bf_owtype op = BFOVERFLOW_SAT ->
  ~ sat_inverted (bf_bits op) (bf_i64 op).

Definition writes (op : bitfieldOp) : Prop := bf_opcode op <> BITFIELDOP_GET.

(** The integer at the field of an operation. *)
Definition read_field (p : list Z) (op : bitfieldOp) : Z :=
  let v := field (bit_at p) (bf_offset op) (Z.to_nat (bf_bits op)) in
  if bf_sign op then wraps (bf_bits op) v else v.

(** The integer a SET or an INCRBY is to store; an unsigned SET takes its
    argument as a 64-bit word. *)
Definition target (op : bitfieldOp) (old : Z) : Z :=
  match bf_opcode op with
  | BITFIELDOP_INCRBY => old + bf_i64 op
  | _ => if bf_sign op then bf_i64 op else wrapu 64 (bf_i64 op)
  end.

(** [p'] is [p] with [v] at the field of [op]. *)
Definition written (p : list Z) (op : bitfieldOp) (v : Z) (p' : list Z) : Prop :=
  Forall is_byte p' /\ length p' = length p /\
  forall k, 0 <= k -> bit_at p' k =
    if (bf_offset op <=? k) && (k <? bf_offset op + bf_bits op)
    then Z.testbit v (bf_bits op - 1 - (k - bf_offset op)) else bit_at p k.

(** One operation: the bytes after it, its reply and whether it is a change. *)
Inductive op_step (dirty : bool) (p : list Z) (op : bitfieldOp) : list Z -> option Z -> bool -> Prop :=
  | step_get : bf_opcode op = BITFIELDOP_GET -> op_step dirty p op p (Some (read_field p op)) false
  | step_fail : writes op ->
      stored (bf_sign op) (bf_bits op) (bf_owtype op) (target op (read_field p op)) = None ->
      op_step dirty p op p None false
  | step_write v p' : writes op ->
      stored (bf_sign op) (bf_bits op) (bf_owtype op) (target op (read_field p op)) = Some v ->
      written p op v p' ->
      op_step dirty p op p' (Some (update_reply op (read_field p op) v)) (dirty || negb (read_field p op =? v)).

Inductive ops_run (dirty : bool) : list Z -> list bitfieldOp -> list Z -> list (option Z) -> nat -> Prop :=
  | run_nil p : ops_run dirty p [] p [] 0
  | run_cons p op ops p1 r ch p2 rs n :
      op_step dirty p op p1 r ch -> ops_run dirty p1 ops p2 rs n ->
      ops_run dirty p (op :: ops) p2 (r :: rs) ((if ch then 1 else 0) + n).

Lemma read_field_range p op :
  op_ok op -> field_min (bf_sign op) (bf_bits op) <= read_field p op <= field_max (bf_sign op) (bf_bits op).
Proof.
  intros (Hb & _). unfold read_field, field_min, field_max.
  pose proof (field_bound (bit_at p) (bf_offset op) (Z.to_nat (bf_bits op))) as Hf. rewrite Z2Nat.id in Hf by lia.
  destruct (bf_sign op); [|unfold fits_u in Hf; lia].
  pose proof (wraps_bound (bf_bits op) (field (bit_at p) (bf_offset op) (Z.to_nat (bf_bits op))) ltac:(lia)) as H.
  unfold fits_s in H. lia.
Qed.

Lemma stored_range sign bits ow x v :
  1 <= bits -> stored sign bits ow x = Some v -> field_min sign bits <= v <= field_max sign bits.
Proof.
  intros Hb. pose proof (wraps_bound bits x Hb). pose proof (wrapu_bound bits x ltac:(lia)).
  pose proof (Z.pow_pos_nonneg 2 (bits - 1) ltac:(lia) ltac:(lia)). pose proof (Z.pow_pos_nonneg 2 bits ltac:(lia) ltac:(lia)).
  unfold stored, field_wrap, fits_s, fits_u in *.
  destruct (Z.leb_spec (field_min sign bits) x), (Z.leb_spec x (field_max sign bits)); cbn [andb];
    [intros [= <-]; lia| | |]; destruct ow; intros [= <-]; unfold field_min, field_max in *;
    destruct sign; repeat case_match; lia.
Qed.

(** A read after a write gives the value back. *)
Lemma read_written p op v p' :
  op_ok op -> field_min (bf_sign op) (bf_bits op) <= v <= field_max (bf_sign op) (bf_bits op) ->
  written p op v p' -> read_field p' op = v.
Proof.
  intros (Hb & Ho & _) Hv (_ & _ & Hbits). unfold read_field.
  rewrite (field_testbit _ _ _ v).
  2: { intros k Hk. rewrite Z2Nat.id in * by lia. rewrite Hbits by lia.
       destruct (Z.leb_spec (bf_offset op) k), (Z.ltb_spec k (bf_offset op + bf_bits op)); try lia; done. }
  rewrite Z2Nat.id by lia. unfold field_min, field_max in Hv. destruct (bf_sign op).
  - rewrite wraps_mod, wraps_id by (lia || (unfold fits_s; lia)). done.
  - by apply Z.mod_small; lia.
Qed.

(** ** Execution *)

Lemma field_shift f g off off' n :
  (forall i, 0 <= i < Z.of_nat n -> f (off + i) = g (off' + i)) -> field f off n = field g off' n.
Proof.
  revert off off'. induction n as [|n IH]; intros off off' H; [done|]. cbn [field].
  rewrite <- (Z.add_0_r off), (H 0), !Z.add_0_r by lia. rewrite (IH (off + 1) (off' + 1)); [done|].
  intros i Hi. rewrite <- !Z.add_assoc, (Z.add_comm 1). apply H. lia.
Qed.

Lemma get_buffer_ok p byte : Forall is_byte p -> Forall is_byte (get_buffer p byte) /\ length (get_buffer p byte) = 9%nat.
Proof.
  intros Hp. unfold get_buffer. split.
  - apply Forall_app. split; [by apply Forall_take, Forall_drop|by apply Forall_replicate].
  - rewrite length_app, length_replicate, length_take. lia.
Qed.

Lemma get_buffer_bit p byte k : 0 <= byte -> 0 <= k < 72 -> bit_at (get_buffer p byte) k = bit_at p (k + byte * 8).
Proof.
  intros Hb Hk. unfold bit_at. rewrite Z.div_add, Z.mod_add by lia. f_equal.
  assert (0 <= k / 8 < 9) by (split; [apply Z.div_pos|apply Z.div_lt_upper_bound]; lia).
  rewrite Z2Nat.inj_add by lia. set (j := Z.to_nat (k / 8)). assert (j < 9)%nat by lia.
  unfold get_buffer. rewrite !nth_lookup. set (b := Z.to_nat byte).
  destruct (decide (j < length (take 9 (drop b p)))%nat) as [Hj|Hj].
  - rewrite lookup_app_l, lookup_take_lt, lookup_drop by lia. do 2 f_equal. lia.
  - rewrite lookup_app_r by lia. rewrite length_take, length_drop in *.
    rewrite (lookup_ge_None_2 p) by lia. by rewrite lookup_replicate_2 by lia.
Qed.

Lemma read_spec p op :
  Forall is_byte p -> op_ok op -> bf_offset op + bf_bits op <= 8 * Z.of_nat (length p) ->
  (if bf_sign op then getSignedBitfield p (bf_offset op) (bf_bits op)
   else getUnsignedBitfield p (bf_offset op) (bf_bits op)) = Some (read_field p op).
Proof.
  intros Hp (Hb & Ho & _) Hl. unfold read_field.
  destruct (bf_sign op); [apply getSigned_spec|apply getUnsigned_spec]; done || lia.
Qed.

Lemma read_buffer_spec p op :
  Forall is_byte p -> op_ok op ->
  let byte := Z.shiftr (bf_offset op) 3 in
  (if bf_sign op then getSignedBitfield (get_buffer p byte) (bf_offset op - byte * 8) (bf_bits op)
   else getUnsignedBitfield (get_buffer p byte) (bf_offset op - byte * 8) (bf_bits op)) = Some (read_field p op).
Proof.
  intros Hp (Hb & Ho & _). cbv zeta. rewrite Z.shiftr_div_pow2 by lia. change (2 ^ 3) with 8.
  set (byte := bf_offset op / 8). pose proof (Z.div_mod (bf_offset op) 8 ltac:(lia)) as Ed. fold byte in Ed.
  pose proof (Z.mod_pos_bound (bf_offset op) 8 ltac:(lia)). pose proof (Z.div_pos (bf_offset op) 8 Ho ltac:(lia)) as Hbyte.
  fold byte in Hbyte. destruct (get_buffer_ok p byte Hp) as [Hbuf Hlen].
  assert (field (bit_at (get_buffer p byte)) (bf_offset op - byte * 8) (Z.to_nat (bf_bits op)) =
          field (bit_at p) (bf_offset op) (Z.to_nat (bf_bits op))) as E.
  { apply field_shift. intros i Hi. destruct (bf_sign op); rewrite get_buffer_bit by lia; f_equal; lia. }
  unfold read_field. rewrite <- E.
  destruct (bf_sign op); [apply getSigned_spec|apply getUnsigned_spec]; rewrite ?Hlen; done || lia.
Qed.

Lemma write_spec p op v :
  Forall is_byte p -> op_ok op -> bf_offset op + bf_bits op <= 8 * Z.of_nat (length p) ->
  exists p', (if bf_sign op then setSignedBitfield p (bf_offset op) (bf_bits op) v
              else setUnsignedBitfield p (bf_offset op) (bf_bits op) v) = Some p' /\ written p op v p'.
Proof.
  intros Hp (Hb & Ho & _) Hl. unfold setSignedBitfield, setUnsignedBitfield, written.
  destruct (set_loop_spec (Z.to_nat (bf_bits op)) p (bf_offset op) (if bf_sign op then wrapu 64 v else v) Hp Ho ltac:(destruct (bf_sign op); lia))
    as (p' & E & Hp' & Hlen & Hbits).
  exists p'. split; [by destruct (bf_sign op)|]. split; [done|]. split; [done|]. intros k Hk. rewrite Hbits by done.
  rewrite Z2Nat.id by lia. destruct (Z.leb_spec (bf_offset op) k), (Z.ltb_spec k (bf_offset op + bf_bits op)); cbn [andb]; try done.
  destruct (bf_sign op); [|done]. rewrite wrapu_testbit by lia.
  by destruct (Z.ltb_spec (bf_bits op - 1 - (k - bf_offset op)) 64); [|lia].
Qed.

Lemma update_spec p op :
  op_ok op -> op_sat_ok op -> writes op ->
  (if bf_sign op then signed_update op (read_field p op) else unsigned_update op (read_field p op)) =
    Some (stored (bf_sign op) (bf_bits op) (bf_owtype op) (target op (read_field p op))).
Proof.
  intros Hok Hsat Hw. pose proof (read_field_range p op Hok) as Hr. destruct Hok as (Hb & _ & Hi).
  unfold signed_update, unsigned_update, target, op_sat_ok, writes in *. set (old := read_field p op) in *. clearbody old.
  unfold field_min, field_max in Hr. destruct (bf_sign op).
  - assert (2 ^ (bf_bits op - 1) <= 2 ^ 63) by (apply Z.pow_le_mono_r; lia).
    destruct (bf_opcode op); [done| |].
    + rewrite <- (Z.add_0_r (bf_i64 op)) at 2 3. rewrite <- checkSigned_spec; [|lia|done|done|by right|by apply Hsat].
      by rewrite Z.add_0_r, (wraps_id 64 (bf_i64 op)).
    + apply checkSigned_spec; [lia|unfold fits_s; lia|done|left; unfold fits_s; lia|].
      intros _ [? Hinv]. unfold field_max in Hinv. assert (2 ^ (bf_bits op - 1) <= 2 ^ 62) by (apply Z.pow_le_mono_r; lia). lia.
  - assert (2 ^ bf_bits op <= 2 ^ 63) by (apply Z.pow_le_mono_r; lia).
    destruct (bf_opcode op); [done| |].
    + pose proof (wrapu_bound 64 (bf_i64 op) ltac:(lia)) as Hu. cbv zeta. set (u := wrapu 64 (bf_i64 op)) in *.
      rewrite <- (Z.add_0_r u) at 3. rewrite <- checkUnsigned_spec; [|lia|done|done|by right].
      by rewrite Z.add_0_r, (wrapu_id 64 u).
    + apply checkUnsigned_spec; [lia|unfold fits_u; lia|done|left; unfold fits_u; lia].
Qed.

(** The reply of an unsigned operation fits a [long long]. *)
Lemma reply_fits p op v :
  op_ok op -> field_min (bf_sign op) (bf_bits op) <= v <= field_max (bf_sign op) (bf_bits op) ->
  fits_s 64 (update_reply op (read_field p op) v) /\ fits_s 64 (read_field p op).
Proof.
  intros Hok Hv. pose proof (read_field_range p op Hok) as Hr. destruct Hok as (Hb & _).
  assert (- 2 ^ 63 <= field_min (bf_sign op) (bf_bits op) /\ field_max (bf_sign op) (bf_bits op) < 2 ^ 63) as [Hlo Hhi].
  { unfold field_min, field_max. destruct (bf_sign op).
    - assert (2 ^ (bf_bits op - 1) <= 2 ^ 63) by (apply Z.pow_le_mono_r; lia). lia.
    - assert (2 ^ bf_bits op <= 2 ^ 63) by (apply Z.pow_le_mono_r; lia). lia. }
  unfold fits_s, update_reply. change (64 - 1) with 63. destruct (bf_opcode op); lia.
Qed.

Definition op_inside (p : list Z) (op : bitfieldOp) : Prop :=
  writes op -> bf_offset op + bf_bits op <= 8 * Z.of_nat (length p).

Lemma exec_op_spec p dirty op :
  Forall is_byte p -> op_ok op -> op_sat_ok op -> op_inside p op ->
  exists p' r ch, exec_op p dirty op = Some (p', r, ch) /\ op_step dirty p op p' r ch /\
    Forall is_byte p' /\ length p' = length p.
Proof.
  intros Hp Hok Hsat Hin. pose proof (reply_fits p op (read_field p op) Hok (read_field_range p op Hok)) as [_ Hrf].
  destruct (decide (bf_opcode op = BITFIELDOP_GET)) as [Eg|Hw].
  - exists p, (Some (read_field p op)), false. split; [|split; [by constructor|done]].
    unfold exec_op. rewrite Eg. pose proof (read_buffer_spec p op Hp Hok) as E. cbv zeta in E.
    destruct (bf_sign op); rewrite E; mstep; [done|]. by rewrite wraps_id.
  - specialize (Hin Hw). pose proof (read_spec p op Hp Hok Hin) as Er. pose proof (update_spec p op Hok Hsat Hw) as Eu.
    assert (exec_op p dirty op =
      match stored (bf_sign op) (bf_bits op) (bf_owtype op) (target op (read_field p op)) with
      | Some v =>
          p' ← (if bf_sign op then setSignedBitfield p (bf_offset op) (bf_bits op) v
                else setUnsignedBitfield p (bf_offset op) (bf_bits op) v);
          Some (p', Some (if bf_sign op then update_reply op (read_field p op) v
                          else wraps 64 (update_reply op (read_field p op) v)), dirty || negb (read_field p op =? v))
      | None => Some (p, None, false)
      end) as ->.
    { unfold exec_op. destruct (bf_opcode op); [done| |]; destruct (bf_sign op); rewrite Er; mstep; by rewrite Eu. }
    destruct (stored _ _ _ _) as [v|] eqn:Es.
    + destruct (write_spec p op v Hp Hok Hin) as (p' & -> & Hwr). mstep. eexists _, _, _. split; [done|].
      destruct (reply_fits p op v Hok) as [Hf _]; [apply (stored_range _ _ _ _ _ ltac:(apply Hok) Es)|].
      rewrite (wraps_id 64 _ ltac:(lia) Hf). replace (if bf_sign op then _ else _) with (update_reply op (read_field p op) v)
        by (by destruct (bf_sign op)).
      split; [by apply step_write|]. by destruct Hwr as (? & ? & _).
    + eexists _, _, _. split; [done|]. split; [by apply step_fail|done].
Qed.

Lemma exec_ops_spec p dirty ops replies changes :
  Forall is_byte p -> Forall op_ok ops -> Forall op_sat_ok ops -> Forall (op_inside p) ops ->
  exists p' rs n, exec_ops p dirty ops replies changes = Some (p', replies ++ rs, (changes + n)%nat) /\
    ops_run dirty p ops p' rs n.
Proof.
  revert p replies changes. induction ops as [|op ops IH]; intros p replies changes Hp Hok Hsat Hin; cbn [exec_ops].
  { exists p, [], 0%nat. rewrite app_nil_r, Nat.add_0_r. split; [done|constructor]. }
  apply Forall_cons in Hok as [Ho Hok], Hsat as [Hs Hsat], Hin as [Hi Hin].
  destruct (exec_op_spec p dirty op Hp Ho Hs Hi) as (p1 & r & ch & -> & Hstep & Hp1 & Hlen). mstep.
  assert (Forall (op_inside p1) ops) as Hin1.
  { eapply Forall_impl; [done|]. intros op' H Hw. rewrite Hlen. by apply H. }
  destruct (IH p1 (replies ++ [r]) (if ch then S changes else changes) Hp1 Hok Hsat Hin1) as (p' & rs & n & -> & Hrun).
  exists p', (r :: rs), ((if ch then 1 else 0) + n)%nat. split; [|by eapply run_cons].
  rewrite <- app_assoc. cbn [app]. do 2 f_equal. destruct ch; lia.
Qed.

(** ** String values *)

Definition string_ok (o : string_object) : Prop :=
  match o with Raw p => Forall is_byte p | IntEncoded v => fits_s 64 v end.

(** The bytes of a value: an integer is its decimal text. *)
Definition object_bytes (o : string_object) : list Z :=
  match o with Raw p => p | IntEncoded v => decimal_signed v end.

Definition key_bytes (o : option string_object) : list Z := from_option object_bytes [] o.

Lemma decimal_signed_bytes v : fits_s 64 v -> Forall (fun c => 0 < c < 256) (decimal_signed v).
Proof.
  intros Hv. unfold fits_s in Hv. change (64 - 1) with 63 in Hv.
  assert (forall u, 0 <= u < 10 ^ 20 -> Forall (fun c => 0 < c < 256) (decimal u)) as H.
  { intros u Hu. eapply Forall_impl; [by apply decimal_digits|]. unfold digit. lia. }
  unfold decimal_signed. destruct (Z.ltb_spec v 0); [constructor; [lia|]|]; apply H; lia.
Qed.

Lemma object_bytes_ok o : string_ok o -> Forall is_byte (object_bytes o).
Proof.
  destruct o as [p|v]; [done|]. intros Hv. eapply Forall_impl; [by apply decimal_signed_bytes|]. unfold is_byte. lia.
Qed.

Lemma key_bytes_ok o : from_option string_ok True o -> Forall is_byte (key_bytes o).
Proof. destruct o; [apply object_bytes_ok|constructor]. Qed.

Lemma cstring_app s rest : Forall (fun c => 0 < c < 256) s -> cstring (s ++ 0 :: rest) = s.
Proof.
  induction 1 as [|c s Hc Hs IH]; [done|]. cbn [app cstring]. destruct (Z.eqb_spec c 0); [lia|]. by rewrite IH.
Qed.

Lemma print_fits v : fits_s 64 v -> (length (decimal_signed v) < 21)%nat.
Proof. intros Hv. pose proof (decimal_signed_length v Hv). unfold LONG_STR_SIZE in *. lia. Qed.

Lemma getDecodedObject_spec o : string_ok o -> getDecodedObject o = object_bytes o.
Proof.
  destruct o as [p|v]; [done|]. intros Hv. pose proof (print_fits v Hv). cbn [getDecodedObject object_bytes].
  rewrite ll2string_spec by (done || rewrite length_replicate; lia). by apply cstring_app, decimal_signed_bytes.
Qed.

Lemma getObjectReadOnlyString_spec o : from_option string_ok True o -> default [] (getObjectReadOnlyString o) = key_bytes o.
Proof.
  destruct o as [[p|v]|]; [done| |done]. intros Hv. pose proof (print_fits v Hv). cbn [getObjectReadOnlyString].
  rewrite ll2string_spec by (done || rewrite length_replicate; unfold LONG_STR_SIZE; lia).
  rewrite Nat2Z.id. cbn [default]. unfold id. by rewrite take_app_length.
Qed.

(** The bytes are those of the key, grown by zeros to hold [maxbit]. *)
Definition grown (o : option string_object) (maxbit : Z) : list Z :=
  sdsgrowzero (key_bytes o) (Z.to_nat (maxbit / 8 + 1)).

Definition grows (o : option string_object) (maxbit : Z) : bool := negb (length (grown o maxbit) =? length (key_bytes o))%nat.

Lemma lookupString_spec o maxbit :
  from_option string_ok True o -> 0 <= maxbit -> lookupStringForBitCommand o maxbit = (grown o maxbit, grows o maxbit).
Proof.
  intros Ho Hm. unfold lookupStringForBitCommand, grows, grown. rewrite Z.shiftr_div_pow2 by lia. change (2 ^ 3) with 8.
  destruct o as [o|]; cbn in Ho |- *; [unfold dbUnshareStringValue; by rewrite getDecodedObject_spec|].
  pose proof (Z.div_pos maxbit 8 Hm ltac:(lia)). unfold sdsgrowzero. cbn [length app]. rewrite Nat.sub_0_r, length_replicate.
  f_equal. destruct (Nat.eqb_spec (Z.to_nat (maxbit / 8 + 1)) 0); [lia|done].
Qed.

Lemma grown_spec o maxbit :
  from_option string_ok True o -> 0 <= maxbit ->
  Forall is_byte (grown o maxbit) /\ maxbit < 8 * Z.of_nat (length (grown o maxbit)) /\
  forall k, bit_at (grown o maxbit) k = bit_at (key_bytes o) k.
Proof.
  intros Ho Hm. unfold grown, sdsgrowzero. split_and!.
  - apply Forall_app. split; [by apply key_bytes_ok|by apply Forall_replicate].
  - rewrite length_app, length_replicate. pose proof (Z.div_mod maxbit 8). pose proof (Z.mod_pos_bound maxbit 8). lia.
  - intros k. unfold bit_at. f_equal. rewrite !nth_lookup. set (i := Z.to_nat (k / 8)).
    destruct (decide (i < length (key_bytes o))%nat); [by rewrite lookup_app_l|].
    rewrite lookup_app_r, (lookup_ge_None_2 (key_bytes o)) by lia.
    destruct (_ !! _) as [z|] eqn:E; [|done]. by apply lookup_replicate_1 in E as [-> _].
Qed.

(** ** Arguments *)

Lemma type_arg_ok p sign bits :
  getBitfieldTypeFromArgument p = Some (sign, bits) -> 1 <= bits <= (if sign then 64 else 63).
Proof.
  destruct p as [|c p]; [done|]. unfold getBitfieldTypeFromArgument. intros H.
  apply bind_Some in H as (s & _ & H). apply bind_Some in H as (n & _ & H).
  destruct (Z.ltb_spec n 1), (Z.ltb_spec 64 n), (Z.ltb_spec 63 n), s; cbn in H; try done; injection H as <- <-; lia.
Qed.

Lemma offset_arg_ok obey maxlen p hash bits off : getBitOffsetFromArgument obey maxlen p hash bits = Some off -> 0 <= off.
Proof.
  unfold getBitOffsetFromArgument. intros H. apply bind_Some in H as (n & _ & H). cbv zeta in H.
  set (off' := if bool_decide (head p = Some 35) && hash && (0 <? bits) then wraps 64 (n * bits) else n) in H.
  destruct (Z.ltb_spec off' 0); [done|]. destruct (negb obey && _); [done|]. cbn [orb] in H. congruence.
Qed.

(** What the parser keeps of the operations read so far. *)
Definition parsed (ops : list bitfieldOp) (highest : Z) (readonly : bool) : Prop :=
  Forall op_ok ops /\ 0 <= highest /\ Forall (fun op => writes op -> bf_offset op + bf_bits op - 1 <= highest) ops /\
  (readonly = true -> Forall (fun op => ~ writes op) ops).

Lemma parsed_get ops highest readonly off ow bits (sign : bool) :
  parsed ops highest readonly -> 0 <= off -> 1 <= bits <= (if sign then 64 else 63) ->
  parsed (ops ++ [BitfieldOp off 0 BITFIELDOP_GET ow bits sign]) highest readonly.
Proof.
  intros (Hok & Hh & Hw & Hr) Ho Hb. unfold parsed. rewrite !Forall_app, !Forall_singleton.
  split; [split; [done|by refine (conj Hb (conj Ho _))]|]. split; [done|]. split; [split; [done|by intros []]|].
  intros Hro. split; [by apply Hr|by intros []].
Qed.

Lemma parsed_write ops highest readonly off i64 code ow bits (sign : bool) highest' :
  parsed ops highest readonly -> 0 <= off -> 1 <= bits <= (if sign then 64 else 63) -> fits_s 64 i64 ->
  highest <= highest' -> off + bits - 1 <= highest' ->
  parsed (ops ++ [BitfieldOp off i64 code ow bits sign]) highest' false.
Proof.
  intros (Hok & Hh & Hw & Hr) Ho Hb Hi Hh1 Hh2. unfold parsed. rewrite !Forall_app, !Forall_singleton.
  split; [split; [done|exact (conj Hb (conj Ho Hi))]|]. split; [lia|]. split; [|done]. split; [|done].
  eapply Forall_impl; [done|]. intros op H Hwr. specialize (H Hwr). lia.
Qed.

Lemma parse_ops_spec obey maxlen fuel argv ow ops highest readonly ops' highest' readonly' :
  parsed ops highest readonly ->
  parse_ops obey maxlen fuel argv ow ops highest readonly = inr (ops', highest', readonly') ->
  parsed ops' highest' readonly'.
Proof.
  revert argv ow ops highest readonly. induction fuel as [|fuel IH]; intros argv ow ops highest readonly Hp; cbn [parse_ops].
  { by intros [= <- <- <-]. }
  destruct argv as [|sub args]; [by intros [= <- <- <-]|].
  assert (forall s v, string2ll s = Some v -> fits_s 64 v) as Hll by (by intros s v [? _]%string2ll_spec).
  cbv zeta. intros H. repeat case_match; simplify_eq; try (by eapply IH in H);
    (eapply IH; [|exact H]); rewrite ?Z.ltb_lt, ?Z.ltb_ge in *;
    (eapply parsed_get || eapply parsed_write); eauto using offset_arg_ok, type_arg_ok; lia.
Qed.

(** The fuel is enough: more of it changes nothing. *)
Lemma parse_ops_fuel obey maxlen fuel fuel' argv ow ops highest readonly :
  (length argv <= fuel)%nat -> (length argv <= fuel')%nat ->
  parse_ops obey maxlen fuel argv ow ops highest readonly = parse_ops obey maxlen fuel' argv ow ops highest readonly.
Proof.
  revert fuel' argv ow ops highest readonly. induction fuel as [|fuel IH]; intros fuel' [|sub args] ow ops highest readonly Hf Hf';
    [by destruct fuel'|cbn in Hf; lia|by destruct fuel'|].
  destruct fuel' as [|fuel']; [cbn in Hf'; lia|]. cbn [length] in Hf, Hf'. cbn [parse_ops]. cbv zeta.
  destruct args as [|a [|b [|c args]]]; cbn [length tail head] in *;
    repeat (case_match; simplify_eq; try done); apply IH; cbn [length tail]; lia.
Qed.

(** ** BITFIELD *)

Lemma get_ops_run dirty p ops p' rs n : Forall (fun op => ~ writes op) ops -> ops_run dirty p ops p' rs n -> p' = p /\ n = 0%nat.
Proof.
  intros Hg Hr. induction Hr as [|p op ops p1 r ch p2 rs n Hs Hr IH]; [done|].
  apply Forall_cons in Hg as [Hop Hg]. destruct (IH Hg) as [-> ->]. by destruct Hs.
Qed.


(** "SET i8 4 -100", "OVERFLOW SAT", "INCRBY i8 4 -100", "GET u4 0" on a missing key. *)
Definition demo_args : list (list Z) :=
  [s_set; [105; 56]; [52]; [45; 49; 48; 48]; s_overflow; s_sat; s_incrby; [105; 56]; [52]; [45; 49; 48; 48];
   s_get; [117; 52]; [48]].

Definition demo_ops : list bitfieldOp :=
  [BitfieldOp 4 (-100) BITFIELDOP_SET BFOVERFLOW_WRAP 8 true;
   BitfieldOp 4 (-100) BITFIELDOP_INCRBY BFOVERFLOW_SAT 8 true;
   BitfieldOp 0 0 BITFIELDOP_GET BFOVERFLOW_SAT 4 false].


(** SET of a signed field narrower than 64 bits with OVERFLOW SAT stores the maximum, where the value is
    below the minimum and the minimum is what saturation asks for, for every value that is at least 2^63 less
    than the maximum: [maxincr] is compared after it overflowed. *)
Theorem bitfield_sat_inverted off bits v old :
  1 <= bits < 64 -> fits_s 64 v -> sat_inverted bits v ->
  signed_update (BitfieldOp off v BITFIELDOP_SET BFOVERFLOW_SAT bits true) old = Some (Some (field_max true bits)) /\
  stored true bits BFOVERFLOW_SAT v = Some (field_min true bits).
Proof.
  intros Hb Hv [_ Hinv]. cbn. destruct (signed_limits bits ltac:(lia)) as (E & HM & HM62).
  destruct (wraps64_cases (field_max true bits - v)) as (_ & A2 & _).
  unfold fits_s, field_max, field_min, stored in *. change (64 - 1) with 63 in *.
  split.
  - unfold checkSignedBitfieldOverflow. rewrite E. destruct (Z.eqb_spec bits 64); [lia|]. cbn [negb andb].
    rewrite A2 by lia. destruct (Z.ltb_spec (2 ^ (bits - 1) - 1 - v - 2 ^ 64) 0); [|lia].
    by rewrite orb_true_r.
  - unfold field_max, field_min. destruct (Z.leb_spec (- 2 ^ (bits - 1)) v); [lia|]. cbn [andb].
    by destruct (Z.ltb_spec (2 ^ (bits - 1) - 1) v); [lia|].
Qed.

Lemma bitfield_sat_inverted_witness :
  signed_update (BitfieldOp 0 (- 2 ^ 63) BITFIELDOP_SET BFOVERFLOW_SAT 8 true) 0 = Some (Some 127) /\
  stored true 8 BFOVERFLOW_SAT (- 2 ^ 63) = Some (-128).
Proof. apply (bitfield_sat_inverted 0 8 (- 2 ^ 63) 0); [lia|by split|by split; vm_compute]. Defined.
