(* ===== verification/BitopsCmd.v ===== *)
(** * The commands on bits

    SETBIT, GETBIT, BITCOUNT, BITPOS and BITOP against the bits of the string:
    one bit changed or read, the bits of a range counted or searched, and the
    bits of several strings combined. *)
From S2P Require Import Prelude Numconv NumconvSpec Bitops BitopsCount BitopsField.
From Stdlib Require Import ZArith Lia.
From stdpp Require Import prelude list.

#[local] Open Scope Z_scope.

(** ** One bit *)

Lemma mask_bit b m : 0 <= m < 8 -> negb (Z.land b (Z.shiftl 1 m) =? 0) = Z.testbit b m.
Proof. intros Hm. rewrite Z.shiftl_1_l, Z.land_comm. apply land_pow2. lia. Qed.

Lemma setbit_byte b m x :
  wrapu 8 (Z.lor (Z.land b (Z.lnot m)) x) = Z.land (Z.lor (Z.land b (wrapu 64 (Z.lnot m))) x) 0xff.
Proof.
  apply Z.bits_inj'. intros i Hi. change 0xff with (Z.ones 8).
  rewrite wrapu_testbit, !Z.land_spec, !Z.lor_spec, !Z.land_spec, wrapu_testbit by lia.
  destruct (Z.ltb_spec i 8); [|by rewrite Z.ones_spec_high, andb_false_r by lia].
  rewrite Z.ones_spec_low by lia. destruct (Z.ltb_spec i 64); [|lia]. by rewrite andb_true_r.
Qed.

Lemma getbit_spec obey maxlen o arg off :
  from_option string_ok True o -> getBitOffsetFromArgument obey maxlen arg false 0 = Some off ->
  getbitCommand obey maxlen o arg = Some (inr (bit_at (key_bytes o) off)).
Proof.
  intros Ho Harg. pose proof (offset_arg_ok _ _ _ _ _ _ Harg) as Hoff. unfold getbitCommand. rewrite Harg.
  destruct (bit_byte off) as [-> ->]. pose proof (Z.mod_pos_bound off 8 ltac:(lia)).
  destruct o as [o|]; [|by rewrite bit_at_out by (cbn; lia)].
  assert (exists rest, (match o with Raw p => (Z.of_nat (length p), p) | IntEncoded v => ll2string (replicate 32 0) v end) =
    (Z.of_nat (length (object_bytes o)), object_bytes o ++ rest)) as [rest ->].
  { destruct o as [p|v]; [by exists []; rewrite app_nil_r|]. pose proof (print_fits v Ho).
    rewrite ll2string_spec by (done || rewrite length_replicate; lia). by eexists. }
  pose proof (object_bytes_ok o Ho) as Hp. change (key_bytes (Some o)) with (object_bytes o).
  set (p := object_bytes o) in *. destruct (Z.ltb_spec (off / 8) (Z.of_nat (length p))) as [Hl|Hl].
  - pose proof (Z.div_mod off 8 ltac:(lia)). destruct (bit_load p off Hp ltac:(lia)) as (b & Hb & _ & Hn).
    apply load_inv in Hb as [? Hb]. rewrite load_lookup, (lookup_app_l_Some _ _ _ _ Hb) by lia. mstep.
    rewrite mask_bit by lia. unfold bit_at. by rewrite Hn.
  - pose proof (Z.div_mod off 8 ltac:(lia)). by rewrite bit_at_out by lia.
Qed.

(** SETBIT replies the bit that was there, sets the one bit and no other, growing the string by zeros, and
    counts a change when the string grew or the bit differs; GETBIT then reads the bit that was set. *)
Theorem setbit_correct obey maxlen o arg_offset arg_on off (on : bool) :
  from_option string_ok True o ->
  getBitOffsetFromArgument obey maxlen arg_offset false 0 = Some off -> string2ll arg_on = Some (Z.b2z on) ->
  let old := bit_at (key_bytes o) off in
  exists p', setbitCommand obey maxlen o arg_offset arg_on = Some (inr (old, p', grows o off || negb (eqb old on))) /\
    Forall is_byte p' /\ length p' = length (grown o off) /\
    (forall k, 0 <= k -> bit_at p' k = if k =? off then on else bit_at (key_bytes o) k) /\
    getbitCommand obey maxlen (Some (Raw p')) arg_offset = Some (inr on).
Proof.
  intros Ho Harg Hon old. pose proof (offset_arg_ok _ _ _ _ _ _ Harg) as Hoff.
  unfold setbitCommand. rewrite Harg, Hon. replace (Z.land (Z.b2z on) (Z.lnot 1) =? 0) with true by (by destruct on).
  cbn [negb]. rewrite lookupString_spec by done. destruct (grown_spec o off Ho Hoff) as (Hg & Hlen & Hbits).
  set (p := grown o off) in *. destruct (bit_byte off) as [-> ->]. pose proof (Z.mod_pos_bound off 8 ltac:(lia)).
  destruct (bit_load p off Hg ltac:(lia)) as (b & -> & Hb & Hn). mstep. rewrite mask_bit by lia.
  assert (Z.testbit b (7 - off mod 8) = old) as -> by (unfold old; rewrite <- Hbits; unfold bit_at; by rewrite Hn).
  replace (Z.b2z old =? Z.b2z on) with (eqb old on) by (by destruct old, on).
  assert (forall p', Forall is_byte p' -> bit_at p' off = on -> getbitCommand obey maxlen (Some (Raw p')) arg_offset = Some (inr on)) as Hget
    by (by intros p' Hp' <-; apply getbit_spec).
  destruct (grows o off || negb (eqb old on)) eqn:E.
  - rewrite store_some by (split; [apply Z.div_pos|apply Z.div_lt_upper_bound]; lia). mstep. rewrite setbit_byte.
    replace (Z.land (Z.b2z on) 1) with (Z.b2z on) by (by destruct on).
    destruct (set_bit p off b on Hg ltac:(lia) Hn) as (Hp' & Hl' & Hb'). eexists. split; [done|].
    split_and!; [done|done| |apply Hget; [done|by rewrite Hb', Z.eqb_refl]].
    intros k Hk. rewrite Hb' by done. by rewrite Hbits.
  - apply orb_false_iff in E as [_ E%negb_false_iff%eqb_prop]. exists p.
    split_and!; [done|done|done| |apply Hget; [done|by rewrite Hbits]].
    intros k Hk. rewrite Hbits. by destruct (Z.eqb_spec k off) as [->|].
Qed.

Lemma setbit_correct_witness :
  exists p', setbitCommand false 536870912 (Some (IntEncoded 12)) [50; 49] [49] = Some (inr (false, p', true)) /\
    Forall is_byte p' /\ length p' = 3%nat /\
    (forall k, 0 <= k -> bit_at p' k = if k =? 21 then true else bit_at (key_bytes (Some (IntEncoded 12))) k) /\
    getbitCommand false 536870912 (Some (Raw p')) [50; 49] = Some (inr true).
Proof.
  apply (setbit_correct false 536870912 (Some (IntEncoded 12)) [50; 49] [49] 21 true); [by split|by vm_compute|by vm_compute].
Defined.

(** ** Ranges *)

(** The first and the last bit of a range of a string of [len] bytes. *)
Definition range_bits (len : Z) (r : bit_range) : Z * Z :=
  let clip tot s e :=
    (if s <? 0 then Z.max 0 (tot + s) else s, Z.min (tot - 1) (if e <? 0 then Z.max 0 (tot + e) else e)) in
  match r with
  | Whole => (0, 8 * len - 1)
  | From s => let '(s, e) := clip len s (len - 1) in (8 * s, 8 * e + 7)
  | FromTo s e false => let '(s, e) := clip len s e in (8 * s, 8 * e + 7)
  | FromTo s e true => clip (8 * len) s e
  end.

(** The masks for the first [r] and for the bits after bit [r] of a byte. *)
Definition mask_before (r : Z) : Z := Z.land (Z.lnot (Z.shiftl 1 (8 - r) - 1)) 0xFF.
Definition mask_after (r : Z) : Z := Z.shiftl 1 (7 - r) - 1.

(** A range that is not empty, as the bytes it touches and its edges. *)
Lemma convert_range_spec len r :
  0 <= len ->
  let '(lo, hi) := range_bits len r in
  let '(start, end_, m1, m2) := convert_range len r in
  if hi <? lo then end_ < start
  else 0 <= start <= end_ /\ end_ < len /\ exists r1 r2, 0 <= r1 < 8 /\ 0 <= r2 < 8 /\
    lo = 8 * start + r1 /\ hi = 8 * end_ + r2 /\ m1 = mask_before r1 /\ m2 = mask_after r2.
Proof.
  intros Hl.
  assert (forall s e, e < len -> 0 <= s ->
    if 8 * e + 7 <? 8 * s then e < s
    else 0 <= s <= e /\ e < len /\ exists r1 r2, 0 <= r1 < 8 /\ 0 <= r2 < 8 /\
      8 * s = 8 * s + r1 /\ 8 * e + 7 = 8 * e + r2 /\ 0 = mask_before r1 /\ 0 = mask_after r2) as Hbytes.
  { intros s e He Hs. destruct (Z.ltb_spec (8 * e + 7) (8 * s)); [lia|]. split; [lia|]. split; [done|]. 
    exists 0, 7. split_and!; lia || done. }
  assert (forall tot s e, 0 <= tot ->
    let s1 := if s <? 0 then tot + s else s in let e1 := if e <? 0 then tot + e else e in
    let s2 := if s1 <? 0 then 0 else s1 in let e2 := if e1 <? 0 then 0 else e1 in
    let e3 := if tot <=? e2 then tot - 1 else e2 in
    s2 = (if s <? 0 then Z.max 0 (tot + s) else s) /\ e3 = Z.min (tot - 1) (if e <? 0 then Z.max 0 (tot + e) else e)
    /\ 0 <= s2 /\ e3 < tot) as Hclip.
  { intros tot s e Ht. cbv zeta. destruct (Z.ltb_spec s 0), (Z.ltb_spec e 0);
      repeat match goal with |- context [?a <? ?b] => destruct (Z.ltb_spec a b) | |- context [?a <=? ?b] => destruct (Z.leb_spec a b) end; lia. }
  destruct r as [|s|s e [|]]; cbn [range_bits convert_range].
  - replace (8 * len - 1) with (8 * (len - 1) + 7) by lia. apply (Hbytes 0 (len - 1)); lia.
  - destruct (Hclip len s (len - 1) Hl) as (-> & -> & Hs & He). cbn [andb]. by apply Hbytes.
  - rewrite Z.shiftl_mul_pow2, (Z.mul_comm len) by lia. change (2 ^ 3) with 8.
    destruct (Hclip (8 * len) s e ltac:(lia)) as (-> & -> & Hs & He). cbn [andb].
    set (s' := if s <? 0 then _ else s) in *. set (e' := Z.min _ _) in *. clearbody s' e'.
    destruct (Z.leb_spec s' e') as [Hse|Hse], (Z.ltb_spec e' s') as [Hes|Hes]; try lia.
    rewrite !Z.shiftr_div_pow2 by lia. change (2 ^ 3) with 8. change 7 with (Z.ones 3). rewrite !Z.land_ones by lia.
    change (2 ^ 3) with 8. pose proof (Z.div_mod s' 8 ltac:(lia)). pose proof (Z.div_mod e' 8 ltac:(lia)).
    pose proof (Z.mod_pos_bound s' 8 ltac:(lia)). pose proof (Z.mod_pos_bound e' 8 ltac:(lia)).
    pose proof (Z.div_le_mono s' e' 8 ltac:(lia) ltac:(lia)). pose proof (Z.div_pos s' 8 Hs ltac:(lia)).
    split; [lia|]. split; [lia|]. exists (s' mod 8), (e' mod 8). split_and!; lia || done.
  - destruct (Hclip len s e Hl) as (-> & -> & Hs & He). cbn [andb]. by apply Hbytes.
Qed.

Lemma mem_read_bit p a n k :
  0 <= k < 8 * Z.of_nat n -> bit_at (mem_read a n p) k = bit_at p (k + 8 * Z.of_nat a).
Proof.
  intros Hk. unfold bit_at. rewrite (Z.mul_comm 8 (Z.of_nat a)), Z.div_add, Z.mod_add by lia. f_equal.
  assert (0 <= k / 8 < Z.of_nat n) by (split; [apply Z.div_pos|apply Z.div_lt_upper_bound]; lia).
  rewrite !nth_lookup. unfold mem_read. rewrite lookup_take_lt, lookup_drop by lia. do 2 f_equal. lia.
Qed.

Lemma load_bytes_some p a n :
  0 <= a -> 0 <= n -> a + n <= Z.of_nat (length p) -> load_bytes p a n = Some (mem_read (Z.to_nat a) (Z.to_nat n) p).
Proof. intros. unfold load_bytes. by rewrite inside_true. Qed.

Lemma bit_at_load p a b k : 0 <= a -> 0 <= k < 8 -> load p a = Some b -> bit_at p (8 * a + k) = Z.testbit b (7 - k).
Proof.
  intros Ha Hk [_ Hb]%load_inv. unfold bit_at.
  assert ((8 * a + k) / 8 = a) as -> by (symmetry; apply (Z.div_unique _ _ _ k); lia).
  assert ((8 * a + k) mod 8 = k) as -> by (symmetry; apply (Z.mod_unique _ _ a); lia).
  by rewrite nth_lookup, Hb.
Qed.

(** The bits a mask leaves of a byte are those before or after. *)
Lemma mask_byte_ones b r :
  is_byte b -> 0 <= r < 8 ->
  byte_ones (Z.land b (mask_before r)) = ones (fun k => Z.testbit b (7 - k)) 0 (Z.to_nat r) /\
  byte_ones (Z.land b (mask_after r)) = ones (fun k => Z.testbit b (7 - k)) (r + 1) (Z.to_nat (7 - r)).
Proof.
  intros Hb Hr.
  pose proof (all_between_spec 0 256 (fun b => all_between 0 8 (fun r =>
    (byte_ones (Z.land b (mask_before r)) =? ones (fun k => Z.testbit b (7 - k)) 0 (Z.to_nat r)) &&
    (byte_ones (Z.land b (mask_after r)) =? ones (fun k => Z.testbit b (7 - k)) (r + 1) (Z.to_nat (7 - r)))))
    b ltac:(by vm_compute) Hb) as H. cbv beta in H.
  apply (all_between_spec _ _ _ r) in H; [|done]. apply andb_true_iff in H as [?%Z.eqb_eq ?%Z.eqb_eq]. done.
Qed.

(** ** BITCOUNT *)

(** Both indexes negative and out of order: the count is zero before the
    indexes are clipped. *)
Definition backwards (r : bit_range) : bool :=
  match r with FromTo s e _ => (s <? 0) && (e <? 0) && (e <? s) | _ => false end.

Lemma ones_load p a b n lo :
  0 <= a -> load p a = Some b -> 0 <= lo -> lo + Z.of_nat n <= 8 ->
  ones (fun k => Z.testbit b (7 - k)) lo n = ones (bit_at p) (lo + 8 * a) n.
Proof.
  intros Ha Hb Hlo Hn. rewrite ones_shift. apply ones_ext. intros k Hk. rewrite Z.add_comm.
  symmetry. by apply bit_at_load; [|lia|].
Qed.

(** The whole bytes are counted and the bits at the edges taken off. *)
Lemma count_edges p start end_ r1 r2 b1 b2 :
  0 <= start <= end_ -> 0 <= r1 < 8 -> 0 <= r2 < 8 -> 8 * start + r1 <= 8 * end_ + r2 ->
  load p start = Some b1 -> load p end_ = Some b2 -> is_byte b1 -> is_byte b2 ->
  ones (bit_at p) (8 * start) (8 * Z.to_nat (end_ - start + 1)) -
    (byte_ones (Z.land b1 (mask_before r1)) + byte_ones (Z.land b2 (mask_after r2))) =
  ones (bit_at p) (8 * start + r1) (Z.to_nat (8 * end_ + r2 - (8 * start + r1) + 1)).
Proof.
  intros Hse H1 H2 Hle Hb1 Hb2 Hy1 Hy2. destruct (mask_byte_ones b1 r1 Hy1 H1) as [-> _]. destruct (mask_byte_ones b2 r2 Hy2 H2) as [_ ->].
  rewrite (ones_load p start b1), (ones_load p end_ b2) by (done || lia).
  set (n := Z.to_nat (8 * end_ + r2 - (8 * start + r1) + 1)).
  replace (8 * Z.to_nat (end_ - start + 1))%nat with (Z.to_nat r1 + (n + Z.to_nat (7 - r2)))%nat by (unfold n; lia).
  rewrite !ones_app. rewrite Z2Nat.id by lia.
  replace (8 * start + r1 + Z.of_nat n) with (r2 + 1 + 8 * end_) by (unfold n; lia). rewrite Z.add_0_l. lia.
Qed.

Lemma masks_zero r1 r2 b1 b2 :
  0 <= r1 < 8 -> 0 <= r2 < 8 -> negb (mask_before r1 =? 0) || negb (mask_after r2 =? 0) = false ->
  byte_ones (Z.land b1 (mask_before r1)) + byte_ones (Z.land b2 (mask_after r2)) = 0.
Proof.
  intros _ _ [->%negb_false_iff%Z.eqb_eq ->%negb_false_iff%Z.eqb_eq]%orb_false_iff. by rewrite !Z.land_0_r.
Qed.

Lemma land_byte b m : is_byte b -> is_byte (Z.land b m).
Proof. intros Hb. apply (land_fits 8); [lia|done]. Qed.

Lemma bitcount_bytes addr addr2 p start end_ r1 r2 :
  Forall is_byte p -> 0 <= start <= end_ -> end_ < Z.of_nat (length p) -> 0 <= r1 < 8 -> 0 <= r2 < 8 ->
  8 * start + r1 <= 8 * end_ + r2 ->
  (bs ← load_bytes p start (end_ - start + 1);
   count ← serverPopcount (addr + start) bs;
   if negb (mask_before r1 =? 0) || negb (mask_after r2 =? 0) then
     first ← load p start;
     last ← load p end_;
     let f0 := if negb (mask_before r1 =? 0) then Z.land first (mask_before r1) else 0 in
     let f1 := if negb (mask_after r2 =? 0) then Z.land last (mask_after r2) else 0 in
     excluded ← serverPopcount addr2 [f0; f1];
     Some (count - excluded)
   else Some count) =
  Some (ones (bit_at p) (8 * start + r1) (Z.to_nat (8 * end_ + r2 - (8 * start + r1) + 1))).
Proof.
  intros Hp Hse Hel H1 H2 Hle. rewrite load_bytes_some by lia. mstep.
  rewrite serverPopcount_spec by (by apply Forall_take, Forall_drop). mstep. rewrite length_mem_read by lia.
  destruct (load_some p start ltac:(lia)) as [b1 Hb1]. destruct (load_some p end_ ltac:(lia)) as [b2 Hb2].
  assert (is_byte b1) by (apply load_inv in Hb1 as [_ Hb1]; by eapply Forall_lookup_1).
  assert (is_byte b2) by (apply load_inv in Hb2 as [_ Hb2]; by eapply Forall_lookup_1).
  pose proof (count_edges p start end_ r1 r2 b1 b2 Hse H1 H2 Hle Hb1 Hb2 ltac:(done) ltac:(done)) as E.
  assert (ones (bit_at (mem_read (Z.to_nat start) (Z.to_nat (end_ - start + 1)) p)) 0 (8 * Z.to_nat (end_ - start + 1)) =
    ones (bit_at p) (8 * start) (8 * Z.to_nat (end_ - start + 1))) as ->.
  { rewrite <- (Z.add_0_l (8 * start)), ones_shift. apply ones_ext. intros k Hk.
    rewrite mem_read_bit by lia. by rewrite Z2Nat.id by lia. }
  destruct (negb _ || negb _) eqn:Em; [|rewrite masks_zero in E by done; f_equal; lia].
  rewrite Hb1, Hb2. mstep. cbv zeta.
  assert (forall b m, (if negb (m =? 0) then Z.land b m else 0) = Z.land b m) as Hif
    by (intros b m; destruct (Z.eqb_spec m 0) as [->|]; [by rewrite Z.land_0_r|done]).
  rewrite !Hif, serverPopcount_spec by (repeat constructor; by apply land_byte). mstep.
  rewrite <- all_ones_spec. cbn [all_ones foldr]. f_equal. lia.
Qed.

(** C24: BITCOUNT replies the number of bits set in the range, which is given in bytes or in bits, with negative
    indexes from the end and clipped to the string; a missing key has none, and an argument that does not parse
    is replied as its error.  The 28-byte loop, the unaligned head and the masks of the edges are all exact. *)
Theorem bitcount_correct addr addr2 o args :
  from_option string_ok True o -> Z.of_nat (length (key_bytes o)) <= (2 ^ 63 - 1) / 8 ->
  bitcountCommand addr addr2 o args =
    match parse_range args with
    | inl e => Some (inl e)
    | inr r =>
        let '(lo, hi) := range_bits (Z.of_nat (length (key_bytes o))) r in
        Some (inr (if backwards r then 0 else ones (bit_at (key_bytes o)) lo (Z.to_nat (hi - lo + 1))))
    end.
Proof.
  intros Ho Hlen. unfold bitcountCommand. destruct (parse_range args) as [e|r]; [done|].
  unfold bitcount_range. rewrite getObjectReadOnlyString_spec by done. pose proof (key_bytes_ok o Ho) as Hp.
  set (p := key_bytes o) in *. set (len := Z.of_nat (length p)) in *.
  assert (range_assert len r = true) as ->.
  { destruct r; [done| |]; cbn [range_assert]; apply Z.leb_le; by rewrite Z.shiftr_div_pow2 by lia. }
  cbn [negb]. replace (match r with Whole => false | From s => _ | FromTo s e _ => _ end) with (backwards r).
  2: { destruct r as [|s|]; [done| |done]. cbn. destruct (Z.ltb_spec s 0), (Z.ltb_spec (len - 1) 0), (Z.ltb_spec (len - 1) s); try done; lia. }
  pose proof (convert_range_spec len r ltac:(lia)) as Hr. destruct (range_bits len r) as [lo hi].
  destruct (backwards r); [done|]. destruct (convert_range len r) as [[[start end_] m1] m2].
  destruct (Z.ltb_spec hi lo) as [Hh|Hh].
  - replace (Z.to_nat (hi - lo + 1)) with 0%nat by lia. destruct o; [|done]. destruct (Z.ltb_spec end_ start); [done|lia].
  - destruct Hr as (Hse & Hel & r1 & r2 & H1 & H2 & -> & -> & -> & ->).
    destruct o as [o|]; [|unfold len in Hel; cbn in Hel; lia].
    destruct (Z.ltb_spec end_ start); [lia|]. by rewrite bitcount_bytes by (done || lia).
Qed.

Lemma bitcount_correct_witness :
  bitcountCommand 3 0 (Some (Raw (replicate 40 0x5a))) [[53]; [45; 57]; s_bit] =
    Some (inr (ones (bit_at (replicate 40 0x5a)) 5 307)).
Proof.
  rewrite (bitcount_correct 3 0 (Some (Raw (replicate 40 0x5a))) [[53]; [45; 57]; s_bit]);
    [by vm_compute|by apply Forall_replicate|by vm_compute].
Defined.

(** ** BITPOS *)

(** The first position of the [n] from [lo] whose bit is [bit]. *)
Fixpoint find_bit (f : Z -> bool) (bit : bool) (lo : Z) (n : nat) : option Z :=
  match n with
  | O => None
  | S n => if eqb (f lo) bit then Some lo else find_bit f bit (lo + 1) n
  end.

Lemma find_app f bit lo n m :
  find_bit f bit lo (n + m) = match find_bit f bit lo n with Some k => Some k | None => find_bit f bit (lo + Z.of_nat n) m end.
Proof.
  revert lo. induction n as [|n IH]; intros lo; cbn [find_bit Nat.add]; [by rewrite Z.add_0_r|].
  destruct (eqb _ _); [done|]. rewrite IH. by replace (lo + 1 + Z.of_nat n) with (lo + Z.of_nat (S n)) by lia.
Qed.

Lemma find_ext f g bit lo n : (forall k, lo <= k < lo + Z.of_nat n -> f k = g k) -> find_bit f bit lo n = find_bit g bit lo n.
Proof.
  revert lo. induction n as [|n IH]; intros lo H; [done|]. cbn [find_bit].
  rewrite (H lo), (IH (lo + 1)) by (lia || (intros; apply H; lia)). done.
Qed.

Lemma find_none f bit lo n : (forall k, lo <= k < lo + Z.of_nat n -> f k = negb bit) -> find_bit f bit lo n = None.
Proof.
  revert lo. induction n as [|n IH]; intros lo H; [done|]. cbn [find_bit].
  rewrite (H lo), (IH (lo + 1)) by (lia || (intros; apply H; lia)). by destruct bit.
Qed.

Lemma find_first f bit lo n k : first_at f lo bit k -> k < lo + Z.of_nat n -> find_bit f bit lo n = Some k.
Proof.
  revert lo. induction n as [|n IH]; intros lo (Hk & Hb & Hlt) Hn; [lia|]. cbn [find_bit].
  destruct (decide (k = lo)) as [->|Hne]; [by rewrite Hb, eqb_reflx|].
  rewrite (Hlt lo) by lia. replace (eqb (negb bit) bit) with false by (by destruct bit).
  apply IH; [|lia]. split_and!; [lia|done|]. intros j Hj. apply Hlt. lia.
Qed.

Lemma find_bound f bit lo n k : find_bit f bit lo n = Some k -> lo <= k < lo + Z.of_nat n.
Proof.
  revert lo. induction n as [|n IH]; intros lo; cbn [find_bit]; [done|].
  destruct (eqb _ _); [intros [= <-]; lia|]. intros H%IH. lia.
Qed.

Lemma find_shift f bit lo d n : find_bit f bit (lo + d) n = (fun k => k + d) <$> find_bit (fun k => f (k + d)) bit lo n.
Proof.
  revert lo. induction n as [|n IH]; intros lo; [done|]. cbn [find_bit]. destruct (eqb _ _); [done|].
  by replace (lo + d + 1) with (lo + 1 + d) by lia.
Qed.

(** What [serverBitpos] replies on the [n] bytes from byte [x] of the bits [g]. *)
Definition seg (g : Z -> bool) (bit : bool) (x n : Z) : Z :=
  match find_bit g bit (8 * x) (Z.to_nat (8 * n)) with
  | Some k => k - 8 * x
  | None => if bit then -1 else 8 * n
  end.

Lemma seg_spec g addr t bit x n :
  Forall is_byte t -> Z.of_nat (length t) = n -> (forall k, 0 <= k < 8 * n -> bit_at t k = g (k + 8 * x)) ->
  serverBitpos addr t bit = Some (seg g bit x n).
Proof.
  intros Ht Hn Hg. unfold seg. rewrite <- (Z.add_0_l (8 * x)), find_shift, Z.add_0_l.
  rewrite <- (find_ext (bit_at t)) by (intros k Hk; apply Hg; lia).
  destruct (serverBitpos_spec addr t bit Ht) as [(k & -> & Hk)|(-> & -> & Hz)].
  - destruct (decide (k < 8 * n)) as [Hlt|Hge].
    + rewrite (find_first _ _ _ _ k Hk) by lia. cbn. f_equal. lia.
    + destruct Hk as (Hk0 & Hb & Hlt). rewrite find_none by (intros; apply Hlt; lia). cbn.
      assert (bit = false) as -> by (rewrite <- Hb; apply bit_at_out; lia).
      f_equal. destruct (decide (k = 8 * n)); [done|].
      specialize (Hlt (8 * n) ltac:(lia)). by rewrite bit_at_out in Hlt by lia.
  - by rewrite find_none by (intros; apply Hz; lia).
Qed.

(** Whether the position replied is inside the segment. *)
Lemma seg_valid g bit x n :
  0 <= n -> (negb (seg g bit x n =? -1) && negb (seg g bit x n =? 8 * n)) =
    match find_bit g bit (8 * x) (Z.to_nat (8 * n)) with Some _ => true | None => false end.
Proof.
  intros Hn. unfold seg. destruct (find_bit g bit (8 * x) (Z.to_nat (8 * n))) as [k|] eqn:E.
  - apply find_bound in E. destruct (Z.eqb_spec (k - 8 * x) (-1)), (Z.eqb_spec (k - 8 * x) (8 * n)); try lia; done.
  - destruct bit; [done|]. by rewrite Z.eqb_refl, andb_false_r.
Qed.

(** A position found in a segment is the one found in a longer one. *)
Lemma seg_longer g bit x n m k :
  0 <= n <= m -> find_bit g bit (8 * x) (Z.to_nat (8 * n)) = Some k -> seg g bit x n = seg g bit x m.
Proof.
  intros Hn E. unfold seg. rewrite E. replace (Z.to_nat (8 * m)) with (Z.to_nat (8 * n) + Z.to_nat (8 * (m - n)))%nat by lia.
  by rewrite find_app, E.
Qed.

Lemma edge_bits bit b r :
  is_byte b -> 0 <= r < 8 ->
  is_byte (edge_byte bit b (mask_before r)) /\ is_byte (edge_byte bit b (mask_after r)) /\
  forall k, 0 <= k < 8 ->
    Z.testbit (edge_byte bit b (mask_before r)) (7 - k) = (if k <? r then negb bit else Z.testbit b (7 - k)) /\
    Z.testbit (edge_byte bit b (mask_after r)) (7 - k) = (if r <? k then negb bit else Z.testbit b (7 - k)).
Proof.
  intros Hb Hr.
  pose proof (all_between_spec 0 256 (fun b => all_between 0 8 (fun r =>
    let e1 := edge_byte bit b (mask_before r) in let e2 := edge_byte bit b (mask_after r) in
    (0 <=? e1) && (e1 <? 256) && (0 <=? e2) && (e2 <? 256) && all_between 0 8 (fun k =>
      eqb (Z.testbit e1 (7 - k)) (if k <? r then negb bit else Z.testbit b (7 - k)) &&
      eqb (Z.testbit e2 (7 - k)) (if r <? k then negb bit else Z.testbit b (7 - k)))))
    b ltac:(by destruct bit; vm_compute) Hb) as H. cbv beta in H.
  apply (all_between_spec _ _ _ r) in H; [|done]. cbv zeta in H.
  apply andb_true_iff in H as [H Hk]. repeat apply andb_true_iff in H as [H ?]. unfold is_byte.
  rewrite ?Z.leb_le, ?Z.ltb_lt in *. split; [lia|]. split; [lia|]. intros k Hk8.
  apply (all_between_spec _ _ _ k) in Hk; [|done]. by apply andb_true_iff in Hk as [?%eqb_prop ?%eqb_prop].
Qed.

Lemma mask_zero r : 0 <= r < 8 -> (mask_before r =? 0) = (r =? 0) /\ (mask_after r =? 0) = (r =? 7).
Proof.
  intros Hr. pose proof (all_between_spec 0 8 (fun r => eqb (mask_before r =? 0) (r =? 0) && eqb (mask_after r =? 0) (r =? 7)) r
    ltac:(by vm_compute) Hr) as H. by apply andb_true_iff in H as [?%eqb_prop ?%eqb_prop].
Qed.

Section search.
  Variables (addr addr2 : Z) (p : list Z) (bit : bool) (start end_ r1 r2 : Z).
  Hypotheses (Hp : Forall is_byte p) (Hse : 0 <= start <= end_) (Hel : end_ < Z.of_nat (length p))
    (H1 : 0 <= r1 < 8) (H2 : 0 <= r2 < 8) (Hle : 8 * start + r1 <= 8 * end_ + r2).

(** The bits of the range, and outside it bits that do not match. *)
Definition in_bits (k : Z) : bool :=
  if (8 * start + r1 <=? k) && (k <=? 8 * end_ + r2) then bit_at p k else negb bit.

Lemma in_bits_eq k : in_bits k =
  if k <? 8 * start + r1 then negb bit else if 8 * end_ + r2 <? k then negb bit else bit_at p k.
Proof.
  unfold in_bits. destruct (Z.leb_spec (8 * start + r1) k), (Z.leb_spec k (8 * end_ + r2)),
    (Z.ltb_spec k (8 * start + r1)), (Z.ltb_spec (8 * end_ + r2) k); try lia; done.
Qed.

Lemma load_inside x : start <= x <= end_ -> exists b, load p x = Some b /\ is_byte b /\
  forall k, 0 <= k < 8 -> bit_at p (k + 8 * x) = Z.testbit b (7 - k).
Proof using Hp Hse Hel.
  intros Hx. destruct (load_some p x ltac:(lia)) as [b Hb]. exists b. split; [done|].
  split; [apply load_inv in Hb as [_ Hb]; by eapply Forall_lookup_1|]. intros k Hk. rewrite Z.add_comm. by apply bit_at_load; [lia| |].
Qed.

Lemma byte_seg a t x :
  is_byte t -> (forall k, 0 <= k < 8 -> Z.testbit t (7 - k) = in_bits (k + 8 * x)) ->
  serverBitpos a [t] bit = Some (seg in_bits bit x 1).
Proof using.
  intros Ht Hb. apply seg_spec; [by apply Forall_singleton|done|]. intros k Hk. rewrite bit_at_head by lia. apply Hb. lia.
Qed.

(** The first byte, without the bits before the range (and after it when it is
    the last byte too). *)
Lemma first_seg a b :
  load p start = Some b ->
  let t := edge_byte bit b (mask_before r1) in
  serverBitpos a [if negb (mask_after r2 =? 0) && (end_ - start + 1 =? 1) then edge_byte bit t (mask_after r2) else t] bit =
    Some (seg in_bits bit start 1).
Proof using Hp Hse Hel H1 H2 Hle.
  intros Hb t. destruct (load_inside start ltac:(lia)) as (b' & Hb' & Hby & Hbits). assert (b' = b) as -> by congruence.
  destruct (edge_bits bit b r1 Hby H1) as (Ht & _ & Htb). fold t in Ht, Htb.
  destruct (edge_bits bit t r2 Ht H2) as (_ & Ht2 & Ht2b). destruct (mask_zero r2 H2) as [_ ->].
  apply byte_seg; [by case_match|]. intros k Hk. destruct (Htb k Hk) as [E1 _]. destruct (Ht2b k Hk) as [_ E2].
  rewrite in_bits_eq, Hbits by done.
  destruct (Z.eqb_spec r2 7), (Z.eqb_spec (end_ - start + 1) 1); cbn [negb andb]; rewrite ?E2, ?E1;
    destruct (Z.ltb_spec k r1), (Z.ltb_spec (k + 8 * start) (8 * start + r1)),
      (Z.ltb_spec r2 k), (Z.ltb_spec (8 * end_ + r2) (k + 8 * start)); try lia; done.
Qed.

(** The last byte, when its first bits are in the range. *)
Lemma last_seg a b :
  load p end_ = Some b -> start < end_ \/ r1 = 0 ->
  serverBitpos a [edge_byte bit b (mask_after r2)] bit = Some (seg in_bits bit end_ 1).
Proof using Hp Hse Hel H1 H2 Hle.
  intros Hb Hlast. destruct (load_inside end_ ltac:(lia)) as (b' & Hb' & Hby & Hbits). assert (b' = b) as -> by congruence.
  destruct (edge_bits bit b r2 Hby H2) as (_ & Ht & Htb). apply byte_seg; [done|]. intros k Hk. destruct (Htb k Hk) as [_ E].
  rewrite in_bits_eq, Hbits, E by done.
  destruct (Z.ltb_spec (k + 8 * end_) (8 * start + r1)), (Z.ltb_spec r2 k), (Z.ltb_spec (8 * end_ + r2) (k + 8 * end_)); try lia; done.
Qed.

(** The bytes that are all in the range. *)
Lemma middle_seg x n :
  start <= x -> 8 * start + r1 <= 8 * x -> 0 < n -> x + n <= end_ + 1 -> 8 * (x + n) - 1 <= 8 * end_ + r2 ->
  exists bs, load_bytes p x n = Some bs /\ serverBitpos (addr + x) bs bit = Some (seg in_bits bit x n).
Proof using Hp Hse Hel H1 H2 Hle.
  intros Hx Hlo Hn Hx2 Hhi. rewrite load_bytes_some by lia. eexists. split; [done|].
  apply seg_spec; [by apply Forall_take, Forall_drop|rewrite length_mem_read; lia|].
  intros k Hk. rewrite mem_read_bit, Z2Nat.id, in_bits_eq by lia.
  destruct (Z.ltb_spec (k + 8 * x) (8 * start + r1)), (Z.ltb_spec (8 * end_ + r2) (k + 8 * x)); try lia; done.
Qed.

(** What the search has when it reaches [result]: the reply on the bytes that
    are left, the ones before having no match. *)
Definition reached (r : Z * Z * Z) : Prop :=
  let '(pos, st, bytes) := r in
  start <= st /\ 0 < bytes /\ st + bytes = end_ + 1 /\ pos = seg in_bits bit st bytes /\
  find_bit in_bits bit (8 * start) (Z.to_nat (8 * (st - start))) = None.

(** The bytes from [st], when the ones before have no match. *)
Lemma search_rest st bytes :
  start <= st -> 0 < bytes -> st + bytes = end_ + 1 -> 8 * start + r1 <= 8 * st ->
  find_bit in_bits bit (8 * start) (Z.to_nat (8 * (st - start))) = None ->
  exists r, (let curbytes := bytes - (if mask_after r2 =? 0 then 0 else 1) in
    r ← (if 0 <? curbytes then
           bs ← load_bytes p st curbytes;
           pos ← serverBitpos (addr + st) bs bit;
           if (bytes =? curbytes) || (negb (pos =? -1) && negb (pos =? Z.shiftl curbytes 3))
           then Some (inl (pos, st, bytes))
           else Some (inr (st + curbytes, bytes - curbytes))
         else Some (inr (st, bytes)));
    match r with
    | inl res => Some res
    | inr (st, bytes) =>
        b ← load p end_;
        pos ← serverBitpos addr2 [edge_byte bit b (mask_after r2)] bit;
        Some (pos, st, bytes)
    end) = Some r /\ reached r.
Proof using Hp Hse Hel H1 H2 Hle.
  intros Hst Hby Hsum Hlo Hnone. destruct (mask_zero r2 H2) as [_ ->]. cbv zeta.
  set (cur := bytes - (if r2 =? 7 then 0 else 1)).
  destruct (load_inside end_ ltac:(lia)) as (b & Hb & _).
  destruct (Z.ltb_spec 0 cur) as [Hcur|Hcur].
  - destruct (middle_seg st cur) as (bs & -> & E);
      [lia|lia|lia|unfold cur; case_match; lia|unfold cur in *; destruct (Z.eqb_spec r2 7); lia|].
    mstep. rewrite E. mstep. rewrite Z.shiftl_mul_pow2, (Z.mul_comm cur (2 ^ 3)) by lia. change (2 ^ 3) with 8.
    rewrite seg_valid by lia. destruct (Z.eqb_spec bytes cur) as [Ec|Ec]; cbn [orb].
    { mstep. eexists. split; [done|]. split_and!; [done|done|done|by rewrite Ec|done]. }
    destruct (find_bit in_bits bit (8 * st) (Z.to_nat (8 * cur))) as [k|] eqn:Ef; mstep.
    { eexists. split; [done|]. split_and!; [done|done|done| |done]. eapply seg_longer; [|done].
      unfold cur in *. case_match; lia. }
    assert (bytes - cur = 1) as Eb by (unfold cur in *; case_match; lia).
    rewrite Hb. mstep. rewrite (last_seg addr2 b Hb) by lia. mstep. eexists. split; [done|].
    split_and!; [lia|lia|lia|rewrite Eb; f_equal; lia|].
    replace (Z.to_nat (8 * (st + cur - start))) with (Z.to_nat (8 * (st - start)) + Z.to_nat (8 * cur))%nat by lia.
    rewrite find_app, Hnone. by replace (8 * start + Z.of_nat (Z.to_nat (8 * (st - start)))) with (8 * st) by lia.
  - assert (bytes = 1) as -> by (unfold cur in *; case_match; lia). mstep. rewrite Hb. mstep.
    rewrite (last_seg addr2 b Hb) by lia. mstep. eexists. split; [done|]. split_and!; [lia|lia|lia|f_equal; lia|done].
Qed.

Lemma search_spec : exists r,
  bitpos_search addr addr2 p bit start end_ (mask_before r1) (mask_after r2) = Some r /\ reached r.
Proof using Hp Hse Hel H1 H2 Hle.
  unfold bitpos_search. destruct (mask_zero r1 H1) as [Hz _]. rewrite Hz.
  destruct (Z.eqb_spec r1 0) as [E|E]; cbn [negb].
  - mstep. apply search_rest; [lia|lia|lia|lia|]. by rewrite Z.sub_diag.
  - destruct (load_inside start ltac:(lia)) as (b & Hb & _). rewrite Hb. mstep. rewrite (first_seg addr2 b Hb). mstep.
    pose proof (seg_valid in_bits bit start 1 ltac:(lia)) as Hv. change (8 * 1) with 8 in Hv. rewrite Hv.
    destruct (Z.eqb_spec (end_ - start + 1) 1) as [E1|E1]; cbn [orb].
    { mstep. eexists. split; [done|]. split_and!; [lia|lia|lia|by rewrite E1|by rewrite Z.sub_diag]. }
    destruct (find_bit in_bits bit (8 * start) (Z.to_nat 8)) as [k|] eqn:Ef; mstep.
    { eexists. split; [done|]. split_and!; [lia|lia|lia| |by rewrite Z.sub_diag]. eapply seg_longer; [lia|exact Ef]. }
    apply search_rest; [lia|lia|lia|lia|]. by replace (8 * (start + 1 - start)) with 8 by lia.
Qed.

(** The range searched is the bytes searched. *)
Lemma find_in_bits :
  find_bit in_bits bit (8 * start) (Z.to_nat (8 * (end_ - start + 1))) =
  find_bit (bit_at p) bit (8 * start + r1) (Z.to_nat (8 * end_ + r2 - (8 * start + r1) + 1)).
Proof using Hse H1 H2 Hle.
  set (n := Z.to_nat (8 * end_ + r2 - (8 * start + r1) + 1)).
  replace (Z.to_nat (8 * (end_ - start + 1))) with (Z.to_nat r1 + (n + Z.to_nat (7 - r2)))%nat by (unfold n; lia).
  rewrite !find_app, Z2Nat.id by lia.
  assert (forall k, 8 * start <= k < 8 * start + r1 -> in_bits k = negb bit) as Hlow
    by (intros k Hk; rewrite in_bits_eq; destruct (Z.ltb_spec k (8 * start + r1)); [done|lia]).
  rewrite (find_none in_bits bit (8 * start)) by (intros; apply Hlow; lia).
  rewrite (find_none in_bits bit (8 * start + r1 + Z.of_nat n)).
  2: { intros k Hk. rewrite in_bits_eq. unfold n in Hk.
       destruct (Z.ltb_spec k (8 * start + r1)), (Z.ltb_spec (8 * end_ + r2) k); try lia; done. }
  rewrite (find_ext in_bits (bit_at p)); [by case_match|]. intros k Hk. rewrite in_bits_eq. unfold n in Hk.
  destruct (Z.ltb_spec k (8 * start + r1)), (Z.ltb_spec (8 * end_ + r2) k); try lia; done.
Qed.
End search.

Definition end_given (r : bit_range) : bool := match r with FromTo _ _ _ => true | _ => false end.

(** A range with no end ends at the end of the string. *)
Lemma open_range len r : 0 <= len -> end_given r = false -> (range_bits len r).2 = 8 * len - 1.
Proof. intros Hl He. destruct r as [|s|]; [done| |done]. cbn. destruct (Z.ltb_spec (len - 1) 0); lia. Qed.

(** The reply for the string [p] and the bits [lo] to [hi]. *)
Definition bitpos_reply (p : list Z) (bit given : bool) (lo hi : Z) : Z :=
  if hi <? lo then -1
  else match find_bit (bit_at p) bit lo (Z.to_nat (hi - lo + 1)) with
       | Some k => k
       | None => if bit || given then -1 else hi + 1
       end.

(** C25: BITPOS replies the first position in the range whose bit is the one asked for.  Without one it replies
    -1, except for a clear bit when no end is given, where it replies the position after the string; a missing
    key is an endless string of zeros.  The unaligned head, the word loop and the masked bytes at the edges,
    with their early exits, all give the first position, and the panic of the scan is not reached. *)
Theorem bitpos_correct addr addr2 o arg_bit bit args :
  from_option string_ok True o -> Z.of_nat (length (key_bytes o)) <= (2 ^ 63 - 1) / 8 ->
  string2ll arg_bit = Some (Z.b2z bit) ->
  bitposCommand addr addr2 o arg_bit args =
    match parse_range args with
    | inl e => Some (inl e)
    | inr r =>
        let '(lo, hi) := range_bits (Z.of_nat (length (key_bytes o))) r in
        Some (inr (match o with
                   | None => if bit then -1 else 0
                   | Some _ => bitpos_reply (key_bytes o) bit (end_given r) lo hi
                   end))
    end.
Proof.
  intros Ho Hlen Hbit. unfold bitposCommand. rewrite Hbit.
  replace (negb (Z.b2z bit =? 0) && negb (Z.b2z bit =? 1)) with false by (by destruct bit).
  replace (Z.b2z bit =? 1) with bit by (by destruct bit). destruct (parse_range args) as [e|r]; [done|].
  unfold bitpos_range. rewrite getObjectReadOnlyString_spec by done. pose proof (key_bytes_ok o Ho) as Hp.
  set (p := key_bytes o) in *. set (len := Z.of_nat (length p)) in *.
  assert (range_assert len r = true) as ->.
  { destruct r; [done| |]; cbn [range_assert]; apply Z.leb_le; by rewrite Z.shiftr_div_pow2 by lia. }
  cbn [negb]. pose proof (convert_range_spec len r ltac:(lia)) as Hr. pose proof (open_range len r ltac:(lia)) as Hopen.
  destruct (range_bits len r) as [lo hi]. destruct (convert_range len r) as [[[start end_] m1] m2].
  destruct o as [o|]; [|done]. unfold bitpos_reply. destruct (Z.ltb_spec hi lo) as [Hh|Hh].
  { destruct (Z.ltb_spec end_ start); [done|lia]. }
  destruct Hr as (Hse & Hel & r1 & r2 & H1 & H2 & -> & -> & -> & ->). destruct (Z.ltb_spec end_ start); [lia|].
  destruct (search_spec addr addr2 p bit start end_ r1 r2 Hp Hse Hel H1 H2 Hh) as ([[pos st] bytes] & -> & Hst & Hby & Hsum & Epos & Hnone).
  mstep. rewrite <- find_in_bits by done.
  replace (Z.to_nat (8 * (end_ - start + 1))) with (Z.to_nat (8 * (st - start)) + Z.to_nat (8 * bytes))%nat by lia.
  rewrite find_app, Hnone. replace (8 * start + Z.of_nat (Z.to_nat (8 * (st - start)))) with (8 * st) by lia.
  rewrite !Z.shiftl_mul_pow2 by lia. change (2 ^ 3) with 8. rewrite Epos. unfold seg.
  change (match r with FromTo _ _ _ => true | _ => false end) with (end_given r). cbn in Hopen.
  destruct (find_bit _ bit (8 * st) (Z.to_nat (8 * bytes))) as [k|] eqn:Ef.
  - apply find_bound in Ef. destruct (Z.eqb_spec (k - 8 * st) (bytes * 8)), (Z.eqb_spec (k - 8 * st) (-1)); try lia.
    rewrite andb_false_r. mstep. cbn [negb]. do 2 f_equal. lia.
  - destruct bit; cbn [orb negb andb]; [by rewrite andb_false_r|].
    rewrite andb_true_r, (Z.mul_comm bytes 8), Z.eqb_refl, andb_true_r. destruct (end_given r) eqn:Eg; [done|].
    destruct (Z.eqb_spec (8 * bytes) (-1)); [lia|]. mstep. cbn [negb]. do 2 f_equal. lia.
Qed.

Lemma bitpos_correct_witness :
  bitposCommand 5 0 (Some (Raw (replicate 30 255 ++ [0xf8; 0xff]))) [48] [[51]] = Some (inr 245).
Proof.
  rewrite (bitpos_correct 5 0 (Some (Raw (replicate 30 255 ++ [0xf8; 0xff]))) [48] false [[51]]);
    [by vm_compute| |by vm_compute|by vm_compute].
  cbn [from_option string_ok]. apply Forall_app. split; [by apply Forall_replicate|].
  apply Forall_cons. split; [done|by apply Forall_singleton].
Defined.

(** ** BITOP *)

(** The operation on bits; NOT has one operand. *)
Definition bit_op (op : bitop) (a b : bool) : bool :=
  match op with
  | BITOP_AND => a && b
  | BITOP_OR => a || b
  | BITOP_XOR => xorb a b
  | BITOP_NOT => a
  end.

Definition combine (op : bitop) (bits : list bool) : bool :=
  match bits with
  | [] => false
  | b :: bits => match op with BITOP_NOT => negb b | _ => fold_left (bit_op op) bits b end
  end.

Lemma op_word_bit op a b i : Z.testbit (op_word op a b) i = bit_op op (Z.testbit a i) (Z.testbit b i).
Proof. destruct op; cbn; [apply Z.land_spec|apply Z.lor_spec|apply Z.lxor_spec|done]. Qed.

Lemma op_word_byte op a b : is_byte a -> is_byte b -> is_byte (op_word op a b).
Proof.
  intros Ha Hb. destruct op; cbn; [apply (land_fits 8)|apply (lor_fits 8)|apply (lxor_fits 8)|]; done || lia.
Qed.

(** A byte of a source, zero past its end. *)
Definition src_byte (j : nat) (s : list Z) : Z := default 0 (s !! j).

Lemma src_byte_ok j s : Forall is_byte s -> is_byte (src_byte j s).
Proof. intros Hs. unfold src_byte. destruct (s !! j) eqn:E; cbn; [by eapply Forall_lookup_1|done]. Qed.

Definition op_bytes (op : bitop) (j : nat) (others : list (list Z)) (out : Z) : Z :=
  fold_left (fun acc s => op_word op acc (src_byte j s)) others out.

(** The early exit changes nothing: 0 absorbs AND, 255 absorbs OR. *)
Lemma absorb op j others out :
  Forall (Forall is_byte) others ->
  (op = BITOP_AND /\ out = 0) \/ (op = BITOP_OR /\ out = 255) -> op_bytes op j others out = out.
Proof.
  intros Hs [[-> ->]|[-> ->]].
  - induction Hs as [|s others Hs Ho IH]; [done|exact IH].
  - induction Hs as [|s others Hs Ho IH]; [done|]. cbn. pose proof (src_byte_ok j s Hs) as Hb.
    apply (all_between_spec 0 256 (fun b => Z.lor 255 b =? 255) _ ltac:(by vm_compute)), Z.eqb_eq in Hb. rewrite Hb. exact IH.
Qed.

Lemma slow_byte_spec op j others out : Forall (Forall is_byte) others -> slow_byte op j others out = op_bytes op j others out.
Proof.
  intros Hs. revert out. induction Hs as [|s others Hs Ho IH]; intros out; [done|]. cbn [slow_byte]. fold (src_byte j s).
  change (op_bytes op j (s :: others) out) with (op_bytes op j others (op_word op out (src_byte j s))).
  set (out' := op_word op out (src_byte j s)). rewrite IH.
  destruct op; try done; [destruct (Z.eqb_spec out' 0) as [E|]|destruct (Z.eqb_spec out' 0xff) as [E|]]; try done;
    rewrite absorb by (done || tauto); done.
Qed.

Lemma op_bytes_bit op j others out i :
  Z.testbit (op_bytes op j others out) i =
    fold_left (bit_op op) ((fun s => Z.testbit (src_byte j s) i) <$> others) (Z.testbit out i).
Proof.
  revert out. induction others as [|s others IH]; intros out; [done|]. cbn. unfold op_bytes in IH. by rewrite IH, op_word_bit.
Qed.

(** A byte of the slow path, by its bits. *)
Lemma slow_output_bit op strs j i :
  Forall (Forall is_byte) strs -> (op = BITOP_NOT -> length strs = 1%nat) -> 0 <= i < 8 ->
  Z.testbit (slow_output op strs j) i = combine op ((fun s => Z.testbit (src_byte j s) i) <$> strs).
Proof.
  intros Hs Hnot Hi. destruct Hs as [|s others Hs Ho]; [apply Z.testbit_0_l|]. cbn [slow_output]. fold (src_byte j s).
  rewrite slow_byte_spec, op_bytes_bit by done. destruct op; try done.
  destruct others; [|by specialize (Hnot eq_refl)]. cbn. rewrite wrapu_testbit, Z.lnot_spec by lia.
  by destruct (Z.ltb_spec i 8); [|lia].
Qed.

(** The words of the fast path work on their bytes. *)
Lemma op_word_cons op a A b B :
  is_byte a -> is_byte b -> op_word op (a + 256 * A) (b + 256 * B) = op_word op a b + 256 * op_word op A B.
Proof.
  intros Ha Hb. assert (forall x X, is_byte x -> x + 256 * X = Z.lor (X * 2 ^ 8) x) as Hor
    by (intros; rewrite lor_disjoint by (lia || done); lia).
  rewrite !Hor by (done || by apply op_word_byte). apply Z.bits_inj'. intros i Hi.
  rewrite op_word_bit, !Z.lor_spec, op_word_bit. destruct (Z.ltb_spec i 8).
  - by rewrite !Z.mul_pow2_bits_low by lia.
  - rewrite !Z.mul_pow2_bits, op_word_bit by lia. rewrite (testbit_high 8 a), (testbit_high 8 b) by (done || lia).
    rewrite !orb_false_r. destruct op; cbn; by rewrite ?orb_false_r.
Qed.

Lemma op_decode op xs ys :
  Forall is_byte xs -> Forall is_byte ys -> length xs = length ys ->
  op_word op (le_decode xs) (le_decode ys) = le_decode (zip_with (op_word op) xs ys).
Proof.
  intros Hx. revert ys. induction Hx as [|x xs Hx Hxs IH]; intros [|y ys] Hy Hl; try done; [by destruct op|].
  apply Forall_cons in Hy as [Hy Hys]. cbn [zip_with]. rewrite !decode_cons, op_word_cons, IH by (done || (cbn in Hl; lia)). done.
Qed.

Lemma op_bytes_zip op xs ys :
  Forall is_byte xs -> Forall is_byte ys -> Forall is_byte (zip_with (op_word op) xs ys).
Proof.
  intros Hx. revert ys. induction Hx as [|x xs Hx Hxs IH]; intros ys Hy; [constructor|].
  destruct Hy; [constructor|]. constructor; [by apply op_word_byte|by apply IH].
Qed.

Lemma op_word8 op xs ys :
  Forall is_byte xs -> Forall is_byte ys -> length xs = 8%nat -> length ys = 8%nat ->
  le_encode 8 (op_word op (le_decode xs) (le_decode ys)) = zip_with (op_word op) xs ys.
Proof.
  intros Hx Hy Hlx Hly. rewrite op_decode by (done || lia).
  assert (length (zip_with (op_word op) xs ys) = 8%nat) as Hl by (rewrite length_zip_with; lia).
  rewrite <- Hl at 1. by apply le_encode_decode, op_bytes_zip.
Qed.

Lemma not_word8 xs :
  Forall is_byte xs -> length xs = 8%nat ->
  le_encode 8 (wrapu 64 (Z.lnot (le_decode xs))) = (fun b => wrapu 8 (Z.lnot b)) <$> xs.
Proof.
  intros Hx Hl.
  assert (forall b, is_byte b -> wrapu 8 (Z.lnot b) = 255 - b) as Hb.
  { intros b Hb. apply (all_between_spec 0 256 (fun b => wrapu 8 (Z.lnot b) =? 255 - b) b ltac:(by vm_compute)), Z.eqb_eq in Hb. done. }
  assert (forall ys, Forall is_byte ys -> le_decode ((fun b => wrapu 8 (Z.lnot b)) <$> ys) = 2 ^ (8 * Z.of_nat (length ys)) - 1 - le_decode ys) as Hd.
  { induction 1 as [|y ys Hy Hys IH]; [done|]. cbn [length]. rewrite fmap_cons, !decode_cons, IH, Hb, pow2_succ8 by done. lia. }
  assert (wrapu 64 (Z.lnot (le_decode xs)) = le_decode ((fun b => wrapu 8 (Z.lnot b)) <$> xs)) as ->.
  { rewrite Hd, Hl by done. pose proof (le_decode_bound xs Hx) as Hbd. rewrite Hl in Hbd. change (8 * Z.of_nat 8) with 64 in *.
    unfold wrapu, Z.lnot. symmetry. apply (Z.mod_unique _ _ (-1)); lia. }
  assert (length ((fun b => wrapu 8 (Z.lnot b)) <$> xs) = 8%nat) as Hl' by (by rewrite length_fmap).
  rewrite <- Hl' at 1. apply le_encode_decode, Forall_fmap. eapply Forall_impl; [done|]. intros b _. apply (wrapu_bound 8). lia.
Qed.

Lemma read32 (l : list Z) :
  length l = 32%nat -> l = mem_read (8 * 0) 8 l ++ mem_read (8 * 1) 8 l ++ mem_read (8 * 2) 8 l ++ mem_read (8 * 3) 8 l.
Proof. intros Hl. rewrite <- !mem_read_split. cbn [Nat.add Nat.mul]. rewrite <- Hl at 1. symmetry. apply mem_read_all. Qed.

Lemma op_block_spec op lres lp :
  Forall is_byte lres -> Forall is_byte lp -> length lres = 32%nat -> length lp = 32%nat ->
  op_block op lres lp = zip_with (op_word op) lres lp.
Proof.
  intros Hr Hp Hlr Hlp. unfold op_block.
  rewrite !op_word8 by ((by apply Forall_take, Forall_drop) || (rewrite length_mem_read; lia)).
  rewrite (read32 lres Hlr) at 5. rewrite (read32 lp Hlp) at 5. by rewrite !zip_with_app by (rewrite !length_mem_read; lia).
Qed.

Lemma not_block_spec lres :
  Forall is_byte lres -> length lres = 32%nat -> not_block lres = (fun b => wrapu 8 (Z.lnot b)) <$> lres.
Proof.
  intros Hr Hlr. unfold not_block. rewrite !not_word8 by ((by apply Forall_take, Forall_drop) || (rewrite length_mem_read; lia)).
  rewrite (read32 lres Hlr) at 5. by rewrite !fmap_app.
Qed.

Lemma mem_read_seq s j n : (j + n <= length s)%nat -> mem_read j n s = (fun i => src_byte i s) <$> seq j n.
Proof.
  intros Hl. apply list_eq. intros i. unfold mem_read. rewrite list_lookup_fmap.
  destruct (decide (i < n)%nat).
  - rewrite lookup_take_lt, lookup_drop, lookup_seq_lt by lia. cbn. unfold src_byte.
    destruct (s !! (j + i)%nat) eqn:E; [done|]. apply lookup_ge_None in E. lia.
  - rewrite lookup_take_ge, lookup_seq_ge by lia. done.
Qed.

Lemma zip_fmap (f g : nat -> Z) (h : Z -> Z -> Z) (l : list nat) : zip_with h (f <$> l) (g <$> l) = (fun i => h (f i) (g i)) <$> l.
Proof. induction l as [|x l IH]; [done|]. rewrite !fmap_cons. cbn [zip_with]. by rewrite IH. Qed.

Lemma fast_fold op j others (f : nat -> Z) :
  Forall (fun s => Forall is_byte s /\ (j + 32 <= length s)%nat) others -> (forall i, is_byte (f i)) ->
  fold_left (fun lres lp => op_block op lres (mem_read j 32 lp)) others (f <$> seq j 32) =
    (fun i => op_bytes op i others (f i)) <$> seq j 32.
Proof.
  intros Hs. revert f. induction Hs as [|s others [Hs Hl] Ho IH]; intros f Hf; [done|]. cbn [fold_left].
  rewrite op_block_spec, mem_read_seq, zip_fmap;
    [|done|by apply Forall_fmap, Forall_true|by apply Forall_take, Forall_drop|by rewrite length_fmap, length_seq
     |rewrite length_mem_read; lia].
  rewrite (IH (fun i => op_word op (f i) (src_byte i s))); [done|]. intros i. by apply op_word_byte, src_byte_ok.
Qed.

(** One turn of the fast path computes the bytes of the slow one. *)
Lemma fast_block_spec op j strs :
  strs <> [] -> (op = BITOP_NOT -> length strs = 1%nat) ->
  Forall (fun s => Forall is_byte s /\ (j + 32 <= length s)%nat) strs ->
  fast_block op j strs = slow_output op strs <$> seq j 32.
Proof.
  intros Hne Hnot Hs. destruct Hs as [|s others [Hs Hl] Ho]; [done|]. cbn [fast_block].
  assert (Forall (Forall is_byte) others) as Hob by (eapply Forall_impl; [done|]; by intros ? []).
  assert (slow_output op (s :: others) <$> seq j 32 =
    (fun i => op_bytes op i others (match op with BITOP_NOT => wrapu 8 (Z.lnot (src_byte i s)) | _ => src_byte i s end)) <$> seq j 32) as ->.
  { apply list_fmap_ext. intros i x _. cbn [slow_output]. fold (src_byte x s). by rewrite slow_byte_spec. }
  pose proof (fun i => src_byte_ok i s Hs) as Hb.
  destruct op; try (rewrite mem_read_seq by done; by apply fast_fold).
  destruct others; [|by specialize (Hnot eq_refl)].
  rewrite not_block_spec, mem_read_seq, <- list_fmap_compose;
    [done|done|by apply Forall_take, Forall_drop|rewrite length_mem_read; lia].
Qed.

Lemma fast_path_spec fuel op strs j minlen res :
  strs <> [] -> (op = BITOP_NOT -> length strs = 1%nat) ->
  Forall (fun s => Forall is_byte s /\ (j + minlen <= length s)%nat) strs ->
  exists n, (n <= minlen)%nat /\ fast_path fuel op strs j minlen res = (res ++ (slow_output op strs <$> seq j n), (j + n)%nat).
Proof.
  intros Hne Hnot. revert j minlen res. induction fuel as [|fuel IH]; intros j minlen res Hs; cbn [fast_path].
  { exists 0%nat. rewrite app_nil_r, Nat.add_0_r. split; [lia|done]. }
  destruct (Nat.leb_spec 32 minlen); [|exists 0%nat; rewrite app_nil_r, Nat.add_0_r; split; [lia|done]].
  destruct (IH (j + 32)%nat (minlen - 32)%nat (res ++ fast_block op j strs)) as (n & Hn & ->).
  { eapply Forall_impl; [done|]. intros s []. split; [done|lia]. }
  exists (32 + n)%nat. split; [lia|]. rewrite fast_block_spec; [|done|done|].
  2: { eapply Forall_impl; [done|]. intros s []. split; [done|lia]. }
  by rewrite <- app_assoc, <- fmap_app, <- seq_app, Nat.add_assoc.
Qed.

(** The longest source, and a bound below them all. *)
Lemma lengths_spec srcs j maxlen minlen mx mn :
  bitop_lengths srcs j maxlen minlen = (mx, mn) ->
  mx = Nat.max maxlen (max_list (length <$> (default [] <$> srcs))) /\
  ((j <> 0)%nat -> (mn <= minlen)%nat) /\ Forall (fun s => (mn <= length s)%nat) (default [] <$> srcs).
Proof.
  revert j maxlen minlen. induction srcs as [|[p|] srcs IH]; intros j maxlen minlen; cbn [bitop_lengths].
  - intros [= <- <-]. cbn. split; [lia|]. by split.
  - intros (-> & Hmn & Hall)%IH. specialize (Hmn ltac:(lia)). split; [destruct (Nat.ltb_spec maxlen (length p)); cbn; lia|].
    split; [intros Hj|constructor; [cbn|done]];
      destruct (Nat.eqb_spec j 0), (Nat.ltb_spec (length p) minlen); cbn [orb] in Hmn; lia.
  - intros (-> & Hmn & Hall)%IH. specialize (Hmn ltac:(lia)). cbn. split; [lia|]. split; [lia|]. constructor; [cbn; lia|done].
Qed.

Lemma bitop_compute_spec op srcs :
  srcs <> [] -> (op = BITOP_NOT -> length srcs = 1%nat) -> Forall (Forall is_byte) (default [] <$> srcs) ->
  bitop_compute op srcs =
    slow_output op (default [] <$> srcs) <$> seq 0 (max_list (length <$> (default [] <$> srcs))).
Proof.
  intros Hne Hnot Hb. unfold bitop_compute. destruct (bitop_lengths srcs 0 0 0) as [mx mn] eqn:E.
  apply lengths_spec in E as (Hmx & _ & Hmn). rewrite Nat.max_0_l in Hmx. set (strs := default [] <$> srcs) in *.
  assert (strs <> []) as Hne' by (unfold strs; by destruct srcs).
  assert (mn <= mx)%nat as Hle.
  { rewrite Hmx. destruct Hmn as [|s ss Hs]; [done|]. cbn. lia. }
  rewrite <- Hmx. destruct (_ && _); [|by rewrite Nat.sub_0_r].
  destruct (fast_path_spec mn op strs 0 mn []) as (n & Hn & ->); [done|by unfold strs; rewrite length_fmap| |].
  { apply Forall_and. split; [done|exact Hmn]. }
  cbn [app Nat.add]. rewrite <- fmap_app, <- seq_app. by replace (n + (mx - n))%nat with mx by lia.
Qed.

(** The strings of the sources. *)
Definition sources (srcs : list (option string_object)) : list (list Z) := key_bytes <$> srcs.

(** C26: BITOP stores a string as long as the longest source, whose every bit is the operation on the bits of the
    sources at that position, the shorter ones and the missing keys padded by zeros.  The word loop over the
    common prefix of up to 16 keys and the byte loop with its early exit give the same string. *)
Theorem bitop_correct opname op srcs :
  bitop_name opname = Some op -> srcs <> [] -> (op = BITOP_NOT -> length srcs = 1%nat) ->
  Forall (from_option string_ok True) srcs ->
  exists res, bitopCommand opname srcs = inr res /\ length res = max_list (length <$> sources srcs) /\
    forall k, 0 <= k < 8 * Z.of_nat (length res) -> bit_at res k = combine op ((fun s => bit_at s k) <$> sources srcs).
Proof.
  intros Hop Hne Hnot Hok. unfold bitopCommand. rewrite Hop.
  assert (default [] <$> map (option_map getDecodedObject) srcs = sources srcs) as Es.
  { unfold sources. clear Hne Hnot. induction Hok as [|o srcs Ho Hok IH]; [done|]. cbn [map]. rewrite !fmap_cons, IH. f_equal.
    destruct o; [by apply getDecodedObject_spec|done]. }
  assert (Forall (Forall is_byte) (sources srcs)) as Hb.
  { apply Forall_fmap. eapply Forall_impl; [done|]. intros o Ho. by apply key_bytes_ok. }
  assert (op = BITOP_NOT -> length (sources srcs) = 1%nat) as Hnot' by (unfold sources; by rewrite length_fmap).
  replace (match op with BITOP_NOT => negb (length srcs =? 1)%nat | _ => false end) with false
    by (destruct op; try done; by rewrite Hnot).
  rewrite bitop_compute_spec, Es; [|by destruct srcs|by rewrite length_map|by rewrite Es].
  eexists. split; [done|]. split; [by rewrite length_fmap, length_seq|]. intros k Hk. rewrite length_fmap, length_seq in Hk.
  pose proof (Z.mod_pos_bound k 8 ltac:(lia)).
  assert (0 <= k / 8 < Z.of_nat (max_list (length <$> sources srcs))) by (split; [apply Z.div_pos|apply Z.div_lt_upper_bound]; lia).
  unfold bit_at. rewrite nth_lookup, list_lookup_fmap, lookup_seq_lt by lia. cbn [fmap option_fmap option_map default].
  unfold id. cbn [Nat.add]. rewrite slow_output_bit by (done || lia). f_equal. apply list_fmap_ext. intros i s _.
  by rewrite nth_lookup.
Qed.

Lemma bitop_correct_witness :
  exists res, bitopCommand [88; 111; 82] [Some (Raw (replicate 40 0x0f)); None; Some (IntEncoded 1234)] = inr res /\ length res = 40%nat /\
    forall k, 0 <= k < 8 * Z.of_nat (length res) ->
      bit_at res k = combine BITOP_XOR ((fun s => bit_at s k) <$> sources [Some (Raw (replicate 40 0x0f)); None; Some (IntEncoded 1234)]).
Proof.
  apply (bitop_correct [88; 111; 82] BITOP_XOR [Some (Raw (replicate 40 0x0f)); None; Some (IntEncoded 1234)]);
    [by vm_compute|done|done|].
  apply Forall_cons. split; [by apply Forall_replicate|]. apply Forall_cons. split; [done|].
  apply Forall_singleton. by split.
Defined.
