(* ===== verification/Observe.v ===== *)
(** * Observed commands (src/observe.c)

    The OBSERVE feature: clients subscribe to a read-only command on a key by
    its fingerprint and are pushed the result again when the key changes,
    either at once or after a debounce period.  The state is the part of the
    server and of its clients the feature uses; a client pointer is its
    identifier, and looking up a client that is gone is the fault [None], as
    is using a NULL dict.  The keyspace [DB], the command procedures [exec]
    and the order in which a dict iterator returns the entries are
    parameters. *)
From S2P Require Import Prelude Crc.
From Stdlib Require Import ZArith Lia Ascii String.
From stdpp Require Import prelude strings gmap list.

#[local] Open Scope Z_scope.

(** ** Strings *)

(** [tolower] of the C locale. *)
Definition tolower (c : ascii) : ascii :=
  let n := nat_of_ascii c in
  if (65 <=? n)%nat && (n <=? 90)%nat then ascii_of_nat (n + 32) else c.

Fixpoint string_lower (s : string) : string :=
  match s with
  | EmptyString => EmptyString
  | String c s => String (tolower c) (string_lower s)
  end.

(** What a [char *] function sees of an sds: the bytes before the first NUL. *)
Fixpoint cstr (s : string) : string :=
  match s with
  | EmptyString => EmptyString
  | String c s => if (nat_of_ascii c =? 0)%nat then EmptyString else String c (cstr s)
  end.

(** [!strcasecmp(a, b)] *)
Definition strcasecmp_eq (a b : string) : bool :=
  bool_decide (string_lower (cstr a) = string_lower (cstr b)).

Fixpoint bytes_of (s : string) : list Z :=
  match s with
  | EmptyString => []
  | String c s => Z.of_nat (nat_of_ascii c) :: bytes_of s
  end.

Definition hex_digit (d : Z) : ascii :=
  ascii_of_nat (Z.to_nat (if d <? 10 then 48 + d else 87 + d)).

(** The last [n] hexadecimal digits of [x], before [acc]. *)
Fixpoint hex_digits (n : nat) (x : Z) (acc : string) : string :=
  match n with
  | O => acc
  | S n => hex_digits n (x / 16) (String (hex_digit (x mod 16)) acc)
  end.

(** ** Data *)

Record observeCommandInfo := ObserveInfo {
  oi_command : string;
  oi_argv : list string;
  oi_key : string;
  oi_clients : list Z
}.

Section observe.
Context {DB R : Type}.
(** [exec db proc argv dbid]: what procedure [proc] replies with. *)
Context (exec : DB -> string -> list string -> Z -> R).
(** [lookupKeyRead] finds the key. *)
Context (key_exists : DB -> Z -> string -> bool).
(** The address of the buffer the fingerprint is computed from. *)
Context (data_addr : Z).
(** The orders in which iterators return the entries of a dict. *)
Context (buffer_order : gmap string Z -> list (string * Z)).
Context (fps_order : gset string -> list string).

Inductive reply :=
  | ReplyError (msg : string)
  | ReplyInteger (n : Z)
  | ReplyObserve (push : bool) (fingerprint : string) (result : R).

Record client := Client {
  cl_fps : option (gset string);     (* observe_fingerprints *)
  cl_observing : bool;
  cl_resp3 : bool;
  cl_db : Z;
  cl_deny_blocking : bool;
  cl_multi : bool;
  cl_out : list reply                (* what was sent, oldest first *)
}.

Record server := Server {
  observe_fingerprints : option (gmap string observeCommandInfo);
  observe_key_to_fingerprints : option (gmap string (list string));
  observing_clients : Z;
  observe_debounce_buffer : option (gmap string Z);   (* key and dbid *)
  observe_debounce_period : Z;
  debounce_running : bool;           (* isObserveDebounceRunning *)
  clients : gmap Z client
}.

Implicit Types (s : server) (c : client) (cid dbid : Z) (fp key : string).

Definition set_fps c x := Client x (cl_observing c) (cl_resp3 c) (cl_db c) (cl_deny_blocking c)
  (cl_multi c) (cl_out c).
Definition set_observing c x := Client (cl_fps c) x (cl_resp3 c) (cl_db c) (cl_deny_blocking c)
  (cl_multi c) (cl_out c).
Definition add_reply c r := Client (cl_fps c) (cl_observing c) (cl_resp3 c) (cl_db c)
  (cl_deny_blocking c) (cl_multi c) (cl_out c ++ [r]).

Definition set_client s cid c := Server (observe_fingerprints s) (observe_key_to_fingerprints s)
  (observing_clients s) (observe_debounce_buffer s) (observe_debounce_period s) (debounce_running s)
  (<[cid := c]> (clients s)).
Definition del_client s cid := Server (observe_fingerprints s) (observe_key_to_fingerprints s)
  (observing_clients s) (observe_debounce_buffer s) (observe_debounce_period s) (debounce_running s)
  (delete cid (clients s)).
Definition set_observing_clients s n := Server (observe_fingerprints s) (observe_key_to_fingerprints s)
  n (observe_debounce_buffer s) (observe_debounce_period s) (debounce_running s) (clients s).
Definition set_tables s f k := Server f k (observing_clients s) (observe_debounce_buffer s)
  (observe_debounce_period s) (debounce_running s) (clients s).
Definition set_buffer s b running := Server (observe_fingerprints s) (observe_key_to_fingerprints s)
  (observing_clients s) b (observe_debounce_period s) running (clients s).

Definition reply_to s cid r : option server :=
  c ← clients s !! cid; Some (set_client s cid (add_reply c r)).

(** ** Marking *)

Definition markClientAsObserving s cid : option server :=
  c ← clients s !! cid;
  if negb (cl_observing c)
  then Some (set_observing_clients (set_client s cid (set_observing c true)) (wrapu 32 (observing_clients s + 1)))
  else Some s.

Definition unmarkClientAsObserving s cid : option server :=
  c ← clients s !! cid;
  if cl_observing c
  then Some (set_observing_clients (set_client s cid (set_observing c false)) (wrapu 32 (observing_clients s - 1)))
  else Some s.

(** ** Which commands can be observed *)

Definition observe_handlers : list (string * string) := [
  ("GET", "getCommand"); ("STRLEN", "strlenCommand"); ("GETRANGE", "getrangeCommand");
  ("HGET", "hgetCommand"); ("HMGET", "hmgetCommand"); ("HLEN", "hlenCommand");
  ("HGETALL", "hgetallCommand"); ("HKEYS", "hkeysCommand"); ("HVALS", "hvalsCommand");
  ("HEXISTS", "hexistsCommand"); ("HSTRLEN", "hstrlenCommand");
  ("LLEN", "llenCommand"); ("LRANGE", "lrangeCommand"); ("LINDEX", "lindexCommand"); ("LPOS", "lposCommand");
  ("SCARD", "scardCommand"); ("SISMEMBER", "sismemberCommand"); ("SMISMEMBER", "smismemberCommand");
  ("SMEMBERS", "sinterCommand");
  ("ZRANGE", "zrangeCommand"); ("ZSCORE", "zscoreCommand"); ("ZCARD", "zcardCommand");
  ("ZRANK", "zrankCommand"); ("ZREVRANK", "zrevrankCommand"); ("ZCOUNT", "zcountCommand");
  ("ZLEXCOUNT", "zlexcountCommand"); ("ZRANGEBYSCORE", "zrangebyscoreCommand");
  ("ZRANGEBYLEX", "zrangebylexCommand"); ("ZREVRANGE", "zrevrangeCommand");
  ("ZREVRANGEBYSCORE", "zrevrangebyscoreCommand"); ("ZREVRANGEBYLEX", "zrevrangebylexCommand");
  ("ZMSCORE", "zmscoreCommand");
  ("GETBIT", "getbitCommand"); ("BITCOUNT", "bitcountCommand"); ("BITPOS", "bitposCommand");
  ("BITFIELD_RO", "bitfieldroCommand");
  ("PFCOUNT", "pfcountCommand");
  ("XLEN", "xlenCommand"); ("XRANGE", "xrangeCommand"); ("XREVRANGE", "xrevrangeCommand");
  ("XPENDING", "xpendingCommand");
  ("GEOPOS", "geoposCommand"); ("GEODIST", "geodistCommand"); ("GEOSEARCH", "geosearchCommand");
  ("GEOHASH", "geohashCommand");
  ("SORT_RO", "sortroCommand");
  ("TTL", "ttlCommand"); ("PTTL", "pttlCommand"); ("EXPIRETIME", "expiretimeCommand");
  ("PEXPIRETIME", "pexpiretimeCommand"); ("EXISTS", "existsCommand"); ("TYPE", "typeCommand")
]%string.

Fixpoint find_handler (cmd_name : string) (table : list (string * string)) : option string :=
  match table with
  | [] => None
  | (name, proc) :: table => if strcasecmp_eq cmd_name name then Some proc else find_handler cmd_name table
  end.

Definition findHandlerForCommand (cmd_name : string) : option string :=
  find_handler cmd_name observe_handlers.

(** ** Clients come, go and change *)

(** [createClient]: the fields the feature uses. *)
Definition createClient_observe s cid (deny_blocking : bool) : server :=
  set_client s cid (Client None false false 0 deny_blocking false []).

(** [selectDb], [HELLO] and the [multi] flag change the context of a client. *)
Definition set_context s cid dbid (resp3 multi : bool) : option server :=
  c ← clients s !! cid;
  Some (set_client s cid (Client (cl_fps c) (cl_observing c) resp3 dbid (cl_deny_blocking c) multi (cl_out c))).

(** The restriction of [processCommand] for RESP2 clients that observe. *)
Definition isObserveCommand (fullname : string) : bool := strcasecmp_eq fullname "observe".

Definition observe_allowed c (proc fullname : string) : bool :=
  negb ((cl_observing c && negb (cl_resp3 c)) &&
        negb (bool_decide (proc = "pingCommand")) && negb (bool_decide (proc = "quitCommand")) &&
        negb (bool_decide (proc = "resetCommand")) && negb (bool_decide (proc = "unobserveCommand")) &&
        negb (isObserveCommand fullname)).

(** The numbers of the INFO section. *)
Definition info_observe s : Z * Z * Z * Z :=
  (observing_clients s,
   Z.of_nat (size (default ∅ (observe_fingerprints s))),
   Z.of_nat (size (default ∅ (observe_key_to_fingerprints s))),
   map_fold (fun _ info n => n + Z.of_nat (length (oi_clients info))) 0 (default ∅ (observe_fingerprints s))).

(** ** Fingerprints *)

(** The arguments joined by single spaces. *)
Fixpoint join_args (argv : list string) : list Z :=
  match argv with
  | [] => []
  | [a] => bytes_of a
  | a :: argv => bytes_of a ++ 32 :: join_args argv
  end.

(** [crc64] as compiled where [__X86_64__] is not defined, in sixteen digits. *)
Definition generateCommandFingerprint (argv : list string) : string :=
  let hash := crc64 gf2_matrix_times_switch 1024 16384 data_addr 0 (join_args argv) in
  hex_digits 16 hash EmptyString.

(** ** Subscribing *)

(** [listSearchKey] and [listDelNode]: the first match goes. *)
Fixpoint list_remove_first {A} `{EqDecision A} (x : A) (l : list A) : list A :=
  match l with
  | [] => []
  | y :: l => if decide (y = x) then l else y :: list_remove_first x l
  end.

(** The result says whether this is a new subscription. *)
Definition observeSubscribeFingerprint s cid (argv : list string) fp key : option (server * bool) :=
  c ← clients s !! cid;
  let fps := default ∅ (observe_fingerprints s) in
  let keys := default ∅ (observe_key_to_fingerprints s) in
  let mine := default ∅ (cl_fps c) in
  if decide (fp ∈ mine) then
    Some (set_client (set_tables s (Some fps) (Some keys)) cid (set_fps c (Some mine)), false)
  else
    match fps !! fp with
    | None =>
        command ← argv !! 0%nat;
        let info := ObserveInfo (cstr command) argv key [cid] in
        let fingerprints := default [] (keys !! key) in
        Some (set_client (set_tables s (Some (<[fp := info]> fps))
                                       (Some (<[key := fingerprints ++ [fp]]> keys)))
                         cid (set_fps c (Some ({[fp]} ∪ mine))), true)
    | Some info =>
        let info := ObserveInfo (oi_command info) (oi_argv info) (oi_key info) (oi_clients info ++ [cid]) in
        Some (set_client (set_tables s (Some (<[fp := info]> fps)) (Some keys))
                         cid (set_fps c (Some ({[fp]} ∪ mine))), true)
    end.

(** The message both the subscription and the notifications send. *)
Definition observe_message c (db : DB) (proc : string) (argv : list string) fp : reply :=
  ReplyObserve (cl_resp3 c) fp (exec db proc argv (cl_db c)).

Definition genericObserveCommand s cid (db : DB) (argv : list string) (handler : string) : option server :=
  c ← clients s !! cid;
  if cl_deny_blocking c && negb (cl_multi c)
  then reply_to s cid (ReplyError "OBSERVE isn't allowed for a DENY BLOCKING client")
  else
    let fingerprint := generateCommandFingerprint argv in
    key ← argv !! 1%nat;
    r ← observeSubscribeFingerprint s cid argv fingerprint key;
    let '(s, is_new_subscription) := r in
    s ← reply_to s cid (observe_message c db handler argv fingerprint);
    if (is_new_subscription : bool) then markClientAsObserving s cid else Some s.

Definition observeCommand s cid (db : DB) (argv : list string) : option server :=
  c ← clients s !! cid;
  match argv with
  | _ :: cmd_name :: _ :: _ =>
      if cl_deny_blocking c && negb (cl_multi c)
      then reply_to s cid (ReplyError "OBSERVE isn't allowed for a DENY BLOCKING client")
      else
        match findHandlerForCommand cmd_name with
        | None => reply_to s cid (ReplyError ("OBSERVE not supported for '" ++ cmd_name ++ "'"))
        | Some handler => genericObserveCommand s cid db (tail argv) handler
        end
  | _ => reply_to s cid (ReplyError "wrong number of arguments for 'OBSERVE' command")
  end.

(** ** Unsubscribing *)

(** The key's list of fingerprints loses [fp], and goes when it is empty. *)
Definition forget_fingerprint (keys : gmap string (list string)) key fp : gmap string (list string) :=
  match keys !! key with
  | None => keys
  | Some fingerprints =>
      match list_remove_first fp fingerprints with
      | [] => delete key keys
      | rest => <[key := rest]> keys
      end
  end.

(** What removing [cid] from the subscribers of [fp] does to the tables. *)
Definition drop_subscriber s cid fp : option server :=
  fps ← observe_fingerprints s;
  match fps !! fp with
  | None => Some s
  | Some info =>
      match list_remove_first cid (oi_clients info) with
      | [] =>
          keys ← observe_key_to_fingerprints s;
          Some (set_tables s (Some (delete fp fps)) (Some (forget_fingerprint keys (oi_key info) fp)))
      | remaining =>
          let info := ObserveInfo (oi_command info) (oi_argv info) (oi_key info) remaining in
          Some (set_tables s (Some (<[fp := info]> fps)) (observe_key_to_fingerprints s))
      end
  end.

Definition observeUnsubscribeFingerprint s cid fp : option server :=
  c ← clients s !! cid;
  match cl_fps c with
  | None => Some s
  | Some mine =>
      s ← (if decide (fp ∈ mine) then drop_subscriber s cid fp else Some s);
      let mine := mine ∖ {[fp]} in
      Some (set_client s cid (set_fps c (if decide (mine = ∅) then None else Some mine)))
  end.

(** The loop of [unobserveCommand]; [dictFind] on a NULL dict is a fault. *)
Fixpoint unobserve_loop s cid (fingerprints : list string) (unsubscribed : Z) : option (server * Z) :=
  match fingerprints with
  | [] => Some (s, unsubscribed)
  | fp :: rest =>
      c ← clients s !! cid;
      mine ← cl_fps c;
      if decide (fp ∈ mine) then
        s ← observeUnsubscribeFingerprint s cid fp;
        unobserve_loop s cid rest (unsubscribed + 1)
      else unobserve_loop s cid rest unsubscribed
  end.

Definition no_subscriptions c : bool :=
  match cl_fps c with None => true | Some mine => bool_decide (mine = ∅) end.

Definition unobserveCommand s cid (argv : list string) : option server :=
  c ← clients s !! cid;
  if no_subscriptions c then reply_to s cid (ReplyInteger 0)
  else
    r ← unobserve_loop s cid (tail argv) 0;
    let '(s, unsubscribed) := r in
    c ← clients s !! cid;
    s ← (if no_subscriptions c then unmarkClientAsObserving s cid else Some s);
    reply_to s cid (ReplyInteger unsubscribed).

Fixpoint unsubscribe_all s cid (fingerprints : list string) : option server :=
  match fingerprints with
  | [] => Some s
  | fp :: rest => s ← observeUnsubscribeFingerprint s cid fp; unsubscribe_all s cid rest
  end.

(** The part of [freeClient] that concerns observing; the client is gone
    afterwards. *)
Definition freeClient_observe s cid : option server :=
  c ← clients s !! cid;
  s ← match cl_fps c with
      | None => Some s
      | Some mine => unsubscribe_all s cid (fps_order mine)
      end;
  s ← unmarkClientAsObserving s cid;
  Some (del_client s cid).

(** ** Notifying *)

Fixpoint notify_clients s (db : DB) (info : observeCommandInfo) handler fp dbid (cs : list Z) :
    option server :=
  match cs with
  | [] => Some s
  | cid :: cs =>
      c ← clients s !! cid;
      if negb (cl_db c =? dbid) then notify_clients s db info handler fp dbid cs
      else
        s ← reply_to s cid (observe_message c db handler (oi_argv info) fp);
        notify_clients s db info handler fp dbid cs
  end.

Definition executeObserveCommand s (db : DB) (info : observeCommandInfo) fp dbid : option server :=
  if negb (key_exists db dbid (oi_key info)) then Some s
  else
    match findHandlerForCommand (oi_command info) with
    | None => Some s
    | Some handler => notify_clients s db info handler fp dbid (oi_clients info)
    end.

Fixpoint notify_fingerprints s (db : DB) dbid (fingerprints : list string) : option server :=
  match fingerprints with
  | [] => Some s
  | fp :: rest =>
      fps ← observe_fingerprints s;
      s ← match fps !! fp with
          | None => Some s
          | Some info => executeObserveCommand s db info fp dbid
          end;
      notify_fingerprints s db dbid rest
  end.

Definition observeNotifyKeyChangeImmediate s (db : DB) key dbid : option server :=
  match observe_key_to_fingerprints s with
  | None => Some s
  | Some keys =>
      match keys !! key with
      | None => Some s
      | Some fingerprints => notify_fingerprints s db dbid fingerprints
      end
  end.

Definition observeDebounceKeyChange s key dbid : server :=
  let buffer := default ∅ (observe_debounce_buffer s) in
  match buffer !! key with
  | None => set_buffer s (Some (<[key := dbid]> buffer)) true
  | Some _ => set_buffer s (Some (<[key := dbid]> buffer)) (debounce_running s)
  end.

Definition observeNotifyKeyChange s (db : DB) key dbid : option server :=
  if observing_clients s =? 0 then Some s
  else if observe_debounce_period s =? 0 then observeNotifyKeyChangeImmediate s db key dbid
  else Some (observeDebounceKeyChange s key dbid).

Fixpoint flush_keys s (db : DB) (safe_keys : list (string * Z)) : option server :=
  match safe_keys with
  | [] => Some s
  | (key, dbid) :: rest => s ← observeNotifyKeyChangeImmediate s db key dbid; flush_keys s db rest
  end.

Definition observeDebounceFlush s (db : DB) : option server :=
  match observe_debounce_buffer s with
  | None => Some s
  | Some buffer =>
      if decide (buffer = ∅) then Some s
      else flush_keys (set_buffer s (Some ∅) (debounce_running s)) db (buffer_order buffer)
  end.

(** The timer handler; [None] is AE_NOMORE, else the time to the next call. *)
Definition observeDebounceTimerHandler s (db : DB) : option (server * option Z) :=
  s ← observeDebounceFlush s db;
  match observe_debounce_buffer s with
  | Some buffer =>
      if decide (buffer = ∅) then Some (set_buffer s (Some buffer) false, None)
      else Some (s, Some (observe_debounce_period s))
  | None => Some (set_buffer s None false, None)
  end.
End observe.
