(* ===== verification/ObserveSpec.v ===== *)
(** * The invariant of observed commands

    The three tables (fingerprints, keys, the clients' own sets) describe the
    same subscriptions, the flags and the counter agree with them, and a
    pending debounce buffer has its timer.  Every operation keeps this. *)
From S2P Require Import Prelude Crc Observe.
From Stdlib Require Import ZArith Lia String.
From stdpp Require Import prelude strings gmap list.

#[local] Open Scope Z_scope.

(** ** List removal *)

Section remove_first.
Context {A : Type} `{EqDecision A}.
Implicit Types (x y : A) (l : list A).

Lemma elem_of_remove_first x y l :
  NoDup l -> y ∈ list_remove_first x l <-> y ∈ l /\ y <> x.
Proof.
  induction l as [|z l IH]; [set_solver|]. intros [Hz Hl]%NoDup_cons. cbn [list_remove_first].
  destruct (decide (z = x)) as [->|Hne]; set_solver.
Qed.

Lemma NoDup_remove_first x l : NoDup l -> NoDup (list_remove_first x l).
Proof.
  induction l as [|z l IH]; [done|]. intros [Hz Hl]%NoDup_cons. cbn [list_remove_first].
  destruct (decide (z = x)); [done|]. apply NoDup_cons. split; [|by apply IH].
  rewrite elem_of_remove_first by done. tauto.
Qed.

Lemma remove_first_nil x l : NoDup l -> list_remove_first x l = [] -> forall y, y ∈ l -> y = x.
Proof.
  intros Hl Hnil y Hy. destruct (decide (y = x)) as [|Hne]; [done|].
  assert (y ∈ list_remove_first x l) as H by by rewrite elem_of_remove_first.
  rewrite Hnil in H. set_solver.
Qed.
End remove_first.

(** ** Tables *)

Abbreviation fp_table := (gmap string observeCommandInfo).
Abbreviation key_table := (gmap string (list string)).
Abbreviation sub_table := (gmap Z (gset string)).

Record tab_inv (F : fp_table) (K : key_table) (U : sub_table) : Prop := TabInv {
  ti_sub cid mine fp : U !! cid = Some mine ->
    (fp ∈ mine <-> exists info, F !! fp = Some info /\ cid ∈ oi_clients info);
  ti_live fp info cid : F !! fp = Some info -> cid ∈ oi_clients info -> is_Some (U !! cid);
  ti_some fp info : F !! fp = Some info -> oi_clients info <> [];
  ti_nodup fp info : F !! fp = Some info -> NoDup (oi_clients info);
  ti_handler fp info : F !! fp = Some info -> is_Some (findHandlerForCommand (oi_command info));
  ti_key key fp : fp ∈ default [] (K !! key) <-> exists info, F !! fp = Some info /\ oi_key info = key;
  ti_list key l : K !! key = Some l -> l <> [] /\ NoDup l
}.

Definition add_cid (info : observeCommandInfo) (cid : Z) : observeCommandInfo :=
  ObserveInfo (oi_command info) (oi_argv info) (oi_key info) (oi_clients info ++ [cid]).

Section tables.
Context (F : fp_table) (K : key_table) (U : sub_table) (HI : tab_inv F K U).

Lemma tab_list_nodup key : NoDup (default [] (K !! key)).
Proof. destruct (K !! key) as [l|] eqn:E; [by eapply HI|constructor]. Qed.

Lemma tab_new cid mine fp info :
  U !! cid = Some mine -> F !! fp = None -> oi_clients info = [cid] ->
  is_Some (findHandlerForCommand (oi_command info)) ->
  tab_inv (<[fp := info]> F) (<[oi_key info := default [] (K !! oi_key info) ++ [fp]]> K)
          (<[cid := {[fp]} ∪ mine]> U).
Proof.
  intros HS HF Hcl Hh. split.
  - intros cid' mine' fp' [[<- <-]|[Hne HS']]%lookup_insert_Some;
      (destruct (decide (fp' = fp)) as [->|Hfp];
       [rewrite lookup_insert_eq|rewrite lookup_insert_ne by done]).
    + split; [intros _|set_solver]. exists info. rewrite Hcl. split; [done|constructor].
    + rewrite elem_of_union, elem_of_singleton, (ti_sub _ _ _ HI _ _ _ HS). naive_solver.
    + rewrite (ti_sub _ _ _ HI _ _ _ HS'), HF. split; [by intros (? & ? & ?)|].
      intros (? & [= <-] & Hin). rewrite Hcl in Hin. by apply list_elem_of_singleton in Hin.
    + by apply HI.
  - intros fp' info' cid' HF' Hin. destruct (decide (cid' = cid)) as [->|Hne];
      [by rewrite lookup_insert_eq|rewrite lookup_insert_ne by done].
    apply lookup_insert_Some in HF' as [[<- <-]|[_ HF']]; [|by eapply HI].
    rewrite Hcl in Hin. by apply list_elem_of_singleton in Hin.
  - intros fp' info' [[<- <-]|[_ HF']]%lookup_insert_Some; [by rewrite Hcl|by eapply HI].
  - intros fp' info' [[<- <-]|[_ HF']]%lookup_insert_Some; [|by eapply HI].
    rewrite Hcl. apply NoDup_singleton.
  - intros fp' info' [[<- <-]|[_ HF']]%lookup_insert_Some; [done|by eapply HI].
  - intros key fp'. destruct (decide (fp' = fp)) as [->|Hfp].
    + rewrite lookup_insert_eq. destruct (decide (key = oi_key info)) as [->|Hk].
      * rewrite lookup_insert_eq. set_solver.
      * rewrite lookup_insert_ne by done. rewrite (ti_key _ _ _ HI), HF. naive_solver.
    + rewrite (lookup_insert_ne F) by done. destruct (decide (key = oi_key info)) as [->|Hk].
      * rewrite lookup_insert_eq. cbn [default from_option id]. rewrite <- (ti_key _ _ _ HI). set_solver.
      * rewrite lookup_insert_ne by done. apply HI.
  - intros key l [[<- <-]|[_ HK]]%lookup_insert_Some; [|by eapply HI].
    split; [by destruct (default [] (K !! oi_key info))|]. apply NoDup_app. split; [apply tab_list_nodup|].
    split; [|apply NoDup_singleton]. intros x Hx ->%list_elem_of_singleton.
    apply (ti_key _ _ _ HI) in Hx as (? & ? & ?). congruence.
Qed.

(** An entry replaced by one for the same command and key. *)
Lemma tab_replace cid mine mine' fp info cs :
  U !! cid = Some mine -> F !! fp = Some info -> cs <> [] -> NoDup cs ->
  (forall cid', cid' <> cid -> cid' ∈ cs <-> cid' ∈ oi_clients info) ->
  (forall fp', fp' <> fp -> fp' ∈ mine' <-> fp' ∈ mine) -> (fp ∈ mine' <-> cid ∈ cs) ->
  tab_inv (<[fp := ObserveInfo (oi_command info) (oi_argv info) (oi_key info) cs]> F) K
          (<[cid := mine']> U).
Proof.
  intros HS HF Hne Hnd Hcs Hmine Hfp. split.
  - intros cid' mine'' fp' [[<- <-]|[Hcid HS']]%lookup_insert_Some;
      (destruct (decide (fp' = fp)) as [->|Hfp'];
       [rewrite lookup_insert_eq|rewrite lookup_insert_ne by done]).
    + naive_solver.
    + rewrite Hmine by done. by apply HI.
    + rewrite (ti_sub _ _ _ HI _ _ _ HS'), HF. split; intros (i & [= <-] & Hi);
        eexists; (split; [done|]); cbn in *; by apply Hcs.
    + by apply HI.
  - intros fp' info' cid' HF' Hin. destruct (decide (cid' = cid)) as [->|Hcid];
      [by rewrite lookup_insert_eq|rewrite lookup_insert_ne by done].
    apply lookup_insert_Some in HF' as [[<- <-]|[_ HF']]; [|by eapply HI].
    cbn in Hin. eapply (ti_live _ _ _ HI); [done|]. by apply Hcs.
  - intros fp' info' [[<- <-]|[_ HF']]%lookup_insert_Some; [done|by eapply HI].
  - intros fp' info' [[<- <-]|[_ HF']]%lookup_insert_Some; [done|by eapply HI].
  - intros fp' info' [[<- <-]|[_ HF']]%lookup_insert_Some; [|by eapply HI].
    cbn [oi_command]. exact (ti_handler _ _ _ HI fp info HF).
  - intros key fp'. rewrite (ti_key _ _ _ HI). destruct (decide (fp' = fp)) as [->|Hfp'];
      [rewrite lookup_insert_eq, HF|by rewrite lookup_insert_ne].
    naive_solver.
  - apply HI.
Qed.

Lemma forget_lookup key fp key' :
  K !! key = Some (default [] (K !! key)) ->
  default [] (forget_fingerprint K key fp !! key') =
    if decide (key' = key) then list_remove_first fp (default [] (K !! key)) else default [] (K !! key').
Proof.
  intros HK. unfold forget_fingerprint. rewrite HK at 1. destruct (decide (key' = key)) as [->|Hne].
  - destruct (list_remove_first _ _); [by rewrite lookup_delete_eq|by rewrite lookup_insert_eq].
  - destruct (list_remove_first _ _); [by rewrite lookup_delete_ne|by rewrite lookup_insert_ne].
Qed.

Lemma tab_remove cid mine fp info :
  U !! cid = Some mine -> F !! fp = Some info -> (forall cid', cid' ∈ oi_clients info -> cid' = cid) ->
  tab_inv (delete fp F) (forget_fingerprint K (oi_key info) fp) (<[cid := mine ∖ {[fp]}]> U).
Proof.
  intros HS HF Hall.
  assert (fp ∈ default [] (K !! oi_key info)) as HfpK by (apply (ti_key _ _ _ HI); eauto).
  assert (K !! oi_key info = Some (default [] (K !! oi_key info))) as HK
    by (destruct (K !! oi_key info); [done|set_solver]).
  split.
  - intros cid' mine' fp' [[<- <-]|[Hcid HS']]%lookup_insert_Some;
      (destruct (decide (fp' = fp)) as [->|Hfp'];
       [rewrite lookup_delete_eq|rewrite lookup_delete_ne by done]).
    + set_solver.
    + rewrite <- (ti_sub _ _ _ HI _ _ _ HS). set_solver.
    + rewrite (ti_sub _ _ _ HI _ _ _ HS'), HF. naive_solver.
    + by apply HI.
  - intros fp' info' cid' [_ HF']%lookup_delete_Some Hin.
    destruct (decide (cid' = cid)) as [->|Hcid];
      [by rewrite lookup_insert_eq|rewrite lookup_insert_ne by done]. by eapply HI.
  - intros fp' info' [_ HF']%lookup_delete_Some. by eapply HI.
  - intros fp' info' [_ HF']%lookup_delete_Some. by eapply HI.
  - intros fp' info' [_ HF']%lookup_delete_Some. by eapply HI.
  - intros key fp'. rewrite forget_lookup by done. destruct (decide (key = oi_key info)) as [->|Hk].
    + rewrite elem_of_remove_first by apply tab_list_nodup. rewrite (ti_key _ _ _ HI).
      setoid_rewrite lookup_delete_Some. naive_solver.
    + rewrite (ti_key _ _ _ HI). setoid_rewrite lookup_delete_Some. naive_solver.
  - intros key l. unfold forget_fingerprint. rewrite HK.
    pose proof (NoDup_remove_first fp _ (tab_list_nodup (oi_key info))) as Hnd.
    destruct (list_remove_first _ _) as [|x rest] eqn:E.
    + intros [_ Hl]%lookup_delete_Some. by eapply HI.
    + intros [[<- <-]|[_ Hl]]%lookup_insert_Some; [done|by eapply HI].
Qed.

Lemma tab_connect cid : U !! cid = None -> tab_inv F K (<[cid := ∅]> U).
Proof.
  intros HS. split; try apply HI.
  - intros cid' mine fp [[<- <-]|[Hne HS']]%lookup_insert_Some; [|by apply HI].
    split; [set_solver|]. intros (info & HF & Hin).
    destruct (ti_live _ _ _ HI _ _ _ HF Hin). congruence.
  - intros fp info cid' HF Hin. rewrite lookup_insert_is_Some. right.
    pose proof (ti_live _ _ _ HI _ _ _ HF Hin) as H. split; [|done]. intros ->. destruct H. congruence.
Qed.

Lemma tab_disconnect cid : U !! cid = Some ∅ -> tab_inv F K (delete cid U).
Proof.
  intros HS. split; try apply HI.
  - intros cid' mine fp [Hne HS']%lookup_delete_Some. by apply HI.
  - intros fp info cid' HF Hin. rewrite lookup_delete_is_Some. split; [|by eapply HI].
    intros ->. assert (fp ∈ (∅ : gset string)) by (apply (ti_sub _ _ _ HI _ _ _ HS); eauto). set_solver.
Qed.
End tables.

(** ** Clients *)

Section invariant.
Context {R : Type}.
Implicit Types (s : @server R) (c : @client R) (cid dbid : Z) (fp key : string).

Definition mine_of c : gset string := default ∅ (cl_fps c).
Definition subs_of (cl : gmap Z client) : gmap Z (gset string) := mine_of <$> cl.
Definition fps_of s := default ∅ (observe_fingerprints s).
Definition keys_of s := default ∅ (observe_key_to_fingerprints s).

(** The dict of a client that lost its last subscription is released. *)
Definition opt_set (X : gset string) : option (gset string) := if decide (X = ∅) then None else Some X.

Definition client_ok c : Prop :=
  (cl_observing c = true <-> mine_of c <> ∅) /\ cl_fps c = opt_set (mine_of c).

Definition observers (cl : gmap Z client) : gmap Z (@client R) :=
  filter (fun p => cl_observing p.2 = true) cl.

Definition marks_inv (cl : gmap Z client) (n : Z) : Prop :=
  map_Forall (fun _ c => client_ok c) cl /\ n = wrapu 32 (Z.of_nat (size (observers cl))).

Record obs_inv s : Prop := ObsInv {
  oi_tab : tab_inv (fps_of s) (keys_of s) (subs_of (clients s));
  oi_marks : marks_inv (clients s) (observing_clients s);
  oi_timer : default ∅ (observe_debounce_buffer s) <> ∅ -> debounce_running s = true
}.

Definition initial (period : Z) : @server R := Server None None 0 None period false ∅.

Lemma initial_inv period : obs_inv (initial period).
Proof.
  split; [|split; [apply map_Forall_empty|done]|done].
  split; try done. intros key fp. unfold keys_of, fps_of. cbn. set_solver.
Qed.

Lemma opt_set_default X : default ∅ (opt_set X) = X.
Proof. unfold opt_set. by destruct (decide (X = ∅)). Qed.

Lemma client_ok_observing c c' :
  client_ok c -> cl_observing c' = cl_observing c -> cl_fps c' = cl_fps c -> client_ok c'.
Proof. unfold client_ok, mine_of. by intros ? -> ->. Qed.

Lemma observers_insert cl cid c c' :
  cl !! cid = Some c ->
  Z.of_nat (size (observers (<[cid := c']> cl))) =
    Z.of_nat (size (observers cl)) + Z.b2z (cl_observing c') - Z.b2z (cl_observing c).
Proof.
  intros Hc. unfold observers.
  assert (forall c, (filter (fun p => cl_observing p.2 = true) (<[cid := c]> cl) : gmap Z (@client R)) =
    if cl_observing c then <[cid := c]> (delete cid (filter (fun p => cl_observing p.2 = true) cl))
    else delete cid (filter (fun p => cl_observing p.2 = true) cl)) as Hins.
  { intros d. destruct (cl_observing d) eqn:Ed.
    - rewrite map_filter_insert_True by done. by rewrite insert_delete_eq.
    - rewrite map_filter_insert_False by (cbn; congruence). by rewrite map_filter_delete. }
  set (rest := delete cid (filter (fun p => cl_observing p.2 = true) cl)) in *.
  assert (rest !! cid = None) as Hnone by apply lookup_delete_eq.
  assert (forall c, Z.of_nat (size (filter (fun p => cl_observing p.2 = true) (<[cid := c]> cl) : gmap Z (@client R))) =
    Z.of_nat (size rest) + Z.b2z (cl_observing c)) as Hsize.
  { intros d. rewrite Hins. destruct (cl_observing d); [rewrite map_size_insert_None by done|]; cbn; lia. }
  pose proof (Hsize c) as Hold. rewrite insert_id in Hold by done. rewrite Hsize, Hold. lia.
Qed.

Lemma marks_insert cl n cid c c' n' :
  marks_inv cl n -> cl !! cid = Some c -> client_ok c' ->
  n' = wrapu 32 (n + (Z.b2z (cl_observing c') - Z.b2z (cl_observing c))) ->
  marks_inv (<[cid := c']> cl) n'.
Proof.
  intros [Hok ->] Hc Hc' ->. split; [by apply map_Forall_insert_2|].
  rewrite (observers_insert _ _ c) by done. unfold wrapu. rewrite Zplus_mod_idemp_l. f_equal. lia.
Qed.

Lemma marks_same cl n cid c c' :
  marks_inv cl n -> cl !! cid = Some c -> cl_observing c' = cl_observing c -> cl_fps c' = cl_fps c ->
  marks_inv (<[cid := c']> cl) n.
Proof.
  intros Hm Hc Ho Hf. pose proof Hm as [Hok Hn].
  eapply marks_insert; [done..| |].
  - by eapply client_ok_observing; [apply (Hok cid)|..].
  - rewrite Ho, Z.sub_diag, Z.add_0_r, Hn. symmetry. by apply wrapu_id, wrapu_bound.
Qed.

Lemma subs_insert cl cid c : subs_of (<[cid := c]> cl) = <[cid := mine_of c]> (subs_of cl).
Proof. apply fmap_insert. Qed.

Lemma subs_lookup cl cid c : cl !! cid = Some c -> subs_of cl !! cid = Some (mine_of c).
Proof. intros H. unfold subs_of. by rewrite lookup_fmap, H. Qed.

Lemma subs_same cl cid c c' :
  cl !! cid = Some c -> cl_fps c' = cl_fps c -> subs_of (<[cid := c']> cl) = subs_of cl.
Proof.
  intros Hc Hf. rewrite subs_insert. apply insert_id. rewrite (subs_lookup _ _ c) by done.
  unfold mine_of. by rewrite Hf.
Qed.

(** Changes of a client that keep its subscriptions. *)
Lemma inv_set_client s cid c c' :
  obs_inv s -> clients s !! cid = Some c -> cl_observing c' = cl_observing c -> cl_fps c' = cl_fps c ->
  obs_inv (set_client s cid c').
Proof.
  intros [Ht Hm Hti] Hc Ho Hf. split; [|by eapply marks_same|done].
  cbn. unfold fps_of, keys_of. cbn. by rewrite (subs_same _ _ c).
Qed.

Lemma reply_to_spec s cid c r :
  clients s !! cid = Some c -> reply_to s cid r = Some (set_client s cid (add_reply c r)).
Proof. intros H. unfold reply_to. by rewrite H. Qed.

Lemma inv_reply s cid c r :
  obs_inv s -> clients s !! cid = Some c -> obs_inv (set_client s cid (add_reply c r)).
Proof. intros HI Hc. by eapply inv_set_client. Qed.

Lemma createClient_spec s cid deny :
  obs_inv s -> clients s !! cid = None -> obs_inv (createClient_observe s cid deny).
Proof.
  intros [Ht [Hok Hn] Hti] Hc. split; [| |done]; cbn.
  - rewrite subs_insert. apply tab_connect; [done|]. unfold subs_of. by rewrite lookup_fmap, Hc.
  - split; [apply map_Forall_insert_2; [|done]; by split|].
    rewrite Hn. unfold observers. by rewrite map_filter_insert_False, delete_id by done.
Qed.

Lemma set_context_spec s cid c dbid resp3 multi :
  obs_inv s -> clients s !! cid = Some c ->
  exists s', set_context s cid dbid resp3 multi = Some s' /\ obs_inv s'.
Proof.
  intros HI Hc. unfold set_context. rewrite Hc. eexists. split; [done|]. by eapply inv_set_client.
Qed.
End invariant.
