(* ===== verification/ObserveCorrect.v ===== *)
(** * Observed commands: the operations are correct

    Each operation succeeds on a consistent state, keeps it consistent and
    does to the subscriptions and the clients' output what it should; the
    theorems at the end are about whole runs of the server. *)
From S2P Require Import Prelude Crc Observe ObserveSpec.
From Stdlib Require Import ZArith Lia String.
From stdpp Require Import prelude strings gmap list.

#[local] Open Scope Z_scope.

Lemma cstr_cstr x : cstr (cstr x) = cstr x.
Proof. induction x as [|a x IH]; [done|]. cbn. destruct (_ =? 0)%nat eqn:E; [done|]. cbn. by rewrite E, IH. Qed.

Lemma findHandler_cstr x : findHandlerForCommand (cstr x) = findHandlerForCommand x.
Proof.
  unfold findHandlerForCommand. induction observe_handlers as [|[n p] l IH]; [done|].
  cbn [find_handler]. unfold strcasecmp_eq. by rewrite cstr_cstr, IH.
Qed.

Section operations.
Context {DB R : Type}.
Context (exec : DB -> string -> list string -> Z -> R) (data_addr : Z).
Implicit Types (s : @server R) (c : @client R) (cid dbid : Z) (fp key : string) (db : DB).

(** What subscribing leaves alone. *)
Record frame s s' : Prop := Frame {
  fr_count : observing_clients s' = observing_clients s;
  fr_buffer : observe_debounce_buffer s' = observe_debounce_buffer s;
  fr_period : observe_debounce_period s' = observe_debounce_period s;
  fr_running : debounce_running s' = debounce_running s
}.

#[local] Instance frame_refl : Reflexive frame.
Proof. by split. Qed.
#[local] Instance frame_trans : Transitive frame.
Proof. intros s1 s2 s3 [] []. split; congruence. Qed.

(** ** Marking *)

Definition same_tables s s' : Prop :=
  observe_fingerprints s' = observe_fingerprints s /\
  observe_key_to_fingerprints s' = observe_key_to_fingerprints s /\
  observe_debounce_buffer s' = observe_debounce_buffer s /\
  observe_debounce_period s' = observe_debounce_period s /\ debounce_running s' = debounce_running s.

Lemma set_observing_id c b : cl_observing c = b -> set_observing c b = c.
Proof. destruct c; cbn. by intros ->. Qed.

Lemma mark_spec s cid c :
  clients s !! cid = Some c ->
  exists s', markClientAsObserving s cid = Some s' /\ same_tables s s' /\
    clients s' = <[cid := set_observing c true]> (clients s) /\
    observing_clients s' = if cl_observing c then observing_clients s else wrapu 32 (observing_clients s + 1).
Proof.
  intros Hc. unfold markClientAsObserving. rewrite Hc. mstep.
  destruct (cl_observing c) eqn:Ho; cbn [negb]; eexists; (split; [done|]); (split; [done|]); [|done].
  by rewrite set_observing_id, insert_id.
Qed.

Lemma unmark_spec s cid c :
  clients s !! cid = Some c ->
  exists s', unmarkClientAsObserving s cid = Some s' /\ same_tables s s' /\
    clients s' = <[cid := set_observing c false]> (clients s) /\
    observing_clients s' = if cl_observing c then wrapu 32 (observing_clients s - 1) else observing_clients s.
Proof.
  intros Hc. unfold unmarkClientAsObserving. rewrite Hc. mstep.
  destruct (cl_observing c) eqn:Ho; cbn [negb]; eexists; (split; [done|]); (split; [done|]); [done|].
  by rewrite set_observing_id, insert_id.
Qed.

(** One client changes, the flag and the counter following its set. *)
Lemma inv_change s s' cid c c' :
  obs_inv s -> clients s !! cid = Some c ->
  tab_inv (fps_of s') (keys_of s') (<[cid := mine_of c']> (subs_of (clients s))) ->
  clients s' = <[cid := c']> (clients s) -> client_ok c' ->
  observing_clients s' = wrapu 32 (observing_clients s + (Z.b2z (cl_observing c') - Z.b2z (cl_observing c))) ->
  observe_debounce_buffer s' = observe_debounce_buffer s -> debounce_running s' = debounce_running s ->
  obs_inv s'.
Proof.
  intros [Ht Hm Hti] Hc Ht' Hcl Hok Hn Hb Hr. split; rewrite ?Hcl.
  - by rewrite subs_insert.
  - by eapply marks_insert.
  - rewrite Hb, Hr. apply Hti.
Qed.

Lemma inv_count s : obs_inv s -> wrapu 32 (observing_clients s) = observing_clients s.
Proof. intros [_ [_ ->] _]. by apply wrapu_id, wrapu_bound. Qed.

(** ** Subscribing *)

Lemma subscribe_spec s cid c argv fp key cmd :
  obs_inv s -> clients s !! cid = Some c -> argv !! 0%nat = Some cmd ->
  is_Some (findHandlerForCommand cmd) ->
  let mine := {[fp]} ∪ mine_of c in
  exists s', observeSubscribeFingerprint s cid argv fp key = Some (s', bool_decide (fp ∉ mine_of c)) /\
    tab_inv (fps_of s') (keys_of s') (<[cid := mine]> (subs_of (clients s))) /\
    clients s' = <[cid := set_fps c (Some mine)]> (clients s) /\ frame s s'.
Proof.
  intros [Ht Hm Hti] Hc Hcmd Hh mine. unfold observeSubscribeFingerprint. rewrite Hc. mstep.
  fold (mine_of c). fold (fps_of s). fold (keys_of s).
  pose proof (subs_lookup _ _ _ Hc) as HS. destruct (decide (fp ∈ mine_of c)) as [Hin|Hin].
  - rewrite bool_decide_false by tauto. eexists. split; [done|].
    assert (mine = mine_of c) as -> by set_solver. split; [|done].
    unfold fps_of, keys_of. cbn. by rewrite insert_id.
  - rewrite bool_decide_true by done. destruct (fps_of s !! fp) as [info|] eqn:HF.
    + eexists. split; [done|]. split; [|done]. unfold fps_of, keys_of. cbn.
      assert (cid ∉ oi_clients info) as Hnin
        by (intros ?; apply Hin, (ti_sub _ _ _ Ht _ _ _ HS); eauto).
      eapply (tab_replace _ _ _ Ht); [done..| | | | |].
      * by destruct (oi_clients info).
      * apply NoDup_app. split; [by eapply Ht|]. split; [set_solver|apply NoDup_singleton].
      * set_solver.
      * set_solver.
      * set_solver.
    + rewrite Hcmd. mstep. eexists. split; [done|]. split; [|done].
      unfold fps_of, keys_of. cbn.
      apply (tab_new _ _ _ Ht _ _ _ (ObserveInfo (cstr cmd) argv key [cid])); [done..|].
      cbn [oi_command]. by rewrite findHandler_cstr.
Qed.

(** The client after a successful OBSERVE. *)
Definition observed c fp (r : reply) : client :=
  Client (Some ({[fp]} ∪ mine_of c)) true (cl_resp3 c) (cl_db c) (cl_deny_blocking c) (cl_multi c)
    (cl_out c ++ [r]).

Lemma genericObserve_spec s cid c db argv handler cmd key :
  obs_inv s -> clients s !! cid = Some c -> argv !! 0%nat = Some cmd -> argv !! 1%nat = Some key ->
  is_Some (findHandlerForCommand cmd) -> cl_deny_blocking c && negb (cl_multi c) = false ->
  let fp := generateCommandFingerprint data_addr argv in
  exists s', genericObserveCommand exec data_addr s cid db argv handler = Some s' /\ obs_inv s' /\
    clients s' = <[cid := observed c fp (observe_message exec c db handler argv fp)]> (clients s) /\
    observe_debounce_buffer s' = observe_debounce_buffer s /\ debounce_running s' = debounce_running s.
Proof.
  intros HI Hc Hcmd Hkey Hh Hdeny fp. unfold genericObserveCommand. rewrite Hc. mstep.
  rewrite Hdeny, Hkey. mstep. fold fp.
  destruct (subscribe_spec s cid c argv fp key cmd HI Hc Hcmd Hh) as (s1 & -> & Ht1 & Hcl1 & Hfr).
  mstep. set (msg := observe_message _ _ _ _ _ _).
  set (c1 := set_fps c (Some ({[fp]} ∪ mine_of c))) in *.
  erewrite (reply_to_spec s1 cid c1) by (rewrite Hcl1; apply lookup_insert_eq). mstep.
  pose proof HI as [_ [Hok _] _]. pose proof (Hok cid c Hc) as [Hobs Hfps].
  assert (client_ok (observed c fp msg)) as Hok'.
  { split; [split; [intros _; cbn; set_solver|done]|].
    unfold opt_set, mine_of. cbn. by rewrite decide_False by set_solver. }
  destruct Hfr as [Hn1 Hb1 _ Hr1]. set (s2 := set_client s1 cid (add_reply c1 msg)).
  assert (clients s2 = <[cid := add_reply c1 msg]> (clients s)) as Hcl2
    by (cbn; by rewrite Hcl1, insert_insert_eq).
  destruct (bool_decide_reflect (fp ∉ mine_of c)) as [Hnew|Hold].
  - destruct (mark_spec s2 cid (add_reply c1 msg)) as (s3 & -> & (HF & HK & Hb & _ & Hr) & Hcl3 & Hn3);
      [rewrite Hcl2; apply lookup_insert_eq|].
    rewrite Hcl2, insert_insert_eq in Hcl3. cbn in Hb, Hr.
    exists s3. split; [done|]. split; [|split; [exact Hcl3|split; congruence]].
    eapply (inv_change s s3 cid c); [done..| |exact Hcl3|done| |congruence|congruence].
    + unfold fps_of, keys_of. by rewrite HF, HK.
    + rewrite Hn3. change (cl_observing (add_reply c1 msg)) with (cl_observing c).
      change (observing_clients s2) with (observing_clients s1). rewrite Hn1. cbn [observed cl_observing].
      destruct (cl_observing c); cbn [Z.b2z Z.sub]; [by rewrite Z.add_0_r, inv_count|done].
  - assert (cl_observing c = true) as Ho by (apply Hobs; set_solver).
    assert (add_reply c1 msg = observed c fp msg) as Heq by (unfold observed; rewrite <- Ho; done).
    rewrite Heq in Hcl2. exists s2. split; [done|]. split; [|split; [exact Hcl2|by split]].
    eapply (inv_change s s2 cid c (observed c fp msg)); [done..|exact Ht1|exact Hcl2|done| |done|done].
    rewrite Ho. cbn. by rewrite Z.add_0_r, Hn1, inv_count.
Qed.

Lemma observeCommand_spec s cid c db argv :
  obs_inv s -> clients s !! cid = Some c ->
  exists s', observeCommand exec data_addr s cid db argv = Some s' /\ obs_inv s'.
Proof.
  intros HI Hc. unfold observeCommand. rewrite Hc. mstep.
  assert (forall r, exists s', reply_to s cid r = Some s' /\ obs_inv s') as Hreply.
  { intros r. rewrite (reply_to_spec _ _ c) by done. eexists. split; [done|]. by apply inv_reply. }
  destruct argv as [|a0 [|cmd [|key rest]]]; try apply Hreply.
  destruct (cl_deny_blocking c && negb (cl_multi c)) eqn:Hdeny; [apply Hreply|].
  destruct (findHandlerForCommand cmd) as [h|] eqn:Hh; [|apply Hreply].
  destruct (genericObserve_spec s cid c db (cmd :: key :: rest) h cmd key) as (s' & ? & ? & _); eauto.
Qed.

(** ** Unsubscribing *)

Abbreviation tables s := (tab_inv (fps_of s) (keys_of s) (subs_of (clients s))).

Lemma drop_subscriber_spec s cid c fp :
  tables s -> clients s !! cid = Some c -> fp ∈ mine_of c ->
  exists s', drop_subscriber s cid fp = Some s' /\ clients s' = clients s /\ frame s s' /\
    tab_inv (fps_of s') (keys_of s') (<[cid := mine_of c ∖ {[fp]}]> (subs_of (clients s))).
Proof.
  intros Ht Hc Hin. pose proof (subs_lookup _ _ _ Hc) as HS.
  destruct (proj1 (ti_sub _ _ _ Ht _ _ fp HS) Hin) as (info & HF & Hcid).
  unfold drop_subscriber. destruct (observe_fingerprints s) as [fps|] eqn:EF;
    [|unfold fps_of in HF; by rewrite EF in HF].
  assert (fps_of s = fps) as EF' by (unfold fps_of; by rewrite EF). rewrite EF' in HF.
  mstep. rewrite HF.
  rewrite EF' in Ht. pose proof (ti_nodup _ _ _ Ht _ _ HF) as Hnd.
  pose proof (elem_of_remove_first cid) as Hrem.
  destruct (list_remove_first cid (oi_clients info)) as [|x rest] eqn:Er.
  - assert (fp ∈ default [] (keys_of s !! oi_key info)) as HfpK by (apply (ti_key _ _ _ Ht); eauto).
    destruct (observe_key_to_fingerprints s) as [keys|] eqn:EK;
      [|unfold keys_of in HfpK; rewrite EK in HfpK; set_solver].
    mstep. eexists. split; [done|]. split; [done|]. split; [done|].
    replace keys with (keys_of s) by (unfold keys_of; by rewrite EK).
    apply (tab_remove _ _ _ Ht); [done..|]. by apply remove_first_nil.
  - eexists. split; [done|]. split; [done|]. split; [done|].
    eapply (tab_replace _ _ _ Ht); [done..| | | |].
    + rewrite <- Er. by apply NoDup_remove_first.
    + intros cid' Hne. rewrite <- Er, Hrem by done. naive_solver.
    + set_solver.
    + rewrite <- Er, Hrem by done. set_solver.
Qed.

Lemma set_fps_id c x : cl_fps c = x -> set_fps c x = c.
Proof. destruct c; cbn. by intros ->. Qed.

Lemma unsubscribe_spec s cid c fp :
  tables s -> clients s !! cid = Some c -> cl_fps c = opt_set (mine_of c) ->
  exists s', observeUnsubscribeFingerprint s cid fp = Some s' /\ tables s' /\
    clients s' = <[cid := set_fps c (opt_set (mine_of c ∖ {[fp]}))]> (clients s) /\ frame s s'.
Proof.
  intros Ht Hc Hfps. unfold observeUnsubscribeFingerprint. rewrite Hc. mstep.
  assert (forall X, mine_of (set_fps c (opt_set X)) = X) as Hmine by (intros; apply opt_set_default).
  pose proof (subs_lookup _ _ _ Hc) as HS.
  destruct (cl_fps c) as [mine|] eqn:Ef.
  - assert (mine_of c = mine) as Em by (unfold mine_of; by rewrite Ef). rewrite Em in *.
    change (if decide (mine ∖ {[fp]} = ∅) then None else Some (mine ∖ {[fp]})) with (opt_set (mine ∖ {[fp]})).
    destruct (decide (fp ∈ mine)) as [Hin|Hin].
    + destruct (drop_subscriber_spec s cid c fp) as (s1 & -> & Hcl & Hfr & Ht1); [done..|by rewrite Em|].
      mstep. eexists. split; [done|]. cbn [clients set_client]. rewrite Hcl, subs_insert, Hmine.
      rewrite Em in Ht1. split; [exact Ht1|]. split; [done|]. destruct Hfr. by split.
    + mstep. eexists. split; [done|]. cbn [clients set_client]. rewrite subs_insert, Hmine.
      split; [|done]. replace (mine ∖ {[fp]}) with mine by set_solver. by rewrite insert_id.
  - exists s. split; [done|]. split; [done|]. split; [|done].
    assert (mine_of c = ∅) as -> by (unfold mine_of; by rewrite Ef).
    rewrite set_fps_id, insert_id; [done..|]. rewrite Ef. unfold opt_set. by rewrite decide_True by set_solver.
Qed.

(** UNOBSERVE runs out of subscriptions before it runs out of arguments. *)
Fixpoint exhausted_early (mine : gset string) (fingerprints : list string) : bool :=
  match fingerprints with
  | [] => false
  | fp :: rest => bool_decide (mine = ∅) || exhausted_early (mine ∖ {[fp]}) rest
  end.

Lemma mine_set_fps c X : mine_of (set_fps c (opt_set X)) = X.
Proof. apply opt_set_default. Qed.

Lemma set_fps_set_fps c x y : set_fps (set_fps c x) y = set_fps c y.
Proof. done. Qed.

Lemma unobserve_loop_spec fingerprints s cid c n :
  tables s -> clients s !! cid = Some c -> cl_fps c = opt_set (mine_of c) ->
  let r := unobserve_loop s cid fingerprints n in
  if exhausted_early (mine_of c) fingerprints then r = None
  else exists s', r = Some (s', n + Z.of_nat (size (mine_of c ∩ list_to_set fingerprints))) /\ tables s' /\
    clients s' = <[cid := set_fps c (opt_set (mine_of c ∖ list_to_set fingerprints))]> (clients s) /\ frame s s'.
Proof.
  revert s c n. induction fingerprints as [|fp rest IH]; intros s c n Ht Hc Hfps.
  { cbn. exists s. rewrite intersection_empty_r_L, size_empty, Z.add_0_r. split; [done|]. split; [done|].
    rewrite difference_empty_L, set_fps_id, insert_id by done. done. }
  cbn [unobserve_loop exhausted_early]. rewrite Hc. mstep.
  destruct (cl_fps c) as [mine|] eqn:Ef; cycle 1.
  { rewrite bool_decide_true; [done|]. unfold mine_of. by rewrite Ef. }
  assert (mine_of c = mine) as Em by (unfold mine_of; by rewrite Ef).
  unfold opt_set in Hfps. destruct (decide (mine_of c = ∅)) as [|Hne]; [done|].
  rewrite bool_decide_false by done. cbn [orb mbind option_bind].
  assert (cl_fps c = opt_set (mine_of c)) as Hopt
    by (unfold opt_set; rewrite decide_False by done; by rewrite Ef, Em).
  destruct (decide (fp ∈ mine)) as [Hin|Hin].
  - destruct (unsubscribe_spec s cid c fp) as (s1 & -> & Ht1 & Hcl1 & Hfr1); [done..|].
    mstep. set (c1 := set_fps c (opt_set (mine_of c ∖ {[fp]}))) in *.
    specialize (IH s1 c1 (n + 1) Ht1). unfold c1 in IH. rewrite mine_set_fps in IH. fold c1 in IH.
    specialize (IH ltac:(rewrite Hcl1; apply lookup_insert_eq) eq_refl).
    destruct (exhausted_early (mine_of c ∖ {[fp]}) rest); [done|].
    destruct IH as (s' & -> & Ht' & Hcl' & Hfr'). exists s'. split; [|split; [done|split]].
    + do 2 f_equal. rewrite <- Z.add_assoc. f_equal. cbn [list_to_set].
      replace (mine_of c ∩ ({[fp]} ∪ list_to_set rest))
        with ({[fp]} ∪ ((mine_of c ∖ {[fp]}) ∩ list_to_set rest)).
      { rewrite (size_union {[fp]} (mine_of c ∖ {[fp]} ∩ list_to_set rest)) by set_solver.
        rewrite size_singleton. lia. }
      apply set_eq. intros x. destruct (decide (x = fp)); set_solver.
    + rewrite Hcl', Hcl1, insert_insert_eq. unfold c1. rewrite set_fps_set_fps. do 3 f_equal. set_solver.
    + by etrans.
  - specialize (IH s c n Ht Hc Hopt).
    replace (mine_of c ∖ {[fp]}) with (mine_of c) by set_solver.
    destruct (exhausted_early (mine_of c) rest); [done|].
    destruct IH as (s' & -> & Ht' & Hcl' & Hfr'). exists s'. split; [|split; [done|split; [|done]]].
    + cbn [list_to_set]. by replace (mine_of c ∩ ({[fp]} ∪ list_to_set rest))
        with (mine_of c ∩ list_to_set rest) by set_solver.
    + rewrite Hcl'. cbn [list_to_set]. by replace (mine_of c ∖ ({[fp]} ∪ list_to_set rest))
        with (mine_of c ∖ list_to_set rest) by set_solver.
Qed.

Lemma exhausted_early_spec mine fingerprints :
  exhausted_early mine fingerprints = true <->
    exists pre g post, fingerprints = pre ++ g :: post /\ mine ⊆ list_to_set pre.
Proof.
  revert mine. induction fingerprints as [|fp rest IH]; intros mine; cbn [exhausted_early].
  - split; [done|]. by intros ([] & ? & ? & ? & _).
  - rewrite orb_true_iff, bool_decide_eq_true, IH. split.
    + intros [->|(pre & g & post & -> & Hsub)].
      * by exists [], fp, rest.
      * exists (fp :: pre), g, post. split; [done|]. cbn [list_to_set].
        intros x Hx. destruct (decide (x = fp)); set_solver.
    + intros ([|f pre] & g & post & Heq & Hsub); cbn [list_to_set] in Hsub; [left; set_solver|].
      right. injection Heq as -> ->. exists pre, g, post. split; [done|]. set_solver.
Qed.

(** The client after UNOBSERVE of the fingerprints [X]. *)
Definition unobserved c (X : gset string) : client :=
  Client (opt_set (mine_of c ∖ X)) (bool_decide (mine_of c ∖ X <> ∅)) (cl_resp3 c) (cl_db c)
    (cl_deny_blocking c) (cl_multi c) (cl_out c ++ [ReplyInteger (Z.of_nat (size (mine_of c ∩ X)))]).

Lemma unobserved_ok c X : client_ok (unobserved c X).
Proof.
  unfold client_ok, mine_of, unobserved. cbn. rewrite opt_set_default. split; [apply bool_decide_eq_true|done].
Qed.

Lemma no_subscriptions_spec c : no_subscriptions c = bool_decide (mine_of c = ∅).
Proof. unfold no_subscriptions, mine_of. by destruct (cl_fps c). Qed.

Lemma no_subscriptions_set c Y : no_subscriptions (set_fps c (opt_set Y)) = bool_decide (Y = ∅).
Proof.
  unfold no_subscriptions, opt_set. cbn. destruct (decide (Y = ∅)); [by rewrite bool_decide_true|done].
Qed.

(** The flag follows the set after a loop of unsubscriptions. *)
Lemma unmark_if_empty s s1 cid c X :
  obs_inv s -> cl_observing c = true -> frame s s1 ->
  let c1 := set_fps c (opt_set (mine_of c ∖ X)) in
  clients s1 !! cid = Some c1 ->
  exists s2, (if no_subscriptions c1 then unmarkClientAsObserving s1 cid else Some s1) = Some s2 /\
    same_tables s1 s2 /\
    clients s2 = <[cid := set_observing c1 (bool_decide (mine_of c ∖ X <> ∅))]> (clients s1) /\
    observing_clients s2 =
      wrapu 32 (observing_clients s + (Z.b2z (bool_decide (mine_of c ∖ X <> ∅)) - Z.b2z (cl_observing c))).
Proof.
  intros HI Ho [Hn _ _ _] c1 Hc1. unfold c1 at 1. rewrite no_subscriptions_set, Ho.
  destruct (decide (mine_of c ∖ X = ∅)) as [He|Hne].
  - rewrite (bool_decide_true (_ = ∅)), (bool_decide_false (_ <> ∅)) by tauto.
    destruct (unmark_spec s1 cid c1 Hc1) as (s2 & -> & Ht & Hcl & Hn2). exists s2.
    split; [done|]. split; [done|]. split; [done|]. rewrite Hn2, Hn. unfold c1. cbn. by rewrite Ho.
  - rewrite (bool_decide_false (_ = ∅)), (bool_decide_true (_ <> ∅)) by done. exists s1. split; [done|]. split; [done|].
    rewrite set_observing_id, insert_id by done. split; [done|]. cbn. by rewrite Z.add_0_r, inv_count.
Qed.

Lemma unobserveCommand_spec s cid c argv :
  obs_inv s -> clients s !! cid = Some c ->
  let r := unobserveCommand s cid argv in
  if bool_decide (mine_of c <> ∅) && exhausted_early (mine_of c) (tail argv) then r = None
  else exists s', r = Some s' /\ obs_inv s' /\
    clients s' = <[cid := unobserved c (list_to_set (tail argv))]> (clients s).
Proof.
  intros HI Hc. unfold unobserveCommand. rewrite Hc. mstep. rewrite no_subscriptions_spec.
  pose proof HI as [Ht [Hok _] _]. pose proof (Hok cid c Hc) as [Hobs Hfps]. cbv zeta.
  destruct (decide (mine_of c = ∅)) as [He|Hne].
  { rewrite (bool_decide_true (_ = ∅)), (bool_decide_false (_ <> ∅)) by tauto. cbn [andb].
    rewrite (reply_to_spec _ _ c) by done. eexists. split; [done|]. split; [by apply inv_reply|].
    cbn [clients set_client]. f_equal. unfold unobserved.
    assert (mine_of c ∖ list_to_set (tail argv) = mine_of c) as HX by (rewrite He; set_solver).
    replace (bool_decide _) with (cl_observing c); cycle 1.
    { rewrite bool_decide_false by (rewrite HX; tauto). destruct (cl_observing c); [tauto|done]. }
    rewrite HX, <- Hfps. replace (mine_of c ∩ _) with (∅ : gset string) by (rewrite He; set_solver).
    by rewrite size_empty. }
  rewrite (bool_decide_false (_ = ∅)), (bool_decide_true (_ <> ∅)) by done. cbn [andb].
  pose proof (unobserve_loop_spec (tail argv) s cid c 0 Ht Hc Hfps) as Hloop. cbv zeta in Hloop.
  set (X := list_to_set (tail argv)) in *.
  destruct (exhausted_early _ _); [by rewrite Hloop|].
  destruct Hloop as (s1 & -> & Ht1 & Hcl1 & Hfr). mstep.
  set (c1 := set_fps c (opt_set (mine_of c ∖ X))) in *.
  assert (clients s1 !! cid = Some c1) as Hc1 by (rewrite Hcl1; apply lookup_insert_eq).
  assert (cl_observing c = true) as Ho by by apply Hobs.
  rewrite Hc1. mstep.
  destruct (unmark_if_empty s s1 cid c X HI Ho Hfr Hc1) as (s2 & Hs2 & (HF & HK & Hb & _ & Hr) & Hcl2 & Hn2).
  fold c1 in Hs2. rewrite Hs2. mstep.
  erewrite reply_to_spec by (rewrite Hcl2; apply lookup_insert_eq).
  eexists. split; [done|]. apply and_wlog_l; cycle 1.
  { cbn [clients set_client]. by rewrite Hcl2, Hcl1, !insert_insert_eq, Z.add_0_l. }
  intros Hcl3. destruct Hfr as [_ Hb1 _ Hr1].
  eapply (inv_change s _ cid c (unobserved c X)); [done..| |exact Hcl3|apply unobserved_ok|exact Hn2|cbn; congruence|cbn; congruence].
  unfold fps_of, keys_of. cbn [observe_fingerprints observe_key_to_fingerprints set_client]. rewrite HF, HK.
  rewrite Hcl1, subs_insert in Ht1. exact Ht1.
Qed.

(** ** A client goes away *)

Lemma unsubscribe_all_spec fingerprints s cid c :
  tables s -> clients s !! cid = Some c -> cl_fps c = opt_set (mine_of c) ->
  exists s', unsubscribe_all s cid fingerprints = Some s' /\ tables s' /\
    clients s' = <[cid := set_fps c (opt_set (mine_of c ∖ list_to_set fingerprints))]> (clients s) /\
    frame s s'.
Proof.
  revert s c. induction fingerprints as [|fp rest IH]; intros s c Ht Hc Hfps.
  { exists s. split; [done|]. split; [done|]. cbn. by rewrite difference_empty_L, set_fps_id, insert_id. }
  cbn [unsubscribe_all]. destruct (unsubscribe_spec s cid c fp Ht Hc Hfps) as (s1 & -> & Ht1 & Hcl1 & Hfr1).
  mstep. set (c1 := set_fps c (opt_set (mine_of c ∖ {[fp]}))) in *.
  assert (mine_of c1 = mine_of c ∖ {[fp]}) as Hm by apply mine_set_fps.
  destruct (IH s1 c1 Ht1) as (s' & -> & Ht' & Hcl' & Hfr');
    [rewrite Hcl1; apply lookup_insert_eq|by rewrite Hm|].
  exists s'. split; [done|]. split; [done|]. split; [|by etrans].
  rewrite Hcl', Hcl1, insert_insert_eq, Hm. unfold c1. rewrite set_fps_set_fps. cbn [list_to_set].
  by replace (mine_of c ∖ {[fp]} ∖ list_to_set rest) with (mine_of c ∖ ({[fp]} ∪ list_to_set rest)) by set_solver.
Qed.

Context (fps_order : gset string -> list string).
Context (Hfps_order : forall X, fps_order X ≡ₚ elements X).

Lemma freeClient_spec s cid c :
  obs_inv s -> clients s !! cid = Some c ->
  exists s', freeClient_observe fps_order s cid = Some s' /\ obs_inv s' /\ clients s' = delete cid (clients s).
Proof.
  intros HI Hc. unfold freeClient_observe. rewrite Hc. mstep.
  pose proof HI as [Ht [Hok Hn] Hti]. pose proof (Hok cid c Hc) as [Hobs Hfps].
  set (c1 := set_fps c None).
  assert (exists s1, match cl_fps c with None => Some s | Some mine => unsubscribe_all s cid (fps_order mine) end
    = Some s1 /\ tables s1 /\ clients s1 = <[cid := c1]> (clients s) /\ frame s s1) as (s1 & -> & Ht1 & Hcl1 & Hfr1).
  { destruct (cl_fps c) as [mine|] eqn:Ef; cycle 1.
    { exists s. split; [done|]. split; [done|]. split; [|done]. unfold c1. by rewrite set_fps_id, insert_id. }
    rewrite <- Ef in Hfps.
    destruct (unsubscribe_all_spec (fps_order mine) s cid c Ht Hc Hfps) as (s1 & -> & Ht1 & Hcl1 & Hfr1).
    exists s1. split; [done|]. split; [done|]. split; [|done]. rewrite Hcl1.
    assert (mine_of c ∖ list_to_set (fps_order mine) = ∅) as ->; [|done].
    assert (mine_of c = mine) as -> by (unfold mine_of; by rewrite Ef).
    rewrite Hfps_order, list_to_set_elements_L. set_solver. }
  mstep.
  destruct (unmark_spec s1 cid c1) as (s2 & -> & (HF & HK & Hb & _ & Hr) & Hcl2 & Hn2);
    [rewrite Hcl1; apply lookup_insert_eq|].
  mstep. rewrite Hcl1, insert_insert_eq in Hcl2. set (c2 := set_observing c1 false) in *.
  destruct Hfr1 as [Hn1 Hb1 _ Hr1].
  assert (obs_inv s2) as HI2.
  { eapply (inv_change s s2 cid c c2); [done..| |done| | |congruence|congruence].
    - unfold fps_of, keys_of. rewrite HF, HK. rewrite Hcl1, subs_insert in Ht1. exact Ht1.
    - by split.
    - rewrite Hn2, Hn1. change (cl_observing c1) with (cl_observing c).
      destruct (cl_observing c); cbn; [done|by rewrite Z.add_0_r, inv_count]. }
  eexists. split; [done|]. cbn [clients del_client]. rewrite Hcl2, delete_insert_eq. split; [|done].
  destruct HI2 as [Ht2 [Hok2 Hn2'] Hti2]. rewrite Hcl2 in *. split; [| |exact Hti2].
  - cbn [clients del_client]. rewrite Hcl2. unfold subs_of. rewrite fmap_delete. fold (subs_of (<[cid := c2]> (clients s))).
    apply tab_disconnect; [exact Ht2|]. rewrite subs_insert. apply lookup_insert_eq.
  - cbn [clients del_client observing_clients]. rewrite Hcl2, Hn2'. split; [by apply map_Forall_delete|].
    unfold observers. rewrite map_filter_delete. do 3 f_equal. symmetry. apply delete_id.
    apply map_lookup_filter_None. right. intros x Hx. rewrite lookup_insert_eq in Hx. by injection Hx as <-.
Qed.
End operations.
