(* ===== verification/ObserveRun.v ===== *)
(** * Observed commands: notifications and whole runs

    A key change reaches exactly the subscriptions on that key, once each,
    directly or through the debounce buffer; a server that receives any
    sequence of events stays consistent and does not touch a freed client.
    The last part proves where the code departs from its documentation. *)
From S2P Require Import Prelude Crc Observe ObserveSpec ObserveCorrect.
From Stdlib Require Import ZArith Lia String.
From stdpp Require Import prelude strings gmap list.

#[local] Open Scope Z_scope.

Section notify.
Context {DB R : Type}.
Context (exec : DB -> string -> list string -> Z -> R) (key_exists : DB -> Z -> string -> bool).
Implicit Types (s : @server R) (c : @client R) (cid dbid : Z) (fp key : string) (db : DB).

Definition add_replies c (l : list reply) : client :=
  Client (cl_fps c) (cl_observing c) (cl_resp3 c) (cl_db c) (cl_deny_blocking c) (cl_multi c) (cl_out c ++ l).

(** [s'] is [s] after client [cid], if [c] is its state, was sent [msgs cid c]. *)
Definition delivers s s' (msgs : Z -> client -> list reply) : Prop :=
  same_tables s s' /\ observing_clients s' = observing_clients s /\
  forall cid, clients s' !! cid = (fun c => add_replies c (msgs cid c)) <$> clients s !! cid.

(** Messages do not depend on what was sent before. *)
Definition stable (msgs : Z -> client -> list (@reply R)) : Prop :=
  forall cid c l, msgs cid (add_replies c l) = msgs cid c.

Lemma add_replies_nil c : add_replies c [] = c.
Proof. destruct c. unfold add_replies. cbn. by rewrite app_nil_r. Qed.

Lemma add_replies_app c l l' : add_replies (add_replies c l) l' = add_replies c (l ++ l').
Proof. unfold add_replies. cbn. by rewrite app_assoc. Qed.

Lemma delivers_nothing s : delivers s s (fun _ _ => []).
Proof. split; [done|]. split; [done|]. intros cid. destruct (clients s !! cid); cbn; by rewrite ?add_replies_nil. Qed.

Lemma delivers_trans s s1 s2 m1 m2 :
  stable m2 -> delivers s s1 m1 -> delivers s1 s2 m2 -> delivers s s2 (fun cid c => m1 cid c ++ m2 cid c).
Proof.
  intros Hst (Ht1 & Hn1 & Hc1) (Ht2 & Hn2 & Hc2). split; [|split; [congruence|]].
  - destruct Ht1 as (? & ? & ? & ? & ?), Ht2 as (? & ? & ? & ? & ?). unfold same_tables. split_and!; congruence.
  - intros cid. rewrite Hc2, Hc1. destruct (clients s !! cid) as [c|]; cbn; [|done].
    by rewrite Hst, add_replies_app.
Qed.

Lemma delivers_ext s s' m m' :
  (forall cid c, clients s !! cid = Some c -> m cid c = m' cid c) -> delivers s s' m -> delivers s s' m'.
Proof.
  intros Hm (? & ? & Hc). split; [done|]. split; [done|]. intros cid. rewrite Hc.
  destruct (clients s !! cid) as [c|] eqn:E; cbn; [|done]. by rewrite (Hm cid c).
Qed.

Lemma delivers_subs s s' m : delivers s s' m -> subs_of (clients s') = subs_of (clients s).
Proof.
  intros (_ & _ & Hc). apply map_eq. intros cid. unfold subs_of. rewrite !lookup_fmap, Hc.
  by destruct (clients s !! cid).
Qed.

Lemma delivers_inv s s' m : delivers s s' m -> obs_inv s -> obs_inv s'.
Proof.
  intros Hd [Ht [Hok Hn] Hti]. pose proof (delivers_subs _ _ _ Hd) as Hsubs.
  destruct Hd as ((HF & HK & Hb & _ & Hr) & Hn' & Hc). split.
  - unfold fps_of, keys_of. by rewrite HF, HK, Hsubs.
  - split.
    + intros cid c' Hc'. rewrite Hc in Hc'. apply fmap_Some in Hc' as (c & Hcl & ->).
      by eapply client_ok_observing; [apply (Hok cid c Hcl)|..].
    + rewrite Hn', Hn. do 2 f_equal.
      assert (dom (observers (clients s')) = dom (observers (clients s))) as Hdom.
      { apply set_eq. intros cid. rewrite !elem_of_dom. unfold observers.
        split; intros [x [Hx Ho]%map_lookup_filter_Some].
        - rewrite Hc in Hx. apply fmap_Some in Hx as (c & Hcl & ->). exists c. by apply map_lookup_filter_Some.
        - eexists. apply map_lookup_filter_Some. rewrite Hc, Hx. by split. }
      by rewrite <- !size_dom, Hdom.
  - rewrite Hb, Hr. apply Hti.
Qed.

(** ** One fingerprint *)

Definition one_message db handler (argv : list string) fp c : list reply :=
  [ReplyObserve (cl_resp3 c) fp (exec db handler argv (cl_db c))].

Lemma reply_delivers s cid c r :
  clients s !! cid = Some c -> exists s', reply_to s cid r = Some s' /\
  delivers s s' (fun cid' _ => if decide (cid' = cid) then [r] else []).
Proof.
  intros Hc. rewrite (reply_to_spec _ _ c) by done. eexists. split; [done|]. split; [done|]. split; [done|].
  intros cid'. cbn. destruct (decide (cid' = cid)) as [->|Hne].
  - by rewrite lookup_insert_eq, Hc.
  - rewrite lookup_insert_ne by done. destruct (clients s !! cid'); cbn; by rewrite ?add_replies_nil.
Qed.

Lemma notify_clients_spec cs s db info handler fp dbid :
  NoDup cs -> (forall cid, cid ∈ cs -> is_Some (clients s !! cid)) ->
  exists s', notify_clients exec s db info handler fp dbid cs = Some s' /\
    delivers s s' (fun cid c => if bool_decide (cid ∈ cs) && (cl_db c =? dbid)
                                then one_message db handler (oi_argv info) fp c else []).
Proof.
  revert s. induction cs as [|cid cs IH]; intros s Hnd Hlive; cbn [notify_clients].
  { exists s. split; [done|]. eapply delivers_ext; [|apply delivers_nothing]. intros cid c _.
    by rewrite bool_decide_false by set_solver. }
  apply NoDup_cons in Hnd as [Hnin Hnd]. destruct (Hlive cid ltac:(constructor)) as [c Hc].
  rewrite Hc. mstep. destruct (Z.eqb_spec (cl_db c) dbid) as [Hdb|Hdb]; cbn [negb].
  - destruct (reply_delivers s cid c (observe_message exec c db handler (oi_argv info) fp) Hc) as (s1 & -> & Hd1).
    mstep. destruct (IH s1 Hnd) as (s2 & -> & Hd2).
    { intros cid' Hin. destruct Hd1 as (_ & _ & ->). rewrite fmap_is_Some. apply Hlive. by right. }
    exists s2. split; [done|]. eapply delivers_ext; [|eapply delivers_trans; [|exact Hd1|exact Hd2]; done].
    intros cid' c' Hc'. cbn beta. destruct (decide (cid' = cid)) as [->|Hne].
    + simplify_eq. rewrite (bool_decide_false (cid ∈ cs)) by done.
      rewrite (bool_decide_true (cid ∈ cid :: cs)) by constructor.
      by rewrite Z.eqb_refl.
    + by rewrite (bool_decide_ext (cid' ∈ cid :: cs) (cid' ∈ cs)) by set_solver.
  - destruct (IH s Hnd) as (s2 & -> & Hd2); [intros; apply Hlive; by right|].
    exists s2. split; [done|]. eapply delivers_ext; [|exact Hd2].
    intros cid' c' Hc'. cbn beta. destruct (decide (cid' = cid)) as [->|Hne].
    + simplify_eq. apply Z.eqb_neq in Hdb. by rewrite Hdb, !andb_false_r.
    + by rewrite (bool_decide_ext (cid' ∈ cid :: cs) (cid' ∈ cs)) by set_solver.
Qed.

(** ** One key *)

(** The message for fingerprint [fp]: the stored command run again. *)
Definition note s db c fp : list reply :=
  match fps_of s !! fp with
  | None => []
  | Some info =>
      one_message db (default EmptyString (findHandlerForCommand (oi_command info))) (oi_argv info) fp c
  end.

(** What client [c] is sent for a change of [key] in [dbid]: one message for
    each of its fingerprints on that key. *)
Definition key_messages s db key dbid c : list reply :=
  if key_exists db dbid key && (cl_db c =? dbid)
  then filter (fun fp => fp ∈ mine_of c) (default [] (keys_of s !! key)) ≫= note s db c
  else [].

Lemma execute_spec s db info fp dbid :
  obs_inv s -> fps_of s !! fp = Some info ->
  exists s', executeObserveCommand exec key_exists s db info fp dbid = Some s' /\
    delivers s s' (fun cid c => if key_exists db dbid (oi_key info) && (cl_db c =? dbid)
                                then if decide (fp ∈ mine_of c) then note s db c fp else [] else []).
Proof.
  intros [Ht _ _] HF. unfold executeObserveCommand.
  destruct (key_exists db dbid (oi_key info)); cbn [negb andb]; cycle 1.
  { exists s. split; [done|]. apply delivers_nothing. }
  destruct (ti_handler _ _ _ Ht _ _ HF) as [handler Hh]. rewrite Hh.
  destruct (notify_clients_spec (oi_clients info) s db info handler fp dbid) as (s' & -> & Hd).
  { by eapply Ht. }
  { intros cid Hin. pose proof (ti_live _ _ _ Ht _ _ _ HF Hin) as H. unfold subs_of in H.
    by rewrite lookup_fmap, fmap_is_Some in H. }
  exists s'. split; [done|]. eapply delivers_ext; [|exact Hd]. intros cid c Hc. cbn beta.
  unfold note. rewrite HF, Hh. cbn [default from_option id].
  pose proof (ti_sub _ _ _ Ht _ _ fp (subs_lookup _ _ _ Hc)) as Hsub. rewrite HF in Hsub.
  rewrite andb_comm. destruct (cl_db c =? dbid); cbn [andb]; [|done].
  destruct (decide (fp ∈ mine_of c)) as [Hin|Hnin].
  - rewrite bool_decide_true; [done|]. destruct (proj1 Hsub Hin) as (? & [= <-] & ?). done.
  - rewrite bool_decide_false; [done|]. intros ?. apply Hnin, Hsub. eauto.
Qed.

Lemma note_tables s s' db c fp : observe_fingerprints s' = observe_fingerprints s -> note s' db c fp = note s db c fp.
Proof. unfold note, fps_of. by intros ->. Qed.

Lemma note_replies s db c fp l : note s db (add_replies c l) fp = note s db c fp.
Proof. done. Qed.

Lemma notify_fingerprints_spec fingerprints s db key dbid :
  obs_inv s -> (forall fp, fp ∈ fingerprints -> exists info, fps_of s !! fp = Some info /\ oi_key info = key) ->
  exists s', notify_fingerprints exec key_exists s db dbid fingerprints = Some s' /\
    delivers s s' (fun cid c => if key_exists db dbid key && (cl_db c =? dbid)
      then filter (fun fp => fp ∈ mine_of c) fingerprints ≫= note s db c else []).
Proof.
  revert s. induction fingerprints as [|fp rest IH]; intros s HI Hfps; cbn [notify_fingerprints].
  { exists s. split; [done|]. eapply delivers_ext; [|apply delivers_nothing]. intros cid c _. by destruct (_ && _). }
  destruct (Hfps fp ltac:(constructor)) as (info & HF & <-).
  destruct (observe_fingerprints s) as [fps|] eqn:EF; [|unfold fps_of in HF; by rewrite EF in HF].
  assert (fps !! fp = Some info) as HF' by (unfold fps_of in HF; by rewrite EF in HF).
  mstep. rewrite HF'.
  destruct (execute_spec s db info fp dbid HI HF) as (s1 & -> & Hd1). mstep.
  pose proof (delivers_inv _ _ _ Hd1 HI) as HI1.
  assert (observe_fingerprints s1 = observe_fingerprints s) as HF1 by apply Hd1.
  destruct (IH s1 HI1) as (s2 & -> & Hd2).
  { intros fp' Hin. unfold fps_of. rewrite HF1. apply Hfps. by right. }
  exists s2. split; [done|]. eapply delivers_ext; [|eapply delivers_trans; [|exact Hd1|exact Hd2]].
  - intros cid c Hc. cbn beta. destruct (_ && _); [|done]. rewrite filter_cons.
    destruct (decide (fp ∈ mine_of c)); cbn [app mbind list_bind]; [f_equal|];
      apply list_bind_ext; intros; done || by apply note_tables.
  - intros cid c l. done.
Qed.

Lemma notify_key_spec s db key dbid :
  obs_inv s ->
  exists s', observeNotifyKeyChangeImmediate exec key_exists s db key dbid = Some s' /\
    delivers s s' (fun _ => key_messages s db key dbid).
Proof.
  intros HI. unfold observeNotifyKeyChangeImmediate, key_messages, keys_of.
  assert (delivers s s (fun _ c => if key_exists db dbid key && (cl_db c =? dbid)
    then filter (fun fp => fp ∈ mine_of c) [] ≫= note s db c else [])) as Hnone.
  { eapply delivers_ext; [|apply delivers_nothing]. intros cid c _. by destruct (_ && _). }
  destruct (observe_key_to_fingerprints s) as [keys|] eqn:EK; cbn [default from_option id]; [|by exists s].
  destruct (keys !! key) as [l|] eqn:Ek; cbn [default from_option id]; [|by exists s].
  apply notify_fingerprints_spec; [done|]. intros fp Hin. apply (ti_key _ _ _ (oi_tab _ HI)).
  unfold keys_of. rewrite EK. cbn [default from_option id]. by rewrite Ek.
Qed.

(** ** Several keys *)

Lemma key_messages_tables s s' db key dbid c :
  same_tables s s' -> key_messages s' db key dbid c = key_messages s db key dbid c.
Proof.
  intros (HF & HK & _). unfold key_messages, keys_of. rewrite HK. destruct (_ && _); [|done].
  apply list_bind_ext; [|done]. intros. by apply note_tables.
Qed.

Lemma flush_keys_spec changes s db :
  obs_inv s ->
  exists s', flush_keys exec key_exists s db changes = Some s' /\
    delivers s s' (fun _ c => changes ≫= fun '(key, dbid) => key_messages s db key dbid c).
Proof.
  revert s. induction changes as [|[key dbid] rest IH]; intros s HI; cbn [flush_keys].
  { exists s. split; [done|]. apply delivers_nothing. }
  destruct (notify_key_spec s db key dbid HI) as (s1 & -> & Hd1). mstep.
  destruct (IH s1 (delivers_inv _ _ _ Hd1 HI)) as (s2 & -> & Hd2).
  exists s2. split; [done|]. eapply delivers_ext; [|eapply delivers_trans; [|exact Hd1|exact Hd2]].
  - intros cid c Hc. cbn [mbind list_bind]. f_equal. apply list_bind_ext; [|done].
    intros [k d]. by apply key_messages_tables, Hd1.
  - intros cid c l. apply list_bind_ext; [|done]. by intros [k d].
Qed.

(** The fingerprints of client [c] on [key], in the order of the key's list. *)
Definition fingerprints_on s key c : list string :=
  filter (fun fp => fp ∈ mine_of c) (default [] (keys_of s !! key)).

Lemma fingerprints_on_NoDup s key c : obs_inv s -> NoDup (fingerprints_on s key c).
Proof. intros [Ht _ _]. apply NoDup_filter. by eapply tab_list_nodup. Qed.

Lemma elem_of_fingerprints_on s key c fp :
  obs_inv s -> fp ∈ fingerprints_on s key c <->
    fp ∈ mine_of c /\ exists info, fps_of s !! fp = Some info /\ oi_key info = key.
Proof. intros [Ht _ _]. unfold fingerprints_on. by rewrite list_elem_of_filter, (ti_key _ _ _ Ht). Qed.

(** Each message carries its own fingerprint. *)
Definition reply_fp (r : @reply R) : option string :=
  match r with ReplyObserve _ fp _ => Some fp | _ => None end.

Lemma notes_fps s db c l :
  (forall fp, fp ∈ l -> is_Some (fps_of s !! fp)) -> omap reply_fp (l ≫= note s db c) = l.
Proof.
  induction l as [|fp l IH]; intros Hl; [done|]. cbn [mbind list_bind].
  destruct (Hl fp ltac:(constructor)) as [info HF]. unfold note at 1. rewrite HF. cbn.
  f_equal. apply IH. intros; apply Hl; by right.
Qed.

(** ** The debounce buffer *)

Context (buffer_order : gmap string Z -> list (string * Z)).
Context (Hbuffer_order : forall B, buffer_order B ≡ₚ map_to_list B).

Fixpoint key_changes s db (changes : list (string * Z)) : option server :=
  match changes with
  | [] => Some s
  | (key, dbid) :: rest => s ← observeNotifyKeyChange exec key_exists s db key dbid; key_changes s db rest
  end.

Definition buffered (B : gmap string Z) (changes : list (string * Z)) : gmap string Z :=
  fold_left (fun B '(key, dbid) => <[key := dbid]> B) changes B.

Lemma debounce_spec s key dbid :
  obs_inv s ->
  let s' := observeDebounceKeyChange s key dbid in
  let B := <[key := dbid]> (default ∅ (observe_debounce_buffer s)) in
  s' = set_buffer s (Some B) true /\ obs_inv s'.
Proof.
  intros [Ht Hm Hti]. unfold observeDebounceKeyChange.
  assert (match default ∅ (observe_debounce_buffer s) !! key with
    | None => set_buffer s (Some (<[key := dbid]> (default ∅ (observe_debounce_buffer s)))) true
    | Some _ => set_buffer s (Some (<[key := dbid]> (default ∅ (observe_debounce_buffer s)))) (debounce_running s)
    end = set_buffer s (Some (<[key := dbid]> (default ∅ (observe_debounce_buffer s)))) true) as Heq.
  { destruct (_ !! key) eqn:E; [|done]. rewrite Hti; [done|]. intros H. rewrite H in E. by rewrite lookup_empty in E. }
  cbv zeta. rewrite Heq. split; [done|]. by split.
Qed.

Lemma key_changes_spec changes s db :
  obs_inv s -> observing_clients s <> 0 -> observe_debounce_period s <> 0 -> changes <> [] ->
  key_changes s db changes =
    Some (set_buffer s (Some (buffered (default ∅ (observe_debounce_buffer s)) changes)) true).
Proof.
  revert s. induction changes as [|[key dbid] rest IH]; intros s HI Hn Hp Hne; [done|].
  cbn [key_changes]. unfold observeNotifyKeyChange.
  apply Z.eqb_neq in Hn as Hn', Hp as Hp'. rewrite Hn', Hp'. mstep.
  destruct (debounce_spec s key dbid HI) as [-> HI'].
  destruct rest as [|x rest]; [done|]. rewrite IH; done.
Qed.

Lemma timer_spec s db :
  obs_inv s -> debounce_running s = true ->
  let B := default ∅ (observe_debounce_buffer s) in
  exists s', observeDebounceTimerHandler exec key_exists buffer_order s db = Some (s', None) /\ obs_inv s' /\
    default ∅ (observe_debounce_buffer s') = ∅ /\ debounce_running s' = false /\
    forall cid c, clients s !! cid = Some c ->
      clients s' !! cid = Some (add_replies c (buffer_order B ≫= fun '(key, dbid) => key_messages s db key dbid c)).
Proof.
  intros HI Hrun. unfold observeDebounceTimerHandler, observeDebounceFlush.
  assert (buffer_order ∅ = []) as Hempty.
  { pose proof (Hbuffer_order ∅) as H. rewrite map_to_list_empty in H. by apply Permutation_nil_r in H. }
  destruct (observe_debounce_buffer s) as [B|] eqn:EB; cbn [default from_option id]; cycle 1.
  { mstep. rewrite EB, Hempty. eexists. split; [done|]. split; [destruct HI; by split|].
    split; [done|]. split; [done|]. intros cid c Hc. cbn. by rewrite add_replies_nil. }
  destruct (decide (B = ∅)) as [->|HB].
  { mstep. rewrite EB, Hempty, decide_True by done.
    eexists. split; [done|]. split; [destruct HI; by split|].
    split; [done|]. split; [done|]. intros cid c Hc. cbn. by rewrite add_replies_nil. }
  set (s0 := set_buffer s (Some ∅) (debounce_running s)).
  assert (obs_inv s0) as HI0 by (destruct HI; by split).
  destruct (flush_keys_spec (buffer_order B) s0 db HI0) as (s1 & -> & Hd). mstep.
  pose proof (delivers_inv _ _ _ Hd HI0) as [Ht1 Hm1 _].
  destruct Hd as ((_ & _ & Hb & _) & _ & Hcl). rewrite Hb. cbn [observe_debounce_buffer s0 set_buffer].
  rewrite decide_True by done. eexists. split; [done|]. split; [by split|]. split; [done|]. split; [done|].
  intros cid c Hc. cbn [clients set_buffer]. rewrite Hcl. cbn [clients s0 set_buffer]. by rewrite Hc.
Qed.
End notify.

(** ** Theorems *)

Lemma buffered_lookup changes B dbid :
  Forall (fun ch => ch.2 = dbid) changes ->
  forall key, buffered B changes !! key = if decide (key ∈ changes.*1) then Some dbid else B !! key.
Proof.
  revert B. induction changes as [|[k d] rest IH]; intros B Hall key.
  { cbn. by rewrite decide_False by set_solver. }
  apply Forall_cons in Hall as [Hd Hall]. cbn in Hd. subst d. cbn [buffered fold_left].
  fold (buffered (<[k := dbid]> B) rest). rewrite IH by done. rewrite fmap_cons. cbn [fst].
  destruct (decide (key ∈ rest.*1)) as [Hin|Hnin]; [by rewrite decide_True by (by right)|].
  destruct (decide (key = k)) as [->|Hne].
  - by rewrite lookup_insert_eq, decide_True by constructor.
  - rewrite lookup_insert_ne by done. rewrite decide_False; [done|]. set_solver.
Qed.

(** Distinct keys have distinct fingerprints, so no message is repeated. *)
Lemma messages_fps {DB R} (exec : DB -> string -> list string -> Z -> R) key_exists s db c changes dbid :
  obs_inv s -> NoDup changes.*1 -> Forall (fun ch => ch.2 = dbid) changes -> cl_db c = dbid ->
  let fps := omap reply_fp (changes ≫= fun '(key, d) => key_messages exec key_exists s db key d c) in
  NoDup fps /\ forall fp, fp ∈ fps <-> fp ∈ mine_of c /\ exists info, fps_of s !! fp = Some info /\
    oi_key info ∈ changes.*1 /\ key_exists db dbid (oi_key info) = true.
Proof.
  intros HI Hnd Hall Hdb. induction changes as [|[key d] rest IH]; cbn [mbind list_bind].
  { split; [constructor|]. intros fp. set_solver. }
  apply Forall_cons in Hall as [Hd Hall]. cbn in Hd. subst d. rewrite fmap_cons in *. cbn [fst] in *.
  apply NoDup_cons in Hnd as [Hnin Hnd]. destruct (IH Hnd Hall) as [Hn1 Hin1].
  cbv zeta. rewrite omap_app. set (tl := omap reply_fp (rest ≫= _)) in *.
  assert (omap reply_fp (key_messages exec key_exists s db key dbid c) =
    if key_exists db dbid key then fingerprints_on s key c else []) as ->.
  { unfold key_messages. rewrite Hdb, Z.eqb_refl, andb_true_r. destruct (key_exists db dbid key); [|done].
    apply notes_fps. intros fp (? & ? & ? & _)%(elem_of_fingerprints_on _ _ _ _ HI). eauto. }
  split.
  - apply NoDup_app. split; [destruct (key_exists _ _ _); [by apply fingerprints_on_NoDup|constructor]|].
    split; [|done]. intros fp Hfp (_ & info & HF & Hk & _)%Hin1.
    destruct (key_exists db dbid key); [|set_solver].
    apply (elem_of_fingerprints_on _ _ _ _ HI) in Hfp as (_ & info' & HF' & <-). by simplify_eq.
  - intros fp. rewrite elem_of_app, Hin1.
    destruct (key_exists db dbid key) eqn:Ek; [rewrite elem_of_fingerprints_on by done|];
      split; [|intros (Hm & info & HF & [Hk|Hk]%elem_of_cons & He)|
              |intros (Hm & info & HF & [Hk|Hk]%elem_of_cons & He)].
    + intros [(? & info & ? & <-)|(? & info & ? & ? & ?)]; (split; [done|]); exists info; set_solver.
    + left. eauto.
    + right. eauto 6.
    + intros [?|(? & info & ? & ? & ?)]; [set_solver|]. split; [done|]. exists info. set_solver.
    + congruence.
    + right. eauto 6.
Qed.



(** ** Runs of the server *)

Section runs.
Context {DB R : Type}.
Context (exec : DB -> string -> list string -> Z -> R) (key_exists : DB -> Z -> string -> bool).
Context (data_addr : Z).
Context (buffer_order : gmap string Z -> list (string * Z)) (fps_order : gset string -> list string).
Implicit Types (s : @server R).

Inductive event :=
  | Connect (cid : Z) (deny_blocking : bool)
  | Context_change (cid dbid : Z) (resp3 multi : bool)
  | Observe (cid : Z) (db : DB) (argv : list string)
  | Unobserve (cid : Z) (argv : list string)
  | Disconnect (cid : Z)
  | Key_changed (db : DB) (key : string) (dbid : Z)
  | Timer (db : DB)
  | Set_period (period : Z).

Definition set_period s p : server :=
  Server (observe_fingerprints s) (observe_key_to_fingerprints s) (observing_clients s)
    (observe_debounce_buffer s) p (debounce_running s) (clients s).

Definition step s (e : event) : option server :=
  match e with
  | Connect cid deny => Some (createClient_observe s cid deny)
  | Context_change cid dbid resp3 multi => set_context s cid dbid resp3 multi
  | Observe cid db argv => observeCommand exec data_addr s cid db argv
  | Unobserve cid argv => unobserveCommand s cid argv
  | Disconnect cid => freeClient_observe fps_order s cid
  | Key_changed db key dbid => observeNotifyKeyChange exec key_exists s db key dbid
  | Timer db => fst <$> observeDebounceTimerHandler exec key_exists buffer_order s db
  | Set_period p => Some (set_period s p)
  end.

(** When an event can happen: requests come from connected clients, the timer
    fires only while armed.  UNOBSERVE is limited to the calls that do not
    use up the subscriptions before the last argument. *)
Definition possible s (e : event) : bool :=
  match e with
  | Connect cid _ => bool_decide (clients s !! cid = None)
  | Context_change cid _ _ _ | Observe cid _ _ | Disconnect cid => bool_decide (is_Some (clients s !! cid))
  | Unobserve cid argv =>
      match clients s !! cid with
      | None => false
      | Some c => negb (bool_decide (mine_of c <> ∅) && exhausted_early (mine_of c) (tail argv))
      end
  | Timer _ => debounce_running s
  | Key_changed _ _ _ | Set_period _ => true
  end.

Fixpoint run s (es : list event) : option server :=
  match es with
  | [] => Some s
  | e :: es => s ← step s e; run s es
  end.

Fixpoint possible_run s (es : list event) : bool :=
  match es with
  | [] => true
  | e :: es => possible s e && match step s e with None => true | Some s => possible_run s es end
  end.

Context (Hfps_order : forall X, fps_order X ≡ₚ elements X).
Context (Hbuffer_order : forall B, buffer_order B ≡ₚ map_to_list B).

Lemma step_spec s e : obs_inv s -> possible s e = true -> exists s', step s e = Some s' /\ obs_inv s'.
Proof.
  intros HI. destruct e as [cid deny|cid d r m|cid db argv|cid argv|cid|db key d|db|p]; cbn [possible step].
  - intros Hc%bool_decide_eq_true. eexists. split; [done|]. by apply createClient_spec.
  - intros [c Hc]%bool_decide_eq_true. by eapply set_context_spec.
  - intros [c Hc]%bool_decide_eq_true. by eapply observeCommand_spec.
  - destruct (clients s !! cid) as [c|] eqn:Hc; [|done]. intros Hp%negb_true_iff.
    pose proof (unobserveCommand_spec s cid c argv HI Hc) as H. cbv zeta in H. rewrite Hp in H.
    destruct H as (s' & ? & ? & _). eauto.
  - intros [c Hc]%bool_decide_eq_true.
    destruct (freeClient_spec fps_order Hfps_order s cid c HI Hc) as (s' & ? & ? & _). eauto.
  - intros _. unfold observeNotifyKeyChange. destruct (_ =? 0); [eauto|]. destruct (_ =? 0).
    + destruct (notify_key_spec exec key_exists s db key d HI) as (s' & ? & Hd).
      exists s'. split; [done|]. by eapply delivers_inv.
    + eexists. split; [done|]. by apply debounce_spec.
  - intros Hr. destruct (timer_spec exec key_exists buffer_order Hbuffer_order s db HI Hr) as (s' & -> & ? & _).
    by exists s'.
  - intros _. eexists. split; [done|]. destruct HI. by split.
Qed.

Lemma run_spec es s : obs_inv s -> possible_run s es = true -> exists s', run s es = Some s' /\ obs_inv s'.
Proof.
  revert s. induction es as [|e es IH]; intros s HI; cbn [possible_run run]; [eauto|].
  intros [Hp Hrest]%andb_prop. destruct (step_spec s e HI Hp) as (s1 & Hs1 & HI1).
  rewrite Hs1 in *. mstep. by apply IH.
Qed.
End runs.

(** *** An example server *)

Definition demo_exec (db : list (string * Z)) (proc : string) (argv : list string) (dbid : Z) : list string :=
  proc :: argv.
Definition demo_exists (db : list (string * Z)) (dbid : Z) (key : string) : bool :=
  bool_decide ((key, dbid) ∈ db).
Definition demo_db : list (string * Z) := [("k", 0); ("h", 0); ("h", 1)]%string.

Definition demo_run (period : Z) (es : list event) : option server :=
  run demo_exec demo_exists 0 map_to_list elements (initial period) es.
Definition demo_possible (period : Z) (es : list event) : bool :=
  possible_run demo_exec demo_exists 0 map_to_list elements (initial period) es.

Definition get_k : string := generateCommandFingerprint 0 ["GET"; "k"]%string.
Definition len_h : string := generateCommandFingerprint 0 ["hlen"; "h"]%string.

Definition demo_subscribe : list event := [
  Connect 1 false; Connect 2 false; Connect 3 true;
  Observe 1 demo_db ["OBSERVE"; "GET"; "k"]; Observe 2 demo_db ["OBSERVE"; "GET"; "k"];
  Observe 2 demo_db ["observe"; "hlen"; "h"]; Observe 3 demo_db ["OBSERVE"; "GET"; "k"];
  Observe 1 demo_db ["OBSERVE"; "SET"; "k"; "v"]]%string.

Definition demo_events : list event := demo_subscribe ++ [
  Context_change 3 1 true false; Key_changed demo_db "k" 0; Key_changed demo_db "h" 0; Timer demo_db;
  Unobserve 2 ["UNOBSERVE"; "nothing"; get_k]; Set_period 0; Key_changed demo_db "h" 0;
  Disconnect 2; Key_changed demo_db "k" 0; Disconnect 1]%string.

Definition demo_server (period : Z) : server := default (initial period) (demo_run period demo_subscribe).

Lemma demo_server_inv period : demo_possible period demo_subscribe = true -> obs_inv (demo_server period).
Proof.
  unfold demo_possible, demo_server, demo_run. generalize demo_subscribe. intros es Hp.
  apply run_spec in Hp as (s' & -> & HI); [done|by intros|by intros|apply initial_inv].
Qed.

#[local] Opaque get_k len_h demo_server.





(** Facts on the clients of the example, by computation. *)
Lemma demo_client {A} `{EqDecision A} (f : client -> A) period cid c x :
  clients (demo_server period) !! cid = Some c ->
  bool_decide (f <$> clients (demo_server period) !! cid = Some x) = true -> f c = x.
Proof. intros Hc H%bool_decide_eq_true. rewrite Hc in H. by injection H. Qed.

Lemma demo_connected period cid :
  bool_decide (is_Some (clients (demo_server period) !! cid)) = true ->
  exists c, clients (demo_server period) !! cid = Some c.
Proof. by intros [c Hc]%bool_decide_eq_true; exists c. Qed.

(** *** UNOBSERVE *)

(** An UNOBSERVE whose arguments do not use up the client's
    subscriptions before the last one removes exactly the named ones, replies
    with their number and clears the flag when none is left. *)
Theorem unobserveCommand_correct {R} (s : @server R) cid c argv :
  obs_inv s -> clients s !! cid = Some c ->
  (forall pre g post, tail argv = pre ++ g :: post -> ~ mine_of c ⊆ list_to_set pre) ->
  exists s', unobserveCommand s cid argv = Some s' /\ obs_inv s' /\
    clients s' = <[cid := unobserved c (list_to_set (tail argv))]> (clients s).
Proof.
  intros HI Hc Hpre. pose proof (unobserveCommand_spec s cid c argv HI Hc) as H. cbv zeta in H.
  destruct (exhausted_early (mine_of c) (tail argv)) eqn:E; [|by rewrite andb_false_r in H].
  apply exhausted_early_spec in E as (pre & g & post & Heq & Hsub). by destruct (Hpre pre g post).
Qed.

Lemma unobserveCommand_correct_witness : exists c s',
  clients (demo_server 0) !! 2 = Some c /\
  unobserveCommand (demo_server 0) 2 ["UNOBSERVE"; "nothing"; get_k]%string = Some s' /\ obs_inv s' /\
  clients s' = <[2 := unobserved c {["nothing"%string; get_k]}]> (clients (demo_server 0)).
Proof.
  destruct (demo_connected 0 2) as [c Hc]; [by vm_compute|].
  assert (mine_of c = {[get_k; len_h]}) as Hm by (apply (demo_client mine_of 0 2 c); [exact Hc|by vm_compute]).
  destruct (unobserveCommand_correct (demo_server 0) 2 c ["UNOBSERVE"; "nothing"; get_k]%string)
    as (s' & ? & ? & Hcl).
  - apply demo_server_inv. by vm_compute.
  - exact Hc.
  - intros pre g post Heq. rewrite Hm. intros Hsub. cbn [tail] in Heq.
    assert (len_h ∈ ["nothing"; get_k]%string) as Hin.
    { rewrite Heq. apply elem_of_app. left. apply (elem_of_list_to_set (C := gset string)), Hsub.
      apply elem_of_union_r, elem_of_singleton_2. reflexivity. }
    apply (bool_decide_pack _) in Hin. by vm_compute in Hin.
  - exists c, s'. rewrite Hcl. cbn [tail list_to_set]. rewrite union_empty_r_L. split_and!; first [assumption|reflexivity].
Defined.

(** An UNOBSERVE with an argument after the ones that remove the client's
    last subscription dereferences a NULL dict: the set was released, and the
    next turn of the loop searches it. *)
Theorem unobserveCommand_null_deref {R} (s : @server R) cid c a pre g post :
  obs_inv s -> clients s !! cid = Some c -> mine_of c <> ∅ -> mine_of c ⊆ list_to_set pre ->
  unobserveCommand s cid (a :: pre ++ g :: post) = None.
Proof.
  intros HI Hc Hne Hsub. pose proof (unobserveCommand_spec s cid c (a :: pre ++ g :: post) HI Hc) as H.
  cbv zeta in H. rewrite bool_decide_true in H by done.
  assert (exhausted_early (mine_of c) (tail (a :: pre ++ g :: post)) = true) as E
    by (apply exhausted_early_spec; by exists pre, g, post).
  by rewrite E in H.
Qed.

Lemma unobserveCommand_null_deref_witness :
  unobserveCommand (demo_server 0) 1 ["UNOBSERVE"; get_k; get_k]%string = None.
Proof.
  destruct (demo_connected 0 1) as [c Hc]; [by vm_compute|].
  assert (mine_of c = {[get_k]}) as Hm by (apply (demo_client mine_of 0 1 c); [exact Hc|by vm_compute]).
  apply (unobserveCommand_null_deref (demo_server 0) 1 c "UNOBSERVE" [get_k] get_k []).
  - apply demo_server_inv. by vm_compute.
  - exact Hc.
  - rewrite Hm. apply non_empty_singleton_L.
  - rewrite Hm. cbn [list_to_set]. rewrite union_empty_r_L. reflexivity.
Defined.

(** *** Departures from the documentation *)

(** When the same key changes in two databases within one debounce
    period, only the second database is remembered, and a client observing
    the key in the first is never told of the change. *)
Theorem observe_debounce_drops_database {DB R} (exec : DB -> string -> list string -> Z -> R) key_exists
    buffer_order s db db' key d1 d2 cid c :
  (forall B, buffer_order B ≡ₚ map_to_list B) -> obs_inv s ->
  observing_clients s <> 0 -> observe_debounce_period s <> 0 ->
  default ∅ (observe_debounce_buffer s) = ∅ ->
  clients s !! cid = Some c -> cl_db c = d1 -> d1 <> d2 ->
  exists s1 s2, key_changes exec key_exists s db [(key, d1); (key, d2)] = Some s1 /\
    observeDebounceTimerHandler exec key_exists buffer_order s1 db' = Some (s2, None) /\
    clients s2 !! cid = Some c.
Proof.
  intros Hord HI Hn Hp Hb Hc Hd1 Hne. rewrite key_changes_spec by done. rewrite Hb.
  set (B := buffered ∅ _). set (s1 := set_buffer s (Some B) true).
  assert (obs_inv s1) as HI1 by (destruct HI; by split).
  destruct (timer_spec exec key_exists buffer_order Hord s1 db' HI1 eq_refl) as (s2 & Hs2 & _ & _ & _ & Hcl).
  exists s1, s2. split; [done|]. split; [done|]. rewrite (Hcl cid c Hc).
  change (default ∅ (observe_debounce_buffer s1)) with B.
  assert (buffer_order B = [(key, d2)]) as ->.
  { pose proof (Hord B) as H. unfold B in *. cbn [buffered fold_left] in *.
    rewrite insert_insert_eq, insert_empty, map_to_list_singleton in *.
    by apply Permutation_singleton_r in H. }
  cbn [mbind list_bind]. unfold key_messages. apply Z.eqb_neq in Hne as Hne'. rewrite Hd1, Hne', andb_false_r.
  cbn [app]. by rewrite add_replies_nil.
Qed.

Lemma observe_debounce_drops_database_witness : exists c s1 s2,
  key_changes demo_exec demo_exists (demo_server 100) demo_db [("h", 0); ("h", 1)]%string = Some s1 /\
  observeDebounceTimerHandler demo_exec demo_exists map_to_list s1 demo_db = Some (s2, None) /\
  clients s2 !! 2 = Some c /\ mine_of c = {[get_k; len_h]}.
Proof.
  destruct (demo_connected 100 2) as [c Hc]; [by vm_compute|].
  assert (mine_of c = {[get_k; len_h]}) as Hm by (apply (demo_client mine_of 100 2 c); [exact Hc|by vm_compute]).
  assert (cl_db c = 0) as Hd by (apply (demo_client cl_db 100 2 c); [exact Hc|by vm_compute]).
  destruct (observe_debounce_drops_database demo_exec demo_exists map_to_list (demo_server 100) demo_db demo_db
    "h" 0 1 2 c) as (s1 & s2 & ? & ? & ?).
  - by intros.
  - apply demo_server_inv. by vm_compute.
  - by vm_compute.
  - by vm_compute.
  - by vm_compute.
  - exact Hc.
  - exact Hd.
  - lia.
  - exists c, s1, s2. split_and!; assumption.
Defined.

(** The deletion of an observed key is not announced: nothing is sent to
    any client when the key no longer exists. *)
Theorem observe_deletion_silent {DB R} (exec : DB -> string -> list string -> Z -> R) key_exists s db key dbid :
  obs_inv s -> key_exists db dbid key = false ->
  exists s', observeNotifyKeyChangeImmediate exec key_exists s db key dbid = Some s' /\ clients s' = clients s.
Proof.
  intros HI He. destruct (notify_key_spec exec key_exists s db key dbid HI) as (s' & ? & _ & _ & Hcl).
  exists s'. split; [done|]. apply map_eq. intros cid. rewrite Hcl. destruct (clients s !! cid); [|done].
  cbn [fmap option_fmap option_map]. unfold key_messages. rewrite He. cbn [andb]. by rewrite add_replies_nil.
Qed.

Lemma observe_deletion_silent_witness : exists s',
  observeNotifyKeyChangeImmediate demo_exec demo_exists (demo_server 0) [] "k" 0 = Some s' /\
  clients s' = clients (demo_server 0).
Proof. apply observe_deletion_silent; [apply demo_server_inv; by vm_compute|by vm_compute]. Defined.

(** Joining the arguments with spaces makes HGET of field c of hash
    'a b' and HGET of field 'b c' of hash a share a fingerprint: the second
    client is subscribed to the first command, and a change of its own key is
    not announced to it. *)
Theorem observe_fingerprints_collide :
  generateCommandFingerprint 0 ["HGET"; "a b"; "c"]%string = generateCommandFingerprint 0 ["HGET"; "a"; "b c"]%string /\
  (s ← demo_run 0 [Connect 1 false; Connect 2 false;
     Observe 1 [("a b", 0); ("a", 0)] ["OBSERVE"; "HGET"; "a b"; "c"];
     Observe 2 [("a b", 0); ("a", 0)] ["OBSERVE"; "HGET"; "a"; "b c"];
     Key_changed [("a b", 0); ("a", 0)] "a" 0; Key_changed [("a b", 0); ("a", 0)] "a b" 0]%string;
   c ← clients s !! 2; Some (cl_out c)) =
  let fp := generateCommandFingerprint 0 ["HGET"; "a"; "b c"]%string in
  Some [ReplyObserve false fp ["hgetCommand"; "HGET"; "a"; "b c"]%string;
        ReplyObserve false fp ["hgetCommand"; "HGET"; "a b"; "c"]%string].
Proof. split; by vm_compute. Qed.
