(* ===== verification/Skiplist.v ===== *)
(** * Skiplists of sorted sets (src/t_zset.c, the low level API)

    Nodes live in a heap from addresses to nodes; an access to an address that
    is not allocated, or to a level a node does not have, is [None].  Scores are
    the IEEE numbers of the Standard Library's [SpecFloat] with their
    comparisons, strings are lists of bytes, [unsigned long] counters wrap.
    The allocator is a parameter that returns an address not in use, as are
    the contents of fresh memory; [random] is the list of numbers it returns. *)
From S2P Require Import Prelude.
From Stdlib Require Import ZArith Lia SpecFloat.
From stdpp Require Import prelude list gmap.

#[local] Open Scope Z_scope.

Definition ZSKIPLIST_MAXLEVEL : nat := 32.
Definition ZSKIPLIST_MAX_SEARCH : Z := 10.

(** [ele] is NULL in the header. *)
Record zskiplistNode := Node {
  ele : option (list Z);
  score : spec_float;
  backward : option nat;
  level : list (option nat * Z) }.

Record zskiplist := Zskiplist {
  zsl_header : nat;
  zsl_tail : option nat;
  zsl_length : Z;
  zsl_level : nat }.

Abbreviation zheap := (gmap nat zskiplistNode).

(** ** Order of the elements *)

(** The sign of [memcmp] on the common length. *)
Fixpoint memcmp (a b : list Z) : Z :=
  match a, b with
  | x :: a, y :: b => if x =? y then memcmp a b else if x <? y then -1 else 1
  | _, _ => 0
  end.

Definition sdscmp (s1 s2 : list Z) : Z :=
  let l1 := length s1 in
  let l2 := length s2 in
  let minlen := if (l1 <? l2)%nat then l1 else l2 in
  let cmp := memcmp (take minlen s1) (take minlen s2) in
  if cmp =? 0 then (if (l2 <? l1)%nat then 1 else if (l1 <? l2)%nat then -1 else 0) else cmp.

Definition isnan (x : spec_float) : bool := match x with S754_nan => true | _ => false end.

(** The node comes before the score and element, or (with [eq]) is them. *)
Definition node_before (eq : bool) (s : spec_float) (e : list Z) (n : zskiplistNode) : option bool :=
  if SFltb (score n) s then Some true
  else if SFeqb (score n) s then
    ne ← ele n; Some (if eq then sdscmp ne e <=? 0 else sdscmp ne e <? 0)
  else Some false.

(** The node is the score and element. *)
Definition node_is (s : spec_float) (e : list Z) (n : zskiplistNode) : option bool :=
  if SFeqb s (score n) then ne ← ele n; Some (sdscmp ne e =? 0) else Some false.

(** ** Access *)

(** [x->level[i]] *)
Definition lev (h : zheap) (x i : nat) : option (option nat * Z) := n ← h !! x; level n !! i.

Definition set_lev (h : zheap) (x i : nat) (l : option nat * Z) : option zheap :=
  n ← h !! x;
  _ ← level n !! i;
  Some (<[x := Node (ele n) (score n) (backward n) (<[i := l]> (level n))]> h).

Definition set_backward (h : zheap) (x : nat) (b : option nat) : option zheap :=
  n ← h !! x; Some (<[x := Node (ele n) (score n) b (level n)]> h).

Definition set_score (h : zheap) (x : nat) (s : spec_float) : option zheap :=
  n ← h !! x; Some (<[x := Node (ele n) s (backward n) (level n)]> h).

(** The loop along level [i]: it goes to the next node while [go], given the
    rank of that node, says so. *)
Fixpoint walk (fuel : nat) (h : zheap) (go : Z -> zskiplistNode -> option bool) (i x : nat) (rank : Z) :
    option (nat * Z) :=
  match fuel with
  | O => None
  | S fuel =>
      l ← lev h x i;
      match l.1 with
      | None => Some (x, rank)
      | Some f =>
          n ← h !! f;
          let rank' := wrapu 64 (rank + l.2) in
          g ← go rank' n;
          if (g : bool) then walk fuel h go i f rank' else Some (x, rank)
      end
  end.

(** The loop over the levels from [lvl - 1] to 0: [update] and [rank]. *)
Fixpoint search (h : zheap) (go : Z -> zskiplistNode -> option bool) (lvl x : nat) (rank : Z) :
    option (list (nat * Z)) :=
  match lvl with
  | O => Some []
  | S i =>
      r ← walk (S (size h)) h go i x rank;
      us ← search h go i r.1 r.2;
      Some (us ++ [r])
  end.

(** ** Creation *)

Section skiplist.
  Context (zmalloc : zheap -> nat) (junk : nat -> option nat * (option nat * Z)).

(** The fields of a new node that are not set hold [junk]. *)
Definition zslCreateNode (h : zheap) (lvl : nat) (s : spec_float) (e : option (list Z)) : zheap * nat :=
  let x := zmalloc h in
  (<[x := Node e s (junk x).1 (replicate lvl (junk x).2)]> h, x).

Definition zslCreate (h : zheap) : zheap * zskiplist :=
  let '(h, x) := zslCreateNode h ZSKIPLIST_MAXLEVEL (S754_zero false) None in
  let h := <[x := Node None (S754_zero false) None (replicate ZSKIPLIST_MAXLEVEL (None, 0))]> h in
  (h, Zskiplist x None 0 1).

Definition zslFreeNode (h : zheap) (x : nat) : option zheap := _ ← h !! x; Some (delete x h).

Fixpoint free_nodes (fuel : nat) (h : zheap) (node : option nat) : option zheap :=
  match fuel, node with
  | _, None => Some h
  | O, Some _ => None
  | S fuel, Some x =>
      l ← lev h x 0;
      h ← zslFreeNode h x;
      free_nodes fuel h l.1
  end.

Definition zslFree (h : zheap) (zsl : zskiplist) : option zheap :=
  l ← lev h (zsl_header zsl) 0;
  let h := delete (zsl_header zsl) h in
  free_nodes (size h) h l.1.

(** ** Insertion *)

(** [(int)(ZSKIPLIST_P * RAND_MAX)] *)
Definition threshold : Z := 536870911.

(** [None] when [random] has returned no number that ends the loop. *)
Fixpoint random_level (draws : list Z) (lvl : nat) : option nat :=
  match draws with
  | [] => None
  | r :: draws => if r <? threshold then random_level draws (S lvl) else Some lvl
  end.

Definition zslRandomLevel (draws : list Z) : option nat :=
  lvl ← random_level draws 1; Some (if (lvl <? ZSKIPLIST_MAXLEVEL)%nat then lvl else ZSKIPLIST_MAXLEVEL).

(** The header at the [k] levels from [i] spans the whole list. *)
Fixpoint raise_levels (h : zheap) (zsl : zskiplist) (i k : nat) : option zheap :=
  match k with
  | O => Some h
  | S k =>
      l ← lev h (zsl_header zsl) i;
      h ← set_lev h (zsl_header zsl) i (l.1, zsl_length zsl);
      raise_levels h zsl (S i) k
  end.

(** [x] is linked after [update[i]] on each of its levels. *)
Fixpoint link_levels (h : zheap) (x : nat) (rank0 : Z) (i : nat) (us : list (nat * Z)) : option zheap :=
  match us with
  | [] => Some h
  | (u, rank) :: us =>
      l ← lev h u i;
      h ← set_lev h x i (l.1, wrapu 64 (l.2 - (rank0 - rank)));
      h ← set_lev h u i (Some x, wrapu 64 (rank0 - rank + 1));
      link_levels h x rank0 (S i) us
  end.

Fixpoint bump_levels (h : zheap) (i : nat) (us : list (nat * Z)) : option zheap :=
  match us with
  | [] => Some h
  | (u, _) :: us =>
      l ← lev h u i;
      h ← set_lev h u i (l.1, wrapu 64 (l.2 + 1));
      bump_levels h (S i) us
  end.

Definition zslInsert (draws : list Z) (h : zheap) (zsl : zskiplist) (s : spec_float) (e : list Z) :
    option (zheap * zskiplist * nat) :=
  if isnan s then None
  else
    us ← search h (fun _ => node_before false s e) (zsl_level zsl) (zsl_header zsl) 0;
    lvl ← zslRandomLevel draws;
    r ← (if (zsl_level zsl <? lvl)%nat then
           h ← raise_levels h zsl (zsl_level zsl) (lvl - zsl_level zsl);
           Some (h, us ++ replicate (lvl - zsl_level zsl) (zsl_header zsl, 0), lvl)
         else Some (h, us, zsl_level zsl));
    let '(h, us, newlevel) := r in
    let '(h, x) := zslCreateNode h lvl s (Some e) in
    u0 ← us !! 0%nat;
    h ← link_levels h x u0.2 0 (take lvl us);
    h ← bump_levels h lvl (drop lvl us);
    h ← set_backward h x (if decide (u0.1 = zsl_header zsl) then None else Some u0.1);
    l ← lev h x 0;
    let len := wrapu 64 (zsl_length zsl + 1) in
    match l.1 with
    | Some f =>
        h ← set_backward h f (Some x);
        Some (h, Zskiplist (zsl_header zsl) (zsl_tail zsl) len newlevel, x)
    | None => Some (h, Zskiplist (zsl_header zsl) (Some x) len newlevel, x)
    end.

(** ** Deletion *)

Fixpoint unlink_levels (h : zheap) (x i : nat) (us : list (nat * Z)) : option zheap :=
  match us with
  | [] => Some h
  | (u, _) :: us =>
      l ← lev h u i;
      h ← (if decide (l.1 = Some x) then
             xl ← lev h x i; set_lev h u i (xl.1, wrapu 64 (l.2 + (xl.2 - 1)))
           else set_lev h u i (l.1, wrapu 64 (l.2 - 1)));
      unlink_levels h x (S i) us
  end.

Fixpoint shrink_level (h : zheap) (header lvl : nat) : option nat :=
  match lvl with
  | S ((S _) as lvl') =>
      l ← lev h header lvl';
      match l.1 with None => shrink_level h header lvl' | Some _ => Some lvl end
  | _ => Some lvl
  end.

Definition zslDeleteNode (h : zheap) (zsl : zskiplist) (x : nat) (us : list (nat * Z)) : option (zheap * zskiplist) :=
  h ← (if (zsl_level zsl <=? length us)%nat then unlink_levels h x 0 (take (zsl_level zsl) us) else None);
  n ← h !! x;
  l ← level n !! 0%nat;
  r ← match l.1 with
      | Some f => h ← set_backward h f (backward n); Some (h, zsl_tail zsl)
      | None => Some (h, backward n)
      end;
  let '(h, tl) := r in
  lvl ← shrink_level h (zsl_header zsl) (zsl_level zsl);
  Some (h, Zskiplist (zsl_header zsl) tl (wrapu 64 (zsl_length zsl - 1)) lvl).

(** The node after [update[0]]. *)
Definition after (h : zheap) (us : list (nat * Z)) : option (option nat) :=
  u0 ← us !! 0%nat; l ← lev h u0.1 0; Some l.1.

(** The node deleted, or [None] when there is no such element; [keep] is a
    [node] that is not NULL: the node is then not freed. *)
Definition zslDelete (keep : bool) (h : zheap) (zsl : zskiplist) (s : spec_float) (e : list Z) :
    option (zheap * zskiplist * option nat) :=
  us ← search h (fun _ => node_before false s e) (zsl_level zsl) (zsl_header zsl) 0;
  x ← after h us;
  match x with
  | None => Some (h, zsl, None)
  | Some x =>
      n ← h !! x;
      found ← node_is s e n;
      if (found : bool) then
        r ← zslDeleteNode h zsl x us;
        let '(h, zsl) := r in
        h ← (if keep then Some h else zslFreeNode h x);
        Some (h, zsl, Some x)
      else Some (h, zsl, None)
  end.

(** Whether the node may keep its place with the new score. *)
Definition keeps_place (h : zheap) (n : zskiplistNode) (newscore : spec_float) : option bool :=
  b ← match backward n with
      | None => Some true
      | Some b => bn ← h !! b; Some (SFltb (score bn) newscore)
      end;
  if (b : bool) then
    l ← level n !! 0%nat;
    match l.1 with
    | None => Some true
    | Some f => fn ← h !! f; Some (SFltb newscore (score fn))
    end
  else Some false.

Definition zslUpdateScore (draws : list Z) (h : zheap) (zsl : zskiplist) (curscore : spec_float) (e : list Z)
    (newscore : spec_float) : option (zheap * zskiplist * nat) :=
  us ← search h (fun _ => node_before false curscore e) (zsl_level zsl) (zsl_header zsl) 0;
  x ← after h us;
  x ← x;
  n ← h !! x;
  found ← node_is curscore e n;
  if negb found then None
  else
    k ← keeps_place h n newscore;
    if (k : bool) then h ← set_score h x newscore; Some (h, zsl, x)
    else
      r ← zslDeleteNode h zsl x us;
      let '(h, zsl) := r in
      n ← h !! x;
      ne ← ele n;
      r ← zslInsert draws h zsl newscore ne;
      let '(h, zsl, newnode) := r in
      h ← zslFreeNode h x;
      Some (h, zsl, newnode).
End skiplist.

(** ** Ranges *)

Record zrangespec := Range { r_min : spec_float; r_max : spec_float; r_minex : bool; r_maxex : bool }.

Definition zslValueGteMin (value : spec_float) (spec : zrangespec) : bool :=
  if r_minex spec then SFltb (r_min spec) value else SFleb (r_min spec) value.

Definition zslValueLteMax (value : spec_float) (spec : zrangespec) : bool :=
  if r_maxex spec then SFltb value (r_max spec) else SFleb value (r_max spec).

(** A bound of a lexicographic range: [shared.minstring], [shared.maxstring]
    or a string. *)
Inductive lexbound := minstring | maxstring | lexstring (s : list Z).

Record zlexrangespec := LexRange { l_min : lexbound; l_max : lexbound; l_minex : bool; l_maxex : bool }.

(** The two shared strings are compared by address. *)
Definition sdscmplex (a b : lexbound) : Z :=
  match a, b with
  | minstring, minstring | maxstring, maxstring => 0
  | minstring, _ | _, maxstring => -1
  | maxstring, _ | _, minstring => 1
  | lexstring a, lexstring b => sdscmp a b
  end.

Definition zslLexValueGteMin (value : list Z) (spec : zlexrangespec) : bool :=
  let c := sdscmplex (lexstring value) (l_min spec) in if l_minex spec then 0 <? c else 0 <=? c.

Definition zslLexValueLteMax (value : list Z) (spec : zlexrangespec) : bool :=
  let c := sdscmplex (lexstring value) (l_max spec) in if l_maxex spec then c <? 0 else c <=? 0.

(** The two tests of a range on a node, and whether the range is always empty. *)
Record node_range := NodeRange {
  gte_min : zskiplistNode -> option bool;
  lte_max : zskiplistNode -> option bool;
  always_empty : bool }.

Definition score_range (range : zrangespec) : node_range :=
  NodeRange (fun n => Some (zslValueGteMin (score n) range)) (fun n => Some (zslValueLteMax (score n) range))
    (SFltb (r_max range) (r_min range) || (SFeqb (r_min range) (r_max range) && (r_minex range || r_maxex range))).

Definition lex_range (range : zlexrangespec) : node_range :=
  let cmp := sdscmplex (l_min range) (l_max range) in
  NodeRange (fun n => e ← ele n; Some (zslLexValueGteMin e range)) (fun n => e ← ele n; Some (zslLexValueLteMax e range))
    ((0 <? cmp) || ((cmp =? 0) && (l_minex range || l_maxex range))).

(** The node is NULL or fails the test. *)
Definition fails (h : zheap) (test : zskiplistNode -> option bool) (x : option nat) : option bool :=
  match x with
  | None => Some true
  | Some x => n ← h !! x; b ← test n; Some (negb b)
  end.

Definition is_in_range (h : zheap) (zsl : zskiplist) (range : node_range) : option bool :=
  if always_empty range then Some false
  else
    f ← fails h (gte_min range) (zsl_tail zsl);
    if (f : bool) then Some false
    else
      l ← lev h (zsl_header zsl) 0;
      f ← fails h (lte_max range) l.1;
      Some (negb f).

Definition zslIsInRange h zsl range := is_in_range h zsl (score_range range).
Definition zslIsInLexRange h zsl range := is_in_range h zsl (lex_range range).

(** ** Ranks *)

(** The levels below [lvl]; the rank is returned at the level where the
    element is reached. *)
Fixpoint rank_levels (h : zheap) (s : spec_float) (e : list Z) (lvl x : nat) (rank : Z) : option Z :=
  match lvl with
  | O => Some 0
  | S i =>
      r ← walk (S (size h)) h (fun _ => node_before true s e) i x rank;
      n ← h !! r.1;
      found ← match ele n with None => Some false | Some _ => node_is s e n end;
      if (found : bool) then Some r.2 else rank_levels h s e i r.1 r.2
  end.

Definition zslGetRank (h : zheap) (zsl : zskiplist) (s : spec_float) (e : list Z) : option Z :=
  rank_levels h s e (zsl_level zsl) (zsl_header zsl) 0.

(** The inner option is NULL. *)
Fixpoint by_rank (h : zheap) (rank : Z) (lvl x : nat) (traversed : Z) : option (option nat) :=
  match lvl with
  | O => Some None
  | S i =>
      r ← walk (S (size h)) h (fun t _ => Some (t <=? rank)) i x traversed;
      if r.2 =? rank then Some (Some r.1) else by_rank h rank i r.1 r.2
  end.

(** [start_level] counts the levels: one more than in the code. *)
Definition zslGetElementByRankFromNode (h : zheap) (start_node start_level : nat) (rank : Z) : option (option nat) :=
  by_rank h rank start_level start_node 0.

Definition zslGetElementByRank (h : zheap) (zsl : zskiplist) (rank : Z) : option (option nat) :=
  zslGetElementByRankFromNode h (zsl_header zsl) (zsl_level zsl) rank.

(** [k] steps forward on level 0, or backward. *)
Fixpoint steps_forward (h : zheap) (k : nat) (x : option nat) : option (option nat) :=
  match k with
  | O => Some x
  | S k => x ← x; l ← lev h x 0; steps_forward h k l.1
  end.

Fixpoint steps_backward (h : zheap) (k : nat) (x : option nat) : option (option nat) :=
  match k with
  | O => Some x
  | S k => x ← x; n ← h !! x; steps_backward h k (backward n)
  end.

(** The node when it passes the test, else NULL. *)
Definition checked_node (h : zheap) (test : zskiplistNode -> option bool) (x : option nat) : option (option nat) :=
  match x with
  | None => Some None
  | Some p => n ← h !! p; b ← test n; Some (if (b : bool) then x else None)
  end.

(** Where [search] ends. *)
Definition search_end (us : list (nat * Z)) (x : nat) (rank : Z) : nat * Z := default (x, rank) (us !! 0%nat).

(** The part for [n >= 0], from the last node of the top level before the
    range and its rank. *)
Definition nth_from_start (h : zheap) (zsl : zskiplist) (range : node_range) (n : Z) (hx : nat) (hrank : Z) :
    option (option nat) :=
  us ← search h (fun _ f => b ← gte_min range f; Some (negb b)) (zsl_level zsl - 1) hx hrank;
  let '(x, edge_rank) := search_end us hx hrank in
  if zsl_length zsl <=? wrapu 64 (edge_rank + n) then Some None
  else
    x ← (if n <? ZSKIPLIST_MAX_SEARCH then steps_forward h (Z.to_nat (n + 1)) (Some x)
         else zslGetElementByRankFromNode h hx (zsl_level zsl) (wrapu 64 (edge_rank + 1 + n - hrank)));
    checked_node h (lte_max range) x.

Definition nth_from_end (h : zheap) (zsl : zskiplist) (range : node_range) (n : Z) (hx : nat) (hrank : Z) :
    option (option nat) :=
  us ← search h (fun _ => lte_max range) (zsl_level zsl) hx hrank;
  let '(x, edge_rank) := search_end us hx hrank in
  if edge_rank <? wraps 64 (- n) then Some None
  else
    x ← (if - ZSKIPLIST_MAX_SEARCH <? n + 1 then steps_backward h (Z.to_nat (- n - 1)) (Some x)
         else zslGetElementByRankFromNode h hx (zsl_level zsl) (wrapu 64 (edge_rank + 1 + n - hrank)));
    checked_node h (gte_min range) x.

Definition nth_in_range (h : zheap) (zsl : zskiplist) (range : node_range) (n : Z) : option (option nat) :=
  inr ← is_in_range h zsl range;
  if negb inr then Some None
  else
    top ← walk (S (size h)) h (fun _ f => b ← gte_min range f; Some (negb b)) (zsl_level zsl - 1) (zsl_header zsl) 0;
    if 0 <=? n then nth_from_start h zsl range n top.1 top.2 else nth_from_end h zsl range n top.1 top.2.

Definition zslNthInRange h zsl range n := nth_in_range h zsl (score_range range) n.
Definition zslNthInLexRange h zsl range n := nth_in_range h zsl (lex_range range) n.

(** ** Deleting ranges *)

Section delete_range.
  Context {D : Type} (dictDelete : D -> list Z -> option D).

(** The nodes from [x] are deleted, from the dict too, while [go] holds;
    [traversed] is the rank of [x]. *)
Fixpoint delete_nodes (fuel : nat) (h : zheap) (zsl : zskiplist) (d : D) (us : list (nat * Z))
    (go : Z -> zskiplistNode -> option bool) (x : option nat) (traversed removed : Z) :
    option (zheap * zskiplist * D * Z) :=
  match fuel, x with
  | _, None => Some (h, zsl, d, removed)
  | O, Some _ => None
  | S fuel, Some x =>
      n ← h !! x;
      g ← go traversed n;
      if (g : bool) then
        l ← level n !! 0%nat;
        r ← zslDeleteNode h zsl x us;
        let '(h, zsl) := r in
        n ← h !! x;
        e ← ele n;
        d ← dictDelete d e;
        h ← zslFreeNode h x;
        delete_nodes fuel h zsl d us go l.1 (wrapu 64 (traversed + 1)) (wrapu 64 (removed + 1))
      else Some (h, zsl, d, removed)
  end.

(** By score or lexicographically. *)
Definition delete_range (h : zheap) (zsl : zskiplist) (range : node_range) (d : D) : option (zheap * zskiplist * D * Z) :=
  us ← search h (fun _ f => b ← gte_min range f; Some (negb b)) (zsl_level zsl) (zsl_header zsl) 0;
  x ← after h us;
  delete_nodes (size h) h zsl d us (fun _ => lte_max range) x 0 0.

Definition zslDeleteRangeByScore h zsl range d := delete_range h zsl (score_range range) d.
Definition zslDeleteRangeByLex h zsl range d := delete_range h zsl (lex_range range) d.

Definition zslDeleteRangeByRank (h : zheap) (zsl : zskiplist) (start end_ : Z) (d : D) :
    option (zheap * zskiplist * D * Z) :=
  us ← search h (fun t _ => Some (t <? start)) (zsl_level zsl) (zsl_header zsl) 0;
  x ← after h us;
  u0 ← us !! 0%nat;
  delete_nodes (size h) h zsl d us (fun t _ => Some (t <=? end_)) x (wrapu 64 (u0.2 + 1)) 0.
End delete_range.

(** ** Arguments of lexicographic ranges *)

(** The first character and what follows, of a string ended by NUL. *)
Definition zslParseLexRangeItem (c : list Z) : option (lexbound * bool) :=
  match c with
  | 43 :: rest => if decide (default 0 (head rest) = 0) then Some (maxstring, true) else None
  | 45 :: rest => if decide (default 0 (head rest) = 0) then Some (minstring, true) else None
  | 40 :: rest => Some (lexstring rest, true)
  | 91 :: rest => Some (lexstring rest, false)
  | _ => None
  end.

(** The arguments are not integer-encoded. *)
Definition zslParseLexRange (min max : list Z) : option zlexrangespec :=
  a ← zslParseLexRangeItem min;
  b ← zslParseLexRangeItem max;
  Some (LexRange a.1 b.1 a.2 b.2).
