(* ===== verification/SkiplistSpec.v ===== *)
(** * The shape of a skiplist

    The orders on scores and strings, the relation [rep] between a skiplist
    in a heap and the list of its elements, and the search along its levels. *)
From S2P Require Import Prelude Skiplist.
From Stdlib Require Import ZArith Lia SpecFloat.
From stdpp Require Import prelude list gmap sorting.

#[local] Open Scope Z_scope.

(** ** Scores *)

(** The place of a number in the order; zeros of both signs share it. *)
Definition fkey (x : spec_float) : Z * Z * Z :=
  match x with
  | S754_zero _ => (0, 0, 0)
  | S754_infinity s => (if s then -2 else 2, 0, 0)
  | S754_nan => (3, 0, 0)
  | S754_finite true m e => (-1, - e, - Zpos m)
  | S754_finite false m e => (1, e, Zpos m)
  end.

Definition lex3 (a b : Z * Z * Z) : Prop :=
  let '(a1, a2, a3) := a in let '(b1, b2, b3) := b in
  a1 < b1 \/ (a1 = b1 /\ (a2 < b2 \/ (a2 = b2 /\ a3 < b3))).

Lemma SFcompare_key x y :
  isnan x = false -> isnan y = false ->
  match SFcompare x y with
  | Some Lt => lex3 (fkey x) (fkey y)
  | Some Eq => fkey x = fkey y
  | Some Gt => lex3 (fkey y) (fkey x)
  | None => False
  end.
Proof.
  intros Hx Hy. destruct x as [sx|sx| |sx mx ex], y as [sy|sy| |sy my ey]; try done;
    cbn [SFcompare fkey lex3]; try destruct sx; try destruct sy; cbn [fkey lex3]; try lia; try done;
    destruct (Z.compare_spec ex ey) as [<-|?|?]; cbn [lex3]; try lia;
    change (PosDef.Pos.compare_cont Eq mx my) with (Pos.compare mx my);
    destruct (Pos.compare_spec mx my) as [<-|?|?]; cbn [CompOpp lex3]; done || lia.
Qed.

Definition flt (x y : spec_float) : Prop := lex3 (fkey x) (fkey y).
Definition feq (x y : spec_float) : Prop := fkey x = fkey y.

#[export] Instance feq_equiv : Equivalence feq.
Proof. split; unfold feq; [by intros ?|by intros ??|by intros ??? -> ->]. Qed.

#[export] Instance flt_proper : Proper (feq ==> feq ==> iff) flt.
Proof. unfold feq, flt. by intros ?? -> ?? ->. Qed.

Lemma lex3_irrefl a : ~ lex3 a a.
Proof. destruct a as [[a1 a2] a3]. cbn. lia. Qed.

Lemma lex3_trans a b c : lex3 a b -> lex3 b c -> lex3 a c.
Proof. destruct a as [[??]?], b as [[??]?], c as [[??]?]. cbn. lia. Qed.

Lemma lex3_total a b : lex3 a b \/ a = b \/ lex3 b a.
Proof.
  destruct a as [[a1 a2] a3], b as [[b1 b2] b3]. cbn.
  destruct (Z.lt_total a1 b1) as [?|[->|?]], (Z.lt_total a2 b2) as [?|[->|?]], (Z.lt_total a3 b3) as [?|[->|?]];
    try (left; lia); try (right; right; lia). by right; left.
Qed.

Lemma flt_irrefl x : ~ flt x x.
Proof. apply lex3_irrefl. Qed.

Lemma flt_trans x y z : flt x y -> flt y z -> flt x z.
Proof. apply lex3_trans. Qed.

Lemma flt_total x y : flt x y \/ feq x y \/ flt y x.
Proof. apply lex3_total. Qed.

Ltac sf_case x y Hx Hy :=
  pose proof (SFcompare_key x y Hx Hy) as Hc; unfold SFltb, SFeqb, SFleb, flt, feq in *;
  destruct (SFcompare x y) as [[]|]; try done.

Lemma SFltb_flt x y : isnan x = false -> isnan y = false -> SFltb x y = true <-> flt x y.
Proof.
  intros Hx Hy. sf_case x y Hx Hy.
  - rewrite Hc. split; [done|]. by intros ?%lex3_irrefl.
  - split; [done|]. intros H. by destruct (lex3_irrefl _ (lex3_trans _ _ _ H Hc)).
Qed.

Lemma SFeqb_feq x y : isnan x = false -> isnan y = false -> SFeqb x y = true <-> feq x y.
Proof.
  intros Hx Hy. sf_case x y Hx Hy; split; try done; intros E; rewrite E in Hc; by apply lex3_irrefl in Hc.
Qed.

Lemma SFleb_fle x y : isnan x = false -> isnan y = false -> SFleb x y = true <-> ~ flt y x.
Proof.
  intros Hx Hy. sf_case x y Hx Hy.
  - rewrite Hc. split; [|done]. intros _. apply lex3_irrefl.
  - split; [|done]. intros _ H. by destruct (lex3_irrefl _ (lex3_trans _ _ _ H Hc)).
Qed.

(** ** Strings *)

(** Lexicographic comparison, the shorter of two prefixes first. *)
Fixpoint lexcmp (a b : list Z) : Z :=
  match a, b with
  | [], [] => 0
  | [], _ :: _ => -1
  | _ :: _, [] => 1
  | x :: a, y :: b => if x =? y then lexcmp a b else if x <? y then -1 else 1
  end.

Lemma sdscmp_lexcmp a b : sdscmp a b = lexcmp a b.
Proof.
  revert b. induction a as [|x a IH]; intros [|y b]; try done.
  specialize (IH b). unfold sdscmp in *. cbn [length lexcmp].
  change (S (length a) <? S (length b))%nat with (length a <? length b)%nat.
  change (S (length b) <? S (length a))%nat with (length b <? length a)%nat.
  destruct (Nat.ltb_spec (length a) (length b)); cbn [take memcmp];
    (destruct (Z.eqb_spec x y); [exact IH|by destruct (x <? y)]).
Qed.

Lemma lexcmp_eq a b : lexcmp a b = 0 <-> a = b.
Proof.
  revert b. induction a as [|x a IH]; intros [|y b]; cbn; try done.
  destruct (Z.eqb_spec x y) as [->|]; [rewrite IH; split; congruence|]. destruct (x <? y); split; congruence.
Qed.

Lemma lexcmp_opp a b : lexcmp b a = - lexcmp a b.
Proof.
  revert b. induction a as [|x a IH]; intros [|y b]; cbn; try done. rewrite (Z.eqb_sym y x).
  destruct (Z.eqb_spec x y); [done|]. destruct (Z.ltb_spec x y), (Z.ltb_spec y x); lia.
Qed.

Lemma lexcmp_trans a b c : lexcmp a b < 0 -> lexcmp b c < 0 -> lexcmp a c < 0.
Proof.
  revert b c. induction a as [|x a IH]; intros [|y b] [|z c]; cbn; try lia.
  destruct (Z.eqb_spec x y) as [->|], (Z.eqb_spec y z) as [->|]; [apply IH| | |].
  - destruct (y =? z) eqn:E; [by apply Z.eqb_eq in E|done].
  - destruct (x =? z) eqn:E; [by apply Z.eqb_eq in E|done].
  - destruct (Z.ltb_spec x y), (Z.ltb_spec y z); try lia. intros _ _.
    destruct (Z.eqb_spec x z); [lia|]. destruct (Z.ltb_spec x z); lia.
Qed.

(** ** Elements *)

(** A node as the list has it: its address, levels, score and string. *)
Record cell := Cell { c_ptr : nat; c_height : nat; c_score : spec_float; c_ele : list Z }.

Abbreviation key := (spec_float * list Z)%type.
Definition c_key (c : cell) : key := (c_score c, c_ele c).

Definition klt (a b : key) : Prop := flt a.1 b.1 \/ (feq a.1 b.1 /\ lexcmp a.2 b.2 < 0).
Definition keq (a b : key) : Prop := feq a.1 b.1 /\ a.2 = b.2.

Lemma klt_irrefl a : ~ klt a a.
Proof.
  intros [H|[_ H]]; [by apply flt_irrefl in H|]. assert (lexcmp a.2 a.2 = 0) by (by apply lexcmp_eq). lia.
Qed.

Lemma klt_trans a b c : klt a b -> klt b c -> klt a c.
Proof.
  intros [Hab|[Eab Lab]] [Hbc|[Ebc Lbc]]; unfold klt.
  - left. by eapply flt_trans.
  - left. by rewrite <- Ebc.
  - left. by rewrite Eab.
  - right. split; [by rewrite Eab|by eapply lexcmp_trans].
Qed.

Lemma klt_total a b : klt a b \/ keq a b \/ klt b a.
Proof.
  unfold klt, keq. destruct (flt_total a.1 b.1) as [H|[H|H]]; [by left; left| |by right; right; left].
  destruct (Z.lt_total (lexcmp a.2 b.2) 0) as [L|[L|L]].
  - left. by right.
  - right; left. split; [done|by apply lexcmp_eq].
  - right; right; right. split; [done|]. rewrite lexcmp_opp. lia.
Qed.

#[export] Instance klt_keq_proper : Proper (keq ==> keq ==> iff) klt.
Proof. intros a b [E1 E2] c d [E3 E4]. unfold klt. by rewrite E1, E2, E3, E4. Qed.

#[export] Instance keq_equiv : Equivalence keq.
Proof.
  split; [by intros ?|by intros a b [E1 E2]; split|]. intros a b c [E1 E2] [E3 E4]. split; [by rewrite E1|congruence].
Qed.

(** The comparisons of the code on a node that holds a cell. *)
Definition node_of (c : cell) (n : zskiplistNode) : Prop := ele n = Some (c_ele c) /\ score n = c_score c.

Definition good (c : cell) : Prop := isnan (c_score c) = false.

Lemma node_before_spec eq s e c n :
  node_of c n -> good c -> isnan s = false ->
  exists b, node_before eq s e n = Some b /\ (b = true <-> klt (c_key c) (s, e) \/ (eq = true /\ keq (c_key c) (s, e))).
Proof.
  intros [He Hs] Hg Hn. unfold node_before, klt, keq. rewrite Hs, He. cbn.
  pose proof (SFltb_flt (c_score c) s Hg Hn) as Hlt. pose proof (SFeqb_feq (c_score c) s Hg Hn) as Heq.
  destruct (SFltb (c_score c) s) eqn:E1; [exists true; tauto|].
  destruct (SFeqb (c_score c) s) eqn:E2; rewrite ?sdscmp_lexcmp.
  - eexists. split; [done|]. assert (feq (c_score c) s) as F by tauto.
    assert (~ flt (c_score c) s) by (intros H%Hlt; done). pose proof (lexcmp_eq (c_ele c) e).
    destruct eq; [rewrite Z.leb_le|rewrite Z.ltb_lt]; split; intros H1.
    + destruct (decide (lexcmp (c_ele c) e = 0)); [right; tauto|left; right; split; [done|lia]].
    + destruct H1 as [[?|[_ ?]]|[_ [_ ->]]]; [done|lia|]. assert (lexcmp e e = 0) by (by apply lexcmp_eq). lia.
    + left. right. tauto.
    + destruct H1 as [[?|[_ ?]]|[? _]]; done.
  - eexists. split; [done|]. split; [done|]. intros [[H%Hlt|[H%Heq _]]|[_ [H%Heq _]]]; done.
Qed.

Lemma node_is_spec s e c n :
  node_of c n -> good c -> isnan s = false ->
  exists b, node_is s e n = Some b /\ (b = true <-> keq (c_key c) (s, e)).
Proof.
  intros [He Hs] Hg Hn. unfold node_is, keq. rewrite Hs, He. cbn. pose proof (SFeqb_feq s (c_score c) Hn Hg) as Heq.
  assert (feq s (c_score c) <-> feq (c_score c) s) as Hsym by (by split; intros ->).
  destruct (SFeqb s (c_score c)); eexists; (split; [done|]).
  - rewrite sdscmp_lexcmp, Z.eqb_eq, lexcmp_eq. tauto.
  - split; [done|]. intros [F _]. by apply Heq, Hsym in F || (apply Hsym, Heq in F).
Qed.

(** ** Levels *)

(** What a node before the list [s] has at level [i]: the first node that is
    high enough and its distance, or NULL and the length of the list. *)
Fixpoint fwd (i : nat) (s : list cell) : option nat * Z :=
  match s with
  | [] => (None, 0)
  | c :: s =>
      if (i <? c_height c)%nat then (Some (c_ptr c), 1)
      else let r := fwd i s in (r.1, r.2 + 1)
  end.

Definition tall (i : nat) (c : cell) : Prop := (i < c_height c)%nat.
#[export] Instance tall_dec i c : Decision (tall i c) := decide (i < c_height c)%nat.

Lemma fwd_none i s : Forall (fun c => ~ tall i c) s -> fwd i s = (None, Z.of_nat (length s)).
Proof.
  induction 1 as [|c s Hc Hs IH]; [done|]. cbn [fwd length]. unfold tall in Hc.
  destruct (Nat.ltb_spec i (c_height c)); [lia|]. rewrite IH. cbn. f_equal. lia.
Qed.

Lemma fwd_app_short i s1 s2 :
  Forall (fun c => ~ tall i c) s1 -> fwd i (s1 ++ s2) = ((fwd i s2).1, Z.of_nat (length s1) + (fwd i s2).2).
Proof.
  induction 1 as [|c s Hc Hs IH]; [cbn; by destruct (fwd i s2) as [? []]|]. cbn [fwd length app]. unfold tall in Hc.
  destruct (Nat.ltb_spec i (c_height c)); [lia|]. rewrite IH. cbn. f_equal. lia.
Qed.

Lemma fwd_app_tall i s1 s2 : Exists (tall i) s1 -> fwd i (s1 ++ s2) = fwd i s1.
Proof.
  induction s1 as [|c s IH]; [by intros ?%Exists_nil|]. intros [H|H]%Exists_cons; cbn [fwd app].
  - unfold tall in H. by destruct (Nat.ltb_spec i (c_height c)); [|lia].
  - destruct (i <? c_height c)%nat; [done|]. by rewrite IH.
Qed.

(** The first high node splits the list. *)
Lemma fwd_some i s :
  Exists (tall i) s -> exists s1 c s2, s = s1 ++ c :: s2 /\ tall i c /\ Forall (fun c => ~ tall i c) s1 /\
    fwd i s = (Some (c_ptr c), Z.of_nat (length s1) + 1).
Proof.
  induction s as [|c s IH]; [by intros ?%Exists_nil|]. intros H.
  destruct (decide (tall i c)) as [Ht|Ht].
  - exists [], c, s. split_and!; [done|done|constructor|]. cbn [fwd]. unfold tall in Ht. by destruct (Nat.ltb_spec i (c_height c)); [|lia].
  - apply Exists_cons in H as [?|H]; [done|]. destruct (IH H) as (s1 & d & s2 & -> & Hd & Hs1 & E).
    exists (c :: s1), d, s2. split_and!; [done|done|by constructor|]. cbn [fwd]. unfold tall in Ht.
    destruct (Nat.ltb_spec i (c_height c)); [lia|]. rewrite E. cbn [fst snd length]. f_equal. lia.
Qed.

(** ** The heap of a skiplist *)

(** The parts of a node that searches do not follow. *)
Definition static (h : zheap) (p : nat) : option (option (list Z) * spec_float * nat) :=
  (fun n => (ele n, score n, length (level n))) <$> h !! p.
Definition back (h : zheap) (p : nat) : option (option nat) := backward <$> h !! p.

(** Positions: 0 is the header, [S k] the element at [k]. *)
Definition ptr_at (zsl : zskiplist) (l : list cell) (k : nat) : option nat :=
  match k with O => Some (zsl_header zsl) | S k => c_ptr <$> l !! k end.

Definition tall_at (lvl : nat) (l : list cell) (k i : nat) : Prop :=
  match k with O => (i < lvl)%nat | S k => exists c, l !! k = Some c /\ tall i c end.

Definition addresses (zsl : zskiplist) (l : list cell) (extra : list nat) : list nat :=
  zsl_header zsl :: (c_ptr <$> l) ++ extra.

(** The nodes of the skiplist are those of the list, linked at each level with
    the right spans; [extra] are other nodes of the heap. *)
Record shape (extra : list nat) (h : zheap) (zsl : zskiplist) (l : list cell) : Prop := {
  sh_dom : forall p, is_Some (h !! p) <-> p ∈ addresses zsl l extra;
  sh_nodup : NoDup (addresses zsl l extra);
  sh_header : exists s, static h (zsl_header zsl) = Some (None, s, ZSKIPLIST_MAXLEVEL);
  sh_top : forall i, (zsl_level zsl <= i < ZSKIPLIST_MAXLEVEL)%nat -> exists sp, lev h (zsl_header zsl) i = Some (None, sp);
  sh_lev : forall k p i, ptr_at zsl l k = Some p -> tall_at (zsl_level zsl) l k i -> lev h p i = Some (fwd i (drop k l));
  sh_cell : forall k c, l !! k = Some c -> static h (c_ptr c) = Some (Some (c_ele c), c_score c, c_height c);
  sh_back : forall k c, l !! k = Some c ->
    back h (c_ptr c) = Some (match k with O => None | S k => c_ptr <$> l !! k end);
  sh_tail : zsl_tail zsl = c_ptr <$> last l;
  sh_length : zsl_length zsl = Z.of_nat (length l);
  sh_bound : Z.of_nat (length l) < 2 ^ 63;
  sh_heights : Forall (fun c => 1 <= c_height c <= zsl_level zsl)%nat l;
  sh_level : (1 <= zsl_level zsl <= ZSKIPLIST_MAXLEVEL)%nat;
  sh_max : zsl_level zsl = 1%nat \/ Exists (fun c => c_height c = zsl_level zsl) l }.

Arguments sh_dom {_ _ _ _}. Arguments sh_nodup {_ _ _ _}. Arguments sh_header {_ _ _ _}. Arguments sh_top {_ _ _ _}.
Arguments sh_lev {_ _ _ _}. Arguments sh_cell {_ _ _ _}. Arguments sh_back {_ _ _ _}. Arguments sh_tail {_ _ _ _}.
Arguments sh_length {_ _ _ _}. Arguments sh_bound {_ _ _ _}. Arguments sh_heights {_ _ _ _}.
Arguments sh_level {_ _ _ _}. Arguments sh_max {_ _ _ _}.

(** And its elements are in order. *)
Definition key_order (a b : cell) : Prop := klt (c_key a) (c_key b).

Record rep (extra : list nat) (h : zheap) (zsl : zskiplist) (l : list cell) : Prop := {
  rep_shape : shape extra h zsl l;
  rep_good : Forall good l;
  rep_sorted : StronglySorted key_order l }.

Arguments rep_shape {_ _ _ _}. Arguments rep_good {_ _ _ _}. Arguments rep_sorted {_ _ _ _}.

(** ** Positions *)

(** The last position up to [a] that is high enough. *)
Fixpoint last_tall (l : list cell) (i a : nat) : nat :=
  match a with
  | O => 0
  | S a => match l !! a with
           | Some c => if decide (tall i c) then S a else last_tall l i a
           | None => last_tall l i a
           end
  end.

Lemma last_tall_le l i a : (last_tall l i a <= a)%nat.
Proof. induction a as [|a IH]; cbn [last_tall]; [done|]. repeat case_match; lia. Qed.

Lemma last_tall_tall lvl l i a : (i < lvl)%nat -> tall_at lvl l (last_tall l i a) i.
Proof. intros Hi. induction a as [|a IH]; cbn [last_tall]; [done|]. repeat case_match; try done. by eexists. Qed.

Lemma last_tall_ge lvl l i a k : tall_at lvl l k i -> (k <= a)%nat -> (k <= last_tall l i a)%nat.
Proof.
  intros Hk. induction a as [|a IH]; cbn [last_tall]; [lia|]. intros Ha.
  destruct (decide (k = S a)) as [->|]; [|repeat case_match; lia].
  destruct Hk as (c & -> & Hc). by rewrite decide_True.
Qed.

Lemma last_tall_unique lvl l i a k :
  tall_at lvl l k i -> (k <= a)%nat -> (forall m, (k < m <= a)%nat -> ~ tall_at lvl l m i) -> (i < lvl)%nat -> last_tall l i a = k.
Proof.
  intros Hk Ha Hm Hi. pose proof (last_tall_ge lvl l i a k Hk Ha). pose proof (last_tall_le l i a).
  destruct (decide (k < last_tall l i a)%nat); [|lia]. by destruct (Hm (last_tall l i a)); [lia|apply last_tall_tall].
Qed.

Lemma last_tall_anti l i j a : (i <= j)%nat -> (last_tall l j a <= last_tall l i a)%nat.
Proof.
  intros Hij. induction a as [|a IH]; cbn [last_tall]; [done|]. destruct (l !! a) as [c|]; [|done].
  pose proof (last_tall_le l j a). unfold tall. destruct (decide (j < c_height c)%nat), (decide (i < c_height c)%nat); lia.
Qed.

Lemma last_tall_zero lvl l a :
  Forall (fun c => 1 <= c_height c <= lvl)%nat l -> (a <= length l)%nat -> last_tall l 0 a = a.
Proof.
  intros Hh Ha. destruct a as [|a]; [done|]. cbn [last_tall].
  destruct (lookup_lt_is_Some_2 l a) as [c Hc]; [lia|]. rewrite Hc.
  rewrite decide_True; [done|]. eapply Forall_lookup_1 in Hh; [|done]. unfold tall. lia.
Qed.

Lemma tall_at_split lvl l k i s1 c s2 m :
  drop k l = s1 ++ c :: s2 -> Forall (fun c => ~ tall i c) s1 -> (k < m <= k + length s1)%nat -> ~ tall_at lvl l m i.
Proof.
  intros E Hs Hm. destruct m as [|m]; [lia|]. intros (d & Hd & Ht).
  assert ((s1 ++ c :: s2) !! (m - k)%nat = Some d) as H by (rewrite <- E, lookup_drop; by replace (k + (m - k))%nat with m by lia).
  rewrite lookup_app_l in H by lia. eapply Forall_lookup_1 in Hs; [|done]. done.
Qed.

Lemma tall_at_none lvl l k i m :
  Forall (fun c => ~ tall i c) (drop k l) -> (k < m)%nat -> ~ tall_at lvl l m i.
Proof.
  intros Hs Hm. destruct m as [|m]; [lia|]. intros (d & Hd & Ht).
  assert (drop k l !! (m - k)%nat = Some d) as H by (rewrite lookup_drop; by replace (k + (m - k))%nat with m by lia).
  eapply Forall_lookup_1 in Hs; [|done]. done.
Qed.

(** ** Searching *)

Definition ptr (zsl : zskiplist) (l : list cell) (k : nat) : nat := default (zsl_header zsl) (ptr_at zsl l k).

Lemma ptr_at_ptr zsl l k : (k <= length l)%nat -> ptr_at zsl l k = Some (ptr zsl l k).
Proof.
  intros Hk. unfold ptr. destruct k as [|k]; [done|]. cbn [ptr_at].
  destruct (lookup_lt_is_Some_2 l k) as [c ->]; [lia|done].
Qed.

(** The loop condition holds exactly for the first [a] elements. *)
Definition stops (h : zheap) (l : list cell) (go : Z -> zskiplistNode -> option bool) (a : nat) : Prop :=
  forall k c n, l !! k = Some c -> h !! c_ptr c = Some n -> go (Z.of_nat (S k)) n = Some (bool_decide (k < a)%nat).

(** The same for a search from position [o] that counts from there. *)
Definition stops_from (o : nat) (h : zheap) (l : list cell) (go : Z -> zskiplistNode -> option bool) (a : nat) : Prop :=
  forall k c n, (o <= k)%nat -> l !! k = Some c -> h !! c_ptr c = Some n -> go (Z.of_nat (S k - o)) n = Some (bool_decide (k < a)%nat).

Section searching.
  Context {extra : list nat} {h : zheap} {zsl : zskiplist} {l : list cell} (Hsh : shape extra h zsl l).

Lemma shape_node k c : l !! k = Some c -> exists n, h !! c_ptr c = Some n /\ node_of c n /\ length (level n) = c_height c.
Proof using Hsh.
  intros Hc. pose proof (sh_cell Hsh k c Hc) as H. unfold static in H.
  destruct (h !! c_ptr c) as [n|]; [|done]. injection H as H1 H2 H3. by exists n.
Qed.

Lemma shape_size : (S (length l) <= size h)%nat.
Proof using Hsh.
  rewrite <- size_dom. assert (list_to_set (zsl_header zsl :: (c_ptr <$> l)) ⊆ dom h) as H.
  { intros p Hp. apply elem_of_list_to_set in Hp. apply elem_of_dom, (sh_dom Hsh). unfold addresses.
    apply elem_of_cons. apply elem_of_cons in Hp as [->|Hp]; [by left|right]. apply elem_of_app. by left. }
  apply subseteq_size in H. rewrite size_list_to_set in H.
  - cbn in H. by rewrite length_fmap in H.
  - pose proof (sh_nodup Hsh) as Hn. unfold addresses in Hn. rewrite app_comm_cons in Hn. by apply NoDup_app in Hn as [? _].
Qed.

Lemma rank_wrap k : (k <= length l)%nat -> wrapu 64 (Z.of_nat k) = Z.of_nat k.
Proof using Hsh. intros Hk. apply wrapu_id. pose proof (sh_bound Hsh). split; [lia|]. change (2 ^ 64) with (2 * 2 ^ 63). lia. Qed.

Lemma walk_from fuel go o a i k :
  stops_from o h l go a -> (a <= length l)%nat -> (o <= k <= a)%nat -> tall_at (zsl_level zsl) l k i -> (i < zsl_level zsl)%nat ->
  (a - k < fuel)%nat ->
  walk fuel h go i (ptr zsl l k) (Z.of_nat (k - o)) =
    Some (ptr zsl l (last_tall l i a), Z.of_nat (last_tall l i a - o)).
Proof using Hsh.
  intros Hgo Ha. revert k. induction fuel as [|fuel IH]; intros k Hk Ht Hi Hf; [lia|]. cbn [walk].
  rewrite (sh_lev Hsh k _ i (ptr_at_ptr zsl l k ltac:(lia)) Ht). mstep.
  destruct (decide (Exists (tall i) (drop k l))) as [Hex|Hno].
  - apply fwd_some in Hex as (s1 & c & s2 & E & Hc & Hs1 & ->). cbn [fst snd].
    assert (l !! (k + length s1)%nat = Some c) as Hlk.
    { rewrite <- lookup_drop, E. by rewrite lookup_app_r, Nat.sub_diag. }
    assert (k + length s1 < length l)%nat by (by apply lookup_lt_Some in Hlk).
    destruct (shape_node _ _ Hlk) as (n & Hn & _ & _). rewrite Hn. mstep.
    replace (Z.of_nat (k - o) + (Z.of_nat (length s1) + 1)) with (Z.of_nat (S (k + length s1) - o)) by lia.
    rewrite rank_wrap by lia. rewrite (Hgo (k + length s1)%nat c n) by (done || lia). mstep. case_bool_decide as Hlt.
    + replace (c_ptr c) with (ptr zsl l (S (k + length s1))) by (unfold ptr; cbn [ptr_at]; by rewrite Hlk).
      apply IH; [lia| |done|lia]. by exists c.
    + rewrite (last_tall_unique (zsl_level zsl) l i a k); [done|done|lia| |done].
      intros m Hm. eapply tall_at_split; [done|done|lia].
  - apply not_Exists_Forall in Hno; [|intros; apply tall_dec]. rewrite fwd_none by done. cbn [fst].
    rewrite (last_tall_unique (zsl_level zsl) l i a k); [done|done|lia| |done].
    intros m Hm. eapply tall_at_none; [done|lia].
Qed.

Lemma walk_spec fuel go a i k :
  stops h l go a -> (a <= length l)%nat -> (k <= a)%nat -> tall_at (zsl_level zsl) l k i -> (i < zsl_level zsl)%nat ->
  (a - k < fuel)%nat ->
  walk fuel h go i (ptr zsl l k) (Z.of_nat k) = Some (ptr zsl l (last_tall l i a), Z.of_nat (last_tall l i a)).
Proof using Hsh.
  intros Hgo Ha Hk Ht Hi Hf. pose proof (walk_from fuel go 0 a i k) as H. rewrite !Nat.sub_0_r in H. apply H; try done; [|lia].
  intros j c n _ Hc Hn. rewrite Nat.sub_0_r. by eapply Hgo.
Qed.

Definition path (a lvl : nat) : list (nat * Z) :=
  (fun i => (ptr zsl l (last_tall l i a), Z.of_nat (last_tall l i a))) <$> seq 0 lvl.

Lemma tall_at_mono lvl k i j : tall_at lvl l k j -> (i <= j)%nat -> tall_at lvl l k i.
Proof using. destruct k as [|k]; cbn; [lia|]. unfold tall. intros (c & ? & ?) ?. exists c. split; [done|lia]. Qed.

Lemma search_spec_from go a lvl k :
  stops h l go a -> (a <= length l)%nat -> (k <= a)%nat -> (lvl <= zsl_level zsl)%nat ->
  (forall i, (i < lvl)%nat -> tall_at (zsl_level zsl) l k i) ->
  search h go lvl (ptr zsl l k) (Z.of_nat k) = Some (path a lvl).
Proof using Hsh.
  intros Hgo Ha. revert k. induction lvl as [|lvl IH]; intros k Hk Hl Ht; [done|]. cbn [search].
  pose proof shape_size. rewrite (walk_spec _ go a lvl k) by (done || lia || (apply Ht; lia)). mstep. cbn [fst snd].
  pose proof (last_tall_le l lvl a). rewrite IH; [|done|lia|].
  2: { intros i Hi. eapply tall_at_mono; [apply last_tall_tall; lia|lia]. }
  mstep. unfold path. by rewrite seq_S, fmap_app.
Qed.

Lemma zsl_search_spec go a :
  stops h l go a -> (a <= length l)%nat ->
  search h go (zsl_level zsl) (zsl_header zsl) 0 = Some (path a (zsl_level zsl)).
Proof using Hsh. intros Hgo Ha. apply (search_spec_from go a (zsl_level zsl) 0); [done|done|lia|done|done]. Qed.

Lemma path_lookup a lvl i :
  (i < lvl)%nat -> path a lvl !! i = Some (ptr zsl l (last_tall l i a), Z.of_nat (last_tall l i a)).
Proof using. intros Hi. unfold path. by rewrite list_lookup_fmap, lookup_seq_lt. Qed.

(** The bottom level has every node. *)
Lemma last_tall_bottom a : (a <= length l)%nat -> last_tall l 0 a = a.
Proof using Hsh. intros Ha. eapply last_tall_zero; [apply (sh_heights Hsh)|done]. Qed.

Lemma tall_at_bottom k : (k <= length l)%nat -> tall_at (zsl_level zsl) l k 0.
Proof using Hsh.
  intros Hk. destruct k as [|k]; cbn; [pose proof (sh_level Hsh); lia|].
  destruct (lookup_lt_is_Some_2 l k) as [c Hc]; [lia|]. exists c. split; [done|].
  pose proof (sh_heights Hsh) as Hh. eapply Forall_lookup_1 in Hh; [|done]. unfold tall. lia.
Qed.

Lemma fwd_bottom k : fwd 0 (drop k l) = (c_ptr <$> l !! k, match l !! k with Some _ => 1 | None => 0 end).
Proof using Hsh.
  destruct (l !! k) as [c|] eqn:E.
  - erewrite drop_S by done. cbn [fwd]. pose proof (sh_heights Hsh) as Hh. eapply Forall_lookup_1 in Hh; [|done].
    by destruct (Nat.ltb_spec 0 (c_height c)); [|lia].
  - apply lookup_ge_None in E. by rewrite drop_ge.
Qed.

Lemma after_spec a : (a <= length l)%nat -> after h (path a (zsl_level zsl)) = Some (c_ptr <$> l !! a).
Proof using Hsh.
  intros Ha. unfold after. pose proof (sh_level Hsh). rewrite path_lookup, last_tall_bottom by lia. mstep. cbn [fst].
  rewrite (sh_lev Hsh a _ 0 (ptr_at_ptr zsl l a Ha) (tall_at_bottom a Ha)), fwd_bottom. done.
Qed.
End searching.

Arguments path : clear implicits.
