(* ===== verification/SkiplistOps.v ===== *)
(** * Updates of a skiplist

    What the loops over the levels do to the heap, and that linking a node in
    at any position and unlinking one keep the shape of the skiplist. *)
From S2P Require Import Prelude Skiplist SkiplistSpec.
From Stdlib Require Import ZArith Lia SpecFloat.
From stdpp Require Import prelude list gmap sorting.

#[local] Open Scope Z_scope.

(** ** Writes *)

(** Only levels differ. *)
Definition agree (h h' : zheap) : Prop := forall p, static h' p = static h p /\ back h' p = back h p.

Lemma agree_refl h : agree h h.
Proof. done. Qed.

Lemma agree_trans h1 h2 h3 : agree h1 h2 -> agree h2 h3 -> agree h1 h3.
Proof. intros H1 H2 p. destruct (H1 p) as [E1 E2], (H2 p) as [E3 E4]. split; congruence. Qed.

Lemma static_some h p : is_Some (static h p) <-> is_Some (h !! p).
Proof. unfold static. by rewrite fmap_is_Some. Qed.

Lemma agree_dom h h' p : agree h h' -> is_Some (h' !! p) <-> is_Some (h !! p).
Proof. intros H. rewrite <- !static_some. by destruct (H p) as [-> _]. Qed.

(** A test for another node or level is false. *)
Ltac no_pair := rewrite (decide_False (P := _ /\ _)) by (intros [? ?]; congruence).

Lemma set_lev_spec h x i v :
  is_Some (lev h x i) ->
  exists h', set_lev h x i v = Some h' /\ agree h h' /\
    forall q j, lev h' q j = if decide (q = x /\ j = i) then Some v else lev h q j.
Proof.
  intros [v0 Hv]. unfold lev in Hv. destruct (h !! x) as [n|] eqn:Hx; [|done]. cbn in Hv.
  unfold set_lev. rewrite Hx. mstep. rewrite Hv. mstep. eexists. split; [done|]. split.
  - intros p. unfold static, back. destruct (decide (p = x)) as [->|Hp]; [|by rewrite lookup_insert_ne].
    rewrite lookup_insert_eq, Hx. cbn. by rewrite length_insert.
  - intros q j. unfold lev. destruct (decide (q = x)) as [->|Hq].
    + rewrite lookup_insert_eq, Hx. cbn. pose proof (lookup_lt_Some _ _ _ Hv).
      destruct (decide (j = i)) as [->|Hj].
      * rewrite list_lookup_insert_eq by done. by rewrite decide_True.
      * rewrite list_lookup_insert_ne by done. by no_pair.
    + rewrite lookup_insert_ne by done. by no_pair.
Qed.

Lemma set_backward_spec h x b :
  is_Some (h !! x) ->
  exists h', set_backward h x b = Some h' /\ (forall p, static h' p = static h p) /\ (forall q j, lev h' q j = lev h q j) /\
    forall p, back h' p = if decide (p = x) then Some b else back h p.
Proof.
  intros [n Hx]. unfold set_backward. rewrite Hx. mstep. eexists. split; [done|].
  split_and!; intros p; [|intros j|]; unfold static, lev, back; (destruct (decide (p = x)) as [->|Hp];
    [rewrite lookup_insert_eq, ?Hx; done|by rewrite lookup_insert_ne]).
Qed.

(** ** The loops over levels *)

(** The entry of a list of pairs for level [m], the list starting at [i]. *)
Definition entry {A} (us : list A) (i m : nat) : option A := if decide (i <= m)%nat then us !! (m - i)%nat else None.

Lemma entry_nil {A} i m : entry (@nil A) i m = None.
Proof. unfold entry. by case_decide. Qed.

Lemma entry_cons {A} (u : A) us i m : entry (u :: us) i m = if decide (m = i) then Some u else entry us (S i) m.
Proof.
  unfold entry. destruct (decide (m = i)) as [->|]; [by rewrite decide_True, Nat.sub_diag by lia|].
  destruct (decide (i <= m)%nat), (decide (S i <= m)%nat); try lia; [|done].
  by replace (m - i)%nat with (S (m - S i)) by lia.
Qed.

Lemma link_levels_spec h x r0 i us :
  (forall m u r, entry us i m = Some (u, r) -> u <> x /\ is_Some (lev h u m) /\ is_Some (lev h x m)) ->
  exists h', link_levels h x r0 i us = Some h' /\ agree h h' /\
    forall q m, lev h' q m =
      match entry us i m with
      | Some (u, r) =>
          if decide (q = u) then Some (Some x, wrapu 64 (r0 - r + 1))
          else if decide (q = x) then v ← lev h u m; Some (v.1, wrapu 64 (v.2 - (r0 - r)))
          else lev h q m
      | None => lev h q m
      end.
Proof.
  revert h i. induction us as [|[u r] us IH]; intros h i Hus; cbn [link_levels].
  { exists h. split_and!; [done|apply agree_refl|]. intros q m. by rewrite entry_nil. }
  destruct (Hus i u r) as (Hux & [v Hv] & Hx); [rewrite entry_cons; by rewrite decide_True|].
  rewrite Hv. mstep. destruct (set_lev_spec h x i (v.1, wrapu 64 (v.2 - (r0 - r))) Hx) as (h1 & -> & A1 & L1). mstep.
  destruct (set_lev_spec h1 u i (Some x, wrapu 64 (r0 - r + 1))) as (h2 & -> & A2 & L2).
  { rewrite L1. no_pair. by eexists. }
  mstep. destruct (IH h2 (S i)) as (h3 & -> & A3 & L3).
  { intros m u' r' E. assert (m <> i) by (intros ->; unfold entry in E; by rewrite decide_False in E by lia).
    destruct (Hus m u' r') as (? & ? & ?); [by rewrite entry_cons, decide_False|].
    split; [done|]. rewrite !L2, !L1. by repeat no_pair. }
  exists h3. split; [done|]. split; [by eapply agree_trans; [eapply agree_trans|]|].
  intros q m. rewrite L3, entry_cons. destruct (decide (m = i)) as [->|Hm].
  - assert (entry us (S i) i = None) as -> by (unfold entry; by rewrite decide_False by lia).
    rewrite L2. destruct (decide (q = u)) as [->|Hq]; [by rewrite decide_True|]. no_pair.
    rewrite L1. destruct (decide (q = x)) as [->|Hqx]; [|by no_pair].
    rewrite decide_True by done. by rewrite Hv.
  - destruct (entry us (S i) m) as [[u' r']|]; rewrite ?L2, ?L1; repeat no_pair; done.
Qed.

Lemma bump_levels_spec h i us :
  (forall m u r, entry us i m = Some (u, r) -> is_Some (lev h u m)) ->
  exists h', bump_levels h i us = Some h' /\ agree h h' /\
    forall q m, lev h' q m =
      match entry us i m with
      | Some (u, _) => if decide (q = u) then v ← lev h u m; Some (v.1, wrapu 64 (v.2 + 1)) else lev h q m
      | None => lev h q m
      end.
Proof.
  revert h i. induction us as [|[u r] us IH]; intros h i Hus; cbn [bump_levels].
  { exists h. split_and!; [done|apply agree_refl|]. intros q m. by rewrite entry_nil. }
  destruct (Hus i u r) as [v Hv]; [rewrite entry_cons; by rewrite decide_True|].
  rewrite Hv. mstep. destruct (set_lev_spec h u i (v.1, wrapu 64 (v.2 + 1))) as (h1 & -> & A1 & L1); [by eexists|]. mstep.
  destruct (IH h1 (S i)) as (h2 & -> & A2 & L2).
  { intros m u' r' E. assert (m <> i) by (intros ->; unfold entry in E; by rewrite decide_False in E by lia).
    rewrite L1. no_pair. apply (Hus m u' r'). by rewrite entry_cons, decide_False. }
  exists h2. split; [done|]. split; [by eapply agree_trans|]. intros q m. rewrite L2, entry_cons.
  destruct (decide (m = i)) as [->|Hm].
  - assert (entry us (S i) i = None) as -> by (unfold entry; by rewrite decide_False by lia).
    rewrite L1. destruct (decide (q = u)) as [->|Hq]; [by rewrite decide_True, Hv|by no_pair].
  - destruct (entry us (S i) m) as [[u' r']|]; rewrite ?L1; repeat no_pair; done.
Qed.

Lemma unlink_levels_spec h x i us :
  (forall m u r, entry us i m = Some (u, r) -> u <> x /\ exists v, lev h u m = Some v /\ (v.1 = Some x -> is_Some (lev h x m))) ->
  exists h', unlink_levels h x i us = Some h' /\ agree h h' /\
    forall q m, lev h' q m =
      match entry us i m with
      | Some (u, _) =>
          if decide (q = u) then
            v ← lev h u m;
            if decide (v.1 = Some x) then xl ← lev h x m; Some (xl.1, wrapu 64 (v.2 + (xl.2 - 1)))
            else Some (v.1, wrapu 64 (v.2 - 1))
          else lev h q m
      | None => lev h q m
      end.
Proof.
  revert h i. induction us as [|[u r] us IH]; intros h i Hus; cbn [unlink_levels].
  { exists h. split_and!; [done|apply agree_refl|]. intros q m. by rewrite entry_nil. }
  destruct (Hus i u r) as (Hux & v & Hv & Hx); [rewrite entry_cons; by rewrite decide_True|].
  rewrite Hv. mstep.
  assert (exists new h1, (if decide (v.1 = Some x) then xl ← lev h x i; set_lev h u i (xl.1, wrapu 64 (v.2 + (xl.2 - 1)))
      else set_lev h u i (v.1, wrapu 64 (v.2 - 1))) = Some h1 /\ agree h h1 /\
    (if decide (v.1 = Some x) then xl ← lev h x i; Some (xl.1, wrapu 64 (v.2 + (xl.2 - 1))) else Some (v.1, wrapu 64 (v.2 - 1))) = Some new /\
    forall q j, lev h1 q j = if decide (q = u /\ j = i) then Some new else lev h q j) as (new & h1 & E1 & A1 & En & L1).
  { destruct (decide (v.1 = Some x)) as [E|E].
    - destruct (Hx E) as [xl ->]. mstep. eexists. destruct (set_lev_spec h u i (xl.1, wrapu 64 (v.2 + (xl.2 - 1)))) as (h1 & -> & ? & ?);
        [by eexists|]. by exists h1.
    - eexists. destruct (set_lev_spec h u i (v.1, wrapu 64 (v.2 - 1))) as (h1 & -> & ? & ?); [by eexists|]. by exists h1. }
  rewrite E1. mstep. destruct (IH h1 (S i)) as (h2 & -> & A2 & L2).
  { intros m u' r' E. assert (m <> i) by (intros ->; unfold entry in E; by rewrite decide_False in E by lia).
    rewrite !L1. repeat no_pair. apply (Hus m u' r'). by rewrite entry_cons, decide_False. }
  exists h2. split; [done|]. split; [by eapply agree_trans|]. intros q m. rewrite L2, entry_cons.
  destruct (decide (m = i)) as [->|Hm].
  - assert (entry us (S i) i = None) as -> by (unfold entry; by rewrite decide_False by lia).
    rewrite L1. destruct (decide (q = u)) as [->|Hq]; [|by no_pair].
    rewrite decide_True by done. rewrite Hv. mstep. by rewrite En.
  - destruct (entry us (S i) m) as [[u' r']|]; rewrite ?L1; repeat no_pair; done.
Qed.

Lemma raise_levels_spec h zsl i k :
  (forall m, (i <= m < i + k)%nat -> is_Some (lev h (zsl_header zsl) m)) ->
  exists h', raise_levels h zsl i k = Some h' /\ agree h h' /\
    forall q m, lev h' q m =
      if decide (q = zsl_header zsl /\ (i <= m < i + k)%nat) then v ← lev h q m; Some (v.1, zsl_length zsl) else lev h q m.
Proof.
  revert h i. induction k as [|k IH]; intros h i Hm; cbn [raise_levels].
  { exists h. split_and!; [done|apply agree_refl|]. intros q m. by rewrite decide_False by lia. }
  destruct (Hm i) as [v Hv]; [lia|]. rewrite Hv. mstep.
  destruct (set_lev_spec h (zsl_header zsl) i (v.1, zsl_length zsl)) as (h1 & -> & A1 & L1); [by eexists|]. mstep.
  destruct (IH h1 (S i)) as (h2 & -> & A2 & L2).
  { intros m Hm'. rewrite L1, decide_False by lia. apply Hm. lia. }
  exists h2. split; [done|]. split; [by eapply agree_trans|]. intros q m. rewrite L2, L1.
  destruct (decide (q = zsl_header zsl /\ m = i)) as [[-> ->]|Hn].
  - rewrite decide_False by lia. rewrite decide_True by lia. by rewrite Hv.
  - destruct (decide (q = zsl_header zsl /\ (S i <= m < S i + k)%nat)).
    + rewrite decide_True by (split; [tauto|lia]). done.
    + rewrite decide_False; [done|]. intros [-> ?]. destruct (decide (m = i)) as [->|]; [by apply Hn|]. apply n. split; [done|lia].
Qed.

(** ** Positions and addresses *)

Section positions.
  Context {extra : list nat} {h : zheap} {zsl : zskiplist} {l : list cell} (Hsh : shape extra h zsl l).

Lemma ptr_at_addresses k p : ptr_at zsl l k = Some p -> (zsl_header zsl :: (c_ptr <$> l)) !! k = Some p.
Proof using.
  destruct k as [|k]; [done|]. cbn [ptr_at]. intros H. change ((c_ptr <$> l) !! k = Some p). by rewrite list_lookup_fmap.
Qed.

Lemma nodup_ptrs : NoDup (zsl_header zsl :: (c_ptr <$> l)).
Proof using Hsh. pose proof (sh_nodup Hsh) as H. unfold addresses in H. rewrite app_comm_cons in H. by apply NoDup_app in H as [? _]. Qed.

Lemma ptr_at_inj k k' p : ptr_at zsl l k = Some p -> ptr_at zsl l k' = Some p -> k = k'.
Proof using Hsh. intros H1%ptr_at_addresses H2%ptr_at_addresses. eapply NoDup_lookup; [apply nodup_ptrs|done|done]. Qed.

Lemma ptr_at_in k p : ptr_at zsl l k = Some p -> p ∈ addresses zsl l extra.
Proof using.
  intros H%ptr_at_addresses. unfold addresses. rewrite app_comm_cons. apply elem_of_app. left. by eapply list_elem_of_lookup_2.
Qed.

Lemma ptr_at_len k p : ptr_at zsl l k = Some p -> (k <= length l)%nat.
Proof using. destruct k as [|k]; [lia|]. cbn. destruct (l !! k) eqn:E; [|done]. apply lookup_lt_Some in E. lia. Qed.

Lemma ptr_prev a : (a <= length l)%nat ->
  (if decide (ptr zsl l a = zsl_header zsl) then None else Some (ptr zsl l a)) = match a with O => None | S k => c_ptr <$> l !! k end.
Proof using Hsh.
  intros Ha. destruct a as [|a]; [by rewrite decide_True|]. rewrite decide_False; [by rewrite <- ptr_at_ptr|].
  intros E. pose proof (ptr_at_inj (S a) 0 _ (ptr_at_ptr _ _ _ Ha)) as H. rewrite E in H. by specialize (H eq_refl).
Qed.
End positions.

(** ** Linking a node *)

Definition ins (l : list cell) (a : nat) (c : cell) : list cell := take a l ++ c :: drop a l.

Lemma ins_lookup l a c k :
  (a <= length l)%nat ->
  ins l a c !! k = if decide (k < a)%nat then l !! k else if decide (k = a) then Some c else l !! (k - 1)%nat.
Proof. intros Ha. unfold ins. by rewrite lookup_insert_at. Qed.

Lemma ins_length l a c : (a <= length l)%nat -> length (ins l a c) = S (length l).
Proof. intros Ha. unfold ins. rewrite length_app, length_take. cbn. rewrite length_drop. lia. Qed.

Lemma ins_drop_before l a c k : (k <= a <= length l)%nat -> drop k (ins l a c) = drop k (take a l) ++ c :: drop a l.
Proof. intros Hk. unfold ins. rewrite drop_app_le; [done|]. rewrite length_take. lia. Qed.

Lemma drop_split (l : list cell) a k : (k <= a <= length l)%nat -> drop k l = drop k (take a l) ++ drop a l.
Proof. intros Hk. rewrite <- (take_drop a l) at 1. rewrite drop_app_le; [done|]. rewrite length_take. lia. Qed.

Lemma ins_drop_after l a c k : (a < k)%nat -> (a <= length l)%nat -> drop k (ins l a c) = drop (k - 1) l.
Proof.
  intros Hk Ha. unfold ins. rewrite drop_app_ge by (rewrite length_take; lia). rewrite length_take.
  replace (k - a `min` length l)%nat with (S (k - a - 1)) by lia. cbn [drop]. rewrite drop_drop. f_equal. lia.
Qed.

(** The nodes between a position and [a] are all low exactly when it is the
    last high one. *)
Lemma between lvl l i a k :
  (k <= a <= length l)%nat -> tall_at lvl l k i -> (i < lvl)%nat ->
  if decide (k = last_tall l i a) then Forall (fun c => ~ tall i c) (drop k (take a l))
  else Exists (tall i) (drop k (take a l)).
Proof.
  intros Hk Ht Hi. pose proof (last_tall_ge lvl l i a k Ht ltac:(lia)) as Hge. pose proof (last_tall_le l i a).
  case_decide as E.
  - apply Forall_forall. intros c Hc Htc. apply list_elem_of_lookup in Hc as [j Hj].
    rewrite lookup_drop in Hj. apply lookup_take_Some in Hj as [Hj Hja].
    assert (S (k + j) <= last_tall l i a)%nat by (apply (last_tall_ge lvl); [by exists c|lia]). lia.
  - pose proof (last_tall_tall lvl l i a Hi) as Hl. destruct (last_tall l i a) as [|m] eqn:Em; [lia|].
    destruct Hl as (c & Hc & Htc). apply Exists_exists. exists c. split; [|done].
    apply list_elem_of_lookup. exists (m - k)%nat. rewrite lookup_drop, lookup_take_lt by lia.
    by replace (k + (m - k))%nat with m by lia.
Qed.

Lemma fwd_span_bound i s : 0 <= (fwd i s).2 <= Z.of_nat (length s).
Proof. induction s as [|c s IH]; cbn [fwd length]; [cbn; lia|]. destruct (i <? c_height c)%nat; cbn; lia. Qed.

Definition linked (h : zheap) (zsl : zskiplist) (lvl : nat) (l : list cell) : Prop :=
  forall k p i, ptr_at zsl l k = Some p -> tall_at lvl l k i -> lev h p i = Some (fwd i (drop k l)).

(** A position high at a level is below the number of levels. *)
Lemma tall_at_lt lvl l k i : Forall (fun c => 1 <= c_height c <= lvl)%nat l -> tall_at lvl l k i -> (i < lvl)%nat.
Proof.
  intros Hh. destruct k as [|k]; [done|]. intros (c & Hc & Ht). eapply Forall_lookup_1 in Hh; [|done]. unfold tall in Ht. lia.
Qed.

Lemma last_tall_high lvl l i a : Forall (fun c => 1 <= c_height c <= lvl)%nat l -> (lvl <= i)%nat -> last_tall l i a = 0%nat.
Proof.
  intros Hh Hi. induction a as [|a IH]; [done|]. cbn [last_tall]. destruct (l !! a) as [c|] eqn:E; [|done].
  eapply Forall_lookup_1 in Hh; [|done]. unfold tall. by rewrite decide_False by lia.
Qed.

Lemma path_app zsl l a n m :
  Forall (fun c => 1 <= c_height c <= n)%nat l -> path zsl l a (n + m) = path zsl l a n ++ replicate m (zsl_header zsl, 0).
Proof.
  intros Hh. unfold path. rewrite seq_app, fmap_app. f_equal. apply list_eq. intros i.
  rewrite list_lookup_fmap. destruct (decide (i < m)%nat).
  - rewrite lookup_seq_lt, lookup_replicate_2 by lia. cbn. by rewrite (last_tall_high n) by (done || lia).
  - rewrite lookup_seq_ge by lia. symmetry. apply lookup_ge_None_2. rewrite length_replicate. lia.
Qed.

(** Raising the number of levels keeps the links. *)
Lemma raise_linked extra h zsl l a lvl :
  shape extra h zsl l -> (1 <= lvl <= ZSKIPLIST_MAXLEVEL)%nat ->
  let top := Nat.max lvl (zsl_level zsl) in
  exists h1,
    (if (zsl_level zsl <? lvl)%nat then
       h ← raise_levels h zsl (zsl_level zsl) (lvl - zsl_level zsl);
       Some (h, path zsl l a (zsl_level zsl) ++ replicate (lvl - zsl_level zsl) (zsl_header zsl, 0), lvl)
     else Some (h, path zsl l a (zsl_level zsl), zsl_level zsl)) = Some (h1, path zsl l a top, top) /\
    agree h h1 /\ linked h1 zsl top l /\
    (forall i, (top <= i < ZSKIPLIST_MAXLEVEL)%nat -> exists sp, lev h1 (zsl_header zsl) i = Some (None, sp)).
Proof.
  intros Hsh Hlvl top. pose proof (sh_heights Hsh) as Hh. destruct (Nat.ltb_spec (zsl_level zsl) lvl) as [Hlt|Hge].
  - assert (top = lvl) as Etop by (unfold top; lia). rewrite Etop.
    destruct (raise_levels_spec h zsl (zsl_level zsl) (lvl - zsl_level zsl)) as (h1 & -> & HA & HL).
    { intros m Hm. destruct (sh_top Hsh m) as [sp ->]; [lia|by eexists]. }
    mstep. exists h1. rewrite <- path_app by done. replace (zsl_level zsl + (lvl - zsl_level zsl))%nat with lvl by lia.
    split_and!; [done|done| |].
    + intros k p i Hp Ht. rewrite HL. case_decide as Hd.
      * destruct Hd as [-> Hi]. assert (k = 0%nat) as -> by (by eapply (ptr_at_inj Hsh)). destruct (sh_top Hsh i) as [sp ->]; [lia|].
        cbn. rewrite drop_0, fwd_none, (sh_length Hsh); [done|]. eapply Forall_impl; [done|]. unfold tall. intros c Hc. lia.
      * apply (sh_lev Hsh); [done|]. destruct k as [|k]; [|done]. cbn in *. injection Hp as <-.
        destruct (decide (i < zsl_level zsl)%nat); [done|]. destruct Hd. split; [done|lia].
    + intros i Hi. rewrite HL, decide_False by lia. apply (sh_top Hsh). lia.
  - assert (top = zsl_level zsl) as -> by (unfold top; lia). exists h. split_and!; [done|apply agree_refl| |apply (sh_top Hsh)].
    intros k p i. apply (sh_lev Hsh).
Qed.

Lemma wrap_small z : 0 <= z < 2 ^ 63 -> wrapu 64 z = z.
Proof. intros Hz. apply wrapu_id. split; [lia|]. change (2 ^ 64) with (2 * 2 ^ 63). lia. Qed.

Section link.
  Context (zsl : zskiplist) (l : list cell) (a top : nat) (x lvl : nat) (s : spec_float) (e : list Z).
  Context (h : zheap) (Hlinked : linked h zsl top l) (Ha : (a <= length l)%nat) (Hbound : Z.of_nat (length l) < 2 ^ 63 - 1).
  Context (Hinj : forall k k' p, ptr_at zsl l k = Some p -> ptr_at zsl l k' = Some p -> k = k').
  Context (Hfresh : forall k, ptr_at zsl l k <> Some x).
  Context (Hlvl : (1 <= lvl <= top)%nat) (Hh : Forall (fun c => 1 <= c_height c <= top)%nat l).
  Context (Hx : forall m, (m < lvl)%nat -> is_Some (lev h x m)).

Let us := path zsl l a top.
Let c := Cell x lvl s e.

Lemma link_entry i : (i < top)%nat -> us !! i = Some (ptr zsl l (last_tall l i a), Z.of_nat (last_tall l i a)).
Proof using. intros Hi. by apply path_lookup. Qed.

Lemma link_old i : (i < top)%nat ->
  lev h (ptr zsl l (last_tall l i a)) i =
    Some ((fwd i (drop a l)).1, Z.of_nat a - Z.of_nat (last_tall l i a) + (fwd i (drop a l)).2).
Proof using Hlinked Ha Hh Hlvl.
  intros Hi. pose proof (last_tall_le l i a). pose proof (last_tall_tall top l i a Hi) as Ht.
  rewrite (Hlinked (last_tall l i a) _ i (ptr_at_ptr zsl l (last_tall l i a) ltac:(lia)) Ht).
  rewrite (drop_split l a (last_tall l i a)) by lia. pose proof (between top l i a (last_tall l i a) ltac:(lia) Ht Hi) as Hb.
  rewrite decide_True in Hb by done. rewrite fwd_app_short by done. do 2 f_equal. rewrite length_drop, length_take. lia.
Qed.

(** The levels after both loops. *)
Let spliced (q i : nat) : option (option nat * Z) :=
  if decide (i < top)%nat then
    if decide (i < lvl)%nat then
      if decide (q = ptr zsl l (last_tall l i a)) then Some (Some x, wrapu 64 (Z.of_nat a - Z.of_nat (last_tall l i a) + 1))
      else if decide (q = x) then Some ((fwd i (drop a l)).1, wrapu 64 ((fwd i (drop a l)).2))
      else lev h q i
    else if decide (q = ptr zsl l (last_tall l i a)) then
      Some ((fwd i (drop a l)).1, wrapu 64 (Z.of_nat a - Z.of_nat (last_tall l i a) + (fwd i (drop a l)).2 + 1))
    else lev h q i
  else lev h q i.

Lemma splice_levels : exists h1 h2,
  link_levels h x (Z.of_nat a) 0 (take lvl us) = Some h1 /\ bump_levels h1 lvl (drop lvl us) = Some h2 /\
  agree h h2 /\ forall q i, lev h2 q i = spliced q i.
Proof using Hlinked Ha Hfresh Hlvl Hh Hx.
  assert (length us = top) as Hus by (unfold us, path; by rewrite length_fmap, length_seq).
  assert (forall m, entry (take lvl us) 0 m = if decide (m < lvl)%nat then us !! m else None) as E1.
  { intros m. unfold entry. rewrite decide_True, Nat.sub_0_r by lia. case_decide; [by apply lookup_take_lt|by apply lookup_take_ge; lia]. }
  assert (forall m, entry (drop lvl us) lvl m = if decide (lvl <= m)%nat then us !! m else None) as E2.
  { intros m. unfold entry. case_decide; [|done]. rewrite lookup_drop. f_equal. lia. }
  assert (forall i, ptr zsl l (last_tall l i a) <> x) as Hux.
  { intros i E. pose proof (last_tall_le l i a). apply (Hfresh (last_tall l i a)). rewrite ptr_at_ptr by lia. by rewrite E. }
  destruct (link_levels_spec h x (Z.of_nat a) 0 (take lvl us)) as (h1 & Eh1 & A1 & L1).
  { intros m u r. rewrite E1. case_decide as Hm; [|done]. rewrite link_entry by lia. intros [= <- <-].
    split; [done|]. rewrite link_old by lia. split; [by eexists|by apply Hx]. }
  destruct (bump_levels_spec h1 lvl (drop lvl us)) as (h2 & Eh2 & A2 & L2).
  { intros m u r. rewrite E2. case_decide as Hm; [|done]. intros Eu. pose proof (lookup_lt_Some _ _ _ Eu).
    rewrite link_entry in Eu by lia. injection Eu as <- <-. rewrite L1, E1, decide_False, link_old by lia. by eexists. }
  exists h1, h2. split; [done|]. split; [done|]. split; [by eapply agree_trans|].
  intros q i. unfold spliced. rewrite L2, E2. destruct (decide (i < top)%nat) as [Hi|Hi].
  - destruct (decide (i < lvl)%nat) as [Hi'|Hi'].
    + rewrite (decide_False (P := (lvl <= i)%nat)), L1, E1, decide_True, link_entry by lia. rewrite link_old by lia. cbn.
      repeat case_decide; try done. do 3 f_equal. lia.
    + rewrite (decide_True (P := (lvl <= i)%nat)), link_entry, !L1, !E1, !(decide_False (P := (i < lvl)%nat)) by lia.
      rewrite link_old by lia. done.
  - assert (us !! i = None) as En by (apply lookup_ge_None_2; lia).
    case_decide; rewrite ?En, L1, E1; rewrite ?En; by case_decide.
Qed.

(** The new list is linked. *)
Lemma splice_linked h2 : (forall q i, lev h2 q i = spliced q i) -> linked h2 zsl top (ins l a c).
Proof using Hlinked Ha Hbound Hinj Hfresh Hlvl Hh.
  intros HL k p i Hp Ht. assert (i < top)%nat as Hi.
  { eapply (tall_at_lt top (ins l a c)); [|done]. apply Forall_app. split; [by apply Forall_take|]. constructor; [done|by apply Forall_drop]. }
  rewrite HL. unfold spliced. rewrite decide_True by done. pose proof (last_tall_le l i a) as Hle.
  pose proof (fwd_span_bound i (drop a l)) as Hsp. rewrite length_drop in Hsp.
  destruct (decide (k <= a)%nat) as [Hka|Hka]; [|destruct (decide (k = S a)) as [->|Hk1]].
  - assert (ptr_at zsl l k = Some p) as Hp' by (destruct k as [|k]; [done|]; cbn in *; rewrite ins_lookup, decide_True in Hp by lia; done).
    assert (tall_at top l k i) as Ht' by (destruct k as [|k]; [done|]; cbn in *; rewrite ins_lookup, decide_True in Ht by lia; done).
    pose proof (between top l i a k ltac:(lia) Ht' Hi) as Hb. rewrite ins_drop_before by lia.
    assert (p <> x) as Hpx by (intros ->; by eapply Hfresh).
    destruct (decide (k = last_tall l i a)) as [Ek|Ek].
    + rewrite Ek in Hp' at 1. rewrite ptr_at_ptr in Hp' by lia. injection Hp' as <-.
      rewrite !(decide_True (P := ptr _ _ _ = _)) by done. rewrite fwd_app_short, length_drop, length_take by done. cbn [fwd c c_height c_ptr].
      destruct (Nat.ltb_spec i lvl); [rewrite decide_True by lia|rewrite decide_False by lia];
        cbn [fst snd]; rewrite wrap_small by lia; do 2 f_equal; lia.
    + rewrite fwd_app_tall by done. assert (p <> ptr zsl l (last_tall l i a)) as Hpl.
      { intros ->. apply Ek. eapply Hinj; [done|]. apply ptr_at_ptr. lia. }
      rewrite !(decide_False (P := p = _)) by done. rewrite (Hlinked k p i Hp' Ht'), (drop_split l a k), fwd_app_tall by (done || lia).
      by case_decide.
  - cbn [ptr_at tall_at] in *. rewrite ins_lookup, decide_False, decide_True in Hp, Ht by lia. injection Hp as <-.
    destruct Ht as (c' & [= <-] & Htc). unfold tall in Htc. cbn in Htc. rewrite decide_True by done.
    rewrite decide_False; [|intros E; apply (Hfresh (last_tall l i a)); rewrite ptr_at_ptr by lia; by rewrite <- E].
    cbn [c c_ptr]. rewrite decide_True by done. rewrite ins_drop_after by lia. replace (S a - 1)%nat with a by lia.
    rewrite wrap_small by lia. by destruct (fwd i (drop a l)).
  - destruct k as [|k]; [lia|]. cbn [ptr_at tall_at] in *. rewrite ins_lookup, !decide_False in Hp, Ht by lia.
    rewrite ins_drop_after by lia. destruct k as [|k]; [lia|]. replace (S k - 1)%nat with k in * by lia. replace (S (S k) - 1)%nat with (S k) by lia.
    assert (ptr_at zsl l (S k) = Some p) as Hp' by done.
    rewrite (decide_False (P := p = x)) by (intros ->; by eapply Hfresh).
    assert (p <> ptr zsl l (last_tall l i a)) as Hpl.
    { intros ->. assert (S k = last_tall l i a) by (eapply Hinj; [done|apply ptr_at_ptr; lia]). lia. }
    rewrite !(decide_False (P := p = ptr _ _ _)), (Hlinked (S k) p i Hp' Ht) by done. by case_decide.
Qed.
End link.

(** ** Insertion *)

Lemma random_level_ge draws k lvl : random_level draws k = Some lvl -> (k <= lvl)%nat.
Proof.
  revert k. induction draws as [|r draws IH]; intros k; cbn [random_level]; [done|].
  destruct (r <? threshold); [intros H%IH; lia|intros [= <-]; lia].
Qed.

Lemma zslRandomLevel_bound draws lvl : zslRandomLevel draws = Some lvl -> (1 <= lvl <= ZSKIPLIST_MAXLEVEL)%nat.
Proof.
  unfold zslRandomLevel. destruct (random_level draws 1) as [k|] eqn:E; [|done]. apply random_level_ge in E.
  mstep. unfold ZSKIPLIST_MAXLEVEL. intros [= <-]. destruct (Nat.ltb_spec k 32); lia.
Qed.

Lemma last_ins l a c : (a <= length l)%nat -> last (ins l a c) = if decide (a = length l) then Some c else last l.
Proof.
  intros Ha. rewrite !last_lookup, ins_lookup, ins_length by done. cbn [pred].
  destruct (decide (length l < a)%nat); [lia|]. destruct (decide (length l = a)) as [->|]; [by rewrite decide_True|].
  rewrite decide_False by done. f_equal. lia.
Qed.

(** The heap of a skiplist with a node more. *)
Lemma ins_shape extra h zsl l a h' zsl' c :
  shape extra h zsl l -> (a <= length l)%nat -> Z.of_nat (length l) < 2 ^ 63 - 1 -> h !! c_ptr c = None ->
  (1 <= c_height c <= ZSKIPLIST_MAXLEVEL)%nat ->
  (forall p, static h' p = if decide (p = c_ptr c) then Some (Some (c_ele c), c_score c, c_height c) else static h p) ->
  (forall p, back h' p = if decide (p = c_ptr c) then Some (match a with O => None | S k => c_ptr <$> l !! k end)
                         else if decide (Some p = c_ptr <$> l !! a) then Some (Some (c_ptr c)) else back h p) ->
  zsl_header zsl' = zsl_header zsl -> zsl_level zsl' = Nat.max (c_height c) (zsl_level zsl) ->
  zsl_tail zsl' = (if decide (a = length l) then Some (c_ptr c) else zsl_tail zsl) ->
  zsl_length zsl' = wrapu 64 (zsl_length zsl + 1) ->
  linked h' zsl (zsl_level zsl') (ins l a c) ->
  (forall i, (zsl_level zsl' <= i < ZSKIPLIST_MAXLEVEL)%nat -> exists sp, lev h' (zsl_header zsl) i = Some (None, sp)) ->
  shape extra h' zsl' (ins l a c).
Proof.
  intros Hsh Ha Hb Hx Hc HS HB Eh El Et En HL Htop. pose proof (sh_level Hsh). pose proof (sh_bound Hsh).
  assert (addresses zsl' (ins l a c) extra ≡ₚ c_ptr c :: addresses zsl l extra) as HP.
  { unfold addresses, ins. rewrite Eh, fmap_app, fmap_cons. rewrite <- (take_drop a l) at 3. rewrite fmap_app, <- !app_assoc. cbn.
    by rewrite <- Permutation_middle, Permutation_swap. }
  assert (c_ptr c ∉ addresses zsl l extra) as Hfr by (intros H'%(sh_dom Hsh); rewrite Hx in H'; by apply is_Some_None in H').
  assert (forall k d, l !! k = Some d -> c_ptr d <> c_ptr c) as Hne.
  { intros k d Hd E. apply Hfr. rewrite <- E. apply (ptr_at_in (S k)). cbn. by rewrite Hd. }
  assert (forall k d, l !! k = Some d -> k <> a -> Some (c_ptr d) <> c_ptr <$> l !! a) as Hpos.
  { intros k d Hd Hk E. assert (S k = S a) by (apply (ptr_at_inj Hsh _ _ (c_ptr d)); cbn; [by rewrite Hd|done]). lia. }
  split.
  - intros p. rewrite HP, elem_of_cons, <- (sh_dom Hsh p), <- !static_some, HS. destruct (decide (p = c_ptr c)); [|tauto].
    split; [by left|by eexists].
  - rewrite HP. constructor; [done|apply (sh_nodup Hsh)].
  - rewrite Eh, HS, decide_False; [apply (sh_header Hsh)|]. intros E. apply Hfr. rewrite <- E. by left.
  - by rewrite Eh.
  - intros k p i Hp Ht. apply HL; [|done]. by destruct k; cbn in *; rewrite <- ?Eh.
  - intros k d Hd. rewrite ins_lookup in Hd by done. destruct (decide (k < a)%nat); [|destruct (decide (k = a))].
    + rewrite HS, decide_False by (by eapply Hne). by eapply (sh_cell Hsh).
    + injection Hd as <-. by rewrite HS, decide_True.
    + rewrite HS, decide_False by (by eapply Hne). by eapply (sh_cell Hsh).
  - intros k d Hd. rewrite ins_lookup in Hd by done. destruct (decide (k < a)%nat); [|destruct (decide (k = a)) as [->|Hk]].
    + rewrite HB, decide_False, decide_False by (by eapply Hne || by apply (Hpos k); [|lia]).
      rewrite (sh_back Hsh k d Hd). destruct k as [|k]; [done|]. by rewrite ins_lookup, decide_True by lia.
    + injection Hd as <-. rewrite HB, decide_True by done. destruct a as [|a]; [done|]. by rewrite ins_lookup, decide_True by lia.
    + rewrite HB, decide_False by (by eapply Hne). destruct k as [|k]; [lia|]. replace (S k - 1)%nat with k in Hd by lia.
      rewrite ins_lookup by done. destruct (decide (k = a)) as [->|Hka].
      * rewrite Hd, decide_True by done. by rewrite decide_False by lia.
      * rewrite decide_False by (by apply (Hpos k)). rewrite (sh_back Hsh k d Hd).
        rewrite decide_False by lia. by destruct k as [|k]; [lia|]; replace (S k - 1)%nat with k by lia.
  - rewrite Et, last_ins, (sh_tail Hsh) by done. by case_decide.
  - rewrite En, (sh_length Hsh), ins_length by done. rewrite wrap_small by lia. lia.
  - rewrite ins_length by done. lia.
  - unfold ins. pose proof (sh_heights Hsh) as Hh. assert (Forall (fun c => 1 <= c_height c <= zsl_level zsl')%nat l) as Hh'.
    { eapply Forall_impl; [done|]. cbn. intros d Hd. lia. }
    apply Forall_app. split; [by apply Forall_take|]. constructor; [lia|by apply Forall_drop].
  - lia.
  - right. apply Exists_exists. destruct (decide (zsl_level zsl <= c_height c)%nat).
    + exists c. split; [|lia]. unfold ins. apply elem_of_app. right. by left.
    + destruct (sh_max Hsh) as [Hm|Hm]; [lia|]. apply Exists_exists in Hm as (d & Hd & Em). exists d. split; [|lia].
      unfold ins. rewrite <- (take_drop a l) in Hd. apply elem_of_app in Hd as [Hd|Hd]; apply elem_of_app; [by left|right; by right].
Qed.

(** The last part of an insertion: backward pointers, tail and length. *)
Lemma link_backward h zsl l a x b len top :
  is_Some (h !! x) -> lev h x 0 = Some (fwd 0 (drop a l)) -> (fwd 0 (drop a l)).1 = c_ptr <$> l !! a ->
  (forall c, l !! a = Some c -> is_Some (h !! c_ptr c) /\ c_ptr c <> x) ->
  exists h',
    (h ← set_backward h x b;
     l ← lev h x 0;
     match l.1 with
     | Some f => h ← set_backward h f (Some x); Some (h, Zskiplist (zsl_header zsl) (zsl_tail zsl) len top, x)
     | None => Some (h, Zskiplist (zsl_header zsl) (Some x) len top, x)
     end) = Some (h', Zskiplist (zsl_header zsl) (if decide (a < length l)%nat then zsl_tail zsl else Some x) len top, x) /\
    (forall p, static h' p = static h p) /\ (forall q i, lev h' q i = lev h q i) /\
    forall p, back h' p = if decide (p = x) then Some b else if decide (Some p = c_ptr <$> l !! a) then Some (Some x) else back h p.
Proof.
  intros Hx HL Hf Hc. destruct (set_backward_spec h x b Hx) as (h1 & -> & S1 & L1 & B1). mstep. rewrite L1, HL. mstep. rewrite Hf.
  destruct (l !! a) as [c|] eqn:Ea; cbn [fmap option_fmap option_map].
  - destruct (Hc c eq_refl) as [Hcs Hne].
    destruct (set_backward_spec h1 (c_ptr c) (Some x)) as (h2 & -> & S2 & L2 & B2); [by rewrite <- static_some, S1, static_some|].
    mstep. exists h2. apply lookup_lt_Some in Ea. rewrite decide_True by done. split; [done|]. split_and!.
    + intros p. by rewrite S2.
    + intros q i. by rewrite L2.
    + intros p. rewrite B2, B1. destruct (decide (p = x)) as [->|]; [by rewrite decide_False|].
      destruct (decide (p = c_ptr c)) as [->|]; [by rewrite decide_True|]. by rewrite decide_False by congruence.
  - exists h1. apply lookup_ge_None in Ea. rewrite decide_False by lia. split; [done|]. split_and!; [done|done|].
    intros p. rewrite B1. by destruct (decide (p = x)).
Qed.

Section insertion.
  Context (zmalloc : zheap -> nat) (junk : nat -> option nat * (option nat * Z)).
  Context (Hmalloc : forall h, h !! zmalloc h = None).

(** The new heap up to the backward pointers. *)
Lemma insert_links extra h zsl l a lvl s e h1 :
  let top := Nat.max lvl (zsl_level zsl) in
  let x := zmalloc h1 in
  shape extra h zsl l -> (a <= length l)%nat -> Z.of_nat (length l) < 2 ^ 63 - 1 -> (1 <= lvl)%nat ->
  agree h h1 -> linked h1 zsl top l ->
  (forall i, (top <= i < ZSKIPLIST_MAXLEVEL)%nat -> exists sp, lev h1 (zsl_header zsl) i = Some (None, sp)) ->
  exists h2 h3,
    link_levels (zslCreateNode zmalloc junk h1 lvl s (Some e)).1 x (Z.of_nat a) 0 (take lvl (path zsl l a top)) = Some h2 /\
    bump_levels h2 lvl (drop lvl (path zsl l a top)) = Some h3 /\ h !! x = None /\
    (forall p, static h3 p = if decide (p = x) then Some (Some e, s, lvl) else static h p) /\
    (forall p, p <> x -> back h3 p = back h p) /\
    linked h3 zsl top (ins l a (Cell x lvl s e)) /\
    (forall i, (top <= i < ZSKIPLIST_MAXLEVEL)%nat -> exists sp, lev h3 (zsl_header zsl) i = Some (None, sp)).
Proof using Hmalloc.
  intros top x Hsh Ha Hb Hlvl A1 HL1 HT1. unfold zslCreateNode. cbn [fst]. fold x.
  set (h0 := <[x := Node (Some e) s (junk x).1 (replicate lvl (junk x).2)]> h1).
  assert (h !! x = None) as Hx.
  { apply eq_None_not_Some. rewrite <- (agree_dom h h1) by done. unfold x. rewrite Hmalloc. apply is_Some_None. }
  assert (forall k, ptr_at zsl l k <> Some x) as Hfresh.
  { intros k H%(ptr_at_in (extra := extra))%(sh_dom Hsh). rewrite Hx in H. by apply is_Some_None in H. }
  assert (forall q, q <> x -> h0 !! q = h1 !! q) as L0 by (intros q Hq; unfold h0; by rewrite lookup_insert_ne).
  assert (Forall (fun c => 1 <= c_height c <= top)%nat l) as Hh.
  { eapply Forall_impl; [apply (sh_heights Hsh)|]. cbn. intros c Hc. lia. }
  assert (linked h0 zsl top l) as HL0.
  { intros k p i Hp Ht. unfold lev. rewrite L0; [by apply HL1|]. intros ->. by eapply Hfresh. }
  destruct (splice_levels zsl l a top x lvl h0) as (h2 & h3 & E2 & E3 & A3 & L3); try done; [lia|..].
  { intros m Hm. unfold lev, h0. rewrite lookup_insert_eq. cbn. rewrite lookup_replicate_2 by done. by eexists. }
  exists h2, h3. split_and!; [done|done|done|..].
  - intros p. destruct (A3 p) as [-> _], (A1 p) as [<- _]. unfold static. case_decide as E.
    + subst p. unfold h0. rewrite lookup_insert_eq. cbn. by rewrite length_replicate.
    + by rewrite L0.
  - intros p Hp. destruct (A3 p) as [_ ->], (A1 p) as [_ <-]. unfold back. by rewrite L0.
  - eapply splice_linked; [done..| |done|lia|done|exact L3]. intros k k' p. apply (ptr_at_inj Hsh).
  - intros i Hi. rewrite L3, decide_False by lia. unfold lev. rewrite L0; [by apply HT1|]. intros E. apply (Hfresh 0%nat). by rewrite <- E.
Qed.

Lemma zslInsert_shape extra h zsl l a draws lvl s e :
  shape extra h zsl l -> (a <= length l)%nat -> Z.of_nat (length l) < 2 ^ 63 - 1 -> zslRandomLevel draws = Some lvl ->
  isnan s = false -> stops h l (fun _ => node_before false s e) a ->
  exists h' zsl' x, zslInsert zmalloc junk draws h zsl s e = Some (h', zsl', x) /\ h !! x = None /\
    shape extra h' zsl' (ins l a (Cell x lvl s e)) /\ zsl_header zsl' = zsl_header zsl /\
    (forall p, p <> x -> static h' p = static h p).
Proof using Hmalloc.
  intros Hsh Ha Hb Hr Hs Hgo. unfold zslInsert. rewrite Hs, (zsl_search_spec Hsh _ a), Hr by done. mstep.
  pose proof (zslRandomLevel_bound _ _ Hr) as Hlvl. pose proof (sh_level Hsh) as Hzl.
  destruct (raise_linked extra h zsl l a lvl Hsh Hlvl) as (h1 & -> & A1 & HL1 & HT1). mstep.
  destruct (insert_links extra h zsl l a lvl s e h1) as (h2 & h3 & E2 & E3 & Hx & S3 & B3 & HL3 & HT3); try done; [lia|].
  unfold zslCreateNode in *. cbn [fst] in E2. set (x := zmalloc h1) in *. set (top := Nat.max lvl (zsl_level zsl)) in *.
  rewrite path_lookup, (last_tall_bottom Hsh) by lia. mstep. cbn [fst snd]. rewrite E2. mstep. rewrite E3. mstep.
  assert (forall p, is_Some (h !! p) -> is_Some (h3 !! p) /\ p <> x) as Hin.
  { intros p Hp. assert (p <> x) by (intros ->; rewrite Hx in Hp; by apply is_Some_None in Hp).
    split; [|done]. by rewrite <- static_some, S3, decide_False, static_some. }
  edestruct (link_backward h3 zsl l a x) as (h4 & -> & S4 & L4 & B4).
  { apply static_some. rewrite S3, decide_True by done. by eexists. }
  { rewrite (HL3 (S a) x 0%nat); [|cbn; rewrite ins_lookup, decide_False, decide_True by lia..].
    - rewrite ins_drop_after by lia. by replace (S a - 1)%nat with a by lia.
    - done.
    - eexists. split; [done|]. unfold tall. cbn. lia. }
  { by rewrite (fwd_bottom Hsh). }
  { intros c Hc. apply Hin, static_some. rewrite (sh_cell Hsh a c Hc). by eexists. }
  eexists h4, _, x. split; [done|]. split; [done|]. split_and!; [|done|].
  - eapply (ins_shape extra h zsl); [done..|cbn; lia| | |done|done| |done| |].
    + intros p. by rewrite S4, S3.
    + intros p. rewrite B4, (ptr_prev Hsh) by done. cbn [c_ptr]. destruct (decide (p = x)); [done|]. by rewrite B3.
    + cbn. repeat case_decide; (done || lia).
    + intros k p i. cbn [zsl_level]. rewrite L4. apply HL3.
    + intros i Hi. rewrite L4. by apply HT3.
  - intros p Hp. by rewrite S4, S3, decide_False.
Qed.
End insertion.

(** ** Unlinking a node *)

Definition del (l : list cell) (a : nat) : list cell := take a l ++ drop (S a) l.

Lemma del_lookup l a k : (a < length l)%nat -> del l a !! k = if decide (k < a)%nat then l !! k else l !! S k.
Proof. intros Ha. unfold del. by rewrite lookup_remove_at by lia. Qed.

Lemma del_length l a : (a < length l)%nat -> length (del l a) = (length l - 1)%nat.
Proof. intros Ha. unfold del. rewrite length_app, length_take, length_drop. lia. Qed.

Lemma del_drop_before l a k : (k <= a < length l)%nat -> drop k (del l a) = drop k (take a l) ++ drop (S a) l.
Proof. intros Hk. unfold del. rewrite drop_app_le; [done|]. rewrite length_take. lia. Qed.

Lemma del_drop_after l a k : (a <= k)%nat -> (a < length l)%nat -> drop k (del l a) = drop (S k) l.
Proof.
  intros Hk Ha. unfold del. rewrite drop_app_ge by (rewrite length_take; lia). rewrite length_take, drop_drop. f_equal. lia.
Qed.

Lemma last_tall_del l a i : (a <= length l)%nat -> last_tall (del l a) i a = last_tall l i a.
Proof.
  intros Ha. assert (forall b, (b <= a)%nat -> last_tall (del l a) i b = last_tall l i b) as H; [|by apply H].
  induction b as [|b IH]; [done|]. intros Hb. cbn [last_tall]. unfold del. rewrite lookup_app_l by (rewrite length_take; lia).
  rewrite lookup_take_lt by lia. fold (del l a). by rewrite IH by lia.
Qed.

Lemma ptr_del zsl l a k : (k <= a <= length l)%nat -> ptr zsl (del l a) k = ptr zsl l k.
Proof.
  intros Hk. unfold ptr. destruct k as [|k]; [done|]. cbn [ptr_at]. unfold del.
  rewrite lookup_app_l by (rewrite length_take; lia). by rewrite lookup_take_lt by lia.
Qed.

Lemma fwd_in i s p : (fwd i s).1 = Some p -> p ∈ c_ptr <$> s.
Proof.
  induction s as [|c s IH]; cbn [fwd]; [done|]. rewrite fmap_cons. destruct (i <? c_height c)%nat; cbn [fst].
  - intros [= <-]. by left.
  - intros H. right. by apply IH.
Qed.

Section unlink.
  Context {extra : list nat} {h : zheap} {zsl : zskiplist} {l : list cell} (Hsh : shape extra h zsl l).
  Context (a : nat) (c : cell) (Hc : l !! a = Some c) (us : list (nat * Z)).
  Context (Hus : forall i, (i < zsl_level zsl)%nat -> exists r, us !! i = Some (ptr zsl l (last_tall l i a), r)).

Let x := c_ptr c.

Lemma unlink_len : (a < length l)%nat.
Proof using Hc. by apply lookup_lt_Some in Hc. Qed.

Lemma shape_linked : linked h zsl (zsl_level zsl) l.
Proof using Hsh. intros k p i. apply (sh_lev Hsh). Qed.

Lemma unlink_old i : (i < zsl_level zsl)%nat ->
  lev h (ptr zsl l (last_tall l i a)) i =
    Some ((fwd i (drop a l)).1, Z.of_nat a - Z.of_nat (last_tall l i a) + (fwd i (drop a l)).2).
Proof using Hsh Hc.
  pose proof unlink_len. intros Hi. pose proof (sh_heights Hsh). pose proof (sh_level Hsh).
  apply (link_old zsl l a (zsl_level zsl) 1); [apply shape_linked|lia|lia|done|done].
Qed.

(** Both branches of the loop give what follows the node. *)
Lemma unlink_new i : (i < zsl_level zsl)%nat ->
  let r := fwd i (drop (S a) l) in
  (fwd i (drop a l) = (Some x, 1) /\ lev h x i = Some r) \/ (fwd i (drop a l) = (r.1, r.2 + 1) /\ r.1 <> Some x).
Proof using Hsh Hc.
  intros Hi r. rewrite (drop_S l c a) by done. cbn [fwd]. destruct (Nat.ltb_spec i (c_height c)) as [Ht|Ht].
  - left. split; [done|]. apply (sh_lev Hsh (S a)); [cbn; by rewrite Hc|]. exists c. by split.
  - right. split; [done|]. intros E%fwd_in. apply list_elem_of_fmap in E as (d & Ed & Hd).
    apply list_elem_of_lookup in Hd as [j Hj]. rewrite lookup_drop in Hj.
    assert (S (S a + j) = S a); [|lia]. apply (ptr_at_inj Hsh _ _ x); cbn [ptr_at]; [by rewrite Hj, Ed|by rewrite Hc].
Qed.

Lemma zsl_unlink_spec : exists h',
  unlink_levels h x 0 (take (zsl_level zsl) us) = Some h' /\ agree h h' /\
  forall q i, lev h' q i =
    if decide (i < zsl_level zsl /\ q = ptr zsl l (last_tall l i a))%nat then
      Some ((fwd i (drop (S a) l)).1, Z.of_nat a - Z.of_nat (last_tall l i a) + (fwd i (drop (S a) l)).2)
    else lev h q i.
Proof using Hsh Hc Hus.
  pose proof unlink_len as Hlen. pose proof (sh_bound Hsh).
  assert (forall m, entry (take (zsl_level zsl) us) 0 m = if decide (m < zsl_level zsl)%nat then us !! m else None) as E.
  { intros m. unfold entry. rewrite decide_True, Nat.sub_0_r by lia. case_decide; [by apply lookup_take_lt|by apply lookup_take_ge; lia]. }
  destruct (unlink_levels_spec h x 0 (take (zsl_level zsl) us)) as (h' & E' & A' & L').
  - intros m u r. rewrite E. case_decide as Hm; [|done]. destruct (Hus m Hm) as [r' ->]. intros [= <- _]. split.
    + intros Ex. pose proof (last_tall_le l m a). assert (last_tall l m a = S a); [|lia].
      apply (ptr_at_inj Hsh _ _ x); [by rewrite <- Ex, ptr_at_ptr by lia|cbn; by rewrite Hc].
    + rewrite unlink_old by done. eexists. split; [done|]. cbn [fst]. destruct (unlink_new m Hm) as [[_ ->]|[-> ?]]; [by eexists|done].
  - exists h'. split; [done|]. split; [done|]. intros q i. rewrite L', E.
    destruct (decide (i < zsl_level zsl)%nat) as [Hi|Hi]; [|by rewrite decide_False by (intros [? _]; lia)].
    destruct (Hus i Hi) as [r' ->]. destruct (decide (q = ptr zsl l (last_tall l i a))) as [->|Hq]; [|by no_pair].
    rewrite decide_True by done. rewrite unlink_old by done. mstep. cbn [fst snd].
    pose proof (last_tall_le l i a). pose proof (fwd_span_bound i (drop (S a) l)) as Hsp. rewrite length_drop in Hsp.
    destruct (unlink_new i Hi) as [[-> ->]|[-> Hne]]; cbn [fst snd].
    + rewrite decide_True by done. mstep. rewrite wrap_small by lia. do 2 f_equal. lia.
    + rewrite decide_False by done. rewrite wrap_small by lia. do 2 f_equal. lia.
Qed.

Lemma unlink_linked h' :
  (forall q i, lev h' q i =
    if decide (i < zsl_level zsl /\ q = ptr zsl l (last_tall l i a))%nat then
      Some ((fwd i (drop (S a) l)).1, Z.of_nat a - Z.of_nat (last_tall l i a) + (fwd i (drop (S a) l)).2)
    else lev h q i) ->
  linked h' zsl (zsl_level zsl) (del l a).
Proof using Hsh Hc.
  intros HL k p i Hp Ht. pose proof unlink_len as Hlen. pose proof (sh_heights Hsh) as Hh. pose proof (last_tall_le l i a).
  assert (i < zsl_level zsl)%nat as Hi.
  { eapply (tall_at_lt _ (del l a)); [|done]. apply Forall_app. split; [by apply Forall_take|by apply Forall_drop]. }
  rewrite HL. destruct (decide (k <= a)%nat) as [Hka|Hka].
  - assert (ptr_at zsl l k = Some p) as Hp' by (destruct k as [|k]; [done|]; cbn in *; rewrite del_lookup, decide_True in Hp by lia; done).
    assert (tall_at (zsl_level zsl) l k i) as Ht' by (destruct k as [|k]; [done|]; cbn in *; rewrite del_lookup, decide_True in Ht by lia; done).
    pose proof (between _ l i a k ltac:(lia) Ht' Hi) as Hb. rewrite del_drop_before by lia.
    destruct (decide (k = last_tall l i a)) as [Ek|Ek].
    + rewrite Ek in Hp' at 1. rewrite ptr_at_ptr in Hp' by lia. injection Hp' as <-.
      rewrite decide_True by done. rewrite fwd_app_short, length_drop, length_take by done. do 2 f_equal. lia.
    + rewrite fwd_app_tall by done. rewrite decide_False.
      * rewrite (sh_lev Hsh k p i Hp' Ht'), (drop_split l a k), fwd_app_tall by (done || lia). done.
      * intros [_ ->]. apply Ek. eapply (ptr_at_inj Hsh); [done|]. apply ptr_at_ptr. lia.
  - destruct k as [|k]; [lia|]. cbn [ptr_at tall_at] in *. rewrite del_lookup, decide_False in Hp, Ht by lia.
    rewrite del_drop_after by lia. rewrite decide_False; [by apply (sh_lev Hsh (S (S k)))|].
    intros [_ ->]. assert (S (S k) = last_tall l i a) by (eapply (ptr_at_inj Hsh); [done|apply ptr_at_ptr; lia]). lia.
Qed.
End unlink.

(** The levels that became empty are dropped. *)
Lemma shrink_level_spec h zsl l lvl :
  linked h zsl lvl l -> (1 <= lvl)%nat -> Forall (fun c => 1 <= c_height c <= lvl)%nat l ->
  exists lvl', shrink_level h (zsl_header zsl) lvl = Some lvl' /\ (1 <= lvl' <= lvl)%nat /\
    Forall (fun c => 1 <= c_height c <= lvl')%nat l /\ (lvl' = 1%nat \/ Exists (fun c => c_height c = lvl') l) /\
    forall i, (lvl' <= i < lvl)%nat -> exists sp, lev h (zsl_header zsl) i = Some (None, sp).
Proof.
  induction lvl as [|lvl IH]; intros HL Hlvl Hh; [lia|]. destruct lvl as [|lvl].
  { exists 1%nat. split_and!; [done|lia|lia|done|by left|lia]. }
  change (shrink_level h (zsl_header zsl) (S (S lvl))) with
    (l ← lev h (zsl_header zsl) (S lvl);
     match l.1 with None => shrink_level h (zsl_header zsl) (S lvl) | Some _ => Some (S (S lvl)) end).
  pose proof (HL 0%nat (zsl_header zsl) (S lvl) eq_refl ltac:(cbn; lia)) as E. rewrite drop_0 in E. rewrite E. mstep.
  destruct (decide (Exists (tall (S lvl)) l)) as [Hex|Hno].
  - destruct (fwd_some _ _ Hex) as (s1 & c & s2 & -> & Hc & _ & E1). rewrite E1. cbn [fst].
    exists (S (S lvl)). split_and!; [done|lia|lia|done| |lia]. right. apply Exists_app. right. left.
    apply Forall_app in Hh as [_ Hh]. apply Forall_cons in Hh as [Hh _]. unfold tall in Hc. lia.
  - apply not_Exists_Forall in Hno; [|intros; apply tall_dec]. rewrite fwd_none in E |- * by done. cbn [fst].
    destruct IH as (lvl' & -> & ? & ? & ? & HT); [|lia| |].
    + intros k p i Hp Ht. apply HL; [done|]. destruct k; cbn in *; [lia|done].
    + eapply Forall_impl; [apply Forall_and; exact (conj Hh Hno)|]. unfold tall. cbn. intros c [? ?]. lia.
    + exists lvl'. split_and!; [done|lia|lia|done|done|]. intros i Hi. destruct (decide (i = S lvl)) as [->|]; [by eexists|apply HT; lia].
Qed.

(** The backward pointer of the next node, or the tail. *)
Lemma unlink_backward h (next : option cell) b tl :
  (forall d, next = Some d -> is_Some (h !! c_ptr d)) ->
  exists h',
    match c_ptr <$> next with
    | Some f => h ← set_backward h f b; Some (h, tl)
    | None => Some (h, b)
    end = Some (h', match next with Some _ => tl | None => b end) /\
    (forall p, static h' p = static h p) /\ (forall q i, lev h' q i = lev h q i) /\
    forall p, back h' p = if decide (Some p = c_ptr <$> next) then Some b else back h p.
Proof.
  intros Hn. destruct next as [d|]; cbn [fmap option_fmap option_map].
  - destruct (set_backward_spec h (c_ptr d) b) as (h' & -> & S1 & L1 & B1); [by apply Hn|]. mstep. exists h'. split; [done|].
    split_and!; [done|done|]. intros p. rewrite B1. destruct (decide (p = c_ptr d)) as [->|]; [by rewrite decide_True|].
    by rewrite decide_False by congruence.
  - exists h. split; [done|]. split_and!; done.
Qed.

(** The heap of a skiplist with a node less; the node stays allocated. *)
Lemma del_shape extra h zsl l a c h' zsl' :
  shape extra h zsl l -> l !! a = Some c ->
  (forall p, static h' p = static h p) ->
  (forall p, back h' p = if decide (Some p = c_ptr <$> l !! S a) then back h (c_ptr c) else back h p) ->
  zsl_header zsl' = zsl_header zsl ->
  zsl_tail zsl' = match l !! S a with Some _ => zsl_tail zsl | None => match a with O => None | S k => c_ptr <$> l !! k end end ->
  zsl_length zsl' = wrapu 64 (zsl_length zsl - 1) ->
  (1 <= zsl_level zsl' <= zsl_level zsl)%nat -> linked h' zsl (zsl_level zsl') (del l a) ->
  (forall i, (zsl_level zsl' <= i < ZSKIPLIST_MAXLEVEL)%nat -> exists sp, lev h' (zsl_header zsl) i = Some (None, sp)) ->
  Forall (fun c => 1 <= c_height c <= zsl_level zsl')%nat (del l a) ->
  zsl_level zsl' = 1%nat \/ Exists (fun c => c_height c = zsl_level zsl') (del l a) ->
  shape (c_ptr c :: extra) h' zsl' (del l a).
Proof.
  intros Hsh Hc HS HB Eh Et En El HL Htop Hh Hm. pose proof (sh_level Hsh). pose proof (sh_bound Hsh). pose proof (lookup_lt_Some _ _ _ Hc).
  assert (addresses zsl' (del l a) (c_ptr c :: extra) ≡ₚ addresses zsl l extra) as HP.
  { unfold addresses, del. rewrite Eh, fmap_app. rewrite <- (take_drop_middle l a c) at 3 by done. rewrite fmap_app, fmap_cons, <- !app_assoc. cbn.
    by rewrite <- (Permutation_middle _ _ (c_ptr c)). }
  assert (forall k d, l !! k = Some d -> k <> S a -> Some (c_ptr d) <> c_ptr <$> l !! S a) as Hpos.
  { intros k d Hd Hk E. assert (S k = S (S a)) by (apply (ptr_at_inj Hsh _ _ (c_ptr d)); cbn; [by rewrite Hd|done]). lia. }
  split; try done.
  - intros p. by rewrite HP, <- (sh_dom Hsh p), <- !static_some, HS.
  - rewrite HP. apply (sh_nodup Hsh).
  - rewrite Eh, HS. apply (sh_header Hsh).
  - by rewrite Eh.
  - intros k p i Hp Ht. apply HL; [|done]. by destruct k; cbn in *; rewrite <- ?Eh.
  - intros k d Hd. rewrite del_lookup in Hd by done. rewrite HS. by case_decide; eapply (sh_cell Hsh).
  - intros k d Hd. rewrite del_lookup in Hd by done. rewrite HB. destruct (decide (k < a)%nat) as [Hk|Hk].
    + rewrite decide_False by (by apply (Hpos k); [|lia]). rewrite (sh_back Hsh k d Hd). destruct k as [|k]; [done|].
      by rewrite del_lookup, decide_True by lia.
    + destruct (decide (k = a)) as [->|Hka].
      * rewrite Hd, decide_True by done. rewrite (sh_back Hsh a c Hc). destruct a as [|a]; [done|].
        by rewrite del_lookup, decide_True by lia.
      * rewrite decide_False by (by apply (Hpos (S k)); [|lia]). rewrite (sh_back Hsh (S k) d Hd).
        destruct k as [|k]; [lia|]. by rewrite del_lookup, decide_False by lia.
  - rewrite Et, last_lookup, del_length, del_lookup by done. pose proof (sh_tail Hsh) as Htl. rewrite last_lookup in Htl.
    destruct (l !! S a) as [d|] eqn:Ed.
    + apply lookup_lt_Some in Ed. rewrite Htl, decide_False by lia. do 2 f_equal. lia.
    + apply lookup_ge_None in Ed. destruct a as [|a].
      * rewrite decide_False by lia. by rewrite lookup_ge_None_2 by lia.
      * rewrite decide_True by lia. do 2 f_equal. lia.
  - rewrite En, (sh_length Hsh), del_length by done. rewrite wrap_small by lia. lia.
  - rewrite del_length by done. lia.
  - lia.
Qed.

(** The pointers a search to position [a] leaves in [update]. *)
Definition updates (zsl : zskiplist) (l : list cell) (a : nat) (us : list (nat * Z)) : Prop :=
  forall i, (i < zsl_level zsl)%nat -> exists r, us !! i = Some (ptr zsl l (last_tall l i a), r).

Lemma path_updates zsl l a : updates zsl l a (path zsl l a (zsl_level zsl)).
Proof. intros i Hi. eexists. by apply path_lookup. Qed.

Lemma updates_del zsl zsl' l a us :
  (a < length l)%nat -> zsl_header zsl' = zsl_header zsl -> (zsl_level zsl' <= zsl_level zsl)%nat ->
  updates zsl l a us -> updates zsl' (del l a) a us.
Proof.
  intros Ha Eh El Hus i Hi. destruct (Hus i) as [r ->]; [lia|]. exists r. pose proof (last_tall_le l i a).
  rewrite last_tall_del, ptr_del by lia. do 2 f_equal. unfold ptr. destruct (last_tall l i a); cbn; [done|by rewrite Eh].
Qed.

Lemma zslDeleteNode_shape extra h zsl l a c us :
  shape extra h zsl l -> l !! a = Some c -> updates zsl l a us ->
  exists h' zsl', zslDeleteNode h zsl (c_ptr c) us = Some (h', zsl') /\ shape (c_ptr c :: extra) h' zsl' (del l a) /\
    zsl_header zsl' = zsl_header zsl /\ (zsl_level zsl' <= zsl_level zsl)%nat /\ (forall p, static h' p = static h p).
Proof.
  intros Hsh Hc Hus. pose proof (sh_level Hsh) as Hlvl. pose proof (lookup_lt_Some _ _ _ Hc) as Hlen. unfold zslDeleteNode.
  destruct (Nat.leb_spec (zsl_level zsl) (length us)) as [_|Hl].
  2: { destruct (Hus (zsl_level zsl - 1)%nat) as [r Hr%lookup_lt_Some]; lia. }
  destruct (zsl_unlink_spec Hsh a c Hc us Hus) as (h1 & -> & A1 & L1). mstep.
  pose proof (unlink_linked Hsh a c Hc h1 L1) as HL.
  assert (lev h1 (c_ptr c) 0 = Some (fwd 0 (drop (S a) l))) as Ex.
  { rewrite L1, decide_False.
    - apply (sh_lev Hsh (S a)); [cbn; by rewrite Hc|apply (tall_at_bottom Hsh); lia].
    - intros [_ E]. pose proof (last_tall_le l 0 a). assert (S a = last_tall l 0 a); [|lia].
      apply (ptr_at_inj Hsh _ _ (c_ptr c)); [cbn; by rewrite Hc|by rewrite E, ptr_at_ptr by lia]. }
  assert (exists n, h1 !! c_ptr c = Some n /\ back h (c_ptr c) = Some (backward n)) as (n & Hn & Hbn).
  { destruct (A1 (c_ptr c)) as [_ <-]. unfold back. unfold lev in Ex. destruct (h1 !! c_ptr c) as [n|]; [|done]. by exists n. }
  assert (level n !! 0%nat = Some (fwd 0 (drop (S a) l))) as En by (unfold lev in Ex; by rewrite Hn in Ex).
  rewrite Hn. mstep. rewrite En. mstep. rewrite (fwd_bottom Hsh). cbn [fst].
  destruct (unlink_backward h1 (l !! S a) (backward n) (zsl_tail zsl)) as (h2 & -> & S2 & L2 & B2).
  { intros d Hd. apply (agree_dom h h1); [done|]. apply static_some. rewrite (sh_cell Hsh (S a) d Hd). by eexists. }
  mstep. destruct (shrink_level_spec h2 zsl (del l a) (zsl_level zsl)) as (lvl & -> & Hlv & Hh & Hm & HT); [|lia| |].
  { intros k p i. rewrite L2. apply HL. }
  { apply Forall_app. split; [apply Forall_take|apply Forall_drop]; apply (sh_heights Hsh). }
  mstep. eexists h2, _. split; [done|]. split_and!; [|done|cbn; lia|intros p; rewrite S2; apply A1].
  eapply del_shape; [done|done|intros p; rewrite S2; apply A1| |done| |done|done| | |done|done].
  - intros p. rewrite B2, Hbn. destruct (A1 p) as [_ ->]. done.
  - cbn. pose proof (sh_back Hsh a c Hc) as Hb. rewrite Hbn in Hb. injection Hb as ->. done.
  - intros k p i Hp Ht. rewrite L2. apply HL; [done|]. destruct k; cbn in *; [lia|done].
  - intros i Hi. cbn in Hi. destruct (decide (i < zsl_level zsl)%nat); [apply HT; lia|].
    rewrite L2, L1, decide_False by (intros [? _]; lia). apply (sh_top Hsh). lia.
Qed.

(** Freeing a node that is not linked. *)
Lemma zslFreeNode_shape x extra h zsl l :
  shape (x :: extra) h zsl l ->
  exists h', zslFreeNode h x = Some h' /\ shape extra h' zsl l /\ (forall p, p <> x -> static h' p = static h p).
Proof.
  intros Hsh. assert (addresses zsl l (x :: extra) ≡ₚ x :: addresses zsl l extra) as HP.
  { unfold addresses. rewrite <- Permutation_middle. apply Permutation_swap. }
  pose proof (sh_nodup Hsh) as Hnd. rewrite HP in Hnd. apply NoDup_cons in Hnd as [Hx Hnd].
  unfold zslFreeNode. destruct (proj2 (sh_dom Hsh x)) as [n Hn]; [rewrite HP; by left|]. rewrite Hn. mstep.
  assert (forall p, p ∈ addresses zsl l extra -> delete x h !! p = h !! p) as Hsame.
  { intros p Hp. rewrite lookup_delete_ne; [done|]. by intros ->. }
  eexists. split; [done|]. split; [|intros p Hp; unfold static; by rewrite lookup_delete_ne].
  assert (forall k c, l !! k = Some c -> c_ptr c ∈ addresses zsl l extra) as Hcell.
  { intros k c Hc. apply (ptr_at_in (S k)). cbn. by rewrite Hc. }
  split; try apply Hsh.
  - intros p. destruct (decide (p = x)) as [->|Hpx].
    + rewrite lookup_delete_eq. split; [by intros ?%is_Some_None|done].
    + rewrite lookup_delete_ne, (sh_dom Hsh), HP, elem_of_cons by done. tauto.
  - done.
  - unfold static. rewrite Hsame by (by left). apply (sh_header Hsh).
  - intros i. unfold lev. rewrite Hsame by (by left). apply (sh_top Hsh).
  - intros k p i Hp Ht. unfold lev. rewrite Hsame by (by eapply ptr_at_in). by apply (sh_lev Hsh).
  - intros k c Hc. unfold static. rewrite Hsame by (by eapply Hcell). by apply (sh_cell Hsh k).
  - intros k c Hc. unfold back. rewrite Hsame by (by eapply Hcell). by apply (sh_back Hsh k).
Qed.

(** ** Changing a score in place *)

Definition same_place (c d : cell) : Prop := c_ptr c = c_ptr d /\ c_height c = c_height d.

Lemma fwd_same i l l' : Forall2 same_place l l' -> fwd i l = fwd i l'.
Proof. induction 1 as [|c d l l' [E1 E2] H IH]; [done|]. cbn [fwd]. by rewrite E1, E2, IH. Qed.

Lemma same_lookup l l' k d : Forall2 same_place l l' -> l' !! k = Some d -> exists c, l !! k = Some c /\ same_place c d.
Proof. intros H Hd. eapply Forall2_lookup_r in H as (c & ? & ?); [|done]. by exists c. Qed.

Lemma same_ptrs l l' : Forall2 same_place l l' -> c_ptr <$> l = c_ptr <$> l'.
Proof. induction 1 as [|c d l l' [E _] _ IH]; [done|]. by rewrite !fmap_cons, E, IH. Qed.

Lemma same_ptr l l' k : Forall2 same_place l l' -> c_ptr <$> l' !! k = c_ptr <$> l !! k.
Proof. intros H. by rewrite <- !list_lookup_fmap, (same_ptrs l l'). Qed.

Lemma same_heights (P : nat -> Prop) l l' :
  Forall2 same_place l l' -> Forall (fun c => P (c_height c)) l -> Forall (fun c => P (c_height c)) l'.
Proof. induction 1 as [|c d l l' [_ E] _ IH]; [done|]. intros [? ?]%Forall_cons. constructor; [by rewrite <- E|by apply IH]. Qed.

Lemma shape_rescore extra h zsl l h' l' :
  shape extra h zsl l -> Forall2 same_place l l' ->
  (forall p, is_Some (h' !! p) <-> is_Some (h !! p)) -> (forall p i, lev h' p i = lev h p i) -> (forall p, back h' p = back h p) ->
  (forall p, (forall k c, l !! k = Some c -> c_ptr c <> p) -> static h' p = static h p) ->
  (forall k c, l' !! k = Some c -> static h' (c_ptr c) = Some (Some (c_ele c), c_score c, c_height c)) ->
  shape extra h' zsl l'.
Proof.
  intros Hsh Hsame Hd HL HB HS HC. pose proof (same_ptrs l l' Hsame) as Hp.
  assert (addresses zsl l' extra = addresses zsl l extra) as HA by (unfold addresses; by rewrite Hp).
  pose proof (Forall2_length _ _ _ Hsame) as Hlen.
  split; rewrite ?HA, <- ?Hlen; try apply Hsh.
  - intros p. rewrite Hd. apply (sh_dom Hsh).
  - rewrite HS; [apply (sh_header Hsh)|]. intros k c Hc E. pose proof (nodup_ptrs Hsh) as Hn. apply NoDup_cons in Hn as [Hn _].
    apply Hn. rewrite <- E. apply list_elem_of_fmap. exists c. split; [done|by apply list_elem_of_lookup_2 in Hc].
  - intros i. rewrite HL. apply (sh_top Hsh).
  - intros k p i Hk Ht. rewrite HL, (sh_lev Hsh k p i).
    + f_equal. apply fwd_same. by apply Forall2_drop.
    + destruct k as [|k]; [done|]. cbn in *. by rewrite (same_ptr l l') in Hk.
    + destruct k as [|k]; [done|]. destruct Ht as (d & Hd' & Ht). destruct (same_lookup l l' k d Hsame Hd') as (c & Hc & _ & E).
      exists c. split; [done|]. unfold tall in *. by rewrite E.
  - done.
  - intros k d Hd'. destruct (same_lookup l l' k d Hsame Hd') as (c & Hc & E & _). rewrite HB, <- E, (sh_back Hsh k c Hc).
    destruct k as [|k]; [done|]. by rewrite (same_ptr l l').
  - rewrite (sh_tail Hsh), !last_lookup, Hlen. by rewrite (same_ptr l l').
  - eapply (same_heights (fun n => 1 <= n <= zsl_level zsl)%nat); [done|apply (sh_heights Hsh)].
  - destruct (sh_max Hsh) as [?|Hm]; [by left|right]. apply Exists_exists in Hm as (c & Hc & E). apply list_elem_of_lookup in Hc as [k Hk].
    eapply Forall2_lookup_l in Hsame as (d & Hd' & _ & E'); [|done]. apply Exists_exists. exists d.
    split; [by apply list_elem_of_lookup_2 in Hd'|by rewrite <- E'].
Qed.

Lemma set_score_shape extra h zsl l a c s :
  shape extra h zsl l -> l !! a = Some c ->
  exists h', set_score h (c_ptr c) s = Some h' /\ shape extra h' zsl (<[a := Cell (c_ptr c) (c_height c) s (c_ele c)]> l) /\
    (forall p, p <> c_ptr c -> static h' p = static h p).
Proof.
  intros Hsh Hc. destruct (shape_node Hsh a c Hc) as (n & Hn & [He Hs] & Hl). unfold set_score. rewrite Hn. mstep.
  eexists. split; [done|]. assert (forall p, p <> c_ptr c -> <[c_ptr c := Node (ele n) s (backward n) (level n)]> h !! p = h !! p) as Ho
    by (intros p Hp; by rewrite lookup_insert_ne).
  split; [|intros p Hp; unfold static; by rewrite Ho].
  eapply shape_rescore; [done|..].
  - apply Forall2_same_length_lookup. split; [by rewrite length_insert|]. intros k d d' Hd.
    destruct (decide (k = a)) as [->|Hk]; [|rewrite list_lookup_insert_ne by done; intros; replace d' with d by congruence; done].
    rewrite list_lookup_insert_eq by (by apply lookup_lt_Some in Hc). intros [= <-]. replace d with c by congruence. done.
  - intros p. destruct (decide (p = c_ptr c)) as [->|Hp]; [|by rewrite Ho]. rewrite lookup_insert_eq, Hn. split; by eexists.
  - intros p i. unfold lev. destruct (decide (p = c_ptr c)) as [->|Hp]; [|by rewrite Ho]. by rewrite lookup_insert_eq, Hn.
  - intros p. unfold back. destruct (decide (p = c_ptr c)) as [->|Hp]; [|by rewrite Ho]. by rewrite lookup_insert_eq, Hn.
  - intros p Hp. unfold static. rewrite Ho; [done|]. intros ->. by eapply Hp.
  - intros k d Hd. destruct (decide (k = a)) as [->|Hk].
    + rewrite list_lookup_insert_eq in Hd by (by apply lookup_lt_Some in Hc). injection Hd as <-. cbn. unfold static.
      rewrite lookup_insert_eq. cbn. by rewrite He, Hl.
    + rewrite list_lookup_insert_ne in Hd by done. unfold static. rewrite Ho; [by apply (sh_cell Hsh k)|].
      intros E. assert (S k = S a); [|lia]. apply (ptr_at_inj Hsh _ _ (c_ptr d)); cbn; [by rewrite Hd|by rewrite Hc, E].
Qed.
