(* ===== verification/SkiplistOrder.v ===== *)
(** * Ordered skiplists

    Insertion, deletion and score updates keep the elements in order and have
    the expected effect on them; the rank of an element and the element of a
    rank. *)
From S2P Require Import Prelude Skiplist SkiplistSpec SkiplistOps.
From Stdlib Require Import ZArith Lia SpecFloat.
From stdpp Require Import prelude list gmap sorting.

#[local] Open Scope Z_scope.

#[export] Instance flt_dec x y : Decision (flt x y).
Proof. unfold flt, lex3. destruct (fkey x) as [[??]?], (fkey y) as [[??]?]. apply _. Defined.

#[export] Instance feq_dec x y : Decision (feq x y).
Proof. unfold feq. apply _. Defined.

#[export] Instance klt_dec a b : Decision (klt a b).
Proof. unfold klt. apply _. Defined.

#[export] Instance keq_dec a b : Decision (keq a b).
Proof. unfold keq. apply _. Defined.

(** ** Prefixes *)

(** The number of elements before the first one that fails the test. *)
Fixpoint plen {A} (P : A -> bool) (l : list A) : nat :=
  match l with [] => 0%nat | c :: l => if P c then S (plen P l) else 0%nat end.

Lemma plen_le {A} (P : A -> bool) l : (plen P l <= length l)%nat.
Proof. induction l as [|c l IH]; cbn; [done|]. destruct (P c); lia. Qed.

(** The test holds for a prefix only. *)
Abbreviation antitone P l := (StronglySorted (fun c d => P d = true -> P c = true) l).

Lemma plen_spec {A} (P : A -> bool) l :
  antitone P l -> forall k c, l !! k = Some c -> P c = bool_decide (k < plen P l)%nat.
Proof.
  induction 1 as [|d l Hl IH Hd]; [done|]. cbn [plen]. intros [|k] c; cbn [lookup list_lookup].
  - intros [= <-]. destruct (P d) eqn:E; symmetry; [apply bool_decide_eq_true|apply bool_decide_eq_false]; lia.
  - intros Hc. destruct (P d) eqn:E.
    + rewrite (IH k c Hc). apply bool_decide_ext. lia.
    + eapply Forall_lookup_1 in Hd; [|done]. rewrite bool_decide_eq_false_2 by lia. destruct (P c); [by destruct Hd|done].
Qed.

Lemma filter_none {A} (P : A -> bool) l : (forall c, c ∈ l -> P c = false) -> List.filter P l = [].
Proof. induction l as [|c l IH]; intros H; [done|]. cbn. rewrite H by (by left). apply IH. intros d Hd. apply H. by right. Qed.

Lemma none_after {A} (P : A -> bool) d l :
  Forall (fun c => P c = true -> P d = true) l -> P d = false -> forall c, c ∈ l -> P c = false.
Proof. intros H E c Hc. rewrite Forall_forall in H. specialize (H c Hc). destruct (P c); [by rewrite H in E|done]. Qed.

(** The elements from the end of one prefix to the end of another. *)
Lemma filter_between {A} (P Q : A -> bool) l :
  antitone P l -> antitone Q l -> List.filter (fun c => negb (P c) && Q c) l = drop (plen P l) (take (plen Q l) l).
Proof.
  induction 1 as [|d l Hl IH Hd]; intros HQ; [done|]. apply StronglySorted_inv in HQ as [HQ HdQ]. cbn [plen List.filter].
  pose proof (none_after Q d l HdQ) as NQ. pose proof (none_after P d l Hd) as NP. destruct (Q d) eqn:EQ.
  2: { rewrite andb_false_r. cbn [take]. rewrite drop_nil. apply filter_none. intros c Hc. rewrite NQ by done. apply andb_false_r. }
  destruct (P d) eqn:EP; cbn [negb andb take drop]; [by apply IH|]. f_equal. rewrite IH by done.
  destruct l as [|c l]; [done|]. cbn [plen]. by rewrite NP by (done || by left).
Qed.

Lemma sorted_impl {A} (R S : A -> A -> Prop) l : (forall c d, R c d -> S c d) -> StronglySorted R l -> StronglySorted S l.
Proof. intros H. induction 1 as [|c l Hl IH Hc]; constructor; [done|]. eapply Forall_impl; [done|]. apply H. Qed.

(** ** Searches by score and element *)

Definition kbefore (eq : bool) (k : key) (c : cell) : bool :=
  bool_decide (klt (c_key c) k) || (eq && bool_decide (keq (c_key c) k)).

Definition pos (k : key) (l : list cell) : nat := plen (kbefore false k) l.

Lemma kbefore_antitone eq k l : StronglySorted key_order l -> antitone (kbefore eq k) l.
Proof.
  apply sorted_impl. unfold key_order, kbefore. intros c d Hcd [Hd|Hd]%orb_true_iff; apply orb_true_iff; left; apply bool_decide_eq_true.
  - apply bool_decide_eq_true in Hd. by eapply klt_trans.
  - apply andb_true_iff in Hd as [_ Hd%bool_decide_eq_true]. by rewrite <- Hd.
Qed.

Section ordered.
  Context {extra : list nat} {h : zheap} {zsl : zskiplist} {l : list cell} (Hrep : rep extra h zsl l).

Lemma rep_cell k c : l !! k = Some c -> exists n, h !! c_ptr c = Some n /\ node_of c n /\ good c.
Proof using Hrep.
  intros Hc. destruct (shape_node (rep_shape Hrep) k c Hc) as (n & Hn & Hno & _). exists n. split_and!; [done|done|].
  by eapply Forall_lookup_1; [apply (rep_good Hrep)|].
Qed.

Lemma stops_before eq s e : isnan s = false -> stops h l (fun _ => node_before eq s e) (plen (kbefore eq (s, e)) l).
Proof using Hrep.
  intros Hs k c n Hc Hn. destruct (rep_cell k c Hc) as (n' & Hn' & Hno & Hg). replace n' with n in * by congruence.
  destruct (node_before_spec eq s e c n Hno Hg Hs) as (b & -> & Hb).
  rewrite <- (plen_spec (kbefore eq (s, e)) l (kbefore_antitone eq _ _ (rep_sorted Hrep)) k c Hc). f_equal.
  apply eq_true_iff_eq. rewrite Hb. unfold kbefore. by rewrite orb_true_iff, andb_true_iff, !bool_decide_eq_true.
Qed.

Lemma pos_le k : (pos k l <= length l)%nat.
Proof using. apply plen_le. Qed.

Lemma pos_spec k i c : l !! i = Some c -> klt (c_key c) k <-> (i < pos k l)%nat.
Proof using Hrep.
  intros Hc. pose proof (plen_spec (kbefore false k) l (kbefore_antitone false k _ (rep_sorted Hrep)) i c Hc) as H.
  unfold kbefore in H. rewrite andb_false_l, orb_false_r in H. by rewrite <- (bool_decide_eq_true (klt _ _)), H, bool_decide_eq_true.
Qed.

Lemma pos_found k i c : l !! i = Some c -> keq (c_key c) k -> i = pos k l.
Proof using Hrep.
  intros Hc Hk. pose proof (pos_spec k i c Hc) as Hi. assert (~ (i < pos k l)%nat) as Hn.
  { rewrite <- Hi, Hk. apply klt_irrefl. }
  destruct (decide (i = pos k l)) as [|Hne]; [done|]. pose proof (pos_le k).
  destruct (lookup_lt_is_Some_2 l (pos k l)) as [d Hd]; [apply lookup_lt_Some in Hc; lia|].
  pose proof (proj1 (pos_spec k (pos k l) d Hd)) as Hp. exfalso.
  assert (klt (c_key d) (c_key c)) as Hdc.
  { pose proof (rep_sorted Hrep) as Hs. rewrite <- (take_drop_middle l i c Hc) in Hs. apply StronglySorted_app in Hs as (Hs & _ & _).
    apply Hs; [|by left]. apply list_elem_of_lookup. exists (pos k l). rewrite lookup_take_lt by lia. done. }
  rewrite Hk in Hdc. specialize (Hp Hdc). lia.
Qed.

(** Where the search for an element ends. *)
Lemma find_spec s e : isnan s = false ->
  let a := pos (s, e) l in
  search h (fun _ => node_before false s e) (zsl_level zsl) (zsl_header zsl) 0 = Some (path zsl l a (zsl_level zsl)) /\
  after h (path zsl l a (zsl_level zsl)) = Some (c_ptr <$> l !! a) /\
  (forall c, l !! a = Some c -> exists n, h !! c_ptr c = Some n /\ node_of c n /\ node_is s e n = Some (bool_decide (keq (c_key c) (s, e)))) /\
  ((exists c, l !! a = Some c /\ keq (c_key c) (s, e)) \/
   (forall c, c ∈ l -> ~ keq (c_key c) (s, e)) /\ forall c, l !! a = Some c -> ~ keq (c_key c) (s, e)).
Proof using Hrep.
  intros Hs a. pose proof (pos_le (s, e)). split_and!.
  - apply (zsl_search_spec (rep_shape Hrep)); [by apply stops_before|done].
  - by apply (after_spec (rep_shape Hrep)).
  - intros c Hc. destruct (rep_cell a c Hc) as (n & Hn & Hno & Hg). exists n. split_and!; [done|done|].
    destruct (node_is_spec s e c n Hno Hg Hs) as (b & -> & Hb). f_equal. apply eq_true_iff_eq. by rewrite Hb, bool_decide_eq_true.
  - assert (forall c, l !! a = Some c -> ~ keq (c_key c) (s, e) -> forall d, d ∈ l -> ~ keq (c_key d) (s, e)) as Hnone.
    { intros c Hc Hk d Hd Hkd. apply list_elem_of_lookup in Hd as [i Hi]. apply Hk.
      pose proof (pos_found (s, e) i d Hi Hkd) as ->. fold a in Hi. by replace c with d by congruence. }
    destruct (l !! a) as [c|] eqn:Ea.
    + destruct (decide (keq (c_key c) (s, e))) as [Hk|Hk]; [left; by exists c|right]. split; [by eapply Hnone|]. by intros d [= <-].
    + right. split; [|done]. intros d Hd Hkd. apply list_elem_of_lookup in Hd as [i Hi].
      pose proof (pos_found (s, e) i d Hi Hkd) as ->. unfold a in Ea. congruence.
Qed.

Lemma ins_sorted c :
  good c -> (forall d, d ∈ l -> ~ keq (c_key d) (c_key c)) -> Forall good (ins l (pos (c_key c) l) c) /\
  StronglySorted key_order (ins l (pos (c_key c) l) c).
Proof using Hrep.
  intros Hg Hn. pose proof (rep_sorted Hrep) as Hs. pose proof (rep_good Hrep) as Hgl. set (a := pos (c_key c) l).
  split; unfold ins; [apply Forall_app; split; [by apply Forall_take|constructor; [done|by apply Forall_drop]]|].
  assert (forall d, d ∈ take a l -> key_order d c) as Hlt.
  { intros d Hd. apply list_elem_of_lookup in Hd as [i Hi]. apply lookup_take_Some in Hi as [Hi Ha]. by apply (pos_spec (c_key c) i d). }
  assert (forall d, d ∈ drop a l -> key_order c d) as Hgt.
  { intros d Hd. pose proof Hd as [i Hi]%list_elem_of_lookup. rewrite lookup_drop in Hi. pose proof (pos_spec (c_key c) _ d Hi) as Hp.
    destruct (klt_total (c_key c) (c_key d)) as [?|[E|E]]; [done| |apply Hp in E; fold a in E; lia].
    destruct (Hn d); [by apply list_elem_of_lookup_2 in Hi|by symmetry]. }
  rewrite <- (take_drop a l) in Hs. apply StronglySorted_app in Hs as (H1 & H2 & H3). apply StronglySorted_app. split_and!; [|done|].
  - intros d1 d2 Hd1 [->|Hd2]%elem_of_cons; [by apply Hlt|by apply H1].
  - constructor; [done|]. apply Forall_forall. apply Hgt.
Qed.

Lemma del_sorted a : Forall good (del l a) /\ StronglySorted key_order (del l a).
Proof using Hrep.
  pose proof (rep_sorted Hrep) as Hs. pose proof (rep_good Hrep) as Hgl.
  split; unfold del; [apply Forall_app; split; [by apply Forall_take|by apply Forall_drop]|].
  destruct (decide (a < length l)%nat) as [Ha|Ha].
  - destruct (lookup_lt_is_Some_2 l a Ha) as [c Hc]. rewrite <- (take_drop_middle l a c Hc) in Hs.
    apply StronglySorted_app in Hs as (H1 & H2 & H3). apply StronglySorted_cons in H3 as [_ H3]. apply StronglySorted_app.
    split_and!; [|done|done]. intros c1 c2 Hc1 Hc2. apply H1; [done|by right].
  - by rewrite drop_ge, take_ge, app_nil_r by lia.
Qed.
End ordered.

(** ** Operations *)

Lemma del_perm l a (c : cell) : l !! a = Some c -> l ≡ₚ c :: del l a.
Proof. intros Hc. unfold del. rewrite <- (take_drop_middle l a c Hc) at 1. by rewrite <- Permutation_middle. Qed.

Lemma ins_perm l a (c : cell) : ins l a c ≡ₚ c :: l.
Proof. unfold ins. rewrite <- Permutation_middle. by rewrite take_drop. Qed.

(** The neighbours allow the new score. *)
Lemma keeps_place_spec extra h zsl l a c n new :
  rep extra h zsl l -> l !! a = Some c -> h !! c_ptr c = Some n -> isnan new = false ->
  exists b, keeps_place h n new = Some b /\
    (b = true -> (forall k d, a = S k -> l !! k = Some d -> flt (c_score d) new) /\ (forall d, l !! S a = Some d -> flt new (c_score d))).
Proof.
  intros Hrep Hc Hn Hnew. pose proof (rep_shape Hrep) as Hsh. unfold keeps_place.
  pose proof (sh_back Hsh a c Hc) as Hb. unfold back in Hb. rewrite Hn in Hb. injection Hb as Hb. rewrite Hb.
  pose proof (sh_lev Hsh (S a) (c_ptr c) 0) as HL. cbn [ptr_at] in HL. rewrite Hc in HL.
  specialize (HL eq_refl (tall_at_bottom Hsh (S a) ltac:(apply lookup_lt_Some in Hc; lia))). unfold lev in HL. rewrite Hn in HL. cbn in HL.
  rewrite (fwd_bottom Hsh) in HL.
  assert (exists b, match a with O => Some true | S k => match c_ptr <$> l !! k with None => Some true
      | Some b => bn ← h !! b; Some (SFltb (score bn) new) end end = Some b /\
    (b = true -> forall k d, a = S k -> l !! k = Some d -> flt (c_score d) new)) as (b & Eb & Hbt).
  { destruct a as [|k]; [by exists true|]. destruct (l !! k) as [d|] eqn:Ed; cbn; [|exists true; split; [done|]; intros _ ?? [= <-]; congruence].
    destruct (rep_cell Hrep k d Ed) as (m & Hm & [_ Hs] & Hg). rewrite Hm. cbn. eexists. split; [done|]. rewrite Hs.
    intros E k' d' [= <-] Hd'. replace d' with d by congruence. by apply SFltb_flt. }
  replace (match match a with O => None | S k => c_ptr <$> l !! k end with None => Some true
    | Some b => bn ← h !! b; Some (SFltb (score bn) new) end) with (Some b) by (rewrite <- Eb; by destruct a).
  mstep. destruct b; [|by exists false]. rewrite HL. mstep. cbn [fst]. specialize (Hbt eq_refl).
  destruct (l !! S a) as [d|] eqn:Ed; cbn [fmap option_fmap option_map]; [|by exists true].
  destruct (rep_cell Hrep (S a) d Ed) as (m & Hm & [_ Hs] & Hg). rewrite Hm. mstep. eexists. split; [done|]. rewrite Hs.
  intros E. split; [done|]. intros d' [= <-]. by apply SFltb_flt.
Qed.

Lemma rescore_sorted extra h zsl l a c new :
  rep extra h zsl l -> l !! a = Some c -> isnan new = false ->
  (forall k d, a = S k -> l !! k = Some d -> flt (c_score d) new) -> (forall d, l !! S a = Some d -> flt new (c_score d)) ->
  let l' := <[a := Cell (c_ptr c) (c_height c) new (c_ele c)]> l in Forall good l' /\ StronglySorted key_order l'.
Proof.
  intros Hrep Hc Hnew Hp Hx l'. pose proof (rep_sorted Hrep) as Hs. pose proof (rep_good Hrep) as Hg.
  split; [by apply Forall_insert|]. unfold l'. rewrite insert_take_drop by (by apply lookup_lt_Some in Hc).
  rewrite <- (take_drop_middle l a c Hc) in Hs. apply StronglySorted_app in Hs as (H1 & H2 & H3).
  apply StronglySorted_cons in H3 as [_ H3]. apply StronglySorted_app. split_and!; [|done|].
  - intros d1 d2 Hd1 [->|Hd2]%elem_of_cons; [|apply H1; [done|by right]]. left. cbn.
    apply list_elem_of_lookup in Hd1 as [i Hi]. assert (i < a)%nat as Hia by (by apply lookup_take_Some in Hi as [_ ?]).
    destruct a as [|k]; [lia|]. destruct (lookup_lt_is_Some_2 l k) as [d Hd]; [apply lookup_lt_Some in Hc; lia|].
    pose proof (Hp k d eq_refl Hd) as Hlt. destruct (decide (i = k)) as [->|Hik].
    + rewrite lookup_take_lt in Hi by lia. by replace d1 with d by congruence.
    + assert (key_order d1 d) as Ho.
      { rewrite (take_S_r l k d Hd) in H2, Hi. rewrite lookup_app_l in Hi by (rewrite length_take; apply lookup_lt_Some in Hd; lia).
        apply StronglySorted_app in H2 as [H2 _]. apply H2; [by eapply list_elem_of_lookup_2|by left]. }
      destruct Ho as [Ho|[Ho _]]; cbn in Ho; [by eapply flt_trans|by rewrite Ho].
  - constructor; [done|]. apply Forall_forall. intros d2 Hd2. left. cbn.
    destruct (drop (S a) l) as [|d rest] eqn:Ed; [by apply not_elem_of_nil in Hd2|].
    assert (l !! S a = Some d) as Hd by (by rewrite <- (Nat.add_0_r (S a)), <- lookup_drop, Ed). specialize (Hx d Hd).
    apply elem_of_cons in Hd2 as [->|Hd2]; [done|]. apply StronglySorted_cons in H3 as [H3 _].
    rewrite Forall_forall in H3. destruct (H3 d2 Hd2) as [Ho|[Ho _]]; cbn in Ho; [by eapply flt_trans|by rewrite <- Ho].
Qed.

Section operations.
  Context (zmalloc : zheap -> nat) (junk : nat -> option nat * (option nat * Z)).
  Context (Hmalloc : forall h, h !! zmalloc h = None).

Lemma zslInsert_rep extra h zsl l draws lvl s e :
  rep extra h zsl l -> Z.of_nat (length l) < 2 ^ 63 - 1 -> zslRandomLevel draws = Some lvl -> isnan s = false ->
  (forall c, c ∈ l -> ~ keq (c_key c) (s, e)) ->
  exists h' zsl' x, zslInsert zmalloc junk draws h zsl s e = Some (h', zsl', x) /\ h !! x = None /\
    rep extra h' zsl' (ins l (pos (s, e) l) (Cell x lvl s e)) /\ zsl_header zsl' = zsl_header zsl /\
    (forall p, p <> x -> static h' p = static h p).
Proof using Hmalloc.
  intros Hrep Hb Hr Hs Hn. destruct (zslInsert_shape zmalloc junk Hmalloc extra h zsl l (pos (s, e) l) draws lvl s e)
    as (h' & zsl' & x & E & Hx & Hsh & Hh & HS); try done; [apply (rep_shape Hrep)|apply pos_le|by apply (stops_before Hrep false)|].
  exists h', zsl', x. split_and!; [done|done| |done|done].
  destruct (ins_sorted Hrep (Cell x lvl s e)) as [? ?]; [done|done|]. by split.
Qed.

Lemma zslDeleteNode_rep extra h zsl l a c us :
  rep extra h zsl l -> l !! a = Some c -> updates zsl l a us ->
  exists h' zsl', zslDeleteNode h zsl (c_ptr c) us = Some (h', zsl') /\ rep (c_ptr c :: extra) h' zsl' (del l a) /\
    zsl_header zsl' = zsl_header zsl /\ (zsl_level zsl' <= zsl_level zsl)%nat /\ (forall p, static h' p = static h p).
Proof using.
  intros Hrep Hc Hus. destruct (zslDeleteNode_shape extra h zsl l a c us) as (h' & zsl' & E & Hsh & ? & ? & ?); try done; [apply (rep_shape Hrep)|].
  exists h', zsl'. split_and!; [done| |done|done|done]. destruct (del_sorted Hrep a). by split.
Qed.

Lemma zslFreeNode_rep x extra h zsl l :
  rep (x :: extra) h zsl l ->
  exists h', zslFreeNode h x = Some h' /\ rep extra h' zsl l /\ (forall p, p <> x -> static h' p = static h p).
Proof using.
  intros Hrep. destruct (zslFreeNode_shape x extra h zsl l (rep_shape Hrep)) as (h' & E & Hsh & HS).
  exists h'. split_and!; [done| |done]. split; [done|apply (rep_good Hrep)|apply (rep_sorted Hrep)].
Qed.

(** A deletion finds the element when it is there. *)
Lemma zslDelete_rep keep extra h zsl l s e :
  rep extra h zsl l -> isnan s = false ->
  (exists a c h' zsl', l !! a = Some c /\ keq (c_key c) (s, e) /\ zslDelete keep h zsl s e = Some (h', zsl', Some (c_ptr c)) /\
     rep (if keep then c_ptr c :: extra else extra) h' zsl' (del l a) /\ zsl_header zsl' = zsl_header zsl /\
     (forall p, p <> c_ptr c \/ keep = true -> static h' p = static h p)) \/
  ((forall c, c ∈ l -> ~ keq (c_key c) (s, e)) /\ zslDelete keep h zsl s e = Some (h, zsl, None)).
Proof using.
  intros Hrep Hs. destruct (find_spec Hrep s e Hs) as (E1 & E2 & Hnode & Hcase). unfold zslDelete.
  rewrite E1. mstep. rewrite E2. mstep. set (a := pos (s, e) l) in *. destruct Hcase as [(c & Hc & Hk)|[Hno Hna]].
  - left. destruct (Hnode c Hc) as (n & Hn & _ & Hf). rewrite Hc. cbn [fmap option_fmap option_map]. rewrite Hn. mstep. rewrite Hf. mstep.
    rewrite bool_decide_eq_true_2 by done.
    destruct (zslDeleteNode_rep extra h zsl l a c _ Hrep Hc (path_updates zsl l a)) as (h1 & zsl1 & -> & R1 & Hh1 & _ & S1). mstep.
    destruct keep; mstep.
    + exists a, c, h1, zsl1. split_and!; try done.
    + destruct (zslFreeNode_rep _ _ _ _ _ R1) as (h2 & -> & R2 & S2). mstep. exists a, c, h2, zsl1. split_and!; try done.
      intros p [Hp|?]; [|done]. by rewrite S2.
  - right. split; [done|]. destruct (l !! a) as [c|] eqn:Ea; [|done]. cbn [fmap option_fmap option_map].
    destruct (Hnode c eq_refl) as (n & Hn & _ & Hf). rewrite Hn. mstep. rewrite Hf. mstep. rewrite bool_decide_eq_false_2; [done|by apply Hna].
Qed.

(** The score of an element changes, its node in place or a new one. *)
Lemma zslUpdateScore_rep extra h zsl l draws lvl a c cur e new :
  rep extra h zsl l -> zslRandomLevel draws = Some lvl -> l !! a = Some c -> keq (c_key c) (cur, e) ->
  isnan cur = false -> isnan new = false -> (forall d, d ∈ del l a -> c_ele d <> e) ->
  exists h' zsl' d l', zslUpdateScore zmalloc junk draws h zsl cur e new = Some (h', zsl', c_ptr d) /\
    c_key d = (new, e) /\ l' ≡ₚ d :: del l a /\ rep extra h' zsl' l' /\ zsl_header zsl' = zsl_header zsl /\
    (c_ptr d = c_ptr c \/ h !! c_ptr d = None) /\
    (forall p, p <> c_ptr c -> p <> c_ptr d -> static h' p = static h p).
Proof using Hmalloc.
  intros Hrep Hr Hc Hk Hcur Hnew Huniq. destruct (find_spec Hrep cur e Hcur) as (E1 & E2 & Hnode & _). unfold zslUpdateScore.
  rewrite E1. mstep. rewrite E2. mstep. rewrite <- (pos_found Hrep (cur, e) a c Hc Hk) in *. rewrite Hc. cbn [fmap option_fmap option_map]. mstep.
  destruct (Hnode c Hc) as (n & Hn & _ & Hf). rewrite Hn. mstep. rewrite Hf. mstep. rewrite bool_decide_eq_true_2 by done. cbn [negb].
  assert (c_ele c = e) as Ee by (by destruct Hk as [_ ?]).
  destruct (keeps_place_spec extra h zsl l a c n new) as (b & -> & Hb); try done. mstep. destruct b.
  - destruct (Hb eq_refl) as [Hp Hx]. destruct (set_score_shape extra h zsl l a c new (rep_shape Hrep) Hc) as (h' & -> & Hsh & HS). mstep.
    set (d := Cell (c_ptr c) (c_height c) new (c_ele c)). exists h', zsl, d, (<[a := d]> l). split; [done|]. split; [unfold c_key; cbn; by rewrite Ee|].
    split; [|split_and!; [|done|by left|intros p Hp1 _; by apply HS]].
    + rewrite insert_take_drop by (by apply lookup_lt_Some in Hc). by rewrite <- Permutation_middle.
    + destruct (rescore_sorted extra h zsl l a c new) as [? ?]; done.
  - clear Hb. destruct (zslDeleteNode_rep extra h zsl l a c _ Hrep Hc (path_updates zsl l a)) as (h1 & zsl1 & -> & R1 & Hh1 & _ & S1). mstep.
    assert (exists n1, h1 !! c_ptr c = Some n1 /\ ele n1 = Some e) as (n1 & -> & En1).
    { pose proof (S1 (c_ptr c)) as E. rewrite (sh_cell (rep_shape Hrep) a c Hc) in E. unfold static in E.
      destruct (h1 !! c_ptr c) as [n1|]; [|done]. injection E as E _ _. exists n1. by rewrite E, Ee. }
    mstep. rewrite En1. mstep. pose proof (sh_bound (rep_shape Hrep)). pose proof (lookup_lt_Some _ _ _ Hc).
    destruct (zslInsert_rep (c_ptr c :: extra) h1 zsl1 (del l a) draws lvl new e) as (h2 & zsl2 & x & -> & Hx & R2 & Hh2 & S2); try done.
    { rewrite del_length by done. lia. }
    { intros d Hd [_ Hkd]. by apply (Huniq d Hd). }
    mstep. destruct (zslFreeNode_rep _ _ _ _ _ R2) as (h3 & -> & R3 & S3). mstep.
    exists h3, zsl2, (Cell x lvl new e), (ins (del l a) (pos (new, e) (del l a)) (Cell x lvl new e)). split; [done|]. split; [done|]. split; [apply ins_perm|].
    split_and!; [done|congruence| |].
    + right. cbn. apply eq_None_not_Some. rewrite <- static_some, <- S1, static_some, Hx. apply is_Some_None.
    + intros p Hp1 Hp2. cbn in Hp2. by rewrite S3, S2, S1.
Qed.
End operations.
