(* ===== verification/SkiplistRange.v ===== *)
(** * Ranks and ranges of a skiplist

    The rank of an element, the element of a rank, and the searches and
    deletions by range of scores, of strings and of ranks. *)
From S2P Require Import Prelude Skiplist SkiplistSpec SkiplistOps SkiplistOrder.
From Stdlib Require Import ZArith Lia SpecFloat.
From stdpp Require Import prelude list gmap sorting.

#[local] Open Scope Z_scope.

(** ** Ranks *)

Section ranks.
  Context {extra : list nat} {h : zheap} {zsl : zskiplist} {l : list cell} (Hrep : rep extra h zsl l).

Let Hsh := rep_shape Hrep.

(** Going down the levels from a node, at each level to the last node up to
    position [a]. *)
Lemma descend a k i : (a <= length l)%nat -> (k <= a)%nat -> (S i <= zsl_level zsl)%nat ->
  (forall j, (j < S i)%nat -> tall_at (zsl_level zsl) l k j) ->
  let m := last_tall l i a in
  (k <= m <= a)%nat /\ (forall j, (j < i)%nat -> tall_at (zsl_level zsl) l m j) /\ (i = 0%nat -> m = a).
Proof using Hrep.
  intros Ha Hk Hi Ht m. split_and!.
  - apply (last_tall_ge (zsl_level zsl)); [apply Ht; lia|done].
  - apply last_tall_le.
  - intros j Hj. eapply tall_at_mono; [apply last_tall_tall; lia|lia].
  - intros ->. by apply (last_tall_bottom Hsh).
Qed.

Lemma by_rank_spec o r lvl k :
  (0 <= r) -> (o <= k)%nat -> Z.of_nat k <= Z.of_nat o + r -> (k <= length l)%nat -> (lvl <= zsl_level zsl)%nat ->
  (forall j, (j < lvl)%nat -> tall_at (zsl_level zsl) l k j) ->
  by_rank h r lvl (ptr zsl l k) (Z.of_nat (k - o)) =
    Some (if (decide (Z.of_nat o + r <= Z.of_nat (length l) /\ lvl <> 0%nat)) then Some (ptr zsl l (o + Z.to_nat r)) else None).
Proof using Hrep.
  intros Hr Hok Hkr Hkl. revert k Hok Hkr Hkl. induction lvl as [|i IH]; intros k Hok Hkr Hkl Hl Ht.
  { rewrite decide_False by tauto. done. }
  cbn [by_rank]. set (a := Nat.min (o + Z.to_nat r) (length l)).
  destruct (descend a k i) as (Hm & Htm & Hbot); [lia|lia|done|done|]. set (m := last_tall l i a) in *.
  pose proof (shape_size Hsh). rewrite (walk_from Hsh _ _ o a i k); [|intros j c n Hj Hc Hn; f_equal|lia|lia|apply Ht; lia|lia|lia].
  2: { apply lookup_lt_Some in Hc. destruct (Z.leb_spec (Z.of_nat (S j - o)) r); case_bool_decide; done || lia. }
  mstep. cbn [fst snd]. fold m. destruct (Z.eqb_spec (Z.of_nat (m - o)) r) as [E|E].
  - rewrite decide_True by lia. do 3 f_equal. lia.
  - rewrite IH; [|lia|lia|lia|lia|done]. f_equal. destruct i as [|i].
    + rewrite decide_False by tauto. rewrite decide_False; [done|]. rewrite Hbot in E by done. lia.
    + destruct (decide (Z.of_nat o + r <= Z.of_nat (length l) /\ S i <> 0%nat));
        [rewrite decide_True by lia|rewrite decide_False by lia]; done.
Qed.

(** An element is found by its rank from the header. *)
Lemma zslGetElementByRank_rep r : 0 <= r ->
  zslGetElementByRank h zsl r =
    Some (if decide (r <= Z.of_nat (length l)) then Some (ptr zsl l (Z.to_nat r)) else None).
Proof using Hrep.
  intros Hr. unfold zslGetElementByRank, zslGetElementByRankFromNode.
  pose proof (sh_level Hsh). etransitivity; [apply (by_rank_spec 0 r (zsl_level zsl) 0); done || lia|].
  f_equal. cbn [Nat.add]. repeat case_decide; done || lia.
Qed.

Lemma rank_test s e m : isnan s = false -> (m <= length l)%nat ->
  exists n b, h !! ptr zsl l m = Some n /\ match ele n with None => Some false | Some _ => node_is s e n end = Some b /\
    (b = true <-> exists j c, m = S j /\ l !! j = Some c /\ keq (c_key c) (s, e)).
Proof using Hrep.
  intros Hs Hm. destruct m as [|j].
  - destruct (sh_header Hsh) as [sc Hh]. unfold static in Hh. change (ptr zsl l 0) with (zsl_header zsl).
    destruct (h !! zsl_header zsl) as [n|]; [|done]. injection Hh as Hh _ _. exists n, false. rewrite Hh. split_and!; [done|done|].
    split; [done|]. by intros (j & c & ? & _).
  - destruct (lookup_lt_is_Some_2 l j Hm) as [c Hc]. destruct (rep_cell Hrep j c Hc) as (n & Hn & Hno & Hg).
    destruct (node_is_spec s e c n Hno Hg Hs) as (b & Eb & Hb). exists n, b. unfold ptr. cbn. rewrite Hc. cbn.
    split; [done|]. rewrite (proj1 Hno). split; [done|]. rewrite Hb. split.
    + intros Hk. by exists j, c.
    + intros (j' & c' & [= <-] & Hc' & Hk). by replace c with c' by congruence.
Qed.

Lemma plen_found s e j c : l !! j = Some c -> keq (c_key c) (s, e) -> S j = plen (kbefore true (s, e)) l.
Proof using Hrep.
  intros Hc Hk. pose proof (plen_spec _ l (kbefore_antitone true (s, e) _ (rep_sorted Hrep))) as Hp.
  assert (j < plen (kbefore true (s, e)) l)%nat as Hj.
  { specialize (Hp j c Hc). eapply bool_decide_eq_true_1. rewrite <- Hp. unfold kbefore. rewrite (bool_decide_eq_true_2 (keq _ _)) by done. apply orb_true_r. }
  destruct (decide (S j = plen (kbefore true (s, e)) l)) as [|Hne]; [done|]. pose proof (plen_le (kbefore true (s, e)) l).
  destruct (lookup_lt_is_Some_2 l (S j)) as [d Hd]; [lia|]. specialize (Hp (S j) d Hd). rewrite bool_decide_eq_true_2 in Hp by lia.
  assert (klt (c_key c) (c_key d)) as Hcd.
  { pose proof (rep_sorted Hrep) as Hs. rewrite <- (take_drop_middle l j c Hc) in Hs. apply StronglySorted_app in Hs as (_ & _ & Hs).
    apply StronglySorted_cons in Hs as [Hs _]. rewrite Forall_forall in Hs. apply Hs. apply list_elem_of_lookup. exists 0%nat.
    by rewrite lookup_drop, Nat.add_0_r. }
  unfold kbefore in Hp. apply orb_true_iff in Hp as [Hp|Hp].
  - apply bool_decide_eq_true in Hp. rewrite <- Hk in Hp. by destruct (klt_irrefl _ (klt_trans _ _ _ Hp Hcd)).
  - apply andb_true_iff in Hp as [_ Hp%bool_decide_eq_true]. rewrite Hk, <- Hp in Hcd. by apply klt_irrefl in Hcd.
Qed.

Lemma rank_levels_spec s e a lvl k :
  isnan s = false -> a = plen (kbefore true (s, e)) l ->
  (k <= a)%nat -> (lvl <= zsl_level zsl)%nat -> (forall j, (j < lvl)%nat -> tall_at (zsl_level zsl) l k j) ->
  (forall j c, l !! j = Some c -> keq (c_key c) (s, e) -> a = S j /\ (0 < lvl)%nat) ->
  rank_levels h s e lvl (ptr zsl l k) (Z.of_nat k) =
    Some (match a with O => 0 | S j => match l !! j with Some c => if decide (keq (c_key c) (s, e)) then Z.of_nat a else 0 | None => 0 end end).
Proof using Hrep.
  intros Hs Ea. pose proof (plen_le (kbefore true (s, e)) l) as Ha. rewrite <- Ea in Ha.
  revert k. induction lvl as [|i IH]; intros k Hk Hl Ht Hf.
  { cbn. f_equal. destruct a as [|j]; [done|]. destruct (l !! j) as [c|] eqn:Ec; [|done]. case_decide as Hc; [|done].
    destruct (Hf j c Ec Hc). lia. }
  cbn [rank_levels]. destruct (descend a k i) as (Hm & Htm & Hbot); [lia|lia|done|done|]. set (m := last_tall l i a) in *.
  pose proof (shape_size Hsh). pose proof (stops_before Hrep true s e Hs) as Hgo. rewrite <- Ea in Hgo.
  rewrite (walk_spec Hsh _ _ a i k); [|done|lia|lia|apply Ht; lia|lia|lia]. mstep. cbn [fst snd]. fold m.
  destruct (rank_test s e m Hs ltac:(lia)) as (n & b & -> & Hb & Hbt). mstep. rewrite Hb. mstep. destruct b.
  - destruct (proj1 Hbt eq_refl) as (j & c & Ej & Hc & Hk'). destruct (Hf j c Hc Hk') as [-> _]. rewrite Hc, decide_True by done. by rewrite Ej.
  - apply IH; [lia|lia|done|]. intros j c Hc Hk'. destruct (Hf j c Hc Hk') as [Eaj _]. split; [done|].
    destruct i as [|i]; [|lia]. rewrite Hbot in Hbt by done. enough (false = true) by done. apply Hbt. by exists j, c.
Qed.

(** The rank of an element that is there, and 0 otherwise. *)
Lemma zslGetRank_found j c s e : isnan s = false -> l !! j = Some c -> keq (c_key c) (s, e) -> zslGetRank h zsl s e = Some (Z.of_nat (S j)).
Proof using Hrep.
  intros Hs Hc Hk. unfold zslGetRank. etransitivity; [apply (rank_levels_spec s e (S j) (zsl_level zsl) 0); try done; [|lia|]|].
  - by eapply plen_found.
  - intros j' c' Hc' Hk'. rewrite (pos_found Hrep (s, e) j c), (pos_found Hrep (s, e) j' c') by done. pose proof (sh_level Hsh). lia.
  - by rewrite Hc, decide_True.
Qed.

Lemma zslGetRank_absent s e : isnan s = false -> (forall c, c ∈ l -> ~ keq (c_key c) (s, e)) -> zslGetRank h zsl s e = Some 0.
Proof using Hrep.
  intros Hs Hn. unfold zslGetRank. etransitivity; [apply (rank_levels_spec s e (plen (kbefore true (s, e)) l) (zsl_level zsl) 0); try done; [lia|]|].
  - intros j c Hc Hk. destruct (Hn c); [by apply list_elem_of_lookup_2 in Hc|done].
  - f_equal. destruct (plen _ l) as [|j]; [done|]. destruct (l !! j) as [c|] eqn:Hc; [|done]. rewrite decide_False; [done|].
    apply Hn. by apply list_elem_of_lookup_2 in Hc.
Qed.

Lemma steps_forward_spec k p : (p + k <= length l)%nat -> steps_forward h k (Some (ptr zsl l p)) = Some (Some (ptr zsl l (p + k))).
Proof using Hrep.
  revert p. induction k as [|k IH]; intros p Hp; cbn [steps_forward]; [by rewrite Nat.add_0_r|]. mstep.
  rewrite (sh_lev Hsh p _ 0 (ptr_at_ptr zsl l p ltac:(lia)) (tall_at_bottom Hsh p ltac:(lia))), (fwd_bottom Hsh). mstep. cbn [fst].
  change (c_ptr <$> l !! p) with (ptr_at zsl l (S p)). rewrite ptr_at_ptr by lia. rewrite IH by lia. do 3 f_equal. lia.
Qed.

Lemma steps_backward_spec k p : (k < p <= length l)%nat -> steps_backward h k (Some (ptr zsl l p)) = Some (Some (ptr zsl l (p - k))).
Proof using Hrep.
  revert p. induction k as [|k IH]; intros p Hp; cbn [steps_backward]; [by rewrite Nat.sub_0_r|]. mstep.
  destruct p as [|p]; [lia|]. destruct (lookup_lt_is_Some_2 l p) as [c Hc]; [lia|].
  replace (ptr zsl l (S p)) with (c_ptr c) by (unfold ptr; cbn; by rewrite Hc).
  destruct (rep_cell Hrep p c Hc) as (n & Hn & _). rewrite Hn. mstep.
  pose proof (sh_back Hsh p c Hc) as Hb. unfold back in Hb. rewrite Hn in Hb. injection Hb as ->.
  destruct p as [|p]; [lia|]. change (c_ptr <$> l !! p) with (ptr_at zsl l (S p)). rewrite ptr_at_ptr, IH by lia. done.
Qed.

Lemma checked_spec (test : zskiplistNode -> option bool) (T : cell -> bool) k c :
  (forall c n, good c -> node_of c n -> test n = Some (T c)) -> l !! k = Some c ->
  checked_node h test (Some (ptr zsl l (S k))) = Some (if T c then Some (c_ptr c) else None).
Proof using Hrep.
  intros Ht Hc. unfold ptr. cbn. rewrite Hc. cbn. destruct (rep_cell Hrep k c Hc) as (n & -> & Hno & Hg). mstep. by rewrite (Ht c n Hg Hno).
Qed.

(** The searches that start at the last high node before the range. *)
Lemma search_end_spec go e lvl m : stops h l go e -> (m <= e <= length l)%nat -> (lvl <= zsl_level zsl)%nat ->
  (forall i, (i < lvl)%nat -> tall_at (zsl_level zsl) l m i) -> (lvl = 0%nat -> m = e) ->
  exists us, search h go lvl (ptr zsl l m) (Z.of_nat m) = Some us /\ search_end us (ptr zsl l m) (Z.of_nat m) = (ptr zsl l e, Z.of_nat e).
Proof using Hrep.
  intros Hgo Hm Hl Ht H0. rewrite (search_spec_from Hsh go e lvl m) by (done || lia). eexists. split; [done|]. unfold search_end.
  destruct lvl as [|lvl]; [by rewrite H0|]. rewrite path_lookup by lia. cbn [default]. by rewrite (last_tall_bottom Hsh) by lia.
Qed.
End ranks.

(** ** Ranges *)

(** What the tests of a range say of an element. *)
Record range_ok (range : node_range) (G L : cell -> bool) : Prop := {
  ro_gte : forall c n, good c -> node_of c n -> gte_min range n = Some (G c);
  ro_lte : forall c n, good c -> node_of c n -> lte_max range n = Some (L c);
  ro_empty : always_empty range = true -> forall c, good c -> G c && L c = false;
  ro_nonempty : always_empty range = false -> forall c, good c -> G c || L c = true }.

Arguments ro_gte {_ _ _}. Arguments ro_lte {_ _ _}. Arguments ro_empty {_ _ _}. Arguments ro_nonempty {_ _ _}.

Definition in_range (G L : cell -> bool) (l : list cell) : list cell := List.filter (fun c => G c && L c) l.

Section ranges.
  Context {extra : list nat} {h : zheap} {zsl : zskiplist} {l : list cell} (Hrep : rep extra h zsl l).
  Context {range : node_range} {G L : cell -> bool} (Hok : range_ok range G L).
  Context (HG : antitone (fun c => negb (G c)) l) (HL : antitone L l).

Let Hsh := rep_shape Hrep.
Let a := plen (fun c => negb (G c)) l.
Let b := plen L l.

Lemma range_a : (a <= length l)%nat. Proof using. apply plen_le. Qed.
Lemma range_b : (b <= length l)%nat. Proof using. apply plen_le. Qed.

Lemma range_G k c : l !! k = Some c -> G c = bool_decide (a <= k)%nat.
Proof using HG.
  clear b. intros Hc. pose proof (plen_spec _ l HG k c Hc) as H. fold a in H. rewrite <- (negb_involutive (G c)), H.
  repeat case_bool_decide; done || lia.
Qed.

Lemma range_L k c : l !! k = Some c -> L c = bool_decide (k < b)%nat.
Proof using HL. intros Hc. by apply (plen_spec L l HL k c). Qed.

Lemma in_range_eq : in_range G L l = drop a (take b l).
Proof using HG HL.
  unfold a, b. rewrite <- filter_between by done. unfold in_range. apply List.filter_ext. intros c. by rewrite negb_involutive.
Qed.

Lemma in_range_lookup n : in_range G L l !! n = if decide (a + n < b)%nat then l !! (a + n)%nat else None.
Proof using HG HL.
  rewrite in_range_eq, lookup_drop. case_decide; [by apply lookup_take_lt|by apply lookup_take_ge; lia].
Qed.

Lemma in_range_length : length (in_range G L l) = (b - a)%nat.
Proof using HG HL. rewrite in_range_eq, length_drop, length_take. pose proof range_b. lia. Qed.

(** The tests on the nodes of the list. *)
Lemma stops_gte : stops h l (fun _ f => g ← gte_min range f; Some (negb g)) a.
Proof using Hrep Hok HG.
  intros k c n Hc Hn. destruct (rep_cell Hrep k c Hc) as (n' & Hn' & Hno & Hg). replace n' with n in * by congruence.
  rewrite (ro_gte Hok c n Hg Hno). mstep. rewrite (range_G k c Hc). f_equal. repeat case_bool_decide; done || lia.
Qed.

Lemma stops_lte : stops h l (fun _ => lte_max range) b.
Proof using Hrep Hok HL.
  intros k c n Hc Hn. destruct (rep_cell Hrep k c Hc) as (n' & Hn' & Hno & Hg). replace n' with n in * by congruence.
  by rewrite (ro_lte Hok c n Hg Hno), (range_L k c Hc).
Qed.

Lemma range_nonempty : always_empty range = false -> (a <= b)%nat.
Proof using Hrep Hok HG HL.
  intros He. destruct (decide (a <= b)%nat) as [|Hn]; [done|]. pose proof range_a.
  destruct (lookup_lt_is_Some_2 l b) as [c Hc]; [lia|]. destruct (rep_cell Hrep b c Hc) as (_ & _ & _ & Hg).
  pose proof (ro_nonempty Hok He c Hg) as H'. rewrite (range_G b c Hc), (range_L b c Hc) in H'.
  rewrite !bool_decide_eq_false_2 in H' by lia. done.
Qed.

Lemma fails_spec (test : zskiplistNode -> option bool) (T : cell -> bool) x k :
  (forall c n, good c -> node_of c n -> test n = Some (T c)) -> x = c_ptr <$> l !! k ->
  fails h test x = Some (match l !! k with Some c => negb (T c) | None => true end).
Proof using Hrep.
  intros Ht ->. destruct (l !! k) as [c|] eqn:Hc; [|done]. cbn. destruct (rep_cell Hrep k c Hc) as (n & -> & Hno & Hg). mstep.
  rewrite (Ht c n Hg Hno). done.
Qed.

(** The quick test: false when no element is in the range. *)
Lemma is_in_range_spec : exists t, is_in_range h zsl range = Some t /\
  if t then always_empty range = false /\ (a < length l)%nat /\ (0 < b)%nat else in_range G L l = [].
Proof using Hrep Hok HG HL.
  unfold is_in_range. destruct (always_empty range) eqn:He.
  { exists false. split; [done|]. apply filter_none. intros c Hc. apply (ro_empty Hok He).
    eapply Forall_forall in Hc; [|apply (rep_good Hrep)]. done. }
  rewrite (fails_spec _ G _ (length l - 1)) by (apply (ro_gte Hok) || (rewrite (sh_tail Hsh), last_lookup; do 2 f_equal; lia)). mstep.
  pose proof range_a. pose proof range_b.
  destruct (l !! (length l - 1)%nat) as [c|] eqn:Hc.
  2: { exists false. split; [done|]. apply lookup_ge_None in Hc. by destruct l; [|cbn in *; lia]. }
  pose proof (lookup_lt_Some _ _ _ Hc). rewrite (range_G _ _ Hc). case_bool_decide as Hal; cbn [negb].
  2: { exists false. split; [done|]. rewrite in_range_eq. apply drop_ge. rewrite length_take. lia. }
  rewrite (sh_lev Hsh 0 _ 0 eq_refl) by (apply (tall_at_bottom Hsh 0); lia). mstep. rewrite (fwd_bottom Hsh). cbn [fst].
  rewrite (fails_spec _ L _ 0) by (apply (ro_lte Hok) || done). mstep. eexists. split; [done|].
  destruct (lookup_lt_is_Some_2 l 0) as [d Hd]; [lia|]. rewrite Hd, (range_L 0 d Hd), negb_involutive. case_bool_decide.
  - split_and!; [done|lia|done].
  - rewrite in_range_eq. replace b with 0%nat by lia. apply drop_nil.
Qed.

Let m := last_tall l (zsl_level zsl - 1) a.

Lemma top_spec : (m <= a)%nat /\ (forall i, (i < zsl_level zsl)%nat -> tall_at (zsl_level zsl) l m i) /\
  walk (S (size h)) h (fun _ f => g ← gte_min range f; Some (negb g)) (zsl_level zsl - 1) (zsl_header zsl) 0 =
    Some (ptr zsl l m, Z.of_nat m).
Proof using Hrep Hok HG.
  pose proof (sh_level Hsh). pose proof range_a. split_and!.
  - apply last_tall_le.
  - intros i Hi. eapply tall_at_mono; [apply last_tall_tall; lia|lia].
  - pose proof (shape_size Hsh). apply (walk_spec Hsh _ _ a (zsl_level zsl - 1) 0); [apply stops_gte|done|lia|cbn; lia|lia|lia].
Qed.

Lemma from_top_spec r : (forall i, (i < zsl_level zsl)%nat -> tall_at (zsl_level zsl) l m i) -> (m <= length l)%nat ->
  0 <= r -> zslGetElementByRankFromNode h (ptr zsl l m) (zsl_level zsl) r =
    Some (if decide (Z.of_nat m + r <= Z.of_nat (length l)) then Some (ptr zsl l (m + Z.to_nat r)) else None).
Proof using Hrep b L.
  intros Ht Hm Hr. pose proof (sh_level Hsh). unfold zslGetElementByRankFromNode.
  pose proof (by_rank_spec Hrep m r (zsl_level zsl) m Hr) as E. rewrite Nat.sub_diag in E.
  change 0 with (Z.of_nat 0) at 1. rewrite E; [|lia|lia|done|lia|done]. f_equal. repeat case_decide; done || lia.
Qed.

Lemma nth_from_start_spec n : 0 <= n < 2 ^ 63 ->
  nth_from_start h zsl range n (ptr zsl l m) (Z.of_nat m) = Some (c_ptr <$> in_range G L l !! Z.to_nat n).
Proof using Hrep Hok HG HL.
  intros Hn. destruct top_spec as (Hma & Ht & _). pose proof range_a as Ha. pose proof (sh_level Hsh). pose proof (sh_bound Hsh) as Hb.
  unfold nth_from_start. destruct (search_end_spec Hrep _ a (zsl_level zsl - 1) m stops_gte) as (us & -> & Hus); [lia|lia|..].
  { intros i Hi. apply Ht. lia. }
  { intros E. unfold m. rewrite E. by apply (last_tall_bottom Hsh). }
  mstep. rewrite Hus. rewrite wrapu_id by (split; [lia|]; change (2 ^ 64) with (2 * 2 ^ 63); lia).
  rewrite (sh_length Hsh), in_range_lookup. destruct (Z.leb_spec (Z.of_nat (length l)) (Z.of_nat a + n)) as [Hlen|Hlen].
  { rewrite (lookup_ge_None_2 l) by lia. by case_decide. }
  destruct (lookup_lt_is_Some_2 l (a + Z.to_nat n)) as [c Hc]; [lia|].
  assert ((if n <? ZSKIPLIST_MAX_SEARCH then steps_forward h (Z.to_nat (n + 1)) (Some (ptr zsl l a))
     else zslGetElementByRankFromNode h (ptr zsl l m) (zsl_level zsl) (wrapu 64 (Z.of_nat a + 1 + n - Z.of_nat m)))
     = Some (Some (ptr zsl l (S (a + Z.to_nat n))))) as ->.
  { destruct (n <? ZSKIPLIST_MAX_SEARCH).
    - rewrite (steps_forward_spec Hrep) by lia. do 3 f_equal. lia.
    - rewrite wrap_small by lia. rewrite from_top_spec by (done || lia). rewrite decide_True by lia. do 3 f_equal. lia. }
  mstep. rewrite (checked_spec Hrep _ L _ c) by (apply (ro_lte Hok) || done). rewrite (range_L _ _ Hc), Hc.
  case_bool_decide; [by rewrite decide_True|by rewrite decide_False].
Qed.

Lemma in_range_reverse n : n < 0 ->
  reverse (in_range G L l) !! Z.to_nat (- n - 1) =
    if decide (Z.of_nat a <= Z.of_nat b + n) then l !! Z.to_nat (Z.of_nat b + n) else None.
Proof using HG HL zsl m.
  intros Hn. case_decide.
  - rewrite reverse_lookup, in_range_length, in_range_lookup, decide_True by (rewrite ?in_range_length; lia). f_equal. lia.
  - apply lookup_ge_None_2. rewrite length_reverse, in_range_length. lia.
Qed.

(** From the end by steps or by rank from the high node: the position
    [b + 1 + n], or NULL when it is before that node. *)
Lemma end_jump n : - 2 ^ 63 <= n < 0 -> (m <= b <= length l)%nat -> Z.of_nat (length l) < 2 ^ 63 - 1 ->
  (forall i, (i < zsl_level zsl)%nat -> tall_at (zsl_level zsl) l m i) -> (n <> - 2 ^ 63 -> - n <= Z.of_nat b) ->
  (if - ZSKIPLIST_MAX_SEARCH <? n + 1 then steps_backward h (Z.to_nat (- n - 1)) (Some (ptr zsl l b))
   else zslGetElementByRankFromNode h (ptr zsl l m) (zsl_level zsl) (wrapu 64 (Z.of_nat b + 1 + n - Z.of_nat m))) =
  Some (if decide (Z.of_nat m <= Z.of_nat b + 1 + n \/ - ZSKIPLIST_MAX_SEARCH < n + 1)
        then Some (ptr zsl l (Z.to_nat (Z.of_nat b + 1 + n))) else None).
Proof using Hrep.
  intros Hn Hmb Hlen Ht Hbn. change (- ZSKIPLIST_MAX_SEARCH) with (-10). destruct (Z.ltb_spec (-10) (n + 1)) as [Hs|Hs].
  - specialize (Hbn ltac:(lia)). rewrite (steps_backward_spec Hrep), decide_True by lia. do 3 f_equal. lia.
  - destruct (decide (Z.of_nat m <= Z.of_nat b + 1 + n)) as [Hm|Hm].
    + rewrite wrap_small by lia. rewrite from_top_spec, !decide_True by (done || lia). do 3 f_equal. lia.
    + rewrite (decide_False (P := _ \/ _)) by lia.
      assert (wrapu 64 (Z.of_nat b + 1 + n - Z.of_nat m) = Z.of_nat b + 1 + n - Z.of_nat m + 2 ^ 64) as ->.
      { unfold wrapu. symmetry. apply (Zmod_unique _ _ (-1)); lia. }
      rewrite from_top_spec, decide_False by (done || lia). done.
Qed.

Lemma nth_from_end_spec n : always_empty range = false -> - 2 ^ 63 <= n < 0 -> Z.of_nat (length l) < 2 ^ 63 - 1 ->
  nth_from_end h zsl range n (ptr zsl l m) (Z.of_nat m) = Some (c_ptr <$> reverse (in_range G L l) !! Z.to_nat (- n - 1)).
Proof using Hrep Hok HG HL.
  intros He Hn Hlen. destruct top_spec as (Hma & Ht & _). pose proof range_b as Hbl. pose proof (range_nonempty He) as Hab.
  pose proof (sh_level Hsh). unfold nth_from_end.
  destruct (search_end_spec Hrep _ b (zsl_level zsl) m stops_lte) as (us & -> & Hus); [lia|lia|done|lia|].
  mstep. rewrite Hus, in_range_reverse by lia.
  assert (wraps 64 (- n) = if decide (n = - 2 ^ 63) then - 2 ^ 63 else - n) as ->.
  { case_decide as E; [by subst n|]. apply wraps_id; [lia|]. unfold fits_s. lia. }
  destruct (Z.ltb_spec (Z.of_nat b) (if decide (n = - 2 ^ 63) then - 2 ^ 63 else - n)) as [Hlt|Hge].
  { rewrite decide_False; [done|]. destruct (decide (n = - 2 ^ 63)); lia. }
  rewrite end_jump; [|lia|lia|lia|done|intros; rewrite decide_False in Hge by done; lia]. mstep.
  change (- ZSKIPLIST_MAX_SEARCH) with (-10). destruct (decide (Z.of_nat m <= Z.of_nat b + 1 + n \/ -10 < n + 1)) as [Hp|Hp].
  2: { cbn [checked_node]. by rewrite decide_False by lia. }
  assert (0 <= Z.of_nat b + n) as Hbn by (destruct (decide (n = - 2 ^ 63)); lia).
  destruct (lookup_lt_is_Some_2 l (Z.to_nat (Z.of_nat b + n))) as [c Hc]; [lia|].
  replace (Z.to_nat (Z.of_nat b + 1 + n)) with (S (Z.to_nat (Z.of_nat b + n))) by lia.
  rewrite (checked_spec Hrep _ G _ c) by (apply (ro_gte Hok) || done). rewrite (range_G _ _ Hc), Hc.
  case_bool_decide; [by rewrite decide_True by lia|by rewrite decide_False by lia].
Qed.

(** The element at a position of the range, from its start or its end. *)
Lemma nth_in_range_spec n : - 2 ^ 63 <= n < 2 ^ 63 -> Z.of_nat (length l) < 2 ^ 63 - 1 ->
  nth_in_range h zsl range n =
    Some (c_ptr <$> if 0 <=? n then in_range G L l !! Z.to_nat n else reverse (in_range G L l) !! Z.to_nat (- n - 1)).
Proof using Hrep Hok HG HL.
  intros Hn Hlen. unfold nth_in_range. destruct is_in_range_spec as (t & -> & Ht). mstep. destruct t; cbn [negb].
  - destruct Ht as (He & _). destruct top_spec as (_ & _ & ->). mstep. cbn [fst snd].
    destruct (Z.leb_spec 0 n); [apply nth_from_start_spec; lia|apply nth_from_end_spec; done || lia].
  - rewrite Ht. by destruct (0 <=? n).
Qed.
End ranges.

(** ** Ranges of scores *)

Definition gte (range : zrangespec) (c : cell) : bool := zslValueGteMin (c_score c) range.
Definition lte (range : zrangespec) (c : cell) : bool := zslValueLteMax (c_score c) range.

Definition good_range (range : zrangespec) : Prop := isnan (r_min range) = false /\ isnan (r_max range) = false.

Lemma gte_spec range c : good_range range -> good c ->
  gte range c = true <-> flt (r_min range) (c_score c) \/ (r_minex range = false /\ feq (r_min range) (c_score c)).
Proof.
  intros [Hm _] Hc. unfold gte, zslValueGteMin. destruct (r_minex range).
  - rewrite SFltb_flt by done. split; [by left|by intros [?|[? _]]].
  - rewrite SFleb_fle by done. destruct (flt_total (r_min range) (c_score c)) as [H|[H|H]].
    + split; [by left|]. intros _ H'. by destruct (flt_irrefl _ (flt_trans _ _ _ H H')).
    + split; [by right|]. intros _. rewrite H. apply flt_irrefl.
    + split; [done|]. intros [H'|[_ H']]; [by destruct (flt_irrefl _ (flt_trans _ _ _ H H'))|]. rewrite H' in H. by apply flt_irrefl in H.
Qed.

Lemma lte_spec range c : good_range range -> good c ->
  lte range c = true <-> flt (c_score c) (r_max range) \/ (r_maxex range = false /\ feq (c_score c) (r_max range)).
Proof.
  intros [_ Hm] Hc. unfold lte, zslValueLteMax. destruct (r_maxex range).
  - rewrite SFltb_flt by done. split; [by left|by intros [?|[? _]]].
  - rewrite SFleb_fle by done. destruct (flt_total (c_score c) (r_max range)) as [H|[H|H]].
    + split; [by left|]. intros _ H'. by destruct (flt_irrefl _ (flt_trans _ _ _ H H')).
    + split; [by right|]. intros _. rewrite H. apply flt_irrefl.
    + split; [done|]. intros [H'|[_ H']]; [by destruct (flt_irrefl _ (flt_trans _ _ _ H H'))|]. rewrite H' in H. by apply flt_irrefl in H.
Qed.

Lemma score_range_ok range : good_range range -> range_ok (score_range range) (gte range) (lte range).
Proof.
  intros Hr. pose proof Hr as [Hmin Hmax]. split; cbn [score_range gte_min lte_max always_empty].
  - intros c n _ [_ ->]. done.
  - intros c n _ [_ ->]. done.
  - intros He c Hc. apply not_true_is_false. intros [HG HL]%andb_true_iff.
    apply gte_spec in HG; [|done..]. apply lte_spec in HL; [|done..].
    apply orb_true_iff in He as [He|He].
    + apply SFltb_flt in He; [|done..]. assert (flt (r_min range) (r_max range) \/ feq (r_min range) (r_max range)) as [H|H].
      { destruct HG as [H1|[_ H1]], HL as [H2|[_ H2]]; [left; by eapply flt_trans|left; by rewrite <- H2|left; by rewrite H1|right; by rewrite H1]. }
      * by destruct (flt_irrefl _ (flt_trans _ _ _ H He)).
      * rewrite H in He. by apply flt_irrefl in He.
    + apply andb_true_iff in He as [He Hex]. apply SFeqb_feq in He; [|done..].
      destruct HG as [H1|[E1 H1]], HL as [H2|[E2 H2]].
      * rewrite He in H1. by destruct (flt_irrefl _ (flt_trans _ _ _ H1 H2)).
      * rewrite He, H2 in H1. by apply flt_irrefl in H1.
      * rewrite <- H1, He in H2. by apply flt_irrefl in H2.
      * by rewrite E1, E2 in Hex.
  - intros He c Hc. apply orb_false_iff in He as [He1 He2]. apply orb_true_iff. rewrite gte_spec, lte_spec by done.
    assert (~ flt (r_max range) (r_min range)) as Hn by (rewrite <- SFltb_flt by done; by rewrite He1).
    destruct (flt_total (r_min range) (c_score c)) as [H|[H|H]]; [by left; left| |].
    + destruct (flt_total (c_score c) (r_max range)) as [H'|[H'|H']]; [by right; left| |by rewrite H in Hn].
      assert (SFeqb (r_min range) (r_max range) = true) as E by (apply SFeqb_feq; [done..|]; by rewrite H).
      rewrite E in He2. apply orb_false_iff in He2 as [E1 E2]. by left; right.
    + right. left. destruct (flt_total (c_score c) (r_max range)) as [H'|[H'|H']]; [done|by rewrite H' in H|].
      by destruct Hn; eapply flt_trans.
Qed.

Lemma sorted_in {A} (R S : A -> A -> Prop) l :
  (forall c d, c ∈ l -> d ∈ l -> R c d -> S c d) -> StronglySorted R l -> StronglySorted S l.
Proof.
  intros HS Hs. induction Hs as [|c l Hl IH Hc]; constructor.
  - apply IH. intros ?? ? ?. by apply HS; right.
  - rewrite Forall_forall in *. intros d Hd. apply HS; [by left|by right|by apply Hc].
Qed.

Lemma sorted_good (S : cell -> cell -> Prop) l :
  (forall c d, good c -> good d -> key_order c d -> S c d) -> Forall good l -> StronglySorted key_order l -> StronglySorted S l.
Proof. intros HS Hg. rewrite Forall_forall in Hg. apply sorted_in. intros c d Hc Hd. by apply HS; apply Hg. Qed.

Lemma score_le c d : key_order c d -> flt (c_score c) (c_score d) \/ feq (c_score c) (c_score d).
Proof. intros [H|[H _]]; [by left|by right]. Qed.

Section score_range.
  Context {l : list cell} (Hgood : Forall good l) (Hsorted : StronglySorted key_order l).
  Context (range : zrangespec) (Hr : good_range range).

Lemma gte_antitone : antitone (fun c => negb (gte range c)) l.
Proof using Hgood Hsorted Hr.
  eapply sorted_good; [|exact Hgood|exact Hsorted]. intros c d Hc Hd Hcd%score_le.
  rewrite !negb_true_iff, <- !not_true_iff_false, !gte_spec by done. intros Hn Hg. apply Hn.
  destruct Hg as [Hg|[Hg1 Hg2]], Hcd as [Hcd|Hcd].
  - left. by eapply flt_trans.
  - left. by rewrite <- Hcd.
  - left. by rewrite Hg2.
  - right. split; [done|]. by rewrite Hg2.
Qed.

Lemma lte_antitone : antitone (lte range) l.
Proof using Hgood Hsorted Hr.
  eapply sorted_good; [|exact Hgood|exact Hsorted]. intros c d Hc Hd Hcd%score_le.
  rewrite !lte_spec by done. intros [Hg|[Hg1 Hg2]]; destruct Hcd as [Hcd|Hcd].
  - left. by eapply flt_trans.
  - left. by rewrite Hcd.
  - left. by rewrite <- Hg2.
  - right. split; [done|]. by rewrite Hcd.
Qed.
End score_range.

(** ** Ranges of strings *)

Definition lex_gte (range : zlexrangespec) (c : cell) : bool := zslLexValueGteMin (c_ele c) range.
Definition lex_lte (range : zlexrangespec) (c : cell) : bool := zslLexValueLteMax (c_ele c) range.

Lemma sdscmplex_opp x y : sdscmplex y x = - sdscmplex x y.
Proof. destruct x, y; try done. cbn. rewrite !sdscmp_lexcmp. apply lexcmp_opp. Qed.

Lemma sdscmplex_eq x y : sdscmplex x y = 0 <-> x = y.
Proof. destruct x, y; try done. cbn. rewrite sdscmp_lexcmp, lexcmp_eq. split; congruence. Qed.

Lemma sdscmplex_trans x y z : sdscmplex x y < 0 -> sdscmplex y z < 0 -> sdscmplex x z < 0.
Proof. destruct x, y, z; try (cbn; lia). cbn. rewrite !sdscmp_lexcmp. apply lexcmp_trans. Qed.

Definition blt (x y : lexbound) : Prop := sdscmplex x y < 0.

Lemma blt_irrefl x : ~ blt x x.
Proof. unfold blt. assert (sdscmplex x x = 0) by (by apply sdscmplex_eq). lia. Qed.

Lemma blt_total x y : blt x y \/ x = y \/ blt y x.
Proof.
  unfold blt. rewrite <- (sdscmplex_eq x y), (sdscmplex_opp x y). lia.
Qed.

Lemma blt_gt x y : 0 < sdscmplex x y <-> blt y x.
Proof. unfold blt. rewrite (sdscmplex_opp x y). lia. Qed.

Lemma blt_asym x y : blt x y -> ~ blt y x.
Proof. unfold blt. rewrite (sdscmplex_opp x y). lia. Qed.

Lemma lex_gte_spec range c :
  lex_gte range c = true <-> blt (l_min range) (lexstring (c_ele c)) \/ (l_minex range = false /\ l_min range = lexstring (c_ele c)).
Proof.
  unfold lex_gte, zslLexValueGteMin. rewrite <- blt_gt, (eq_comm (l_min range)), <- sdscmplex_eq. destruct (l_minex range).
  - rewrite Z.ltb_lt. split; [by left|by intros [?|[? _]]].
  - rewrite Z.leb_le. lia.
Qed.

Lemma lex_lte_spec range c :
  lex_lte range c = true <-> blt (lexstring (c_ele c)) (l_max range) \/ (l_maxex range = false /\ lexstring (c_ele c) = l_max range).
Proof.
  unfold lex_lte, zslLexValueLteMax. rewrite <- sdscmplex_eq. unfold blt. destruct (l_maxex range).
  - rewrite Z.ltb_lt. split; [by left|by intros [?|[? _]]].
  - rewrite Z.leb_le. lia.
Qed.

Lemma lex_range_ok range : range_ok (lex_range range) (lex_gte range) (lex_lte range).
Proof.
  split; cbn [lex_range gte_min lte_max always_empty].
  - intros c n _ [-> _]. done.
  - intros c n _ [-> _]. done.
  - intros He c _. apply not_true_is_false. intros [HG%lex_gte_spec HL%lex_lte_spec]%andb_true_iff. apply orb_true_iff in He as [He|He].
    + apply Z.ltb_lt, blt_gt in He. destruct HG as [H1|[_ H1]], HL as [H2|[_ H2]].
      * by eapply blt_asym; [exact He|eapply sdscmplex_trans].
      * rewrite H2 in H1. by eapply blt_asym.
      * rewrite <- H1 in H2. by eapply blt_asym.
      * rewrite H1, H2 in He. by eapply blt_irrefl.
    + apply andb_true_iff in He as [He%Z.eqb_eq%sdscmplex_eq Hex]. rewrite He in *. destruct HG as [H1|[E1 H1]], HL as [H2|[E2 H2]].
      * by eapply blt_asym.
      * rewrite H2 in H1. by eapply blt_irrefl.
      * rewrite H1 in H2. by eapply blt_irrefl.
      * by rewrite E1, E2 in Hex.
  - intros He c _. apply orb_false_iff in He as [He1 He2]. apply orb_true_iff. rewrite lex_gte_spec, lex_lte_spec.
    apply Z.ltb_ge in He1. destruct (blt_total (l_min range) (lexstring (c_ele c))) as [H|[H|H]]; [by left; left| |].
    + destruct (blt_total (lexstring (c_ele c)) (l_max range)) as [H'|[H'|H']]; [by right; left| |].
      * rewrite (proj2 (sdscmplex_eq _ _)) in He2 by congruence. apply orb_false_iff in He2 as [E1 E2]. by left; right.
      * rewrite <- H in H'. apply blt_gt in H'. lia.
    + right. left. destruct (blt_total (lexstring (c_ele c)) (l_max range)) as [H'|[H'|H']]; [done|rewrite H' in H|].
      * apply blt_gt in H. lia.
      * assert (blt (l_max range) (l_min range)) as H2 by (by eapply sdscmplex_trans). apply blt_gt in H2. lia.
Qed.

Section lex_range.
  Context {l : list cell} (Hsorted : StronglySorted key_order l).
  Context (range : zlexrangespec) (Hsame : forall c d, c ∈ l -> d ∈ l -> feq (c_score c) (c_score d)).

(** With one score the strings are in order. *)
Lemma ele_sorted : StronglySorted (fun c d => blt (lexstring (c_ele c)) (lexstring (c_ele d))) l.
Proof using Hsorted Hsame.
  eapply sorted_in; [|exact Hsorted]. intros c d Hc Hd [H|[_ H]]; cbn in H.
  - rewrite (Hsame c d) in H by done. by apply flt_irrefl in H.
  - unfold blt. cbn. by rewrite sdscmp_lexcmp.
Qed.

Lemma lex_gte_antitone : antitone (fun c => negb (lex_gte range c)) l.
Proof using Hsorted Hsame.
  eapply sorted_impl; [|apply ele_sorted]. intros c d Hcd. cbn.
  rewrite !negb_true_iff, <- !not_true_iff_false, !lex_gte_spec. intros Hn Hg. apply Hn. left.
  destruct Hg as [Hg|[_ Hg]]; [by eapply sdscmplex_trans|by rewrite Hg].
Qed.

Lemma lex_lte_antitone : antitone (lex_lte range) l.
Proof using Hsorted Hsame.
  eapply sorted_impl; [|apply ele_sorted]. intros c d Hcd. cbn. rewrite !lex_lte_spec. intros [Hg|[_ Hg]]; left.
  - exact (sdscmplex_trans _ _ _ Hcd Hg).
  - by rewrite <- Hg.
Qed.
End lex_range.
