(* ===== verification/SkiplistDelete.v ===== *)
(** * Deleting ranges from a skiplist

    The three loops that delete consecutive nodes, also from the dict of the
    sorted set, and freeing a whole skiplist. *)
From S2P Require Import Prelude Skiplist SkiplistSpec SkiplistOps SkiplistOrder SkiplistRange.
From Stdlib Require Import ZArith Lia SpecFloat.
From stdpp Require Import prelude list gmap sorting.

#[local] Open Scope Z_scope.

Section deletion.
  Context {D : Type} (dictDelete : D -> list Z -> option D).

(** The calls that delete the elements from the dict. *)
Fixpoint dict_deletes (d : D) (es : list (list Z)) : option D :=
  match es with
  | [] => Some d
  | e :: es => d ← dictDelete d e; dict_deletes d es
  end.

(** The condition of the loop holds up to position [e]. *)
Definition goes (l : list cell) (go : Z -> zskiplistNode -> option bool) (a e : nat) (t : Z) : Prop :=
  forall k c n, (a <= k)%nat -> l !! k = Some c -> node_of c n -> go (t + Z.of_nat (k - a)) n = Some (bool_decide (k < e)%nat).

Lemma goes_del l go a m t c : l !! a = Some c -> goes l go a (a + S m) t -> goes (del l a) go a (a + m) (t + 1).
Proof using.
  intros Hc Hgo k d n Hk Hd Hno. rewrite del_lookup, decide_False in Hd by (apply lookup_lt_Some in Hc; lia).
  pose proof (Hgo (S k) d n ltac:(lia) Hd Hno) as H. replace (t + 1 + Z.of_nat (k - a)) with (t + Z.of_nat (S k - a)) by lia.
  rewrite H. f_equal. apply bool_decide_ext. lia.
Qed.

Lemma delete_nodes_spec m fuel extra h zsl l us go a t r d d' :
  rep extra h zsl l -> updates zsl l a us -> (a + m <= length l)%nat -> goes l go a (a + m) t ->
  0 <= t -> t + Z.of_nat (length l) < 2 ^ 64 -> 0 <= r -> r + Z.of_nat (length l) < 2 ^ 64 -> (length l - a <= fuel)%nat ->
  dict_deletes d (c_ele <$> take m (drop a l)) = Some d' ->
  exists h' zsl', delete_nodes dictDelete fuel h zsl d us go (c_ptr <$> l !! a) t r = Some (h', zsl', d', r + Z.of_nat m) /\
    rep extra h' zsl' (take a l ++ drop (a + m) l) /\ zsl_header zsl' = zsl_header zsl /\
    (forall p, (forall k c, (a <= k < a + m)%nat -> l !! k = Some c -> c_ptr c <> p) -> static h' p = static h p).
Proof using.
  revert fuel h zsl l t r d. induction m as [|m IH]; intros fuel h zsl l t r d Hrep Hus Hm Hgo Ht Htl Hr Hrl Hf Hd.
  { exists h, zsl. cbn [take dict_deletes] in Hd. injection Hd as <-. rewrite Nat.add_0_r, take_drop, Z.add_0_r. split; [|done].
    destruct (l !! a) as [c|] eqn:Hc; cbn [fmap option_fmap option_map]; [|by destruct fuel].
    pose proof (lookup_lt_Some _ _ _ Hc). destruct fuel as [|fuel]; [lia|]. cbn [delete_nodes].
    destruct (rep_cell Hrep a c Hc) as (n & -> & Hno & Hg). mstep.
    pose proof (Hgo a c n (le_n a) Hc Hno) as Hg'. rewrite Nat.sub_diag, Z.add_0_r in Hg'. rewrite Hg'. mstep.
    rewrite bool_decide_eq_false_2 by lia. done. }
  destruct (lookup_lt_is_Some_2 l a) as [c Hc]; [lia|]. rewrite Hc. cbn [fmap option_fmap option_map].
  destruct fuel as [|fuel]; [lia|]. cbn [delete_nodes].
  destruct (rep_cell Hrep a c Hc) as (n & Hn & Hno & Hg). rewrite Hn. mstep.
  pose proof (Hgo a c n (le_n a) Hc Hno) as Hg'. rewrite Nat.sub_diag, Z.add_0_r in Hg'. rewrite Hg'. mstep.
  rewrite bool_decide_eq_true_2 by lia. pose proof (rep_shape Hrep) as Hsh.
  assert (level n !! 0%nat = Some (fwd 0 (drop (S a) l))) as ->.
  { pose proof (sh_lev Hsh (S a) (c_ptr c) 0) as HL. cbn [ptr_at] in HL. rewrite Hc in HL.
    specialize (HL eq_refl (tall_at_bottom Hsh (S a) ltac:(lia))). unfold lev in HL. by rewrite Hn in HL. }
  mstep. rewrite (fwd_bottom Hsh). cbn [fst].
  destruct (zslDeleteNode_rep extra h zsl l a c us Hrep Hc Hus) as (h1 & zsl1 & -> & R1 & Hh1 & Hl1 & S1). mstep.
  assert (exists n1, h1 !! c_ptr c = Some n1 /\ ele n1 = Some (c_ele c)) as (n1 & -> & En1).
  { pose proof (S1 (c_ptr c)) as E. rewrite (sh_cell Hsh a c Hc) in E. unfold static in E.
    destruct (h1 !! c_ptr c) as [n1|]; [|done]. injection E as E _ _. by exists n1. }
  mstep. rewrite En1. mstep. rewrite (drop_S l c a Hc) in Hd. cbn [take fmap list_fmap dict_deletes] in Hd.
  destruct (dictDelete d (c_ele c)) as [d1|] eqn:Ed; [|done]. mstep. cbn in Hd.
  destruct (zslFreeNode_rep _ _ _ _ _ R1) as (h2 & -> & R2 & S2). mstep.
  pose proof (del_length l a ltac:(lia)) as Hdl. rewrite !wrapu_id by (unfold fits_u; lia).
  destruct (IH fuel h2 zsl1 (del l a) (t + 1) (r + 1) d1) as (h3 & zsl3 & E3 & R3 & Hh3 & S3); try lia.
  - done.
  - by apply (updates_del zsl); [lia|..].
  - by eapply goes_del.
  - by rewrite del_drop_after by lia.
  - exists h3, zsl3. rewrite del_lookup, decide_False in E3 by lia. split; [|split_and!].
    + rewrite E3. do 2 f_equal. lia.
    + rewrite del_drop_after in R3 by lia. replace (take a (del l a)) with (take a l) in R3.
      2: { unfold del. rewrite take_app_le by (rewrite length_take; lia). by rewrite take_take, Nat.min_id. }
      by replace (a + S m)%nat with (S (a + m)) by lia.
    + congruence.
    + intros p Hp. rewrite S3, S2, S1; [done|..].
      * intros ->. apply (Hp a c); [lia|done|done].
      * intros k e Hk He. rewrite del_lookup, decide_False in He by lia. apply (Hp (S k)); [lia|done].
Qed.

Lemma filter_all {A} (P : A -> bool) l : (forall c, c ∈ l -> P c = true) -> List.filter P l = l.
Proof using. induction l as [|c l IH]; intros H; [done|]. cbn. rewrite H by (by left). f_equal. apply IH. intros d Hd. apply H. by right. Qed.

(** What is not between two positions. *)
Lemma filter_outside {A} (P : A -> bool) l a e :
  (a <= e <= length l)%nat -> (forall k c, l !! k = Some c -> P c = bool_decide (a <= k < e)%nat) ->
  List.filter (fun c => negb (P c)) l = take a l ++ drop e l.
Proof using.
  intros He HP. rewrite <- (take_drop e l) at 1. rewrite <- (take_drop a (take e l)), take_take, Nat.min_l, !List.filter_app by lia.
  rewrite (filter_none _ (drop a (take e l))), app_nil_r.
  - f_equal; apply filter_all; intros c Hc; apply list_elem_of_lookup in Hc as [i Hi].
    + apply lookup_take_Some in Hi as [Hi ?]. rewrite (HP i c Hi), bool_decide_eq_false_2 by lia. done.
    + rewrite lookup_drop in Hi. rewrite (HP _ c Hi), bool_decide_eq_false_2 by lia. done.
  - intros c Hc. apply list_elem_of_lookup in Hc as [i Hi]. rewrite lookup_drop in Hi. apply lookup_take_Some in Hi as [Hi ?].
    rewrite (HP _ c Hi), bool_decide_eq_true_2 by lia. done.
Qed.

Lemma delete_range_spec extra h zsl l range G L d d' :
  rep extra h zsl l -> range_ok range G L -> antitone (fun c => negb (G c)) l -> antitone L l ->
  dict_deletes d (c_ele <$> in_range G L l) = Some d' ->
  exists h' zsl', delete_range dictDelete h zsl range d = Some (h', zsl', d', Z.of_nat (length (in_range G L l))) /\
    rep extra h' zsl' (List.filter (fun c => negb (G c && L c)) l) /\ zsl_header zsl' = zsl_header zsl /\
    (forall p, (forall c, c ∈ in_range G L l -> c_ptr c <> p) -> static h' p = static h p).
Proof using.
  intros Hrep Hok HG HL Hd. pose proof (rep_shape Hrep) as Hsh. set (a := plen (fun c => negb (G c)) l). set (b := plen L l).
  pose proof (range_a (l := l) (G := G)) as Ha. pose proof (range_b (l := l) (L := L)) as Hb. fold a in Ha. fold b in Hb.
  pose proof (in_range_length HG HL) as Hlen. pose proof (in_range_eq HG HL) as Heq. fold a b in Hlen, Heq.
  assert (take (b - a) (drop a l) = in_range G L l) as Etd by (rewrite Heq, skipn_firstn_comm; done).
  unfold delete_range. rewrite (zsl_search_spec Hsh _ a) by (by apply (stops_gte Hrep Hok HG) || done). mstep.
  rewrite (after_spec Hsh a Ha). mstep. pose proof (sh_bound Hsh). pose proof (shape_size Hsh).
  destruct (delete_nodes_spec (b - a) (size h) extra h zsl l (path zsl l a (zsl_level zsl)) (fun _ => lte_max range) a 0 0 d d')
    as (h' & zsl' & E & R & Hh & HS); try lia; [done|apply path_updates| |by rewrite Etd|].
  { intros k c n Hk Hc Hno. destruct (rep_cell Hrep k c Hc) as (_ & _ & _ & Hg). rewrite (ro_lte Hok c n Hg Hno).
    rewrite (range_L HL k c Hc). fold b. f_equal. apply bool_decide_ext. lia. }
  exists h', zsl'. rewrite E, Hlen, Z.add_0_l. split; [done|]. split_and!; [|done|].
  - rewrite (filter_outside (fun c => G c && L c) l a (a + (b - a))); [done|lia|].
    intros k c Hc. rewrite (range_G HG k c Hc), (range_L HL k c Hc). fold a b. repeat case_bool_decide; done || lia.
  - intros p Hp. apply HS. intros k c Hk Hc. apply Hp. apply list_elem_of_lookup. exists (k - a)%nat.
    rewrite (in_range_lookup HG HL). fold a b. rewrite decide_True by lia. by replace (a + (k - a))%nat with k by lia.
Qed.

(** Ranks count from 1; [start] of 0 is the first. *)
Lemma delete_by_rank_spec extra h zsl l start end_ d d' :
  let a := Nat.min (Z.to_nat (start - 1)) (length l) in
  let e := Nat.max a (Nat.min (Z.to_nat end_) (length l)) in
  rep extra h zsl l -> 0 <= start -> 0 <= end_ ->
  dict_deletes d (c_ele <$> take (e - a) (drop a l)) = Some d' ->
  exists h' zsl', zslDeleteRangeByRank dictDelete h zsl start end_ d = Some (h', zsl', d', Z.of_nat (e - a)) /\
    rep extra h' zsl' (take a l ++ drop e l) /\ zsl_header zsl' = zsl_header zsl /\
    (forall p, (forall k c, (a <= k < e)%nat -> l !! k = Some c -> c_ptr c <> p) -> static h' p = static h p).
Proof using.
  intros a e Hrep Hs He Hd. pose proof (rep_shape Hrep) as Hsh. pose proof (sh_bound Hsh). pose proof (shape_size Hsh). pose proof (sh_level Hsh).
  unfold zslDeleteRangeByRank. rewrite (zsl_search_spec Hsh _ a); [|intros k c n Hc _; f_equal|lia].
  2: { apply lookup_lt_Some in Hc. destruct (Z.ltb_spec (Z.of_nat (S k)) start); case_bool_decide; done || lia. }
  mstep. rewrite (after_spec Hsh a) by lia. mstep. rewrite path_lookup, (last_tall_bottom Hsh) by lia. mstep. cbn [snd].
  rewrite wrapu_id by (unfold fits_u; lia). assert (a + (e - a) = e)%nat as Ee by lia.
  edestruct (delete_nodes_spec (e - a)) as (h' & zsl' & E & R & Hh & HS).
  - exact Hrep.
  - apply (path_updates zsl l a).
  - lia.
  - instantiate (1 := Z.of_nat a + 1). instantiate (1 := fun t _ => Some (t <=? end_)). intros k c n Hk Hc _. cbn. f_equal.
    apply lookup_lt_Some in Hc. destruct (Z.leb_spec (Z.of_nat a + 1 + Z.of_nat (k - a)) end_); case_bool_decide; done || lia.
  - lia.
  - lia.
  - exact (Z.le_refl 0).
  - lia.
  - instantiate (1 := size h). lia.
  - done.
  - exists h', zsl'. rewrite Ee in *. rewrite E. split; [done|]. done.
Qed.
End deletion.

(** ** Freeing *)

Lemma free_nodes_spec extra h0 zsl l : shape extra h0 zsl l -> forall k fuel h,
  (forall j c, (k <= j)%nat -> l !! j = Some c -> h !! c_ptr c = h0 !! c_ptr c) -> (length l - k <= fuel)%nat ->
  exists h', free_nodes fuel h (c_ptr <$> l !! k) = Some h' /\
    forall p, h' !! p = if decide (p ∈ c_ptr <$> drop k l) then None else h !! p.
Proof.
  intros Hsh k. remember (length l - k)%nat as m eqn:Em. revert k Em. induction m as [|m IH]; intros k Em fuel h Hh Hf.
  - rewrite lookup_ge_None_2 by lia. exists h. split; [by destruct fuel|]. intros p. by rewrite drop_ge by lia.
  - destruct (lookup_lt_is_Some_2 l k) as [c Hc]; [lia|]. rewrite Hc. destruct fuel as [|fuel]; [lia|]. cbn [fmap option_fmap option_map free_nodes].
    pose proof (Hh k c (le_n k) Hc) as Ec. assert (lev h (c_ptr c) 0 = Some (fwd 0 (drop (S k) l))) as ->.
    { unfold lev. rewrite Ec. apply (sh_lev Hsh (S k)); [cbn; by rewrite Hc|apply (tall_at_bottom Hsh); lia]. }
    mstep. rewrite (fwd_bottom Hsh). cbn [fst]. destruct (shape_node Hsh k c Hc) as (n & Hn & _). unfold zslFreeNode. rewrite Ec, Hn. mstep.
    destruct (IH (S k) ltac:(lia) fuel (delete (c_ptr c) h)) as (h' & E & HE); [|lia|].
    + intros j d Hj Hd. rewrite lookup_delete_ne; [by apply (Hh j); [lia|]|]. intros E.
      assert (S k = S j); [|lia]. apply (ptr_at_inj Hsh _ _ (c_ptr c)); cbn; [by rewrite Hc|by rewrite Hd, E].
    + exists h'. split; [done|]. intros p. rewrite HE, (drop_S l c k Hc), fmap_cons. destruct (decide (p = c_ptr c)) as [->|Hp].
      * rewrite (decide_True (P := c_ptr c ∈ _ :: _)) by (by left). rewrite lookup_delete_eq. by case_decide.
      * rewrite lookup_delete_ne by done. destruct (decide (p ∈ c_ptr <$> drop (S k) l)).
        -- by rewrite decide_True by (by right).
        -- rewrite decide_False; [done|]. by rewrite elem_of_cons; intros [?|?].
Qed.

(** Every node of the skiplist is freed, and nothing else. *)
Lemma zslFree_shape extra h zsl l : shape extra h zsl l ->
  exists h', zslFree h zsl = Some h' /\ forall p, h' !! p = if decide (p ∈ extra) then h !! p else None.
Proof.
  intros Hsh. unfold zslFree. rewrite (sh_lev Hsh 0 _ 0 eq_refl) by (apply (tall_at_bottom Hsh 0); lia). mstep.
  rewrite (fwd_bottom Hsh). cbn [fst]. pose proof (sh_nodup Hsh) as Hnd. unfold addresses in Hnd. apply NoDup_cons in Hnd as [Hhd Hnd].
  apply NoDup_app in Hnd as (_ & Hdis & _). rewrite elem_of_app in Hhd.
  destruct (free_nodes_spec extra h zsl l Hsh 0 (size (delete (zsl_header zsl) h)) (delete (zsl_header zsl) h)) as (h' & E & HE).
  - intros j c _ Hc. rewrite lookup_delete_ne; [done|]. intros E. apply Hhd. left. rewrite E. apply list_elem_of_fmap. exists c.
    split; [done|by apply list_elem_of_lookup_2 in Hc].
  - pose proof (shape_size Hsh). destruct (proj2 (sh_dom Hsh (zsl_header zsl))) as [n Hn]; [by left|].
    rewrite map_size_delete, Hn. cbn. lia.
  - exists h'. split; [done|]. intros p. rewrite HE, drop_0. destruct (decide (p ∈ extra)) as [Hp|Hp].
    + rewrite decide_False; [|intros H; by apply (Hdis p)]. rewrite lookup_delete_ne; [done|]. intros E1. apply Hhd. right. by rewrite E1.
    + case_decide as Hc; [done|]. destruct (decide (p = zsl_header zsl)) as [->|Hne]; [apply lookup_delete_eq|].
      rewrite lookup_delete_ne by done. apply eq_None_not_Some. rewrite (sh_dom Hsh). unfold addresses.
      rewrite elem_of_cons, elem_of_app. tauto.
Qed.
