(* ===== verification/Zset.v ===== *)
(** * Sorted sets over a skiplist and a dict (src/t_zset.c, the common API)

    A [zset] is a dict from elements to pointers to the scores in the nodes of
    a skiplist.  Each call carries the resize policy of dicts then in force and
    the numbers [random] returns; C strings and [double]s are as in
    Skiplist.v, and [score += curscore] is the IEEE addition of [SpecFloat]. *)
From S2P Require Import Prelude Dict DictSpec Skiplist.
From Stdlib Require Import ZArith Lia SpecFloat.
From stdpp Require Import prelude list gmap.

#[local] Open Scope Z_scope.

Abbreviation sds := (list Z).

(** The nodes of the skiplist are in a heap of their own. *)
Record zset := Zset { zs_dict : dict sds nat; zs_zsl : zskiplist; zs_heap : zheap }.

Definition ZADD_IN_INCR : Z := 1.
Definition ZADD_IN_NX : Z := 2.
Definition ZADD_IN_XX : Z := 4.
Definition ZADD_IN_GT : Z := 8.
Definition ZADD_IN_LT : Z := 16.

Definition ZADD_OUT_NOP : Z := 1.
Definition ZADD_OUT_NAN : Z := 2.
Definition ZADD_OUT_ADDED : Z := 4.
Definition ZADD_OUT_UPDATED : Z := 8.

Definition has (flags flag : Z) : bool := negb (Z.land flags flag =? 0).

(** [double] addition. *)
Definition dadd (x y : spec_float) : spec_float := SFadd 53 1024 x y.

(** What a call of [zsetAdd] returns: its value, the flags and the new score
    when it is set. *)
Record zadd_result := ZaddResult { za_ret : bool; za_flags : Z; za_newscore : option spec_float }.

Section zset.
  Context (zmalloc : zheap -> nat) (junk : nat -> option nat * (option nat * Z)) (ty : dictType sds).

Definition createZset : zset := let '(h, zsl) := zslCreate zmalloc junk ∅ in Zset dictCreate zsl h.

(** The score a dict entry points to. *)
Definition entry_score (h : zheap) (de : dictEntry sds nat) : option spec_float :=
  p ← dictGetVal de; n ← h !! p; Some (score n).

(** [None] inside is C_ERR. *)
Definition zsetScore_skiplist (cr : dictResizeEnable) (zs : zset) (member : sds) : option (zset * option spec_float) :=
  r ← dictFind cr ty (zs_dict zs) member;
  let zs := Zset r.1 (zs_zsl zs) (zs_heap zs) in
  match r.2 with
  | None => Some (zs, None)
  | Some (_, de) => s ← entry_score (zs_heap zs) de; Some (zs, Some s)
  end.

(** The options of [zsetAdd] as it checks them. *)
Record zadd_options := Options { opt_incr : bool; opt_nx : bool; opt_xx : bool; opt_gt : bool; opt_lt : bool }.

Definition options (in_flags : Z) : zadd_options :=
  Options (has in_flags ZADD_IN_INCR) (has in_flags ZADD_IN_NX) (has in_flags ZADD_IN_XX)
    (has in_flags ZADD_IN_GT) (has in_flags ZADD_IN_LT).

(** The part of [zsetAdd] for this encoding; the score is a number. *)
Definition zsetAdd_skiplist (cr : dictResizeEnable) (draws : list Z) (zs : zset) (score : spec_float) (ele : sds)
    (o : zadd_options) : option (zset * zadd_result) :=
  r ← dictFind cr ty (zs_dict zs) ele;
  let d := r.1 in
  let zs := Zset d (zs_zsl zs) (zs_heap zs) in
  match r.2 with
  | Some (ref, de) =>
      if opt_nx o then Some (zs, ZaddResult true ZADD_OUT_NOP None)
      else
        curscore ← entry_score (zs_heap zs) de;
        let score := if opt_incr o then dadd score curscore else score in
        if opt_incr o && isnan score then Some (zs, ZaddResult false ZADD_OUT_NAN None)
        else if (opt_lt o && SFleb curscore score) || (opt_gt o && SFleb score curscore)
        then Some (zs, ZaddResult true ZADD_OUT_NOP None)
        else if negb (SFeqb score curscore) then
          u ← zslUpdateScore zmalloc junk draws (zs_heap zs) (zs_zsl zs) curscore ele score;
          let '(h, zsl, znode) := u in
          d ← dictSetVal d ref znode;
          Some (Zset d zsl h, ZaddResult true ZADD_OUT_UPDATED (Some score))
        else Some (zs, ZaddResult true 0 (Some score))
  | None =>
      if negb (opt_xx o) then
        u ← zslInsert zmalloc junk draws (zs_heap zs) (zs_zsl zs) score ele;
        let '(h, zsl, znode) := u in
        a ← dictAdd cr ty d ele znode;
        if negb a.2 then None
        else Some (Zset a.1 zsl h, ZaddResult true ZADD_OUT_ADDED (Some score))
      else Some (zs, ZaddResult true ZADD_OUT_NOP None)
  end.

(** The entry is read after it left the dict and before it is freed. *)
Definition zsetRemoveFromSkiplist (cr : dictResizeEnable) (zs : zset) (ele : sds) : option (zset * bool) :=
  r ← dictUnlink cr ty (zs_dict zs) ele;
  match r.2 with
  | Some de =>
      score ← entry_score (zs_heap zs) de;
      u ← zslDelete false (zs_heap zs) (zs_zsl zs) score ele;
      let '(h, zsl, found) := u in
      match found with
      | Some _ => Some (Zset r.1 zsl h, true)
      | None => None
      end
  | None => Some (Zset r.1 (zs_zsl zs) (zs_heap zs), false)
  end.

(** The rank, -1 when there is no such element, and its score. *)
Definition zsetRank_skiplist (cr : dictResizeEnable) (zs : zset) (ele : sds) (reverse : bool) :
    option (zset * Z * option spec_float) :=
  let llen := zsl_length (zs_zsl zs) in
  r ← dictFind cr ty (zs_dict zs) ele;
  let zs := Zset r.1 (zs_zsl zs) (zs_heap zs) in
  match r.2 with
  | Some (_, de) =>
      score ← entry_score (zs_heap zs) de;
      rank ← zslGetRank (zs_heap zs) (zs_zsl zs) score ele;
      if rank =? 0 then None
      else Some (zs, wraps 64 (if reverse then llen - rank else rank - 1), Some score)
  | None => Some (zs, -1, None)
  end.

(** ** Ranges *)

(** The indexes of a range of ranks; [None] when it is empty. *)
Definition sanitize (llen start end_ : Z) : option (Z * Z) :=
  let start := if start <? 0 then llen + start else start in
  let end_ := if end_ <? 0 then llen + end_ else end_ in
  let start := if start <? 0 then 0 else start in
  if (end_ <? start) || (llen <=? start) then None
  else Some (start, if llen <=? end_ then llen - 1 else end_).

(** What [zslDeleteRangeBy...] call to delete an element from the dict. *)
Definition dict_delete (cr : dictResizeEnable) (d : dict sds nat) (e : sds) : option (dict sds nat) :=
  r ← dictDelete cr ty d e; Some r.1.

Inductive zrange := RANK (start end_ : Z) | SCORE (range : zrangespec) | LEX (range : zlexrangespec).

(** The set, the number of deleted elements and whether it became empty. *)
Definition zremrange_skiplist (cr : dictResizeEnable) (zs : zset) (range : zrange) : option (zset * Z * bool) :=
  let d := dictPauseAutoResize (zs_dict zs) in
  r ← match range with
      | RANK start end_ =>
          zslDeleteRangeByRank (dict_delete cr) (zs_heap zs) (zs_zsl zs) (wrapu 32 (start + 1)) (wrapu 32 (end_ + 1)) d
      | SCORE range => zslDeleteRangeByScore (dict_delete cr) (zs_heap zs) (zs_zsl zs) range d
      | LEX range => zslDeleteRangeByLex (dict_delete cr) (zs_heap zs) (zs_zsl zs) range d
      end;
  let '(h, zsl, d, deleted) := r in
  let d := dictResumeAutoResize d in
  if dictSize d =? 0 then Some (Zset d zsl h, deleted, true)
  else r ← dictShrinkIfNeeded cr ty d; Some (Zset r.1 zsl h, deleted, false).
End zset.

(** The next node in either direction. *)
Definition next_node (reverse : bool) (n : zskiplistNode) : option (option nat) :=
  if reverse then Some (backward n) else l ← level n !! 0%nat; Some l.1.

(** [rangelen] nodes are emitted. *)
Fixpoint emit_nodes (h : zheap) (reverse : bool) (rangelen : nat) (ln : option nat) : option (list (sds * spec_float)) :=
  match rangelen with
  | O => Some []
  | S rangelen =>
      x ← ln;
      n ← h !! x;
      e ← ele n;
      ln ← next_node reverse n;
      rest ← emit_nodes h reverse rangelen ln;
      Some ((e, score n) :: rest)
  end.

Definition zrangebyrank_skiplist (zs : zset) (start end_ : Z) (reverse : bool) : option (list (sds * spec_float)) :=
  let h := zs_heap zs in
  let zsl := zs_zsl zs in
  let llen := zsl_length zsl in
  match sanitize llen start end_ with
  | None => Some []
  | Some (start, end_) =>
      let rangelen := end_ - start + 1 in
      ln ← (if reverse then
              if 0 <? start then zslGetElementByRank h zsl (wrapu 64 (llen - start)) else Some (zsl_tail zsl)
            else if 0 <? start then zslGetElementByRank h zsl (wrapu 64 (start + 1))
            else l ← lev h (zsl_header zsl) 0; Some l.1);
      emit_nodes h reverse (Z.to_nat rangelen) ln
  end.

(** Nodes are emitted while they are in range and [limit] allows it. *)
Fixpoint emit_range (fuel : nat) (h : zheap) (test : zskiplistNode -> option bool) (reverse : bool) (limit : Z) (ln : option nat) :
    option (list (sds * spec_float)) :=
  match ln with
  | None => Some []
  | Some x =>
      if limit =? 0 then Some []
      else
        match fuel with
        | O => None
        | S fuel =>
            n ← h !! x;
            t ← test n;
            if (t : bool) then
              e ← ele n;
              ln ← next_node reverse n;
              rest ← emit_range fuel h test reverse (wraps 64 (limit - 1)) ln;
              Some ((e, score n) :: rest)
            else Some []
        end
  end.

(** By score or lexicographically: the two commands differ in the tests. *)
Definition zrangeby_skiplist (zs : zset) (range : node_range) (offset limit : Z) (reverse : bool) :
    option (list (sds * spec_float)) :=
  let h := zs_heap zs in
  ln ← nth_in_range h (zs_zsl zs) range (if reverse then wraps 64 (- offset - 1) else offset);
  emit_range (size h) h (if reverse then gte_min range else lte_max range) reverse limit ln.

(** An offset past the end is found out first here. *)
Definition zrangebyscore_skiplist (zs : zset) (range : zrangespec) (offset limit : Z) (reverse : bool) :
    option (list (sds * spec_float)) :=
  if (0 <? offset) && (wraps 64 (zsl_length (zs_zsl zs)) <=? offset) then Some []
  else zrangeby_skiplist zs (score_range range) offset limit reverse.

Definition zrangebylex_skiplist (zs : zset) (range : zlexrangespec) (offset limit : Z) (reverse : bool) :
    option (list (sds * spec_float)) :=
  zrangeby_skiplist zs (lex_range range) offset limit reverse.

(** ZCOUNT and ZLEXCOUNT. *)
Definition node_rank (h : zheap) (zsl : zskiplist) (x : nat) : option Z :=
  n ← h !! x; e ← ele n; zslGetRank h zsl (score n) e.

Definition count_skiplist (zs : zset) (range : node_range) : option Z :=
  let h := zs_heap zs in
  let zsl := zs_zsl zs in
  zn ← nth_in_range h zsl range 0;
  match zn with
  | None => Some 0
  | Some x =>
      rank ← node_rank h zsl x;
      let count := wrapu 64 (zsl_length zsl - (rank - 1)) in
      zn ← nth_in_range h zsl range (-1);
      match zn with
      | None => Some count
      | Some x => rank ← node_rank h zsl x; Some (wrapu 64 (count - (zsl_length zsl - rank)))
      end
  end.

Definition zcount_skiplist zs range := count_skiplist zs (score_range range).
Definition zlexcount_skiplist zs range := count_skiplist zs (lex_range range).
