(* ===== verification/ZsetSpec.v ===== *)
(** * What a sorted set is

    The sorted list of scores and elements that both encodings of a sorted set
    represent, with the operations of the commands on it. *)
From S2P Require Import Prelude Skiplist SkiplistSpec SkiplistOrder SkiplistRange Zset.
From Stdlib Require Import ZArith Lia SpecFloat.
From stdpp Require Import prelude list gmap sorting.

#[local] Open Scope Z_scope.

Record sorted_set (L : list key) : Prop := {
  ss_sorted : StronglySorted klt L;
  ss_nodup : NoDup L.*2;
  ss_num : Forall (fun k => isnan k.1 = false) L }.

Arguments ss_sorted {_}. Arguments ss_nodup {_}. Arguments ss_num {_}.

Definition zl_pos (k : key) (L : list key) : nat := plen (fun k' => bool_decide (klt k' k)) L.
Definition zl_insert (k : key) (L : list key) : list key := take (zl_pos k L) L ++ k :: drop (zl_pos k L) L.
Definition zl_remove (e : sds) (L : list key) : list key := filter (fun k => k.2 <> e) L.

(** The place of an element and its score. *)
Definition zl_find (e : sds) (L : list key) : option (nat * key) := list_find (fun k => k.2 = e) L.
Definition zl_score (e : sds) (L : list key) : option spec_float := (fun r => r.2.1) <$> zl_find e L.

(** ZADD *)
Definition zl_add (s : spec_float) (e : sds) (o : zadd_options) (L : list key) : list key * zadd_result :=
  match zl_score e L with
  | Some cur =>
      let s := if opt_incr o then dadd s cur else s in
      if opt_nx o then (L, ZaddResult true ZADD_OUT_NOP None)
      else if isnan s then (L, ZaddResult false ZADD_OUT_NAN None)
      else if (opt_lt o && SFleb cur s) || (opt_gt o && SFleb s cur) then (L, ZaddResult true ZADD_OUT_NOP None)
      else if SFeqb s cur then (L, ZaddResult true 0 (Some s))
      else (zl_insert (s, e) (zl_remove e L), ZaddResult true ZADD_OUT_UPDATED (Some s))
  | None =>
      if opt_xx o then (L, ZaddResult true ZADD_OUT_NOP None)
      else (zl_insert (s, e) L, ZaddResult true ZADD_OUT_ADDED (Some s))
  end.

(** ZRANK and ZREVRANK; -1 when there is no such element. *)
Definition zl_rank (e : sds) (reverse : bool) (L : list key) : Z * option spec_float :=
  match zl_find e L with
  | Some (i, k) => (if reverse then Z.of_nat (length L - 1 - i) else Z.of_nat i, Some k.1)
  | None => (-1, None)
  end.

(** The elements of a range. *)
Definition score_in (range : zrangespec) (k : key) : bool := zslValueGteMin k.1 range && zslValueLteMax k.1 range.
Definition lex_in (range : zlexrangespec) (k : key) : bool := zslLexValueGteMin k.2 range && zslLexValueLteMax k.2 range.

(** [limit] elements from [offset]; all when [limit] is negative. *)
Definition page {A} (offset limit : Z) (l : list A) : list A :=
  let l := drop (Z.to_nat offset) l in if limit <? 0 then l else take (Z.to_nat limit) l.

Definition emit (k : key) : sds * spec_float := (k.2, k.1).

Definition zl_rangeby (P : key -> bool) (offset limit : Z) (reverse : bool) (L : list key) : list (sds * spec_float) :=
  let R := List.filter P L in emit <$> page offset limit (if reverse then rev R else R).

Definition zl_rangebyrank (start end_ : Z) (reverse : bool) (L : list key) : list (sds * spec_float) :=
  match sanitize (Z.of_nat (length L)) start end_ with
  | None => []
  | Some (start, end_) => emit <$> page start (end_ - start + 1) (if reverse then rev L else L)
  end.

(** ** Its invariant *)

Lemma klt_antisymm : AntiSymm (=) klt.
Proof. intros a b H1 H2. by destruct (klt_irrefl _ (klt_trans _ _ _ H1 H2)). Qed.

(** The order determines the list. *)
Lemma sorted_unique L1 L2 : StronglySorted klt L1 -> StronglySorted klt L2 -> L1 ≡ₚ L2 -> L1 = L2.
Proof. intros H1 H2 HP. apply (StronglySorted_unique klt (AntiSymm0 := klt_antisymm)); done. Qed.

Lemma before_antitone k L : StronglySorted klt L -> antitone (fun k' => bool_decide (klt k' k)) L.
Proof. apply sorted_impl. intros c d Hcd. rewrite !bool_decide_eq_true. by apply klt_trans. Qed.

Lemma zl_insert_perm k L : zl_insert k L ≡ₚ k :: L.
Proof. unfold zl_insert. rewrite <- Permutation_middle. by rewrite take_drop. Qed.

Lemma zl_insert_sorted k L : StronglySorted klt L -> (forall k', k' ∈ L -> ~ keq k' k) -> StronglySorted klt (zl_insert k L).
Proof.
  intros Hs Hn. unfold zl_insert. set (a := zl_pos k L).
  pose proof (plen_spec _ L (before_antitone k L Hs)) as Hp. fold (zl_pos k L) in Hp. fold a in Hp.
  assert (forall d, d ∈ take a L -> klt d k) as Hlt.
  { intros d Hd. apply list_elem_of_lookup in Hd as [i Hi]. apply lookup_take_Some in Hi as [Hi Ha].
    specialize (Hp i d Hi). cbn in Hp. rewrite (bool_decide_eq_true_2 (_ < _)%nat) in Hp by done. by apply bool_decide_eq_true in Hp. }
  assert (forall d, d ∈ drop a L -> klt k d) as Hgt.
  { intros d Hd. pose proof Hd as [i Hi]%list_elem_of_lookup. rewrite lookup_drop in Hi. specialize (Hp _ d Hi). cbn in Hp.
    rewrite (bool_decide_eq_false_2 (_ < _)%nat) in Hp by lia. apply bool_decide_eq_false in Hp.
    destruct (klt_total k d) as [?|[E|E]]; [done| |done]. destruct (Hn d); [by apply list_elem_of_lookup_2 in Hi|by symmetry]. }
  rewrite <- (take_drop a L) in Hs. apply StronglySorted_app in Hs as (H1 & H2 & H3). apply StronglySorted_app. split_and!; [|done|].
  - intros d1 d2 Hd1 [->|Hd2]%elem_of_cons; [by apply Hlt|by apply H1].
  - constructor; [done|]. apply Forall_forall. apply Hgt.
Qed.

(** Removing elements keeps the invariant. *)
Lemma sublist_map {A B} (f : A -> B) l1 l2 : l1 `sublist_of` l2 -> f <$> l1 `sublist_of` f <$> l2.
Proof. induction 1; [constructor|by apply sublist_skip|by apply sublist_cons]. Qed.

Lemma sublist_sorted {A} (R : A -> A -> Prop) l1 l2 : l1 `sublist_of` l2 -> StronglySorted R l2 -> StronglySorted R l1.
Proof.
  induction 1 as [|x l1 l2 H IH|x l1 l2 H IH]; intros Hs; [done| |].
  - apply StronglySorted_cons in Hs as [Hx Hs]. constructor; [by apply IH|]. rewrite Forall_forall in *. intros y Hy. apply Hx.
    by eapply elem_of_sublist.
  - apply StronglySorted_cons in Hs as [Hx Hs]. by apply IH.
Qed.

Lemma sublist_ok L1 L2 : L1 `sublist_of` L2 -> sorted_set L2 -> sorted_set L1.
Proof.
  intros H [Hs Hn Hnum]. split.
  - by eapply sublist_sorted.
  - eapply sublist_NoDup; [done|]. by apply sublist_map.
  - rewrite Forall_forall in *. intros k Hk. apply Hnum. by eapply elem_of_sublist.
Qed.

Lemma list_filter_sublist {A} (P : A -> bool) l : List.filter P l `sublist_of` l.
Proof. induction l as [|x l IH]; [constructor|]. cbn. destruct (P x); [by apply sublist_skip|by apply sublist_cons]. Qed.

Lemma zl_insert_ok k L : sorted_set L -> isnan k.1 = false -> k.2 ∉ L.*2 -> sorted_set (zl_insert k L).
Proof.
  intros [Hs Hn Hnum] Hk He. split.
  - apply zl_insert_sorted; [done|]. intros k' Hk' [_ E]. apply He. rewrite <- E. by apply list_elem_of_fmap_2.
  - rewrite zl_insert_perm. cbn. by constructor.
  - rewrite zl_insert_perm. by constructor.
Qed.

Lemma elem_of_remove e L e' : e' ∈ (zl_remove e L).*2 <-> e' <> e /\ e' ∈ L.*2.
Proof.
  unfold zl_remove. rewrite !list_elem_of_fmap. setoid_rewrite list_elem_of_filter. split.
  - intros (k & -> & Hk & Hin). split; [done|by exists k].
  - intros (He & k & -> & Hin). by exists k.
Qed.

Lemma zl_remove_ok e L : sorted_set L -> sorted_set (zl_remove e L).
Proof. apply sublist_ok. unfold zl_remove. apply sublist_filter. Qed.

Lemma zl_remove_absent e L : e ∉ L.*2 -> zl_remove e L = L.
Proof.
  unfold zl_remove. induction L as [|k L IH]; [done|]. rewrite fmap_cons. intros [H1 H2]%not_elem_of_cons.
  rewrite filter_cons_True by done. by rewrite IH.
Qed.

Lemma zl_find_some e L i k : sorted_set L -> zl_find e L = Some (i, k) <-> L !! i = Some k /\ k.2 = e.
Proof.
  intros HL. unfold zl_find. rewrite list_find_Some. split; [tauto|]. intros [Hi He]. split_and!; [done|done|].
  intros j k' Hj Hlt Hk'. pose proof (ss_nodup HL) as Hn. assert (j = i); [|lia].
  apply (NoDup_lookup L.*2 j i e); [done|rewrite list_lookup_fmap, Hj|rewrite list_lookup_fmap, Hi]; cbn; congruence.
Qed.

Lemma zl_find_none e L : zl_find e L = None <-> e ∉ L.*2.
Proof.
  unfold zl_find. rewrite list_find_None, Forall_forall. split.
  - intros H (k & -> & Hk)%list_elem_of_fmap. by apply (H k).
  - intros H k Hk <-. apply H. by apply list_elem_of_fmap_2.
Qed.

(** The set stays one under ZADD. *)
Lemma zl_add_ok s e o L : sorted_set L -> isnan s = false -> sorted_set (zl_add s e o L).1.
Proof.
  intros HL Hs. unfold zl_add, zl_score. destruct (zl_find e L) as [[i k]|] eqn:E; cbn [fmap option_fmap option_map snd].
  - set (s' := if opt_incr o then _ else _). destruct (opt_nx o); [done|]. destruct (isnan s') eqn:Hn; [done|].
    destruct (_ || _); [done|]. destruct (SFeqb s' k.1); [done|]. cbn [fst]. apply zl_insert_ok; [by apply zl_remove_ok|done|].
    rewrite elem_of_remove. by intros [? _].
  - destruct (opt_xx o); [done|]. apply zl_insert_ok; [done|done|]. by apply zl_find_none.
Qed.
