(* ===== verification/ZsetCorrect.v ===== *)
(** * Sorted sets over a skiplist and a dict are sorted sets

    The dict and the skiplist of a [zset] agree, every operation keeps them
    so, and does to the elements in order what ZsetSpec.v says. *)
From S2P Require Import Prelude Dict DictSpec DictCorrect DictIface Skiplist SkiplistSpec SkiplistOps SkiplistOrder SkiplistRange SkiplistDelete Zset ZsetSpec.
From Stdlib Require Import ZArith Lia SpecFloat.
From stdpp Require Import prelude list gmap sorting.

#[local] Open Scope Z_scope.

Lemma keys_sorted l : Forall good l -> StronglySorted key_order l -> NoDup (c_ele <$> l) -> sorted_set (c_key <$> l).
Proof.
  intros Hg Hs Hn. split.
  - clear Hg Hn. induction Hs as [|c l Hl IH Hc]; [constructor|]. rewrite fmap_cons. constructor; [done|].
    apply Forall_fmap. exact Hc.
  - rewrite <- list_fmap_compose. exact Hn.
  - apply Forall_fmap. exact Hg.
Qed.

(** Removing an element from the list. *)
Lemma del_keys l a c : NoDup (c_ele <$> l) -> l !! a = Some c -> zl_remove (c_ele c) (c_key <$> l) = c_key <$> del l a.
Proof.
  intros Hn Hc. unfold zl_remove, del. rewrite <- (take_drop_middle l a c Hc) at 1. rewrite !fmap_app, filter_app, fmap_cons.
  rewrite filter_cons_False by (cbn; tauto).
  assert (forall s : list cell, c_ele c ∉ c_ele <$> s -> filter (fun k : key => k.2 <> c_ele c) (c_key <$> s) = c_key <$> s) as Hf.
  { induction s as [|d s IH]; [done|]. rewrite !fmap_cons. intros Hd. apply not_elem_of_cons in Hd as [Hd1 Hd2].
    rewrite filter_cons_True by (cbn; congruence). by rewrite IH. }
  rewrite <- (take_drop_middle l a c Hc), fmap_app, fmap_cons in Hn. apply NoDup_app in Hn as (_ & Hd & Hn2).
  apply NoDup_cons in Hn2 as [Hn2 _]. rewrite !Hf; [done|done|]. intros Hin. apply (Hd _ Hin). by left.
Qed.

Section correct.
  Context (zmalloc : zheap -> nat) (junk : nat -> option nat * (option nat * Z)) (ty : dictType sds).
  Context (Hmalloc : forall h, h !! zmalloc h = None) (Hval : no_value ty = false).

(** The dict has the nodes of the skiplist under their elements. *)
Definition indexes (m : gmap sds (option nat)) (l : list cell) : Prop :=
  forall e v, m !! e = Some v <-> exists c, c ∈ l /\ c_ele c = e /\ v = Some (c_ptr c).

Record zset_ok (zs : zset) (l : list cell) : Prop := {
  zo_rep : rep [] (zs_heap zs) (zs_zsl zs) l;
  zo_nodup : NoDup (c_ele <$> l);
  zo_wf : wf ty (zs_dict zs);
  zo_auto : pauseAutoResize (zs_dict zs) = 0;
  zo_dict : indexes (dict_map (zs_dict zs)) l }.

Arguments zo_rep {_ _}. Arguments zo_nodup {_ _}. Arguments zo_wf {_ _}. Arguments zo_auto {_ _}. Arguments zo_dict {_ _}.

Lemma zset_sorted zs l : zset_ok zs l -> sorted_set (c_key <$> l).
Proof using. intros Hok. apply keys_sorted; [apply (rep_good (zo_rep Hok))|apply (rep_sorted (zo_rep Hok))|apply (zo_nodup Hok)]. Qed.

(** An operation of the dict that keeps its contents. *)
Lemma dict_kept zs l d : zset_ok zs l -> yields ty (zs_dict zs) d (dict_map (zs_dict zs)) -> zset_ok (Zset d (zs_zsl zs) (zs_heap zs)) l.
Proof using.
  intros Hok Hy. split; cbn; try apply Hok; [apply Hy|rewrite (y_auto _ _ _ _ Hy); apply Hok|]. rewrite (y_map _ _ _ _ Hy). apply Hok.
Qed.

(** A lookup in the dict finds the element and its score. *)
Lemma dict_lookup cr zs l e : zset_ok zs l ->
  exists d r, dictFind cr ty (zs_dict zs) e = Some (d, r) /\ yields ty (zs_dict zs) d (dict_map (zs_dict zs)) /\
    match r with
    | Some (ref, de) => exists a c, entry_at d ref de /\ dictGetKey de = e /\ l !! a = Some c /\ c_ele c = e /\
        zl_find e (c_key <$> l) = Some (a, c_key c) /\ entry_score (zs_heap zs) de = Some (c_score c) /\ isnan (c_score c) = false
    | None => zl_find e (c_key <$> l) = None
    end.
Proof using.
  intros Hok. destruct (dictFind_spec cr ty (zs_dict zs) e (zo_wf Hok)) as (d & r & -> & Hs & Hr). exists d, r.
  split; [done|]. split; [by apply sim_yields; [apply Hok|]|]. destruct r as [[ref de]|].
  - destruct Hr as (Hat & Hk & Hm). apply (zo_dict Hok) in Hm as (c & Hc & Hce & Hp). apply list_elem_of_lookup in Hc as [a Ha].
    exists a, c. destruct (rep_cell (zo_rep Hok) a c Ha) as (n & Hn & [_ Hsc] & Hg). split_and!; [done|done|done|done| | |done].
    + apply zl_find_some; [by eapply zset_sorted|]. split; [by rewrite list_lookup_fmap, Ha|done].
    + unfold entry_score. rewrite Hp. mstep. rewrite Hn. mstep. by rewrite Hsc.
  - apply zl_find_none. intros (k & -> & Hk)%list_elem_of_fmap. apply list_elem_of_fmap in Hk as (c & -> & Hc).
    assert (dict_map (zs_dict zs) !! c_ele c = Some (Some (c_ptr c))) as E by (apply (zo_dict Hok); by exists c).
    cbn in Hr. congruence.
Qed.

Lemma zsetScore_ok cr zs l e : zset_ok zs l ->
  exists zs', zsetScore_skiplist ty cr zs e = Some (zs', zl_score e (c_key <$> l)) /\ zset_ok zs' l.
Proof using.
  intros Hok. destruct (dict_lookup cr zs l e Hok) as (d & r & E & Hy & Hr). unfold zsetScore_skiplist. rewrite E. mstep. cbn [fst snd].
  pose proof (dict_kept zs l d Hok Hy) as Hok'. eexists. split; [|exact Hok']. unfold zl_score. destruct r as [[ref de]|].
  - destruct Hr as (a & c & _ & _ & _ & _ & -> & Hs & _). cbn [zs_heap]. rewrite Hs. done.
  - by rewrite Hr.
Qed.


(** The list after an insertion. *)
Lemma ins_keys l c : Forall good l -> StronglySorted key_order l -> c_key <$> ins l (pos (c_key c) l) c = zl_insert (c_key c) (c_key <$> l).
Proof using.
  intros Hg Hs. unfold ins, zl_insert. replace (zl_pos (c_key c) (c_key <$> l)) with (pos (c_key c) l).
  { by rewrite fmap_app, fmap_cons, fmap_take, fmap_drop. }
  unfold zl_pos, pos, kbefore. clear. induction l as [|d l IH]; [done|]. rewrite fmap_cons. cbn [plen].
  rewrite andb_false_l, orb_false_r. destruct (bool_decide (klt (c_key d) (c_key c))); [by rewrite IH|done].
Qed.

Lemma indexes_insert m l c : indexes m l -> m !! c_ele c = None ->
  forall l', l' ≡ₚ c :: l -> indexes (<[c_ele c := Some (c_ptr c)]> m) l'.
Proof using.
  unfold indexes. intros Hi Hn l' HP e v. setoid_rewrite HP. setoid_rewrite elem_of_cons. destruct (decide (e = c_ele c)) as [->|He].
  - rewrite lookup_insert_eq. split.
    + intros [= <-]. exists c. split_and!; [by left|done|done].
    + intros (d & [->|Hd] & E & ->); [done|]. assert (m !! c_ele c = Some (Some (c_ptr d))) as Hm by (apply Hi; by exists d). congruence.
  - rewrite lookup_insert_ne, Hi by done. split.
    + intros (d & Hd & ?). exists d. split; [by right|done].
    + intros (d & [->|Hd] & E & ?); [by destruct He|]. by exists d.
Qed.

Lemma indexes_delete m l a c : indexes m l -> NoDup (c_ele <$> l) -> l !! a = Some c -> indexes (delete (c_ele c) m) (del l a).
Proof using.
  unfold indexes. intros Hi Hn Hc e v. pose proof (del_perm l a c Hc) as HP. generalize dependent (del l a). intros l' HP. rewrite HP, fmap_cons in Hn. apply NoDup_cons in Hn as [Hn _].
  destruct (decide (e = c_ele c)) as [->|He].
  - rewrite lookup_delete_eq. split; [done|]. intros (d & Hd & E & _). destruct Hn. rewrite <- E. by apply list_elem_of_fmap_2.
  - rewrite lookup_delete_ne, Hi by done. setoid_rewrite HP. setoid_rewrite elem_of_cons. split.
    + intros (d & [->|Hd] & E & ?); [by destruct He|]. by exists d.
    + intros (d & Hd & ?). exists d. split; [by right|done].
Qed.

Lemma add_new cr draws lvl zs l s e :
  zset_ok zs l -> zslRandomLevel draws = Some lvl -> isnan s = false -> Z.of_nat (length l) < 2 ^ 63 - 1 ->
  zl_find e (c_key <$> l) = None ->
  exists h zsl x d l', zslInsert zmalloc junk draws (zs_heap zs) (zs_zsl zs) s e = Some (h, zsl, x) /\
    dictAdd cr ty (zs_dict zs) e x = Some (d, true) /\ zset_ok (Zset d zsl h) l' /\ c_key <$> l' = zl_insert (s, e) (c_key <$> l).
Proof using Hmalloc Hval.
  intros Hok Hr Hs Hb Hf. apply zl_find_none in Hf. pose proof (zo_rep Hok) as Hrep.
  assert (e ∉ c_ele <$> l) as He by (by rewrite <- list_fmap_compose in Hf).
  destruct (zslInsert_rep zmalloc junk Hmalloc [] (zs_heap zs) (zs_zsl zs) l draws lvl s e) as (h & zsl & x & E & Hx & R & _ & _); try done.
  { intros c Hc [_ Ek]. apply He. cbn in Ek. rewrite <- Ek. by apply list_elem_of_fmap_2. }
  assert (dict_map (zs_dict zs) !! e = None) as Hm.
  { apply eq_None_not_Some. intros [v Hv]. apply (zo_dict Hok) in Hv as (c & Hc & <- & _). apply He. by apply list_elem_of_fmap_2. }
  destruct (dictAdd_spec cr ty (zs_dict zs) e x (zo_wf Hok)) as (d & Ed & Hy); [right; rewrite (zo_auto Hok); lia|].
  rewrite bool_decide_eq_true_2 in Ed by done. rewrite decide_True in Hy by done. unfold value_of in Hy. rewrite Hval in Hy.
  set (c := Cell x lvl s e) in *. exists h, zsl, x, d, (ins l (pos (s, e) l) c). split; [done|]. split; [done|]. split.
  - split; cbn; [done| |apply Hy|rewrite (y_auto _ _ _ _ Hy); apply Hok|].
    + rewrite ins_perm, fmap_cons. constructor; [done|apply Hok].
    + rewrite (y_map _ _ _ _ Hy). apply (indexes_insert _ l c); [apply Hok|done|apply ins_perm].
  - apply (ins_keys l c); [apply (rep_good Hrep)|apply (rep_sorted Hrep)].
Qed.

Lemma add_update draws lvl zs l a c ref de new :
  zset_ok zs l -> zslRandomLevel draws = Some lvl -> isnan new = false -> l !! a = Some c ->
  entry_at (zs_dict zs) ref de -> dictGetKey de = c_ele c ->
  exists h zsl x d l', zslUpdateScore zmalloc junk draws (zs_heap zs) (zs_zsl zs) (c_score c) (c_ele c) new = Some (h, zsl, x) /\
    dictSetVal (zs_dict zs) ref x = Some d /\ zset_ok (Zset d zsl h) l' /\
    c_key <$> l' = zl_insert (new, c_ele c) (zl_remove (c_ele c) (c_key <$> l)).
Proof using Hmalloc Hval.
  intros Hok Hr Hn Hc Hat Hk. pose proof (zo_rep Hok) as Hrep. destruct (rep_cell Hrep a c Hc) as (_ & _ & _ & Hg).
  pose proof (zo_nodup Hok) as Hnd. pose proof (del_perm l a c Hc) as HP.
  assert (c_ele c ∉ c_ele <$> del l a) as Hne by (rewrite HP, fmap_cons in Hnd; by apply NoDup_cons in Hnd as [? _]).
  destruct (zslUpdateScore_rep zmalloc junk Hmalloc [] (zs_heap zs) (zs_zsl zs) l draws lvl a c (c_score c) (c_ele c) new)
    as (h & zsl & c' & l' & E & Ek & HP' & R & _ & _ & _); try done.
  { intros d Hd Ee. apply Hne. rewrite <- Ee. by apply list_elem_of_fmap_2. }
  destruct (dictSetVal_spec ty (zs_dict zs) ref de (c_ptr c') (zo_wf Hok) Hat Hval) as (d & Ed & Hy). rewrite Hk in Hy.
  assert (c_ele c' = c_ele c) as Ee by (unfold c_key in Ek; congruence).
  assert (NoDup (c_ele <$> l')) as Hnd' by (rewrite HP', fmap_cons, Ee; rewrite HP, fmap_cons in Hnd; done).
  exists h, zsl, (c_ptr c'), d, l'. split; [done|]. split; [done|]. split.
  - split; cbn; [done|done|apply Hy|rewrite (y_auto _ _ _ _ Hy); apply Hok|]. rewrite (y_map _ _ _ _ Hy), <- Ee.
    rewrite <- insert_delete_eq. apply (indexes_insert _ (del l a)); [|apply lookup_delete_eq|done].
    rewrite Ee. apply indexes_delete; [apply Hok|done|done].
  - rewrite (del_keys l a c) by done. pose proof (zset_sorted zs l Hok) as Hss.
    apply sorted_unique.
    + apply keys_sorted; [apply (rep_good R)|apply (rep_sorted R)|done].
    + apply zl_insert_sorted.
      * rewrite <- (del_keys l a c) by done. by apply zl_remove_ok.
      * intros k' Hk' [_ E']. apply Hne. apply list_elem_of_fmap in Hk' as (d' & -> & Hd'). cbn in E'. rewrite <- E'. by apply list_elem_of_fmap_2.
    + rewrite zl_insert_perm, HP', fmap_cons, Ek. done.
Qed.

Lemma zsetAdd_ok cr draws lvl zs l s e o :
  zset_ok zs l -> zslRandomLevel draws = Some lvl -> isnan s = false -> Z.of_nat (length l) < 2 ^ 63 - 1 ->
  exists zs' l', zsetAdd_skiplist zmalloc junk ty cr draws zs s e o = Some (zs', (zl_add s e o (c_key <$> l)).2) /\
    zset_ok zs' l' /\ c_key <$> l' = (zl_add s e o (c_key <$> l)).1.
Proof using Hmalloc Hval.
  intros Hok Hr Hs Hb. destruct (dict_lookup cr zs l e Hok) as (d & r & E & Hy & Hf). unfold zsetAdd_skiplist. rewrite E. mstep. cbn [fst snd].
  pose proof (dict_kept zs l d Hok Hy) as Hok'. unfold zl_add, zl_score. destruct r as [[ref de]|].
  - destruct Hf as (a & c & Hat & Hk & Hc & <- & -> & Hsc & Hg). cbn [fmap option_fmap option_map snd fst c_key].
    destruct (opt_nx o); [by eexists _, l|]. cbn [zs_heap]. rewrite Hsc. mstep.
    set (s' := if opt_incr o then dadd s (c_score c) else s).
    assert (opt_incr o && isnan s' = isnan s') as -> by (unfold s'; by destruct (opt_incr o); [|rewrite Hs]).
    destruct (isnan s') eqn:Hn; [by eexists _, l|]. destruct (_ || _); [by eexists _, l|].
    destruct (SFeqb s' (c_score c)); cbn [negb]; [by eexists _, l|].
    destruct (add_update draws lvl (Zset d (zs_zsl zs) (zs_heap zs)) l a c ref de s') as (h & zsl & x & d' & l' & E1 & E2 & Hok2 & Hl'); try done.
    cbn [zs_heap zs_zsl zs_dict] in *. rewrite E1. mstep. rewrite E2. mstep. by eexists _, l'.
  - rewrite Hf. cbn [fmap option_fmap option_map]. destruct (opt_xx o); cbn [negb]; [by eexists _, l|].
    destruct (add_new cr draws lvl (Zset d (zs_zsl zs) (zs_heap zs)) l s e) as (h & zsl & x & d' & l' & E1 & E2 & Hok2 & Hl'); try done.
    cbn [zs_heap zs_zsl zs_dict] in *. rewrite E1. mstep. rewrite E2. mstep. by eexists _, l'.
Qed.

Lemma zsetRemove_ok cr zs l e : zset_ok zs l ->
  exists zs' l', zsetRemoveFromSkiplist ty cr zs e = Some (zs', bool_decide (e ∈ (c_key <$> l).*2)) /\
    zset_ok zs' l' /\ c_key <$> l' = zl_remove e (c_key <$> l).
Proof using.
  intros Hok. pose proof (zo_rep Hok) as Hrep. unfold zsetRemoveFromSkiplist, dictUnlink.
  destruct (dictGenericDelete_spec cr ty (zs_dict zs) e (zo_wf Hok)) as (d & r & -> & Hr & Hy). mstep. cbn [fst snd].
  destruct r as [de|]; cbn in Hr; symmetry in Hr.
  - apply (zo_dict Hok) in Hr as (c & Hc & <- & Hp). pose proof Hc as [a Ha]%list_elem_of_lookup.
    destruct (rep_cell Hrep a c Ha) as (n & Hn & [_ Hsc] & Hg).
    assert (entry_score (zs_heap zs) de = Some (c_score c)) as -> by (unfold entry_score; rewrite Hp; mstep; rewrite Hn; mstep; by rewrite Hsc).
    mstep. destruct (zslDelete_rep false [] (zs_heap zs) (zs_zsl zs) l (c_score c) (c_ele c) Hrep Hg)
      as [(a' & c' & h' & zsl' & Hc' & [_ Hk'] & -> & R & _)|[Hno _]]; [|by destruct (Hno c)].
    mstep. assert (a' = a) as ->.
    { eapply (NoDup_lookup (c_ele <$> l)); [apply Hok|by rewrite list_lookup_fmap, Hc'|]. rewrite list_lookup_fmap, Ha. cbn. by f_equal. }
    eexists _, (del l a). split_and!.
    + do 2 f_equal. symmetry. apply bool_decide_eq_true. rewrite <- list_fmap_compose. apply list_elem_of_fmap. by exists c.
    + split; cbn; [done| |apply Hy|rewrite (y_auto _ _ _ _ Hy); apply Hok|].
      * pose proof (zo_nodup Hok) as Hnd. rewrite (del_perm l a c Ha), fmap_cons in Hnd. by apply NoDup_cons in Hnd as [_ ?].
      * rewrite (y_map _ _ _ _ Hy). apply indexes_delete; [apply Hok|apply Hok|done].
    + symmetry. apply del_keys; [apply Hok|done].
  - assert (e ∉ (c_key <$> l).*2) as He.
    { rewrite <- list_fmap_compose. intros (c & -> & Hc)%list_elem_of_fmap.
      assert (dict_map (zs_dict zs) !! c_ele c = Some (Some (c_ptr c))) as Hm by (apply (zo_dict Hok); by exists c). cbn in Hr. congruence. }
    eexists _, l. split_and!.
    + do 2 f_equal. symmetry. by apply bool_decide_eq_false.
    + rewrite delete_id in Hy by done. by apply dict_kept.
    + symmetry. apply zl_remove_absent. done.
Qed.

Lemma zsetRank_ok cr zs l e reverse : zset_ok zs l -> Z.of_nat (length l) < 2 ^ 63 ->
  exists zs', zsetRank_skiplist ty cr zs e reverse =
    Some (zs', (zl_rank e reverse (c_key <$> l)).1, (zl_rank e reverse (c_key <$> l)).2) /\ zset_ok zs' l.
Proof using.
  intros Hok Hb. destruct (dict_lookup cr zs l e Hok) as (d & r & E & Hy & Hf). unfold zsetRank_skiplist. rewrite E. mstep. cbn [fst snd].
  pose proof (dict_kept zs l d Hok Hy) as Hok'. eexists. split; [|exact Hok']. unfold zl_rank. destruct r as [[ref de]|].
  - destruct Hf as (a & c & Hat & Hk & Hc & <- & -> & Hsc & Hg). cbn [zs_heap zs_zsl]. rewrite Hsc. mstep.
    rewrite (zslGetRank_found (zo_rep Hok) a c) by done. mstep. destruct (Z.eqb_spec (Z.of_nat (S a)) 0); [lia|].
    cbn [fst snd c_key]. rewrite length_fmap, (sh_length (rep_shape (zo_rep Hok))). pose proof (lookup_lt_Some _ _ _ Hc).
    do 3 f_equal. rewrite wraps_id; [destruct reverse; lia|lia|]. unfold fits_s. destruct reverse; lia.
  - by rewrite Hf.
Qed.
End correct.

(** ** Deleting ranges *)

Section remrange.
  Context (ty : dictType sds) (cr : dictResizeEnable).

Lemma dict_delete_ok d e : wf ty d -> exists d', dict_delete ty cr d e = Some d' /\ yields ty d d' (delete e (dict_map d)).
Proof using.
  intros Hw. unfold dict_delete, dictDelete. destruct (dictGenericDelete_spec cr ty d e Hw) as (d1 & r & -> & _ & Hy). by exists d1.
Qed.

Lemma dict_deletes_ok es d : wf ty d ->
  exists d', dict_deletes (dict_delete ty cr) d es = Some d' /\ yields ty d d' (foldl (fun m e => delete e m) (dict_map d) es).
Proof using.
  revert d. induction es as [|e es IH]; intros d Hw; cbn [dict_deletes foldl].
  - exists d. split; [done|]. by apply sim_yields; [|apply sim_refl].
  - destruct (dict_delete_ok d e Hw) as (d1 & -> & Hy). mstep.
    destruct (IH d1 (y_wf _ _ _ _ Hy)) as (d2 & -> & Hy2). exists d2. split; [done|]. rewrite (y_map _ _ _ _ Hy) in Hy2. by eapply yields_trans.
Qed.

Lemma foldl_delete {V} (es : list sds) (m : gmap sds V) e :
  foldl (fun m e => delete e m) m es !! e = if decide (e ∈ es) then None else m !! e.
Proof using.
  revert m. induction es as [|e' es IH]; intros m; cbn [foldl]; [done|]. rewrite IH. destruct (decide (e ∈ es)) as [H|H].
  - by rewrite decide_True by (by right).
  - destruct (decide (e = e')) as [->|Hne]; [rewrite decide_True by (by left); apply lookup_delete_eq|].
    rewrite lookup_delete_ne, decide_False; [done| |done]. by intros [?|?]%elem_of_cons.
Qed.

(** The dict keeps what the list keeps. *)
Lemma indexes_deletes m l R l' : indexes m l -> NoDup (c_ele <$> l) -> R ++ l' ≡ₚ l -> indexes (foldl (fun m e => delete e m) m (c_ele <$> R)) l'.
Proof using.
  unfold indexes. intros Hi Hn HP e v. rewrite foldl_delete. rewrite <- HP, fmap_app in Hn. apply NoDup_app in Hn as (_ & Hd & _).
  case_decide as He.
  - split; [done|]. intros (c & Hc & <- & _). destruct (Hd _ He). by apply list_elem_of_fmap_2.
  - rewrite Hi. split; intros (c & Hc & Ec & Hp); exists c; (split; [|done]).
    + rewrite <- HP in Hc. apply elem_of_app in Hc as [Hc|Hc]; [|done]. destruct He. rewrite <- Ec. by apply list_elem_of_fmap_2.
    + rewrite <- HP. apply elem_of_app. by right.
Qed.

Lemma indexes_size m l : indexes m l -> NoDup (c_ele <$> l) -> size m = length l.
Proof using.
  intros Hi Hn. rewrite <- size_dom. replace (dom m) with (list_to_set (C := gset sds) (c_ele <$> l)).
  - rewrite size_list_to_set by done. apply length_fmap.
  - apply set_eq. intros e. rewrite elem_of_list_to_set, elem_of_dom, list_elem_of_fmap. split.
    + intros (c & -> & Hc). exists (Some (c_ptr c)). apply Hi. by exists c.
    + intros [v (c & Hc & <- & _)%Hi]. by exists c.
Qed.

Lemma paused_wf (d : dict sds nat) : wf ty d -> wf ty (dictPauseAutoResize d) /\ wf ty (dictResumeAutoResize d).
Proof using. intros [H1 H2 H3 H4 H5]. split; by split. Qed.

(** What follows the deletion. *)
Lemma remrange_finish zs l l' R h zsl d (deleted : Z) :
  zset_ok ty zs l -> rep [] h zsl l' -> R ++ l' ≡ₚ l ->
  yields ty (dictPauseAutoResize (zs_dict zs)) d (foldl (fun m e => delete e m) (dict_map (zs_dict zs)) (c_ele <$> R)) ->
  exists zs', (let d := dictResumeAutoResize d in
    if dictSize d =? 0 then Some (Zset d zsl h, deleted, true)
    else r ← dictShrinkIfNeeded cr ty d; Some (Zset r.1 zsl h, deleted, false)) = Some (zs', deleted, bool_decide (l' = [])) /\
    zset_ok ty zs' l'.
Proof using.
  intros Hok Hrep HP Hy. cbv zeta. set (d1 := dictResumeAutoResize d).
  assert (wf ty d1) as Hw1 by (apply paused_wf, Hy).
  assert (pauseAutoResize d1 = 0) as Ha.
  { unfold d1. cbn. rewrite (y_auto _ _ _ _ Hy). cbn. rewrite (zo_auto _ _ _ Hok). done. }
  assert (NoDup (c_ele <$> l')) as Hn.
  { pose proof (zo_nodup _ _ _ Hok) as Hn. rewrite <- HP, fmap_app in Hn. by apply NoDup_app in Hn as (_ & _ & ?). }
  assert (indexes (dict_map d1) l') as Hi.
  { assert (indexes (dict_map d) l') as Hi; [|exact Hi]. rewrite (y_map _ _ _ _ Hy). eapply indexes_deletes; [apply Hok|apply Hok|done]. }
  rewrite (dictSize_map ty d1 Hw1), (indexes_size _ l' Hi Hn).
  destruct (Z.eqb_spec (Z.of_nat (length l')) 0) as [E|E].
  - exists (Zset d1 zsl h). split; [|by split]. rewrite bool_decide_eq_true_2; [done|]. by destruct l'.
  - destruct (shrink_if_needed_law ty cr d1) as (d2 & ok & -> & Hs); [by split|]. mstep.
    exists (Zset d2 zsl h). split; [rewrite bool_decide_eq_false_2; [done|]; by intros ->|].
    apply sim_yields in Hs; [|done]. split; cbn; [done|done|apply Hs|rewrite (y_auto _ _ _ _ Hs); done|]. by rewrite (y_map _ _ _ _ Hs).
Qed.

Lemma filter_perm {A} (P : A -> bool) l : List.filter P l ++ List.filter (fun c => negb (P c)) l ≡ₚ l.
Proof using.
  induction l as [|c l IH]; [done|]. cbn. destruct (P c); cbn [negb app]; [by rewrite IH|]. by rewrite <- Permutation_middle, IH.
Qed.

Lemma filter_keys (P : key -> bool) l : c_key <$> List.filter (fun c => P (c_key c)) l = List.filter P (c_key <$> l).
Proof using. induction l as [|c l IH]; [done|]. cbn. destruct (P (c_key c)); cbn; by rewrite IH. Qed.

(** By score or lexicographically. *)
Lemma delete_range_ok zs l range G L (P : key -> bool) :
  zset_ok ty zs l -> range_ok range G L -> antitone (fun c => negb (G c)) l -> antitone L l -> (forall c, G c && L c = P (c_key c)) ->
  exists zs' l', (r ← delete_range (dict_delete ty cr) (zs_heap zs) (zs_zsl zs) range (dictPauseAutoResize (zs_dict zs));
    let '(h, zsl, d, deleted) := r in
    let d := dictResumeAutoResize d in
    if dictSize d =? 0 then Some (Zset d zsl h, deleted, true)
    else r ← dictShrinkIfNeeded cr ty d; Some (Zset r.1 zsl h, deleted, false)) =
    Some (zs', Z.of_nat (length (List.filter P (c_key <$> l))), bool_decide (l' = [])) /\ zset_ok ty zs' l' /\
    c_key <$> l' = List.filter (fun k => negb (P k)) (c_key <$> l).
Proof using.
  intros Hok Hr HG HL HP.
  destruct (dict_deletes_ok (c_ele <$> in_range G L l) (dictPauseAutoResize (zs_dict zs))) as (d & Ed & Hy); [apply paused_wf, Hok|].
  destruct (delete_range_spec (dict_delete ty cr) [] (zs_heap zs) (zs_zsl zs) l range G L (dictPauseAutoResize (zs_dict zs)) d)
    as (h & zsl & E & R & _ & _); [apply Hok|done..|].
  rewrite E. mstep. set (l' := List.filter (fun c => negb (G c && L c)) l) in *.
  destruct (remrange_finish zs l l' (in_range G L l) h zsl d (Z.of_nat (length (in_range G L l)))) as (zs' & E' & Hok'); [done|done|apply filter_perm|done|].
  exists zs', l'. split_and!; [|done|].
  - etransitivity; [exact E'|]. do 3 f_equal. rewrite <- filter_keys, length_fmap. unfold in_range. f_equal. f_equal. apply List.filter_ext.
    intros c. apply HP.
  - unfold l'. rewrite <- (filter_keys (fun k => negb (P k))). f_equal. apply List.filter_ext. intros c. by rewrite HP.
Qed.

Lemma zremrange_score_ok zs l range : zset_ok ty zs l -> good_range range ->
  exists zs' l', zremrange_skiplist ty cr zs (SCORE range) =
    Some (zs', Z.of_nat (length (List.filter (score_in range) (c_key <$> l))), bool_decide (l' = [])) /\ zset_ok ty zs' l' /\
    c_key <$> l' = List.filter (fun k => negb (score_in range k)) (c_key <$> l).
Proof using.
  intros Hok Hr. pose proof (zo_rep _ _ _ Hok) as Hrep. eapply delete_range_ok; [done|by apply score_range_ok| | |done].
  - by apply (gte_antitone (rep_good Hrep) (rep_sorted Hrep)).
  - by apply (lte_antitone (rep_good Hrep) (rep_sorted Hrep)).
Qed.

Lemma zremrange_lex_ok zs l range : zset_ok ty zs l -> (forall c d, c ∈ l -> d ∈ l -> feq (c_score c) (c_score d)) ->
  exists zs' l', zremrange_skiplist ty cr zs (LEX range) =
    Some (zs', Z.of_nat (length (List.filter (lex_in range) (c_key <$> l))), bool_decide (l' = [])) /\ zset_ok ty zs' l' /\
    c_key <$> l' = List.filter (fun k => negb (lex_in range k)) (c_key <$> l).
Proof using.
  intros Hok Hsame. pose proof (zo_rep _ _ _ Hok) as Hrep. eapply delete_range_ok; [done|apply lex_range_ok| | |done].
  - by apply (lex_gte_antitone (rep_sorted Hrep)).
  - by apply (lex_lte_antitone (rep_sorted Hrep)).
Qed.
End remrange.
