(* ===== verification/ZsetRange.v ===== *)
(** * Range queries on sorted sets over a skiplist

    The elements the range commands emit and count are those of the list of
    ZsetSpec.v. *)
From S2P Require Import Prelude Dict DictSpec DictCorrect Skiplist SkiplistSpec SkiplistOps SkiplistOrder SkiplistRange SkiplistDelete Zset ZsetSpec ZsetCorrect.
From Stdlib Require Import ZArith Lia SpecFloat.
From stdpp Require Import prelude list gmap sorting.

#[local] Open Scope Z_scope.

Definition emit_cell (c : cell) : sds * spec_float := (c_ele c, c_score c).

Lemma emit_keys (l : list cell) : emit <$> (c_key <$> l) = emit_cell <$> l.
Proof. by rewrite <- list_fmap_compose. Qed.

(** [limit] elements, all when it is negative. *)
Definition limited {A} (limit : Z) (s : list A) : list A := if limit <? 0 then s else take (Z.to_nat limit) s.

Lemma limited_step {A} limit (c : A) s :
  limit <> 0 -> - 2 ^ 63 <= limit < 2 ^ 63 -> Z.of_nat (length s) < 2 ^ 63 - 1 ->
  limited limit (c :: s) = c :: limited (wraps 64 (limit - 1)) s /\ - 2 ^ 63 <= wraps 64 (limit - 1) < 2 ^ 63.
Proof.
  intros Hn Hl Hs. unfold limited. destruct (decide (limit = - 2 ^ 63)) as [->|Hm].
  - change (wraps 64 (- 2 ^ 63 - 1)) with (2 ^ 63 - 1). split; [|lia].
    destruct (Z.ltb_spec (- 2 ^ 63) 0), (Z.ltb_spec (2 ^ 63 - 1) 0); try lia. by rewrite take_ge by lia.
  - rewrite wraps_id by (unfold fits_s; lia). split; [|lia]. destruct (Z.ltb_spec limit 0), (Z.ltb_spec (limit - 1) 0); try lia; [done|].
    replace (Z.to_nat limit) with (S (Z.to_nat (limit - 1))) by lia. done.
Qed.

Section emission.
  Context {extra : list nat} {h : zheap} {zsl : zskiplist} {l : list cell} (Hrep : rep extra h zsl l).

Let Hsh := rep_shape Hrep.

(** The node at a position and the one after it. *)
Lemma node_at k c : l !! k = Some c -> exists n, h !! c_ptr c = Some n /\ ele n = Some (c_ele c) /\ score n = c_score c /\ good c /\ node_of c n /\
  next_node false n = Some (c_ptr <$> l !! S k) /\ next_node true n = Some (match k with O => None | S j => c_ptr <$> l !! j end).
Proof using Hrep.
  intros Hc. destruct (rep_cell Hrep k c Hc) as (n & Hn & Hno & Hg). exists n. pose proof Hno as [He Hs]. split_and!; try done.
  - pose proof (sh_lev Hsh (S k) (c_ptr c) 0) as HL. cbn [ptr_at] in HL. rewrite Hc in HL.
    specialize (HL eq_refl (tall_at_bottom Hsh (S k) ltac:(apply lookup_lt_Some in Hc; lia))). unfold lev in HL. rewrite Hn in HL. cbn in HL.
    unfold next_node. rewrite HL. mstep. by rewrite (fwd_bottom Hsh).
  - pose proof (sh_back Hsh k c Hc) as Hb. unfold back in Hb. rewrite Hn in Hb. injection Hb as Hb. cbn. by rewrite Hb.
Qed.

Lemma emit_forward k p : (p + k <= length l)%nat ->
  emit_nodes h false k (c_ptr <$> l !! p) = Some (emit_cell <$> take k (drop p l)).
Proof using Hrep.
  revert p. induction k as [|k IH]; intros p Hp; [done|]. destruct (lookup_lt_is_Some_2 l p) as [c Hc]; [lia|].
  destruct (node_at p c Hc) as (n & Hn & He & Hs & _ & _ & Hf & _). rewrite Hc. cbn [emit_nodes fmap option_fmap option_map]. mstep.
  rewrite Hn. mstep. rewrite He. mstep. rewrite Hf. mstep. rewrite IH by lia. mstep. rewrite (drop_S l c p Hc). cbn. by rewrite Hs.
Qed.

(** Backward from before position [p]. *)
Definition before (p : nat) : option nat := match p with O => None | S j => c_ptr <$> l !! j end.

Lemma emit_backward k p : (k <= p <= length l)%nat -> emit_nodes h true k (before p) = Some (emit_cell <$> take k (rev (take p l))).
Proof using Hrep.
  revert p. induction k as [|k IH]; intros p Hp; [done|]. destruct p as [|p]; [lia|]. destruct (lookup_lt_is_Some_2 l p) as [c Hc]; [lia|].
  destruct (node_at p c Hc) as (n & Hn & He & Hs & _ & _ & _ & Hb). cbn [before emit_nodes]. rewrite Hc. cbn [fmap option_fmap option_map]. mstep.
  rewrite Hn. mstep. rewrite He. mstep. rewrite Hb. mstep. fold (before p). rewrite IH by lia. mstep.
  rewrite (take_S_r l p c Hc), rev_app_distr. cbn. by rewrite Hs.
Qed.

(** The loops that stop at the end of the range or at the limit. *)
Lemma emit_range_forward test (T : cell -> bool) fuel p b limit :
  (forall k c n, l !! k = Some c -> good c -> node_of c n -> test n = Some (T c)) ->
  (forall k c, (p <= k)%nat -> l !! k = Some c -> T c = bool_decide (k < b)%nat) ->
  (p <= b <= length l)%nat -> Z.of_nat (length l) < 2 ^ 63 - 1 -> - 2 ^ 63 <= limit < 2 ^ 63 -> (length l - p <= fuel)%nat ->
  emit_range fuel h test false limit (c_ptr <$> l !! p) = Some (emit_cell <$> limited limit (drop p (take b l))).
Proof using Hrep.
  intros Ht. revert p limit. induction fuel as [|fuel IH]; intros p limit HT Hp Hlen Hlim Hf.
  { rewrite (lookup_ge_None_2 l), (drop_ge (take b l)) by (rewrite ?length_take; lia). unfold limited. cbn. by rewrite take_nil; destruct (limit <? 0). }
  destruct (l !! p) as [c|] eqn:Hc; cbn [fmap option_fmap option_map].
  2: { apply lookup_ge_None in Hc. rewrite (drop_ge (take b l)) by (rewrite length_take; lia). unfold limited. rewrite take_nil. by destruct (limit <? 0). }
  cbn [emit_range]. destruct (Z.eqb_spec limit 0) as [->|Hl0]; [done|].
  destruct (node_at p c Hc) as (n & Hn & He & Hs & Hg & Hno & Hnx & _). rewrite Hn. mstep. rewrite (Ht p c n Hc Hg Hno). mstep.
  rewrite (HT p c (le_n p) Hc). case_bool_decide as Hpb.
  - rewrite He. mstep. rewrite Hnx. mstep. assert (take b l !! p = Some c) as Hc' by (by rewrite lookup_take_lt).
    rewrite (drop_S (take b l) c p Hc'). destruct (limited_step limit c (drop (S p) (take b l))) as [-> Hl']; [done|done|rewrite length_drop, length_take; lia|].
    rewrite IH; [|intros; apply HT; [lia|done]|lia|lia|done|lia]. mstep. rewrite fmap_cons. unfold emit_cell at 1. by rewrite Hs.
  - rewrite (drop_ge (take b l)) by (rewrite length_take; lia). unfold limited. rewrite take_nil. by destruct (limit <? 0).
Qed.

Lemma emit_range_backward test (T : cell -> bool) fuel p a limit :
  (forall k c n, l !! k = Some c -> good c -> node_of c n -> test n = Some (T c)) ->
  (forall k c, (k < p)%nat -> l !! k = Some c -> T c = bool_decide (a <= k)%nat) ->
  (p <= length l)%nat -> Z.of_nat (length l) < 2 ^ 63 - 1 -> - 2 ^ 63 <= limit < 2 ^ 63 -> (p <= fuel)%nat ->
  emit_range fuel h test true limit (before p) = Some (emit_cell <$> limited limit (rev (drop a (take p l)))).
Proof using Hrep.
  intros Ht. revert p limit. induction fuel as [|fuel IH]; intros p limit HT Hp Hlen Hlim Hf.
  { assert (p = 0%nat) as -> by lia. rewrite take_0, drop_nil. unfold limited. cbn. by rewrite take_nil; destruct (limit <? 0). }
  destruct p as [|p].
  { rewrite take_0, drop_nil. unfold limited. cbn. by rewrite take_nil; destruct (limit <? 0). }
  cbn [before]. destruct (lookup_lt_is_Some_2 l p) as [c Hc]; [lia|]. rewrite Hc. cbn [fmap option_fmap option_map emit_range].
  destruct (Z.eqb_spec limit 0) as [->|Hl0]; [done|].
  destruct (node_at p c Hc) as (n & Hn & He & Hs & Hg & Hno & _ & Hnx). rewrite Hn. mstep. rewrite (Ht p c n Hc Hg Hno). mstep.
  rewrite (HT p c (le_n _) Hc). case_bool_decide as Hpa.
  - rewrite He. mstep. rewrite Hnx. mstep. rewrite (take_S_r l p c Hc), drop_app_le, rev_app_distr by (rewrite length_take; lia). cbn [rev app].
    destruct (limited_step limit c (rev (drop a (take p l)))) as [-> Hl']; [done|done|rewrite length_rev, length_drop, length_take; lia|].
    fold (before p). rewrite IH; [|intros; apply HT; [lia|done]|lia|lia|done|lia]. mstep. rewrite fmap_cons. unfold emit_cell at 1. by rewrite Hs.
  - rewrite (drop_ge (take (S p) l)) by (rewrite length_take; lia). unfold limited. cbn. rewrite take_nil. by destruct (limit <? 0).
Qed.
End emission.

(** ** The commands *)

Lemma page_limited {A} offset limit (s : list A) : page offset limit s = limited limit (drop (Z.to_nat offset) s).
Proof. done. Qed.

Lemma limited_fmap {A B} (f : A -> B) limit s : f <$> limited limit s = limited limit (f <$> s).
Proof. unfold limited. destruct (limit <? 0); [done|]. by rewrite fmap_take. Qed.

Lemma limited_nil {A} limit : limited limit (@nil A) = [].
Proof. unfold limited. rewrite take_nil. by destruct (limit <? 0). Qed.

Section commands.
  Context {extra : list nat} {h : zheap} {zsl : zskiplist} {l : list cell} (Hrep : rep extra h zsl l).
  Context {range : node_range} {G L : cell -> bool} (Hok : range_ok range G L).
  Context (HG : antitone (fun c => negb (G c)) l) (HL : antitone L l) (Hlen : Z.of_nat (length l) < 2 ^ 63 - 1).

(** From the start of the range. *)
Lemma emit_from_start n limit : - 2 ^ 63 <= limit < 2 ^ 63 ->
  emit_range (size h) h (lte_max range) false limit (c_ptr <$> in_range G L l !! n) =
    Some (emit_cell <$> limited limit (drop n (in_range G L l))).
Proof using Hrep Hok HG HL Hlen.
  intros Hlim. pose proof (range_b (l := l) (L := L)) as Hb. pose proof (shape_size (rep_shape Hrep)).
  rewrite (in_range_lookup HG HL), (in_range_eq HG HL), drop_drop. set (a := plen (fun c => negb (G c)) l). set (b := plen L l) in *. case_decide as Hab.
  - apply (emit_range_forward Hrep _ L).
    + intros k c n' _ Hg Hno. by apply (ro_lte Hok).
    + intros k c _ Hc. by apply (range_L HL).
    + lia.
    + done.
    + done.
    + lia.
  - rewrite drop_ge by (rewrite length_take; lia). rewrite limited_nil. by destruct (size h).
Qed.

(** And from its end. *)
Lemma emit_from_end n limit : - 2 ^ 63 <= limit < 2 ^ 63 ->
  emit_range (size h) h (gte_min range) true limit (c_ptr <$> rev (in_range G L l) !! n) =
    Some (emit_cell <$> limited limit (drop n (rev (in_range G L l)))).
Proof using Hrep Hok HG HL Hlen.
  intros Hlim. pose proof (range_b (l := l) (L := L)) as Hb. pose proof (shape_size (rep_shape Hrep)).
  pose proof (in_range_length HG HL) as HR. rewrite skipn_rev, HR. set (a := plen (fun c => negb (G c)) l) in *. set (b := plen L l) in *.
  destruct (decide (n < b - a)%nat) as [Hn|Hn].
  - assert (c_ptr <$> rev (in_range G L l) !! n = before (l := l) (b - n)) as ->.
    { rewrite rev_alt. change (rev_append ?x []) with (reverse x). rewrite reverse_lookup, HR, (in_range_lookup HG HL) by (rewrite HR; lia).
      fold a b. rewrite decide_True by lia. destruct (b - n)%nat as [|q] eqn:Eq; [lia|]. cbn. do 2 f_equal. lia. }
    rewrite (emit_range_backward Hrep _ G _ _ a).
    + do 4 f_equal. rewrite (in_range_eq HG HL). fold a b. rewrite firstn_skipn_comm, take_take. do 2 f_equal. lia.
    + intros k c n' _ Hg Hno. by apply (ro_gte Hok).
    + intros k c _ Hc. by apply (range_G HG).
    + lia.
    + done.
    + done.
    + lia.
  - rewrite lookup_ge_None_2 by (rewrite length_rev; lia). replace (b - a - n)%nat with 0%nat by lia. rewrite take_0. cbn [rev]. rewrite limited_nil. by destruct (size h).
Qed.

(** The elements of a page of the range. *)
Lemma zrangeby_ok (d : dict sds nat) offset limit reverse :
  0 <= offset < 2 ^ 63 -> - 2 ^ 63 <= limit < 2 ^ 63 ->
  zrangeby_skiplist (Zset d zsl h) range offset limit reverse =
    Some (emit_cell <$> page offset limit (if reverse then rev (in_range G L l) else in_range G L l)).
Proof using Hrep Hok HG HL Hlen.
  intros Ho Hlim. unfold zrangeby_skiplist. cbn [zs_heap zs_zsl]. rewrite page_limited. destruct reverse.
  - rewrite wraps_id by (unfold fits_s; lia). rewrite (nth_in_range_spec Hrep Hok HG HL) by lia. destruct (Z.leb_spec 0 (- offset - 1)); [lia|].
    mstep. replace (- (- offset - 1) - 1) with offset by lia. unfold reverse. rewrite <- rev_alt. by apply emit_from_end.
  - rewrite (nth_in_range_spec Hrep Hok HG HL) by lia. destruct (Z.leb_spec 0 offset); [|lia]. mstep. by apply emit_from_start.
Qed.

(** The number of elements in the range. *)
Lemma count_ok (d : dict sds nat) : count_skiplist (Zset d zsl h) range = Some (Z.of_nat (length (in_range G L l))).
Proof using Hrep Hok HG HL Hlen.
  unfold count_skiplist. cbn [zs_heap zs_zsl]. pose proof (range_b (l := l) (L := L)) as Hb. pose proof (rep_shape Hrep) as Hsh.
  pose proof (in_range_length HG HL) as HR. rewrite HR. set (a := plen (fun c => negb (G c)) l) in *. set (b := plen L l) in *.
  assert (forall j c, l !! j = Some c -> node_rank h zsl (c_ptr c) = Some (Z.of_nat (S j))) as Hrank.
  { intros j c Hc. destruct (node_at Hrep j c Hc) as (n & Hn & He & Hs & Hg & _). unfold node_rank. rewrite Hn. mstep. rewrite He. mstep.
    rewrite Hs. by apply (zslGetRank_found Hrep j c). }
  rewrite (nth_in_range_spec Hrep Hok HG HL 0) by lia. cbn [Z.leb Z.compare]. mstep. rewrite (in_range_lookup HG HL). fold a b.
  change (Z.to_nat 0) with 0%nat. rewrite Nat.add_0_r. case_decide as Hab.
  2: { cbn. f_equal. lia. }
  destruct (lookup_lt_is_Some_2 l a) as [c Hc]; [lia|]. rewrite Hc. cbn [fmap option_fmap option_map]. rewrite (Hrank a c Hc). mstep.
  rewrite (nth_in_range_spec Hrep Hok HG HL (-1)) by lia. cbn [Z.leb Z.compare]. mstep. change (Z.to_nat (- -1 - 1)) with 0%nat.
  rewrite reverse_lookup, HR, (in_range_lookup HG HL) by (rewrite HR; lia). fold a b. rewrite decide_True by lia.
  destruct (lookup_lt_is_Some_2 l (a + (b - a - 1))) as [c' Hc']; [lia|]. rewrite Hc'. cbn [fmap option_fmap option_map]. rewrite (Hrank _ c' Hc'). mstep.
  rewrite (sh_length Hsh), !wrap_small by (rewrite ?wrap_small; lia). f_equal. lia.
Qed.
End commands.

Lemma list_fmap_rev {A B} (f : A -> B) (s : list A) : f <$> rev s = rev (f <$> s).
Proof. apply map_rev. Qed.

Lemma rangeby_keys (G L : cell -> bool) (P : key -> bool) l offset limit (reverse : bool) :
  (forall c, G c && L c = P (c_key c)) ->
  emit_cell <$> page offset limit (if reverse then rev (in_range G L l) else in_range G L l) =
    zl_rangeby P offset limit reverse (c_key <$> l).
Proof.
  intros HP. unfold zl_rangeby. replace (List.filter P (c_key <$> l)) with (c_key <$> in_range G L l).
  2: { rewrite <- filter_keys. f_equal. apply List.filter_ext. done. }
  rewrite !page_limited, <- emit_keys, !limited_fmap, !fmap_drop. destruct reverse; [|done].
  by rewrite list_fmap_rev.
Qed.

Lemma sanitize_spec llen start end_ s e : 0 <= llen -> sanitize llen start end_ = Some (s, e) -> 0 <= s <= e /\ e < llen.
Proof.
  unfold sanitize. intros Hl. destruct (Z.ltb_spec start 0), (Z.ltb_spec end_ 0);
    match goal with |- context [if ?x <? 0 then 0 else _] => destruct (Z.ltb_spec x 0) end;
    match goal with |- context [(?e <? ?x) || (llen <=? ?x)] => destruct (Z.ltb_spec e x), (Z.leb_spec llen x), (Z.leb_spec llen e) end;
    cbn; try done; intros [= <- <-]; lia.
Qed.

Section zset_ranges.
  Context (ty : dictType sds) {zs : zset} {l : list cell} (Hok : zset_ok ty zs l) (Hlen : Z.of_nat (length l) < 2 ^ 63 - 1).

Let Hrep := zo_rep _ _ _ Hok.

Lemma zrangebyscore_ok range offset limit reverse :
  good_range range -> 0 <= offset < 2 ^ 63 -> - 2 ^ 63 <= limit < 2 ^ 63 ->
  zrangebyscore_skiplist zs range offset limit reverse = Some (zl_rangeby (score_in range) offset limit reverse (c_key <$> l)).
Proof using Hok Hlen.
  intros Hr Ho Hlim. unfold zrangebyscore_skiplist. rewrite (sh_length (rep_shape Hrep)), wraps_id by (unfold fits_s; lia).
  rewrite <- (rangeby_keys (gte range) (lte range)) by done.
  destruct (Z.ltb_spec 0 offset), (Z.leb_spec (Z.of_nat (length l)) offset); cbn [andb].
  1: { f_equal. rewrite page_limited, drop_ge, limited_nil; [done|]. pose proof (List.filter_length_le (fun c => gte range c && lte range c) l).
       destruct reverse; rewrite ?length_rev; unfold in_range; lia. }
  all: destruct zs as [d zsl h]; apply (zrangeby_ok Hrep); try done; [by apply score_range_ok|by apply (gte_antitone (rep_good Hrep) (rep_sorted Hrep))|by apply (lte_antitone (rep_good Hrep) (rep_sorted Hrep))].
Qed.

Lemma zrangebylex_ok range offset limit reverse :
  (forall c d, c ∈ l -> d ∈ l -> feq (c_score c) (c_score d)) -> 0 <= offset < 2 ^ 63 -> - 2 ^ 63 <= limit < 2 ^ 63 ->
  zrangebylex_skiplist zs range offset limit reverse = Some (zl_rangeby (lex_in range) offset limit reverse (c_key <$> l)).
Proof using Hok Hlen.
  intros Hs Ho Hlim. rewrite <- (rangeby_keys (lex_gte range) (lex_lte range)) by done. destruct zs as [d zsl h].
  apply (zrangeby_ok Hrep); try done; [apply lex_range_ok|by apply (lex_gte_antitone (rep_sorted Hrep))|by apply (lex_lte_antitone (rep_sorted Hrep))].
Qed.

Lemma zcount_ok range : good_range range ->
  zcount_skiplist zs range = Some (Z.of_nat (length (List.filter (score_in range) (c_key <$> l)))).
Proof using Hok Hlen.
  intros Hr. rewrite <- filter_keys, length_fmap. destruct zs as [d zsl h].
  apply (count_ok Hrep); try done; [by apply score_range_ok|by apply (gte_antitone (rep_good Hrep) (rep_sorted Hrep))|by apply (lte_antitone (rep_good Hrep) (rep_sorted Hrep))].
Qed.

Lemma zlexcount_ok range : (forall c d, c ∈ l -> d ∈ l -> feq (c_score c) (c_score d)) ->
  zlexcount_skiplist zs range = Some (Z.of_nat (length (List.filter (lex_in range) (c_key <$> l)))).
Proof using Hok Hlen.
  intros Hs. rewrite <- filter_keys, length_fmap. destruct zs as [d zsl h].
  apply (count_ok Hrep); try done; [apply lex_range_ok|by apply (lex_gte_antitone (rep_sorted Hrep))|by apply (lex_lte_antitone (rep_sorted Hrep))].
Qed.

Lemma zrangebyrank_ok start end_ reverse :
  zrangebyrank_skiplist zs start end_ reverse = Some (zl_rangebyrank start end_ reverse (c_key <$> l)).
Proof using Hok Hlen.
  pose proof (rep_shape Hrep) as Hsh. unfold zrangebyrank_skiplist, zl_rangebyrank. rewrite (sh_length Hsh), length_fmap.
  destruct (sanitize (Z.of_nat (length l)) start end_) as [[s e]|] eqn:E; [|done]. apply sanitize_spec in E; [|lia].
  pose proof (sh_level Hsh). rewrite page_limited. unfold limited. destruct (Z.ltb_spec (e - s + 1) 0); [lia|]. destruct reverse.
  - assert ((if 0 <? s then zslGetElementByRank (zs_heap zs) (zs_zsl zs) (wrapu 64 (Z.of_nat (length l) - s)) else Some (zsl_tail (zs_zsl zs)))
      = Some (before (l := l) (length l - Z.to_nat s))) as ->.
    { destruct (Z.ltb_spec 0 s).
      - rewrite wrap_small, (zslGetElementByRank_rep Hrep), decide_True by lia. destruct (length l - Z.to_nat s)%nat as [|q] eqn:Eq; [lia|].
        cbn [before]. f_equal. replace (Z.to_nat (Z.of_nat (length l) - s)) with (S q) by lia. by rewrite <- (ptr_at_ptr (zs_zsl zs)) by lia.
      - rewrite (sh_tail Hsh), last_lookup. replace s with 0 by lia. cbn. rewrite Nat.sub_0_r. by destruct (length l) as [|q]; [lia|]. }
    mstep. rewrite (emit_backward Hrep) by lia. f_equal. rewrite <- list_fmap_rev.
    rewrite <- fmap_drop, <- fmap_take, emit_keys, skipn_rev. done.
  - assert ((if 0 <? s then zslGetElementByRank (zs_heap zs) (zs_zsl zs) (wrapu 64 (s + 1)) else l ← lev (zs_heap zs) (zsl_header (zs_zsl zs)) 0; Some l.1)
      = Some (c_ptr <$> l !! Z.to_nat s)) as ->.
    { destruct (Z.ltb_spec 0 s).
      - rewrite wrap_small, (zslGetElementByRank_rep Hrep), decide_True by lia. f_equal.
        replace (Z.to_nat (s + 1)) with (S (Z.to_nat s)) by lia. by rewrite <- (ptr_at_ptr (zs_zsl zs)) by lia.
      - replace s with 0 by lia. rewrite (sh_lev Hsh 0 _ 0 eq_refl) by (apply (tall_at_bottom Hsh 0); lia). mstep. by rewrite (fwd_bottom Hsh). }
    mstep. rewrite (emit_forward Hrep) by lia. by rewrite <- fmap_drop, <- fmap_take, emit_keys.
Qed.

Lemma zremrange_rank_ok cr start end_ : 0 <= start <= end_ -> end_ < Z.of_nat (length l) -> Z.of_nat (length l) < 2 ^ 32 ->
  exists zs' l', zremrange_skiplist ty cr zs (RANK start end_) = Some (zs', end_ - start + 1, bool_decide (l' = [])) /\ zset_ok ty zs' l' /\
    c_key <$> l' = take (Z.to_nat start) (c_key <$> l) ++ drop (Z.to_nat (end_ + 1)) (c_key <$> l).
Proof using Hok.
  intros Hs He Hl. unfold zremrange_skiplist. rewrite !wrapu_id by (unfold fits_u; lia).
  destruct (dict_deletes_ok ty cr (c_ele <$> take (Z.to_nat (end_ + 1) - Z.to_nat start) (drop (Z.to_nat start) l)) (dictPauseAutoResize (zs_dict zs)))
    as (d & Ed & Hy); [apply paused_wf, Hok|].
  pose proof (delete_by_rank_spec (dict_delete ty cr) [] (zs_heap zs) (zs_zsl zs) l (start + 1) (end_ + 1) (dictPauseAutoResize (zs_dict zs)) d) as H.
  cbv zeta in H. rewrite (Nat.min_l (Z.to_nat (start + 1 - 1))), (Nat.min_l (Z.to_nat (end_ + 1))) in H by lia.
  rewrite Nat.max_r in H by lia. replace (start + 1 - 1) with start in H by lia.
  destruct H as (h & zsl & -> & R & _ & _); [done|lia|lia|done|]. mstep.
  edestruct (remrange_finish ty cr zs l) as (zs' & E & Hok'); [done|exact R| |exact Hy|].
  - rewrite <- (take_drop (Z.to_nat start) l) at 4. rewrite (Permutation_app_comm (take _ (drop _ _))), <- app_assoc. f_equiv.
    rewrite <- (take_drop (Z.to_nat (end_ + 1) - Z.to_nat start) (drop (Z.to_nat start) l)) at 2. rewrite drop_drop.
    rewrite Permutation_app_comm. do 2 f_equiv. lia.
  - exists zs', (take (Z.to_nat start) l ++ drop (Z.to_nat (end_ + 1)) l). split; [|split; [done|]].
    + etransitivity; [exact E|]. do 3 f_equal. lia.
    + by rewrite fmap_app, fmap_take, fmap_drop.
Qed.
End zset_ranges.
