(* ===== verification/ZsetRun.v ===== *)
(** * Sorted sets over a skiplist: sequences of operations

    A new set satisfies the invariant, and any sequence of the commands'
    operations on it runs without a fault and answers as the sorted list of
    ZsetSpec.v does. *)
From S2P Require Import Prelude Dict DictSpec DictCorrect Skiplist SkiplistSpec SkiplistOps SkiplistOrder SkiplistRange SkiplistDelete.
From S2P Require Import Zset ZsetSpec ZsetCorrect ZsetRange.
From Stdlib Require Import ZArith Lia SpecFloat.
From stdpp Require Import prelude list gmap sorting.

#[local] Open Scope Z_scope.

(** ** A new set *)

Section create.
  Context (zmalloc : zheap -> nat) (junk : nat -> option nat * (option nat * Z)) (ty : dictType sds).

Lemma zslCreate_rep : let r := zslCreate zmalloc junk ∅ in rep [] r.1 r.2 [].
Proof.
  unfold zslCreate, zslCreateNode. set (x := zmalloc ∅). rewrite insert_insert_eq. cbv zeta. cbn [fst snd].
  split; [|constructor|constructor]. split; cbn [zsl_header zsl_level zsl_tail zsl_length].
  - intros p. unfold addresses. cbn. rewrite list_elem_of_singleton. destruct (decide (p = x)) as [->|Hp].
    + rewrite lookup_insert_eq. by split; [|eauto].
    + rewrite lookup_insert_ne, lookup_empty by done. split; [by intros []|done].
  - unfold addresses. cbn. apply NoDup_singleton.
  - exists (S754_zero false). unfold static. by rewrite lookup_insert_eq.
  - intros i Hi. exists 0. unfold lev. rewrite lookup_insert_eq. mstep. cbn [level]. apply lookup_replicate_2. lia.
  - intros [|k] p i Hk Ht; [|done]. injection Hk as <-. unfold lev. rewrite lookup_insert_eq. mstep. cbn [level].
    cbn in Ht. rewrite lookup_replicate_2; [done|]. unfold ZSKIPLIST_MAXLEVEL. lia.
  - done.
  - done.
  - done.
  - done.
  - done.
  - constructor.
  - unfold ZSKIPLIST_MAXLEVEL. lia.
  - by left.
Qed.

Lemma createZset_ok : zset_ok ty (createZset zmalloc junk) [].
Proof.
  pose proof zslCreate_rep as H. cbv zeta in H. unfold createZset. destruct (zslCreate zmalloc junk ∅) as [h zsl].
  split; cbn; [done|constructor|apply dictCreate_wf|done|].
  intros e v. rewrite lookup_empty. split; [done|]. by intros (c & Hc%elem_of_nil & _).
Qed.
End create.

(** ** Operations *)

Inductive zop :=
  | ZAdd (s : spec_float) (e : sds) (in_flags : Z)
  | ZRem (e : sds)
  | ZScore (e : sds)
  | ZRank (e : sds) (reverse : bool)
  | ZRemRange (range : zrange)
  | ZRangeRank (start end_ : Z) (reverse : bool)
  | ZRangeScore (range : zrangespec) (offset limit : Z) (reverse : bool)
  | ZRangeLex (range : zlexrangespec) (offset limit : Z) (reverse : bool)
  | ZCount (range : zrangespec)
  | ZLexCount (range : zlexrangespec).

Inductive zres :=
  | RAdd (r : zadd_result)
  | RRem (deleted : bool)
  | RScore (s : option spec_float)
  | RRank (rank : Z) (s : option spec_float)
  | RRemRange (deleted : Z) (emptied : bool)
  | RRange (l : list (sds * spec_float))
  | RCount (n : Z).

(** The elements a deletion of a range takes out; an empty range of ranks is
    found out before. *)
Definition zl_removed (n : Z) (L' : list key) : list key * zres := (L', RRemRange n (bool_decide (L' = []))).

Definition zl_remrange (range : zrange) (L : list key) : list key * zres :=
  match range with
  | RANK start end_ =>
      match sanitize (Z.of_nat (length L)) start end_ with
      | None => (L, RRemRange 0 false)
      | Some (start, end_) => zl_removed (end_ - start + 1) (take (Z.to_nat start) L ++ drop (Z.to_nat (end_ + 1)) L)
      end
  | SCORE range => zl_removed (Z.of_nat (length (List.filter (score_in range) L))) (List.filter (fun k => negb (score_in range k)) L)
  | LEX range => zl_removed (Z.of_nat (length (List.filter (lex_in range) L))) (List.filter (fun k => negb (lex_in range k)) L)
  end.

Definition zl_step (op : zop) (L : list key) : list key * zres :=
  match op with
  | ZAdd s e flags => let r := zl_add s e (options flags) L in (r.1, RAdd r.2)
  | ZRem e => (zl_remove e L, RRem (bool_decide (e ∈ L.*2)))
  | ZScore e => (L, RScore (zl_score e L))
  | ZRank e reverse => let r := zl_rank e reverse L in (L, RRank r.1 r.2)
  | ZRemRange range => zl_remrange range L
  | ZRangeRank start end_ reverse => (L, RRange (zl_rangebyrank start end_ reverse L))
  | ZRangeScore range offset limit reverse => (L, RRange (zl_rangeby (score_in range) offset limit reverse L))
  | ZRangeLex range offset limit reverse => (L, RRange (zl_rangeby (lex_in range) offset limit reverse L))
  | ZCount range => (L, RCount (Z.of_nat (length (List.filter (score_in range) L))))
  | ZLexCount range => (L, RCount (Z.of_nat (length (List.filter (lex_in range) L))))
  end.

Fixpoint zl_run (ops : list zop) (L : list key) : list key * list zres :=
  match ops with
  | [] => (L, [])
  | op :: ops => let r := zl_step op L in let rs := zl_run ops r.1 in (rs.1, r.2 :: rs.2)
  end.

(** Lexicographic ranges are for sets whose scores are all equal. *)
Definition same_scores (L : list key) : Prop := Forall (fun k => Forall (fun k' => feq k.1 k'.1) L) L.

Definition paging (offset limit : Z) : Prop := 0 <= offset < 2 ^ 63 /\ - 2 ^ 63 <= limit < 2 ^ 63.

(** What the commands check before they call the operation. *)
Definition zop_ok (op : zop) (L : list key) : Prop :=
  match op with
  | ZAdd s _ _ => isnan s = false
  | ZRemRange (SCORE range) | ZCount range => good_range range
  | ZRemRange (LEX _) | ZLexCount _ => same_scores L
  | ZRangeScore range offset limit _ => good_range range /\ paging offset limit
  | ZRangeLex _ offset limit _ => same_scores L /\ paging offset limit
  | ZRem _ | ZScore _ | ZRank _ _ | ZRemRange (RANK _ _) | ZRangeRank _ _ _ => True
  end.

(** Along the run, with a bound on the number of elements. *)
Fixpoint zops_ok (max : Z) (ops : list zop) (L : list key) : Prop :=
  match ops with
  | [] => True
  | op :: ops => zop_ok op L /\ Z.of_nat (length L) < max /\ zops_ok max ops (zl_step op L).1
  end.

(** ** On the skiplist *)

Section run.
  Context (zmalloc : zheap -> nat) (junk : nat -> option nat * (option nat * Z)) (ty : dictType sds).

(** An operation with the resize policy of dicts and the numbers [random]
    returns. *)
Definition zstep (cr : dictResizeEnable) (draws : list Z) (op : zop) (zs : zset) : option (zset * zres) :=
  match op with
  | ZAdd s e flags => r ← zsetAdd_skiplist zmalloc junk ty cr draws zs s e (options flags); Some (r.1, RAdd r.2)
  | ZRem e => r ← zsetRemoveFromSkiplist ty cr zs e; Some (r.1, RRem r.2)
  | ZScore e => r ← zsetScore_skiplist ty cr zs e; Some (r.1, RScore r.2)
  | ZRank e reverse => r ← zsetRank_skiplist ty cr zs e reverse; Some (r.1.1, RRank r.1.2 r.2)
  | ZRemRange (RANK start end_) =>
      match sanitize (zsl_length (zs_zsl zs)) start end_ with
      | None => Some (zs, RRemRange 0 false)
      | Some (start, end_) => r ← zremrange_skiplist ty cr zs (RANK start end_); Some (r.1.1, RRemRange r.1.2 r.2)
      end
  | ZRemRange range => r ← zremrange_skiplist ty cr zs range; Some (r.1.1, RRemRange r.1.2 r.2)
  | ZRangeRank start end_ reverse => l ← zrangebyrank_skiplist zs start end_ reverse; Some (zs, RRange l)
  | ZRangeScore range offset limit reverse => l ← zrangebyscore_skiplist zs range offset limit reverse; Some (zs, RRange l)
  | ZRangeLex range offset limit reverse => l ← zrangebylex_skiplist zs range offset limit reverse; Some (zs, RRange l)
  | ZCount range => n ← zcount_skiplist zs range; Some (zs, RCount n)
  | ZLexCount range => n ← zlexcount_skiplist zs range; Some (zs, RCount n)
  end.

Fixpoint zrun (calls : list (dictResizeEnable * list Z * zop)) (zs : zset) : option (zset * list zres) :=
  match calls with
  | [] => Some (zs, [])
  | (cr, draws, op) :: calls =>
      r ← zstep cr draws op zs;
      rs ← zrun calls r.1;
      Some (rs.1, r.2 :: rs.2)
  end.

Context (Hmalloc : forall h, h !! zmalloc h = None) (Hval : no_value ty = false).

Lemma same_scores_cells l : same_scores (c_key <$> l) -> forall c d, c ∈ l -> d ∈ l -> feq (c_score c) (c_score d).
Proof using.
  unfold same_scores. rewrite Forall_forall. intros H c d Hc Hd.
  specialize (H (c_key c) (list_elem_of_fmap_2 _ _ _ Hc)). rewrite Forall_forall in H.
  exact (H (c_key d) (list_elem_of_fmap_2 _ _ _ Hd)).
Qed.

Lemma keys_nil l : bool_decide (c_key <$> l = []) = bool_decide (l = []).
Proof using. by destruct l. Qed.

Lemma zremrange_ok cr zs l range : zset_ok ty zs l -> Z.of_nat (length l) < 2 ^ 32 - 1 -> zop_ok (ZRemRange range) (c_key <$> l) ->
  exists zs' l' r, zstep cr [] (ZRemRange range) zs = Some (zs', r) /\ zset_ok ty zs' l' /\ (c_key <$> l', r) = zl_remrange range (c_key <$> l).
Proof using.
  intros Hok Hlen Hop. unfold zstep, zl_remrange, zl_removed. destruct range as [start end_|range|range].
  - rewrite (sh_length (rep_shape (zo_rep _ _ _ Hok))), length_fmap.
    destruct (sanitize (Z.of_nat (length l)) start end_) as [[s e]|] eqn:E.
    + apply sanitize_spec in E; [|lia]. destruct (zremrange_rank_ok ty Hok cr s e) as (zs' & l' & -> & Hok' & Hl'); [lia..|].
      mstep. eexists zs', l', _. split; [done|]. split; [done|]. rewrite <- Hl', keys_nil. done.
    + by eexists zs, l, _.
  - destruct (zremrange_score_ok ty cr zs l range Hok Hop) as (zs' & l' & -> & Hok' & Hl'). mstep.
    eexists zs', l', _. split; [done|]. split; [done|]. by rewrite <- Hl', keys_nil.
  - destruct (zremrange_lex_ok ty cr zs l range Hok (same_scores_cells l Hop)) as (zs' & l' & -> & Hok' & Hl'). mstep.
    eexists zs', l', _. split; [done|]. split; [done|]. by rewrite <- Hl', keys_nil.
Qed.

(** Each operation does what it does on the list. *)
Lemma zstep_ok cr draws op zs l :
  zset_ok ty zs l -> is_Some (zslRandomLevel draws) -> Z.of_nat (length l) < 2 ^ 32 - 1 -> zop_ok op (c_key <$> l) ->
  exists zs' l' r, zstep cr draws op zs = Some (zs', r) /\ zset_ok ty zs' l' /\ (c_key <$> l', r) = zl_step op (c_key <$> l).
Proof using Hmalloc Hval.
  intros Hok [lvl Hlvl] Hlen Hop. destruct op as [s e flags|e|e|e rv|range|start end_ rv|range o li rv|range o li rv|range|range];
    cbn [zop_ok] in Hop; try (by apply zremrange_ok); cbn [zstep zl_step].
  - destruct (zsetAdd_ok zmalloc junk ty Hmalloc Hval cr draws lvl zs l s e (options flags)) as (zs' & l' & -> & Hok' & Hl'); [done|done|done|lia|].
    mstep. eexists zs', l', _. split; [done|]. split; [done|]. by rewrite Hl'.
  - destruct (zsetRemove_ok ty cr zs l e Hok) as (zs' & l' & -> & Hok' & Hl'). mstep. eexists zs', l', _. by rewrite Hl'.
  - destruct (zsetScore_ok ty cr zs l e Hok) as (zs' & -> & Hok'). mstep. by eexists zs', l, _.
  - destruct (zsetRank_ok ty cr zs l e rv Hok) as (zs' & -> & Hok'); [lia|]. mstep. by eexists zs', l, _.
  - rewrite (zrangebyrank_ok ty Hok) by lia. mstep. by eexists zs, l, _.
  - destruct Hop as (? & ? & ?). rewrite (zrangebyscore_ok ty Hok) by (done || lia). mstep. by eexists zs, l, _.
  - destruct Hop as (? & ? & ?). rewrite (zrangebylex_ok ty Hok) by (by apply same_scores_cells || done || lia). mstep. by eexists zs, l, _.
  - rewrite (zcount_ok ty Hok) by (done || lia). mstep. by eexists zs, l, _.
  - rewrite (zlexcount_ok ty Hok) by (by apply same_scores_cells || lia). mstep. by eexists zs, l, _.
Qed.

Lemma zrun_ok calls zs l :
  zset_ok ty zs l -> Forall (fun c => is_Some (zslRandomLevel c.1.2)) calls -> zops_ok (2 ^ 32 - 1) calls.*2 (c_key <$> l) ->
  exists zs' l' rs, zrun calls zs = Some (zs', rs) /\ zset_ok ty zs' l' /\ (c_key <$> l', rs) = zl_run calls.*2 (c_key <$> l).
Proof using Hmalloc Hval.
  revert zs l. induction calls as [|[[cr draws] op] calls IH]; intros zs l Hok Hd Hops; [by exists zs, l, []|].
  rewrite fmap_cons in *. cbn [zops_ok zl_run zrun snd fst] in *. apply Forall_cons in Hd as [Hd1 Hd]. destruct Hops as (H1 & H2 & H3).
  rewrite length_fmap in H2. destruct (zstep_ok cr draws op zs l) as (zs1 & l1 & r & -> & Hok1 & E); [done..|]. mstep. rewrite <- E in *. cbn [fst snd] in *.
  destruct (IH zs1 l1 Hok1 Hd H3) as (zs2 & l2 & rs & -> & Hok2 & E2). mstep. eexists zs2, l2, _. split; [done|]. split; [done|].
  by rewrite <- E2.
Qed.
End run.

(** ** A concrete allocator *)

(** The address above all others. *)
Definition top_malloc (h : zheap) : nat := S (map_fold (fun p _ m => Nat.max p m) 0%nat h).

Lemma top_malloc_fresh h : h !! top_malloc h = None.
Proof.
  assert (forall p, is_Some (h !! p) -> (p < top_malloc h)%nat) as H.
  2: { apply eq_None_not_Some. intros E%H. lia. }
  unfold top_malloc. apply (map_fold_weak_ind (fun m h => forall p, is_Some (h !! p) -> (p < S m)%nat)).
  - intros p [n Hn]. by rewrite lookup_empty in Hn.
  - intros i x m r Hi IH p Hp. destruct (decide (p = i)) as [->|Hne]; [lia|]. rewrite lookup_insert_ne in Hp by done. specialize (IH p Hp). lia.
Qed.

Definition demo_junk (x : nat) : option nat * (option nat * Z) := (Some x, (Some x, 7)).
Definition demo_zset_type : dictType sds := DictType (fun k => Z.of_nat (length k) mod 2 ^ 64) None false false false false.

(** 1, 2 and -1 as [double]s. *)
Definition d1 : spec_float := S754_finite false 4503599627370496 (-52).
Definition d2 : spec_float := S754_finite false 4503599627370496 (-51).
Definition dm1 : spec_float := S754_finite true 4503599627370496 (-52).

Definition demo_adds : list (dictResizeEnable * list Z * zop) :=
  pair (DICT_RESIZE_ENABLE, [3; 2147483647]) <$> [ZAdd d2 [98] 0; ZAdd d1 [99] 0; ZAdd d1 [97] 0; ZAdd dm1 [100; 100] 0; ZAdd d1 [98] 1].

Lemma demo_adds_ok : exists zs l, fst <$> zrun top_malloc demo_junk demo_zset_type demo_adds (createZset top_malloc demo_junk) = Some zs /\
  zset_ok demo_zset_type zs l /\ (c_key <$> l).*2 = [[100; 100]; [97]; [99]; [98]].
Proof.
  destruct (zrun_ok top_malloc demo_junk demo_zset_type top_malloc_fresh eq_refl demo_adds _ [] (createZset_ok top_malloc demo_junk _))
    as (zs & l & rs & -> & Hok & E).
  - apply Forall_fmap. repeat constructor; by eexists.
  - vm_compute. repeat split.
  - exists zs, l. split; [done|]. split; [done|]. apply (f_equal fst) in E. cbn [fst] in E. rewrite E. vm_compute. reflexivity.
Qed.

(** ** What holds of sorted sets *)

Section theorems.
  Context (zmalloc : zheap -> nat) (junk : nat -> option nat * (option nat * Z)) (ty : dictType sds).
  Context (Hmalloc : forall h, h !! zmalloc h = None) (Hval : no_value ty = false).


(** Skiplists reached by the low level API from an empty one, as its clients
    use it: a new element is not in the skiplist, an updated one is. *)
Inductive zsl_reachable : zheap -> zskiplist -> Prop :=
  | reach_create h zsl : zslCreate zmalloc junk ∅ = (h, zsl) -> zsl_reachable h zsl
  | reach_insert draws h zsl s e h' zsl' x :
      zsl_reachable h zsl -> map_Forall (fun _ n => ele n <> Some e) h -> zsl_length zsl < 2 ^ 63 - 1 ->
      zslInsert zmalloc junk draws h zsl s e = Some (h', zsl', x) -> zsl_reachable h' zsl'
  | reach_delete h zsl s e h' zsl' r :
      zsl_reachable h zsl -> isnan s = false -> zslDelete false h zsl s e = Some (h', zsl', r) -> zsl_reachable h' zsl'
  | reach_update draws h zsl s e new h' zsl' x p n :
      zsl_reachable h zsl -> h !! p = Some n -> ele n = Some e -> score n = s -> isnan new = false -> is_Some (zslRandomLevel draws) ->
      zslUpdateScore zmalloc junk draws h zsl s e new = Some (h', zsl', x) -> zsl_reachable h' zsl'.

Lemma zslInsert_args draws h zsl s e r : zslInsert zmalloc junk draws h zsl s e = Some r -> isnan s = false /\ is_Some (zslRandomLevel draws).
Proof using.
  unfold zslInsert. destruct (isnan s); [done|]. destruct (search _ _ _ _ _); [|done]. cbn [mbind option_bind].
  by destruct (zslRandomLevel draws); [eauto|].
Qed.

(** A node with an element is one of the list. *)
Lemma node_cell h zsl l p n e : rep [] h zsl l -> h !! p = Some n -> ele n = Some e ->
  exists a c, l !! a = Some c /\ c_ptr c = p /\ c_ele c = e /\ score n = c_score c.
Proof using.
  intros Hrep Hp He. pose proof (rep_shape Hrep) as Hsh. assert (p ∈ addresses zsl l []) as Hin by (apply (sh_dom Hsh); by exists n).
  unfold addresses in Hin. rewrite app_nil_r in Hin. apply elem_of_cons in Hin as [->|Hin].
  - destruct (sh_header Hsh) as [s Hs]. unfold static in Hs. rewrite Hp in Hs. cbn in Hs. congruence.
  - apply list_elem_of_fmap in Hin as (c & -> & Hc). apply list_elem_of_lookup in Hc as [a Ha]. exists a, c. split; [done|].
    pose proof (sh_cell Hsh a c Ha) as Hs. unfold static in Hs. rewrite Hp in Hs. cbn in Hs. split_and!; congruence.
Qed.

Lemma absent_cell h zsl l e : rep [] h zsl l -> map_Forall (fun _ n => ele n <> Some e) h -> e ∉ c_ele <$> l.
Proof using.
  intros Hrep Hno (c & -> & Hc)%list_elem_of_fmap. apply list_elem_of_lookup in Hc as [a Ha].
  destruct (rep_cell Hrep a c Ha) as (n & Hn & [He _] & _). by apply (Hno _ _ Hn).
Qed.

Lemma reachable_rep h zsl : zsl_reachable h zsl -> exists l, rep [] h zsl l /\ NoDup (c_ele <$> l).
Proof using Hmalloc.
  induction 1 as [h zsl E|draws h zsl s e h' zsl' x H IH Hno Hlen E|h zsl s e h' zsl' r H IH Hs E|draws h zsl s e new h' zsl' x p n H IH Hp He Hs Hn [lvl Hl] E].
  - exists []. pose proof (zslCreate_rep zmalloc junk) as Hr. rewrite E in Hr. by split; [|constructor].
  - destruct IH as (l & Hrep & Hnd). destruct (zslInsert_args _ _ _ _ _ _ E) as [Hs [lvl Hl]]. pose proof (absent_cell _ _ _ _ Hrep Hno) as Ha.
    rewrite (sh_length (rep_shape Hrep)) in Hlen.
    destruct (zslInsert_rep zmalloc junk Hmalloc [] h zsl l draws lvl s e Hrep Hlen Hl Hs) as (h1 & zsl1 & x1 & E1 & _ & R & _).
    + intros c Hc [_ Ek]. apply Ha. cbn in Ek. rewrite <- Ek. by apply list_elem_of_fmap_2.
    + eexists. simplify_eq. split; [exact R|]. rewrite ins_perm, fmap_cons by apply pos_le. by constructor.
  - destruct IH as (l & Hrep & Hnd).
    destruct (zslDelete_rep false [] h zsl l s e Hrep Hs) as [(a & c & h1 & zsl1 & Hc & _ & E1 & R & _)|[_ E1]]; simplify_eq.
    + exists (del l a). split; [done|]. rewrite (del_perm l a c Hc), fmap_cons in Hnd. by apply NoDup_cons in Hnd as [_ ?].
    + by exists l.
  - destruct IH as (l & Hrep & Hnd). destruct (node_cell _ _ _ _ _ _ Hrep Hp He) as (a & c & Hc & _ & Hce & Hsc).
    destruct (rep_cell Hrep a c Hc) as (_ & _ & _ & Hg). rewrite (del_perm l a c Hc), fmap_cons in Hnd. apply NoDup_cons in Hnd as [Hnin Hnd].
    destruct (zslUpdateScore_rep zmalloc junk Hmalloc [] h zsl l draws lvl a c s e new) as (h1 & zsl1 & d & l' & E1 & Ek & HP & R & _); try done.
    + split; cbn; [by rewrite <- Hs, Hsc|done].
    + by rewrite <- Hs, Hsc.
    + intros d Hd Ee. apply Hnin. rewrite Hce, <- Ee. by apply list_elem_of_fmap_2.
    + simplify_eq. exists l'. split; [done|]. rewrite HP, fmap_cons. injection Ek as _ Ek. rewrite Ek. by constructor.
Qed.

(** C12: a skiplist that the low level API reaches is well formed: its nodes
    are the header and one node per element, in the order of scores and then
    of bytes; the forward pointer of a node at each of its levels goes to the
    next node that has the level and its span is the distance; backward
    pointers, tail, length and top level are those of the list.  Insertions
    and deletions on it do not fault. *)
Theorem skiplist_well_formed h zsl : zsl_reachable h zsl ->
  (exists l, rep [] h zsl l /\ NoDup (c_ele <$> l)) /\
  (forall draws s e, isnan s = false -> is_Some (zslRandomLevel draws) -> map_Forall (fun _ n => ele n <> Some e) h ->
     zsl_length zsl < 2 ^ 63 - 1 -> is_Some (zslInsert zmalloc junk draws h zsl s e)) /\
  (forall s e, isnan s = false -> is_Some (zslDelete false h zsl s e)).
Proof using Hmalloc.
  intros H. destruct (reachable_rep h zsl H) as (l & Hrep & Hnd). split; [by exists l|]. split.
  - intros draws s e Hs [lvl Hl] Hno Hlen. rewrite (sh_length (rep_shape Hrep)) in Hlen.
    destruct (zslInsert_rep zmalloc junk Hmalloc [] h zsl l draws lvl s e Hrep Hlen Hl Hs) as (h1 & zsl1 & x1 & -> & _); [|by eexists].
    intros c Hc [_ Ek]. apply (absent_cell _ _ _ _ Hrep Hno). cbn in Ek. rewrite <- Ek. by apply list_elem_of_fmap_2.
  - intros s e Hs. destruct (zslDelete_rep false [] h zsl l s e Hrep Hs) as [(a & c & h1 & zsl1 & _ & _ & -> & _)|[_ ->]]; by eexists.
Qed.

(** Ranks and elements by rank are inverse to each other: [zslGetRank] of
    the element at position [i] is [i + 1], and 0 for an element that is not
    there; [zslGetElementByRank] of [i + 1] is the node at position [i], and
    NULL past the end. *)
Theorem zslGetRank_correct h zsl : zsl_reachable h zsl ->
  exists l, rep [] h zsl l /\
    (forall i c, l !! i = Some c -> zslGetRank h zsl (c_score c) (c_ele c) = Some (Z.of_nat i + 1) /\
       zslGetElementByRank h zsl (Z.of_nat i + 1) = Some (Some (c_ptr c))) /\
    (forall s e, isnan s = false -> (forall c, c ∈ l -> ~ keq (c_key c) (s, e)) -> zslGetRank h zsl s e = Some 0) /\
    (forall r, Z.of_nat (length l) < r -> zslGetElementByRank h zsl r = Some None).
Proof using Hmalloc.
  intros H. destruct (reachable_rep h zsl H) as (l & Hrep & _). exists l. split; [done|]. split_and!.
  - intros i c Hc. destruct (rep_cell Hrep i c Hc) as (_ & _ & _ & Hg). pose proof (lookup_lt_Some _ _ _ Hc). split.
    + rewrite (zslGetRank_found Hrep i c) by done. f_equal. lia.
    + rewrite (zslGetElementByRank_rep Hrep), decide_True by lia. replace (Z.to_nat (Z.of_nat i + 1)) with (S i) by lia.
      do 2 f_equal. unfold ptr. cbn [ptr_at]. by rewrite Hc.
  - intros s e Hs Hno. by apply (zslGetRank_absent Hrep).
  - intros r Hr. rewrite (zslGetElementByRank_rep Hrep), decide_False by lia. done.
Qed.

(** [zslNthInRange] returns the node of the element number [n] of those
    whose score is in the range, from the end for a negative [n], and NULL
    when there are not so many; [zslNthInLexRange] likewise for the elements
    between two strings, when all scores are equal. *)
Theorem zslNthInRange_correct h zsl : zsl_reachable h zsl -> zsl_length zsl < 2 ^ 63 - 1 ->
  exists l, rep [] h zsl l /\
    (forall range n, good_range range -> - 2 ^ 63 <= n < 2 ^ 63 ->
       let R := List.filter (fun c => score_in range (c_key c)) l in
       zslNthInRange h zsl range n = Some (c_ptr <$> (if 0 <=? n then R !! Z.to_nat n else rev R !! Z.to_nat (- n - 1)))) /\
    (forall range n, same_scores (c_key <$> l) -> - 2 ^ 63 <= n < 2 ^ 63 ->
       let R := List.filter (fun c => lex_in range (c_key c)) l in
       zslNthInLexRange h zsl range n = Some (c_ptr <$> (if 0 <=? n then R !! Z.to_nat n else rev R !! Z.to_nat (- n - 1)))).
Proof using Hmalloc.
  intros H Hlen. destruct (reachable_rep h zsl H) as (l & Hrep & _). exists l. rewrite (sh_length (rep_shape Hrep)) in Hlen.
  split; [done|]. split; intros range n Hr Hn; cbv zeta; rewrite rev_alt.
  - apply (nth_in_range_spec Hrep (score_range_ok range Hr)); [by apply (gte_antitone (rep_good Hrep) (rep_sorted Hrep))|by apply (lte_antitone (rep_good Hrep) (rep_sorted Hrep))|done|done].
  - pose proof (same_scores_cells l Hr) as Hs.
    apply (nth_in_range_spec Hrep (lex_range_ok range)); [by apply (lex_gte_antitone (rep_sorted Hrep))|by apply (lex_lte_antitone (rep_sorted Hrep))|done|done].
Qed.

(** [zslFree] visits and frees each node of a skiplist once and leaves
    nothing allocated. *)
Theorem zslFree_exact h zsl : zsl_reachable h zsl -> zslFree h zsl = Some ∅.
Proof using Hmalloc.
  intros H. destruct (reachable_rep h zsl H) as (l & Hrep & _).
  destruct (zslFree_shape [] h zsl l (rep_shape Hrep)) as (h' & -> & Hh). f_equal. apply map_eq. intros p. rewrite Hh, lookup_empty. done.
Qed.
End theorems.

Definition demo_ops : list zop :=
  [ZScore [98]; ZRank [97] true; ZAdd d2 [120] (ZADD_IN_NX + ZADD_IN_GT); ZRangeScore (Range d1 d2 false true) 1 (-1) true;
   ZRemRange (RANK (-1) (-1)); ZCount (Range dm1 d2 true false); ZRem [100; 100]; ZAdd d1 [97] ZADD_IN_INCR;
   ZRemRange (SCORE (Range d2 (S754_infinity false) false false)); ZRangeLex (LexRange minstring maxstring true true) 0 5 false;
   ZRangeRank 0 (-1) false].

Definition demo_calls_zset : list (dictResizeEnable * list Z * zop) :=
  demo_adds ++ (pair (DICT_RESIZE_AVOID, [2147483647]) <$> demo_ops).


(** A skiplist of four nodes, one of them with two levels and one rescored. *)
Definition demo_skiplist : option (zheap * zskiplist) :=
  let '(h, zsl) := zslCreate top_malloc demo_junk ∅ in
  r ← zslInsert top_malloc demo_junk [2147483647] h zsl d2 [98];
  r ← zslInsert top_malloc demo_junk [3; 2147483647] r.1.1 r.1.2 d1 [99];
  r ← zslInsert top_malloc demo_junk [2147483647] r.1.1 r.1.2 d1 [97];
  r ← zslInsert top_malloc demo_junk [3; 3; 2147483647] r.1.1 r.1.2 dm1 [100];
  r ← zslUpdateScore top_malloc demo_junk [2147483647] r.1.1 r.1.2 d1 [97] d2;
  r ← zslDelete false r.1.1 r.1.2 dm1 [100];
  Some (r.1.1, r.1.2).

(** An insertion into the skiplist that [R] is about, evaluated. *)
Ltac reach_insertion R draws s e :=
  match type of R with
  | zsl_reachable ?zm ?j ?h ?zsl =>
      let r := eval vm_compute in (zslInsert zm j draws h zsl s e) in
      match r with
      | Some (?h', ?zsl', ?x) =>
          let R' := fresh in
          assert (zsl_reachable zm j h' zsl') as R'
            by (apply (reach_insert zm j draws h zsl s e h' zsl' x R);
                [apply (bool_decide_unpack _); vm_compute; exact I|vm_compute; reflexivity|vm_compute; reflexivity]);
          clear R; rename R' into R
      end
  end.

Lemma demo_reachable : exists h zsl, demo_skiplist = Some (h, zsl) /\ zsl_length zsl = 3 /\ zsl_reachable top_malloc demo_junk h zsl.
Proof.
  pose proof (reach_create top_malloc demo_junk _ _ eq_refl) as R.
  reach_insertion R [2147483647] d2 [98]. reach_insertion R [3; 2147483647] d1 [99].
  reach_insertion R [2147483647] d1 [97]. reach_insertion R [3; 3; 2147483647] dm1 [100].
  match type of R with zsl_reachable _ _ ?h ?zsl =>
    let r := eval vm_compute in (zslUpdateScore top_malloc demo_junk [2147483647] h zsl d1 [97] d2) in
    match r with Some (?h', ?zsl', ?x) =>
      assert (zsl_reachable top_malloc demo_junk h' zsl') as R1
        by (refine (reach_update top_malloc demo_junk [2147483647] h zsl d1 [97] d2 h' zsl' x 4 _ R _ _ _ _ _ _);
            [vm_compute; reflexivity..|by eexists|vm_compute; reflexivity])
    end
  end.
  eexists _, _. split; [vm_compute; reflexivity|]. split; [reflexivity|].
  eapply (reach_delete _ _ _ _ dm1 [100] _ _ _ R1); vm_compute; reflexivity.
Qed.

Lemma skiplist_well_formed_witness : exists h zsl, demo_skiplist = Some (h, zsl) /\ (exists l, rep [] h zsl l /\ NoDup (c_ele <$> l)) /\
  is_Some (zslDelete false h zsl d2 [98]).
Proof.
  destruct demo_reachable as (h & zsl & E & _ & R). exists h, zsl. split; [exact E|].
  destruct (skiplist_well_formed top_malloc demo_junk top_malloc_fresh h zsl R) as (Hl & _ & Hd). split; [exact Hl|]. apply Hd. reflexivity.
Defined.

Lemma zslGetRank_correct_witness : exists h zsl l, demo_skiplist = Some (h, zsl) /\ rep [] h zsl l /\
  (forall i c, l !! i = Some c -> zslGetRank h zsl (c_score c) (c_ele c) = Some (Z.of_nat i + 1) /\
     zslGetElementByRank h zsl (Z.of_nat i + 1) = Some (Some (c_ptr c))).
Proof.
  destruct demo_reachable as (h & zsl & E & _ & R).
  destruct (zslGetRank_correct top_malloc demo_junk top_malloc_fresh h zsl R) as (l & Hl & Hr & _). exists h, zsl, l. split; [exact E|]. split; [exact Hl|exact Hr].
Defined.

Lemma zslNthInRange_correct_witness : exists h zsl l, demo_skiplist = Some (h, zsl) /\ rep [] h zsl l /\
  zslNthInRange h zsl (Range d1 d2 true false) (-1) =
    Some (c_ptr <$> (rev (List.filter (fun c => score_in (Range d1 d2 true false) (c_key c)) l)) !! 0%nat).
Proof.
  destruct demo_reachable as (h & zsl & E & Hlen & R).
  destruct (zslNthInRange_correct top_malloc demo_junk top_malloc_fresh h zsl R) as (l & Hl & Hr & _); [rewrite Hlen; reflexivity|].
  exists h, zsl, l. split; [exact E|]. split; [exact Hl|]. apply (Hr (Range d1 d2 true false) (-1)); [split; reflexivity|lia].
Defined.

Lemma zslFree_exact_witness : exists h zsl, demo_skiplist = Some (h, zsl) /\ size h = 4%nat /\ zslFree h zsl = Some ∅.
Proof.
  destruct demo_reachable as (h & zsl & E & _ & R). exists h, zsl. split; [exact E|]. split.
  - vm_compute in E. injection E as <- <-. reflexivity.
  - exact (zslFree_exact top_malloc demo_junk top_malloc_fresh h zsl R).
Defined.
