(* ===== verification/Double.v ===== *)
(** * Doubles and their text (src/util.c)

    [double2ll] and [d2string] on the IEEE numbers of [SpecFloat], with the
    printer of deps/fpconv as a parameter, and the fact that sums and converted
    integers are [double]s again. *)
From S2P Require Import Prelude Numconv NumconvSpec Skiplist SkiplistSpec Zset.
From Stdlib Require Import ZArith Lia SpecFloat.
From stdpp Require Import prelude list.

#[local] Open Scope Z_scope.

(** The numbers a [double] has. *)
Definition is_double (x : spec_float) : bool := valid_binary 53 1024 x.

(** The conversion of an integer to [double], to the nearest. *)
Definition Z2d (v : Z) : spec_float := binary_normalize 53 1024 v 0 false.

(** The conversion to [long long], towards zero, for values in its range; what
    the cast of another value gives does not matter to its caller. *)
Definition d2Z (x : spec_float) : Z :=
  match x with
  | S754_finite s m e =>
      let v := if 0 <=? e then Z.pos m * 2 ^ e else Z.pos m / 2 ^ (- e) in
      wraps 64 (if s then - v else v)
  | _ => 0
  end.

Definition LLONG_MAX : Z := 9223372036854775807.

Definition double2ll (d : spec_float) : option Z :=
  if SFltb d (Z2d (Z.quot (- LLONG_MAX) 2)) || SFltb (Z2d (LLONG_MAX / 2)) d then None
  else
    let ll := d2Z d in
    if SFeqb (Z2d ll) d then Some ll else None.

Definition isinf (x : spec_float) : bool := match x with S754_infinity _ => true | _ => false end.

(** The text; the buffer of the callers has room for it. *)
Definition d2string (fpconv_dtoa : spec_float -> list Z) (value : spec_float) : list Z :=
  if isnan value then [110; 97; 110]
  else if isinf value then
    if SFltb value (S754_zero false) then [45; 105; 110; 102] else [105; 110; 102]
  else if SFeqb value (S754_zero false) then
    if SFltb (SFdiv 53 1024 (Z2d 1) value) (S754_zero false) then [45; 48] else [48]
  else
    match double2ll value with
    | Some lvalue => let '(len, buf) := ll2string (replicate 128 0) lvalue in take (Z.to_nat len) buf
    | None => fpconv_dtoa value
    end.

(** ** Rounding gives a double *)

Section rounding.
  Context (prec emax : Z) (Hprec : 0 < prec).
  #[local] Abbreviation fexp := (fexp prec emax).

Lemma digits2_log2 p : Z.pos (digits2_pos p) = Z.log2 (Z.pos p) + 1.
Proof.
  induction p as [p IH|p IH|]; cbn [digits2_pos]; [| |done]; rewrite Pos2Z.inj_succ, IH.
  - rewrite (Pos2Z.inj_xI p), Z.log2_succ_double by done. lia.
  - rewrite (Pos2Z.inj_xO p), Z.log2_double by done. lia.
Qed.

Lemma Zdigits2_pos m : 0 < m -> Zdigits2 m = Z.log2 m + 1.
Proof. destruct m as [|p|p]; try done. intros _. apply digits2_log2. Qed.

Lemma Zdigits2_nonneg m : 0 <= Zdigits2 m.
Proof. by destruct m. Qed.

Lemma Zdigits2_mono m m' : 0 <= m <= m' -> Zdigits2 m <= Zdigits2 m'.
Proof.
  intros H. destruct (Z.eq_dec m 0) as [->|]; [apply Zdigits2_nonneg|]. rewrite !Zdigits2_pos by lia.
  pose proof (Z.log2_le_mono m m'). lia.
Qed.

Lemma fexp_mono e e' : e <= e' -> fexp e <= fexp e'.
Proof. unfold SpecFloat.fexp. lia. Qed.

(** A shift divides the mantissa. *)
Lemma shr_1_half r : 0 <= shr_m r -> shr_m (shr_1 r) = shr_m r / 2.
Proof.
  destruct r as [m x y]. destruct m as [|[p|p|]|p]; cbn [shr_1 shr_m]; intros; try done; try lia.
  - rewrite Pos2Z.inj_xI, Z.mul_comm, Z.div_add_l by lia. change (1 / 2) with 0. lia.
  - rewrite Pos2Z.inj_xO, Z.mul_comm, Z.div_mul; lia.
Qed.

Lemma iter_half p r : 0 <= shr_m r -> shr_m (SpecFloat.iter_pos shr_1 p r) = shr_m r / 2 ^ Z.pos p.
Proof.
  revert r. induction p as [p IH|p IH|]; intros r Hr; cbn [SpecFloat.iter_pos].
  - assert (0 <= shr_m (shr_1 r)) as H1 by (rewrite shr_1_half by done; apply Z.div_pos; lia).
    assert (0 <= shr_m (SpecFloat.iter_pos shr_1 p (shr_1 r))) as H2 by (rewrite IH by done; apply Z.div_pos; lia).
    rewrite !IH, shr_1_half by done. rewrite !Z.div_div by lia. f_equal.
    replace (Z.pos p~1) with (1 + Z.pos p + Z.pos p) by lia. rewrite !Z.pow_add_r by lia. ring.
  - assert (0 <= shr_m (SpecFloat.iter_pos shr_1 p r)) as H2 by (rewrite IH by done; apply Z.div_pos; lia).
    rewrite !IH by done. rewrite Z.div_div by lia. f_equal.
    replace (Z.pos p~0) with (Z.pos p + Z.pos p) by lia. rewrite Z.pow_add_r by lia. ring.
  - by rewrite shr_1_half.
Qed.

Lemma shr_record_m m l : shr_m (shr_record_of_loc m l) = m.
Proof. by destruct l as [|[]]. Qed.

(** The exponent after a shift to the format is at most the one of the format,
    and equal to it when the mantissa was shifted or was already there. *)
Lemma shr_fexp_spec m e l : 0 <= m ->
  let r := shr_fexp prec emax m e l in
  0 <= shr_m r.1 /\ r.2 = Z.max e (fexp (Zdigits2 m + e)) /\ (0 < shr_m r.1 -> Zdigits2 (shr_m r.1) + r.2 = Zdigits2 m + e) /\
  (shr_m r.1 = 0 -> Zdigits2 m + e <= r.2).
Proof.
  intros Hm. unfold shr_fexp, shr. set (n := fexp (Zdigits2 m + e) - e). destruct n as [|p|p] eqn:En; cbn [fst snd].
  - rewrite shr_record_m. split_and!; [done|lia|done|]. intros ->. cbn [Zdigits2]. lia.
  - rewrite iter_half by (by rewrite shr_record_m). rewrite shr_record_m. assert (0 < 2 ^ Z.pos p) by lia.
    split_and!; [apply Z.div_pos; lia|lia| |].
    2: { intros H0%Z.div_small_iff; [|lia]. destruct (Z.eq_dec m 0) as [->|]; [cbn [Zdigits2] in *; lia|].
         rewrite Zdigits2_pos by lia. assert (Z.log2 m < Z.pos p) by (apply Z.log2_lt_pow2; lia). lia. }
    intros Hp.
    assert (2 ^ Z.pos p <= m) by (apply Z.nlt_ge; intros H1; rewrite Z.div_small in Hp by lia; lia).
    rewrite !Zdigits2_pos by lia. rewrite <- Z.shiftr_div_pow2, Z.log2_shiftr by lia. pose proof (Z.log2_le_pow2 m (Z.pos p)). lia.
  - rewrite shr_record_m. split_and!; [done|lia|done|]. intros ->. cbn [Zdigits2]. lia.
Qed.

Lemma round_up m l : 0 <= m -> m <= round_nearest_even m l <= m + 1.
Proof. intros Hm. destruct l as [|[]]; cbn; try lia. destruct (Z.even m); lia. Qed.

Lemma binary_round_aux_valid sx m e l : 0 <= m -> e <= fexp (Zdigits2 m + e) -> valid_binary prec emax (binary_round_aux prec emax sx m e l) = true.
Proof.
  intros Hm He. unfold binary_round_aux. pose proof (shr_fexp_spec m e l Hm) as (H1 & H2 & H3 & H4).
  destruct (shr_fexp prec emax m e l) as [r1 e1]. cbn [fst snd] in *.
  set (m1 := round_nearest_even (shr_m r1) (loc_of_shr_record r1)). pose proof (round_up (shr_m r1) (loc_of_shr_record r1) H1) as Hm1. fold m1 in Hm1.
  pose proof (shr_fexp_spec m1 e1 loc_Exact ltac:(lia)) as (K1 & K2 & K3 & K4).
  destruct (shr_fexp prec emax m1 e1 loc_Exact) as [r2 e2]. cbn [fst snd] in *.
  destruct (shr_m r2) as [|p|p] eqn:Ep; [done| |done]. destruct (Z.leb_spec e2 (emax - prec)); [|done].
  cbn [valid_binary]. unfold bounded, canonical_mantissa. apply andb_true_intro. split; [|by apply Z.leb_le].
  change (Z.pos (digits2_pos p)) with (Zdigits2 (Z.pos p)). rewrite K3 by lia. apply Z.eqb_eq.
  assert (e1 <= fexp (Zdigits2 m1 + e1)); [|lia].
  destruct (Z.eq_dec (shr_m r1) 0) as [E0|E0].
  - specialize (H4 E0). unfold SpecFloat.fexp in *. lia.
  - pose proof (Zdigits2_mono (shr_m r1) m1 ltac:(lia)). pose proof (fexp_mono (Zdigits2 (shr_m r1) + e1) (Zdigits2 m1 + e1) ltac:(lia)).
    rewrite H3 in * by lia. lia.
Qed.

Lemma shl_digits m d : Z.pos (digits2_pos (Pos.iter xO m d)) = Z.pos (digits2_pos m) + Z.pos d.
Proof.
  induction d as [|d IH] using Pos.peano_ind; [by cbn; lia|]. rewrite Pos.iter_succ. cbn [digits2_pos]. lia.
Qed.

Lemma binary_round_valid sx m e : valid_binary prec emax (binary_round prec emax sx m e) = true.
Proof using Hprec.
  unfold binary_round, shl_align. set (e' := fexp (Z.pos (digits2_pos m) + e)). destruct (e' - e) as [|d|d] eqn:E.
  - apply binary_round_aux_valid; [lia|]. cbn [Zdigits2]. fold e'. lia.
  - apply binary_round_aux_valid; [lia|]. cbn [Zdigits2]. fold e'. lia.
  - apply binary_round_aux_valid; [lia|]. cbn [Zdigits2]. rewrite shl_digits.
    replace (Z.pos (digits2_pos m) + Z.pos d + e') with (Z.pos (digits2_pos m) + e) by lia. fold e'. lia.
Qed.

Lemma binary_normalize_valid m e s : valid_binary prec emax (binary_normalize prec emax m e s) = true.
Proof using Hprec. destruct m; [done|apply binary_round_valid..]. Qed.

Lemma SFadd_valid x y : valid_binary prec emax x = true -> valid_binary prec emax y = true -> valid_binary prec emax (SFadd prec emax x y) = true.
Proof using Hprec.
  destruct x as [[]|[]| |sx mx ex], y as [[]|[]| |sy my ey]; try done. intros _ _. cbn [SFadd]. apply binary_normalize_valid.
Qed.
End rounding.

Lemma Z2d_double v : is_double (Z2d v) = true.
Proof. by apply binary_normalize_valid. Qed.

Lemma dadd_double x y : is_double x = true -> is_double y = true -> is_double (dadd x y) = true.
Proof. by apply SFadd_valid. Qed.

(** ** Integers and doubles *)

Lemma binary_round_num prec emax sx m e : isnan (binary_round prec emax sx m e) = false.
Proof.
  unfold binary_round. destruct (shl_align _ _ _) as [mz ez]. unfold binary_round_aux.
  pose proof (shr_fexp_spec prec emax (Z.pos mz) ez loc_Exact ltac:(lia)) as (H1 & _).
  destruct (shr_fexp prec emax (Z.pos mz) ez loc_Exact) as [r1 e1]. cbn [fst snd] in *.
  set (m1 := round_nearest_even _ _). assert (0 <= m1) as Hm1 by (pose proof (round_up (shr_m r1) (loc_of_shr_record r1) H1); lia).
  pose proof (shr_fexp_spec prec emax m1 e1 loc_Exact Hm1) as (K1 & _).
  destruct (shr_fexp prec emax m1 e1 loc_Exact) as [r2 e2]. cbn [fst snd] in *.
  destruct (shr_m r2); [done|by destruct (_ <=? _)|lia].
Qed.

Lemma Z2d_num v : isnan (Z2d v) = false.
Proof. destruct v; [done|apply binary_round_num..]. Qed.

Lemma SFeqb_num x y : SFeqb x y = true -> isnan x = false /\ isnan y = false.
Proof. by destruct x as [[]|[]| |[]], y as [[]|[]| |[]]. Qed.

(** An integer that stands for a double is equal to it. *)
Lemma double2ll_spec x v : double2ll x = Some v -> fits_s 64 v /\ feq (Z2d v) x.
Proof.
  unfold double2ll. destruct (_ || _); [done|]. destruct (SFeqb (Z2d (d2Z x)) x) eqn:E; [|done]. intros [= <-]. split.
  - destruct x as [s|s| |s m e]; cbn [d2Z]; try (unfold fits_s; lia). apply wraps_bound. lia.
  - apply SFeqb_num in E as Hn. destruct Hn. by apply SFeqb_feq.
Qed.

Lemma double2ll_none x : double2ll x = None -> isnan x = false -> isinf x = true \/ (exists s m e, x = S754_finite s m e).
Proof. destruct x as [[]|s| |s m e]; try done; [by left|]. intros _ _. right. by exists s, m, e. Qed.
