(* ===== verification/ZsetSame.v ===== *)
(** * Sorted sets up to the sign of zero

    A listpack stores a score of -0 as the integer 0, so the encodings agree up
    to that sign.  Lists of keys are [same] when they have the same elements and
    equal scores; each operation of ZsetRun.v takes such lists to such lists and
    to results that are equal in the same sense. *)
From S2P Require Import Prelude Skiplist SkiplistSpec SkiplistOrder SkiplistRange Zset ZsetSpec ZsetRange ZsetRun Double.
From Stdlib Require Import ZArith Lia SpecFloat.
From stdpp Require Import prelude list sorting.

#[local] Open Scope Z_scope.

(** ** Scores *)

Lemma feq_cases x y : feq x y -> x = y \/ exists s t, x = S754_zero s /\ y = S754_zero t.
Proof.
  unfold feq. destruct x as [s|[]| |[] m e], y as [t|[]| |[] n f]; cbn; try done; intros H; try (by left); try (by right; eauto).
  - injection H as H1 H2. left. f_equal; lia.
  - injection H as H1 H2. left. f_equal; lia.
Qed.

#[export] Instance SFcompare_proper : Proper (feq ==> feq ==> eq) SFcompare.
Proof. intros x x' [->|(s & t & -> & ->)]%feq_cases y y' [->|(s' & t' & -> & ->)]%feq_cases; done. Qed.

#[export] Instance isnan_proper : Proper (feq ==> eq) isnan.
Proof. by intros x y [->|(s & t & -> & ->)]%feq_cases. Qed.

#[export] Instance SFltb_proper : Proper (feq ==> feq ==> eq) SFltb.
Proof. intros x x' Hx y y' Hy. unfold SFltb. by rewrite Hx, Hy. Qed.

#[export] Instance SFleb_proper : Proper (feq ==> feq ==> eq) SFleb.
Proof. intros x x' Hx y y' Hy. unfold SFleb. by rewrite Hx, Hy. Qed.

#[export] Instance SFeqb_proper : Proper (feq ==> feq ==> eq) SFeqb.
Proof. intros x x' Hx y y' Hy. unfold SFeqb. by rewrite Hx, Hy. Qed.

#[export] Instance dadd_proper : Proper (feq ==> feq ==> feq) dadd.
Proof.
  intros x x' [->|(s & t & -> & ->)]%feq_cases y y' [->|(s' & t' & -> & ->)]%feq_cases; [done| | |].
  - by destruct x' as [[]|[]| |], s', t'.
  - by destruct y' as [[]|[]| |], s, t.
  - by destruct s, t, s', t'.
Qed.

(** ** Lists of keys *)

Definition same : relation (list key) := Forall2 keq.

#[export] Instance same_equiv : Equivalence same.
Proof. unfold same. apply _. Qed.

Lemma same_length L L' : same L L' -> length L = length L'.
Proof. apply Forall2_length. Qed.

Lemma same_elements L L' : same L L' -> L.*2 = L'.*2.
Proof. induction 1 as [|k k' L L' [_ E] _ IH]; [done|]. rewrite !fmap_cons. by f_equal. Qed.

Lemma same_num L L' : same L L' -> Forall (fun k => isnan k.1 = false) L -> Forall (fun k => isnan k.1 = false) L'.
Proof. intros H HL. eapply Forall2_Forall_r; [exact H|]. eapply Forall_impl; [exact HL|]. intros k Hk k' [E _]. by rewrite <- E. Qed.

Lemma same_sorted L L' : same L L' -> StronglySorted klt L -> StronglySorted klt L'.
Proof.
  induction 1 as [|k k' L L' Hk HL IH]; [done|]. intros [H1 H2]%StronglySorted_cons. constructor; [by apply IH|].
  eapply Forall2_Forall_r; [exact HL|]. eapply Forall_impl; [exact H1|]. intros x Hx y Hxy. by rewrite <- Hxy, <- Hk.
Qed.

Lemma same_set L L' : same L L' -> sorted_set L -> sorted_set L'.
Proof.
  intros H [H1 H2 H3]. split; [by eapply same_sorted| |by eapply same_num]. by rewrite <- (same_elements L L' H).
Qed.

(** Tests that do not tell equal scores apart. *)
Lemma same_filter (P : key -> bool) L L' : Proper (keq ==> eq) P -> same L L' -> same (List.filter P L) (List.filter P L').
Proof. intros HP. induction 1 as [|k k' L L' Hk HL IH]; [constructor|]. cbn. rewrite (HP _ _ Hk). destruct (P k'); [by constructor|done]. Qed.

#[export] Instance score_in_proper range : Proper (keq ==> eq) (score_in range).
Proof. intros k k' [E _]. unfold score_in, zslValueGteMin, zslValueLteMax. by destruct (r_minex range), (r_maxex range); rewrite E. Qed.

#[export] Instance lex_in_proper range : Proper (keq ==> eq) (lex_in range).
Proof. intros k k' [_ E]. unfold lex_in. by rewrite E. Qed.

Lemma same_find e L L' : same L L' -> option_Forall2 (fun r r' => r.1 = r'.1 /\ keq r.2 r'.2) (zl_find e L) (zl_find e L').
Proof.
  unfold zl_find. induction 1 as [|k k' L L' Hk HL IH]; [constructor|]. cbn [list_find]. destruct (decide (k.2 = e)) as [He|He], (decide (k'.2 = e)) as [He'|He'].
  - by constructor.
  - destruct Hk as [_ Hk]. congruence.
  - destruct Hk as [_ Hk]. congruence.
  - destruct IH as [[i r] [i' r'] [Hr1 Hr2]|]; constructor. cbn in *. by rewrite Hr1.
Qed.

Lemma same_score e L L' : same L L' -> option_Forall2 feq (zl_score e L) (zl_score e L').
Proof. intros H%(same_find e). unfold zl_score. destruct H as [r r' [_ [E _]]|]; by constructor. Qed.

Lemma same_pos k k' L L' : keq k k' -> same L L' -> zl_pos k L = zl_pos k' L'.
Proof.
  intros Hk. unfold zl_pos. induction 1 as [|x x' L L' Hx HL IH]; [done|]. cbn [plen].
  rewrite (bool_decide_ext (klt x k) (klt x' k')) by (by rewrite Hx, Hk). by rewrite IH.
Qed.

Lemma same_insert k k' L L' : keq k k' -> same L L' -> same (zl_insert k L) (zl_insert k' L').
Proof.
  intros Hk H. unfold zl_insert. rewrite (same_pos k k' L L' Hk H). apply Forall2_app; [by apply Forall2_take|].
  constructor; [done|]. by apply Forall2_drop.
Qed.

Lemma same_remove e L L' : same L L' -> same (zl_remove e L) (zl_remove e L').
Proof.
  unfold zl_remove. induction 1 as [|k k' L L' Hk HL IH]; [constructor|]. destruct (decide (k.2 = e)) as [He|He].
  - rewrite !filter_cons_False by (destruct Hk as [_ Hk]; rewrite <- ?Hk; tauto). done.
  - rewrite !filter_cons_True by (destruct Hk as [_ Hk]; rewrite <- ?Hk; tauto). by constructor.
Qed.

(** ** Operations *)

Definition same_pair (p q : sds * spec_float) : Prop := p.1 = q.1 /\ feq p.2 q.2.

Inductive same_res : zres -> zres -> Prop :=
  | same_add ret flags s s' : option_Forall2 feq s s' -> same_res (RAdd (ZaddResult ret flags s)) (RAdd (ZaddResult ret flags s'))
  | same_score_res s s' : option_Forall2 feq s s' -> same_res (RScore s) (RScore s')
  | same_rank rank s s' : option_Forall2 feq s s' -> same_res (RRank rank s) (RRank rank s')
  | same_range l l' : Forall2 same_pair l l' -> same_res (RRange l) (RRange l')
  | same_rem b : same_res (RRem b) (RRem b)
  | same_remrange n b : same_res (RRemRange n b) (RRemRange n b)
  | same_count n : same_res (RCount n) (RCount n).

Lemma same_zl_add s e flags L L' : same L L' ->
  same (zl_add s e (options flags) L).1 (zl_add s e (options flags) L').1 /\
  same_res (RAdd (zl_add s e (options flags) L).2) (RAdd (zl_add s e (options flags) L').2).
Proof.
  intros H. pose proof (same_score e L L' H) as Hs. unfold zl_add. set (o := options flags). destruct Hs as [c c' Hc|].
  - set (x := if opt_incr o then dadd s c else s). set (x' := if opt_incr o then dadd s c' else s).
    assert (feq x x') as Hx by (unfold x, x'; destruct (opt_incr o); [by rewrite Hc|done]).
    assert (isnan x = isnan x') as -> by (by rewrite Hx). assert (SFleb c x = SFleb c' x') as -> by (by rewrite Hx, Hc).
    assert (SFleb x c = SFleb x' c') as -> by (by rewrite Hx, Hc). assert (SFeqb x c = SFeqb x' c') as -> by (by rewrite Hx, Hc).
    destruct (opt_nx o); [by split; [|constructor; constructor]|]. destruct (isnan x'); [by split; [|constructor; constructor]|].
    destruct (_ || _); [by split; [|constructor; constructor]|]. destruct (SFeqb x' c'); (split; [|by constructor; constructor]); [done|].
    apply same_insert; [done|]. by apply same_remove.
  - destruct (opt_xx o); [by split; [|constructor; constructor]|]. split; [by apply same_insert|by constructor; constructor].
Qed.

Lemma same_zl_rank e reverse L L' : same L L' -> same_res (RRank (zl_rank e reverse L).1 (zl_rank e reverse L).2) (RRank (zl_rank e reverse L').1 (zl_rank e reverse L').2).
Proof.
  intros H. unfold zl_rank. rewrite (same_length L L' H). destruct (same_find e L L' H) as [[i k] [i' k'] [Hi [Hk _]]|]; cbn in *.
  - subst i'. by constructor; constructor.
  - by constructor; constructor.
Qed.

Lemma same_emit L L' : same L L' -> Forall2 same_pair (emit <$> L) (emit <$> L').
Proof. intros H. apply Forall2_fmap. eapply Forall2_impl; [exact H|]. by intros k k' [E1 E2]. Qed.

Lemma same_page offset limit (reverse : bool) L L' : same L L' ->
  same (page offset limit (if reverse then rev L else L)) (page offset limit (if reverse then rev L' else L')).
Proof.
  intros H. unfold page. assert (same (if reverse then rev L else L) (if reverse then rev L' else L')) as H1.
  { destruct reverse; [|done]. rewrite !rev_alt. by apply Forall2_reverse. }
  destruct (limit <? 0); [by apply Forall2_drop|]. by apply Forall2_take, Forall2_drop.
Qed.

Lemma same_rangeby P offset limit (reverse : bool) L L' : Proper (keq ==> eq) P -> same L L' ->
  same_res (RRange (zl_rangeby P offset limit reverse L)) (RRange (zl_rangeby P offset limit reverse L')).
Proof. intros HP H. constructor. apply same_emit, same_page. by apply same_filter. Qed.

Lemma same_removed n n' L L' : n = n' -> same L L' -> same (zl_removed n L).1 (zl_removed n' L').1 /\ same_res (zl_removed n L).2 (zl_removed n' L').2.
Proof.
  intros -> H. split; [done|]. cbn. assert (bool_decide (L = []) = bool_decide (L' = [])) as -> by (by destruct H).
  constructor.
Qed.

Lemma same_outside P L L' : Proper (keq ==> eq) P -> same L L' ->
  let r := zl_removed (Z.of_nat (length (List.filter P L))) (List.filter (fun k => negb (P k)) L) in
  let r' := zl_removed (Z.of_nat (length (List.filter P L'))) (List.filter (fun k => negb (P k)) L') in same r.1 r'.1 /\ same_res r.2 r'.2.
Proof.
  intros HP H. apply same_removed.
  - f_equal. by apply same_length, same_filter.
  - apply same_filter; [|done]. intros k k' Hk. by rewrite (HP _ _ Hk).
Qed.

Lemma same_step op L L' : same L L' -> same (zl_step op L).1 (zl_step op L').1 /\ same_res (zl_step op L).2 (zl_step op L').2.
Proof.
  intros H. pose proof (same_length L L' H) as Hl. destruct op as [s e flags|e|e|e rv|range|start end_ rv|range o li rv|range o li rv|range|range]; cbn [zl_step fst snd].
  - by apply same_zl_add.
  - split; [by apply same_remove|]. rewrite (same_elements L L' H). constructor.
  - split; [done|]. constructor. by apply same_score.
  - split; [done|]. by apply same_zl_rank.
  - destruct range as [start end_|range|range]; cbn [zl_remrange]; [|apply same_outside; [apply _|done]..].
    rewrite Hl. destruct (sanitize _ _ _) as [[s e]|]; [|by split; [|constructor]].
    apply same_removed; [done|]. apply Forall2_app; [by apply Forall2_take|by apply Forall2_drop].
  - split; [done|]. constructor. unfold zl_rangebyrank. rewrite Hl. destruct (sanitize _ _ _) as [[s e]|]; [|constructor]. by apply same_emit, same_page.
  - split; [done|]. apply same_rangeby; [apply _|done].
  - split; [done|]. apply same_rangeby; [apply _|done].
  - split; [done|]. rewrite (same_length _ _ (same_filter (score_in range) L L' _ H)). constructor.
  - split; [done|]. rewrite (same_length _ _ (same_filter (lex_in range) L L' _ H)). constructor.
Qed.

Lemma same_scores_same L L' : same L L' -> same_scores L -> same_scores L'.
Proof.
  unfold same_scores. intros H HL. eapply Forall2_Forall_r; [exact H|]. eapply Forall_impl; [exact HL|]. intros k Hk k' [Ek _].
  eapply Forall2_Forall_r; [exact H|]. eapply Forall_impl; [exact Hk|]. intros x Hx y [Exy _]. by rewrite <- Ek, <- Exy.
Qed.

Lemma same_zop_ok op L L' : same L L' -> zop_ok op L -> zop_ok op L'.
Proof.
  intros H. pose proof (same_scores_same L L' H) as Hs. destruct op as [s e flags|e|e|e rv|[? ?|range|range]|start end_ rv|range o li rv|range o li rv|range|range]; cbn [zop_ok]; tauto.
Qed.
