(* ===== verification/Zzl.v ===== *)
(** * Sorted sets in listpacks (src/t_zset.c, the listpack-backed API)

    A small set is one listpack: each element is followed by its score, an
    integer or its text.  [strtod] and the printer of deps/fpconv are
    parameters; the allocator of listpacks is as in Listpack.v.  Loops along
    the listpack have its length as fuel. *)
From S2P Require Import Prelude Numconv Listpack Skiplist Zset Double.
From Stdlib Require Import ZArith Lia SpecFloat.
From stdpp Require Import prelude list.

#[local] Open Scope Z_scope.

Section read.
  Context (strtod : list Z -> spec_float).

(** [strtod] gets the bytes before the NUL. *)
Definition zzlStrtod (m : list Z) (vstr vlen : Z) : option spec_float :=
  let vlen := if 127 <? vlen then 127 else vlen in
  buf ← load_bytes m vstr vlen; Some (strtod buf).

Definition zzlGetScore (m : list Z) (sptr : Z) : option spec_float :=
  v ← lpGetValue m sptr;
  match v with
  | LStr vstr vlen => zzlStrtod m vstr vlen
  | LInt vlong => Some (Z2d vlong)
  end.

(** [ll2string] into a buffer of [size] bytes. *)
Definition long_text (size : nat) (v : Z) : list Z :=
  let '(len, buf) := ll2string (replicate size 0) v in take (Z.to_nat len) buf.

Definition lpGetObject (m : list Z) (sptr : Z) : option (list Z) :=
  v ← lpGetValue m sptr;
  match v with
  | LStr vstr vlen => load_bytes m vstr vlen
  | LInt vlong => Some (long_text 21 vlong)
  end.

Definition zzlCompareElements (m : list Z) (eptr : Z) (cstr : list Z) : option Z :=
  v ← lpGetValue m eptr;
  vstr ← match v with
         | LStr vstr vlen => load_bytes m vstr vlen
         | LInt vlong => Some (long_text 32 vlong)
         end;
  let vlen := length vstr in
  let clen := length cstr in
  let minlen := if (vlen <? clen)%nat then vlen else clen in
  let cmp := memcmp (take minlen vstr) (take minlen cstr) in
  Some (if cmp =? 0 then wraps 32 (Z.of_nat vlen - Z.of_nat clen) else cmp).

(** [lpLength] may write the count into the header. *)
Definition zzlLength (m : list Z) : option (Z * list Z) :=
  r ← lpLength m; Some (wrapu 32 (r.1 / 2), r.2).

(** ** Moving *)

(** [None] is a failed assertion, the inner option NULL. *)
Definition zzlNext (m : list Z) (sptr : Z) : option (option (Z * Z)) :=
  eptr ← lpNext m sptr;
  match eptr with
  | Some e => s ← lpNext m e; s ← s; Some (Some (e, s))
  | None => Some None
  end.

Definition zzlPrev (m : list Z) (eptr : Z) : option (option (Z * Z)) :=
  sptr ← lpPrev m eptr;
  match sptr with
  | Some s => e ← lpPrev m s; e ← e; Some (Some (e, s))
  | None => Some None
  end.

(** ** Ranges *)

(** The tests of a range on the element at [eptr]. *)
Record lp_range := LpRange {
  z_gte : list Z -> Z -> option bool;
  z_lte : list Z -> Z -> option bool;
  z_inside : list Z -> option bool }.

Definition score_test (test : spec_float -> bool) (m : list Z) (eptr : Z) : option bool :=
  sptr ← lpNext m eptr; sptr ← sptr; s ← zzlGetScore m sptr; Some (test s).

Definition zzlIsInRange (m : list Z) (range : zrangespec) : option bool :=
  if SFltb (r_max range) (r_min range) || (SFeqb (r_min range) (r_max range) && (r_minex range || r_maxex range)) then Some false
  else
    p ← lpSeek m (-1);
    match p with
    | None => Some false
    | Some p =>
        s ← zzlGetScore m p;
        if negb (zslValueGteMin s range) then Some false
        else
          p ← lpSeek m 1; p ← p;
          s ← zzlGetScore m p;
          Some (zslValueLteMax s range)
    end.

Definition zzlLexValueGteMin (m : list Z) (p : Z) (spec : zlexrangespec) : option bool :=
  value ← lpGetObject m p; Some (zslLexValueGteMin value spec).

Definition zzlLexValueLteMax (m : list Z) (p : Z) (spec : zlexrangespec) : option bool :=
  value ← lpGetObject m p; Some (zslLexValueLteMax value spec).

Definition zzlIsInLexRange (m : list Z) (range : zlexrangespec) : option bool :=
  let cmp := sdscmplex (l_min range) (l_max range) in
  if (0 <? cmp) || ((cmp =? 0) && (l_minex range || l_maxex range)) then Some false
  else
    p ← lpSeek m (-2);
    match p with
    | None => Some false
    | Some p =>
        g ← zzlLexValueGteMin m p range;
        if negb g then Some false
        else p ← lpSeek m 0; p ← p; zzlLexValueLteMax m p range
    end.

Definition lp_score_range (range : zrangespec) : lp_range :=
  LpRange (score_test (fun s => zslValueGteMin s range)) (score_test (fun s => zslValueLteMax s range))
    (fun m => zzlIsInRange m range).

Definition lp_lex_range (range : zlexrangespec) : lp_range :=
  LpRange (fun m p => zzlLexValueGteMin m p range) (fun m p => zzlLexValueLteMax m p range)
    (fun m => zzlIsInLexRange m range).

(** The element after this one and its score. *)
Definition next_element (m : list Z) (eptr : Z) : option (option Z) :=
  sptr ← lpNext m eptr; sptr ← sptr; lpNext m sptr.

Definition prev_element (m : list Z) (eptr : Z) : option (option Z) :=
  sptr ← lpPrev m eptr;
  match sptr with
  | Some s => e ← lpPrev m s; e ← e; Some (Some e)
  | None => Some None
  end.

(** From [eptr] with [next] to the first element that passes [enter]; it is
    the result when it passes [stay]. *)
Fixpoint find_in_range (fuel : nat) (m : list Z) (enter stay : list Z -> Z -> option bool)
    (next : list Z -> Z -> option (option Z)) (eptr : option Z) : option (option Z) :=
  match fuel, eptr with
  | _, None => Some None
  | O, Some _ => None
  | S fuel, Some p =>
      g ← enter m p;
      if (g : bool) then l ← stay m p; Some (if (l : bool) then Some p else None)
      else eptr ← next m p; find_in_range fuel m enter stay next eptr
  end.

Definition first_in_range (m : list Z) (range : lp_range) : option (option Z) :=
  eptr ← lpSeek m 0;
  i ← z_inside range m;
  if negb i then Some None else find_in_range (length m) m (z_gte range) (z_lte range) next_element eptr.

Definition last_in_range (m : list Z) (range : lp_range) : option (option Z) :=
  eptr ← lpSeek m (-2);
  i ← z_inside range m;
  if negb i then Some None else find_in_range (length m) m (z_lte range) (z_gte range) prev_element eptr.

Definition zzlFirstInRange m range := first_in_range m (lp_score_range range).
Definition zzlLastInRange m range := last_in_range m (lp_score_range range).
Definition zzlFirstInLexRange m range := first_in_range m (lp_lex_range range).
Definition zzlLastInLexRange m range := last_in_range m (lp_lex_range range).

(** The element and its score. *)
Definition zzlFind (m : list Z) (ele : list Z) : option (option (Z * spec_float)) :=
  p ← lpFirst m;
  match p with
  | None => Some None
  | Some p =>
      e ← lpFind m p ele 1;
      match e with
      | None => Some None
      | Some eptr => sptr ← lpNext m eptr; sptr ← sptr; s ← zzlGetScore m sptr; Some (Some (eptr, s))
      end
  end.
End read.

(** ** Updates *)

Section update.
  Context (strtod : list Z -> spec_float) (fpconv_dtoa : spec_float -> list Z) (usable : Z -> Z) (junk : Z).

(** The block after an update; NULL is not looked for by the callers. *)
Definition not_null (r : option (option (list Z * option Z))) : option (list Z * option Z) := r ← r; r.

Definition zzlDelete (m : list Z) (eptr : Z) : option (list Z) :=
  r ← lpDeleteRangeWithEntry usable junk m eptr 2; Some r.1.

Definition zzlInsertAt (m : list Z) (eptr : option Z) (ele : list Z) (score : spec_float) : option (list Z) :=
  let lscore := double2ll score in
  match eptr with
  | None =>
      r ← not_null (lpAppend usable junk m ele);
      r ← not_null match lscore with
                | Some l => lpAppendInteger usable junk r.1 l
                | None => lpAppend usable junk r.1 (d2string fpconv_dtoa score)
                end;
      Some r.1
  | Some eptr =>
      r ← not_null (lpInsertString usable junk m ele eptr LP_BEFORE);
      sptr ← r.2;
      r ← not_null match lscore with
                | Some l => lpInsertInteger usable junk r.1 l sptr LP_AFTER
                | None => lpInsertString usable junk r.1 (d2string fpconv_dtoa score) sptr LP_AFTER
                end;
      Some r.1
  end.

Fixpoint insert_loop (fuel : nat) (m : list Z) (ele : list Z) (score : spec_float) (eptr : option Z) : option (list Z) :=
  match fuel, eptr with
  | _, None => zzlInsertAt m None ele score
  | O, Some _ => None
  | S fuel, Some p =>
      sptr ← lpNext m p; sptr ← sptr;
      s ← zzlGetScore strtod m sptr;
      if SFltb score s then zzlInsertAt m (Some p) ele score
      else
        larger ← (if SFeqb s score then c ← zzlCompareElements m p ele; Some (0 <? c) else Some false);
        if (larger : bool) then zzlInsertAt m (Some p) ele score
        else eptr ← lpNext m sptr; insert_loop fuel m ele score eptr
  end.

Definition zzlInsert (m : list Z) (ele : list Z) (score : spec_float) : option (list Z) :=
  eptr ← lpSeek m 0; insert_loop (length m) m ele score eptr.

(** The elements from [eptr] are deleted while they pass [lte]. *)
Fixpoint delete_loop (fuel : nat) (m : list Z) (lte : list Z -> Z -> option bool) (eptr : option Z) (num : Z) :
    option (list Z * Z) :=
  match fuel, eptr with
  | _, None => Some (m, num)
  | O, Some _ => None
  | S fuel, Some p =>
      sptr ← lpNext m p;
      match sptr with
      | None => Some (m, num)
      | Some _ =>
          l ← lte m p;
          if (l : bool) then
            r ← lpDeleteRangeWithEntry usable junk m p 2;
            delete_loop fuel r.1 lte r.2 (wrapu 64 (num + 1))
          else Some (m, num)
      end
  end.

Definition delete_lp_range (m : list Z) (range : lp_range) : option (list Z * Z) :=
  eptr ← first_in_range m range; delete_loop (length m) m (z_lte range) eptr 0.

Definition zzlDeleteRangeByScore m range := delete_lp_range m (lp_score_range strtod range).
Definition zzlDeleteRangeByLex m range := delete_lp_range m (lp_lex_range range).

(** The ranks are [unsigned int]. *)
Definition zzlDeleteRangeByRank (m : list Z) (start end_ : Z) : option (list Z * Z) :=
  let num := wrapu 32 (end_ - start + 1) in
  m ← lpDeleteRange usable junk m (wrapu 32 (2 * (start - 1))) (wrapu 32 (2 * num));
  Some (m, num).
End update.
