(* ===== verification/ZsetObj.v ===== *)
(** * Sorted set objects (src/t_zset.c, the common API)

    An object is a listpack or a skiplist with its dict, and changes from the
    first to the second when it grows.  Each call carries the resize policy of
    dicts and, for its [k]-th insertion into a skiplist, the numbers [draws k]
    that [random] returns.  The limits of the configuration, the allocators,
    [strtod] and the printer of deps/fpconv are parameters. *)
From S2P Require Import Prelude Dict Listpack Skiplist Zset Double Zzl.
From Stdlib Require Import ZArith Lia SpecFloat.
From stdpp Require Import prelude list gmap.

#[local] Open Scope Z_scope.

Inductive zobj := Zlistpack (m : list Z) | Zskiplist (zs : zset).

Section zobj.
  Context (strtod : list Z -> spec_float) (fpconv_dtoa : spec_float -> list Z) (usable : Z -> Z) (lpjunk : Z).
  Context (zmalloc : zheap -> nat) (junk : nat -> option nat * (option nat * Z)) (ty : dictType sds).
  Context (zset_max_listpack_entries zset_max_listpack_value : Z).

(** Counting a listpack may write its header. *)
Definition zsetLength (o : zobj) : option (Z * zobj) :=
  match o with
  | Zlistpack m => r ← zzlLength m; Some (r.1, Zlistpack r.2)
  | Zskiplist zs => Some (zsl_length (zs_zsl zs), o)
  end.

Definition createZsetListpackObject : option zobj := m ← lpNew usable lpjunk 0; Some (Zlistpack m).

Definition zsetTypeCreate (cr : dictResizeEnable) (size_hint val_len_hint : Z) : option zobj :=
  if (size_hint <=? zset_max_listpack_entries) && (val_len_hint <=? zset_max_listpack_value) then createZsetListpackObject
  else
    let zs := createZset zmalloc junk in
    r ← dictExpand cr ty (zs_dict zs) size_hint;
    Some (Zskiplist (Zset r.1 (zs_zsl zs) (zs_heap zs))).

(** ** Positions in a listpack *)

(** A position of the loops: the element and its score. *)
Abbreviation lp_pos := (option (Z * option Z)).

Definition at_element (m : list Z) (eptr : option Z) : option lp_pos :=
  match eptr with
  | None => Some None
  | Some e => s ← lpNext m e; Some (Some (e, s))
  end.

Definition to_pos (r : option (Z * Z)) : lp_pos := match r with Some q => Some (q.1, Some q.2) | None => None end.

Definition lp_move (reverse : bool) (m : list Z) (p : Z * option Z) : option lp_pos :=
  sptr ← p.2;
  r ← (if reverse then zzlPrev m p.1 else zzlNext m sptr);
  Some (to_pos r).

Definition lp_score (m : list Z) (p : Z * option Z) : option spec_float := s ← p.2; zzlGetScore strtod m s.

(** ** Conversion *)

(** A new element of a skiplist and its dict. *)
Definition insert_new (cr : dictResizeEnable) (draws : list Z) (zs : zset) (score : spec_float) (ele : sds) : option (zset * bool) :=
  u ← zslInsert zmalloc junk draws (zs_heap zs) (zs_zsl zs) score ele;
  let '(h, zsl, node) := u in
  a ← dictAdd cr ty (zs_dict zs) ele node;
  Some (Zset a.1 zsl h, a.2).

Fixpoint convert_loop (fuel : nat) (cr : dictResizeEnable) (draws : nat -> list Z) (m : list Z) (p : lp_pos) (k : nat) (zs : zset) :
    option (zset * nat) :=
  match fuel, p with
  | _, None => Some (zs, k)
  | O, Some _ => None
  | S fuel, Some q =>
      score ← lp_score m q;
      ele ← lpGetObject m q.1;
      a ← insert_new cr (draws k) zs score ele;
      if negb a.2 then None
      else p ← lp_move false m q; convert_loop fuel cr draws m p (S k) a.1
  end.

(** The set and the number of insertions made. *)
Definition convert_to_skiplist (cr : dictResizeEnable) (draws : nat -> list Z) (m : list Z) (cap : Z) : option (zset * nat) :=
  let zs := createZset zmalloc junk in
  r ← dictExpand cr ty (zs_dict zs) cap;
  eptr ← lpSeek m 0;
  p ← at_element m eptr;
  convert_loop (length m) cr draws m p 0 (Zset r.1 (zs_zsl zs) (zs_heap zs)).

(** Each node is freed after its element was copied. *)
Fixpoint listpack_loop (fuel : nat) (m : list Z) (h : zheap) (node : option nat) : option (list Z) :=
  match fuel, node with
  | _, None => Some m
  | O, Some _ => None
  | S fuel, Some x =>
      n ← h !! x;
      e ← ele n;
      m ← zzlInsertAt fpconv_dtoa usable lpjunk m None e (score n);
      l ← level n !! 0%nat;
      h ← zslFreeNode h x;
      listpack_loop fuel m h l.1
  end.

Definition convert_to_listpack (zs : zset) : option (list Z) :=
  m ← lpNew usable lpjunk 0;
  l ← lev (zs_heap zs) (zsl_header (zs_zsl zs)) 0;
  let h := delete (zsl_header (zs_zsl zs)) (zs_heap zs) in
  listpack_loop (size h) m h l.1.

Inductive zencoding := OBJ_ENCODING_LISTPACK | OBJ_ENCODING_SKIPLIST.

Definition zsetConvertAndExpand (cr : dictResizeEnable) (draws : nat -> list Z) (o : zobj) (encoding : zencoding) (cap : Z) :
    option (zobj * nat) :=
  match o, encoding with
  | Zlistpack m, OBJ_ENCODING_SKIPLIST => r ← convert_to_skiplist cr draws m cap; Some (Zskiplist r.1, r.2)
  | Zskiplist zs, OBJ_ENCODING_LISTPACK => m ← convert_to_listpack zs; Some (Zlistpack m, 0%nat)
  | _, _ => Some (o, 0%nat)
  end.

Definition zsetConvert (cr : dictResizeEnable) (draws : nat -> list Z) (o : zobj) (encoding : zencoding) : option (zobj * nat) :=
  r ← zsetLength o; zsetConvertAndExpand cr draws r.2 encoding r.1.

Definition zsetTypeMaybeConvert (cr : dictResizeEnable) (draws : nat -> list Z) (o : zobj) (size_hint value_len_hint : Z) :
    option (zobj * nat) :=
  match o with
  | Zlistpack _ =>
      if (zset_max_listpack_entries <? size_hint) || (zset_max_listpack_value <? value_len_hint)
      then zsetConvertAndExpand cr draws o OBJ_ENCODING_SKIPLIST size_hint
      else Some (o, 0%nat)
  | Zskiplist _ => Some (o, 0%nat)
  end.

Definition zsetConvertToListpackIfNeeded (cr : dictResizeEnable) (draws : nat -> list Z) (o : zobj) (maxelelen totelelen : Z) :
    option zobj :=
  match o with
  | Zlistpack _ => Some o
  | Zskiplist zs =>
      safe ← lpSafeToAdd None totelelen;
      if (zsl_length (zs_zsl zs) <=? zset_max_listpack_entries) && (maxelelen <=? zset_max_listpack_value) && safe
      then r ← zsetConvert cr draws o OBJ_ENCODING_LISTPACK; Some r.1
      else Some o
  end.

(** ** Elements *)

Definition zsetScore (cr : dictResizeEnable) (o : zobj) (member : sds) : option (zobj * option spec_float) :=
  match o with
  | Zlistpack m => r ← zzlFind strtod m member; Some (o, option_map snd r)
  | Zskiplist zs => r ← zsetScore_skiplist ty cr zs member; Some (Zskiplist r.1, r.2)
  end.

(** The part of [zsetAdd] for the listpack: the result, or the object to go on
    with as a skiplist and the number of insertions made. *)
Definition zsetAdd_listpack (cr : dictResizeEnable) (draws : nat -> list Z) (m : list Z) (score : spec_float) (ele : sds)
    (o : zadd_options) : option ((zobj * zadd_result) + (zobj * nat)) :=
  let zobj := Zlistpack m in
  f ← zzlFind strtod m ele;
  match f with
  | Some (eptr, curscore) =>
      if opt_nx o then Some (inl (zobj, ZaddResult true ZADD_OUT_NOP None))
      else
        let score := if opt_incr o then dadd score curscore else score in
        if opt_incr o && isnan score then Some (inl (zobj, ZaddResult false ZADD_OUT_NAN None))
        else if (opt_lt o && SFleb curscore score) || (opt_gt o && SFleb score curscore)
        then Some (inl (zobj, ZaddResult true ZADD_OUT_NOP None))
        else if negb (SFeqb score curscore) then
          m ← zzlDelete usable lpjunk m eptr;
          m ← zzlInsert strtod fpconv_dtoa usable lpjunk m ele score;
          Some (inl (Zlistpack m, ZaddResult true ZADD_OUT_UPDATED (Some score)))
        else Some (inl (zobj, ZaddResult true 0 (Some score)))
  | None =>
      if negb (opt_xx o) then
        r ← zzlLength m;
        let m := r.2 in
        safe ← lpSafeToAdd (Some m) (Z.of_nat (length ele));
        if (zset_max_listpack_entries <? wrapu 32 (r.1 + 1)) || (zset_max_listpack_value <? Z.of_nat (length ele)) || negb safe
        then
          l ← zsetLength (Zlistpack m);
          c ← zsetConvertAndExpand cr draws l.2 OBJ_ENCODING_SKIPLIST (l.1 + 1);
          Some (inr c)
        else
          m ← zzlInsert strtod fpconv_dtoa usable lpjunk m ele score;
          Some (inl (Zlistpack m, ZaddResult true ZADD_OUT_ADDED (Some score)))
      else Some (inl (zobj, ZaddResult true ZADD_OUT_NOP None))
  end.

Definition zsetAdd (cr : dictResizeEnable) (draws : nat -> list Z) (o : zobj) (score : spec_float) (ele : sds) (in_flags : Z) :
    option (zobj * zadd_result) :=
  let opts := options in_flags in
  if isnan score then Some (o, ZaddResult false ZADD_OUT_NAN None)
  else
    r ← match o with
        | Zlistpack m => zsetAdd_listpack cr draws m score ele opts
        | Zskiplist _ => Some (inr (o, 0%nat))
        end;
    match r with
    | inl r => Some r
    | inr (Zskiplist zs, k) =>
        r ← zsetAdd_skiplist zmalloc junk ty cr (draws k) zs score ele opts; Some (Zskiplist r.1, r.2)
    | inr (Zlistpack _, _) => None
    end.

Definition zsetDel (cr : dictResizeEnable) (o : zobj) (ele : sds) : option (zobj * bool) :=
  match o with
  | Zlistpack m =>
      f ← zzlFind strtod m ele;
      match f with
      | Some (eptr, _) => m ← zzlDelete usable lpjunk m eptr; Some (Zlistpack m, true)
      | None => Some (o, false)
      end
  | Zskiplist zs => r ← zsetRemoveFromSkiplist ty cr zs ele; Some (Zskiplist r.1, r.2)
  end.

Fixpoint rank_loop (fuel : nat) (m : list Z) (ele : sds) (p : lp_pos) (rank : Z) : option (lp_pos * Z) :=
  match fuel, p with
  | _, None => Some (None, rank)
  | O, Some _ => None
  | S fuel, Some q =>
      same ← lpCompare m q.1 ele;
      if (same : bool) then Some (p, rank) else p ← lp_move false m q; rank_loop fuel m ele p (wrapu 64 (rank + 1))
  end.

Definition zsetRank (cr : dictResizeEnable) (o : zobj) (ele : sds) (reverse : bool) : option (zobj * Z * option spec_float) :=
  l ← zsetLength o;
  let '(llen, o) := l in
  match o with
  | Zlistpack m =>
      eptr ← lpSeek m 0; eptr ← eptr;
      sptr ← lpNext m eptr; sptr ← sptr;
      r ← rank_loop (length m) m ele (Some (eptr, Some sptr)) 1;
      match r.1 with
      | Some q => s ← lp_score m q; Some (o, wraps 64 (if reverse then llen - r.2 else r.2 - 1), Some s)
      | None => Some (o, -1, None)
      end
  | Zskiplist zs => r ← zsetRank_skiplist ty cr zs ele reverse; Some (Zskiplist r.1.1, r.1.2, r.2)
  end.

(** A copy; from the greatest element down. *)
Fixpoint dup_loop (fuel : nat) (cr : dictResizeEnable) (draws : nat -> list Z) (h : zheap) (ln : option nat) (k : nat) (zs : zset) : option zset :=
  match fuel with
  | O => Some zs
  | S fuel =>
      x ← ln;
      n ← h !! x;
      e ← ele n;
      a ← insert_new cr (draws k) zs (score n) e;
      dup_loop fuel cr draws h (backward n) (S k) a.1
  end.

Definition zsetDup (cr : dictResizeEnable) (draws : nat -> list Z) (o : zobj) : option zobj :=
  match o with
  | Zlistpack m => sz ← lpBytes m; m ← load_bytes m 0 sz; Some (Zlistpack m)
  | Zskiplist zs =>
      let new := createZset zmalloc junk in
      r ← dictExpand cr ty (zs_dict new) (dictSize (zs_dict zs));
      zs ← dup_loop (Z.to_nat (wraps 64 (zsl_length (zs_zsl zs)))) cr draws (zs_heap zs) (zsl_tail (zs_zsl zs)) 0
             (Zset r.1 (zs_zsl new) (zs_heap new));
      Some (Zskiplist zs)
  end.

(** ** Ranges *)

(** The object, the number of deleted elements and whether the key goes. *)
Definition zremrange (cr : dictResizeEnable) (o : zobj) (range : zrange) : option (zobj * Z * bool) :=
  match o with
  | Zlistpack m =>
      r ← match range with
          | RANK start end_ => zzlDeleteRangeByRank usable lpjunk m (wrapu 32 (start + 1)) (wrapu 32 (end_ + 1))
          | SCORE range => zzlDeleteRangeByScore strtod usable lpjunk m range
          | LEX range => zzlDeleteRangeByLex usable lpjunk m range
          end;
      l ← zzlLength r.1;
      Some (Zlistpack l.2, r.2, l.1 =? 0)
  | Zskiplist zs => r ← zremrange_skiplist ty cr zs range; Some (Zskiplist r.1.1, r.1.2, r.2)
  end.

(** The indexes are adjusted before. *)
Definition zremrangeByRank (cr : dictResizeEnable) (o : zobj) (start end_ : Z) : option (zobj * Z * bool) :=
  l ← zsetLength o;
  match sanitize l.1 start end_ with
  | None => Some (l.2, 0, false)
  | Some (start, end_) => zremrange cr l.2 (RANK start end_)
  end.

(** [rangelen] elements are emitted. *)
Fixpoint lp_emit (rangelen : nat) (m : list Z) (reverse : bool) (p : lp_pos) : option (list (sds * spec_float)) :=
  match rangelen with
  | O => Some []
  | S rangelen =>
      q ← p;
      e ← lpGetObject m q.1;
      s ← lp_score m q;
      p ← lp_move reverse m q;
      rest ← lp_emit rangelen m reverse p;
      Some ((e, s) :: rest)
  end.

Definition genericZrangebyrank (o : zobj) (start end_ : Z) (reverse : bool) : option (zobj * list (sds * spec_float)) :=
  l ← zsetLength o;
  let '(llen, o) := l in
  match o with
  | Zlistpack m =>
      match sanitize llen start end_ with
      | None => Some (o, [])
      | Some (start, end_) =>
          eptr ← lpSeek m (if reverse then -2 - 2 * start else 2 * start);
          eptr ← eptr;
          sptr ← lpNext m eptr;
          l ← lp_emit (Z.to_nat (end_ - start + 1)) m reverse (Some (eptr, sptr));
          Some (o, l)
      end
  | Zskiplist zs => l ← zrangebyrank_skiplist zs start end_ reverse; Some (o, l)
  end.

(** The loop that passes over [offset] elements. *)
Fixpoint lp_skip (fuel : nat) (m : list Z) (reverse : bool) (offset : Z) (p : lp_pos) : option lp_pos :=
  match p with
  | None => Some None
  | Some q =>
      if offset =? 0 then Some p
      else
        match fuel with
        | O => None
        | S fuel => p ← lp_move reverse m q; lp_skip fuel m reverse (wraps 64 (offset - 1)) p
        end
  end.

(** Elements are emitted while they pass the test and [limit] allows it. *)
Fixpoint lp_emit_range (fuel : nat) (m : list Z) (test : list Z -> Z -> option bool) (reverse : bool) (limit : Z) (p : lp_pos) :
    option (list (sds * spec_float)) :=
  match p with
  | None => Some []
  | Some q =>
      if limit =? 0 then Some []
      else
        match fuel with
        | O => None
        | S fuel =>
            s ← lp_score m q;
            t ← test m q.1;
            if (t : bool) then
              e ← lpGetObject m q.1;
              p ← lp_move reverse m q;
              rest ← lp_emit_range fuel m test reverse (wraps 64 (limit - 1)) p;
              Some ((e, s) :: rest)
            else Some []
        end
  end.

(** By score or lexicographically. *)
Definition zrangeby_listpack (m : list Z) (range : lp_range) (offset limit : Z) (reverse : bool) : option (list (sds * spec_float)) :=
  eptr ← (if reverse then last_in_range m range else first_in_range m range);
  p ← at_element m eptr;
  p ← lp_skip (length m) m reverse offset p;
  lp_emit_range (length m) m (if reverse then z_gte range else z_lte range) reverse limit p.

Definition genericZrangebyscore (o : zobj) (range : zrangespec) (offset limit : Z) (reverse : bool) :
    option (zobj * list (sds * spec_float)) :=
  l ← (if 0 <? offset then zsetLength o else Some (0, o));
  let '(llen, o) := l in
  if (0 <? offset) && (wraps 64 llen <=? offset) then Some (o, [])
  else
    match o with
    | Zlistpack m => l ← zrangeby_listpack m (lp_score_range strtod range) offset limit reverse; Some (o, l)
    | Zskiplist zs => l ← zrangeby_skiplist zs (score_range range) offset limit reverse; Some (o, l)
    end.

Definition genericZrangebylex (o : zobj) (range : zlexrangespec) (offset limit : Z) (reverse : bool) :
    option (zobj * list (sds * spec_float)) :=
  match o with
  | Zlistpack m => l ← zrangeby_listpack m (lp_lex_range range) offset limit reverse; Some (o, l)
  | Zskiplist zs => l ← zrangebylex_skiplist zs range offset limit reverse; Some (o, l)
  end.

Fixpoint count_loop (fuel : nat) (m : list Z) (lte : list Z -> Z -> option bool) (p : lp_pos) (count : Z) : option Z :=
  match fuel, p with
  | _, None => Some count
  | O, Some _ => None
  | S fuel, Some q =>
      t ← lte m q.1;
      if negb t then Some count else p ← lp_move false m q; count_loop fuel m lte p (wrapu 64 (count + 1))
  end.

Definition count_listpack (m : list Z) (range : lp_range) : option Z :=
  eptr ← first_in_range m range;
  match eptr with
  | None => Some 0
  | Some e =>
      sptr ← lpNext m e;
      t ← z_lte range m e;
      if negb t then None else count_loop (length m) m (z_lte range) (Some (e, sptr)) 0
  end.

Definition zcount (o : zobj) (range : zrangespec) : option Z :=
  match o with
  | Zlistpack m => count_listpack m (lp_score_range strtod range)
  | Zskiplist zs => zcount_skiplist zs range
  end.

Definition zlexcount (o : zobj) (range : zlexrangespec) : option Z :=
  match o with
  | Zlistpack m => count_listpack m (lp_lex_range range)
  | Zskiplist zs => zlexcount_skiplist zs range
  end.
End zobj.
