(* ===== verification/ZzlSpec.v ===== *)
(** * Sorted sets in listpacks: entries and moving between them

    The listpack of a set holds, for each element, the element and the value
    of its score; [vals] are the entries of a list of such pairs. *)
From S2P Require Import Prelude Numconv NumconvSpec Skiplist SkiplistSpec Zset ZsetSpec Double Zzl.
From S2P Require Import Listpack ListpackSpec ListpackNav ListpackFind ListpackOps ListpackRange.
From Stdlib Require Import ZArith Lia SpecFloat.
From stdpp Require Import prelude list.

#[local] Open Scope Z_scope.

Record zent := Zent { z_ele : sds; z_val : lpv }.

Definition pair_vals (z : zent) : list lpv := [value_of (z_ele z); z_val z].
Definition vals (E : list zent) : list lpv := concat (pair_vals <$> E).

Lemma vals_app E1 E2 : vals (E1 ++ E2) = vals E1 ++ vals E2.
Proof. unfold vals. by rewrite fmap_app, concat_app. Qed.

Lemma vals_cons z E : vals (z :: E) = value_of (z_ele z) :: z_val z :: vals E.
Proof. done. Qed.

Lemma length_vals E : length (vals E) = (2 * length E)%nat.
Proof. induction E as [|z E IH]; [done|]. rewrite vals_cons. cbn [length]. lia. Qed.

Lemma vals_split E i z : E !! i = Some z ->
  vals E = vals (take i E) ++ value_of (z_ele z) :: z_val z :: vals (drop (S i) E).
Proof. intros Hz. rewrite <- (take_drop_middle E i z Hz) at 1. by rewrite vals_app. Qed.

Lemma vals_take i E : take (2 * i) (vals E) = vals (take i E).
Proof.
  rewrite <- (take_drop i E) at 1. rewrite vals_app. destruct (decide (i <= length E)%nat).
  - rewrite take_app_length' by (rewrite length_vals, length_take; lia). done.
  - rewrite (drop_ge E), (take_ge E) by lia. change (vals []) with (@nil lpv). rewrite app_nil_r. apply take_ge. rewrite length_vals. lia.
Qed.

Lemma vals_drop i E : drop (2 * i) (vals E) = vals (drop i E).
Proof.
  rewrite <- (take_drop i E) at 1. rewrite vals_app. destruct (decide (i <= length E)%nat).
  - rewrite drop_app_length' by (rewrite length_vals, length_take; lia). done.
  - rewrite (drop_ge E), (take_ge E) by lia. change (vals []) with (@nil lpv). rewrite app_nil_r. apply drop_ge. rewrite length_vals. lia.
Qed.

(** The start of a string in the block. *)
Lemma load_bytes_prefix m p n k s : load_bytes m p n = Some s -> 0 <= k <= n -> load_bytes m p k = Some (take (Z.to_nat k) s).
Proof.
  unfold load_bytes. destruct (inside m p n) eqn:Ei; [|done]. intros [= <-] Hk. unfold inside in Ei.
  rewrite !andb_true_iff, !Z.leb_le in Ei. rewrite inside_true by lia. f_equal. unfold mem_read. rewrite take_take. f_equal. lia.
Qed.

(** ** Reading values *)

Section values.
  Context (strtod : list Z -> spec_float).

Definition get_score (w : lpv) : spec_float := match w with VI v => Z2d v | VS s => strtod (take 127 s) end.
Definition z_key (z : zent) : key := (get_score (z_val z), z_ele z).

Section at_entry.
  Context (m : list Z) (vs : list lpv) (Hrep : rep m vs).

Lemma next_at a v b : vs = a ++ v :: b -> lpNext m (off a) = Some (ptr_at (a ++ [v]) b).
Proof using Hrep. destruct Hrep as (Hwf & Ht & num & slack & Hc & ->). by apply lpNext_at. Qed.

Lemma prev_at a v b : vs = a ++ v :: b -> lpPrev m (off (a ++ [v])) = Some (Some (off a)).
Proof using Hrep. destruct Hrep as (Hwf & Ht & num & slack & Hc & ->). by apply lpPrev_at. Qed.

Lemma lpGetValue_at a v b : vs = a ++ v :: b -> exists r, lpGetValue m (off a) = Some r /\ value_at m v r /\ wf_lpv v.
Proof using Hrep.
  destruct Hrep as (Hwf & Ht & num & slack & Hc & ->). intros E. destruct (get_at num vs slack Hwf a v b E) as (r & Hg & Hv).
  pose proof (wf_at vs Hwf a v b E) as Hw. unfold lpGetValue, lpGet. rewrite Hg. mstep. cbn [fst]. eexists. split; [done|]. split; [|done].
  destruct v as [v|s], r as [ptr len|val]; try done. cbn [value_at wf_lpv] in *. rewrite wrapu_id; [done|]. unfold fits_u. lia.
Qed.

Lemma long_text_spec size v : fits_s 64 v -> (21 <= size)%nat -> long_text size v = decimal_signed v.
Proof using.
  intros Hv Hs. pose proof (decimal_signed_length v Hv) as Hl. unfold LONG_STR_SIZE in Hl. unfold long_text.
  rewrite ll2string_spec by (done || rewrite length_replicate; lia). by rewrite Nat2Z.id, take_app_length.
Qed.

Lemma text_at a v b : vs = a ++ v :: b -> lpGetObject m (off a) = Some (text v).
Proof using Hrep.
  intros E. destruct (lpGetValue_at a v b E) as (r & Hg & Hv & Hw). unfold lpGetObject. rewrite Hg. mstep.
  destruct v as [v|s], r as [ptr len|val]; try done; cbn [value_at text wf_lpv] in *.
  - subst val. by rewrite long_text_spec by (done || lia).
  - by destruct Hv as [-> ->].
Qed.

Lemma score_at_value a v b : vs = a ++ v :: b -> zzlGetScore strtod m (off a) = Some (get_score v).
Proof using Hrep.
  intros E. destruct (lpGetValue_at a v b E) as (r & Hg & Hv & Hw). unfold zzlGetScore. rewrite Hg. mstep.
  destruct v as [v|s], r as [ptr len|val]; try done; cbn [value_at get_score] in *; [by rewrite Hv|].
  destruct Hv as [-> Hl]. unfold zzlStrtod. destruct (Z.ltb_spec 127 (zlen s)).
  - by rewrite (load_bytes_prefix _ _ _ 127 _ Hl) by lia.
  - rewrite Hl. mstep. by rewrite take_ge by lia.
Qed.
End at_entry.

(** ** Moving between elements *)

Section moving.
  Context (m : list Z) (E : list zent) (Hrep : rep m (vals E)).

(** Where the element at [i] and its score are. *)
Definition eoff (i : nat) : Z := off (vals (take i E)).
Definition soff (i : nat) : Z := match E !! i with Some z => off (vals (take i E) ++ [value_of (z_ele z)]) | None => 0 end.
Definition eptr (i : nat) : option Z := if decide (i < length E)%nat then Some (eoff i) else None.

Lemma eptr_some i z : E !! i = Some z -> eptr i = Some (eoff i).
Proof using. intros Hz. unfold eptr. apply lookup_lt_Some in Hz. by rewrite decide_True. Qed.

Lemma ptr_at_eptr i : ptr_at (vals (take i E)) (vals (drop i E)) = eptr i.
Proof using.
  unfold eptr, eoff. destruct (drop i E) as [|z E'] eqn:Ed.
  - assert (length E <= i)%nat by (apply (f_equal length) in Ed; rewrite length_drop in Ed; cbn in Ed; lia). by rewrite decide_False by lia.
  - rewrite decide_True; [done|]. apply (f_equal length) in Ed. rewrite length_drop in Ed. cbn in Ed. lia.
Qed.

Lemma take_snoc i z : E !! i = Some z -> vals (take (S i) E) = (vals (take i E) ++ [value_of (z_ele z)]) ++ [z_val z].
Proof using. intros Hz. by rewrite (take_S_r E i z Hz), vals_app, <- app_assoc. Qed.

Lemma ele_next i z : E !! i = Some z -> lpNext m (eoff i) = Some (Some (soff i)).
Proof using Hrep. intros Hz. unfold eoff, soff. by rewrite Hz, (next_at m _ Hrep _ _ _ (vals_split E i z Hz)). Qed.

Lemma score_next i z : E !! i = Some z -> lpNext m (soff i) = Some (eptr (S i)).
Proof using Hrep.
  intros Hz. unfold soff. rewrite Hz, <- ptr_at_eptr, (take_snoc i z Hz). apply (next_at m _ Hrep). rewrite <- app_assoc. by apply vals_split.
Qed.

Lemma ele_prev i z : E !! i = Some z -> lpPrev m (eoff (S i)) = Some (Some (soff i)).
Proof using Hrep.
  intros Hz. unfold eoff, soff. rewrite Hz, (take_snoc i z Hz). apply (prev_at m _ Hrep _ _ (vals (drop (S i) E))). rewrite <- app_assoc.
  by apply vals_split.
Qed.

Lemma ele_prev_first : lpPrev m (eoff 0) = Some None.
Proof using. done. Qed.

Lemma score_prev i z : E !! i = Some z -> lpPrev m (soff i) = Some (Some (eoff i)).
Proof using Hrep. intros Hz. unfold eoff, soff. rewrite Hz. eapply (prev_at m _ Hrep). by apply vals_split. Qed.

Lemma score_at i z : E !! i = Some z -> zzlGetScore strtod m (soff i) = Some (get_score (z_val z)).
Proof using Hrep.
  intros Hz. unfold soff. rewrite Hz. eapply (score_at_value m _ Hrep). rewrite <- app_assoc. by apply vals_split.
Qed.

Lemma object_at i z : E !! i = Some z -> lpGetObject m (eoff i) = Some (z_ele z).
Proof using Hrep. intros Hz. unfold eoff. rewrite (text_at m _ Hrep _ _ _ (vals_split E i z Hz)). by rewrite text_value_of. Qed.

(** Positions by index. *)
Lemma seek_index i z : E !! i = Some z -> off (take (2 * i) (vals E)) = eoff i /\ off (take (2 * i + 1) (vals E)) = soff i.
Proof using.
  intros Hz. unfold eoff, soff. rewrite Hz, <- vals_take. split; [done|]. f_equal. rewrite Nat.add_1_r. apply take_S_r.
  rewrite (vals_split E i z Hz), lookup_app_r; rewrite length_vals, length_take; pose proof (lookup_lt_Some _ _ _ Hz); [|lia].
  by replace (2 * i - 2 * (i `min` length E))%nat with 0%nat by lia.
Qed.

Lemma seek_ele i : lpSeek m (2 * Z.of_nat i) = Some (eptr i).
Proof using Hrep.
  rewrite (rep_seek m _ _ Hrep). unfold seek_result, eptr. destruct (Z.ltb_spec (2 * Z.of_nat i) 0); [lia|].
  destruct (Z.leb_spec 0 (2 * Z.of_nat i)); [|lia]. rewrite length_vals. case_decide as Hi; destruct (Z.ltb_spec (2 * Z.of_nat i) (Z.of_nat (2 * length E))); try lia; [|done].
  destruct (lookup_lt_is_Some_2 E i Hi) as [z Hz]. cbn [andb]. replace (Z.to_nat (2 * Z.of_nat i)) with (2 * i)%nat by lia.
  by rewrite (proj1 (seek_index i z Hz)).
Qed.

Lemma seek_score i z : E !! i = Some z -> lpSeek m (2 * Z.of_nat i + 1) = Some (Some (soff i)).
Proof using Hrep.
  intros Hz. pose proof (lookup_lt_Some _ _ _ Hz). rewrite (rep_seek m _ _ Hrep). unfold seek_result.
  destruct (Z.ltb_spec (2 * Z.of_nat i + 1) 0); [lia|]. destruct (Z.leb_spec 0 (2 * Z.of_nat i + 1)); [|lia].
  rewrite length_vals. destruct (Z.ltb_spec (2 * Z.of_nat i + 1) (Z.of_nat (2 * length E))); [|lia]. cbn [andb].
  replace (Z.to_nat (2 * Z.of_nat i + 1)) with (2 * i + 1)%nat by lia. by rewrite (proj2 (seek_index i z Hz)).
Qed.

(** From the end, a negative index is the one of the length above. *)
Lemma seek_negative k : - 2 * Z.of_nat (length E) <= k < 0 -> lpSeek m k = lpSeek m (2 * Z.of_nat (length E) + k).
Proof using Hrep.
  intros Hk. rewrite !(rep_seek m _ _ Hrep). unfold seek_result. rewrite length_vals. destruct (Z.ltb_spec k 0); [|lia].
  destruct (Z.ltb_spec (2 * Z.of_nat (length E) + k) 0); [lia|]. by replace (Z.of_nat (2 * length E) + k) with (2 * Z.of_nat (length E) + k) by lia.
Qed.

Lemma seek_none k : E = [] -> lpSeek m k = Some None.
Proof using Hrep.
  intros HE. rewrite (rep_seek m _ _ Hrep). unfold seek_result. rewrite HE. change (zlen (vals [])) with 0.
  set (i := if k <? 0 then _ else _). by destruct (Z.leb_spec 0 i), (Z.ltb_spec i 0); try lia.
Qed.

(** There are at least as many bytes as elements. *)
Lemma elements_fuel : (length E <= length m)%nat.
Proof using Hrep.
  destruct Hrep as (Hwf & Ht & num & slack & Hc & ->). pose proof (count_fuel num (vals E) slack Hwf). rewrite length_vals in *. lia.
Qed.
End moving.
End values.
