(* ===== verification/ZzlOps.v ===== *)
(** * Sorted sets in listpacks: scores, searching, inserting and deleting

    What the code relies on of [strtod] and of the printer of deps/fpconv is
    the class [DoubleText].  The score read back is equal to the one stored,
    up to the sign of a zero. *)
From S2P Require Import Prelude Numconv NumconvSpec Skiplist SkiplistSpec SkiplistOrder Zset ZsetSpec Double Zzl.
From S2P Require Import Listpack ListpackSpec ListpackNav ListpackFind ListpackOps ListpackRange ZzlSpec.
From Stdlib Require Import ZArith Lia SpecFloat.
From stdpp Require Import prelude list sorting.

#[local] Open Scope Z_scope.

(** [strtod] reads infinities, integers to the nearest, and what the printer
    of deps/fpconv writes, which has at most 24 bytes. *)
Class DoubleText (strtod : list Z -> spec_float) (fpconv_dtoa : spec_float -> list Z) : Prop := {
  strtod_inf : strtod [105; 110; 102] = S754_infinity false;
  strtod_minus_inf : strtod [45; 105; 110; 102] = S754_infinity true;
  strtod_int v : fits_s 64 v -> strtod (decimal_signed v) = Z2d v;
  strtod_fpconv s m e : is_double (S754_finite s m e) = true -> strtod (fpconv_dtoa (S754_finite s m e)) = S754_finite s m e;
  fpconv_length x : is_double x = true -> (length (fpconv_dtoa x) <= 24)%nat;
  fpconv_bytes x : is_double x = true -> Forall is_byte (fpconv_dtoa x) }.

(** ** Sizes *)

Lemma entry_bound v : wf_lpv v -> zlen (entry v) <= zlen (text v) + 10.
Proof.
  intros Hw. rewrite entry_length. pose proof (backlen_size_bounds (zlen (enc v))) as Hb. destruct v as [v|s]; cbn [text].
  - pose proof (int_enc_length v). cbn [enc] in *. assert (backlen_size (zlen (lpEncodeIntegerGetType v)) = 1) as ->; [|lia].
    unfold backlen_size, lpEncodeBacklen. by destruct (Z.leb_spec (zlen (lpEncodeIntegerGetType v)) 127); [|lia].
  - cbn [enc] in *. rewrite lpEncodeString_length in *. destruct (Z.ltb_spec (zlen s) 64), (Z.ltb_spec (zlen s) 4096); lia.
Qed.

(** The text of a score is short. *)
Definition short (z : zent) : Prop := (length (text (z_val z)) <= 24)%nat.

(** An upper bound of the size of a set's listpack. *)
Definition lp_bound (L : list key) : Z := 7 + Z.of_nat (sum_list_with (fun k : key => length k.2 + 44)%nat L).

Lemma vals_size strtod E : Forall wf_lpv (vals E) -> Forall short E -> lp_total (vals E) <= lp_bound (z_key strtod <$> E).
Proof.
  unfold lp_total, lp_bound. induction E as [|z E IH]; intros Hw Hs; [done|]. rewrite vals_cons in *. rewrite !body_cons, !length_app.
  apply Forall_cons in Hw as [Hw1 Hw]. apply Forall_cons in Hw as [Hw2 Hw]. apply Forall_cons in Hs as [Hs1 Hs]. specialize (IH Hw Hs).
  apply entry_bound in Hw1, Hw2. rewrite text_value_of in Hw1. unfold short in Hs1. rewrite fmap_cons. cbn [sum_list_with z_key snd]. lia.
Qed.

(** ** Scores *)

Section scores.
  Context {strtod : list Z -> spec_float} {fpconv_dtoa : spec_float -> list Z} `{Htext : DoubleText strtod fpconv_dtoa}.

(** The value that stands for a score. *)
Definition score_value (s : spec_float) : lpv :=
  match double2ll s with Some v => VI v | None => value_of (d2string fpconv_dtoa s) end.

Lemma read_text t : (length t <= 24)%nat -> get_score strtod (value_of t) = strtod t.
Proof using Htext.
  intros Ht. unfold value_of. destruct (lpStringToInt64 t) as [v|] eqn:Hv; cbn [get_score].
  - apply lpStringToInt64_spec in Hv as [Hv ->]. by rewrite strtod_int.
  - by rewrite take_ge by lia.
Qed.

Lemma d2string_text s : is_double s = true -> isnan s = false -> double2ll s = None ->
  (length (d2string fpconv_dtoa s) <= 24)%nat /\ Forall is_byte (d2string fpconv_dtoa s) /\ strtod (d2string fpconv_dtoa s) = s.
Proof using Htext.
  intros Hd Hn Hl. destruct (double2ll_none s Hl Hn) as [Hi|(sg & m & e & ->)].
  - destruct s as [| [] | |]; try done; cbn.
    + rewrite strtod_minus_inf. split_and!; [lia| |done]. repeat constructor; unfold is_byte; lia.
    + rewrite strtod_inf. split_and!; [lia| |done]. repeat constructor; unfold is_byte; lia.
  - unfold d2string. cbn [isnan isinf]. assert (SFeqb (S754_finite sg m e) (S754_zero false) = false) as -> by (by destruct sg).
    rewrite Hl. split_and!; [by apply fpconv_length|by apply fpconv_bytes|by apply strtod_fpconv].
Qed.

Lemma score_value_spec s : is_double s = true -> isnan s = false ->
  feq (get_score strtod (score_value s)) s /\ isnan (get_score strtod (score_value s)) = false /\
  is_double (get_score strtod (score_value s)) = true.
Proof using Htext.
  intros Hd Hn. unfold score_value. destruct (double2ll s) as [v|] eqn:Hv.
  - apply double2ll_spec in Hv as [Hf Hv]. cbn [get_score]. split_and!; [done|apply Z2d_num|apply Z2d_double].
  - destruct (d2string_text s Hd Hn Hv) as (Hl & _ & Hs). rewrite read_text, Hs by done. by split_and!.
Qed.

Lemma score_value_short s e : is_double s = true -> isnan s = false -> short (Zent e (score_value s)).
Proof using Htext.
  intros Hd Hn. unfold short, score_value. cbn [z_val]. destruct (double2ll s) as [v|] eqn:Hv.
  - apply double2ll_spec in Hv as [Hf _]. pose proof (decimal_signed_length v Hf) as Hl. unfold LONG_STR_SIZE in Hl. cbn [text]. lia.
  - rewrite text_value_of. by apply d2string_text.
Qed.

(** The argument of [lpInsert] for a score. *)
Definition score_arg (s : spec_float) : lp_ele :=
  match double2ll s with Some v => EInt (lpEncodeIntegerGetType v) | None => EStr (d2string fpconv_dtoa s) end.

Lemma score_arg_is s : is_double s = true -> isnan s = false -> ele_is (score_arg s) [score_value s].
Proof using Htext.
  intros Hd Hn. unfold score_arg, score_value. destruct (double2ll s) as [v|] eqn:Hv.
  - apply double2ll_spec in Hv as [Hf _]. by constructor.
  - destruct (d2string_text s Hd Hn Hv) as (Hl & Hb & _). constructor; [done|lia].
Qed.

(** ** Insertion *)

Context (usable : Z -> Z) (junk : Z) (Husable : forall n, n <= usable n).

Lemma total_mid a v b : lp_total (a ++ b) <= lp_total (a ++ v :: b).
Proof using. unfold lp_total. rewrite !body_app, body_cons, !length_app. lia. Qed.

Lemma updated_fits r vs newp : updated r vs newp -> lp_total vs < 2 ^ 32 -> exists m, not_null r = Some (m, newp) /\ rep m vs.
Proof using.
  unfold updated, UINT32_MAX. intros H Ht. destruct (Z.ltb_spec (2 ^ 32 - 1) (lp_total vs)); [lia|]. destruct H as (m & -> & Hm). by exists m.
Qed.

(** The list after an insertion at [i]. *)
Definition put (i : nat) (z : zent) (E : list zent) : list zent := take i E ++ z :: drop i E.

Lemma put_vals i z E : vals (put i z E) = vals (take i E) ++ value_of (z_ele z) :: z_val z :: vals (drop i E).
Proof using. unfold put. by rewrite vals_app. Qed.

Lemma zzlInsertAt_rep m E i ele score :
  rep m (vals E) -> (i <= length E)%nat -> Forall is_byte ele -> zlen ele < 2 ^ 32 -> is_double score = true -> isnan score = false ->
  lp_total (vals (put i (Zent ele (score_value score)) E)) < 2 ^ 32 ->
  exists m', zzlInsertAt fpconv_dtoa usable junk m (eptr E i) ele score = Some m' /\ rep m' (vals (put i (Zent ele (score_value score)) E)).
Proof using Htext Husable.
  intros Hr Hi Hb Hl Hd Hn Ht. rewrite put_vals in *. cbn [z_ele z_val] in *. pose proof (score_arg_is score Hd Hn) as Hs.
  pose proof (total_mid (vals (take i E) ++ [value_of ele]) (score_value score) (vals (drop i E))) as H1. rewrite <- !app_assoc in H1. cbn [app] in H1.
  assert (lp_total (vals (take i E) ++ value_of ele :: vals (drop i E)) < 2 ^ 32) as H2 by lia. clear H1.
  unfold zzlInsertAt, eptr. destruct (decide (i < length E)%nat) as [Hlt|Hge].
  - destruct (updated_fits _ _ _ (insert_before usable junk Husable m (vals (take i E)) (value_of ele) (vals (drop i E)) (EStr ele) ltac:(by rewrite <- vals_app, take_drop)
      (ele_str ele Hb Hl)) H2) as (m1 & E1 & R1).
    unfold lpInsertString, eoff. rewrite E1. mstep. cbn [fst snd]. mstep.
    destruct (updated_fits _ _ _ (insert_after usable junk Husable m1 (vals (take i E)) _ (score_value score) (vals (drop i E)) (score_arg score) R1 Hs) Ht) as (m2 & E2 & R2).
    exists m2. split; [|done]. unfold score_arg, lpInsertInteger in *. destruct (double2ll score); by rewrite E2.
  - rewrite (drop_ge E), (take_ge E) in * by lia. change (vals []) with (@nil lpv) in *.
    destruct (updated_fits _ _ _ (insert_end usable junk Husable m (vals E) (value_of ele) (EStr ele) Hr (ele_str ele Hb Hl)) H2) as (m1 & E1 & R1).
    unfold lpAppend. rewrite (rep_total _ _ Hr). mstep. rewrite E1. mstep. cbn [fst snd].
    destruct (updated_fits _ _ _ (insert_end usable junk Husable m1 _ (score_value score) (score_arg score) R1 Hs)) as (m2 & E2 & R2); [by rewrite <- app_assoc|].
    rewrite <- app_assoc in R2. exists m2. split; [|done]. unfold score_arg, lpAppendInteger, lpInsertInteger in *. rewrite (rep_total _ _ R1).
    destruct (double2ll score); mstep; by rewrite E2.
Qed.

(** The comparison has the sign of the one of strings. *)
Lemma zzlCompareElements_at m E i z ele :
  rep m (vals E) -> E !! i = Some z -> zlen (z_ele z) < 2 ^ 31 -> zlen ele < 2 ^ 31 ->
  exists c, zzlCompareElements m (eoff E i) ele = Some c /\ (0 <? c) = (0 <? sdscmp (z_ele z) ele).
Proof using.
  intros Hr Hz H1 H2. pose proof (vals_split E i z Hz) as Es. unfold zzlCompareElements, eoff.
  assert (exists v, lpGetValue m (off (vals (take i E))) = Some v /\
    match v with LStr vstr vlen => load_bytes m vstr vlen | LInt vlong => Some (long_text 32 vlong) end = Some (z_ele z)) as (v & -> & Hv).
  { destruct (lpGetValue_at m _ Hr _ _ _ Es) as (v & Hg & Hv & Hw). exists v. split; [done|]. rewrite <- (text_value_of (z_ele z)).
    destruct (value_of (z_ele z)) as [x|t], v as [ptr len|val]; try done; cbn [value_at text wf_lpv] in *.
    - subst val. by rewrite long_text_spec by (done || lia).
    - by destruct Hv as [-> ->]. }
  mstep. rewrite Hv. mstep. eexists. split; [done|]. unfold sdscmp. set (c := memcmp _ _). destruct (Z.eqb_spec c 0); [|done].
  rewrite wraps_id by (unfold fits_s; lia). destruct (Nat.ltb_spec (length ele) (length (z_ele z))), (Nat.ltb_spec (length (z_ele z)) (length ele)),
    (Z.ltb_spec 0 (zlen (z_ele z) - zlen ele)); try lia; done.
Qed.

Section insertion.
  Context (m : list Z) (E : list zent) (ele : sds) (score : spec_float).
  Context (Hr : rep m (vals E)) (Hb : Forall is_byte ele) (Hl : zlen ele < 2 ^ 31) (Hd : is_double score = true) (Hn : isnan score = false).
  Context (Hlen : Forall (fun z => zlen (z_ele z) < 2 ^ 31) E) (Hnum : Forall (fun z => isnan (z_key strtod z).1 = false) E).
  Context (Hno : forall z, z ∈ E -> ~ keq (z_key strtod z) (score, ele)).

(** Where the loop inserts. *)
Definition place (i : nat) : nat := (i + plen (fun z => bool_decide (klt (z_key strtod z) (score, ele))) (drop i E))%nat.

(** One turn of the loop. *)
Lemma insert_turn i z : E !! i = Some z ->
  exists s b, zzlGetScore strtod m (soff E i) = Some s /\
    (if SFltb score s then Some true
     else if SFeqb s score then c ← zzlCompareElements m (eoff E i) ele; Some (0 <? c) else Some false) = Some b /\
    b = negb (bool_decide (klt (z_key strtod z) (score, ele))).
Proof using Hr Hl Hn Hlen Hnum Hno.
  intros Hz. rewrite (score_at strtod m E Hr i z Hz). exists (get_score strtod (z_val z)). rewrite Forall_forall in Hlen, Hnum. pose proof (list_elem_of_lookup_2 _ _ _ Hz) as Hin.
  specialize (Hno z Hin). specialize (Hnum z Hin). specialize (Hlen z Hin). set (s := get_score strtod (z_val z)). cbn [z_key fst] in Hnum. fold s in Hnum.
  destruct (zzlCompareElements_at m E i z ele Hr Hz Hlen Hl) as (c & -> & Hc). mstep. rewrite Hc, sdscmp_lexcmp.
  pose proof (klt_total (z_key strtod z) (score, ele)) as Ht. unfold klt, keq in *. cbn [z_key fst snd] in *. fold s in Ht, Hno |- *.
  pose proof (SFltb_flt score s Hn Hnum) as H1. pose proof (SFeqb_feq s score Hnum Hn) as H2.
  destruct (SFltb score s) eqn:E1.
  - exists true. split_and!; [done|done|]. rewrite bool_decide_eq_false_2; [done|]. assert (flt score s) as F by (by apply H1).
    intros [G|[G _]]; [by destruct (flt_irrefl _ (flt_trans _ _ _ F G))|]. rewrite G in F. by apply flt_irrefl in F.
  - assert (~ flt score s) as F by (intros G; by apply H1 in G). destruct (SFeqb s score) eqn:E2.
    + assert (feq s score) as G by (by apply H2). eexists. split_and!; [done|done|]. pose proof (lexcmp_eq (z_ele z) ele) as Hq.
      destruct (Z.ltb_spec 0 (lexcmp (z_ele z) ele)).
      * rewrite bool_decide_eq_false_2; [done|]. intros [K|[_ K]]; [|lia]. rewrite G in K. by apply flt_irrefl in K.
      * rewrite bool_decide_eq_true_2; [done|]. right. split; [done|]. assert (lexcmp (z_ele z) ele <> 0) by (intros K; apply Hno; tauto). lia.
    + exists false. split_and!; [done|done|]. rewrite bool_decide_eq_true_2; [done|]. left.
      destruct (flt_total s score) as [?|[G|?]]; [done|apply H2 in G; congruence|done].
Qed.

Lemma insert_loop_spec n i fuel : n = (length E - i)%nat -> (i <= length E)%nat -> (n <= fuel)%nat ->
  insert_loop strtod fpconv_dtoa usable junk fuel m ele score (eptr E i) =
    zzlInsertAt fpconv_dtoa usable junk m (eptr E (place i)) ele score.
Proof using Hr Hl Hn Hlen Hnum Hno.
  revert i fuel. induction n as [|n IH]; intros i fuel En Hi Hf.
  - unfold place. rewrite drop_ge, Nat.add_0_r by lia. unfold eptr. rewrite decide_False by lia. by destruct fuel.
  - destruct fuel as [|fuel]; [lia|]. destruct (lookup_lt_is_Some_2 E i ltac:(lia)) as [z Hz]. rewrite (eptr_some E i z Hz).
    cbn [insert_loop]. rewrite (ele_next m E Hr i z Hz). mstep. destruct (insert_turn i z Hz) as (s & b & -> & Hb1 & Hb2). mstep.
    assert (place i = if b then i else place (S i)) as Hp.
    { unfold place. rewrite (drop_S E z i Hz). cbn [plen]. rewrite Hb2. destruct (bool_decide _); cbn [negb]; lia. }
    destruct (SFltb score s).
    + injection Hb1 as <-. by rewrite Hp, (eptr_some E i z Hz).
    + rewrite Hb1. mstep. rewrite Hp. destruct b; [by rewrite (eptr_some E i z Hz)|].
      rewrite (score_next m E Hr i z Hz). mstep. apply IH; lia.
Qed.

Lemma zzlInsert_rep :
  lp_total (vals (put (place 0) (Zent ele (score_value score)) E)) < 2 ^ 32 ->
  exists m', zzlInsert strtod fpconv_dtoa usable junk m ele score = Some m' /\ rep m' (vals (put (place 0) (Zent ele (score_value score)) E)).
Proof using Htext Husable Hr Hb Hl Hd Hn Hlen Hnum Hno.
  intros Ht. unfold zzlInsert. change 0 with (2 * Z.of_nat 0). rewrite (seek_ele m E Hr 0). mstep.
  rewrite (insert_loop_spec (length E)); [|lia|lia|by apply elements_fuel].
  apply zzlInsertAt_rep; try done; [|lia]. unfold place. rewrite drop_0. apply plen_le.
Qed.
End insertion.
End scores.

(** ** Searching *)

Lemma vals_even E n : vals E !! (n * 2)%nat = (fun z => value_of (z_ele z)) <$> E !! n.
Proof.
  revert n. induction E as [|z E IH]; intros n; [done|]. rewrite vals_cons. destruct n as [|n]; [done|]. cbn [Nat.mul]. apply IH.
Qed.

Lemma zzlFind_rep strtod m E ele : rep m (vals E) ->
  zzlFind strtod m ele = Some ((fun r => (eoff E r.1, get_score strtod (z_val r.2))) <$> list_find (fun z => z_ele z = ele) E).
Proof.
  intros Hr. unfold zzlFind. rewrite (rep_first _ _ Hr). mstep. destruct E as [|z0 E0]; [done|]. set (E := z0 :: E0) in *.
  change (ptr_at [] (vals E)) with (Some (off [])). cbv iota beta. unfold lpFind.
  assert (lpBytes m = Some (lp_total (vals E))) as -> by (by apply rep_total). mstep.
  assert (find_loop (S (length m)) m (lp_total (vals E)) (off []) ele (Z.of_nat 1) (Z.of_nat 0) V_unknown 123456789
    = Some (find_ref ele 1 0 [] (vals E))) as Hf.
  { destruct Hr as (Hwf & Ht & num & slack & Hc & ->). pose proof (count_fuel num (vals E) slack Hwf).
    apply (find_loop_at num (vals E) slack Hwf Ht ele 1 (z_val z0 :: vals E0) []); [done| |by left].
    assert (length (vals E) = S (S (length (vals E0)))) by done. cbn [length]. lia. }
  change (Z.of_nat 1) with 1 in Hf. change (Z.of_nat 0) with 0 in Hf. rewrite Hf. mstep.
  pose proof (find_ref_spec ele 1 (vals E) [] 0) as Hs. destruct (find_ref ele 1 0 [] (vals E)) as [q|].
  - destruct Hs as (j & v & [n ->] & Hv & Htx & -> & Hfirst). cbn [Nat.add app] in *. rewrite vals_even in Hv.
    destruct (E !! n) as [z|] eqn:Hz; [|done]. injection Hv as <-. rewrite text_value_of in Htx.
    assert (list_find (fun z => z_ele z = ele) E = Some (n, z)) as ->.
    { apply list_find_Some. split_and!; [done|done|]. intros i y Hy Hi Hye. apply (Hfirst (i * 2)%nat (value_of (z_ele y))); [lia|by exists i| |].
      - by rewrite vals_even, Hy.
      - by rewrite text_value_of. }
    cbn [fmap option_fmap option_map fst snd]. rewrite (Nat.mul_comm n 2), vals_take. fold (eoff E n).
    rewrite (ele_next m E Hr n z Hz). mstep. by rewrite (score_at strtod m E Hr n z Hz).
  - assert (list_find (fun z => z_ele z = ele) E = None) as ->; [|done].
    apply list_find_None, Forall_forall. intros z [n Hz]%list_elem_of_lookup He. apply (Hs (n * 2)%nat (value_of (z_ele z))); [by exists n| |].
    + by rewrite vals_even, Hz.
    + by rewrite text_value_of.
Qed.

(** ** Deletion *)

Lemma zzlDelete_rep usable junk m E i z : (forall n, n <= usable n) -> rep m (vals E) -> E !! i = Some z ->
  exists m', zzlDelete usable junk m (eoff E i) = Some m' /\ rep m' (vals (take i E ++ drop (S i) E)).
Proof.
  intros Hu Hr Hz. pose proof (vals_split E i z Hz) as Es. pose proof Hr as Hr'. rewrite Es in Hr'.
  destruct (deleteRangeWithEntry_rep usable junk Hu m _ _ 2 Hr') as (m' & E1 & R1); [done|lia|].
  exists m'. unfold zzlDelete, eoff. rewrite E1. split; [done|]. by rewrite vals_app.
Qed.
