(* ===== verification/ZzlWalk.v ===== *)
(** * Sorted sets in listpacks: the loops over elements

    [points] relates a position of the loops, in either direction, to the list
    of elements still ahead; each loop is then a function of that list. *)
From S2P Require Import Prelude Numconv NumconvSpec Skiplist SkiplistSpec SkiplistOrder SkiplistRange Zset ZsetSpec ZsetRange Double Zzl ZsetObj.
From S2P Require Import Listpack ListpackSpec ListpackNav ListpackFind ListpackOps ListpackRange ZzlSpec ZzlOps.
From Stdlib Require Import ZArith Lia SpecFloat.
From stdpp Require Import prelude list sorting.

#[local] Open Scope Z_scope.

Section walk.
  Context (strtod : list Z -> spec_float) (m : list Z) (E : list zent) (Hr : rep m (vals E)).
  #[local] Abbreviation key_of := (z_key strtod).
  #[local] Abbreviation emit_z := (fun z => emit (key_of z)).

(** The position of the element at [i]. *)
Definition place_at (i : nat) : option (Z * option Z) := if decide (i < length E)%nat then Some (eoff E i, Some (soff E i)) else None.

Definition points (reverse : bool) (p : option (Z * option Z)) (l : list zent) : Prop :=
  if reverse then exists k, (k <= length E)%nat /\ p = match k with O => None | S j => place_at j end /\ l = rev (take k E)
  else exists i, p = place_at i /\ l = drop i E.

Lemma place_at_some i z : E !! i = Some z -> place_at i = Some (eoff E i, Some (soff E i)).
Proof using. intros Hz. unfold place_at. apply lookup_lt_Some in Hz. by rewrite decide_True. Qed.

(** What is at a position, and the position after it. *)
Definition steps (reverse : bool) (p : option (Z * option Z)) (z : zent) (l : list zent) : Prop :=
  exists i p', E !! i = Some z /\ p = Some (eoff E i, Some (soff E i)) /\
    lp_move reverse m (eoff E i, Some (soff E i)) = Some p' /\
    (if reverse then prev_element m (eoff E i) else next_element m (eoff E i)) = Some (option_map fst p') /\ points reverse p' l.

Lemma points_step reverse p l : points reverse p l -> match l with [] => p = None | z :: l' => steps reverse p z l' end.
Proof using Hr.
  unfold steps. destruct reverse; intros H.
  - destruct H as (k & Hk & -> & ->). destruct k as [|j]; [done|]. destruct (lookup_lt_is_Some_2 E j ltac:(lia)) as [z Hz].
    rewrite (take_S_r E j z Hz), rev_app_distr. cbn [rev app]. exists j, (match j with O => None | S j => place_at j end).
    split; [done|]. split; [by apply (place_at_some _ z)|]. unfold lp_move, zzlPrev, prev_element. cbn [fst snd]. mstep.
    assert (points true match j with O => None | S j => place_at j end (rev (take j E))) as Hp by (exists j; split_and!; [lia|done|done]).
    destruct j as [|j]; [done|]. destruct (lookup_lt_is_Some_2 E j ltac:(lia)) as [y Hy].
    rewrite (ele_prev m E Hr j y Hy). mstep. rewrite (score_prev m E Hr j y Hy). mstep. cbn [to_pos fst snd]. cbv iota in *.
    by rewrite (place_at_some j y Hy) in *.
  - destruct H as (i & -> & ->). destruct (drop i E) as [|z l'] eqn:Ed.
    + unfold place_at. rewrite decide_False; [done|]. intros Hi. apply (f_equal length) in Ed. rewrite length_drop in Ed. cbn in Ed. lia.
    + assert (E !! i = Some z) as Hz by (rewrite <- (Nat.add_0_r i), <- lookup_drop, Ed; done).
      assert (l' = drop (S i) E) as -> by (rewrite (drop_S E z i Hz) in Ed; congruence).
      exists i, (place_at (S i)). split; [done|]. split; [by apply (place_at_some _ z)|]. unfold lp_move, zzlNext, next_element. cbn [fst snd]. mstep.
      rewrite (ele_next m E Hr i z Hz). mstep. rewrite (score_next m E Hr i z Hz). mstep. unfold eptr, place_at. case_decide as Hlt.
      * destruct (lookup_lt_is_Some_2 E (S i) Hlt) as [y Hy]. rewrite (ele_next m E Hr (S i) y Hy). mstep. split_and!; [done|done|].
        exists (S i). by rewrite (place_at_some (S i) y Hy).
      * split_and!; [done|done|]. exists (S i). unfold place_at. by rewrite decide_False.
Qed.

Lemma at_element_spec i : at_element m (eptr E i) = Some (place_at i).
Proof using Hr.
  unfold at_element, eptr, place_at. case_decide as Hi; [|done]. destruct (lookup_lt_is_Some_2 E i Hi) as [z Hz].
  by rewrite (ele_next m E Hr i z Hz).
Qed.

(** The score at a position. *)
Lemma lp_score_at i z : E !! i = Some z -> lp_score strtod m (eoff E i, Some (soff E i)) = Some (key_of z).1.
Proof using Hr. intros Hz. unfold lp_score. cbn [snd]. mstep. by rewrite (score_at strtod m E Hr i z Hz). Qed.

Lemma points_length reverse p l : points reverse p l -> (length l <= length E)%nat.
Proof using.
  destruct reverse; [intros (k & Hk & _ & ->)|intros (i & _ & ->)]; rewrite ?length_rev, ?length_take, ?length_drop; lia.
Qed.

(** ** Emission *)

Lemma lp_emit_spec reverse n p l : points reverse p l -> (n <= length l)%nat -> lp_emit strtod n m reverse p = Some (emit_z <$> take n l).
Proof using Hr.
  revert p l. induction n as [|n IH]; intros p l Hp Hn; [done|]. pose proof (points_step _ _ _ Hp) as H.
  destruct l as [|z l]; cbn [length] in Hn; [lia|]. destruct H as (i & p' & Hz & -> & Hmv & _ & Hp').
  cbn [lp_emit take]. mstep. cbn [fst]. rewrite (object_at m E Hr i z Hz). mstep. rewrite (lp_score_at i z Hz). mstep.
  rewrite Hmv. mstep. by rewrite (IH p' l Hp') by lia.
Qed.

Lemma lp_skip_spec reverse offset p l fuel : points reverse p l -> 0 <= offset < 2 ^ 63 -> (length l <= fuel)%nat ->
  exists p', lp_skip fuel m reverse offset p = Some p' /\ points reverse p' (drop (Z.to_nat offset) l).
Proof using Hr.
  revert p l offset. induction fuel as [|fuel IH]; intros p l offset Hp Ho Hf; pose proof (points_step _ _ _ Hp) as H.
  - destruct l as [|z l]; [|cbn in Hf; lia]. subst p. exists None. split; [done|]. by rewrite drop_nil.
  - destruct l as [|z l]; [subst p; exists None; split; [done|]; by rewrite drop_nil|].
    destruct H as (i & p' & Hz & -> & Hmv & _ & Hp'). cbn [lp_skip]. destruct (Z.eqb_spec offset 0) as [->|Hne]; [by eexists|].
    rewrite Hmv. mstep. rewrite wraps_id by (unfold fits_s; lia). cbn [length] in Hf.
    destruct (IH p' l (offset - 1) Hp') as (p2 & -> & Hp2); [lia|lia|]. exists p2. split; [done|].
    replace (Z.to_nat offset) with (S (Z.to_nat (offset - 1))) by lia. done.
Qed.

(** Tests on the element at an offset. *)
Definition tests (test : list Z -> Z -> option bool) (T : zent -> bool) : Prop := forall i z, E !! i = Some z -> test m (eoff E i) = Some (T z).

Lemma lp_emit_range_spec test T reverse limit p l fuel :
  tests test T -> points reverse p l -> - 2 ^ 63 <= limit < 2 ^ 63 -> Z.of_nat (length E) < 2 ^ 63 - 1 -> (length l <= fuel)%nat ->
  lp_emit_range strtod fuel m test reverse limit p = Some (emit_z <$> limited limit (take (plen T l) l)).
Proof using Hr.
  intros HT Hp Hlim HE. revert p l limit Hp Hlim. induction fuel as [|fuel IH]; intros p l limit Hp Hlim Hf; pose proof (points_step _ _ _ Hp) as H.
  - destruct l as [|z l]; [|cbn in Hf; lia]. subst p. cbn. by rewrite limited_nil.
  - destruct l as [|z l]; [subst p; cbn; by rewrite limited_nil|].
    destruct H as (i & p' & Hz & -> & Hmv & _ & Hp'). cbn [lp_emit_range plen length] in *. destruct (Z.eqb_spec limit 0) as [->|Hne].
    { done. }
    rewrite (lp_score_at i z Hz). mstep. cbn [fst]. rewrite (HT i z Hz). mstep. destruct (T z); [|cbn [take]; by rewrite limited_nil].
    rewrite (object_at m E Hr i z Hz). mstep. rewrite Hmv. mstep. cbn [take]. pose proof (points_length _ _ _ Hp').
    destruct (limited_step limit z (take (plen T l) l)) as [-> Hl']; [done|done|rewrite length_take; lia|].
    by rewrite (IH p' l) by (done || lia).
Qed.

Lemma count_loop_spec test T p l fuel count :
  tests test T -> points false p l -> (length l <= fuel)%nat -> 0 <= count -> count + Z.of_nat (length l) < 2 ^ 64 ->
  count_loop fuel m test p count = Some (count + Z.of_nat (plen T l)).
Proof using Hr.
  intros HT. revert p l count. induction fuel as [|fuel IH]; intros p l count Hp Hf Hc Hb; pose proof (points_step _ _ _ Hp) as H.
  - destruct l as [|z l]; [|cbn in Hf; lia]. subst p. cbn. f_equal. lia.
  - destruct l as [|z l]; [subst p; cbn; f_equal; lia|].
    destruct H as (i & p' & Hz & -> & Hmv & _ & Hp'). cbn [count_loop plen length fst] in *. rewrite (HT i z Hz). mstep. destruct (T z); cbn [negb]; [|f_equal; lia].
    rewrite Hmv. mstep. rewrite wrapu_id by (unfold fits_u; lia). rewrite (IH p' l) by (done || lia). f_equal. lia.
Qed.

Lemma rank_loop_spec ele p l fuel rank :
  points false p l -> (length l <= fuel)%nat -> 0 <= rank -> rank + Z.of_nat (length l) < 2 ^ 64 ->
  exists q, rank_loop fuel m ele p rank =
    Some (match list_find (fun z => z_ele z = ele) l with Some _ => Some q | None => None end,
          rank + Z.of_nat (match list_find (fun z => z_ele z = ele) l with Some (j, _) => j | None => length l end)) /\
    forall j z, list_find (fun z => z_ele z = ele) l = Some (j, z) -> lp_score strtod m q = Some (key_of z).1.
Proof using Hr.
  revert p l rank. induction fuel as [|fuel IH]; intros p l rank Hp Hf Hc Hb; pose proof (points_step _ _ _ Hp) as H.
  - destruct l as [|z l]; [|cbn in Hf; lia]. subst p. exists (0, None). cbn. split; [do 2 f_equal; lia|done].
  - destruct l as [|z l]; [subst p; exists (0, None); cbn; split; [do 2 f_equal; lia|done]|].
    destruct H as (i & p' & Hz & -> & Hmv & _ & Hp'). cbn [rank_loop length fst] in *.
    assert (lpCompare m (eoff E i) ele = Some (bool_decide (z_ele z = ele))) as ->.
    { destruct Hr as (Hwf & Ht & num & slack & Hc' & ->). unfold eoff. rewrite (lpCompare_at num _ slack Hwf _ _ _ _ (vals_split E i z Hz)).
      by rewrite text_value_of. }
    mstep. cbn [list_find]. destruct (decide (z_ele z = ele)) as [He|He].
    + rewrite bool_decide_eq_true_2 by done. exists (eoff E i, Some (soff E i)). split; [do 2 f_equal; lia|]. intros j y [= <- <-]. by apply lp_score_at.
    + rewrite bool_decide_eq_false_2 by done. rewrite Hmv. mstep. rewrite wrapu_id by (unfold fits_u; lia).
      destruct (IH p' l (rank + 1) Hp') as (q & -> & Hq); [lia..|]. exists q.
      destruct (list_find (fun z => z_ele z = ele) l) as [[j y]|]; cbn [fmap option_fmap option_map prod_map fst snd].
      * split; [do 2 f_equal; lia|]. intros j' y' [= <- <-]. by apply (Hq j).
      * split; [do 2 f_equal; lia|done].
Qed.

(** ** The ends of a range *)

Lemma find_in_range_spec reverse enter stay En St p l fuel :
  tests enter En -> tests stay St -> points reverse p l -> (length l <= fuel)%nat ->
  exists p', points reverse p' (drop (plen (fun z => negb (En z)) l) l) /\
    find_in_range fuel m enter stay (if reverse then prev_element else next_element) (option_map fst p) =
      Some (if default false (St <$> head (drop (plen (fun z => negb (En z)) l) l)) then option_map fst p' else None).
Proof using Hr.
  intros HEn HSt. revert p l. induction fuel as [|fuel IH]; intros p l Hp Hf; pose proof (points_step _ _ _ Hp) as H.
  - destruct l as [|z l]; [|cbn in Hf; lia]. subst p. exists None. split; [by rewrite drop_nil|done].
  - destruct l as [|z l]; [subst p; exists None; split; [by rewrite drop_nil|done]|].
    pose proof H as (i & p' & Hz & -> & _ & Hmv & Hp'). cbn [find_in_range option_map plen length fst] in *. rewrite (HEn i z Hz). mstep.
    destruct (En z); cbn [negb].
    + rewrite (HSt i z Hz). mstep. eexists. split; [exact Hp|]. rewrite drop_0. done.
    + replace ((if reverse then prev_element else next_element) m (eoff E i)) with (Some (option_map fst p')) by (by destruct reverse). mstep.
      destruct (IH p' l Hp') as (p2 & Hp2 & ->); [lia|]. exists p2. done.
Qed.
End walk.
