(* ===== verification/ZzlRange.v ===== *)
(** * Sorted sets in listpacks: ranges

    The elements that the range commands emit, count and delete are those that
    pass both tests of the range. *)
From S2P Require Import Prelude Numconv NumconvSpec Skiplist SkiplistSpec SkiplistOrder SkiplistRange SkiplistDelete Zset ZsetSpec ZsetRange Double Zzl ZsetObj.
From S2P Require Import Listpack ListpackSpec ListpackNav ListpackFind ListpackOps ListpackRange ZzlSpec ZzlOps ZzlWalk.
From Stdlib Require Import ZArith Lia SpecFloat.
From stdpp Require Import prelude list sorting.

#[local] Open Scope Z_scope.

(** ** Prefixes and reversed lists *)

Lemma plen_drop {A} (P : A -> bool) l k : antitone P l -> plen P (drop k l) = (plen P l - k)%nat.
Proof.
  intros H. revert k. induction H as [|x l Hl IH Hx]; intros k; [by rewrite drop_nil|]. destruct k as [|k]; [cbn [drop]; lia|].
  cbn [drop plen]. rewrite IH. pose proof (none_after P x l Hx) as HN. destruct (P x); [lia|].
  destruct l as [|y l]; [done|]. cbn [plen]. by rewrite (HN eq_refl y) by left.
Qed.

Lemma sorted_rev {A} (R : A -> A -> Prop) l : StronglySorted R l -> StronglySorted (fun x y => R y x) (rev l).
Proof.
  induction 1 as [|x l Hl IH Hx]; [constructor|]. cbn [rev]. apply StronglySorted_app. split_and!; [|done|by repeat constructor].
  intros y z Hy Hz%list_elem_of_singleton. subst z. rewrite Forall_forall in Hx. apply Hx. rewrite <- elem_of_reverse. unfold reverse. by rewrite <- rev_alt.
Qed.

Lemma antitone_rev {A} (P : A -> bool) l : antitone P l -> antitone (fun x => negb (P x)) (rev l).
Proof. intros H%sorted_rev. eapply sorted_impl; [|exact H]. intros x y Hxy Hy%negb_true_iff. cbn in Hxy. destruct (P x); [|done]. rewrite (Hxy eq_refl) in Hy. done. Qed.

Lemma antitone_ext {A} (P Q : A -> bool) l : (forall x, P x = Q x) -> antitone P l -> antitone Q l.
Proof. intros HPQ. apply sorted_impl. intros x y. by rewrite !HPQ. Qed.

(** The part of a list in a range, from any later place. *)
Lemma take_prefix {A} (P : A -> bool) l k : antitone P l -> take (plen P (drop k l)) (drop k l) = drop k (take (plen P l) l).
Proof. intros H. rewrite plen_drop by done. by rewrite skipn_firstn_comm. Qed.

Section ranges.
  Context (strtod : list Z -> spec_float).
  #[local] Abbreviation emit_z := (fun z => emit (z_key strtod z)).

(** The tests of a range on elements. *)
Record lp_range_ok (range : lp_range) (G L : zent -> bool) (m : list Z) (E : list zent) : Prop := {
  lr_gte : tests m E (z_gte range) G;
  lr_lte : tests m E (z_lte range) L;
  lr_inside : exists b, z_inside range m = Some b /\ (b = false -> forall z, z ∈ E -> G z && L z = false);
  lr_G : antitone (fun z => negb (G z)) E;
  lr_L : antitone L E }.

Section one.
  Context (m : list Z) (E : list zent) (range : lp_range) (G L : zent -> bool).
  Context (Hr : rep m (vals E)) (Hok : lp_range_ok range G L m E) (Hlen : Z.of_nat (length E) < 2 ^ 63 - 1).

Let R := List.filter (fun z => G z && L z) E.

(** The list in either direction, the test that starts the range and the one
    that ends it. *)
Definition ahead (reverse : bool) : list zent := if reverse then rev E else E.
Definition entering (reverse : bool) : zent -> bool := if reverse then L else G.
Definition staying (reverse : bool) : zent -> bool := if reverse then G else L.

Lemma entering_antitone (reverse : bool) : antitone (fun z => negb (entering reverse z)) (ahead reverse).
Proof using Hok. destruct reverse; [apply antitone_rev|]; apply Hok. Qed.

Lemma staying_antitone (reverse : bool) : antitone (staying reverse) (ahead reverse).
Proof using Hok.
  destruct reverse; cbn; [|apply Hok]. eapply antitone_ext; [|apply antitone_rev, Hok]. intros z. apply negb_involutive.
Qed.

Lemma range_ahead (reverse : bool) :
  (if reverse then rev R else R) = drop (plen (fun z => negb (entering reverse z)) (ahead reverse)) (take (plen (staying reverse) (ahead reverse)) (ahead reverse)).
Proof using Hok.
  rewrite <- filter_between by (apply entering_antitone || apply staying_antitone). unfold R. destruct reverse; cbn [entering staying ahead].
  - rewrite <- List.filter_rev. apply List.filter_ext. intros z. by rewrite negb_involutive, andb_comm.
  - apply List.filter_ext. intros z. by rewrite negb_involutive.
Qed.

(** Where the loops start. *)
Lemma seek_start (reverse : bool) : exists p, lpSeek m (if reverse then -2 else 0) = Some (option_map fst p) /\ points E reverse p (ahead reverse).
Proof using Hr.
  clear R Hok Hlen. destruct reverse.
  - exists (match length E with O => None | S j => place_at E j end). split.
    + destruct (length E) as [|j] eqn:El; [apply (seek_none m E Hr); by destruct E|].
      rewrite (seek_negative m E Hr) by lia. replace (2 * Z.of_nat (length E) + -2) with (2 * Z.of_nat j) by lia. rewrite (seek_ele m E Hr j).
      unfold eptr, place_at. by rewrite !decide_True by lia.
    + exists (length E). split; [done|]. split; [done|]. by rewrite firstn_all.
  - exists (place_at E 0). split; [|exists 0%nat; by rewrite drop_0]. change 0 with (2 * Z.of_nat 0) at 1. rewrite (seek_ele m E Hr 0).
    unfold eptr, place_at. by case_decide.
Qed.

Lemma points_at_element (reverse : bool) p l : points E reverse p l -> at_element m (option_map fst p) = Some p.
Proof using Hr.
  intros Hp%(points_step m E Hr). destruct l as [|z l]; [by subst|]. destruct Hp as (i & p' & Hz & -> & _). cbn [option_map fst at_element].
  by rewrite (ele_next m E Hr i z Hz).
Qed.

(** The first element of the range in a direction. *)
Lemma in_range_start (reverse : bool) :
  exists p r, (if reverse then last_in_range m range else first_in_range m range) = Some r /\
    points E reverse p (drop (plen (fun z => negb (entering reverse z)) (ahead reverse)) (ahead reverse)) /\
    r = if decide (R = []) then None else option_map fst p.
Proof using Hr Hok.
  destruct (seek_start reverse) as (p0 & Hs & Hp0). destruct (lr_inside _ _ _ _ _ Hok) as (b & Hb & Hout).
  assert (length (ahead reverse) <= length m)%nat as Hf.
  { pose proof (elements_fuel m E Hr). unfold ahead. destruct reverse; rewrite ?length_rev; lia. }
  assert (tests m E (if reverse then z_lte range else z_gte range) (entering reverse)) as HEn by (destruct reverse; apply Hok).
  assert (tests m E (if reverse then z_gte range else z_lte range) (staying reverse)) as HSt by (destruct reverse; apply Hok).
  destruct (find_in_range_spec m E Hr reverse _ _ _ _ p0 _ (length m) HEn HSt Hp0 Hf) as (p & Hp & Hfind).
  set (a := plen (fun z => negb (entering reverse z)) (ahead reverse)) in *.
  assert (R = [] <-> default false (staying reverse <$> head (drop a (ahead reverse))) = false) as HR.
  { pose proof (range_ahead reverse) as HRa. fold a in HRa. assert (R = [] <-> (if reverse then rev R else R) = []) as ->.
    { destruct reverse; [|done]. split; [by intros ->|]. intros Hrev. by rewrite <- (rev_involutive R), Hrev. }
    rewrite HRa, <- (take_prefix (staying reverse)) by apply staying_antitone. destruct (drop a (ahead reverse)) as [|z l]; [done|].
    cbn [plen head fmap option_fmap option_map default]. by destruct (staying reverse z). }
  eexists p, _. split; [|split; [exact Hp|reflexivity]].
  assert ((if reverse then last_in_range m range else first_in_range m range) =
    if negb b then Some None else find_in_range (length m) m (if reverse then z_lte range else z_gte range) (if reverse then z_gte range else z_lte range)
      (if reverse then prev_element else next_element) (option_map fst p0)) as ->.
  { unfold last_in_range, first_in_range. destruct reverse; rewrite Hs; mstep; rewrite Hb; done. }
  destruct b; cbn [negb].
  - rewrite Hfind. f_equal. destruct (decide (R = [])) as [HR0|HR0].
    + apply HR in HR0. by rewrite HR0.
    + destruct (default false _); [done|]. by destruct HR0; apply HR.
  - rewrite decide_True; [done|]. apply filter_none. intros z Hz. by apply Hout.
Qed.

(** Listing a range. *)
Lemma zrangeby_listpack_spec offset limit (reverse : bool) : 0 <= offset < 2 ^ 63 -> - 2 ^ 63 <= limit < 2 ^ 63 ->
  zrangeby_listpack strtod m range offset limit reverse = Some (emit_z <$> page offset limit (if reverse then rev R else R)).
Proof using Hr Hok Hlen.
  intros Ho Hlim. unfold zrangeby_listpack. destruct (in_range_start reverse) as (p & r & -> & Hp & ->). mstep. rewrite page_limited.
  destruct (decide (R = [])) as [HR|HR].
  - cbn [at_element]. mstep. rewrite HR. replace (if reverse then rev [] else []) with (@nil zent) by (by destruct reverse). rewrite drop_nil, limited_nil.
    destruct (length m); done.
  - rewrite (points_at_element _ _ _ Hp). mstep. pose proof (points_length _ _ _ _ Hp) as Hpl. pose proof (elements_fuel m E Hr).
    destruct (lp_skip_spec m E Hr reverse offset p _ (length m) Hp Ho ltac:(lia)) as (p2 & -> & Hp2). mstep. rewrite drop_drop in Hp2.
    assert (tests m E (if reverse then z_gte range else z_lte range) (staying reverse)) as HSt by (destruct reverse; apply Hok).
    pose proof (points_length _ _ _ _ Hp2) as Hpl2.
    rewrite (lp_emit_range_spec strtod m E Hr _ (staying reverse) reverse limit p2 _ (length m) HSt Hp2 Hlim Hlen ltac:(lia)).
    rewrite take_prefix by apply staying_antitone. by rewrite range_ahead, drop_drop.
Qed.

Lemma count_listpack_spec : count_listpack m range = Some (Z.of_nat (length R)).
Proof using Hr Hok Hlen.
  unfold count_listpack. destruct (in_range_start false) as (p & r & E1 & Hp & ->). rewrite E1. mstep. destruct (decide (R = [])) as [HR|HR]; [by rewrite HR|].
  pose proof (range_ahead false) as HRa. cbn [ahead entering staying] in *. set (a := plen (fun z => negb (G z)) E) in *.
  rewrite <- (take_prefix L) in HRa by apply Hok. pose proof (points_step m E Hr _ _ _ Hp) as H. destruct (drop a E) as [|z l] eqn:Ed; [done|].
  destruct H as (i & p' & Hz & -> & _). cbn [option_map fst]. rewrite (ele_next m E Hr i z Hz). mstep. rewrite (lr_lte _ _ _ _ _ Hok i z Hz). mstep.
  destruct (L z) eqn:EL; cbn [negb]; [|by rewrite HRa in HR; cbn [plen] in HR; rewrite EL in HR].
  pose proof (points_length _ _ _ _ Hp). pose proof (elements_fuel m E Hr).
  rewrite (count_loop_spec m E Hr _ L _ _ _ _ (lr_lte _ _ _ _ _ Hok) Hp) by lia. f_equal. rewrite HRa, length_take. pose proof (plen_le L (z :: l)). lia.
Qed.
End one.

(** ** Deleting a range *)

Context (usable : Z -> Z) (junk : Z) (Husable : forall n, n <= usable n).

Lemma delete_loop_spec lte L : (forall m E, rep m (vals E) -> tests m E lte L) ->
  forall B A m fuel num, rep m (vals (A ++ B)) -> (length B <= fuel)%nat -> 0 <= num -> num + Z.of_nat (length B) < 2 ^ 64 ->
  exists m', delete_loop usable junk fuel m lte (eptr (A ++ B) (length A)) num = Some (m', num + Z.of_nat (plen L B)) /\
    rep m' (vals (A ++ drop (plen L B) B)).
Proof using Husable.
  intros Ht. induction B as [|z B IH]; intros A m fuel num Hr Hf Hn Hb.
  - exists m. rewrite drop_nil. split; [|done]. unfold eptr. rewrite app_nil_r, decide_False by lia. cbn [plen]. rewrite Z.add_0_r. by destruct fuel.
  - destruct fuel as [|fuel]; [cbn in Hf; lia|]. assert ((A ++ z :: B) !! length A = Some z) as Hz by (by apply list_lookup_middle).
    rewrite (eptr_some _ _ z Hz). cbn [delete_loop plen length] in *. rewrite (ele_next m _ Hr _ z Hz). mstep. rewrite (Ht m _ Hr _ z Hz). mstep.
    destruct (L z); [|exists m; by rewrite Z.add_0_r].
    assert (eoff (A ++ z :: B) (length A) = off (vals A)) as -> by (unfold eoff; by rewrite take_app_length).
    pose proof Hr as Hr'. rewrite vals_app in Hr'. destruct (deleteRangeWithEntry_rep usable junk Husable m (vals A) (vals (z :: B)) 2 Hr') as (m1 & -> & R1); [done|lia|].
    mstep. cbn [fst snd]. change (drop (Z.to_nat 2) (vals (z :: B))) with (vals B) in *. rewrite wrapu_id by (unfold fits_u; lia).
    rewrite <- vals_app in R1. destruct (IH A m1 fuel (num + 1) R1) as (m2 & E2 & R2); [lia..|]. exists m2. split; [|done].
    assert (ptr_at (vals A) (vals B) = eptr (A ++ B) (length A)) as ->.
    { rewrite <- ptr_at_eptr, take_app_length, drop_app_length. done. }
    rewrite E2. do 2 f_equal. lia.
Qed.

Lemma delete_lp_range_spec m E range G L :
  rep m (vals E) -> lp_range_ok range G L m E -> (forall m E, rep m (vals E) -> tests m E (z_lte range) L) -> Z.of_nat (length E) < 2 ^ 63 - 1 ->
  exists m', delete_lp_range usable junk m range = Some (m', Z.of_nat (length (List.filter (fun z => G z && L z) E))) /\
    rep m' (vals (List.filter (fun z => negb (G z && L z)) E)).
Proof using Husable.
  intros Hr Hok Ht Hlen. unfold delete_lp_range. destruct (in_range_start m E range G L Hr Hok false) as (p & r & E1 & Hp & ->). rewrite E1. mstep.
  set (R := List.filter (fun z => G z && L z) E) in *. destruct (decide (R = [])) as [HR|HR].
  - exists m. rewrite HR. split; [by destruct (length m)|]. rewrite filter_all; [done|]. intros z Hz. destruct (G z && L z) eqn:Eg; [|done].
    assert (z ∈ R) as Hin by (apply list_elem_of_In, List.filter_In; split; [by apply list_elem_of_In|done]). rewrite HR in Hin. by apply elem_of_nil in Hin.
  - pose proof (range_ahead m E range G L Hok false) as HRa. fold R in HRa. cbn [ahead entering staying] in *. set (a := plen (fun z => negb (G z)) E) in *.
    destruct Hp as (i & -> & Ei). assert (eptr E a = option_map fst (place_at E i)) as <-.
    { assert (length (drop a E) = length (drop i E)) as El by congruence. rewrite !length_drop in El. unfold eptr, place_at. destruct (decide (a < length E)%nat).
      - replace i with a by lia. by rewrite decide_True.
      - destruct HR. rewrite HRa, drop_ge; [done|]. rewrite length_take. lia. }
    assert (length (take a E) = a) as Ea by (rewrite length_take; pose proof (plen_le (fun z => negb (G z)) E); unfold a; lia).
    destruct (delete_loop_spec (z_lte range) L Ht (drop a E) (take a E) m (length m) 0) as (m' & E2 & R2).
    { by rewrite take_drop. } { pose proof (elements_fuel m E Hr). rewrite length_drop. lia. } { lia. } { rewrite length_drop. lia. }
    rewrite take_drop, Ea in E2. exists m'. rewrite E2. rewrite plen_drop, drop_drop in * by apply Hok. split.
    + rewrite HRa, length_drop, length_take. pose proof (plen_le L E). do 2 f_equal. lia.
    + replace (List.filter _ E) with (take a E ++ drop (a + (plen L E - a)) E); [done|]. symmetry.
      apply filter_outside; [rewrite length_take in Ea; pose proof (plen_le L E); lia|]. intros k z Hz. pose proof (plen_spec _ _ (lr_G _ _ _ _ _ Hok) k z Hz) as HG.
      pose proof (plen_spec _ _ (lr_L _ _ _ _ _ Hok) k z Hz) as HL. cbn in HG. rewrite HL. rewrite <- (negb_involutive (G z)), HG. fold a.
      destruct (decide (k < a)%nat), (decide (k < plen L E)%nat);
        rewrite ?(bool_decide_eq_true_2 (k < a)%nat), ?(bool_decide_eq_false_2 (k < a)%nat), ?(bool_decide_eq_true_2 (k < plen L E)%nat),
          ?(bool_decide_eq_false_2 (k < plen L E)%nat) by done; symmetry; (apply bool_decide_eq_true_2 || apply bool_decide_eq_false_2); lia.
Qed.
End ranges.
