(* ===== verification/ZzlCorrect.v ===== *)
(** * Sorted sets in listpacks are sorted sets

    The operations on the listpack encoding do to the keys of the elements what
    ZsetSpec.v says; the score read back of an inserted element is equal to the
    one given, up to the sign of a zero. *)
From S2P Require Import Prelude Numconv NumconvSpec Dict Skiplist SkiplistSpec SkiplistOrder SkiplistRange SkiplistDelete.
From S2P Require Import Zset ZsetSpec ZsetCorrect ZsetRange ZsetRun Double ZsetSame Zzl ZsetObj.
From S2P Require Import Listpack ListpackSpec ListpackNav ListpackFind ListpackOps ListpackRange ZzlSpec ZzlOps ZzlWalk ZzlRange.
From Stdlib Require Import ZArith Lia SpecFloat.
From stdpp Require Import prelude list sorting.

#[local] Open Scope Z_scope.

Lemma sorted_fmap {A B} (f : A -> B) (R : B -> B -> Prop) l : StronglySorted (fun x y => R (f x) (f y)) l <-> StronglySorted R (f <$> l).
Proof.
  induction l as [|x l IH]; [by split; constructor|]. rewrite fmap_cons. split; intros [H1 H2]%StronglySorted_cons; constructor.
  - by apply IH.
  - apply Forall_fmap. exact H1.
  - by apply IH.
  - by rewrite Forall_fmap in H1.
Qed.

Lemma antitone_fmap {A B} (f : A -> B) (P : B -> bool) l : antitone P (f <$> l) -> antitone (fun x => P (f x)) l.
Proof. intros H. by apply (sorted_fmap f (fun c d => P d = true -> P c = true)). Qed.

(** A test that fails at the last element fails everywhere; one that passes at
    no first element passes nowhere. *)
Lemma antitone_last {A} (P : A -> bool) l x : antitone P l -> last l = Some x -> P x = true -> forall y, y ∈ l -> P y = true.
Proof.
  intros H Hl Hx. apply last_Some in Hl as [l' ->]. apply StronglySorted_app in H as (H & _ & _).
  intros y [Hy| ->%list_elem_of_singleton]%elem_of_app; [|done]. apply (H y x); [done|by left|done].
Qed.

(** The test of the whole set. *)
Lemma inside_ok E (G L : zent -> bool) (b : bool) z0 z1 :
  antitone (fun z => negb (G z)) E -> antitone L E -> head E = Some z0 -> last E = Some z1 ->
  b = G z1 && L z0 -> b = false -> forall z, z ∈ E -> G z && L z = false.
Proof.
  intros HG HL H0 H1 -> Hb z Hz. apply andb_false_iff in Hb as [Hb|Hb]; apply andb_false_iff.
  - left. apply negb_true_iff. eapply (antitone_last (fun z => negb (G z)) E z1); [done|done|by rewrite Hb|done].
  - right. destruct E as [|y E']; [done|]. injection H0 as ->. apply StronglySorted_cons in HL as [HL _].
    apply elem_of_cons in Hz as [->|Hz]; [done|]. rewrite Forall_forall in HL. specialize (HL z Hz). destruct (L z); [|done]. by rewrite HL in Hb.
Qed.

Lemma last_at (E : list zent) z0 E' : E = z0 :: E' -> exists z1, last E = Some z1 /\ E !! length E' = Some z1.
Proof.
  intros ->. destruct (lookup_lt_is_Some_2 (z0 :: E') (length E')) as [z1 Hz1]; [cbn; lia|]. exists z1. by rewrite last_lookup.
Qed.

Lemma filter_fmap {A B} (f : A -> B) (P : B -> bool) l : f <$> List.filter (fun x => P (f x)) l = List.filter P (f <$> l).
Proof. induction l as [|x l IH]; [done|]. cbn. destruct (P (f x)); cbn; by rewrite IH. Qed.

Section correct.
  Context (strtod : list Z -> spec_float).
  #[local] Abbreviation key_of := (z_key strtod).
  #[local] Abbreviation keys E := (key_of <$> E).

(** The cell with the key of an element. *)
Definition cell_of (z : zent) : cell := Cell 0 1 (key_of z).1 (z_ele z).

Lemma cells_good E : sorted_set (keys E) -> Forall good (cell_of <$> E) /\ StronglySorted key_order (cell_of <$> E).
Proof using.
  intros [Hs _ Hn]. split; [apply Forall_fmap; by apply Forall_fmap in Hn|]. apply (sorted_fmap cell_of). by apply (sorted_fmap key_of) in Hs.
Qed.

Section ranges.
  Context (m : list Z) (E : list zent) (Hr : rep m (vals E)) (HE : sorted_set (keys E)).

Lemma score_tests range :
  tests m E (score_test strtod (fun s => zslValueGteMin s range)) (fun z => gte range (cell_of z)) /\
  tests m E (score_test strtod (fun s => zslValueLteMax s range)) (fun z => lte range (cell_of z)).
Proof using Hr.
  split; intros i z Hz; unfold score_test; rewrite (ele_next m E Hr i z Hz); mstep; by rewrite (score_at strtod m E Hr i z Hz).
Qed.

Lemma lp_score_range_ok range : good_range range ->
  lp_range_ok (lp_score_range strtod range) (fun z => gte range (cell_of z)) (fun z => lte range (cell_of z)) m E.
Proof using Hr HE.
  intros Hg. destruct (cells_good E HE) as [Hgood Hsort]. pose proof (antitone_fmap cell_of _ _ (gte_antitone Hgood Hsort range Hg)) as HG.
  pose proof (antitone_fmap cell_of _ _ (lte_antitone Hgood Hsort range Hg)) as HL. split; [apply score_tests|apply score_tests| |exact HG|exact HL].
  cbn [lp_score_range z_inside]. unfold zzlIsInRange. destruct (_ || _) eqn:He.
  - exists false. split; [done|]. intros _ z Hz. apply (ro_empty (score_range_ok range Hg)); [exact He|]. rewrite Forall_fmap, Forall_forall in Hgood. by apply Hgood.
  - clear He. destruct E as [|z0 E'] eqn:EE; [rewrite (seek_none m [] Hr (-1) eq_refl); mstep; exists false; split; [done|]; intros _ z Hz; by apply elem_of_nil in Hz|].
    rewrite <- EE in *. destruct (last_at E z0 E' EE) as (z1 & Hl & Hz1). assert (length E = S (length E')) as Hlen by (by rewrite EE).
    rewrite (seek_negative m E Hr (-1)) by lia. replace (2 * Z.of_nat (length E) + -1) with (2 * Z.of_nat (length E') + 1) by lia.
    rewrite (seek_score m E Hr _ z1 Hz1). mstep. rewrite (score_at strtod m E Hr _ z1 Hz1). mstep.
    assert (E !! 0%nat = Some z0) as Hz0 by (by rewrite EE).
    rewrite (seek_score m E Hr 0 z0 Hz0 : lpSeek m 1 = _). mstep. rewrite (score_at strtod m E Hr _ z0 Hz0). mstep.
    exists (gte range (cell_of z1) && lte range (cell_of z0)). split.
    + unfold gte, lte. cbn [cell_of c_score z_key fst]. by destruct (zslValueGteMin _ _).
    + apply (inside_ok _ _ _ _ z0 z1 HG HL); [by rewrite EE|done|done].
Qed.

(** Strings, when all scores are equal. *)
Lemma lex_tests range :
  tests m E (fun m p => zzlLexValueGteMin m p range) (fun z => lex_gte range (cell_of z)) /\
  tests m E (fun m p => zzlLexValueLteMax m p range) (fun z => lex_lte range (cell_of z)).
Proof using Hr. split; intros i z Hz; unfold zzlLexValueGteMin, zzlLexValueLteMax; by rewrite (object_at m E Hr i z Hz). Qed.

Lemma lp_lex_range_ok range : same_scores (keys E) ->
  lp_range_ok (lp_lex_range range) (fun z => lex_gte range (cell_of z)) (fun z => lex_lte range (cell_of z)) m E.
Proof using Hr HE.
  intros Hsame. destruct (cells_good E HE) as [Hgood Hsort].
  assert (forall c d, c ∈ cell_of <$> E -> d ∈ cell_of <$> E -> feq (c_score c) (c_score d)) as Hs.
  { apply same_scores_cells. by rewrite <- list_fmap_compose. }
  pose proof (antitone_fmap cell_of _ _ (lex_gte_antitone Hsort range Hs)) as HG.
  pose proof (antitone_fmap cell_of _ _ (lex_lte_antitone Hsort range Hs)) as HL. destruct (lex_tests range) as [T1 T2]. split; [done|done| |exact HG|exact HL].
  cbn [lp_lex_range z_inside]. unfold zzlIsInLexRange. destruct (_ || _) eqn:He.
  - exists false. split; [done|]. intros _ z Hz. apply (ro_empty (lex_range_ok range)); [exact He|]. rewrite Forall_fmap, Forall_forall in Hgood. by apply Hgood.
  - clear He. destruct E as [|z0 E'] eqn:EE; [rewrite (seek_none m [] Hr (-2) eq_refl); mstep; exists false; split; [done|]; intros _ z Hz; by apply elem_of_nil in Hz|].
    rewrite <- EE in *. destruct (last_at E z0 E' EE) as (z1 & Hl & Hz1). assert (length E = S (length E')) as Hlen by (by rewrite EE).
    rewrite (seek_negative m E Hr (-2)) by lia. replace (2 * Z.of_nat (length E) + -2) with (2 * Z.of_nat (length E')) by lia.
    rewrite (seek_ele m E Hr (length E')), (eptr_some E _ z1 Hz1). mstep. rewrite (T1 _ z1 Hz1). mstep.
    assert (E !! 0%nat = Some z0) as Hz0 by (by rewrite EE).
    rewrite (seek_ele m E Hr 0 : lpSeek m 0 = _), (eptr_some E _ z0 Hz0). mstep. rewrite (T2 _ z0 Hz0). mstep.
    exists (lex_gte range (cell_of z1) && lex_lte range (cell_of z0)). split; [by destruct (lex_gte range (cell_of z1))|].
    apply (inside_ok _ _ _ _ z0 z1 HG HL); [by rewrite EE|done|done].
Qed.
End ranges.

(** ** The invariant *)

(** The limits of the configuration. *)
Context (entries value : Z).

Record zzl_ok (m : list Z) (E : list zent) : Prop := {
  zk_rep : rep m (vals E);
  zk_set : sorted_set (keys E);
  zk_double : Forall (fun z => is_double (key_of z).1 = true) E;
  zk_short : Forall short E;
  zk_entries : Z.of_nat (length E) <= entries;
  zk_value : Forall (fun z => zlen (z_ele z) <= value) E }.

Arguments zk_rep {_ _}. Arguments zk_set {_ _}.

Lemma elements_bound m E : rep m (vals E) -> Z.of_nat (length E) < 2 ^ 31.
Proof using.
  intros (Hwf & Ht & num & slack & Hc & _). pose proof (count_fuel num (vals E) [] Hwf) as H. rewrite length_vals in H.
  unfold lp_block, hdr in H. rewrite !length_app, !length_le_encode in H. unfold lp_total in Ht. cbn [length] in H. lia.
Qed.

(** Fewer elements in another block. *)
Lemma zzl_sublist m m' E E' : zzl_ok m E -> E' `sublist_of` E -> rep m' (vals E') -> zzl_ok m' E'.
Proof using.
  intros [Hr Hs Hd Hsh He Hv] Hsub Hr'. pose proof (sublist_length _ _ Hsub). split; [done| | | |lia|].
  - eapply sublist_ok; [|done]. by apply sublist_map.
  - rewrite Forall_forall in *. intros z Hz. apply Hd. by eapply elem_of_sublist.
  - rewrite Forall_forall in *. intros z Hz. apply Hsh. by eapply elem_of_sublist.
  - rewrite Forall_forall in *. intros z Hz. apply Hv. by eapply elem_of_sublist.
Qed.

Lemma zzlLength_ok m E : zzl_ok m E -> exists m', zzlLength m = Some (Z.of_nat (length E), m') /\ zzl_ok m' E.
Proof using.
  intros Hok. destruct (rep_length _ _ (zk_rep Hok)) as (m' & Em & Hr'). exists m'. unfold zzlLength. rewrite Em. mstep. cbn [fst snd].
  pose proof (elements_bound _ _ Hr'). rewrite length_vals. rewrite Nat2Z.inj_mul, Z.mul_comm, Z.div_mul by done.
  rewrite wrapu_id by (unfold fits_u; lia). split; [done|]. by eapply zzl_sublist.
Qed.

Lemma find_keys e E : zl_find e (keys E) = (fun r => (r.1, key_of r.2)) <$> list_find (fun z => z_ele z = e) E.
Proof using. unfold zl_find. rewrite list_find_fmap. done. Qed.

Lemma zzlFind_keys m E e : zzl_ok m E -> zzlFind strtod m e = Some ((fun r => (eoff E r.1, r.2.1)) <$> zl_find e (keys E)).
Proof using.
  intros Hok. rewrite (zzlFind_rep strtod m E e (zk_rep Hok)), find_keys. by destruct (list_find _ E).
Qed.

(** ** Reading *)

Lemma rank_listpack ty cr m E e (reverse : bool) : zzl_ok m E -> E <> [] ->
  exists m', zsetRank strtod ty cr (Zlistpack m) e reverse =
    Some (Zlistpack m', (zl_rank e reverse (keys E)).1, (zl_rank e reverse (keys E)).2) /\ zzl_ok m' E.
Proof using.
  intros Hok Hne. unfold zsetRank, zsetLength. destruct (zzlLength_ok m E Hok) as (m' & -> & Hok'). mstep. cbn [fst snd]. exists m'. split; [|done].
  pose proof (zk_rep Hok') as Hr. destruct E as [|z0 E'] eqn:EE; [done|]. rewrite <- EE in *. assert (E !! 0%nat = Some z0) as Hz0 by (by rewrite EE).
  rewrite (seek_ele m' E Hr 0 : lpSeek m' 0 = _), (eptr_some E _ z0 Hz0). mstep. rewrite (ele_next m' E Hr 0 z0 Hz0). mstep.
  pose proof (elements_bound _ _ Hr).
  destruct (rank_loop_spec strtod m' E Hr e (Some (eoff E 0, Some (soff E 0))) E (length m') 1) as (q & -> & Hq).
  { exists 0%nat. by rewrite (place_at_some E 0 z0 Hz0). } { by apply elements_fuel. } { lia. } { lia. }
  mstep. cbn [fst snd]. unfold zl_rank. rewrite find_keys. destruct (list_find (fun z => z_ele z = e) E) as [[j z]|] eqn:Ef; [|done].
  rewrite (Hq j z eq_refl). mstep. cbn [fmap option_fmap option_map fst snd]. apply list_find_Some in Ef as (Hj & _ & _). apply lookup_lt_Some in Hj.
  rewrite length_fmap, wraps_id by (unfold fits_s; destruct reverse; lia). do 3 f_equal. destruct reverse; lia.
Qed.

(** A range of ranks. *)
Lemma rangebyrank_listpack m E start end_ (reverse : bool) : zzl_ok m E ->
  exists m', genericZrangebyrank strtod (Zlistpack m) start end_ reverse = Some (Zlistpack m', zl_rangebyrank start end_ reverse (keys E)) /\ zzl_ok m' E.
Proof using.
  intros Hok. unfold genericZrangebyrank, zsetLength. destruct (zzlLength_ok m E Hok) as (m' & -> & Hok'). mstep. cbn [fst snd]. exists m'. split; [|done].
  pose proof (zk_rep Hok') as Hr. pose proof (elements_bound _ _ Hr) as Hb. unfold zl_rangebyrank. rewrite length_fmap. destruct (sanitize _ _ _) as [[s e]|] eqn:Es; [|done].
  apply sanitize_spec in Es; [|lia]. set (k := if reverse then (length E - 1 - Z.to_nat s)%nat else Z.to_nat s).
  assert (k < length E)%nat as Hk by (unfold k; destruct reverse; lia). destruct (lookup_lt_is_Some_2 E k Hk) as [z Hz].
  assert (lpSeek m' (if reverse then -2 - 2 * s else 2 * s) = Some (Some (eoff E k))) as ->.
  { rewrite <- (eptr_some E k z Hz), <- (seek_ele m' E Hr k). unfold k. destruct reverse; [|f_equal; lia].
    rewrite (seek_negative m' E Hr (-2 - 2 * s)) by lia. f_equal. lia. }
  mstep. rewrite (ele_next m' E Hr k z Hz). mstep.
  assert (points E reverse (Some (eoff E k, Some (soff E k))) (drop (Z.to_nat s) (if reverse then rev E else E))) as Hp.
  { destruct reverse; cbn.
    - exists (length E - Z.to_nat s)%nat. split; [lia|]. split; [|apply skipn_rev].
      replace (length E - Z.to_nat s)%nat with (S k) by (unfold k; lia). by rewrite (place_at_some E _ z Hz).
    - exists k. by rewrite (place_at_some E _ z Hz). }
  assert (length (drop (Z.to_nat s) (if reverse then rev E else E)) = length E - Z.to_nat s)%nat as Hl by (destruct reverse; rewrite length_drop, ?length_rev; done).
  rewrite (lp_emit_spec strtod m' E Hr reverse _ _ _ Hp) by lia. mstep. do 2 f_equal. unfold page. destruct (Z.ltb_spec (e - s + 1) 0); [lia|].
  assert ((if reverse then rev (keys E) else keys E) = keys (if reverse then rev E else E)) as -> by (destruct reverse; [by rewrite list_fmap_rev|done]).
  by rewrite <- fmap_drop, <- fmap_take, <- list_fmap_compose.
Qed.

(** The elements of a range. *)
Lemma page_keys (P : key -> bool) (Q : zent -> bool) E offset limit (reverse : bool) : (forall z, Q z = P (key_of z)) ->
  (fun z => emit (key_of z)) <$> page offset limit (if reverse then rev (List.filter Q E) else List.filter Q E) =
    zl_rangeby P offset limit reverse (keys E).
Proof using.
  intros HPQ. unfold zl_rangeby. rewrite <- (filter_fmap key_of P E). rewrite (List.filter_ext Q (fun z => P (key_of z)) HPQ).
  set (R := List.filter _ E). rewrite !page_limited.
  assert ((if reverse then rev (keys R) else keys R) = keys (if reverse then rev R else R)) as -> by (destruct reverse; [by rewrite list_fmap_rev|done]).
  by rewrite <- fmap_drop, <- limited_fmap, <- list_fmap_compose.
Qed.

Lemma filter_length (P : key -> bool) (Q : zent -> bool) E : (forall z, Q z = P (key_of z)) -> length (List.filter Q E) = length (List.filter P (keys E)).
Proof using. intros HPQ. rewrite <- (filter_fmap key_of P E), length_fmap. by rewrite (List.filter_ext Q (fun z => P (key_of z)) HPQ). Qed.

Lemma zl_rangeby_past P offset limit (reverse : bool) L : Z.of_nat (length L) <= offset -> zl_rangeby P offset limit reverse L = [].
Proof using.
  intros H. unfold zl_rangeby. set (R := List.filter P L). assert (length R <= length L)%nat by apply List.filter_length_le.
  rewrite page_limited, drop_ge; [by rewrite limited_nil|]. destruct reverse; rewrite ?length_rev; lia.
Qed.

Lemma rangebyscore_listpack m E range offset limit (reverse : bool) : zzl_ok m E -> good_range range -> paging offset limit ->
  exists m', genericZrangebyscore strtod (Zlistpack m) range offset limit reverse =
    Some (Zlistpack m', zl_rangeby (score_in range) offset limit reverse (keys E)) /\ zzl_ok m' E.
Proof using.
  intros Hok Hg [Ho Hlim]. unfold genericZrangebyscore, zsetLength.
  assert (exists m' n, (if 0 <? offset then r ← zzlLength m; Some (r.1, Zlistpack r.2) else Some (0, Zlistpack m)) = Some (n, Zlistpack m') /\ zzl_ok m' E /\
    (0 < offset -> n = Z.of_nat (length E))) as (m' & n & -> & Hok' & Hn).
  { destruct (Z.ltb_spec 0 offset); [|exists m, 0; split_and!; [done|done|lia]].
    destruct (zzlLength_ok m E Hok) as (m' & -> & Hok'). mstep. by exists m', (Z.of_nat (length E)). }
  mstep. exists m'. split; [|done]. pose proof (zk_rep Hok') as Hr. pose proof (elements_bound _ _ Hr) as Hb. destruct (Z.ltb_spec 0 offset) as [H0|H0]; cbn [andb].
  - rewrite Hn, wraps_id by (unfold fits_s; lia). destruct (Z.leb_spec (Z.of_nat (length E)) offset).
    { rewrite zl_rangeby_past; [done|]. by rewrite length_fmap. }
    rewrite (zrangeby_listpack_spec strtod m' E _ _ _ Hr (lp_score_range_ok m' E Hr (zk_set Hok') range Hg)) by lia. mstep.
    by rewrite (page_keys (score_in range)).
  - rewrite (zrangeby_listpack_spec strtod m' E _ _ _ Hr (lp_score_range_ok m' E Hr (zk_set Hok') range Hg)) by lia. mstep.
    by rewrite (page_keys (score_in range)).
Qed.

Lemma rangebylex_listpack m E range offset limit (reverse : bool) : zzl_ok m E -> same_scores (keys E) -> paging offset limit ->
  genericZrangebylex strtod (Zlistpack m) range offset limit reverse =
    Some (Zlistpack m, zl_rangeby (lex_in range) offset limit reverse (keys E)).
Proof using.
  intros Hok Hs [Ho Hlim]. unfold genericZrangebylex. pose proof (zk_rep Hok) as Hr. pose proof (elements_bound _ _ Hr) as Hb.
  rewrite (zrangeby_listpack_spec strtod m E _ _ _ Hr (lp_lex_range_ok m E Hr (zk_set Hok) range Hs)) by lia. mstep.
  by rewrite (page_keys (lex_in range)).
Qed.

Lemma zcount_listpack m E range : zzl_ok m E -> good_range range ->
  zcount strtod (Zlistpack m) range = Some (Z.of_nat (length (List.filter (score_in range) (keys E)))).
Proof using.
  intros Hok Hg. unfold zcount. pose proof (zk_rep Hok) as Hr. pose proof (elements_bound _ _ Hr) as Hb.
  rewrite (count_listpack_spec m E _ _ _ Hr (lp_score_range_ok m E Hr (zk_set Hok) range Hg)) by lia. by rewrite (filter_length (score_in range)).
Qed.

Lemma zlexcount_listpack m E range : zzl_ok m E -> same_scores (keys E) ->
  zlexcount (Zlistpack m) range = Some (Z.of_nat (length (List.filter (lex_in range) (keys E)))).
Proof using.
  intros Hok Hs. unfold zlexcount. pose proof (zk_rep Hok) as Hr. pose proof (elements_bound _ _ Hr) as Hb.
  rewrite (count_listpack_spec m E _ _ _ Hr (lp_lex_range_ok m E Hr (zk_set Hok) range Hs)) by lia. by rewrite (filter_length (lex_in range)).
Qed.

(** ** Removing *)

Context (usable : Z -> Z) (lpjunk : Z) (Husable : forall n, n <= usable n).

Lemma take_drop_sublist {A} i j (l : list A) : (i <= j)%nat -> take i l ++ drop j l `sublist_of` l.
Proof using.
  intros H. rewrite <- (take_drop i l) at 3. apply sublist_app; [done|]. replace j with (i + (j - i))%nat by lia. rewrite <- drop_drop. apply sublist_drop.
Qed.

(** Without the element at [i]. *)
Lemma remove_middle A z B : NoDup (keys (A ++ z :: B)).*2 -> keys (A ++ B) = zl_remove (z_ele z) (keys (A ++ z :: B)).
Proof using.
  rewrite !fmap_app, !fmap_cons. intros Hn. unfold zl_remove. rewrite filter_app, filter_cons_False by (cbn; tauto).
  apply NoDup_app in Hn as (_ & Hd & Hn). apply NoDup_cons in Hn as [Hn _].
  pose proof (zl_remove_absent (z_ele z) (keys A)) as H1. pose proof (zl_remove_absent (z_ele z) (keys B)) as H2. unfold zl_remove in *.
  rewrite H1, H2; [done|done|]. intros Hin. apply (Hd _ Hin). by left.
Qed.

Lemma remove_at E i z : sorted_set (keys E) -> E !! i = Some z -> keys (take i E ++ drop (S i) E) = zl_remove (z_ele z) (keys E).
Proof using.
  intros [_ Hn _] Hz. rewrite <- (take_drop_middle E i z Hz) in Hn. rewrite (remove_middle _ _ _ Hn). by rewrite (take_drop_middle E i z Hz).
Qed.

Lemma zsetDel_listpack ty cr m E e : zzl_ok m E ->
  exists m' E', zsetDel strtod usable lpjunk ty cr (Zlistpack m) e = Some (Zlistpack m', bool_decide (e ∈ (keys E).*2)) /\ zzl_ok m' E' /\
    keys E' = zl_remove e (keys E).
Proof using Husable.
  intros Hok. unfold zsetDel. rewrite (zzlFind_keys m E e Hok). mstep. destruct (zl_find e (keys E)) as [[i k]|] eqn:Ef.
  - apply (zl_find_some e _ i k (zk_set Hok)) in Ef as [Hi He]. rewrite list_lookup_fmap in Hi. apply fmap_Some in Hi as (z & Hz & ->). cbn in He. subst e.
    cbn [fmap option_fmap option_map fst]. destruct (zzlDelete_rep usable lpjunk m E i z Husable (zk_rep Hok) Hz) as (m' & -> & Hr'). mstep.
    eexists m', _. split_and!; [|eapply zzl_sublist; [done| |done]; apply take_drop_sublist; lia|by apply remove_at; [apply Hok|]].
    rewrite bool_decide_eq_true_2; [done|]. apply list_elem_of_fmap. exists (key_of z). split; [done|]. apply list_elem_of_fmap_2. by eapply list_elem_of_lookup_2.
  - apply zl_find_none in Ef. exists m, E. cbn. rewrite bool_decide_eq_false_2 by done. split_and!; [done|done|]. by rewrite zl_remove_absent.
Qed.

Lemma zzl_remaining m m' E E' (P : key -> bool) : zzl_ok m E -> E' = List.filter (fun z => negb (P (key_of z))) E -> rep m' (vals E') ->
  exists m2, zzlLength m' = Some (Z.of_nat (length E'), m2) /\ zzl_ok m2 E' /\ keys E' = List.filter (fun k => negb (P k)) (keys E).
Proof using.
  intros Hok -> Hr'. destruct (zzlLength_ok m' (List.filter (fun z => negb (P (key_of z))) E)) as (m2 & -> & Hok2).
  { eapply zzl_sublist; [done|apply list_filter_sublist|done]. }
  exists m2. split_and!; [done|done|]. apply (filter_fmap key_of (fun k => negb (P k))).
Qed.

Lemma empty_keys (E : list zent) : (Z.of_nat (length E) =? 0) = bool_decide (keys E = []).
Proof using. by destruct E. Qed.

(** A range that [delete_lp_range] deletes. *)
Lemma remrange_listpack m E range (G L : zent -> bool) (P : key -> bool) :
  zzl_ok m E -> lp_range_ok range G L m E -> (forall m E, rep m (vals E) -> tests m E (z_lte range) L) -> (forall z, G z && L z = P (key_of z)) ->
  exists m' E', (r ← delete_lp_range usable lpjunk m range; l ← zzlLength r.1; Some (Zlistpack l.2, r.2, l.1 =? 0)) =
    Some (Zlistpack m', Z.of_nat (length (List.filter P (keys E))), bool_decide (keys E' = [])) /\ zzl_ok m' E' /\
    keys E' = List.filter (fun k => negb (P k)) (keys E).
Proof using Husable.
  intros Hok Hrange Ht HP. pose proof (zk_rep Hok) as Hr. pose proof (elements_bound _ _ Hr) as Hb.
  destruct (delete_lp_range_spec usable lpjunk Husable m E range G L Hr Hrange Ht ltac:(lia)) as (m1 & -> & R1). mstep. cbn [fst snd].
  destruct (zzl_remaining m m1 E _ P Hok (List.filter_ext _ _ (fun z => f_equal negb (HP z)) E) R1) as (m2 & -> & Hok2 & Hk). mstep. cbn [fst snd].
  eexists m2, _. split_and!; [|exact Hok2|exact Hk]. by rewrite empty_keys, (filter_length P).
Qed.

Lemma zremrange_listpack ty cr m E range : zzl_ok m E -> zop_ok (ZRemRange range) (keys E) ->
  exists m' E' r, match range with
    | RANK start end_ => zremrangeByRank strtod usable lpjunk ty cr (Zlistpack m) start end_
    | _ => zremrange strtod usable lpjunk ty cr (Zlistpack m) range
    end = Some (Zlistpack m', r.1, r.2) /\ zzl_ok m' E' /\ (keys E', RRemRange r.1 r.2) = zl_remrange range (keys E).
Proof using Husable.
  intros Hok Hop. pose proof (zk_rep Hok) as Hr. pose proof (elements_bound _ _ Hr) as Hb. destruct range as [start end_|range|range]; cbn [zop_ok zl_remrange zl_removed] in *.
  - unfold zremrangeByRank, zsetLength. destruct (zzlLength_ok m E Hok) as (m1 & -> & Hok1). mstep. cbn [fst snd]. rewrite length_fmap.
    destruct (sanitize _ _ _) as [[s e]|] eqn:Es; [|by exists m1, E, (0, false)]. apply sanitize_spec in Es; [|lia].
    unfold zremrange, zzlDeleteRangeByRank. rewrite (wrapu_id 32 (s + 1)), (wrapu_id 32 (e + 1)) by (unfold fits_u; lia). replace (e + 1 - (s + 1) + 1) with (e - s + 1) by lia.
    replace (2 * (s + 1 - 1)) with (2 * s) by lia. rewrite (wrapu_id 32 (e - s + 1)), (wrapu_id 32 (2 * s)), (wrapu_id 32 (2 * (e - s + 1))) by (unfold fits_u; lia).
    destruct (lpDeleteRange_rep usable lpjunk Husable m1 (vals E) (2 * s) (2 * (e - s + 1)) (zk_rep Hok1)) as (m2 & -> & R2); [lia|]. mstep. cbn [fst snd].
    assert (range_result (vals E) (2 * s) (2 * (e - s + 1)) = vals (take (Z.to_nat s) E ++ drop (Z.to_nat (e + 1)) E)) as HE.
    { unfold range_result. rewrite length_vals. destruct (Z.ltb_spec (2 * s) 0); [lia|]. destruct (Z.eqb_spec (2 * (e - s + 1)) 0); [lia|].
      destruct (Z.leb_spec 0 (2 * s)); [|lia]. destruct (Z.ltb_spec (2 * s) (Z.of_nat (2 * length E))); [|lia]. cbn [orb andb negb].
      replace (Z.to_nat (2 * s)) with (2 * Z.to_nat s)%nat by lia. replace (Z.to_nat (2 * (e - s + 1))) with (2 * Z.to_nat (e - s + 1))%nat by lia.
      rewrite vals_take, !vals_drop, drop_drop, <- vals_app. do 3 f_equal. lia. }
    rewrite HE in R2.
    destruct (zzlLength_ok m2 (take (Z.to_nat s) E ++ drop (Z.to_nat (e + 1)) E)) as (m3 & -> & Hok3).
    { eapply zzl_sublist; [done| |done]. apply take_drop_sublist. lia. }
    mstep. cbn [fst snd]. set (E' := take (Z.to_nat s) E ++ drop (Z.to_nat (e + 1)) E) in *. exists m3, E', (e - s + 1, Z.of_nat (length E') =? 0).
    split_and!; [reflexivity|exact Hok3|]. cbn [fst snd]. rewrite empty_keys. unfold E'. rewrite fmap_app, fmap_take, fmap_drop. done.
  - destruct (remrange_listpack m E _ _ _ (score_in range) Hok (lp_score_range_ok m E Hr (zk_set Hok) range Hop)) as (m' & E' & H1 & H2 & H3); [|done|].
    { intros m0 E0 Hr0. apply (score_tests m0 E0 Hr0 range). }
    exists m', E', (Z.of_nat (length (List.filter (score_in range) (keys E))), bool_decide (keys E' = [])). split_and!; [exact H1|done|]. by rewrite <- H3.
  - destruct (remrange_listpack m E _ _ _ (lex_in range) Hok (lp_lex_range_ok m E Hr (zk_set Hok) range Hop)) as (m' & E' & H1 & H2 & H3); [|done|].
    { intros m0 E0 Hr0. apply (lex_tests m0 E0 Hr0 range). }
    exists m', E', (Z.of_nat (length (List.filter (lex_in range) (keys E))), bool_decide (keys E' = [])). split_and!; [exact H1|done|]. by rewrite <- H3.
Qed.

(** ** Inserting *)

Context (fpconv_dtoa : spec_float -> list Z) `{Htext : DoubleText strtod fpconv_dtoa}.
Context (Hvalue : 0 <= value < 2 ^ 31) (Hconf : 7 + entries * (value + 44) < 2 ^ 32).

Lemma put_keys i z E : keys (put i z E) = take i (keys E) ++ key_of z :: drop i (keys E).
Proof using. unfold put. by rewrite fmap_app, fmap_cons, fmap_take, fmap_drop. Qed.

Lemma put_perm i z E : put i z E ≡ₚ z :: E.
Proof using. unfold put. rewrite <- Permutation_middle. by rewrite take_drop. Qed.

(** The limits keep the block within its 32-bit size. *)
Lemma bound_fits E : Z.of_nat (length E) <= entries -> Forall (fun z => zlen (z_ele z) <= value) E -> lp_bound (keys E) < 2 ^ 32.
Proof using Hconf Hvalue.
  intros He Hv. assert (lp_bound (keys E) <= 7 + Z.of_nat (length E) * (value + 44)); [|nia].
  unfold lp_bound. clear Hconf He. induction Hv as [|z E Hz Hv IH]; [cbn; lia|]. rewrite fmap_cons. cbn [sum_list_with z_key snd length]. lia.
Qed.

Lemma put_ok m m' i E ele s : zzl_ok m E -> is_double s = true -> isnan s = false ->
  Z.of_nat (length E) + 1 <= entries -> zlen ele <= value ->
  let z := Zent ele (score_value (fpconv_dtoa := fpconv_dtoa) s) in
  rep m' (vals (put i z E)) -> sorted_set (keys (put i z E)) -> zzl_ok m' (put i z E).
Proof using Htext.
  intros Hok Hd Hn Hlen Hv z Hr Hset. destruct (score_value_spec s Hd Hn) as (Hf & _ & Hd'). split; [done|done| | | |].
  - rewrite put_perm. constructor; [done|apply Hok].
  - rewrite put_perm. constructor; [by apply score_value_short|apply Hok].
  - rewrite put_perm. cbn [length]. lia.
  - rewrite put_perm. constructor; [done|apply Hok].
Qed.

Lemma wf_value_of t : Forall is_byte t -> zlen t < 2 ^ 31 -> wf_lpv (value_of t).
Proof using.
  intros Hb Hl. unfold value_of. destruct (lpStringToInt64 t) as [v|] eqn:Hv; [by apply lpStringToInt64_spec in Hv as [? _]|]. split; [done|lia].
Qed.

Lemma put_wf E i ele s m : rep m (vals E) -> Forall is_byte ele -> zlen ele < 2 ^ 31 -> is_double s = true -> isnan s = false ->
  Forall wf_lpv (vals (put i (Zent ele (score_value (fpconv_dtoa := fpconv_dtoa) s)) E)).
Proof using Htext.
  intros (Hwf & _) Hb Hl Hd Hn. rewrite put_vals. cbn [z_ele z_val]. rewrite <- (take_drop i E), vals_app in Hwf. apply Forall_app in Hwf as [H1 H2].
  apply Forall_app. split; [done|]. constructor; [by apply wf_value_of|]. constructor; [|done].
  unfold score_value. destruct (double2ll s) as [v|] eqn:Hv; [by apply double2ll_spec in Hv as [? _]|].
  destruct (d2string_text s Hd Hn Hv) as (Hs1 & Hs2 & _). apply wf_value_of; [done|lia].
Qed.

Lemma put_fits m i E ele s : zzl_ok m E -> Forall is_byte ele -> is_double s = true -> isnan s = false ->
  Z.of_nat (length E) + 1 <= entries -> zlen ele <= value -> lp_total (vals (put i (Zent ele (score_value (fpconv_dtoa := fpconv_dtoa) s)) E)) < 2 ^ 32.
Proof using Htext Hconf Hvalue.
  intros Hok Hb Hd Hn Hlen Hv. set (z := Zent ele _). eapply Z.le_lt_trans; [apply (vals_size strtod)|apply bound_fits].
  - eapply put_wf; [apply Hok|done|lia|done|done].
  - rewrite put_perm. constructor; [by apply score_value_short|apply Hok].
  - rewrite put_perm. cbn [length]. lia.
  - rewrite put_perm. constructor; [done|apply Hok].
Qed.

Lemma zzlInsert_ok m E ele s : zzl_ok m E -> Forall is_byte ele -> is_double s = true -> isnan s = false -> ele ∉ (keys E).*2 ->
  Z.of_nat (length E) + 1 <= entries -> zlen ele <= value ->
  exists m' E', zzlInsert strtod fpconv_dtoa usable lpjunk m ele s = Some m' /\ zzl_ok m' E' /\ same (keys E') (zl_insert (s, ele) (keys E)).
Proof using Htext Hconf Hvalue Husable.
  intros Hok Hb Hd Hn He Hlen Hv. set (z := Zent ele (score_value (fpconv_dtoa := fpconv_dtoa) s)). set (i := place (strtod := strtod) E ele s 0).
  pose proof (put_fits m i E ele s Hok Hb Hd Hn Hlen Hv) as Hfit.
  destruct (zzlInsert_rep usable lpjunk Husable m E ele s (zk_rep Hok) Hb) as (m' & E1 & R1); [lia|done|done| | | |done|].
  - eapply Forall_impl; [exact (zk_value _ _ Hok)|]. cbn. lia.
  - pose proof (ss_num (zk_set Hok)) as H. by rewrite Forall_fmap in H.
  - intros y Hy [_ Ey]. apply He. cbn in Ey. rewrite <- Ey. apply (list_elem_of_fmap_2 snd _ (key_of y)). by apply list_elem_of_fmap_2.
  - fold i z in R1. exists m', (put i z E). assert (same (keys (put i z E)) (zl_insert (s, ele) (keys E))) as Hs.
    { rewrite put_keys. unfold zl_insert. replace (zl_pos (s, ele) (keys E)) with i.
      2: { unfold i, place, zl_pos. rewrite drop_0. clear. induction E as [|y E IH]; [done|]. rewrite fmap_cons. cbn [plen]. destruct (bool_decide _); [|done].
           cbn [Nat.add] in *. by rewrite IH. }
      apply Forall2_app; [done|]. constructor; [|done]. destruct (score_value_spec s Hd Hn) as (Hf & _). by split. }
    split; [done|]. split; [|done]. eapply put_ok; try done. eapply same_set; [symmetry; exact Hs|]. by apply zl_insert_ok; [apply Hok| |].
Qed.

(** At the end. *)
Lemma append_ok m E ele s : zzl_ok m E -> Forall is_byte ele -> is_double s = true -> isnan s = false ->
  Z.of_nat (length E) + 1 <= entries -> zlen ele <= value -> sorted_set (keys E ++ [(s, ele)]) ->
  exists m' E', zzlInsertAt fpconv_dtoa usable lpjunk m None ele s = Some m' /\ zzl_ok m' E' /\ same (keys E') (keys E ++ [(s, ele)]).
Proof using Htext Hconf Hvalue Husable.
  intros Hok Hb Hd Hn Hlen Hv Hset. set (z := Zent ele (score_value (fpconv_dtoa := fpconv_dtoa) s)).
  pose proof (put_fits m (length E) E ele s Hok Hb Hd Hn Hlen Hv) as Hfit.
  destruct (zzlInsertAt_rep usable lpjunk Husable m E (length E) ele s (zk_rep Hok)) as (m' & E1 & R1); [lia|done|lia|done|done|done|]. fold z in R1, Hfit.
  unfold eptr in E1. rewrite decide_False in E1 by lia. exists m', (put (length E) z E). split; [done|].
  assert (same (keys (put (length E) z E)) (keys E ++ [(s, ele)])) as Hs.
  { rewrite put_keys, <- (length_fmap key_of E), firstn_all, drop_all. apply Forall2_app; [done|]. constructor; [|constructor].
    destruct (score_value_spec s Hd Hn) as (Hf & _). by split. }
  split; [|done]. eapply put_ok; try done. eapply same_set; [symmetry; exact Hs|done].
Qed.
End correct.
