(* ===== verification/ZsetConvert.v ===== *)
(** * Conversions between the encodings of sorted sets

    Converting an object and copying it keep its elements and scores. *)
From S2P Require Import Prelude Numconv NumconvSpec Dict DictSpec DictCorrect DictIface Skiplist SkiplistSpec SkiplistOps SkiplistOrder SkiplistRange SkiplistDelete.
From S2P Require Import Zset ZsetSpec ZsetCorrect ZsetRange ZsetRun Double ZsetSame Zzl ZsetObj.
From S2P Require Import Listpack ListpackSpec ListpackNav ListpackFind ListpackOps ListpackRange ZzlSpec ZzlOps ZzlWalk ZzlRange ZzlCorrect.
From Stdlib Require Import ZArith Lia SpecFloat.
From stdpp Require Import prelude list gmap sorting.

#[local] Open Scope Z_scope.

Section convert.
  Context (strtod : list Z -> spec_float) (fpconv_dtoa : spec_float -> list Z) `{Htext : DoubleText strtod fpconv_dtoa}.
  Context (usable : Z -> Z) (lpjunk : Z) (Husable : forall n, n <= usable n).
  Context (zmalloc : zheap -> nat) (junk : nat -> option nat * (option nat * Z)) (ty : dictType sds).
  Context (Hmalloc : forall h, h !! zmalloc h = None) (Hval : no_value ty = false).
  Context (entries value : Z) (Hvalue : 0 <= value < 2 ^ 31) (Hconf : 7 + entries * (value + 44) < 2 ^ 32).
  #[local] Abbreviation key_of := (z_key strtod).
  #[local] Abbreviation keys E := (key_of <$> E).
  #[local] Abbreviation zzl_ok := (zzl_ok strtod entries value).

(** ** To a skiplist *)

Lemma insert_new_ok cr draws zs l s e :
  zset_ok ty zs l -> is_Some (zslRandomLevel draws) -> isnan s = false -> Z.of_nat (length l) < 2 ^ 63 - 1 -> e ∉ (c_key <$> l).*2 ->
  exists zs' l', insert_new zmalloc junk ty cr draws zs s e = Some (zs', true) /\ zset_ok ty zs' l' /\ c_key <$> l' = zl_insert (s, e) (c_key <$> l).
Proof using Hmalloc Hval.
  intros Hok [lvl Hl] Hs Hb He%zl_find_none. destruct (add_new zmalloc junk ty Hmalloc Hval cr draws lvl zs l s e) as (h & zsl & x & d & l' & E1 & E2 & Hok' & Hk); try done.
  unfold insert_new. rewrite E1. mstep. rewrite E2. mstep. by exists (Zset d zsl h), l'.
Qed.

(** A key above all others goes to the end, one below all others to the front. *)
Lemma insert_last k L : sorted_set (L ++ [k]) -> zl_insert k L = L ++ [k].
Proof using.
  intros [Hs Hn _]. apply sorted_unique; [|done|by rewrite zl_insert_perm, Permutation_app_comm]. apply zl_insert_sorted.
  - eapply sublist_sorted; [|exact Hs]. by apply sublist_inserts_r.
  - intros k' Hk' [_ E]. rewrite fmap_app in Hn. apply NoDup_app in Hn as (_ & Hn & _). apply (Hn k'.2); [by apply list_elem_of_fmap_2|]. rewrite E. by left.
Qed.

Lemma insert_first k L : sorted_set (k :: L) -> zl_insert k L = k :: L.
Proof using.
  intros [Hs Hn _]. apply sorted_unique; [|done|by rewrite zl_insert_perm]. apply zl_insert_sorted.
  - eapply sublist_sorted; [|exact Hs]. by apply sublist_cons.
  - intros k' Hk' [_ E]. rewrite fmap_cons in Hn. apply NoDup_cons in Hn as [Hn _]. apply Hn. rewrite <- E. by apply list_elem_of_fmap_2.
Qed.

Lemma sorted_set_prefix (L1 L2 : list key) : sorted_set (L1 ++ L2) -> sorted_set L1 /\ sorted_set L2.
Proof using. intros H. split; (eapply sublist_ok; [|exact H]); [by apply sublist_inserts_r|by apply sublist_inserts_l]. Qed.

Lemma sorted_set_fresh k (L1 L2 : list key) : sorted_set (L1 ++ k :: L2) -> (k.2 ∉ L1.*2) /\ (k.2 ∉ L2.*2).
Proof using.
  intros [_ Hn _]. rewrite fmap_app, fmap_cons in Hn. apply NoDup_app in Hn as (_ & Hd & Hn). apply NoDup_cons in Hn as [Hn _].
  split; [|done]. intros Hin. apply (Hd _ Hin). by left.
Qed.

Lemma convert_loop_ok cr draws m E : rep m (vals E) -> sorted_set (keys E) -> (forall k, is_Some (zslRandomLevel (draws k))) ->
  forall B A p fuel k zs l, E = A ++ B -> points E false p B -> (length B <= fuel)%nat -> zset_ok ty zs l -> c_key <$> l = keys A ->
  exists zs' l', convert_loop strtod zmalloc junk ty fuel cr draws m p k zs = Some (zs', (k + length B)%nat) /\ zset_ok ty zs' l' /\ c_key <$> l' = keys E.
Proof using Hmalloc Hval.
  intros Hr Hset Hdraws. induction B as [|z B IH]; intros A p fuel k zs l HE Hp Hf Hok Hl.
  - apply (points_step m E Hr) in Hp. subst p. exists zs, l. rewrite app_nil_r in HE. rewrite Nat.add_0_r, HE. split; [by destruct fuel|done].
  - pose proof (points_step m E Hr _ _ _ Hp) as (i & p' & Hz & -> & Hmv & _ & Hp'). destruct fuel as [|fuel]; [cbn in Hf; lia|]. cbn [convert_loop length] in *.
    rewrite (lp_score_at strtod m E Hr i z Hz). mstep. cbn [fst]. rewrite (object_at m E Hr i z Hz). mstep.
    assert (length l = length A) as Hlen by (rewrite <- (length_fmap c_key l), Hl, length_fmap; done).
    pose proof (elements_bound m E Hr) as Hb. assert (length E = length A + S (length B))%nat as HlE by (rewrite HE, length_app; done).
    rewrite HE, fmap_app, fmap_cons in Hset. destruct (sorted_set_fresh _ _ _ Hset) as [Hfr _].
    destruct (insert_new_ok cr (draws k) zs l (key_of z).1 (z_ele z)) as (zs1 & l1 & -> & Hok1 & Hl1); [done|done| |lia|by rewrite Hl|].
    { pose proof (ss_num Hset) as Hn. apply Forall_app in Hn as [_ Hn]. by apply Forall_cons in Hn as [? _]. }
    mstep. cbn [fst snd negb]. rewrite Hmv. mstep.
    destruct (IH (A ++ [z]) p' fuel (S k) zs1 l1) as (zs2 & l2 & -> & Hok2 & Hl2); [by rewrite <- app_assoc|done|lia|done| |].
    { rewrite Hl1, Hl, fmap_app. apply insert_last. apply (sorted_set_prefix _ (keys B)). rewrite <- app_assoc. exact Hset. }
    exists zs2, l2. split; [|done]. do 2 f_equal. lia.
Qed.

(** A new set whose dict was expanded. *)
Lemma new_expanded cr size : 0 <= size ->
  exists d ok, dictExpand cr ty (zs_dict (createZset zmalloc junk)) size = Some (d, ok) /\
    zset_ok ty (Zset d (zs_zsl (createZset zmalloc junk)) (zs_heap (createZset zmalloc junk))) [].
Proof using.
  intros Hs. pose proof (createZset_ok zmalloc junk ty) as Hok. destruct (dictExpand_spec cr ty (zs_dict (createZset zmalloc junk)) size) as (d & ok & -> & Hsim & _); [apply Hok|done|].
  exists d, ok. split; [done|]. apply dict_kept; [done|]. apply sim_yields; [apply Hok|done].
Qed.

Lemma convert_to_skiplist_ok cr draws m E cap : zzl_ok m E -> (forall k, is_Some (zslRandomLevel (draws k))) -> 0 <= cap ->
  exists zs l, convert_to_skiplist strtod zmalloc junk ty cr draws m cap = Some (zs, length E) /\ zset_ok ty zs l /\ c_key <$> l = keys E.
Proof using Hmalloc Hval.
  intros Hok Hd Hcap. pose proof (zk_rep _ _ _ _ _ Hok) as Hr. unfold convert_to_skiplist. destruct (new_expanded cr cap Hcap) as (d & ok & -> & Hnew). mstep. cbn [fst].
  rewrite (seek_ele m E Hr 0 : lpSeek m 0 = _). mstep. rewrite (at_element_spec m E Hr 0). mstep.
  destruct (convert_loop_ok cr draws m E Hr (zk_set _ _ _ _ _ Hok) Hd E [] (place_at E 0) (length m) 0 (Zset d (zs_zsl (createZset zmalloc junk)) (zs_heap (createZset zmalloc junk))) [] eq_refl)
    as (zs & l & -> & Hzs & Hl); [by exists 0%nat|by apply elements_fuel|exact Hnew|done|].
  by exists zs, l.
Qed.

(** ** To a listpack *)

(** The elements and scores that a listpack can store. *)
Definition storable (L : list key) : Prop := Forall (fun k => is_double k.1 = true /\ Forall is_byte k.2) L.

Lemma listpack_loop_ok h0 zsl l : SkiplistSpec.rep [] h0 zsl l -> NoDup (c_ele <$> l) -> storable (c_key <$> l) ->
  Z.of_nat (length l) <= entries -> Forall (fun c => zlen (c_ele c) <= value) l ->
  forall B A h m E fuel, l = A ++ B -> (forall c, c ∈ B -> h !! c_ptr c = h0 !! c_ptr c) -> (length B <= fuel)%nat -> zzl_ok m E -> same (keys E) (c_key <$> A) ->
  exists m' E', listpack_loop fpconv_dtoa usable lpjunk fuel m h (c_ptr <$> head B) = Some m' /\ zzl_ok m' E' /\ same (keys E') (c_key <$> l).
Proof using Htext Husable Hvalue Hconf.
  intros Hrep Hnd Hst Hlen Hlv. induction B as [|c B IH]; intros A h m E fuel Hl Hh Hf Hok Hsame.
  { exists m, E. rewrite app_nil_r in Hl. subst A. split; [by destruct fuel|done]. }
  destruct fuel as [|fuel]; [cbn in Hf; lia|]. cbn [listpack_loop head fmap option_fmap option_map length] in *.
  assert (l !! length A = Some c) as Hc by (rewrite Hl; by apply list_lookup_middle).
  destruct (node_at Hrep (length A) c Hc) as (n & Hn & He & Hs & Hg & _ & Hnext & _). rewrite (Hh c), Hn by (by left). mstep. rewrite He. mstep. rewrite Hs.
  rewrite Forall_forall in Hlv. unfold storable in Hst. rewrite Forall_fmap, Forall_forall in Hst. pose proof (list_elem_of_lookup_2 _ _ _ Hc) as Hin.
  destruct (Hst c Hin) as [Hd Hby]. assert (length E = length A) as HEA by (rewrite <- (length_fmap key_of E), (same_length _ _ Hsame), length_fmap; done).
  assert (sorted_set ((c_key <$> A) ++ c_key c :: (c_key <$> B))) as Hset.
  { rewrite <- fmap_cons, <- fmap_app, <- Hl. apply keys_sorted; [apply (rep_good Hrep)|apply (rep_sorted Hrep)|done]. }
  rewrite (cons_middle (c_key c)), app_assoc in Hset. apply sorted_set_prefix in Hset as [Hset _].
  destruct (append_ok strtod entries value usable lpjunk Husable fpconv_dtoa Hvalue Hconf m E (c_ele c) (c_score c)) as (m1 & E1 & -> & Hok1 & Hs1); try done.
  { rewrite HEA. rewrite Hl, length_app in Hlen. cbn [length] in Hlen. lia. } { by apply Hlv. }
  { eapply same_set; [|exact Hset]. apply Forall2_app; [by symmetry|done]. }
  mstep. unfold next_node in Hnext. destruct (level n !! 0%nat) as [lv|]; [|done]. mstep. cbn in Hnext. injection Hnext as Hnext. rewrite Hnext.
  unfold zslFreeNode. rewrite (Hh c), Hn by (by left). mstep.
  assert (l !! S (length A) = head B) as ->.
  { rewrite Hl. rewrite lookup_app_r by lia. replace (S (length A) - length A)%nat with 1%nat by lia. by destruct B. }
  apply (IH (A ++ [c]) (delete (c_ptr c) h) m1 E1 fuel); [by rewrite <- app_assoc| |lia|done|].
  - intros d Hd'. rewrite lookup_delete_ne; [apply Hh; by right|]. intros E'. pose proof (sh_nodup (rep_shape Hrep)) as Hnp. unfold addresses in Hnp.
    rewrite app_nil_r in Hnp. apply NoDup_cons in Hnp as [_ Hnp]. rewrite Hl, fmap_app, fmap_cons in Hnp. apply NoDup_app in Hnp as (_ & _ & Hnp).
    apply NoDup_cons in Hnp as [Hnp _]. apply Hnp. rewrite E'. by apply list_elem_of_fmap_2.
  - rewrite fmap_app. etrans; [exact Hs1|]. apply Forall2_app; [done|]. done.
Qed.

Lemma convert_to_listpack_ok zs l : zset_ok ty zs l -> storable (c_key <$> l) -> Z.of_nat (length l) <= entries -> Forall (fun c => zlen (c_ele c) <= value) l ->
  exists m E, convert_to_listpack fpconv_dtoa usable lpjunk zs = Some m /\ zzl_ok m E /\ same (keys E) (c_key <$> l).
Proof using Htext Husable Hvalue Hconf.
  intros Hok Hst Hlen Hlv. pose proof (zo_rep _ _ _ Hok) as Hrep. pose proof (rep_shape Hrep) as Hsh. unfold convert_to_listpack.
  destruct (lpNew_rep usable lpjunk Husable 0) as (m0 & -> & R0). mstep.
  rewrite (sh_lev Hsh 0 _ 0 eq_refl) by (apply (tall_at_bottom Hsh 0); lia). mstep. rewrite (fwd_bottom Hsh). cbn [fst].
  replace (l !! 0%nat) with (head l) by (by destruct l).
  apply (listpack_loop_ok (zs_heap zs) (zs_zsl zs) l Hrep (zo_nodup _ _ _ Hok) Hst Hlen Hlv l [] (delete (zsl_header (zs_zsl zs)) (zs_heap zs)) m0 []); [done| | | |constructor].
  - intros c Hc. rewrite lookup_delete_ne; [done|]. intros E. pose proof (sh_nodup Hsh) as Hnp. unfold addresses in Hnp.
    apply NoDup_cons in Hnp as [Hnp _]. apply Hnp. rewrite app_nil_r, E. by apply list_elem_of_fmap_2.
  - pose proof (shape_size Hsh). assert (is_Some (zs_heap zs !! zsl_header (zs_zsl zs))) as [n Hn] by (apply (sh_dom Hsh); by left).
    rewrite map_size_delete, Hn. cbn. lia.
  - split; [done|by repeat constructor|by constructor|by constructor|cbn; lia|by constructor].
Qed.
End convert.
