(* ===== verification/ZobjCorrect.v ===== *)
(** * Sorted set objects are sorted sets

    Whatever its encoding, and whenever it is converted or copied, an object
    stands for one sorted list, up to the sign of zeros. *)
From S2P Require Import Prelude Numconv NumconvSpec Dict DictSpec DictCorrect DictIface Skiplist SkiplistSpec SkiplistOps SkiplistOrder SkiplistRange SkiplistDelete.
From S2P Require Import Zset ZsetSpec ZsetCorrect ZsetRange ZsetRun Double ZsetSame Zzl ZsetObj.
From S2P Require Import Listpack ListpackSpec ListpackNav ListpackFind ListpackOps ListpackRange ZzlSpec ZzlOps ZzlWalk ZzlRange ZzlCorrect ZsetConvert.
From Stdlib Require Import ZArith Lia SpecFloat.
From stdpp Require Import prelude list gmap sorting.

#[local] Open Scope Z_scope.

(** ** Elements that can be stored *)

Lemma is_double_feq x y : feq x y -> is_double x = is_double y.
Proof. by intros [->|(s & t & -> & ->)]%feq_cases. Qed.

Lemma storable_same L L' : same L L' -> storable L -> storable L'.
Proof.
  intros H HL. eapply Forall2_Forall_r; [exact H|]. eapply Forall_impl; [exact HL|]. intros k [Hk1 Hk2] k' [E1 E2].
  by rewrite <- (is_double_feq _ _ E1), <- E2.
Qed.

Lemma storable_sublist L L' : L' `sublist_of` L -> storable L -> storable L'.
Proof. unfold storable. rewrite !Forall_forall. intros Hs H k Hk. apply H. by eapply elem_of_sublist. Qed.

Lemma storable_insert k L : storable L -> is_double k.1 = true -> Forall is_byte k.2 -> storable (zl_insert k L).
Proof. intros H H1 H2. unfold storable. rewrite zl_insert_perm. by constructor. Qed.

Lemma storable_add s e o L : storable L -> is_double s = true -> Forall is_byte e -> storable (zl_add s e o L).1.
Proof.
  intros H Hs He. unfold zl_add, zl_score. destruct (zl_find e L) as [[i k]|] eqn:Ef; cbn [fmap option_fmap option_map snd].
  - assert (is_double k.1 = true) as Hk.
    { apply list_find_Some in Ef as (Hi & _ & _). unfold storable in H. rewrite Forall_forall in H. by apply (H k), list_elem_of_lookup_2 with i. }
    repeat case_match; cbn [fst]; try done; (apply storable_insert; [by eapply storable_sublist; [apply sublist_filter|]| |done]); cbn; [by apply dadd_double|done].
  - destruct (opt_xx o); [done|]. by apply storable_insert.
Qed.

(** ** Objects *)

Section objects.
  Context (strtod : list Z -> spec_float) (fpconv_dtoa : spec_float -> list Z) `{Htext : DoubleText strtod fpconv_dtoa}.
  Context (usable : Z -> Z) (lpjunk : Z) (Husable : forall n, n <= usable n).
  Context (zmalloc : zheap -> nat) (junk : nat -> option nat * (option nat * Z)) (ty : dictType sds).
  Context (Hmalloc : forall h, h !! zmalloc h = None) (Hval : no_value ty = false).
  Context (entries value : Z) (Hentries : 0 <= entries) (Hvalue : 0 <= value < 2 ^ 31) (Hconf : 7 + entries * (value + 44) < 2 ^ 32).
  #[local] Abbreviation keys E := (z_key strtod <$> E).
  #[local] Abbreviation zzl_ok := (zzl_ok strtod entries value).

(** The keys of an object. *)
Definition obj_keys (o : zobj) (K : list key) : Prop :=
  match o with
  | Zlistpack m => exists E, zzl_ok m E /\ K = keys E
  | Zskiplist zs => exists l, zset_ok ty zs l /\ K = c_key <$> l
  end.

Lemma obj_keys_set o K : obj_keys o K -> sorted_set K.
Proof using. destruct o; intros (x & Hx & ->); [apply Hx|by eapply zset_sorted]. Qed.

Lemma zsetLength_ok o K : obj_keys o K -> exists o', zsetLength o = Some (Z.of_nat (length K), o') /\ obj_keys o' K /\
  (match o, o' with Zlistpack _, Zlistpack _ | Zskiplist _, Zskiplist _ => True | _, _ => False end).
Proof using.
  destruct o as [m|zs]; intros (x & Hx & ->); cbn [zsetLength].
  - destruct (zzlLength_ok strtod entries value m x Hx) as (m' & -> & Hok'). mstep. exists (Zlistpack m'). rewrite length_fmap. split; [done|]. split; [by exists x|done].
  - exists (Zskiplist zs). rewrite length_fmap, (sh_length (rep_shape (zo_rep _ _ _ Hx))). split; [done|]. split; [by exists x|done].
Qed.

(** ** Creation and conversion *)

Lemma zsetTypeCreate_ok cr size_hint val_len_hint : 0 <= size_hint ->
  exists o, zsetTypeCreate usable lpjunk zmalloc junk ty entries value cr size_hint val_len_hint = Some o /\ obj_keys o [].
Proof using Husable Hentries.
  intros Hs. unfold zsetTypeCreate. destruct (_ && _).
  - unfold createZsetListpackObject. destruct (lpNew_rep usable lpjunk Husable 0) as (m & -> & Hr). exists (Zlistpack m). split; [done|].
    exists []. split; [|done]. split; [done|by repeat constructor|by constructor|by constructor|cbn; lia|by constructor].
  - destruct (new_expanded zmalloc junk ty cr size_hint Hs) as (d & ok & -> & Hok). mstep. eexists. split; [done|]. by exists [].
Qed.

Lemma to_skiplist_ok cr draws o K cap : obj_keys o K -> (forall k, is_Some (zslRandomLevel (draws k))) -> 0 <= cap ->
  exists zs n l, zsetConvertAndExpand strtod fpconv_dtoa usable lpjunk zmalloc junk ty cr draws o OBJ_ENCODING_SKIPLIST cap = Some (Zskiplist zs, n) /\
    zset_ok ty zs l /\ K = c_key <$> l.
Proof using Hmalloc Hval.
  intros Ho Hd Hc. destruct o as [m|zs]; destruct Ho as (x & Hx & ->); cbn [zsetConvertAndExpand].
  - destruct (convert_to_skiplist_ok strtod zmalloc junk ty Hmalloc Hval entries value cr draws m x cap Hx Hd Hc) as (zs & l & -> & Hok & Hl).
    mstep. by exists zs, (length x), l.
  - by exists zs, 0%nat, x.
Qed.

Lemma to_listpack_ok cr draws o K cap : obj_keys o K -> storable K -> Z.of_nat (length K) <= entries -> Forall (fun k => zlen k.2 <= value) K ->
  exists m n E, zsetConvertAndExpand strtod fpconv_dtoa usable lpjunk zmalloc junk ty cr draws o OBJ_ENCODING_LISTPACK cap = Some (Zlistpack m, n) /\
    zzl_ok m E /\ same (keys E) K.
Proof using Htext Husable Hvalue Hconf.
  intros Ho Hst Hlen Hv. destruct o as [m|zs]; destruct Ho as (x & Hx & ->); cbn [zsetConvertAndExpand].
  - by exists m, 0%nat, x.
  - rewrite length_fmap in Hlen. rewrite Forall_fmap in Hv.
    destruct (convert_to_listpack_ok strtod fpconv_dtoa usable lpjunk Husable ty entries value Hvalue Hconf zs x Hx Hst Hlen Hv) as (m & E & -> & Hok & Hs).
    mstep. by exists m, 0%nat, E.
Qed.

(** ** Copies *)

Lemma dup_loop_ok cr draws h zsl l : SkiplistSpec.rep [] h zsl l -> NoDup (c_ele <$> l) -> (forall k, is_Some (zslRandomLevel (draws k))) ->
  forall A B k zs l', l = A ++ B -> zset_ok ty zs l' -> c_key <$> l' = c_key <$> B ->
  exists zs2 l2, dup_loop zmalloc junk ty (length A) cr draws h (c_ptr <$> last A) k zs = Some zs2 /\ zset_ok ty zs2 l2 /\ c_key <$> l2 = c_key <$> l.
Proof using Hmalloc Hval.
  intros Hrep Hnd Hd. induction A as [|c A IH] using rev_ind; intros B k zs l' Hl Hok Hl'.
  { exists zs, l'. cbn. by rewrite Hl', Hl. }
  assert (l !! length A = Some c) as Hc by (rewrite Hl, <- app_assoc; by apply list_lookup_middle).
  destruct (node_at Hrep (length A) c Hc) as (n & Hn & He & Hs & Hg & _ & _ & Hprev).
  rewrite length_app, Nat.add_comm, last_snoc. cbn [length Nat.add dup_loop fmap option_fmap option_map]. mstep. rewrite Hn. mstep. rewrite He. mstep. rewrite Hs.
  assert (sorted_set (c_key <$> l)) as Hset by (apply keys_sorted; [apply (rep_good Hrep)|apply (rep_sorted Hrep)|done]).
  rewrite Hl, <- app_assoc in Hset. cbn [app] in Hset. rewrite fmap_app, fmap_cons in Hset. destruct (sorted_set_fresh _ _ _ Hset) as [_ Hfr]. apply sorted_set_prefix in Hset as [_ Hset].
  assert (length l' = length B) as Hlen by (rewrite <- (length_fmap c_key l'), Hl', length_fmap; done).
  pose proof (sh_bound (rep_shape Hrep)) as Hb. rewrite Hl, !length_app in Hb. cbn [length] in Hb.
  destruct (insert_new_ok zmalloc junk ty Hmalloc Hval cr (draws k) zs l' (c_score c) (c_ele c)) as (zs1 & l1 & -> & Hok1 & Hl1); [done|done|done|lia|by rewrite Hl'|].
  mstep. cbn [fst]. assert (backward n = c_ptr <$> last A) as ->.
  { cbn in Hprev. injection Hprev as ->. rewrite last_lookup. destruct (length A) as [|j] eqn:EA; [by destruct A|]. cbn.
    rewrite Hl, <- app_assoc, lookup_app_l by lia. done. }
  apply (IH (c :: B) (S k) zs1 l1); [by rewrite Hl, <- app_assoc|done|]. rewrite Hl1, Hl', fmap_cons. by apply insert_first.
Qed.

Lemma load_all m n slack : n = zlen m -> load_bytes (m ++ slack) 0 n = Some m.
Proof using. intros ->. unfold load_bytes. rewrite inside_true by (rewrite ?length_app; lia). unfold mem_read. rewrite Nat2Z.id. change (drop (Z.to_nat 0) (m ++ slack)) with (m ++ slack). by rewrite take_app_length. Qed.

Lemma zsetDup_ok cr draws o K : obj_keys o K -> (forall k, is_Some (zslRandomLevel (draws k))) ->
  exists o', zsetDup zmalloc junk ty cr draws o = Some o' /\ obj_keys o' K.
Proof using Hmalloc Hval.
  intros Ho Hd. destruct o as [m|zs]; destruct Ho as (x & Hx & ->); cbn [zsetDup].
  - pose proof (zk_rep _ _ _ _ _ Hx) as Hr. rewrite (rep_total _ _ Hr : lpBytes m = _). mstep. pose proof Hr as (Hwf & Ht & num & slack & Hc & ->).
    replace (lp_block num (vals x) slack) with (lp_block num (vals x) [] ++ slack) by (unfold lp_block; by rewrite <- !app_assoc).
    rewrite load_all by (unfold lp_block, lp_total, hdr; rewrite !length_app, !length_le_encode; cbn [length]; lia). mstep. eexists. split; [done|].
    exists x. split; [|done]. eapply zzl_sublist; [exact Hx|done|]. split_and!; [done|done|by exists num, []].
  - pose proof (zo_rep _ _ _ Hx) as Hrep. pose proof (rep_shape Hrep) as Hsh.
    destruct (new_expanded zmalloc junk ty cr (dictSize (zs_dict zs))) as (d & ok & -> & Hnew); [rewrite (dictSize_map ty) by apply Hx; lia|]. mstep. cbn [fst].
    rewrite (sh_length Hsh), wraps_id, Nat2Z.id, (sh_tail Hsh) by (unfold fits_s; pose proof (sh_bound Hsh); lia).
    destruct (dup_loop_ok cr draws (zs_heap zs) (zs_zsl zs) x Hrep (zo_nodup _ _ _ Hx) Hd x [] 0 _ [] (eq_sym (app_nil_r x)) Hnew eq_refl) as (zs2 & l2 & -> & Hok2 & Hl2).
    mstep. eexists. split; [done|]. by exists l2.
Qed.

(** ** Adding *)

Lemma zl_find_key m E e i k : zzl_ok m E -> zl_find e (keys E) = Some (i, k) ->
  exists z, E !! i = Some z /\ k = z_key strtod z /\ z_ele z = e /\ is_double k.1 = true /\ zlen e <= value.
Proof using.
  intros Hok Ef. apply (zl_find_some e _ i k (zk_set _ _ _ _ _ Hok)) in Ef as [Hi He]. rewrite list_lookup_fmap in Hi. apply fmap_Some in Hi as (z & Hz & ->).
  exists z. pose proof (list_elem_of_lookup_2 _ _ _ Hz) as Hin. pose proof (zk_double _ _ _ _ _ Hok) as Hd. pose proof (zk_value _ _ _ _ _ Hok) as Hv.
  rewrite Forall_forall in Hd, Hv. specialize (Hd z Hin). specialize (Hv z Hin). cbn in He. subst e. done.
Qed.

(** Rescoring in a listpack: the element is deleted and inserted again. *)
Lemma rescore_ok m E i z s : zzl_ok m E -> E !! i = Some z -> Forall is_byte (z_ele z) -> is_double s = true -> isnan s = false ->
  exists m' E', (m ← zzlDelete usable lpjunk m (eoff E i); zzlInsert strtod fpconv_dtoa usable lpjunk m (z_ele z) s) = Some m' /\ zzl_ok m' E' /\
    same (keys E') (zl_insert (s, z_ele z) (zl_remove (z_ele z) (keys E))).
Proof using Htext Husable Hvalue Hconf.
  intros Hok Hz Hb Hd Hn. destruct (zzlDelete_rep usable lpjunk m E i z Husable (zk_rep _ _ _ _ _ Hok) Hz) as (m1 & -> & R1). mstep.
  set (E1 := take i E ++ drop (S i) E) in *. pose proof (lookup_lt_Some _ _ _ Hz) as Hi.
  assert (zzl_ok m1 E1) as Hok1 by (eapply zzl_sublist; [exact Hok|apply take_drop_sublist; lia|done]).
  pose proof (remove_at strtod E i z (zk_set _ _ _ _ _ Hok) Hz) as Hk. fold E1 in Hk. rewrite <- Hk.
  apply (zzlInsert_ok strtod entries value usable lpjunk Husable fpconv_dtoa Hvalue Hconf); try done.
  - rewrite Hk, elem_of_remove. by intros [? _].
  - unfold E1. rewrite length_app, length_take, length_drop. pose proof (zk_entries _ _ _ _ _ Hok). lia.
  - pose proof (zk_value _ _ _ _ _ Hok) as Hv. rewrite Forall_forall in Hv. by apply Hv, (list_elem_of_lookup_2 _ i).
Qed.

Lemma zsetAdd_listpack_ok cr draws m E s e o :
  zzl_ok m E -> (forall k, is_Some (zslRandomLevel (draws k))) -> isnan s = false -> is_double s = true -> Forall is_byte e ->
  (exists m' E', zsetAdd_listpack strtod fpconv_dtoa usable lpjunk zmalloc junk ty entries value cr draws m s e o =
     Some (inl (Zlistpack m', (zl_add s e o (keys E)).2)) /\ zzl_ok m' E' /\ same (keys E') (zl_add s e o (keys E)).1) \/
  (exists zs n l, zsetAdd_listpack strtod fpconv_dtoa usable lpjunk zmalloc junk ty entries value cr draws m s e o = Some (inr (Zskiplist zs, n)) /\
     zset_ok ty zs l /\ keys E = c_key <$> l).
Proof using Htext Husable Hvalue Hconf Hmalloc Hval.
  intros Hok Hdr Hs Hd Hb. unfold zsetAdd_listpack, zl_add, zl_score. rewrite (zzlFind_keys strtod entries value m E e Hok). mstep.
  destruct (zl_find e (keys E)) as [[i k]|] eqn:Ef; cbn [fmap option_fmap option_map fst snd].
  - left. destruct (zl_find_key m E e i k Hok Ef) as (z & Hz & -> & <- & Hdk & Hv). destruct (opt_nx o); [by exists m, E|].
    set (s' := if opt_incr o then dadd s (z_key strtod z).1 else s).
    assert (opt_incr o && isnan s' = isnan s') as -> by (unfold s'; by destruct (opt_incr o); [|rewrite Hs]).
    assert (is_double s' = true) as Hd' by (unfold s'; destruct (opt_incr o); [by apply dadd_double|done]).
    destruct (isnan s') eqn:Hn; [by exists m, E|]. destruct (_ || _); [by exists m, E|]. destruct (SFeqb s' (z_key strtod z).1); cbn [negb]; [by exists m, E|].
    destruct (rescore_ok m E i z s' Hok Hz Hb Hd' Hn) as (m' & E' & E1 & Hok' & Hs'). destruct (zzlDelete usable lpjunk m (eoff E i)) as [m1|]; [|done].
    mstep in E1. mstep. rewrite E1. mstep. by exists m', E'.
  - destruct (opt_xx o); cbn [negb]; [left; by exists m, E|]. destruct (zzlLength_ok strtod entries value m E Hok) as (m1 & -> & Hok1). mstep. cbn [fst snd].
    pose proof (elements_bound m1 E (zk_rep _ _ _ _ _ Hok1)) as Hbd. unfold lpSafeToAdd. rewrite (rep_total _ _ (zk_rep _ _ _ _ _ Hok1)). mstep.
    rewrite wrapu_id by (unfold fits_u; lia). destruct (Z.ltb_spec entries (Z.of_nat (length E) + 1)) as [H1|H1]; cbn [orb].
    2: destruct (Z.ltb_spec value (zlen e)) as [H2|H2]; cbn [orb]; [|destruct (Z.shiftl 1 30 <? _); cbn [negb orb]].
    4: { left. destruct (zzlInsert_ok strtod entries value usable lpjunk Husable fpconv_dtoa Hvalue Hconf m1 E e s) as (m2 & E2 & -> & Hok2 & Hs2); try done.
         { by apply zl_find_none. } mstep. by exists m2, E2. }
    all: right; destruct (zsetLength_ok (Zlistpack m1) (keys E)) as (o' & -> & Ho' & _); [by exists E|]; mstep; cbn [fst snd];
      destruct (to_skiplist_ok cr draws o' (keys E) (Z.of_nat (length (keys E)) + 1) Ho' Hdr ltac:(lia)) as (zs & n & l & -> & Hzs & Hl); mstep; by exists zs, n, l.
Qed.

Lemma zsetAdd_obj_ok cr draws o K s e flags :
  obj_keys o K -> (forall k, is_Some (zslRandomLevel (draws k))) -> isnan s = false -> is_double s = true -> Forall is_byte e -> Z.of_nat (length K) < 2 ^ 63 - 1 ->
  exists o' K', zsetAdd strtod fpconv_dtoa usable lpjunk zmalloc junk ty entries value cr draws o s e flags = Some (o', (zl_add s e (options flags) K).2) /\
    obj_keys o' K' /\ same K' (zl_add s e (options flags) K).1.
Proof using Htext Husable Hvalue Hconf Hmalloc Hval.
  intros Ho Hdr Hs Hd Hb Hlen. unfold zsetAdd. rewrite Hs.
  assert (forall zs l n, zset_ok ty zs l -> K = c_key <$> l -> exists o' K',
    (r ← zsetAdd_skiplist zmalloc junk ty cr (draws n) zs s e (options flags); Some (Zskiplist r.1, r.2)) = Some (o', (zl_add s e (options flags) K).2) /\
    obj_keys o' K' /\ same K' (zl_add s e (options flags) K).1) as Hsk.
  { intros zs l n Hzs ->. rewrite length_fmap in Hlen. destruct (Hdr n) as [lvl Hl].
    destruct (zsetAdd_ok zmalloc junk ty Hmalloc Hval cr (draws n) lvl zs l s e (options flags)) as (zs' & l' & -> & Hok' & Hl'); try done.
    mstep. exists (Zskiplist zs'), (c_key <$> l'). split; [done|]. split; [by exists l'|]. by rewrite Hl'. }
  destruct o as [m|zs]; destruct Ho as (x & Hx & HK).
  - destruct (zsetAdd_listpack_ok cr draws m x s e (options flags) Hx Hdr Hs Hd Hb) as [(m' & E' & -> & Hok' & Hs')|(zs & n & l & -> & Hzs & Hl)]; mstep; cbv iota.
    + subst K. exists (Zlistpack m'), (keys E'). split; [done|]. split; [by exists E'|done].
    + apply (Hsk zs l n Hzs). by rewrite HK.
  - mstep. by apply (Hsk zs x 0%nat Hx).
Qed.
End objects.
