(* ===== verification/ZobjRun.v ===== *)
(** * Sequences of operations on sorted set objects

    The operations of ZsetRun.v on objects of either encoding, with the
    conversions and copies between them. *)
From S2P Require Import Prelude Numconv NumconvSpec Dict DictSpec DictCorrect DictIface Skiplist SkiplistSpec SkiplistOps SkiplistOrder SkiplistRange SkiplistDelete.
From S2P Require Import Zset ZsetSpec ZsetCorrect ZsetRange ZsetRun Double ZsetSame Zzl ZsetObj.
From S2P Require Import Listpack ListpackSpec ListpackNav ListpackFind ListpackOps ListpackRange ZzlSpec ZzlOps ZzlWalk ZzlRange ZzlCorrect ZsetConvert ZobjCorrect.
From Stdlib Require Import ZArith Lia SpecFloat.
From stdpp Require Import prelude list gmap sorting.

#[local] Open Scope Z_scope.

(** A command, or a call that changes only the encoding or makes a copy. *)
Inductive obj_op :=
  | Cmd (op : zop)
  | MaybeConvert (size_hint value_len_hint : Z)
  | ToListpackIfNeeded (maxelelen totelelen : Z)
  | ToSkiplist
  | Dup.

(** On the sorted list the latter do nothing. *)
Definition ol_step (op : obj_op) (L : list key) : list key * option zres :=
  match op with Cmd op => let r := zl_step op L in (r.1, Some r.2) | _ => (L, None) end.

Fixpoint ol_run (ops : list obj_op) (L : list key) : list key * list (option zres) :=
  match ops with
  | [] => (L, [])
  | op :: ops => let r := ol_step op L in let rs := ol_run ops r.1 in (rs.1, r.2 :: rs.2)
  end.

(** The callers' part: what commands check, elements shorter than 2 GB, no
    empty set (the key is deleted with the last element), and sizes that bound
    the elements. *)
Definition cmd_ok (op : zop) (L : list key) : Prop :=
  match op with
  | ZAdd s e _ => is_double s = true /\ Forall is_byte e /\ zlen e < 2 ^ 31
  | ZRank e _ => L <> [] /\ zlen e < 2 ^ 31
  | ZRem e | ZScore e => zlen e < 2 ^ 31
  | _ => True
  end.

Definition obj_op_ok (op : obj_op) (L : list key) : Prop :=
  match op with
  | Cmd op => zop_ok op L /\ cmd_ok op L
  | MaybeConvert size_hint _ => 0 <= size_hint
  | ToListpackIfNeeded maxelelen _ => Forall (fun k => zlen k.2 <= maxelelen) L
  | ToSkiplist | Dup => True
  end.

Fixpoint obj_ops_ok (max : Z) (ops : list obj_op) (L : list key) : Prop :=
  match ops with
  | [] => True
  | op :: ops => obj_op_ok op L /\ Z.of_nat (length L) < max /\ obj_ops_ok max ops (ol_step op L).1
  end.

(** The results agree up to the sign of zeros. *)
Definition same_results : list (option zres) -> list (option zres) -> Prop := Forall2 (option_Forall2 same_res).

Section run.
  Context (strtod : list Z -> spec_float) (fpconv_dtoa : spec_float -> list Z) (usable : Z -> Z) (lpjunk : Z).
  Context (zmalloc : zheap -> nat) (junk : nat -> option nat * (option nat * Z)) (ty : dictType sds) (entries value : Z).

Definition obj_cmd (cr : dictResizeEnable) (draws : nat -> list Z) (op : zop) (o : zobj) : option (zobj * zres) :=
  match op with
  | ZAdd s e flags => r ← zsetAdd strtod fpconv_dtoa usable lpjunk zmalloc junk ty entries value cr draws o s e flags; Some (r.1, RAdd r.2)
  | ZRem e => r ← zsetDel strtod usable lpjunk ty cr o e; Some (r.1, RRem r.2)
  | ZScore e => r ← zsetScore strtod ty cr o e; Some (r.1, RScore r.2)
  | ZRank e reverse => r ← zsetRank strtod ty cr o e reverse; Some (r.1.1, RRank r.1.2 r.2)
  | ZRemRange range =>
      r ← match range with
          | RANK start end_ => zremrangeByRank strtod usable lpjunk ty cr o start end_
          | _ => zremrange strtod usable lpjunk ty cr o range
          end;
      Some (r.1.1, RRemRange r.1.2 r.2)
  | ZRangeRank start end_ reverse => r ← genericZrangebyrank strtod o start end_ reverse; Some (r.1, RRange r.2)
  | ZRangeScore range offset limit reverse => r ← genericZrangebyscore strtod o range offset limit reverse; Some (r.1, RRange r.2)
  | ZRangeLex range offset limit reverse => r ← genericZrangebylex strtod o range offset limit reverse; Some (r.1, RRange r.2)
  | ZCount range => n ← zcount strtod o range; Some (o, RCount n)
  | ZLexCount range => n ← zlexcount o range; Some (o, RCount n)
  end.

Definition obj_step (cr : dictResizeEnable) (draws : nat -> list Z) (op : obj_op) (o : zobj) : option (zobj * option zres) :=
  match op with
  | Cmd op => r ← obj_cmd cr draws op o; Some (r.1, Some r.2)
  | MaybeConvert size_hint len_hint =>
      r ← zsetTypeMaybeConvert strtod fpconv_dtoa usable lpjunk zmalloc junk ty entries value cr draws o size_hint len_hint; Some (r.1, None)
  | ToListpackIfNeeded maxelelen totelelen =>
      o ← zsetConvertToListpackIfNeeded strtod fpconv_dtoa usable lpjunk zmalloc junk ty entries value cr draws o maxelelen totelelen; Some (o, None)
  | ToSkiplist => r ← zsetConvert strtod fpconv_dtoa usable lpjunk zmalloc junk ty cr draws o OBJ_ENCODING_SKIPLIST; Some (r.1, None)
  | Dup => o ← zsetDup zmalloc junk ty cr draws o; Some (o, None)
  end.

Fixpoint obj_run (calls : list (dictResizeEnable * (nat -> list Z) * obj_op)) (o : zobj) : option (zobj * list (option zres)) :=
  match calls with
  | [] => Some (o, [])
  | (cr, draws, op) :: calls =>
      r ← obj_step cr draws op o;
      rs ← obj_run calls r.1;
      Some (rs.1, r.2 :: rs.2)
  end.

Context `{Htext : DoubleText strtod fpconv_dtoa} (Husable : forall n, n <= usable n).
Context (Hmalloc : forall h, h !! zmalloc h = None) (Hval : no_value ty = false).
Context (Hentries : 0 <= entries) (Hvalue : 0 <= value < 2 ^ 31) (Hconf : 7 + entries * (value + 44) < 2 ^ 32).
#[local] Abbreviation keys E := (z_key strtod <$> E).
#[local] Abbreviation zzl_ok := (zzl_ok strtod entries value).
#[local] Abbreviation obj_keys := (obj_keys strtod ty entries value).

(** On a skiplist a command is the one of ZsetRun.v. *)
Lemma obj_cmd_skiplist cr draws op zs L : zop_ok op L ->
  obj_cmd cr draws op (Zskiplist zs) = r ← zstep zmalloc junk ty cr (draws 0%nat) op zs; Some (Zskiplist r.1, r.2).
Proof using.
  intros Hop. destruct op as [s e flags|e|e|e rv|[start end_|range|range]|start end_ rv|range o li rv|range o li rv|range|range]; cbn [obj_cmd zstep zop_ok] in *.
  - unfold zsetAdd. rewrite Hop. mstep. by destruct (zsetAdd_skiplist _ _ _ _ _ _ _ _ _).
  - cbn [zsetDel]. by destruct (zsetRemoveFromSkiplist _ _ _ _).
  - cbn [zsetScore]. by destruct (zsetScore_skiplist _ _ _ _).
  - unfold zsetRank, zsetLength. mstep. by destruct (zsetRank_skiplist _ _ _ _ _).
  - unfold zremrangeByRank, zsetLength. mstep. cbn [fst snd]. destruct (sanitize _ _ _) as [[s e]|]; [|done]. cbn [zremrange]. by destruct (zremrange_skiplist _ _ _ _).
  - cbn [zremrange]. by destruct (zremrange_skiplist _ _ _ _).
  - cbn [zremrange]. by destruct (zremrange_skiplist _ _ _ _).
  - unfold genericZrangebyrank, zsetLength. mstep. by destruct (zrangebyrank_skiplist _ _ _ _).
  - unfold genericZrangebyscore, zsetLength, zrangebyscore_skiplist. destruct (0 <? o); mstep; cbn [andb]; [destruct (_ <=? o); [done|]|]; by destruct (zrangeby_skiplist _ _ _ _ _).
  - cbn [genericZrangebylex]. by destruct (zrangebylex_skiplist _ _ _ _ _).
  - cbn [zcount]. by destruct (zcount_skiplist _ _).
  - cbn [zlexcount]. by destruct (zlexcount_skiplist _ _).
Qed.

Lemma obj_cmd_ok cr draws op o K : obj_keys o K -> (forall k, is_Some (zslRandomLevel (draws k))) -> Z.of_nat (length K) < 2 ^ 32 - 1 ->
  zop_ok op K -> cmd_ok op K ->
  exists o' K', obj_cmd cr draws op o = Some (o', (zl_step op K).2) /\ obj_keys o' K' /\ same K' (zl_step op K).1.
Proof using Htext Husable Hmalloc Hval Hvalue Hconf.
  intros Ho Hdr Hlen Hop Hcmd. destruct o as [m|zs].
  2: { destruct Ho as (l & Hl & ->). rewrite (obj_cmd_skiplist cr draws op zs _ Hop). rewrite length_fmap in Hlen.
       destruct (zstep_ok zmalloc junk ty Hmalloc Hval cr (draws 0%nat) op zs l Hl (Hdr 0%nat) Hlen Hop) as (zs' & l' & r & -> & Hok' & E'). mstep. cbn [fst snd].
       exists (Zskiplist zs'), (c_key <$> l'). rewrite <- E'. split; [done|]. split; [by exists l'|done]. }
  destruct op as [s e flags|e|e|e rv|range|start end_ rv|range o li rv|range o li rv|range|range]; cbn [zop_ok cmd_ok] in *.
  { destruct Hcmd as (Hd & Hb & _). cbn [obj_cmd zl_step].
    destruct (zsetAdd_obj_ok strtod fpconv_dtoa usable lpjunk Husable zmalloc junk ty Hmalloc Hval entries value Hvalue Hconf cr draws (Zlistpack m) K s e flags)
      as (o' & K' & -> & Ho' & Hs); try done; [lia|]. mstep. cbn [fst snd]. by exists o', K'. }
  all: destruct Ho as (E & Hok & ->); cbn [obj_cmd zl_step].
  - destruct (zsetDel_listpack strtod entries value usable lpjunk Husable ty cr m E e Hok) as (m' & E' & -> & Hok' & Hk). mstep. cbn [fst snd].
    exists (Zlistpack m'), (keys E'). split; [done|]. split; [by exists E'|]. by rewrite Hk.
  - cbn [zsetScore]. rewrite (zzlFind_keys strtod entries value m E e Hok). mstep. cbn [fst snd]. exists (Zlistpack m), (keys E).
    split; [|by split; [exists E|]]. unfold zl_score. by destruct (zl_find e (keys E)).
  - destruct (rank_listpack strtod entries value ty cr m E e rv Hok) as (m' & -> & Hok'); [destruct Hcmd as [Hne _]; by destruct E|]. mstep. cbn [fst snd].
    exists (Zlistpack m'), (keys E). split; [done|]. by split; [exists E|].
  - destruct (zremrange_listpack strtod entries value usable lpjunk Husable ty cr m E range Hok Hop) as (m' & E' & r & -> & Hok' & Hr). mstep. cbn [fst snd].
    exists (Zlistpack m'), (keys E'). rewrite <- Hr. split; [done|]. by split; [exists E'|].
  - destruct (rangebyrank_listpack strtod entries value m E start end_ rv Hok) as (m' & -> & Hok'). mstep. cbn [fst snd].
    exists (Zlistpack m'), (keys E). split; [done|]. by split; [exists E|].
  - destruct Hop as [Hg Hpg]. destruct (rangebyscore_listpack strtod entries value m E range o li rv Hok Hg Hpg) as (m' & -> & Hok'). mstep. cbn [fst snd].
    exists (Zlistpack m'), (keys E). split; [done|]. by split; [exists E|].
  - destruct Hop as [Hg Hpg]. rewrite (rangebylex_listpack strtod entries value m E range o li rv Hok Hg Hpg). mstep. cbn [fst snd].
    exists (Zlistpack m), (keys E). split; [done|]. by split; [exists E|].
  - rewrite (zcount_listpack strtod entries value m E range Hok Hop). mstep. exists (Zlistpack m), (keys E). split; [done|]. by split; [exists E|].
  - rewrite (zlexcount_listpack strtod entries value m E range Hok Hop). mstep. exists (Zlistpack m), (keys E). split; [done|]. by split; [exists E|].
Qed.

(** ** The object and the list *)

Definition obj_ok (o : zobj) (L : list key) : Prop := exists K, obj_keys o K /\ same K L /\ storable L.

Lemma zl_step_storable op L : storable L -> cmd_ok op L -> storable (zl_step op L).1.
Proof using.
  intros HL Hop. destruct op as [s e flags|e|e|e rv|[start end_|range|range]|start end_ rv|range o li rv|range o li rv|range|range]; cbn [zl_step fst]; try done.
  - destruct Hop as (Hd & Hb & _). by apply storable_add.
  - eapply storable_sublist; [|exact HL]. apply sublist_filter.
  - cbn [zl_remrange]. destruct (sanitize (Z.of_nat (length L)) start end_) as [[s e]|] eqn:Es; [|done]. apply sanitize_spec in Es; [|lia].
    eapply storable_sublist; [|exact HL]. apply take_drop_sublist. lia.
  - eapply storable_sublist; [|exact HL]. apply list_filter_sublist.
  - eapply storable_sublist; [|exact HL]. apply list_filter_sublist.
Qed.

Lemma same_cmd_ok op L L' : same L L' -> cmd_ok op L -> cmd_ok op L'.
Proof using. intros H. destruct op; cbn [cmd_ok]; try done. intros [Hne He]. split; [|done]. by destruct H. Qed.

Lemma obj_step_ok cr draws op o L : obj_ok o L -> (forall k, is_Some (zslRandomLevel (draws k))) -> obj_op_ok op L -> Z.of_nat (length L) < 2 ^ 32 - 1 ->
  exists o' r, obj_step cr draws op o = Some (o', r) /\ obj_ok o' (ol_step op L).1 /\ option_Forall2 same_res r (ol_step op L).2.
Proof using Htext Husable Hmalloc Hval Hvalue Hconf.
  intros (K & HK & HKL & HL) Hdr Hop Hlen. pose proof (same_length _ _ HKL) as Hl. destruct op as [op|size_hint len_hint|maxelelen totelelen| |]; cbn [obj_step ol_step obj_op_ok fst snd] in *.
  - destruct Hop as [Hop Hcmd]. destruct (obj_cmd_ok cr draws op o K HK Hdr) as (o' & K' & -> & HK' & Hs'); [by rewrite Hl|by eapply same_zop_ok; [symmetry|]|by eapply same_cmd_ok; [symmetry|]|].
    mstep. cbn [fst snd]. destruct (same_step op K L HKL) as [H1 H2]. exists o', (Some (zl_step op K).2). split; [done|]. split; [|by constructor].
    exists K'. split; [done|]. split; [by etrans|]. by apply zl_step_storable.
  - unfold zsetTypeMaybeConvert. destruct o as [m|zs]; [|mstep; exists (Zskiplist zs), None; split; [done|]; split; [by exists K|constructor]].
    destruct (_ || _).
    + destruct (to_skiplist_ok strtod fpconv_dtoa usable lpjunk zmalloc junk ty Hmalloc Hval entries value cr draws (Zlistpack m) K size_hint HK Hdr Hop) as (zs & n & l & -> & Hzs & ->).
      mstep. exists (Zskiplist zs), None. split; [done|]. split; [|constructor]. exists (c_key <$> l). split; [by exists l|done].
    + mstep. exists (Zlistpack m), None. split; [done|]. split; [by exists K|constructor].
  - unfold zsetConvertToListpackIfNeeded. destruct o as [m|zs]; [mstep; exists (Zlistpack m), None; split; [done|]; split; [by exists K|constructor]|].
    unfold lpSafeToAdd. mstep. destruct (_ && _) eqn:Hc; [|mstep; exists (Zskiplist zs), None; split; [done|]; split; [by exists K|constructor]].
    apply andb_true_iff in Hc as [Hc _]. apply andb_true_iff in Hc as [Hc1%Z.leb_le Hc2%Z.leb_le]. unfold zsetConvert, zsetLength. mstep. cbn [fst snd].
    destruct (to_listpack_ok strtod fpconv_dtoa usable lpjunk Husable zmalloc junk ty entries value Hvalue Hconf cr draws (Zskiplist zs) K (zsl_length (zs_zsl zs)) HK) as (m & n & E & -> & Hok & Hs).
    { by eapply storable_same; [symmetry|]. }
    { destruct HK as (l & Hzs & ->). rewrite length_fmap. by rewrite (sh_length (rep_shape (zo_rep _ _ _ Hzs))) in Hc1. }
    { eapply Forall2_Forall_r; [symmetry; exact HKL|]. eapply Forall_impl; [exact Hop|]. cbn. intros k Hk k' [_ Ek]. rewrite <- Ek. lia. }
    mstep. exists (Zlistpack m), None. split; [done|]. split; [|constructor]. exists (keys E). split; [by exists E|]. split; [by etrans|done].
  - unfold zsetConvert. destruct (zsetLength_ok strtod ty entries value o K HK) as (o1 & -> & HK1 & _). mstep. cbn [fst snd].
    destruct (to_skiplist_ok strtod fpconv_dtoa usable lpjunk zmalloc junk ty Hmalloc Hval entries value cr draws o1 K (Z.of_nat (length K)) HK1 Hdr ltac:(lia)) as (zs & n & l & -> & Hzs & ->).
    mstep. exists (Zskiplist zs), None. split; [done|]. split; [|constructor]. exists (c_key <$> l). split; [by exists l|done].
  - destruct (zsetDup_ok strtod zmalloc junk ty Hmalloc Hval entries value cr draws o K HK Hdr) as (o' & -> & HK'). mstep.
    exists o', None. split; [done|]. split; [by exists K|constructor].
Qed.

Lemma obj_run_ok calls o L : obj_ok o L -> Forall (fun c => forall k, is_Some (zslRandomLevel (c.1.2 k))) calls -> obj_ops_ok (2 ^ 32 - 1) calls.*2 L ->
  exists o' rs, obj_run calls o = Some (o', rs) /\ obj_ok o' (ol_run calls.*2 L).1 /\ same_results rs (ol_run calls.*2 L).2.
Proof using Htext Husable Hmalloc Hval Hvalue Hconf.
  revert o L. induction calls as [|[[cr draws] op] calls IH]; intros o L Hok Hd Hops; [exists o, []; split; [done|]; split; [done|constructor]|].
  rewrite fmap_cons in *. cbn [obj_ops_ok ol_run obj_run snd fst] in *. apply Forall_cons in Hd as [Hd1 Hd]. destruct Hops as (H1 & H2 & H3).
  destruct (obj_step_ok cr draws op o L Hok Hd1 H1 H2) as (o1 & r & -> & Hok1 & Hr). mstep. cbn [fst snd].
  destruct (IH o1 _ Hok1 Hd H3) as (o2 & rs & -> & Hok2 & Hrs). mstep. exists o2, (r :: rs). split; [done|]. split; [done|by constructor].
Qed.

(** ** What holds of sorted set objects *)


(** C29: converting a listpack to a skiplist and back gives a listpack with the
    same elements in the same order and equal scores; the way back is taken when
    the bounds passed for the lengths are within the limits. *)
Theorem zset_conversion_roundtrip cr draws m E maxelelen totelelen :
  zzl_ok m E -> Forall (fun z => Forall is_byte (z_ele z) /\ zlen (z_ele z) <= maxelelen) E -> (forall k, is_Some (zslRandomLevel (draws k))) ->
  maxelelen <= value -> 0 <= totelelen <= 2 ^ 30 ->
  exists zs n m' E', zsetConvert strtod fpconv_dtoa usable lpjunk zmalloc junk ty cr draws (Zlistpack m) OBJ_ENCODING_SKIPLIST = Some (Zskiplist zs, n) /\
    zsetConvertToListpackIfNeeded strtod fpconv_dtoa usable lpjunk zmalloc junk ty entries value cr draws (Zskiplist zs) maxelelen totelelen = Some (Zlistpack m') /\
    zzl_ok m' E' /\ same (keys E') (keys E).
Proof using Htext Husable Hmalloc Hval Hvalue Hconf.
  intros Hok HE Hdr Hmax Htot. unfold zsetConvert. destruct (zsetLength_ok strtod ty entries value (Zlistpack m) (keys E)) as (o1 & -> & HK1 & _); [by exists E|]. mstep. cbn [fst snd].
  destruct (to_skiplist_ok strtod fpconv_dtoa usable lpjunk zmalloc junk ty Hmalloc Hval entries value cr draws o1 (keys E) (zlen (keys E)) HK1 Hdr ltac:(lia)) as (zs & n & l & -> & Hzs & Hl).
  exists zs, n. unfold zsetConvertToListpackIfNeeded, lpSafeToAdd. mstep. rewrite wrapu_id by (unfold fits_u; lia).
  assert (zsl_length (zs_zsl zs) = Z.of_nat (length E)) as Hlen.
  { rewrite (sh_length (rep_shape (zo_rep _ _ _ Hzs))), <- (length_fmap c_key l), <- Hl, length_fmap. done. }
  pose proof (zk_entries _ _ _ _ _ Hok) as He. rewrite Hlen. destruct (Z.leb_spec (Z.of_nat (length E)) entries); [|lia].
  destruct (Z.leb_spec maxelelen value); [|lia]. replace (Z.shiftl 1 30) with (2 ^ 30) by done. destruct (Z.ltb_spec (2 ^ 30) (0 + totelelen)); [lia|]. cbn [andb negb].
  unfold zsetConvert, zsetLength. mstep. cbn [fst snd].
  destruct (to_listpack_ok strtod fpconv_dtoa usable lpjunk Husable zmalloc junk ty entries value Hvalue Hconf cr draws (Zskiplist zs) (keys E) (zsl_length (zs_zsl zs))) as (m' & n' & E' & -> & Hok' & Hs).
  - exists l. by split.
  - unfold storable. rewrite Forall_fmap. apply Forall_and. split; [apply (zk_double _ _ _ _ _ Hok)|]. eapply Forall_impl; [exact HE|]. by intros z [? _].
  - by rewrite length_fmap.
  - apply (zk_value _ _ _ _ _) in Hok. by rewrite Forall_fmap.
  - mstep. by exists m', E'.
Qed.

(** A listpack with a negative offset passes over all elements. *)
Lemma skip_negative m E p l fuel offset : rep m (vals E) -> points E false p l -> - 2 ^ 63 + Z.of_nat (length l) <= offset < 0 -> (length l <= fuel)%nat ->
  lp_skip fuel m false offset p = Some None.
Proof using.
  intros Hr. revert p l offset. induction fuel as [|fuel IH]; intros p l offset Hp Ho Hf; pose proof (points_step m E Hr _ _ _ Hp) as H.
  - destruct l; [by subst p|cbn in Hf; lia].
  - destruct l as [|z l]; [by subst p|]. destruct H as (i & p' & Hz & -> & Hmv & _ & Hp'). cbn [lp_skip length] in *. destruct (Z.eqb_spec offset 0); [lia|].
    rewrite Hmv. mstep. rewrite wraps_id by (unfold fits_s; lia). apply (IH p' l); [done|lia|lia].
Qed.

(** C33: the encodings disagree on a negative offset: in the same sorted set, for
    a range of scores with [R] as its elements and an offset from [-|R|] to -1,
    the listpack returns nothing and the skiplist the last elements of [R]. *)
Theorem negative_offset_disagrees m E zs l range offset limit :
  let R := List.filter (score_in range) (keys E) in
  zzl_ok m E -> zset_ok ty zs l -> c_key <$> l = keys E -> good_range range -> - Z.of_nat (length R) <= offset < 0 -> - 2 ^ 63 <= limit < 2 ^ 63 ->
  genericZrangebyscore strtod (Zlistpack m) range offset limit false = Some (Zlistpack m, []) /\
  genericZrangebyscore strtod (Zskiplist zs) range offset limit false = Some (Zskiplist zs, emit <$> limited limit (drop (length R - Z.to_nat (- offset)) R)).
Proof using.
  intros R Hok Hzs Hl Hg Ho Hlim. pose proof (zk_rep _ _ _ _ _ Hok) as Hr. pose proof (elements_bound m E Hr) as Hb. pose proof (zo_rep _ _ _ Hzs) as Hrep.
  assert (length R <= length E)%nat as HRE by (unfold R; rewrite <- (length_fmap (z_key strtod) E); apply List.filter_length_le).
  assert (length l = length E) as HlE by (rewrite <- (length_fmap c_key l), Hl, length_fmap; done).
  unfold genericZrangebyscore. destruct (Z.ltb_spec 0 offset); [lia|]. mstep. cbn [andb]. split.
  - unfold zrangeby_listpack. pose proof (lp_score_range_ok strtod m E Hr (zk_set _ _ _ _ _ Hok) range Hg) as Hrok.
    destruct (in_range_start m E _ _ _ Hr Hrok false) as (p & r & E1 & Hp & ->). rewrite E1. mstep. case_decide as HR.
    + cbn [at_element]. mstep. by destruct (length m).
    + rewrite (points_at_element m E Hr _ _ _ Hp). mstep. pose proof (points_length _ _ _ _ Hp) as Hpl. pose proof (elements_fuel m E Hr).
      rewrite (skip_negative m E p _ (length m) offset Hr Hp) by lia. mstep. by destruct (length m).
  - unfold zrangeby_skiplist. set (C := in_range (gte range) (lte range) l). assert (c_key <$> C = R) as HC by (unfold C, R, in_range; rewrite <- Hl; apply (filter_keys (score_in range))).
    assert (length C = length R) as HCR by (rewrite <- HC, length_fmap; done).
    rewrite (nth_in_range_spec Hrep (score_range_ok range Hg) (gte_antitone (rep_good Hrep) (rep_sorted Hrep) range Hg) (lte_antitone (rep_good Hrep) (rep_sorted Hrep) range Hg)) by lia.
    destruct (Z.leb_spec 0 offset); [lia|]. mstep. fold C. rewrite reverse_lookup by lia. replace (length C - S (Z.to_nat (- offset - 1)))%nat with (length R - Z.to_nat (- offset))%nat by lia.
    unfold C at 1. rewrite (emit_from_start Hrep (score_range_ok range Hg) (gte_antitone (rep_good Hrep) (rep_sorted Hrep) range Hg) (lte_antitone (rep_good Hrep) (rep_sorted Hrep) range Hg)) by lia.
    mstep. fold C. by rewrite <- HC, <- fmap_drop, <- limited_fmap, emit_keys.
Qed.
End run.

(** ** A concrete text of doubles *)

(** A printer that writes the fields of the number after a mark, and its
    reader. *)
Definition demo_fpconv (x : spec_float) : list Z :=
  match x with
  | S754_finite s m e => 200 :: (if s then 1 else 0) :: le_encode 7 (Z.pos m) ++ le_encode 2 (e + 1074)
  | _ => []
  end.

Definition demo_strtod (t : list Z) : spec_float :=
  match string2ll t with
  | Some v => Z2d v
  | None =>
      match t with
      | [105; 110; 102] => S754_infinity false
      | [45; 105; 110; 102] => S754_infinity true
      | 200 :: s :: t => S754_finite (s =? 1) (Z.to_pos (le_decode (take 7 t))) (le_decode (drop 7 t) - 1074)
      | _ => S754_nan
      end
  end.

Lemma finite_double_bounds s m e : is_double (S754_finite s m e) = true -> Z.pos m < 2 ^ 53 /\ -1074 <= e <= 971.
Proof.
  unfold is_double. cbn [valid_binary]. unfold bounded, canonical_mantissa. rewrite andb_true_iff, Z.eqb_eq, Z.leb_le. unfold SpecFloat.fexp, emin.
  rewrite digits2_log2. intros [H1 H2]. split; [|lia]. apply Z.log2_lt_pow2; lia.
Qed.

Lemma marked_text t : string2ll (200 :: t) = None.
Proof.
  destruct (string2ll (200 :: t)) as [v|] eqn:E; [|done]. apply string2ll_spec in E as [Hv E]. unfold decimal_signed in E. destruct (Z.ltb_spec v 0); [done|].
  unfold fits_s in Hv. pose proof (decimal_digits v ltac:(lia)) as Hd. rewrite <- E in Hd. apply Forall_cons in Hd as [Hd _]. unfold digit in Hd. lia.
Qed.

#[export] Instance demo_text : DoubleText demo_strtod demo_fpconv.
Proof.
  split; [done|done| | | |].
  - intros v Hv. unfold demo_strtod. assert (string2ll (decimal_signed v) = Some v) as -> by (by apply string2ll_spec). done.
  - intros s m e H. apply finite_double_bounds in H as [Hm He]. unfold demo_strtod, demo_fpconv. rewrite marked_text.
    rewrite take_app_length', drop_app_length', !le_decode_encode by (by rewrite length_le_encode).
    change (8 * Z.of_nat 7) with 56. change (8 * Z.of_nat 2) with 16. rewrite !Z.mod_small by lia. cbn [Z.to_pos]. replace (e + 1074 - 1074) with e by lia. by destruct s.
  - intros x H. destruct x as [| | |s m e]; cbn [demo_fpconv length]; rewrite ?length_app, ?length_le_encode; lia.
  - intros x H. destruct x as [| | |s m e]; cbn [demo_fpconv]; [constructor..|]. constructor; [unfold is_byte; lia|]. constructor; [unfold is_byte; by destruct s|].
    apply Forall_app. split; apply le_encode_bytes.
Qed.

(** ** Examples *)

(** Up to three elements of eight bytes are in a listpack. *)
Definition half : spec_float := S754_finite false 4503599627370496 (-53).

Definition demo_obj_calls : list (dictResizeEnable * (nat -> list Z) * obj_op) :=
  pair (DICT_RESIZE_ENABLE, fun k => [Z.of_nat k; 2147483647]) <$>
  [Cmd (ZAdd half [98] 0); Cmd (ZAdd d1 [97] 0); Cmd (ZAdd (S754_zero true) [99; 99] 0); Cmd (ZAdd half [97] ZADD_IN_INCR); Cmd (ZRank [97] true);
   Cmd (ZRangeScore (Range half d2 false true) 0 5 true); Dup; Cmd (ZAdd dm1 [49; 50] 0); Cmd (ZScore [97]); Cmd (ZRangeRank 0 (-1) false); Dup;
   Cmd (ZRem [98]); ToListpackIfNeeded 2 10; Cmd (ZCount (Range dm1 half false false)); MaybeConvert 2 3; Cmd (ZRemRange (RANK 0 0));
   Cmd (ZRangeRank 0 (-1) true); ToSkiplist; Cmd (ZRemRange (SCORE (Range d1 (S754_infinity false) false false)))].

#[local] Abbreviation demo_create := (zsetTypeCreate (fun n => n) 7 top_malloc demo_junk demo_zset_type 3 8 DICT_RESIZE_ENABLE 0 0).
#[local] Abbreviation demo_obj_run := (obj_run demo_strtod demo_fpconv (fun n => n) 7 top_malloc demo_junk demo_zset_type 3 8).
#[local] Abbreviation demo_obj_ok := (obj_ok demo_strtod demo_zset_type 3 8).

(** Conditions that were evaluated. *)
Ltac solve_evaluated :=
  repeat match goal with
    | |- _ /\ _ => split
    | |- Forall _ _ => constructor
    | |- _ -> _ => intros ?
    end; done.

Lemma demo_obj_calls_ok : Forall (fun c => forall k, is_Some (zslRandomLevel (c.1.2 k))) demo_obj_calls /\ obj_ops_ok (2 ^ 32 - 1) demo_obj_calls.*2 [].
Proof.
  split.
  - apply Forall_fmap, Forall_true. intros op k. cbn [fst snd]. unfold zslRandomLevel. cbn [random_level].
    destruct (Z.of_nat k <? threshold); by eexists.
  - vm_compute. solve_evaluated.
Qed.


(** The object after the first four calls. *)
Definition demo_listpack : option zobj := o ← demo_create; r ← demo_obj_run (take 4 demo_obj_calls) o; Some r.1.

Definition demo_keys : list key := [(S754_zero true, [99; 99]); (half, [98]); (S754_finite false 6755399441055744 (-52), [97])].

Lemma demo_listpack_ok : exists m E, demo_listpack = Some (Zlistpack m) /\ zzl_ok demo_strtod 3 8 m E /\ same (z_key demo_strtod <$> E) demo_keys.
Proof.
  destruct (zsetTypeCreate_ok demo_strtod (fun n => n) 7 Z.le_refl top_malloc demo_junk demo_zset_type 3 8 ltac:(lia) DICT_RESIZE_ENABLE 0 0 ltac:(lia)) as (o & E0 & Ho).
  destruct (obj_run_ok demo_strtod demo_fpconv (fun n => n) 7 top_malloc demo_junk demo_zset_type 3 8 Z.le_refl top_malloc_fresh eq_refl
    ltac:(lia) ltac:(lia) (take 4 demo_obj_calls) o []) as (o' & rs & E1 & (K & HK & Hs & _) & _).
  { exists []. split; [done|]. split; constructor. }
  { apply Forall_take, demo_obj_calls_ok. }
  { vm_compute. solve_evaluated. }
  assert (demo_listpack = Some o') as E by (unfold demo_listpack; rewrite E0; mstep; rewrite E1; done).
  assert (match demo_listpack with Some (Zlistpack _) => true | _ => false end = true) as Hlp by (vm_compute; reflexivity).
  rewrite E in Hlp |- *. destruct o' as [m|]; [|discriminate]. destruct HK as (E' & Hok & ->). exists m, E'. split; [reflexivity|]. split; [exact Hok|].
  etrans; [exact Hs|]. vm_compute. repeat constructor.
Qed.

Lemma demo_elements E : same (z_key demo_strtod <$> E) demo_keys -> z_ele <$> E = [[99; 99]; [98]; [97]].
Proof. intros H%same_elements. rewrite <- list_fmap_compose in H. exact H. Qed.

Lemma demo_draws k : is_Some (zslRandomLevel ((fun _ : nat => [0; 2147483647]) k)).
Proof. by eexists. Qed.

Lemma zset_conversion_roundtrip_witness : exists m E zs n m' E', demo_listpack = Some (Zlistpack m) /\
  zsetConvert demo_strtod demo_fpconv (fun n => n) 7 top_malloc demo_junk demo_zset_type DICT_RESIZE_ENABLE (fun _ => [0; 2147483647]) (Zlistpack m)
    OBJ_ENCODING_SKIPLIST = Some (Zskiplist zs, n) /\
  zsetConvertToListpackIfNeeded demo_strtod demo_fpconv (fun n => n) 7 top_malloc demo_junk demo_zset_type 3 8 DICT_RESIZE_ENABLE (fun _ => [0; 2147483647])
    (Zskiplist zs) 2 4 = Some (Zlistpack m') /\
  zzl_ok demo_strtod 3 8 m' E' /\ same (z_key demo_strtod <$> E') (z_key demo_strtod <$> E) /\ same (z_key demo_strtod <$> E) demo_keys.
Proof.
  destruct demo_listpack_ok as (m & E & Em & Hok & Hs). pose proof (demo_elements E Hs) as He.
  destruct (zset_conversion_roundtrip demo_strtod demo_fpconv (fun n => n) 7 top_malloc demo_junk demo_zset_type 3 8 Z.le_refl top_malloc_fresh eq_refl
    ltac:(lia) ltac:(lia) DICT_RESIZE_ENABLE (fun _ => [0; 2147483647]) m E 2 4 Hok) as (zs & n & m' & E' & H1 & H2 & H3 & H4).
  - assert (Forall (fun e : sds => Forall is_byte e /\ zlen e <= 2) (z_ele <$> E)) as HF by (rewrite He; repeat constructor; unfold is_byte; cbn; lia).
    rewrite Forall_fmap in HF. exact HF.
  - exact demo_draws.
  - lia.
  - lia.
  - exists m, E, zs, n, m', E'. split; [exact Em|]. split; [exact H1|]. split; [exact H2|]. split; [exact H3|]. split; [exact H4|exact Hs].
Defined.

Lemma negative_offset_disagrees_witness : exists m zs r, demo_listpack = Some (Zlistpack m) /\
  genericZrangebyscore demo_strtod (Zlistpack m) (Range dm1 d2 false false) (-1) 1 false = Some (Zlistpack m, []) /\
  genericZrangebyscore demo_strtod (Zskiplist zs) (Range dm1 d2 false false) (-1) 1 false = Some (Zskiplist zs, r) /\ length r = 1%nat.
Proof.
  destruct demo_listpack_ok as (m & E & Em & Hok & Hs).
  destruct (to_skiplist_ok demo_strtod demo_fpconv (fun n => n) 7 top_malloc demo_junk demo_zset_type top_malloc_fresh eq_refl 3 8 DICT_RESIZE_ENABLE
    (fun _ => [0; 2147483647]) (Zlistpack m) _ 3 (ex_intro _ E (conj Hok eq_refl)) demo_draws ltac:(lia)) as (zs & n & l & _ & Hzs & Hl).
  assert (length (List.filter (score_in (Range dm1 d2 false false)) (z_key demo_strtod <$> E)) = 3%nat) as H3.
  { rewrite (same_length _ _ (same_filter _ _ _ _ Hs)). vm_compute. reflexivity. }
  destruct (negative_offset_disagrees demo_strtod demo_zset_type 3 8 m E zs l (Range dm1 d2 false false) (-1) 1 Hok Hzs (eq_sym Hl)) as [H1 H2].
  - split; reflexivity.
  - rewrite H3. lia.
  - lia.
  - exists m, zs. eexists. split; [exact Em|]. split; [exact H1|]. split; [exact H2|]. rewrite length_fmap. unfold limited.
    destruct (Z.ltb_spec 1 0); [lia|]. rewrite length_take, length_drop, H3. reflexivity.
Defined.
